(* ===== verification/_CoqProject ===== *)
-Q . S2P
Prelude.v
CppString.v
Decimal.v
SlotHash.v
Cluster.v
AsyncCluster.v
AsyncClusterSpec.v
TsQueue.v
TsQueueSpec.v
SkipQueue.v
Timer.v
Block.v
Waiters.v
Channel.v
VoidChannel.v
ThreadPool.v
RWMutex.v
Sched.v
Processer.v
TaskObject.v
SchedRun.v
FdContext.v
FdContextSpec.v
Kernel.v
FdManager.v
EventLoop.v
Hook.v
HookSpec.v
HostEnt.v
HostEntSpec.v
Http.v
HttpSpec.v
HttpServe.v
HttpServeSpec.v
WebResource.v
WebResourceSpec.v
Pool.v
PoolSpec.v
ClientSocket.v
ClientSocketSpec.v
RedisCommand.v
RedisReply.v
RedisReplySpec.v
RedisTransaction.v
WinHook.v
WinHookSpec.v
Report.v
ReportSpec.v
XlsxRead.v
XlsxReadSpec.v
Attendance.v
Fastcgi.v
XlsxWrite.v
XmlDoc.v
AttendanceSpec.v
XlsxWriteSpec.v
Csv.v
CsvSpec.v
ExcelToMysql.v
XlsxPull.v
XlsxPullSpec.v
XlsxPullRound.v
