(* ===== verification/Prelude.v ===== *)
(** * asio_coro_frame: verification library

    The repository is a server framework: a coroutine library (a copy of libgo with its own
    scheduler, under src/libgo/libgo), clients for Redis, one for a single server (redispp) and one
    for a cluster (on hiredis), an HTTP server and client (src/common), the services made of them
    (src/serverResource.hpp, src/fastcgi), and tools on spreadsheets and a database (src/tools).
    This library models their logic; each definition names, in the annotation before it, the lines
    it translates.

    ** The parts and how they call each other

<<
                                                        WebResource       Report  Attendance  Csv  ExcelToMysql
                                                         |       |                   |         |    |
      Hook (system calls of a coroutine)  Redis client  cluster clients  HttpServe  XlsxRead XlsxWrite XlsxPull
        |     |   |         |               |     |      |    |    |        |            |     |
  HostEnt FdManager Timer Scheduler    Command Reply SlotHash Slots Pool   Http         XmlDoc
            |              |   |   |        |     |      |                  |
          Reactor  Processer TSQueue BlockObject  ClientSocket Decimal CppString
                                       |
                        CoMutex  CoRWMutex  Channel  ThreadPool
>>

    A coroutine runs in a [Processer] of a thread of the [Scheduler].  A hooked call that would
    block enters an [IoSentry] in the [FileDescriptorCtx] of each descriptor and switches out; the
    reactor thread's [epoll_wait] calls [reactor_trigger], which takes the sentries out and makes
    their coroutines runnable; a timer does the same at the time-out.  [TSQueue] is the run queue
    and every waiting list; [BlockObject] is the semaphore from which locks and channels are made.
    [co_await] gives a function to the threads of a [ThreadPool] and waits for it at a channel.
    The web service registers one resource with the HTTP server; it answers with a file, or with a
    number that the cluster client counts up, through a pool of connections that threads share.
    The tools read and write workbooks: [XlsxWrite] makes an archive of XML parts, [XlsxRead] reports
    the cells of one to callbacks and [XlsxPull] gives them on demand; [Csv] goes both ways.

    ** Files

    - Prelude.v: machine widths ([u16], [u32], [u64]), the state-and-exception monad [M] with its
      run lemmas, labelled transition systems ([reachable], [run], invariants by induction on them),
      counting on traces, tactics and the hint database [cpp].
    - CppString.v: std::string positions, [find], [substr], with [npos] arithmetic at 64 bits.
      Decimal.v: printing and reading numbers.
    - SlotHash.v: common/slothash.h.  [crc16] with the source's table and [SlotByKey].
    - Cluster.v: common/cluster.h (Module Cluster), container.h (Slots: the map of slot ranges, a
      sorted list), hiredisprocess.h (HiredisProcess: reading a redirection), hirediscommand.h
      ([process], [follow]).  hiredis is given by parameters; TwoNodes is a cluster of two nodes
      that the examples run.  [live] counts reply objects not yet freed.
    - AsyncCluster.v, AsyncClusterSpec.v: common/asynchirediscommand.h.  A command is an object with
      a lifetime, the callbacks are functions of the objects and of the callbacks registered with
      hiredis, and [step] is the event loop.
    - TsQueue.v, TsQueueSpec.v: libgo/ts_queue.h, SList and TSQueue, and the reference counts of
      util.h, over a heap of hooks; [rep] and [lrep] relate the links to a list.
      SkipQueue.v: TSSkipQueue of the same header.
    - Timer.v: libgo/timer.h, timer.cpp (CoTimer, CoTimerMgr) and the loops of
      sleep_wait.cpp and scheduler.cpp that drain it.
    - Block.v: libgo/block_object.cpp (BlockObject) and co_mutex.cpp (CoMutex).
      Waiters.v: lists of threads blocked on semaphores.  Channel.v: channel.h, and VoidChannel.v
      its specialisation for void.  RWMutex.v: co_rwmutex.cpp.
    - ThreadPool.v: thread_pool.cpp, thread_pool.h and co_await of coroutine.h.
    - Sched.v: scheduler.cpp, processer.cpp, sleep_wait.cpp and io_wait.cpp as one transition
      system over all threads.  Processer.v: [Processer::Run] as the function one thread sees.
      SchedRun.v: [Scheduler::Run], a round of a thread with its timers and its waiting.
      TaskObject.v: task.cpp, the exceptions of a coroutine and the statistics.
    - FdContext.v, FdContextSpec.v: linux/fd_context.cpp, FileDescriptorCtx and IoSentry.
      FdManager.v: FdManager of the same file.  EventLoop.v: [IoWait::WaitLoop] of io_wait.cpp over
      both.  Kernel.v: the system calls they rest on.
    - Hook.v, HookSpec.v: linux/linux_glibc_hook.cpp, every hook on descriptors, on polling and
      on sleeping.  HostEnt.v, HostEntSpec.v: the hooks on the name service, which copy C structures
      in a memory of bytes.
    - WinHook.v, WinHookSpec.v: windows/win_vc_hook.cpp, the hooks on Winsock.
    - RedisCommand.v: common/redispp.cpp, redispp.h, the sending half (Buffer, Command and the
      methods of Connection).  RedisReply.v, RedisReplySpec.v: the receiving half (the reply objects
      and the list [outstandingReplies]).  RedisTransaction.v: Transaction, and how a connection
      gets out of step.
    - Http.v, HttpSpec.v: common/server/server_http.hpp (Module Server) and client_http.hpp
      (Module Client), the reading and writing of messages.  HttpServe.v, HttpServeSpec.v: the
      answer a resource writes, a connection with its requests one after the other, and what the
      client does for one of its own.
    - WebResource.v, WebResourceSpec.v: serverResource.hpp, the functions on texts (Text), the
      resource for files (Resource) and for flow numbers, composed with the server, the client and
      the cluster client.  Pool.v, PoolSpec.v: ThreadedPool of the same file (and of
      fastcgi/redis_cluster.hpp) as a transition system over its mutexes and condition variables.
    - ClientSocket.v, ClientSocketSpec.v: common/redispp.cpp, the socket and its stream buffer.
    - Fastcgi.v: fastcgi/router.cpp, pdf_api.cpp, redis_api.cpp.
    - Report.v, ReportSpec.v: tools/all_report, the queries and stages of the monthly report.
    - XlsxRead.v, XlsxReadSpec.v: tools/xlsxio/lib/xlsxio_read.c, from the parts of the archive to
      the calls of the application.  Attendance.v, AttendanceSpec.v: tools/work_attendance, from the
      calls to the list that is written.
    - XlsxWrite.v: tools/xlsxio/lib/xlsxio_write.c.  XmlDoc.v: XML documents as tokens with their
      text, what a parser reports of them ([ParserLaws]), and a parser that does ([Small]).
      XlsxWriteSpec.v: what is written, as such a document, and what the reader makes of it.
    - XlsxPull.v, XlsxPullSpec.v, XlsxPullRound.v: the interface of xlsxio_read.c without callbacks,
      over a parser that is suspended; it gives what the callbacks get, and what was written.
    - Csv.v, CsvSpec.v: tools/xlsxio/src, the programs between CSV files and workbooks.
      ExcelToMysql.v: tools/excel_to_mysql, the program that prints a workbook.

    ** How code becomes a definition

    A pointer is an [option] of a location and an operation that dereferences a bad one is [None].
    A member function that throws is a function to [result] and the state reached.  Unsigned
    arithmetic that can wrap is written with [u64] and the like where the result is used; int
    conversions of the hooks are written with [int32].  Code that runs in several threads is an
    inductive step relation, one step for each critical section, atomic operation or
    compare-and-swap, with the program point of each thread in the state.  Code under one lock is
    the function of its critical section.

    ** What is proved

    - Queues: any sequence of operations on a TSQueue is a FIFO list with removal, dereferences no
      freed hook and counts each owner once ([TSQueue_refines_list]); taking several at once and
      stealing between two queues cut and join the lists; clearing a list releases its hooks.
      The skip queue returns what the plain list does.
    - Hashing: the table-driven CRC is the bitwise XMODEM CRC, on every input; the slot is that of
      the hash tag exactly when a non-empty one is there.
    - Semaphores, mutex, reader-writer lock, channel: counting, exclusion, the FIFO of a channel,
      its bound (the capacity and the readers that have announced themselves), and that a channel is not
      stuck while there is something to do.
    - Thread pool: a function given to [co_await] is called once, its result answers its own call, and
      with a worker every call is answered.  A channel of void is one of values that carry nothing.
    - Timers: a timer runs at most once; after every sequence of operations the two deadline maps, the
      timers' tokens and their activity agree with what was created, cancelled and handed out
      ([CoTimerMgr_invariant]); the loop that drains them ends.  A round of a thread ends, waits no longer
      than its bound, and not past a deadline unless it found the map locked by another thread and went
      by an old deadline ([Run_waits], [stale_round]); the statistics count the coroutines there are.
    - Scheduler: each coroutine is in exactly one place in every reachable state
      ([Scheduler_conserves_tasks]), a wakeup that races with going to sleep is not lost, a
      runnable coroutine can always be run by some thread, one thread runs it at a time.
      [Processer::Run] ends and keeps the order of the queue.
    - Reactor: a wait that was registered stays in epoll's interest set, whatever other waits do and whatever
      fails, until it is woken, dropped or the descriptor is closed ([waiting_is_watched]), and a
      reported event wakes exactly those who wait for it, through the table of descriptors and the
      loop over epoll's events ([WaitLoop_wakes]).
    - Hooks: the program sees the non-blocking flag it set while the kernel keeps the library's;
      poll's contract; the outcome of a blocking read or write, which ends if the kernel
      interrupts and misreports readiness finitely often.
    - Redis: the bytes sent parse back to the command and its arguments and never overflow the
      buffer; replies may be taken in any order, copied, assigned and dropped, and each is its own
      command's (a refinement of independent futures, for the programs for which [Pipeline.spec] is defined); a
      committed transaction.
    - Cluster: a key is sent to the node the table gives for its slot, one redirection is followed,
      and every reply but the one returned is freed.  An asynchronous command that was accepted is
      answered exactly once and its object deleted then; only its first redirection is followed.
    - HTTP: what the client writes the server reads; chunked bodies are put together again; the
      resource is the first registered one that matches; a connection that is kept serves its
      requests in order, each with the content that arrives ([arrives], [line_moved]), and every connection ends.
    - Web service: a file reaches the client byte for byte through resource, server and client; no
      path leads out of the directory; flow numbers count ([flow_numbers_count]), but not when
      requests overlap ([flow_numbers_race]); the pool gives a connection to one thread at a time
      and loses no wake-up.
    - Socket: the stream buffer is two byte streams ([StreamBuf_refines_streams]).
    - Name service: the copy of an entry stays inside its buffer and is the original's, but for the bytes of an
      address behind a zero byte; failures come out as [h_errno].
    - Windows: in a coroutine the hooked calls look like blocking ones, and end when a time-out is set or
      the socket becomes ready.
    - Tools: the report's stages are the joins their keys name; the attendance list has two lines
      for each row of the sheet, from the parts of any workbook on without hidden rows and phonetic runs.
    - Workbooks: whatever an application writes is read back, by callbacks and on demand
      ([written_is_read], [written_is_pulled]); both interfaces give the same for sheets
      without hidden rows, the first with empty rows dropped where it is asked to ([pull_is_push],
      [hidden_row_differs], [empty_row_loses_next]); a CSV
      file that goes through a workbook comes back with the same bytes ([csv_roundtrip]).

    Where the code does less than it means to, the theorem states what the code does
    ([dup_close_closes_original], [late_destructor_loses_the_wait], [select_reports_requests],
    [content_read_back], [async_redirects], [Pool_drains], [select_loop_forever],
    [connect_may_leave_nonblocking], [pdf_says_ok]), and the modules Desync, Run, TwoNodes, Examples,
    Runs, OneNode, Host, Office, Loopback, Small, Company, Sheet1, Workbook, Tables, Run, Rounds and
    Events run the model on the inputs that show it.

    ** Fuel and bounds

    A loop or recursion that is not structural takes fuel, and a theorem or lemma gives an amount
    that is enough: the number of hooks for clearing a list and destroying a queue
    ([slist_clear_spec], [destroy_spec]), of timers for draining them ([drain_spec]), of coroutines
    queued at the start of a pass and added during it ([Run_fifo]), of polls until the time is up
    ([CoBlockWaitTimed_thread_false]), [3 * left m + 3] for a hooked read or write, where [left]
    falls with each interruption and each false report of readiness ([rw_loop_total]), of header
    lines ([header_loop_lines]) and of chunks ([read_chunks_encode]); of bytes received on a
    connection ([connection_ends]); of characters of a path or a text that is replaced
    ([path_stays_in_web], [replace_all_distinct_subst]); of bytes sent or asked for
    ([StreamBuf_refines_streams]); of strings of an entry ([limit] of HostEnt.v); of rows of the
    first result ([report_is_joins]); of milliseconds of the time-out or until the socket is ready ([hook_select_ends], [hook_select_ready]); of bytes of
    a CSV file ([calls_scan]) and of a text whose special characters are replaced ([fix_spec]); of
    timers ([Run_waits]) and interrupted calls ([WaitLoop_wakes]); a reply's reading needs the
    depth [depth], the number of outstanding replies and two, and the refinement of replies is
    proved at that depth.  Texts are assumed shorter than 2^63 bytes where their positions are
    computed at 64 bits.

    ** Assumptions on code that is not in the repository

    [KernelLaws], [RuntimeLaws] (what the rest of the program may do while a coroutine is
    suspended), the parameters of Cluster.v and AsyncCluster.v (hiredis; no subscriptions, and a
    connecting function that returns no null pointer, as the library's own does not), the matching
    of regular expressions of Http.v, the answers of c-ares (HostEnt.v), [Connector] and
    [ConnectorLaws] (the MySQL connector), [Winsock] and [WinsockLaws], the parts of an archive as
    the zip library and expat give them (XlsxRead.v; [ParserLaws] and [SuspendableLaws] say what a
    parser reports of the documents that are written, and when it stops), the JSON library and
    [system] (Fastcgi.v).  [Scripted], [TwoNodes], [Examples], [OneNode], [Office], [Loopback],
    [Company] and [Small] instantiate them, so the theorems with such hypotheses are applied to concrete runs.

    ** Not modelled

    The switch of machine contexts (context.h and what it stands for: assembler, ucontext and fibers),
    libgo's debugger and its table of options (texts and constants only), the patching of functions
    and the fibers of the Windows port, and the name table of the hooks: they have no state of their
    own above machine code and the loader.  The sockets, strands and timers of asio under the HTTP
    classes, configuration, logging and the wrapper of the MySQL connector only pass calls on to boost
    and the connector.  The JSON library is vendored (two copies of one header and its map).  zip and
    expat, hiredis, c-ares, libfcgi and the regular expressions are parameters.  Of the spreadsheet
    library opening and closing a handle, and of the tools the texts that they show for help, are left
    out; the tests are example programs. *)
From Stdlib Require Export ZArith Lia Bool Ascii String.
From stdpp Require Export base tactics option strings gmap.
From stdpp Require Export list.

#[global] Set Default Goal Selector "!".

(** ** C++ integer widths *)
Declare Scope cpp_scope.
Delimit Scope cpp_scope with cpp.

Definition u16 (x : Z) : Z := (x mod 2 ^ 16)%Z.
Definition u32 (x : Z) : Z := (x mod 2 ^ 32)%Z.
Definition u64 (x : Z) : Z := (x mod 2 ^ 64)%Z.
(** [std::string::npos], also [(size_t)-1] *)
Definition npos : Z := (2 ^ 64 - 1)%Z.

Lemma u16_range x : (0 <= u16 x < 65536)%Z.
Proof. apply Z.mod_pos_bound. lia. Qed.
Lemma u64_range x : (0 <= u64 x < 2 ^ 64)%Z.
Proof. apply Z.mod_pos_bound. lia. Qed.
Lemma u64_small x : (0 <= x < 2 ^ 64)%Z → u64 x = x.
Proof. apply Z.mod_small. Qed.
Lemma u32_small x : (0 <= x < 2 ^ 32)%Z → u32 x = x.
Proof. apply Z.mod_small. Qed.
Lemma u16_small x : (0 <= x < 2 ^ 16)%Z → u16 x = x.
Proof. apply Z.mod_small. Qed.

(** ** Results and the state-and-exception monad

    A C++ member function that may throw is [S → result E A * S]: the object
    state reached when the exception leaves the function is kept. *)
Inductive result (E A : Type) : Type :=
| Ok (a : A)
| Err (e : E).
Arguments Ok {E A} a.
Arguments Err {E A} e.

Definition M (S E A : Type) : Type := S → result E A * S.

#[export] Instance M_ret {S E} : MRet (M S E) := λ A a s, (Ok a, s).
#[export] Instance M_bind {S E} : MBind (M S E) := λ A B f m s,
  match m s with
  | (Ok a, s') => f a s'
  | (Err e, s') => (Err e, s')
  end.

Definition throw {S E A} (e : E) : M S E A := λ s, (Err e, s).
Definition get {S E} : M S E S := λ s, (Ok s, s).
Definition put {S E} (s : S) : M S E unit := λ _, (Ok tt, s).
Definition modify {S E} (f : S → S) : M S E unit := λ s, (Ok tt, f s).

(** [try { m } catch (E e) { h e }] *)
Definition catch {S E E' A} (m : M S E A) (h : E → M S E' A) : M S E' A := λ s,
  match m s with
  | (Ok a, s') => (Ok a, s')
  | (Err e, s') => h e s'
  end.

Section Monad.
Context {S E : Type}.

Lemma bind_Ok {A B} (m : M S E A) (f : A → M S E B) s b s'' :
  (m ≫= f) s = (Ok b, s'') →
  ∃ a s', m s = (Ok a, s') ∧ f a s' = (Ok b, s'').
Proof.
  unfold mbind, M_bind. destruct (m s) as [[a|e] s'] eqn:Hm; [eauto|].
  intros [= <- <-].
Qed.

Lemma run_Ok {A B} (m : M S E A) (f : A → M S E B) s a s' :
  m s = (Ok a, s') → (m ≫= f) s = f a s'.
Proof. intros H. unfold mbind, M_bind. by rewrite H. Qed.
Lemma run_Err {A B} (m : M S E A) (f : A → M S E B) s e s' :
  m s = (Err e, s') → (m ≫= f) s = (Err e, s').
Proof. intros H. unfold mbind, M_bind. by rewrite H. Qed.

Lemma bind_assoc {A B C} (m : M S E A) (f : A → M S E B) (g : B → M S E C) s :
  ((m ≫= f) ≫= g) s = (m ≫= λ a, f a ≫= g) s.
Proof. unfold mbind, M_bind. by destruct (m s) as [[a|e] s']. Qed.

(** Hoare triples with a postcondition for the result and one for the exception. *)
Definition triple {A} (P : S → Prop) (m : M S E A) (Q : A → S → Prop) (R : E → S → Prop) : Prop :=
  ∀ s, P s → match m s with (Ok a, s') => Q a s' | (Err e, s') => R e s' end.

Lemma triple_ret {A} (a : A) (P : S → Prop) Q R : (∀ s, P s → Q a s) → triple P (mret a) Q R.
Proof. intros H s Hs. by apply H. Qed.
Lemma triple_throw {A} (e : E) (P : S → Prop) (Q : A → S → Prop) R : (∀ s, P s → R e s) → triple P (throw e) Q R.
Proof. intros H s Hs. by apply H. Qed.
Lemma triple_bind {A B} P (m : M S E A) (f : A → M S E B) Q' Q R :
  triple P m Q' R → (∀ a, triple (Q' a) (f a) Q R) → triple P (m ≫= f) Q R.
Proof.
  intros Hm Hf s Hs. specialize (Hm s Hs). unfold mbind, M_bind. destruct (m s) as [[a|e] s']; [|done].
  exact (Hf a s' Hm).
Qed.
Lemma triple_weaken {A} (P P' : S → Prop) (m : M S E A) Q Q' (R R' : E → S → Prop) :
  triple P' m Q' R' → (∀ s, P s → P' s) → (∀ a s, Q' a s → Q a s) → (∀ e s, R' e s → R e s) → triple P m Q R.
Proof. intros Hm HP HQ HR s Hs. specialize (Hm s (HP s Hs)). destruct (m s) as [[a|e] s']; auto. Qed.
(** A fact that does not depend on the state may be assumed. *)
Lemma triple_pure {A} (p : Prop) P (m : M S E A) Q R : (p → triple P m Q R) → triple (λ s, p ∧ P s) m Q R.
Proof. intros H s [Hp Hs]. by apply H. Qed.
End Monad.

Lemma triple_catch {S E E' A} P (m : M S E A) (h : E → M S E' A) Q R' R :
  triple P m Q R' → (∀ e, triple (R' e) (h e) Q R) → triple P (catch m h) Q R.
Proof.
  intros Hm Hh s Hs. specialize (Hm s Hs). unfold catch. destruct (m s) as [[a|e] s']; [done|]. exact (Hh e s' Hm).
Qed.

(** ** Labelled transition systems, reachability and invariants *)
Section LTS.
Context {S L : Type}.
Variable init : S → Prop.
Variable step : S → L → S → Prop.

Inductive reachable : S → Prop :=
| reach_init s : init s → reachable s
| reach_step s l s' : reachable s → step s l s' → reachable s'.

Inductive run : S → list L → S → Prop :=
| run_nil s : run s [] s
| run_cons s l s' ls s'' : step s l s' → run s' ls s'' → run s (l :: ls) s''.

Lemma invariant_reachable (I : S → Prop) :
  (∀ s, init s → I s) →
  (∀ s l s', I s → step s l s' → I s') →
  ∀ s, reachable s → I s.
Proof. intros Hi Hs s Hr. induction Hr; eauto. Qed.

Lemma run_app s l1 s' l2 s'' : run s l1 s' → run s' l2 s'' → run s (l1 ++ l2) s''.
Proof. induction 1; simpl; eauto using run. Qed.

Lemma reachable_run s ls s' : reachable s → run s ls s' → reachable s'.
Proof. intros Hr. induction 1; eauto using reachable. Qed.
End LTS.

(** ** Function update: the per-thread or per-object part of a shared state *)
Definition fupd {K V} `{EqDecision K} (f : K → V) (k : K) (v : V) : K → V :=
  λ k', if decide (k' = k) then v else f k'.

Lemma fupd_eq {K V} `{EqDecision K} (f : K → V) k v : fupd f k v k = v.
Proof. unfold fupd. by rewrite decide_True. Qed.
Lemma fupd_ne {K V} `{EqDecision K} (f : K → V) k v k' : k' ≠ k → fupd f k v k' = f k'.
Proof. intros. unfold fupd. by rewrite decide_False. Qed.
#[global] Arguments fupd : simpl never.

(** Case split on whether an updated function is read at the updated key. *)
Ltac fupd_cases :=
  repeat match goal with
  | H : context [fupd _ ?k _ ?k'] |- _ =>
      destruct (decide (k' = k)); [subst; rewrite !fupd_eq in H|rewrite (fupd_ne _ k _ k') in H by done]
  | |- context [fupd _ ?k _ ?k'] =>
      destruct (decide (k' = k)); [subst; rewrite !fupd_eq|rewrite (fupd_ne _ k _ k') by done]
  end.

(** ** Counting the labels of a run *)
Fixpoint count {A} (p : A → bool) (l : list A) : nat :=
  match l with [] => 0 | x :: l => (if p x then 1 else 0) + count p l end.

Lemma count_app {A} (p : A → bool) l1 l2 : count p (l1 ++ l2) = count p l1 + count p l2.
Proof. induction l1 as [|x l IH]; simpl; [done|]. rewrite IH. lia. Qed.

Lemma invariant_run {S L} (step : S → L → S → Prop) (I : S → list L → Prop) :
  (∀ s ls l s', I s ls → step s l s' → I s' (ls ++ [l])) →
  ∀ s ls s', run step s ls s' → ∀ pre, I s pre → I s' (pre ++ ls).
Proof.
  intros Hst s ls s' Hr. induction Hr as [s|s l s1 ls s2 Hs Hr IH]; intros pre HI.
  - by rewrite app_nil_r.
  - replace (pre ++ l :: ls) with ((pre ++ [l]) ++ ls) by by rewrite <- app_assoc. eauto.
Qed.

(** ** Automation *)
Create HintDb cpp.
#[export] Hint Constructors reachable run : cpp.
#[export] Hint Resolve u16_range u64_range : cpp.

(** Split the head [match] of the goal or of a hypothesis on its scrutinee. *)
Ltac case_match_goal :=
  match goal with
  | |- context [match ?x with _ => _ end] => destruct x eqn:?
  end.
Ltac case_match_in H :=
  match type of H with
  | context [match ?x with _ => _ end] => destruct x eqn:?
  end.
