(* ===== verification/CppString.v ===== *)
(** * std::string as the sources use it

    A [std::string] is a list of characters; a [size_t] position is a [Z] in
    [0, 2^64), with [std::string::npos] its greatest value, so the arithmetic the
    sources do on the result of [find] ([find(..) + 1] of [npos] is 0) wraps as it
    does in C++.  [substr] throws [std::out_of_range] ([None]) past the end. *)
From S2P Require Import Prelude.

Abbreviation str := (list ascii).
Definition lit (s : string) : str := list_ascii_of_string s.

Definition CR : ascii := ascii_of_nat 13.
Definition LF : ascii := ascii_of_nat 10.
Definition NUL : ascii := ascii_of_nat 0.
Definition crlf : str := [CR; LF].

Definition size (s : str) : Z := Z.of_nat (length s).

Lemma size_app a b : (size (a ++ b) = size a + size b)%Z.
Proof. unfold size. rewrite length_app. lia. Qed.
Lemma size_cons c (a : str) : (size (c :: a) = 1 + size a)%Z.
Proof. unfold size. simpl. lia. Qed.
Lemma size_nil : (size [] = 0)%Z.
Proof. done. Qed.
Lemma size_nonneg (a : str) : (0 <= size a)%Z.
Proof. unfold size. lia. Qed.

(** [strlen] and [c_str]: the bytes before the first NUL. *)
Fixpoint c_str (s : str) : str :=
  match s with
  | [] => []
  | c :: r => if decide (c = NUL) then [] else c :: c_str r
  end.

(** ** Searching *)
Fixpoint index_of (c : ascii) (s : str) : option nat :=
  match s with
  | [] => None
  | x :: s' => if decide (x = c) then Some 0 else S <$> index_of c s'
  end.

Fixpoint is_prefix (p s : str) : bool :=
  match p, s with
  | [], _ => true
  | a :: p', b :: s' => bool_decide (a = b) && is_prefix p' s'
  | _, _ => false
  end.

Fixpoint index_of_str (p s : str) : option nat :=
  if is_prefix p s then Some 0
  else match s with
       | [] => None
       | _ :: s' => S <$> index_of_str p s'
       end.

Definition at_pos (pos : Z) (o : option nat) : Z :=
  match o with Some i => pos + Z.of_nat i | None => npos end.

(** [s.find(c, pos)] *)
Definition find_char (s : str) (c : ascii) (pos : Z) : Z :=
  if (size s <? pos)%Z then npos
  else at_pos pos (index_of c (drop (Z.to_nat pos) s)).

(** [s.find(p, pos)] *)
Definition find_str (s p : str) (pos : Z) : Z :=
  if (size s <? pos)%Z then npos
  else at_pos pos (index_of_str p (drop (Z.to_nat pos) s)).

(** [s.substr(pos, n)]; [None] is [std::out_of_range] *)
Definition substr (s : str) (pos n : Z) : option str :=
  if (size s <? pos)%Z then None
  else Some (take (Z.to_nat (Z.min n (size s - pos))) (drop (Z.to_nat pos) s)).

(** ** Lemmas on searching *)
Lemma index_of_Some c s i :
  index_of c s = Some i ↔ s !! i = Some c ∧ ∀ j, j < i → s !! j ≠ Some c.
Proof.
  revert i. induction s as [|x s IH]; intros i; simpl.
  - split; [done|]. intros [H _]. by rewrite lookup_nil in H.
  - case_decide as Hx; [subst|].
    + split.
      * intros [= <-]. split; [done|lia].
      * intros [H1 H2]. destruct i as [|i]; [done|].
        exfalso. apply (H2 0); [lia|done].
    + rewrite fmap_Some. split.
      * intros (k & Hk & ->). apply IH in Hk as [H1 H2]. split; [done|].
        intros [|j] Hj; simpl; [congruence|]. apply H2. lia.
      * intros [H1 H2]. destruct i as [|i]; simpl in H1; [congruence|].
        exists i. split; [|done]. apply IH. split; [done|].
        intros j Hj. apply (H2 (S j)). lia.
Qed.

Lemma index_of_None c s : index_of c s = None ↔ c ∉ s.
Proof.
  induction s as [|x s IH]; simpl; [set_solver|].
  case_decide as Hx; [set_solver|]. rewrite fmap_None, IH. set_solver.
Qed.

Lemma index_of_app c a b : c ∉ a → index_of c (a ++ c :: b) = Some (length a).
Proof.
  induction a as [|x a IH]; simpl; intros Hn.
  - by rewrite decide_True.
  - rewrite decide_False by set_solver. rewrite IH by set_solver. done.
Qed.

Lemma index_of_lt c s i : index_of c s = Some i → i < length s.
Proof. intros [H _]%index_of_Some. by eapply lookup_lt_Some. Qed.

Lemma is_prefix_app p s : is_prefix p (p ++ s) = true.
Proof. induction p as [|a p IH]; simpl; [done|]. by rewrite bool_decide_true, IH. Qed.

Lemma is_prefix_spec p s : is_prefix p s = true ↔ ∃ t, s = p ++ t.
Proof.
  split.
  - revert s. induction p as [|a p IH]; intros s; simpl; [eauto|].
    destruct s as [|b s]; [done|]. intros [Hb Hp]%andb_true_iff.
    apply bool_decide_eq_true in Hb as ->.
    destruct (IH _ Hp) as [t ->]. by exists t.
  - intros [t ->]. apply is_prefix_app.
Qed.

(** The first occurrence of [p]: nothing before it matches. *)
Lemma index_of_str_Some p s i :
  index_of_str p s = Some i →
  is_prefix p (drop i s) = true ∧ ∀ j, j < i → is_prefix p (drop j s) = false.
Proof.
  revert i. induction s as [|x s IH]; intros i; simpl.
  - destruct (is_prefix p []) eqn:Hp; [|done]. intros [= <-]. split; [done|lia].
  - destruct (is_prefix p (x :: s)) eqn:Hp.
    + intros [= <-]. split; [done|lia].
    + rewrite fmap_Some. intros (k & Hk & ->). apply IH in Hk as [H1 H2].
      split; [done|]. intros [|j] Hj; [done|]. apply H2. lia.
Qed.

Lemma index_of_str_None p s :
  index_of_str p s = None → ∀ i, i ≤ length s → is_prefix p (drop i s) = false.
Proof.
  induction s as [|x s IH]; simpl.
  - destruct (is_prefix p []) eqn:Hp; [done|]. intros _ i Hi.
    by replace i with 0 by lia.
  - destruct (is_prefix p (x :: s)) eqn:Hp; [done|]. rewrite fmap_None.
    intros Hn [|i] Hi; [done|]. apply IH; [done|lia].
Qed.

Lemma find_char_0 s c :
  find_char s c 0 = at_pos 0 (index_of c s).
Proof.
  unfold find_char. destruct (Z.ltb_spec (size s) 0); [unfold size in *; lia|].
  done.
Qed.

(** [find] past a prefix that the search starts after. *)
Lemma find_char_app a b c :
  find_char (a ++ b) c (size a) = at_pos (size a) (index_of c b).
Proof.
  unfold find_char. unfold size. rewrite length_app.
  destruct (Z.ltb_spec (Z.of_nat (length a + length b)) (Z.of_nat (length a))); [lia|].
  by rewrite Nat2Z.id, drop_app_length.
Qed.

Lemma substr_mid a b c :
  substr (a ++ b ++ c) (size a) (size b) = Some b.
Proof.
  unfold substr, size. rewrite !length_app.
  destruct (Z.ltb_spec (Z.of_nat (length a + (length b + length c))) (Z.of_nat (length a))); [lia|].
  rewrite Z.min_l by lia. rewrite !Nat2Z.id, drop_app_length, take_app_length. done.
Qed.

Lemma substr_app_tail a b n :
  (size b <= n)%Z → substr (a ++ b) (size a) n = Some b.
Proof.
  intros Hn. unfold substr, size in *. rewrite !length_app.
  destruct (Z.ltb_spec (Z.of_nat (length a + length b)) (Z.of_nat (length a))); [lia|].
  rewrite Z.min_r by lia. rewrite Nat2Z.id, drop_app_length.
  replace (Z.to_nat (Z.of_nat (length a + length b) - Z.of_nat (length a))) with (length b) by lia.
  by rewrite firstn_all.
Qed.

Lemma substr_0_take s n : (0 <= n)%Z → substr s 0 n = Some (take (Z.to_nat n) s).
Proof.
  intros Hn. unfold substr, size.
  destruct (Z.ltb_spec (Z.of_nat (length s)) 0); [lia|]. simpl. rewrite drop_0, Z.sub_0_r.
  destruct (Z.le_gt_cases n (Z.of_nat (length s))).
  - by rewrite Z.min_l.
  - rewrite Z.min_r by lia. rewrite Nat2Z.id, firstn_all, take_ge; [done|lia].
Qed.
