(* ===== verification/Decimal.v ===== *)
(** * Decimal numbers in text

    What [boost::lexical_cast], the karma generators [uint_]/[int_] and [std::to_string] print
    and what [operator>>] reads back, for the numbers the sources print (below 10^20). *)
From S2P Require Import Prelude CppString.

#[local] Open Scope Z_scope.

Definition digit (d : Z) : ascii := ascii_of_nat (Z.to_nat (48 + d)).
Definition dval (c : ascii) : Z := Z.of_nat (nat_of_ascii c) - 48.
Definition is_digit (c : ascii) : bool := (0 <=? dval c) && (dval c <=? 9).

Fixpoint dec_aux (fuel : nat) (n : Z) : str :=
  match fuel with
  | O => []
  | S fuel => (if n <? 10 then [] else dec_aux fuel (n / 10)) ++ [digit (n mod 10)]
  end.

(** The decimal digits of a non-negative number. *)
Definition dec (n : Z) : str := dec_aux 20 n.
(** The same with a sign. *)
Definition dec_int (z : Z) : str := if z <? 0 then "-"%char :: dec (- z) else dec z.

Definition value (s : str) : Z := foldl (λ a c, 10 * a + dval c) 0 s.

Lemma digit_val d : 0 <= d < 10 → dval (digit d) = d ∧ is_digit (digit d) = true.
Proof.
  intros Hd. assert (Hv : dval (digit d) = d).
  { unfold dval, digit. rewrite nat_ascii_embedding by lia. lia. }
  split; [done|]. unfold is_digit. rewrite Hv. lia.
Qed.

Lemma dec_aux_spec fuel n :
  0 <= n < 10 ^ Z.of_nat fuel →
  Forall (λ c, is_digit c = true) (dec_aux fuel n) ∧ value (dec_aux fuel n) = n ∧
  (fuel ≠ 0%nat → dec_aux fuel n ≠ []) ∧
  ∀ k : nat, (0 < k)%nat → n < 10 ^ Z.of_nat k → (length (dec_aux fuel n) <= k)%nat.
Proof.
  revert n. induction fuel as [|fuel IH]; intros n Hn; simpl dec_aux.
  - simpl in Hn. assert (n = 0) as -> by lia. split_and!; try done. intros. simpl. lia.
  - rewrite Nat2Z.inj_succ, Z.pow_succ_r in Hn by lia.
    pose proof (Z.mod_pos_bound n 10 ltac:(lia)) as Hm. destruct (digit_val _ Hm) as [Hv Hd].
    destruct (Z.ltb_spec n 10) as [Hlt|Hge].
    + simpl. split_and!.
      * by constructor.
      * unfold value. simpl. rewrite Hv. rewrite Z.mod_small by lia. lia.
      * done.
      * intros k Hk _. lia.
    + destruct (IH (n / 10)) as (H1 & H2 & H3 & H4).
      { split; [apply Z.div_pos; lia|]. apply Z.div_lt_upper_bound; lia. }
      split_and!.
      * apply Forall_app. split; [done|by constructor].
      * unfold value in *. rewrite foldl_app, H2. simpl. rewrite Hv. pose proof (Z.div_mod n 10 ltac:(lia)). lia.
      * intros _. by destruct (dec_aux fuel (n / 10)).
      * intros k Hk Hlt. rewrite length_app. simpl. destruct k as [|k]; [lia|].
        rewrite Nat2Z.inj_succ, Z.pow_succ_r in Hlt by lia. destruct k as [|k]; [simpl in Hlt; lia|].
        specialize (H4 (S k) ltac:(lia) ltac:(apply Z.div_lt_upper_bound; lia)). lia.
Qed.

Lemma dec_digits n : 0 <= n < 10 ^ 20 → Forall (λ c, is_digit c = true) (dec n).
Proof. intros Hn. by apply (dec_aux_spec 20 n). Qed.
Lemma dec_value n : 0 <= n < 10 ^ 20 → value (dec n) = n.
Proof. intros Hn. by apply (dec_aux_spec 20 n). Qed.
Lemma dec_nonempty n : 0 <= n < 10 ^ 20 → dec n ≠ [].
Proof. intros Hn. by apply (dec_aux_spec 20 n). Qed.
Lemma dec_length n k : 0 <= n < 10 ^ 20 → (0 < k)%nat → n < 10 ^ Z.of_nat k → (length (dec n) <= k)%nat.
Proof. intros Hn. by apply (dec_aux_spec 20 n). Qed.
#[global] Arguments dec : simpl never.

(** ** Reading digits *)
Fixpoint span_digits (s : str) : str * str :=
  match s with
  | c :: r => if is_digit c then let '(d, t) := span_digits r in (c :: d, t) else ([], s)
  | [] => ([], [])
  end.

Lemma span_digits_app d r :
  Forall (λ c, is_digit c = true) d → (∀ c r', r = c :: r' → is_digit c = false) → span_digits (d ++ r) = (d, r).
Proof.
  intros Hd Hr. induction Hd as [|c d Hc Hd IH]; simpl.
  - destruct r as [|c r']; [done|]. simpl. by rewrite (Hr c r' eq_refl).
  - by rewrite Hc, IH.
Qed.

(** An unsigned number: at least one digit. *)
Definition read_uint (s : str) : option (Z * str) :=
  match span_digits s with ([], _) => None | (d, r) => Some (value d, r) end.

Lemma read_uint_dec n r :
  0 <= n < 10 ^ 20 → (∀ c r', r = c :: r' → is_digit c = false) → read_uint (dec n ++ r) = Some (n, r).
Proof.
  intros Hn Hr. unfold read_uint. rewrite span_digits_app; [|by apply dec_digits|done].
  pose proof (dec_nonempty n Hn). pose proof (dec_value n Hn). destruct (dec n); congruence.
Qed.

(** A signed number, as [istream >> int64_t] takes it. *)
Definition read_int (s : str) : option (Z * str) :=
  match s with
  | c :: r => if decide (c = "-"%char) then '(n, t) ← read_uint r; Some (- n, t)
              else if decide (c = "+"%char) then read_uint r
              else read_uint s
  | [] => None
  end.

Lemma digit_not_sign c : is_digit c = true → c ≠ "-"%char ∧ c ≠ "+"%char.
Proof. intros Hc. split; intros ->; done. Qed.

Lemma read_int_dec z r :
  - 10 ^ 20 < z < 10 ^ 20 → (∀ c r', r = c :: r' → is_digit c = false) → read_int (dec_int z ++ r) = Some (z, r).
Proof.
  intros Hz Hr. unfold dec_int. destruct (Z.ltb_spec z 0).
  - simpl. rewrite read_uint_dec by (done || lia). simpl. by rewrite Z.opp_involutive.
  - pose proof (dec_nonempty z ltac:(lia)) as Hne. pose proof (dec_digits z ltac:(lia)) as Hd.
    pose proof (read_uint_dec z r ltac:(lia) Hr) as Hu. destruct (dec z) as [|c d]; [done|].
    apply Forall_cons in Hd as [Hc _]. destruct (digit_not_sign _ Hc). simpl app in *. unfold read_int.
    by rewrite !decide_False.
Qed.

(** ** White space *)
(** [std::isspace] in the C locale. *)
Definition is_ws (c : ascii) : bool :=
  let n := nat_of_ascii c in bool_decide (n = 32%nat) || ((9 <=? n)%nat && (n <=? 13)%nat).

Fixpoint skip_ws (s : str) : str :=
  match s with c :: r => if is_ws c then skip_ws r else s | [] => [] end.

Abbreviation ws w := (Forall (λ c, is_ws c = true) w).

Lemma skip_ws_app w c r : ws w → is_ws c = false → skip_ws (w ++ c :: r) = c :: r.
Proof. intros Hw Hc. induction Hw as [|x w Hx Hw IH]; simpl; [by rewrite Hc|by rewrite Hx]. Qed.

Lemma dec_int_head z r : - 10 ^ 20 < z < 10 ^ 20 →
  ∃ c d, dec_int z ++ r = c :: d ∧ is_ws c = false.
Proof.
  intros Hz. unfold dec_int. destruct (Z.ltb_spec z 0).
  - eexists _, _. simpl. split; [reflexivity|done].
  - pose proof (dec_nonempty z ltac:(lia)). pose proof (dec_digits z ltac:(lia)) as Hd.
    destruct (dec z) as [|c d]; [done|]. apply Forall_cons in Hd as [Hc _]. exists c, (d ++ r). split; [done|].
    unfold is_digit, dval in Hc. unfold is_ws. apply andb_true_iff in Hc as [H1%Z.leb_le H2%Z.leb_le].
    rewrite bool_decide_false by lia. simpl. apply andb_false_iff. right. apply Nat.leb_gt. lia.
Qed.

(** [std::stoi]: leading white space, an optional sign and digits; anything may follow.  The two
    errors are [std::invalid_argument] and [std::out_of_range]. *)
Inductive stoi_error := stoi_invalid | stoi_range.

Definition stoi (s : str) : result stoi_error Z :=
  match read_int (skip_ws s) with
  | None => Err stoi_invalid
  | Some (n, _) => if (- 2 ^ 31 <=? n) && (n <? 2 ^ 31) then Ok n else Err stoi_range
  end.

Lemma stoi_dec n : 0 <= n < 2 ^ 31 → stoi (dec n) = Ok n.
Proof.
  intros Hn. unfold stoi.
  assert (Hd : dec n = dec_int n ++ []).
  { unfold dec_int. destruct (Z.ltb_spec n 0); [lia|]. by rewrite app_nil_r. }
  destruct (dec_int_head n [] ltac:(lia)) as (c & d & E & Hc).
  rewrite Hd, E. cbn [skip_ws]. rewrite Hc, <- E, read_int_dec by (done || lia).
  destruct (Z.leb_spec (- 2 ^ 31) n), (Z.ltb_spec n (2 ^ 31)); simpl; try done; lia.
Qed.
