(* ===== verification/SlotHash.v ===== *)
(** * Redis Cluster key hashing (common/slothash.h)

    [SlotHash::crc16] and [SlotHash::SlotByKey].  A [(const char*, int)] pair is the
    list of the bytes it designates, so [keylen] is its length (Redis limits a key to
    512 MB, below [INT_MAX]).  [char] is signed: [schar].  The C++ integer promotions of
    [crc] are unbounded [Z] operations, truncated to [uint16_t] by the assignment. *)
From S2P Require Import Prelude CppString.
Local Open Scope Z_scope.

(*@ common/slothash.h 38-71 SlotHash::crc16 *)
Definition crc16tab : list Z :=
  [0x0000;0x1021;0x2042;0x3063;0x4084;0x50a5;0x60c6;0x70e7;
   0x8108;0x9129;0xa14a;0xb16b;0xc18c;0xd1ad;0xe1ce;0xf1ef;
   0x1231;0x0210;0x3273;0x2252;0x52b5;0x4294;0x72f7;0x62d6;
   0x9339;0x8318;0xb37b;0xa35a;0xd3bd;0xc39c;0xf3ff;0xe3de;
   0x2462;0x3443;0x0420;0x1401;0x64e6;0x74c7;0x44a4;0x5485;
   0xa56a;0xb54b;0x8528;0x9509;0xe5ee;0xf5cf;0xc5ac;0xd58d;
   0x3653;0x2672;0x1611;0x0630;0x76d7;0x66f6;0x5695;0x46b4;
   0xb75b;0xa77a;0x9719;0x8738;0xf7df;0xe7fe;0xd79d;0xc7bc;
   0x48c4;0x58e5;0x6886;0x78a7;0x0840;0x1861;0x2802;0x3823;
   0xc9cc;0xd9ed;0xe98e;0xf9af;0x8948;0x9969;0xa90a;0xb92b;
   0x5af5;0x4ad4;0x7ab7;0x6a96;0x1a71;0x0a50;0x3a33;0x2a12;
   0xdbfd;0xcbdc;0xfbbf;0xeb9e;0x9b79;0x8b58;0xbb3b;0xab1a;
   0x6ca6;0x7c87;0x4ce4;0x5cc5;0x2c22;0x3c03;0x0c60;0x1c41;
   0xedae;0xfd8f;0xcdec;0xddcd;0xad2a;0xbd0b;0x8d68;0x9d49;
   0x7e97;0x6eb6;0x5ed5;0x4ef4;0x3e13;0x2e32;0x1e51;0x0e70;
   0xff9f;0xefbe;0xdfdd;0xcffc;0xbf1b;0xaf3a;0x9f59;0x8f78;
   0x9188;0x81a9;0xb1ca;0xa1eb;0xd10c;0xc12d;0xf14e;0xe16f;
   0x1080;0x00a1;0x30c2;0x20e3;0x5004;0x4025;0x7046;0x6067;
   0x83b9;0x9398;0xa3fb;0xb3da;0xc33d;0xd31c;0xe37f;0xf35e;
   0x02b1;0x1290;0x22f3;0x32d2;0x4235;0x5214;0x6277;0x7256;
   0xb5ea;0xa5cb;0x95a8;0x8589;0xf56e;0xe54f;0xd52c;0xc50d;
   0x34e2;0x24c3;0x14a0;0x0481;0x7466;0x6447;0x5424;0x4405;
   0xa7db;0xb7fa;0x8799;0x97b8;0xe75f;0xf77e;0xc71d;0xd73c;
   0x26d3;0x36f2;0x0691;0x16b0;0x6657;0x7676;0x4615;0x5634;
   0xd94c;0xc96d;0xf90e;0xe92f;0x99c8;0x89e9;0xb98a;0xa9ab;
   0x5844;0x4865;0x7806;0x6827;0x18c0;0x08e1;0x3882;0x28a3;
   0xcb7d;0xdb5c;0xeb3f;0xfb1e;0x8bf9;0x9bd8;0xabbb;0xbb9a;
   0x4a75;0x5a54;0x6a37;0x7a16;0x0af1;0x1ad0;0x2ab3;0x3a92;
   0xfd2e;0xed0f;0xdd6c;0xcd4d;0xbdaa;0xad8b;0x9de8;0x8dc9;
   0x7c26;0x6c07;0x5c64;0x4c45;0x3ca2;0x2c83;0x1ce0;0x0cc1;
   0xef1f;0xff3e;0xcf5d;0xdf7c;0xaf9b;0xbfba;0x8fd9;0x9ff8;
   0x6e17;0x7e36;0x4e55;0x5e74;0x2e93;0x3eb2;0x0ed1;0x1ef0].

(** The value of a (signed) [char] after promotion to [int]. *)
Definition schar (c : ascii) : Z :=
  let v := Z.of_N (N_of_ascii c) in if v <? 128 then v else v - 256.

(*@ common/slothash.h 75-76 SlotHash::crc16 *)
Definition crc16_step (crc : Z) (c : ascii) : Z :=
  u16 (Z.lxor (Z.shiftl crc 8)
         (nth (Z.to_nat (Z.land (Z.lxor (Z.shiftr crc 8) (schar c)) 0x00FF)) crc16tab 0)).

(*@ common/slothash.h 36-78 SlotHash::crc16 *)
Definition crc16 (buf : str) : Z := foldl crc16_step 0 buf.

(** [for (i = from; i < len; i++) if (key[i] == c) break;] relative to [from]. *)
(*@ common/slothash.h 85-93 SlotHash::SlotByKey *)
Fixpoint scan (c : ascii) (s : str) : nat :=
  match s with
  | [] => 0%nat
  | x :: s' => if decide (x = c) then 0%nat else S (scan c s')
  end.

(*@ common/slothash.h 82-101 SlotHash::SlotByKey *)
Definition SlotByKey (key : str) : Z :=
  let keylen := length key in
  let s := scan "{"%char key in
  if (s =? keylen)%nat then Z.land (crc16 key) 0x3FFF
  else
    let e := (s + 1 + scan "}"%char (drop (s + 1) key))%nat in
    if (e =? keylen)%nat || (e =? s + 1)%nat then Z.land (crc16 key) 0x3FFF
    else Z.land (crc16 (take (e - s - 1) (drop (s + 1) key))) 0x3FFF.

(** ** Reference: CRC-16/XMODEM, bit by bit (polynomial 0x1021, initial value 0) *)
Definition xmodem_bit (x : Z) : Z :=
  u16 (Z.lxor (Z.shiftl x 1) (if Z.testbit x 15 then 0x1021 else 0)).
Definition xmodem_byte (crc : Z) (c : ascii) : Z :=
  Nat.iter 8 xmodem_bit (Z.lxor crc (Z.shiftl (Z.of_N (N_of_ascii c)) 8)).
Definition xmodem (buf : str) : Z := foldl xmodem_byte 0 buf.

(** ** Bit-level lemmas *)
Lemma u16_lxor x y : u16 (Z.lxor x y) = Z.lxor (u16 x) (u16 y).
Proof.
  unfold u16. rewrite <- !Z.land_ones by lia. apply Z.bits_inj'. intros n Hn.
  rewrite !Z.land_spec, !Z.lxor_spec, !Z.land_spec.
  by destruct (Z.testbit x n), (Z.testbit y n), (Z.testbit (Z.ones 16) n).
Qed.

Lemma xmodem_bit_lxor x y :
  xmodem_bit (Z.lxor x y) = Z.lxor (xmodem_bit x) (xmodem_bit y).
Proof.
  unfold xmodem_bit. rewrite <- u16_lxor. f_equal.
  rewrite Z.lxor_spec, Z.shiftl_lxor.
  generalize (Z.shiftl x 1) (Z.shiftl y 1). intros a b.
  destruct (Z.testbit x 15), (Z.testbit y 15); simpl xorb; rewrite ?Z.lxor_0_r;
    apply Z.bits_inj'; intros n Hn; rewrite ?Z.lxor_spec;
    destruct (Z.testbit a n), (Z.testbit b n), (Z.testbit 4129 n); done.
Qed.

Lemma xmodem_iter_lxor n x y :
  Nat.iter n xmodem_bit (Z.lxor x y)
  = Z.lxor (Nat.iter n xmodem_bit x) (Nat.iter n xmodem_bit y).
Proof. induction n as [|n IH]; simpl; [done|]. by rewrite IH, xmodem_bit_lxor. Qed.

(** A boolean check of all values of a byte. *)
Lemma byte_cases (P : Z → bool) :
  forallb P (map Z.of_nat (seq 0 256)) = true → ∀ x, 0 <= x < 256 → P x = true.
Proof.
  rewrite forallb_forall. intros H x Hx. apply H. apply in_map_iff.
  exists (Z.to_nat x). split; [lia|]. apply in_seq. lia.
Qed.

Lemma xmodem_low x : 0 <= x < 256 → Nat.iter 8 xmodem_bit x = Z.shiftl x 8.
Proof.
  intros Hx. apply Z.eqb_eq. revert x Hx.
  apply (byte_cases (λ x, Nat.iter 8 xmodem_bit x =? Z.shiftl x 8)).
  by vm_compute.
Qed.

Lemma xmodem_high x :
  0 <= x < 256 → Nat.iter 8 xmodem_bit (Z.shiftl x 8) = nth (Z.to_nat x) crc16tab 0.
Proof.
  intros Hx. apply Z.eqb_eq. revert x Hx.
  apply (byte_cases (λ x, Nat.iter 8 xmodem_bit (Z.shiftl x 8) =? nth (Z.to_nat x) crc16tab 0)).
  by vm_compute.
Qed.

Lemma crc16tab_range i : 0 <= nth i crc16tab 0 < 65536.
Proof.
  destruct (Nat.lt_ge_cases i 256) as [Hi|Hi].
  - assert (H : (0 <=? nth (Z.to_nat (Z.of_nat i)) crc16tab 0) &&
                (nth (Z.to_nat (Z.of_nat i)) crc16tab 0 <? 65536) = true).
    { apply (byte_cases (λ x, (0 <=? nth (Z.to_nat x) crc16tab 0) &&
                              (nth (Z.to_nat x) crc16tab 0 <? 65536))); [by vm_compute|lia]. }
    rewrite Nat2Z.id in H. apply andb_true_iff in H as [H1 H2].
    apply Z.leb_le in H1. apply Z.ltb_lt in H2. lia.
  - rewrite nth_overflow by (simpl; lia). lia.
Qed.

Lemma ascii_range c : 0 <= Z.of_N (N_of_ascii c) < 256.
Proof. pose proof (N_ascii_bounded c). lia. Qed.

(** Sign extension does not survive the mask of the table index. *)
Lemma land_255 x : Z.land x 0xFF = x mod 256.
Proof. change 0xFF with (Z.ones 8). by rewrite Z.land_ones by lia. Qed.

Lemma schar_mod c : schar c mod 256 = Z.of_N (N_of_ascii c).
Proof.
  pose proof (ascii_range c). unfold schar.
  destruct (Z.ltb_spec (Z.of_N (N_of_ascii c)) 128).
  - apply Z.mod_small. lia.
  - rewrite <- (Z.mod_add _ 1) by lia.
    rewrite Z.mod_small by lia. lia.
Qed.

Lemma lxor_range x y n :
  0 <= n → 0 <= x < 2 ^ n → 0 <= y < 2 ^ n → 0 <= Z.lxor x y < 2 ^ n.
Proof.
  intros Hn Hx Hy. rewrite <- (Z.mod_small x (2 ^ n)), <- (Z.mod_small y (2 ^ n)) by lia.
  rewrite <- !Z.land_ones by lia.
  replace (Z.lxor (Z.land x (Z.ones n)) (Z.land y (Z.ones n)))
    with (Z.land (Z.lxor x y) (Z.ones n)).
  - rewrite Z.land_ones by lia. apply Z.mod_pos_bound. lia.
  - apply Z.bits_inj'. intros m Hm. rewrite !Z.land_spec, !Z.lxor_spec, !Z.land_spec.
    by destruct (Z.testbit x m), (Z.testbit y m), (Z.testbit (Z.ones n) m).
Qed.

Lemma index_eq crc c :
  0 <= crc < 65536 →
  Z.land (Z.lxor (Z.shiftr crc 8) (schar c)) 0xFF
  = Z.lxor (Z.shiftr crc 8) (Z.of_N (N_of_ascii c)).
Proof.
  intros Hc. rewrite <- schar_mod.
  assert (Hs : 0 <= Z.shiftr crc 8 < 2 ^ 8).
  { rewrite Z.shiftr_div_pow2 by lia. split; [apply Z.div_pos; lia|].
    apply Z.div_lt_upper_bound; lia. }
  rewrite <- land_255. transitivity (Z.lxor (Z.land (Z.shiftr crc 8) 0xFF) (Z.land (schar c) 0xFF)).
  - apply Z.bits_inj'. intros m Hm. rewrite !Z.lxor_spec, !Z.land_spec, !Z.lxor_spec.
    by destruct (Z.testbit (Z.shiftr crc 8) m), (Z.testbit (schar c) m), (Z.testbit 0xFF m).
  - f_equal. rewrite land_255. by apply Z.mod_small.
Qed.

(** A 16-bit value is its high byte and its low byte. *)
Lemma split_u16 x : x = Z.lxor (Z.shiftl (Z.shiftr x 8) 8) (Z.land x 0xFF).
Proof.
  apply Z.bits_inj'. intros n Hn. rewrite Z.lxor_spec, Z.land_spec.
  change 0xFF with (Z.ones 8). destruct (Z.lt_ge_cases n 8).
  - rewrite Z.shiftl_spec_low, Z.ones_spec_low by lia. by destruct (Z.testbit x n).
  - rewrite Z.shiftl_spec, Z.shiftr_spec, Z.ones_spec_high by lia.
    replace (n - 8 + 8) with n by lia. by destruct (Z.testbit x n).
Qed.

Lemma crc16_step_xmodem crc c : 0 <= crc < 65536 → crc16_step crc c = xmodem_byte crc c.
Proof.
  intros Hc. unfold crc16_step, xmodem_byte. rewrite index_eq by done.
  set (b := Z.of_N (N_of_ascii c)). pose proof (ascii_range c) as Hb. fold b in Hb.
  assert (Hs : 0 <= Z.shiftr crc 8 < 2 ^ 8).
  { rewrite Z.shiftr_div_pow2 by lia. split; [apply Z.div_pos; lia|].
    apply Z.div_lt_upper_bound; lia. }
  assert (Hx : Z.lxor crc (Z.shiftl b 8)
               = Z.lxor (Z.shiftl (Z.lxor (Z.shiftr crc 8) b) 8) (Z.land crc 0xFF)).
  { rewrite (split_u16 crc) at 1. rewrite Z.shiftl_lxor.
    rewrite !Z.lxor_assoc. f_equal. apply Z.lxor_comm. }
  rewrite Hx, xmodem_iter_lxor, xmodem_high, xmodem_low.
  - rewrite u16_lxor, Z.lxor_comm. f_equal.
    + apply u16_small. apply crc16tab_range.
    + unfold u16. rewrite land_255, !Z.shiftl_mul_pow2 by lia.
      change (2 ^ 16) with (256 * 2 ^ 8). by rewrite Z.mul_mod_distr_r.
  - rewrite land_255. apply Z.mod_pos_bound. lia.
  - apply (lxor_range _ _ 8); lia.
Qed.

Lemma crc16_step_range crc c : 0 <= crc16_step crc c < 65536.
Proof. apply u16_range. Qed.

Lemma foldl_crc_xmodem buf crc :
  0 <= crc < 65536 → foldl crc16_step crc buf = foldl xmodem_byte crc buf.
Proof.
  revert crc. induction buf as [|c buf IH]; intros crc Hc; simpl; [done|].
  rewrite <- crc16_step_xmodem by done. apply IH, crc16_step_range.
Qed.

(** ** The scan of the hash tag *)
Lemma scan_app c a b : c ∉ a → scan c (a ++ c :: b) = length a.
Proof.
  induction a as [|x a IH]; simpl; intros Hn.
  - by rewrite decide_True.
  - rewrite decide_False by set_solver. rewrite IH by set_solver. done.
Qed.

Lemma scan_none c s : c ∉ s → scan c s = length s.
Proof.
  induction s as [|x s IH]; simpl; intros Hn; [done|].
  rewrite decide_False by set_solver. rewrite IH by set_solver. done.
Qed.

Lemma drop_tag (pre rest : str) x : drop (length pre + 1) (pre ++ x :: rest) = rest.
Proof.
  replace (pre ++ x :: rest) with ((pre ++ [x]) ++ rest) by by rewrite <- app_assoc.
  replace (length pre + 1)%nat with (length (pre ++ [x])) by (rewrite length_app; done).
  apply drop_app_length.
Qed.

(** ** Properties *)

(** C3: [crc16] is CRC-16/XMODEM: the table-driven loop, with its signed [char] index
    and its 16-bit truncation, computes the bit-by-bit definition on every buffer. *)
Theorem crc16_correct buf : crc16 buf = xmodem buf.
Proof. unfold crc16, xmodem. apply foldl_crc_xmodem. lia. Qed.

(** Every key, of any length and bytes, is hashed to one of the 16384 slots. *)
Lemma SlotByKey_bound key : 0 <= SlotByKey key < 16384.
Proof.
  assert (H : ∀ x, 0 <= Z.land x 0x3FFF < 16384).
  { intros x. change 0x3FFF with (Z.ones 14). rewrite Z.land_ones by lia.
    apply Z.mod_pos_bound. lia. }
  unfold SlotByKey. repeat case_match; apply H.
Qed.

(** The hash-tag rule, on its four branches: the bytes between the first brace and
    the first closing brace after it are hashed when there are any, and the whole key
    otherwise (no opening brace, no closing one, nothing between the two). *)
Theorem SlotByKey_hashtag :
  (∀ pre tag post, "{"%char ∉ pre → "}"%char ∉ tag → tag ≠ [] →
     SlotByKey (pre ++ "{"%char :: tag ++ "}"%char :: post) = Z.land (crc16 tag) 0x3FFF) ∧
  (∀ key, "{"%char ∉ key → SlotByKey key = Z.land (crc16 key) 0x3FFF) ∧
  (∀ pre post, "{"%char ∉ pre → "}"%char ∉ post →
     SlotByKey (pre ++ "{"%char :: post) = Z.land (crc16 (pre ++ "{"%char :: post)) 0x3FFF) ∧
  (∀ pre post, "{"%char ∉ pre →
     SlotByKey (pre ++ "{"%char :: "}"%char :: post)
     = Z.land (crc16 (pre ++ "{"%char :: "}"%char :: post)) 0x3FFF).
Proof.
  repeat split.
  - intros pre tag post Hp Ht Hne. unfold SlotByKey.
    rewrite scan_app by done. rewrite drop_tag, scan_app by done.
    assert (0 < length tag)%nat by (destruct tag; simpl; [done|lia]).
    rewrite length_app. simpl length. rewrite length_app. simpl length.
    rewrite !(proj2 (Nat.eqb_neq _ _)) by lia. simpl.
    replace (length pre + 1 + length tag - length pre - 1)%nat with (length tag) by lia.
    by rewrite take_app_length.
  - intros key Hk. unfold SlotByKey. rewrite scan_none by done. by rewrite Nat.eqb_refl.
  - intros pre post Hp Hq. unfold SlotByKey.
    rewrite scan_app by done. rewrite drop_tag, scan_none by done.
    rewrite length_app. simpl length. rewrite (proj2 (Nat.eqb_neq _ _)) by lia.
    rewrite (proj2 (Nat.eqb_eq (length pre + 1 + length post) _)) by lia. done.
  - intros pre post Hp. unfold SlotByKey.
    rewrite scan_app by done. rewrite drop_tag. simpl scan.
    rewrite length_app. simpl length. rewrite (proj2 (Nat.eqb_neq _ _)) by lia.
    rewrite Nat.add_0_r, Nat.eqb_refl, orb_true_r. done.
Qed.
