(* ===== verification/Cluster.v ===== *)
(** * The Redis cluster client (common/cluster.h, container.h, hiredisprocess.h, hirediscommand.h)

    A [Cluster] keeps one connection per range of slots, found in the answer to "cluster slots", and
    a cache of the connections made to follow redirections.  [HiredisCommand::process] sends a
    command to the node of its key's slot and follows one MOVED or ASK redirection.  hiredis is not
    part of the sources: connecting, exchanging a command for a reply and a context's error are
    parameters; a reply object has the fields of [redisReply] the sources read. *)
From Stdlib Require Import Sorted.
From S2P Require Import Prelude CppString Decimal SlotHash.

#[local] Open Scope Z_scope.

(** [redisReply], by its [type]. *)
#[warnings="-register-all"]
Inductive redisReply :=
| REDIS_REPLY_STRING (s : str)
| REDIS_REPLY_ARRAY (element : list redisReply)
| REDIS_REPLY_INTEGER (integer : Z)
| REDIS_REPLY_NIL
| REDIS_REPLY_STATUS (s : str)
| REDIS_REPLY_ERROR (s : str).

(** The exceptions of clusterexception.h, those of [std::stoi] and, as [Undefined], the places where
    the behaviour of the code is undefined. *)
(*@ common/clusterexception.h 41-118 ClusterException *)
Inductive exn :=
| AskingFailedException | MovedFailedException | ConnectionFailedException | DisconnectedException
| NodeSearchException | NotInitializedException | ClusterDownException
| LogicError (reason : str) | InvalidArgument
| std_invalid_argument | std_out_of_range
| Undefined.

(** ** The connections by slot: [std::map<SlotRange, Connection*, SlotComparator>] *)
Module Slots.

Abbreviation SlotIndex := Z (only parsing).
Abbreviation SlotRange := (Z * Z)%type (only parsing).

(*@ common/cluster.h 81-85 SlotComparator *)
Definition SlotComparator (a b : SlotRange) : bool := a.1 <? b.1.

Section Storage.
Context {conn : Type}.
(** In the order of the keys. *)
Abbreviation storage := (list (SlotRange * conn)).

(** [std::map::insert]: an equivalent key is kept. *)
Fixpoint insert (k : SlotRange) (c : conn) (l : storage) : storage :=
  match l with
  | [] => [(k, c)]
  | (k', c') :: l' =>
      if SlotComparator k k' then (k, c) :: l
      else if SlotComparator k' k then (k', c') :: insert k c l'
      else l
  end.

(** The position of the first key that is not less. *)
Fixpoint lower_bound (k : SlotRange) (l : storage) : nat :=
  match l with
  | (k', _) :: l' => if SlotComparator k' k then S (lower_bound k l') else 0
  | [] => 0
  end.

(** [--node] on [begin()] is undefined; elsewhere the node is not [end()]. *)
(*@ common/container.h 102-126 DefaultContainer::searchBySlots *)
Definition searchBySlots (index : SlotIndex) (l : storage) : result exn (SlotRange * conn) :=
  match lower_bound (u32 (index + 1), 0) l with
  | O => Err Undefined
  | S node =>
      match l !! node with
      | Some (range, c) =>
          if (index <? range.1) || (range.2 <? index) then Err NodeSearchException
          else Ok (range, c)
      | None => Err NodeSearchException
      end
  end.

(** *** Lemmas *)
Definition keys (l : storage) : list Z := map (λ n, n.1.1) l.
Abbreviation sorted l := (StronglySorted Z.lt (keys l)).

Lemma insert_new k c l : k.1 ∉ keys l → insert k c l ≡ₚ (k, c) :: l.
Proof.
  induction l as [|[k' c'] l IH]; simpl; [done|]. intros Hk. apply not_elem_of_cons in Hk as [H1 H2].
  unfold SlotComparator. destruct (Z.ltb_spec k.1 k'.1); [done|].
  destruct (Z.ltb_spec k'.1 k.1); [|simpl in *; lia]. rewrite IH by done. apply Permutation_swap.
Qed.

Lemma insert_old k c l : sorted l → k.1 ∈ keys l → insert k c l = l.
Proof.
  induction l as [|[k' c'] l IH]; simpl; [set_solver|]. intros [Hs Hf]%StronglySorted_inv Hk.
  unfold SlotComparator. apply elem_of_cons in Hk as [->|Hk]; simpl.
  - by rewrite Z.ltb_irrefl.
  - rewrite Forall_forall in Hf. specialize (Hf _ Hk). simpl in Hf.
    destruct (Z.ltb_spec k.1 k'.1); [lia|]. destruct (Z.ltb_spec k'.1 k.1); [|lia]. by rewrite IH.
Qed.

Lemma insert_keys k c l : ∀ x, x ∈ keys (insert k c l) → x = k.1 ∨ x ∈ keys l.
Proof.
  induction l as [|[k' c'] l IH]; simpl; intros x; [set_solver|].
  unfold SlotComparator. destruct (Z.ltb k.1 k'.1), (Z.ltb k'.1 k.1); simpl; rewrite ?elem_of_cons; naive_solver.
Qed.

Lemma insert_sorted k c l : sorted l → sorted (insert k c l).
Proof.
  induction l as [|[k' c'] l IH]; simpl.
  - intros _. repeat constructor.
  - intros [Hs Hf]%StronglySorted_inv. unfold SlotComparator.
    destruct (Z.ltb_spec k.1 k'.1) as [Hlt|]; simpl.
    + constructor; [by constructor|]. constructor; [done|]. eapply Forall_impl; [exact Hf|]. simpl. lia.
    + destruct (Z.ltb_spec k'.1 k.1) as [Hgt|]; simpl; [|by constructor].
      constructor; [by apply IH|]. apply Forall_forall. intros x [->|Hx]%insert_keys; [done|].
      by eapply (proj1 (Forall_forall _ _)) in Hf.
Qed.

Lemma lower_bound_spec k l i n :
  sorted l → l !! i = Some n → (i < lower_bound k l)%nat ↔ n.1.1 < k.1.
Proof.
  revert i. induction l as [|[k' c'] l IH]; simpl; intros i; [by rewrite lookup_nil|].
  intros [Hs Hf]%StronglySorted_inv. unfold SlotComparator. destruct i as [|i]; simpl.
  - intros [= <-]. simpl. destruct (Z.ltb_spec k'.1 k.1); split; lia.
  - intros Hi. destruct (Z.ltb_spec k'.1 k.1) as [Hlt|Hge].
    + rewrite <- IH by done. lia.
    + assert (Hx : n.1.1 ∈ keys l).
      { apply list_elem_of_fmap. exists n. split; [done|]. by eapply list_elem_of_lookup_2. }
      rewrite Forall_forall in Hf. specialize (Hf _ Hx). simpl in *. lia.
Qed.

Lemma lower_bound_le k l : (lower_bound k l <= length l)%nat.
Proof. induction l as [|[k' c'] l IH]; simpl; [lia|]. destruct (SlotComparator k' k); lia. Qed.

(** Ranges that do not meet. *)
Definition apart (l : storage) : Prop :=
  ∀ n n', n ∈ l → n' ∈ l → n = n' ∨ n.1.2 < n'.1.1 ∨ n'.1.2 < n.1.1.

(** The range that contains the slot is found. *)
Lemma searchBySlots_hit index l r c :
  sorted l → apart l → (∀ n, n ∈ l → n.1.1 <= n.1.2) → 0 <= index < 2 ^ 32 - 1 →
  (r, c) ∈ l → r.1 <= index <= r.2 → searchBySlots index l = Ok (r, c).
Proof.
  intros Hs Ha Hne Hi Hin Hr. unfold searchBySlots. rewrite u32_small by lia.
  apply list_elem_of_lookup in Hin as [j Hj].
  assert (Hlb : (j < lower_bound (index + 1, 0)%Z l)%nat) by (eapply lower_bound_spec; eauto; simpl; lia).
  pose proof (lower_bound_le (index + 1, 0) l) as Hle.
  destruct (lower_bound (index + 1, 0)%Z l) as [|node] eqn:E; [lia|].
  destruct (lookup_lt_is_Some_2 l node ltac:(lia)) as [[r' c'] Hn].
  assert (Hlt : r'.1 < index + 1) by (pose proof (proj1 (lower_bound_spec (index + 1, 0) l node _ Hs Hn)) as Hx; rewrite E in Hx; simpl in Hx; lia).
  pose proof (list_elem_of_lookup_2 _ _ _ Hj) as Hjl. pose proof (list_elem_of_lookup_2 _ _ _ Hn) as Hnl.
  rewrite Hn. assert ((r', c') = (r, c)) as [= -> ->].
  { destruct (Ha (r', c') (r, c)) as [?|[Hx|Hx]]; try done; simpl in Hx.
    - assert (Hrr : r'.1 < r.1) by (specialize (Hne (r', c') Hnl); simpl in *; lia).
      assert ((j < node)%nat ∨ j = node) as [Hjn| ->] by lia; [|rewrite Hj in Hn; congruence].
      exfalso. pose proof (proj1 (lower_bound_spec (r'.1, 0) l j _ Hs Hj)) as Hy.
      pose proof (proj2 (lower_bound_spec (r.1, 0) l node _ Hs Hn)) as Hz. simpl in *.
      specialize (Hz Hrr). assert (j < lower_bound (r.1, 0%Z) l)%nat as Hw by lia.
      apply (lower_bound_spec (r.1, 0)%Z l j _ Hs Hj) in Hw. simpl in *. lia.
    - simpl in *. lia. }
  destruct (Z.ltb_spec index r.1), (Z.ltb_spec r.2 index); simpl; done || lia.
Qed.

(** No range contains the slot: an exception, or undefined behaviour when every range starts above
    the slot. *)
Lemma searchBySlots_miss index l :
  sorted l → 0 <= index < 2 ^ 32 - 1 → (∀ n, n ∈ l → ¬ (n.1.1 <= index <= n.1.2)) →
  searchBySlots index l = Err (if bool_decide (Forall (λ n, index < n.1.1) l) then Undefined else NodeSearchException).
Proof.
  intros Hs Hi Hno. unfold searchBySlots. rewrite u32_small by lia.
  pose proof (lower_bound_le (index + 1, 0) l) as Hle.
  destruct (lower_bound (index + 1, 0)%Z l) as [|node] eqn:E.
  - rewrite bool_decide_true; [done|]. apply Forall_forall. intros n [j Hj]%list_elem_of_lookup.
    pose proof (proj2 (lower_bound_spec (index + 1, 0) l j _ Hs Hj)) as Hx. rewrite E in Hx. simpl in Hx. lia.
  - destruct (lookup_lt_is_Some_2 l node ltac:(lia)) as [[r c] Hn]. rewrite Hn.
    pose proof (list_elem_of_lookup_2 _ _ _ Hn) as Hin.
    pose proof (proj1 (lower_bound_spec (index + 1, 0) l node _ Hs Hn)) as Hx. rewrite E in Hx. simpl in Hx.
    rewrite bool_decide_false; [|rewrite Forall_forall; intros Hf; specialize (Hf _ Hin); simpl in Hf; lia].
    specialize (Hno _ Hin). simpl in Hno. destruct (Z.ltb_spec index r.1), (Z.ltb_spec r.2 index); simpl; done || lia.
Qed.
End Storage.
End Slots.

(** ** Redirections (hiredisprocess.h) *)
Module HiredisProcess.

(*@ common/hiredisprocess.h 47-54 processState *)
Inductive processState := MOVED | ASK | CLUSTERDOWN | READY | FAILED.

Definition or_out_of_range {A} (o : option A) : result exn A :=
  match o with Some a => Ok a | None => Err std_out_of_range end.

(*@ common/hiredisprocess.h 56-70 parsehostport *)
Definition parsehostport (error : str) : result exn (str * str) :=
  let hostPotision := u64 (find_str error (lit " ") (u64 (find_str error (lit " ") 0 + 1)) + 1) in
  let portPosition := u64 (find_str error (lit ":") hostPotision + 1) in
  if negb (hostPotision =? npos) && negb (portPosition =? npos) then
    match substr error hostPotision (u64 (portPosition - hostPotision - 1)), substr error portPosition npos with
    | Some host, Some port => Ok (host, port)
    | _, _ => Err std_out_of_range
    end
  else Err (LogicError (lit "error while parsing host port in redis redirection reply")).

(*@ common/hiredisprocess.h 72-98 processResult *)
Definition processResult (reply : redisReply) : result exn (processState * str * str) :=
  match reply with
  | REDIS_REPLY_ERROR error =>
      let redirect (st : processState) :=
        match parsehostport error with Ok (host, port) => Ok (st, host, port) | Err e => Err e end in
      if find_str error (lit "ASK") 0 =? 0 then redirect ASK
      else if find_str error (lit "MOVED") 0 =? 0 then redirect MOVED
      else if find_str error (lit "CLUSTERDOWN") 0 =? 0 then Ok (CLUSTERDOWN, [], [])
      else Ok (READY, [], [])
  | _ => Ok (READY, [], [])
  end.

(** What [checkCritical] throws, if it does; it frees the reply first. *)
(*@ common/hiredisprocess.h 100-119 checkCritical *)
Definition critical (reply : option redisReply) (errorcritical : bool) (error : str) : option exn :=
  match reply with
  | None => Some DisconnectedException
  | Some (REDIS_REPLY_ERROR s) =>
      if errorcritical then Some (LogicError error)
      else if negb (find_str (c_str s) (lit "CLUSTERDOWN") 0 =? npos) then Some ClusterDownException
      else None
  | Some _ => None
  end.
(** *** Lemmas on redirections *)
Lemma index_of_str_1 c s : index_of_str [c] s = index_of c s.
Proof.
  induction s as [|x s IH]; simpl; [done|]. rewrite IH, andb_true_r.
  destruct (decide (x = c)) as [->|]; [by rewrite bool_decide_true|]. rewrite bool_decide_false by congruence. done.
Qed.

Lemma find_str_1 s c pos : find_str s [c] pos = find_char s c pos.
Proof. unfold find_str, find_char. by rewrite index_of_str_1. Qed.

(** The next position after the first [c], or 0. *)
Lemma find_next s c pos : 0 <= pos <= size s → size s < 2 ^ 63 →
  u64 (find_char s c pos + 1) = 0 ∨ pos < u64 (find_char s c pos + 1) <= size s.
Proof.
  intros Hp Hs. unfold find_char. destruct (Z.ltb_spec (size s) pos); [lia|].
  destruct (index_of c _) as [i|] eqn:E; simpl; [|by left]. apply index_of_lt in E. rewrite length_drop in E.
  unfold size in *. right. rewrite u64_small by lia. lia.
Qed.

Lemma find_past a pre c post : c ∉ pre → size (a ++ pre ++ c :: post) < 2 ^ 63 →
  u64 (find_char (a ++ pre ++ c :: post) c (size a) + 1) = size (a ++ pre ++ [c]).
Proof.
  intros Hpre Hs. rewrite find_char_app, index_of_app by done. simpl.
  unfold size in *. rewrite !length_app in *. simpl in *. rewrite u64_small by lia. lia.
Qed.

(** The guard of [parsehostport] never fails: the two positions are [find(..) + 1], which is 0, not
    [npos], when nothing is found. *)
Lemma parsehostport_total error : size error < 2 ^ 63 → ∃ host port, parsehostport error = Ok (host, port).
Proof.
  intros Hs. assert (0 <= size error) as H0 by (unfold size; lia). unfold parsehostport.
  change (lit " ") with [" "%char]. change (lit ":") with [":"%char]. rewrite !find_str_1.
  destruct (find_next error " " 0 ltac:(lia) Hs) as [E1|E1]; set (p1 := u64 (find_char error " " 0 + 1)) in *.
  all: destruct (find_next error " " p1 ltac:(lia) Hs) as [E2|E2]; set (p2 := u64 (find_char error " " p1 + 1)) in *.
  all: destruct (find_next error ":" p2 ltac:(lia) Hs) as [E3|E3]; set (p3 := u64 (find_char error ":" p2 + 1)) in *.
  all: rewrite (proj2 (Z.eqb_neq p2 npos)), (proj2 (Z.eqb_neq p3 npos)) by (unfold npos; lia); simpl.
  all: unfold substr; destruct (Z.ltb_spec (size error) p2), (Z.ltb_spec (size error) p3); try lia; eauto.
Qed.

(** The text of a redirection: its kind, the slot, the host and the port. *)
Definition redirection (kind slot host port : str) : str := kind ++ " "%char :: slot ++ " "%char :: host ++ ":"%char :: port.

Lemma parsehostport_roundtrip kind slot host port :
  " "%char ∉ kind → " "%char ∉ slot → ":"%char ∉ host → size (redirection kind slot host port) < 2 ^ 63 →
  parsehostport (redirection kind slot host port) = Ok (host, port).
Proof.
  intros Hk Hsl Hh Hs. unfold parsehostport. change (lit " ") with [" "%char]. change (lit ":") with [":"%char].
  rewrite !find_str_1. set (e := redirection kind slot host port) in *.
  assert (E1 : u64 (find_char e " " 0 + 1) = size (kind ++ [" "%char])) by exact (find_past [] kind " " _ Hk Hs).
  rewrite E1.
  assert (E2 : u64 (find_char e " " (size (kind ++ [" "%char])) + 1) = size (kind ++ " "%char :: slot ++ [" "%char])).
  { assert (e = (kind ++ [" "%char]) ++ slot ++ " "%char :: host ++ ":"%char :: port) as Ee by (unfold e, redirection; by rewrite <- app_assoc).
    rewrite Ee in Hs |- *. rewrite (find_past _ slot " " _ Hsl Hs). by rewrite <- app_assoc. }
  rewrite E2. clear E1 E2.
  assert (e = (kind ++ " "%char :: slot ++ [" "%char]) ++ host ++ ":"%char :: port) as Ee.
  { unfold e, redirection. by rewrite <- !app_assoc, <- !app_comm_cons, <- !app_assoc. }
  rewrite Ee in Hs. pose proof (find_past _ host ":" _ Hh Hs) as E3. rewrite <- Ee in E3, Hs.
  rewrite E3. set (a := kind ++ " "%char :: slot ++ [" "%char]) in *.
  assert (size e = size a + size host + 1 + size port) as Hse.
  { rewrite Ee. unfold size. rewrite !length_app. simpl. lia. }
  assert (size (a ++ host ++ [":"%char]) = size a + size host + 1) as Ha.
  { unfold size. rewrite !length_app. simpl. lia. }
  assert (0 <= size a ∧ 0 <= size host ∧ 0 <= size port) as H0 by (unfold size; lia).
  rewrite (proj2 (Z.eqb_neq _ npos)), (proj2 (Z.eqb_neq _ npos)) by (unfold npos; lia). simpl.
  rewrite Ha, u64_small by lia. replace (size a + size host + 1 - size a - 1) with (size host) by lia.
  rewrite Ee at 1. rewrite substr_mid. rewrite <- Ha, Ee.
  replace (a ++ host ++ ":"%char :: port) with ((a ++ host ++ [":"%char]) ++ port) by by rewrite <- !app_assoc.
  rewrite substr_app_tail; [done|]. unfold npos. lia.
Qed.

Lemma find_0 s p : find_str s p 0 = 0 ↔ is_prefix p s = true.
Proof.
  unfold find_str. destruct (Z.ltb_spec (size s) 0); [unfold size in *; lia|]. simpl. rewrite drop_0.
  destruct s as [|c s]; simpl; destruct (is_prefix p _); simpl; try done.
  destruct (index_of_str p s); simpl; split; done.
Qed.

Lemma critical_not_down s st h p :
  critical (Some (REDIS_REPLY_ERROR s)) false [] = None → processResult (REDIS_REPLY_ERROR s) = Ok (st, h, p) →
  st ≠ CLUSTERDOWN ∧ st ≠ FAILED.
Proof.
  simpl. intros Hc. assert (is_prefix (lit "CLUSTERDOWN") s = false) as Hd.
  { apply not_true_is_false. intros [t ->]%is_prefix_spec. simpl in Hc. by repeat case_decide. }
  destruct (parsehostport s) as [[h' p']|e];
    repeat (case_match; try done); intros [= <- <- <-]; try done.
  all: exfalso; apply not_true_iff_false in Hd; apply Hd, find_0; by apply Z.eqb_eq.
Qed.

Lemma processResult_total r : (∀ s, r = REDIS_REPLY_ERROR s → size s < 2 ^ 63) →
  critical (Some r) false [] = None →
  ∃ st h p, processResult r = Ok (st, h, p) ∧ st ≠ CLUSTERDOWN ∧ st ≠ FAILED.
Proof.
  intros Hs Hc. destruct r; try by (exists READY, [], []).
  destruct (processResult (REDIS_REPLY_ERROR s)) as [[[st h] p]|e] eqn:E.
  - exists st, h, p. split; [done|]. by eapply critical_not_down.
  - exfalso. simpl in E. destruct (parsehostport_total s (Hs _ eq_refl)) as (h & p & Ep). rewrite Ep in E.
    by repeat case_match.
Qed.
End HiredisProcess.

(** ** The cluster object and the commands sent through it *)
Module Cluster.
Import HiredisProcess.

Section Hiredis.
(** hiredis: contexts, what they do to the world, and the outcomes of its calls.  A null pointer
    is [None]; the function that connects is the application's and may throw; [redisGetReply] may
    leave the reply it should write unwritten (the outer [None]). *)
Context {conn World : Type}.
Variable connect : str → Z → World → result exn (option conn) * World.
Variable disconnect_ : conn → World → World.
Variable err : conn → World → bool.
Variable errstr : conn → World → str.
Variable redisGetReply : conn → str → World → option (option redisReply) * World.
Variable redisCommand : conn → str → World → option redisReply * World.

(*@ common/container.h 48-49 DefaultContainer *)
Record DefaultContainer := Container { nodes_ : list ((Z * Z) * conn); connections_ : gmap str conn }.

(** [userMovedFn_] names a callback of the application. *)
(*@ common/cluster.h 216-219 Cluster *)
Record t := Mk { container : DefaultContainer; userMovedFn_ : option nat; readytouse_ : bool; moved_ : bool }.

(** The cluster, the world and the number of reply objects that have not been freed. *)
Record state := St { cluster_ : t; world : World; live : Z }.

Variable callback : nat → t → World → t * World.

Definition call {A} (f : World → A * World) : M state exn A :=
  λ s, let '(a, w) := f (world s) in (Ok a, St (cluster_ s) w (live s)).
Definition try_call {A} (f : World → result exn A * World) : M state exn A :=
  λ s, let '(a, w) := f (world s) in (a, St (cluster_ s) w (live s)).
Definition gets {A} (f : state → A) : M state exn A := λ s, (Ok (f s), s).
Definition lift {A} (r : result exn A) : M state exn A := λ s, (r, s).
Definition set_cluster (c : t) : M state exn unit := λ s, (Ok tt, St c (world s) (live s)).
Definition on_container (f : DefaultContainer → DefaultContainer) : M state exn unit := λ s,
  let c := cluster_ s in (Ok tt, St (Mk (f (container c)) (userMovedFn_ c) (readytouse_ c) (moved_ c)) (world s) (live s)).

Definition freeReplyObject : M state exn unit := λ s, (Ok tt, St (cluster_ s) (world s) (live s - 1)).
(** A reply object has come into existence, if there is one. *)
Definition got (reply : option redisReply) : M state exn (option redisReply) := λ s,
  (Ok reply, St (cluster_ s) (world s) (live s + match reply with Some _ => 1 | None => 0 end)).

(** *** container.h *)
(*@ common/container.h 67-80 DefaultContainer::insert *)
Definition insert_slots (slots : Z * Z) (host : str) (port : Z) : M state exn unit :=
  con ← try_call (connect (c_str host) port);
  match con with
  | None => throw ConnectionFailedException
  | Some c =>
      bad ← gets (λ s, err c (world s));
      if (bad : bool) then throw ConnectionFailedException
      else on_container (λ k, Container (Slots.insert slots c (nodes_ k)) (connections_ k))
  end.

Definition std_stoi (s : str) : result exn Z :=
  match stoi s with Ok n => Ok n | Err stoi_invalid => Err std_invalid_argument | Err stoi_range => Err std_out_of_range end.

(*@ common/container.h 82-100 DefaultContainer::insert *)
Definition insert_host (host port : str) : M state exn (str * option conn) :=
  let key := host ++ lit ":" ++ port in
  known ← gets (λ s, connections_ (container (cluster_ s)) !! key);
  match known with
  | Some c => mret (key, Some c)
  | None =>
      p ← lift (std_stoi port);
      con ← try_call (connect (c_str host) p);
      match con with
      | Some c =>
          bad ← gets (λ s, err c (world s));
          if (bad : bool) then mret (key, con)
          else on_container (λ k, Container (nodes_ k) (<[key := c]> (connections_ k))) ;; mret (key, con)
      | None => mret (key, con)
      end
  end.

(** The constructor of [Cluster] requires both callbacks, so [disconnect_] is there. *)
(*@ common/container.h 138-158 DefaultContainer::disconnect *)
Definition disconnect : M state exn unit := λ s,
  let k := container (cluster_ s) in
  let w := foldl (λ w n, disconnect_ n.2 w) (world s) (nodes_ k) in
  let w := map_fold (λ _ c w, disconnect_ c w) w (connections_ k) in
  on_container (λ _, Container [] ∅) (St (cluster_ s) w (live s)).

(** *** cluster.h *)
(*@ common/cluster.h 117-126 Cluster::getConnection *)
Definition getConnection (key : str) : M state exn ((Z * Z) * conn) :=
  c ← gets cluster_;
  if negb (readytouse_ c) then throw NotInitializedException
  else lift (Slots.searchBySlots (u32 (SlotByKey key)) (nodes_ (container c))).

(*@ common/cluster.h 133-140 Cluster::moved *)
Definition moved : M state exn unit := λ s,
  let c := cluster_ s in
  let c := Mk (container c) (userMovedFn_ c) (readytouse_ c) true in
  match userMovedFn_ c with
  | None => (Ok tt, St c (world s) (live s))
  | Some fn => let '(c, w) := callback fn c (world s) in (Ok tt, St c w (live s))
  end.

(*@ common/cluster.h 149-152 Cluster::setMovedCb *)
Definition setMovedCb (fn : option nat) : M state exn unit :=
  c ← gets cluster_; set_cluster (Mk (container c) fn (readytouse_ c) (moved_ c)).

(*@ common/cluster.h 155-158 Cluster::createNewConnection *)
Definition createNewConnection (host port : str) : M state exn (str * option conn) := insert_host host port.

(*@ common/cluster.h 161-164 Cluster::stop *)
Definition stop : M state exn unit :=
  c ← gets cluster_; set_cluster (Mk (container c) (userMovedFn_ c) false (moved_ c)).

(** The slots, host and port of an entry of the answer, if it has the right shape; [slots] are
    unsigned and the port is an int. *)
(*@ common/cluster.h 187-201 Cluster::init *)
Definition slots_entry (e : redisReply) : option ((Z * Z) * str * Z) :=
  match e with
  | REDIS_REPLY_ARRAY (REDIS_REPLY_INTEGER a :: REDIS_REPLY_INTEGER b ::
      REDIS_REPLY_ARRAY (REDIS_REPLY_STRING host :: REDIS_REPLY_INTEGER port :: _) :: _) =>
      Some ((u32 a, u32 b), host, (port + 2 ^ 31) mod 2 ^ 32 - 2 ^ 31)
  | _ => None
  end.

Fixpoint insert_entries (l : list redisReply) : M state exn unit :=
  match l with
  | [] => mret tt
  | e :: l =>
      match slots_entry e with
      | Some (slots, host, port) => insert_slots slots host port ;; insert_entries l
      | None => throw ConnectionFailedException
      end
  end.

(*@ common/cluster.h 180-214 Cluster::init *)
Definition init (reply : redisReply) : M state exn unit :=
  match reply with
  | REDIS_REPLY_ARRAY element =>
      insert_entries element ;;
      c ← gets cluster_; set_cluster (Mk (container c) (userMovedFn_ c) true (moved_ c))
  | _ => throw ConnectionFailedException
  end.

(** [Cluster::Cluster] with both callbacks given. *)
(*@ common/cluster.h 88-98 Cluster::Cluster *)
Definition new (reply : redisReply) : M state exn unit :=
  set_cluster (Mk (Container [] ∅) None false false) ;; init reply.

(** *** hirediscommand.h *)
(** The reply is an uninitialised pointer when hiredis does not write it, and the code goes on to
    read it. *)
(*@ common/hirediscommand.h 148-154 processHiredisCommand *)
Definition processHiredisCommand (cmd_ : str) (con : conn) : M state exn (option redisReply) :=
  r ← call (redisGetReply con cmd_);
  match r with Some reply => got reply | None => throw Undefined end.

(*@ common/hirediscommand.h 156-159 asking *)
Definition asking (con : conn) : M state exn (option redisReply) :=
  r ← call (redisCommand con (lit "ASKING")); got r.

Definition checkCritical (reply : option redisReply) (errorcritical : bool) (error : str) : M state exn unit :=
  match critical reply errorcritical error with
  | None => mret tt
  | Some e => match reply with Some _ => freeReplyObject | None => mret tt end ;; throw e
  end.

(** The switch of [process] on the state of the first reply. *)
(*@ common/hirediscommand.h 174-230 HiredisCommand::process *)
Definition follow (cmd_ : str) (reply : redisReply) (st : processState) (host port : str) : M state exn (option redisReply) :=
  match st with
  | ASK =>
      freeReplyObject ;;
      hcon ← createNewConnection host port;
      match hcon.2 with
      | None => throw (LogicError (lit "Can't connect while resolving asking state"))
      | Some c =>
          bad ← gets (λ s, err c (world s));
          if (bad : bool) then w ← gets world; throw (LogicError (c_str (errstr c w)))
          else
            reply ← asking c;
            checkCritical reply true (lit "asking error") ;;
            freeReplyObject ;;
            reply ← processHiredisCommand cmd_ c;
            checkCritical reply false [] ;;
            mret reply
      end
  | MOVED =>
      freeReplyObject ;;
      hcon ← createNewConnection host port;
      match hcon.2 with
      | None => throw (LogicError (lit "Can't connect while resolving asking state"))
      | Some c =>
          bad ← gets (λ s, err c (world s));
          if (bad : bool) then w ← gets world; throw (LogicError (c_str (errstr c w)))
          else
            reply ← processHiredisCommand cmd_ c;
            moved ;;
            mret reply
      end
  | READY => mret (Some reply)
  | _ => throw (LogicError (lit "error in state processing"))
  end.

(*@ common/hirediscommand.h 161-231 HiredisCommand::process *)
Definition process (key_ cmd_ : str) : M state exn (option redisReply) :=
  con ← getConnection key_;
  reply ← processHiredisCommand cmd_ con.2;
  checkCritical reply false [] ;;
  match reply with
  | None => throw Undefined
  | Some r =>
      st ← lift (processResult r);
      follow cmd_ r st.1.1 st.1.2 st.2
  end.

(** *** Reply objects

    [spends m ok er]: [m] changes the number of reply objects by [ok a] when it returns [a] and by
    [er] when it throws. *)
Definition spends {A} (m : M state exn A) (ok : A → Z) (er : Z) : Prop :=
  ∀ s, match m s with (Ok a, s') => live s' = live s + ok a | (Err _, s') => live s' = live s + er end.

Definition one {A} (o : option A) : Z := match o with Some _ => 1 | None => 0 end.

Lemma spends_bind {A B} (m : M state exn A) (f : A → M state exn B) ok ok' er :
  spends m ok' er → (∀ a, spends (f a) (λ b, ok b - ok' a) (er - ok' a)) → spends (m ≫= f) ok er.
Proof.
  intros Hm Hf s. unfold mbind, M_bind. specialize (Hm s). destruct (m s) as [[a|e] s1]; [|done].
  specialize (Hf a s1). destruct (f a s1) as [[b|e] s2]; lia.
Qed.
Lemma spends_ret {A} (a : A) ok er : ok a = 0 → spends (mret a) ok er.
Proof. intros H s. simpl. lia. Qed.
Lemma spends_throw {A} e ok : spends (throw (A:=A) e) ok 0.
Proof. intros s. simpl. lia. Qed.
Lemma spends_call {A} (f : World → A * World) er : spends (call f) (λ _, 0) er.
Proof. intros s. unfold call. destruct (f (world s)). simpl. lia. Qed.
Lemma spends_try_call {A} (f : World → result exn A * World) : spends (try_call f) (λ _, 0) 0.
Proof. intros s. unfold try_call. destruct (f (world s)) as [[a|e] w]; simpl; lia. Qed.
Lemma spends_gets {A} (f : state → A) er : spends (gets f) (λ _, 0) er.
Proof. intros s. simpl. lia. Qed.
Lemma spends_lift {A} (r : result exn A) : spends (lift r) (λ _, 0) 0.
Proof. intros s. unfold lift. destruct r; simpl; lia. Qed.
Lemma spends_on f er : spends (on_container f) (λ _, 0) er.
Proof. intros s. simpl. lia. Qed.
Lemma spends_free er : spends freeReplyObject (λ _, -1) er.
Proof. intros s. simpl. lia. Qed.
Lemma spends_got r er : spends (got r) one er.
Proof. intros s. simpl. by destruct r. Qed.
Lemma spends_moved er : spends moved (λ _, 0) er.
Proof. intros s. unfold moved. destruct (userMovedFn_ _); simpl; [|lia]. destruct (callback _ _ _). simpl. lia. Qed.
Lemma spends_eq {A} (m : M state exn A) ok er ok' er' :
  spends m ok er → (∀ a, ok a = ok' a) → er = er' → spends m ok' er'.
Proof. intros Hm Ho <- s. specialize (Hm s). destruct (m s) as [[a|e] s1]; [by rewrite <- Ho|done]. Qed.

Lemma spends_exchange cmd c : spends (processHiredisCommand cmd c) one 0.
Proof.
  eapply spends_bind; [apply spends_call|]. intros [r|].
  - eapply spends_eq; [apply spends_got|intros; lia|reflexivity].
  - eapply spends_eq; [apply (spends_throw Undefined one)|intros; lia|lia].
Qed.
Lemma spends_asking c : spends (asking c) one 0.
Proof.
  eapply spends_bind; [apply spends_call|]. intros r. eapply spends_eq; [apply (spends_got r 0)|intros; lia|reflexivity].
Qed.
Lemma spends_check r b e : spends (checkCritical r b e) (λ _, 0) (- one r).
Proof.
  unfold checkCritical. destruct (critical r b e); [|by apply spends_ret].
  eapply (spends_bind _ _ _ (λ _, - one r)).
  - destruct r; [apply spends_free|by apply spends_ret].
  - intros ?. eapply spends_eq; [apply (spends_throw _ (λ _, one r))|simpl; lia|simpl; lia].
Qed.
Lemma spends_insert_host host port : spends (insert_host host port) (λ _, 0) 0.
Proof.
  eapply spends_bind; [apply spends_gets|]. intros [c|]; simpl; [by apply spends_ret|].
  eapply spends_bind; [apply spends_lift|]. intros p; simpl.
  eapply spends_bind; [apply spends_try_call|]. intros [c|]; simpl; [|by apply spends_ret].
  eapply spends_bind; [apply spends_gets|]. intros []; simpl; [by apply spends_ret|].
  eapply spends_bind; [apply spends_on|]. intros ?. by apply spends_ret.
Qed.

(** From the state of [r], which is live, [follow] returns a live reply or none. *)
Lemma spends_follow cmd r st host port : st ≠ CLUSTERDOWN → st ≠ FAILED →
  spends (follow cmd r st host port) (λ o, one o - 1) (-1).
Proof.
  intros H1 H2. destruct st; try done; simpl.
  3: by apply spends_ret.
  all: eapply spends_bind; [apply spends_free|]; intros ?; simpl.
  all: eapply spends_bind; [apply spends_insert_host|]; intros [k [c|]]; simpl;
       [|eapply spends_eq; [apply (spends_throw _ (λ o, one o))|intros; simpl; lia|simpl; lia]].
  all: eapply spends_bind; [apply spends_gets|]; intros []; simpl;
       [eapply spends_bind; [apply spends_gets|]; intros w; eapply spends_eq; [apply (spends_throw _ (λ o, one o))|intros; simpl; lia|simpl; lia]|].
  - eapply spends_bind; [apply spends_exchange|]. intros o.
    eapply spends_bind; [apply spends_moved|]. intros ?. apply spends_ret. lia.
  - eapply spends_bind; [apply spends_asking|]. intros o. simpl.
    destruct o as [r'|]; [|intros s; simpl; lia].
    eapply spends_bind; [eapply spends_eq; [apply spends_check|reflexivity|simpl; lia]|]. intros ?. simpl.
    eapply spends_bind; [apply spends_free|]. intros ?. simpl.
    eapply spends_bind; [eapply spends_exchange|]. intros o. simpl.
    eapply spends_bind; [eapply spends_eq; [apply spends_check|reflexivity|simpl; lia]|]. intros ?. simpl.
    apply spends_ret. lia.
Qed.

Lemma getConnection_pure key s : ∃ r, getConnection key s = (r, s).
Proof.
  unfold getConnection. destruct s as [c w l]. unfold mbind, M_bind. simpl. destruct (readytouse_ c); simpl; [|by eexists].
  by eexists.
Qed.

Lemma getConnection_ready key s : readytouse_ (cluster_ s) = true →
  getConnection key s = (Slots.searchBySlots (SlotByKey key) (nodes_ (container (cluster_ s))), s).
Proof.
  intros Hr. unfold getConnection. unfold mbind, M_bind. simpl. rewrite Hr. simpl.
  pose proof (SlotByKey_bound key). by rewrite u32_small by lia.
Qed.

(** Error texts fit in memory. *)
Definition sane : Prop := ∀ c cmd w s w', redisGetReply c cmd w = (Some (Some (REDIS_REPLY_ERROR s)), w') → size s < 2 ^ 63.

(** Sending a command through the cluster frees every reply object it obtains except the one it
    returns: whatever the replies, redirections, connection failures and exceptions, the number of
    live replies grows by one when a reply is returned and not at all otherwise. *)
Theorem process_frees_replies key cmd s r s' :
  sane → process key cmd s = (r, s') →
  live s' = live s + match r with Ok (Some _) => 1 | _ => 0 end.
Proof.
  intros Hsane E. unfold process in E. destruct (getConnection_pure key s) as [[con|e] Eg].
  2: { erewrite run_Err in E by exact Eg. injection E as <- <-. lia. }
  erewrite run_Ok in E by exact Eg.
  pose proof (spends_exchange cmd con.2 s) as H1.
  destruct (processHiredisCommand cmd con.2 s) as [[reply|e] s1] eqn:E1.
  2: { erewrite run_Err in E by exact E1. injection E as <- <-. lia. }
  erewrite run_Ok in E by exact E1. pose proof (spends_check reply false [] s1) as H2.
  destruct (checkCritical reply false [] s1) as [[[]|e] s2] eqn:E2.
  2: { erewrite run_Err in E by exact E2. injection E as <- <-. lia. }
  erewrite run_Ok in E by exact E2. unfold checkCritical in E2.
  destruct reply as [rp|]; [|done]. destruct (critical (Some rp) false []) eqn:Hc; [done|].
  destruct (processResult_total rp) as (st & h & p & Ep & Hn1 & Hn2); [|done|].
  { intros x ->. unfold processHiredisCommand, mbind, M_bind, call in E1.
    destruct (redisGetReply con.2 cmd (world s)) as [[rr|] w1] eqn:Er; [|done]. simpl in E1.
    unfold got in E1. injection E1 as -> _. by eapply Hsane. }
  erewrite (run_Ok (lift _)) in E by (unfold lift; rewrite Ep; reflexivity). simpl in E.
  pose proof (spends_follow cmd rp st h p Hn1 Hn2 s2) as H3. rewrite E in H3. simpl in H1.
  destruct r as [[?|]|]; simpl in H3; lia.
Qed.

(** *** Following a redirection *)
(** What [createNewConnection] does when it succeeds: a known endpoint is used without connecting
    again, a new one is connected to and remembered. *)
Definition endpoint (host : str) (port : Z) (c : conn) (s s2 : state) : Prop :=
  let k := container (cluster_ s) in
  let key := host ++ ":"%char :: dec port in
  connections_ k !! key = Some c ∧ s2 = s ∨
  connections_ k !! key = None ∧ ∃ w2, connect host port (world s) = (Ok (Some c), w2) ∧ err c w2 = false ∧
    s2 = St (Mk (Container (nodes_ k) (<[key := c]> (connections_ k))) (userMovedFn_ (cluster_ s))
                (readytouse_ (cluster_ s)) (moved_ (cluster_ s))) w2 (live s).

Lemma c_str_id s : NUL ∉ s → c_str s = s.
Proof. induction s as [|c s IH]; simpl; [done|]. intros [H1 H2]%not_elem_of_cons. rewrite decide_False by done. by rewrite IH. Qed.

Lemma insert_host_endpoint host port c s s2 :
  NUL ∉ host → 0 <= port < 2 ^ 31 → endpoint host port c s s2 →
  insert_host host (dec port) s = (Ok (host ++ ":"%char :: dec port, Some c), s2).
Proof.
  intros Hh Hp. unfold insert_host, endpoint. change (lit ":" ++ dec port) with (":"%char :: dec port).
  intros [[Hk ->]|(Hk & w2 & Hc & He & ->)].
  - erewrite run_Ok by (unfold gets; rewrite Hk; reflexivity). done.
  - erewrite run_Ok by (unfold gets; rewrite Hk; reflexivity). simpl.
    erewrite (run_Ok (lift _)) by (unfold lift, std_stoi; rewrite stoi_dec by done; reflexivity).
    erewrite (run_Ok (try_call _)) by (unfold try_call; rewrite c_str_id, Hc by done; reflexivity). simpl.
    erewrite (run_Ok (gets _)) by reflexivity. simpl. rewrite He. done.
Qed.

Lemma endpoint_live host port c s s2 : endpoint host port c s s2 →
  live s2 = live s ∧ connections_ (container (cluster_ s2)) !! (host ++ ":"%char :: dec port) = Some c ∧
  userMovedFn_ (cluster_ s2) = userMovedFn_ (cluster_ s).
Proof. intros [[Hk ->]|(_ & w2 & _ & _ & ->)]; [done|]. simpl. by rewrite lookup_insert_eq. Qed.

Lemma processHiredisCommand_run cmd c w cl n r w' :
  redisGetReply c cmd w = (Some r, w') → processHiredisCommand cmd c (St cl w n) = (Ok r, St cl w' (n + one r)).
Proof. intros E. unfold processHiredisCommand, mbind, M_bind, call. simpl. rewrite E. by destruct r. Qed.

Lemma asking_run c w cl n r w' :
  redisCommand c (lit "ASKING") w = (r, w') → asking c (St cl w n) = (Ok r, St cl w' (n + one r)).
Proof. intros E. unfold asking, mbind, M_bind, call. cbn [world]. rewrite E. by destruct r. Qed.

Lemma checkCritical_ok r b e s : critical r b e = None → checkCritical r b e s = (Ok tt, s).
Proof. unfold checkCritical. by intros ->. Qed.

Lemma redirect_not_critical kind slot host port :
  find_str (c_str (redirection kind slot host port)) (lit "CLUSTERDOWN") 0 = npos →
  critical (Some (REDIS_REPLY_ERROR (redirection kind slot host port))) false [] = None.
Proof. intros H. unfold critical. rewrite H. by rewrite Z.eqb_refl. Qed.

Lemma processResult_redirect (ask : bool) slot host port :
  " "%char ∉ slot → ":"%char ∉ host →
  let e := redirection (lit (if ask then "ASK" else "MOVED")) slot host port in
  size e < 2 ^ 63 → processResult (REDIS_REPLY_ERROR e) = Ok (if ask then ASK else MOVED, host, port).
Proof.
  intros Hs Hh e Hsz. unfold processResult.
  assert (parsehostport e = Ok (host, port)) as ->.
  { apply parsehostport_roundtrip; try done. destruct ask; by apply (bool_decide_unpack _). }
  assert (∀ p, is_prefix p e = true → find_str e p 0 = 0) as Hf by (intros p; apply find_0).
  destruct ask.
  - by rewrite (Hf (lit "ASK")) by done.
  - assert (find_str e (lit "ASK") 0 ≠ 0) as Hn by (rewrite find_0; done).
    rewrite (proj2 (Z.eqb_neq _ _) Hn). by rewrite (Hf (lit "MOVED")) by done.
Qed.

(** C26: a redirection is followed once, to the place it names.  When the node of the key's slot
    answers "MOVED slot host:port" or "ASK slot host:port", [process] gets the connection to that
    endpoint (the one it already has, or a new one, which it keeps), says ASKING first in the case of
    ASK, sends the command there, and returns that answer; the connection is then known to the
    cluster, only the answer is left live, and the cluster is marked as moved in the case of MOVED
    alone. *)
Theorem process_follows_redirect (ask : bool) key cmd s rng c0 slot host port w1 s2 c w3 r w4 :
  let e := redirection (lit (if ask then "ASK" else "MOVED")) slot host (dec port) in
  " "%char ∉ slot → ":"%char ∉ host → NUL ∉ host → 0 <= port < 2 ^ 31 → size e < 2 ^ 63 →
  find_str (c_str e) (lit "CLUSTERDOWN") 0 = npos →
  getConnection key s = (Ok (rng, c0), s) →
  redisGetReply c0 cmd (world s) = (Some (Some (REDIS_REPLY_ERROR e)), w1) →
  endpoint host port c (St (cluster_ s) w1 (live s)) s2 → err c (world s2) = false →
  (if ask then ∃ a, redisCommand c (lit "ASKING") (world s2) = (Some a, w3) ∧ critical (Some a) true [] = None
   else w3 = world s2) →
  redisGetReply c cmd w3 = (Some (Some r), w4) → critical (Some r) false [] = None →
  userMovedFn_ (cluster_ s) = None →
  ∃ s', process key cmd s = (Ok (Some r), s') ∧ world s' = w4 ∧ live s' = live s + 1 ∧
    connections_ (container (cluster_ s')) !! (host ++ ":"%char :: dec port) = Some c ∧
    moved_ (cluster_ s') = (if ask then moved_ (cluster_ s2) else true).
Proof.
  intros e Hsl Hh Hnul Hp Hsz Hcd Hg H1 He Herr H3 H4 Hc4 Hfn.
  pose proof (endpoint_live _ _ _ _ _ He) as (Hl2 & Hk2 & Hf2). destruct s as [cl w n]. simpl in *.
  unfold process. erewrite run_Ok by exact Hg. simpl.
  erewrite run_Ok by exact (processHiredisCommand_run _ _ _ _ _ _ _ H1).
  erewrite run_Ok by (apply checkCritical_ok; by apply redirect_not_critical).
  pose proof (processResult_redirect ask slot host (dec port) Hsl Hh Hsz) as Hpr. fold e in Hpr.
  erewrite (run_Ok (lift _)) by (unfold lift; rewrite Hpr; reflexivity).
  simpl. assert (St cl w1 (n + 1 - 1) = St cl w1 n) as En by (f_equal; lia).
  assert (createNewConnection host (dec port) (St cl w1 (n + 1 - 1)) =
          (Ok (host ++ ":"%char :: dec port, Some c), s2)) as Hcr by (rewrite En; by apply insert_host_endpoint).
  destruct s2 as [cl2 w2 n2]. simpl in *.
  destruct ask; unfold follow.
  - destruct H3 as (a & H3 & Ha).
    erewrite (run_Ok freeReplyObject) by reflexivity. simpl. erewrite (run_Ok (createNewConnection _ _)) by exact Hcr. simpl.
    erewrite (run_Ok (gets _)) by reflexivity. simpl. rewrite Herr. erewrite (run_Ok (asking _)) by exact (asking_run _ _ _ _ _ _ H3).
    assert (critical (Some a) true (lit "asking error") = None) as Ha' by (destruct a; done).
    erewrite (run_Ok (checkCritical _ _ _)) by (by apply checkCritical_ok).
    erewrite (run_Ok freeReplyObject) by reflexivity. simpl.
    erewrite (run_Ok (processHiredisCommand _ _)) by exact (processHiredisCommand_run _ _ _ _ _ _ _ H4).
    erewrite (run_Ok (checkCritical _ _ _)) by (by apply checkCritical_ok).
    eexists. split; [reflexivity|]. simpl. split_and!; try done. lia.
  - subst w3. erewrite (run_Ok freeReplyObject) by reflexivity. simpl. erewrite (run_Ok (createNewConnection _ _)) by exact Hcr. simpl.
    erewrite (run_Ok (gets _)) by reflexivity. simpl. rewrite Herr.
    erewrite (run_Ok (processHiredisCommand _ _)) by exact (processHiredisCommand_run _ _ _ _ _ _ _ H4).
    erewrite (run_Ok moved) by (unfold moved; simpl; rewrite Hf2, Hfn; reflexivity).
    eexists. split; [reflexivity|]. simpl. split_and!; try done. lia.
Qed.

(** *** Routing *)
(** Every attempt to connect succeeds. *)
Definition reachable_nodes : Prop := ∀ host port w, ∃ c w', connect host port w = (Ok (Some c), w') ∧ err c w' = false.

Abbreviation entry := ((Z * Z) * str * Z)%type (only parsing).

(** Ranges that are not empty and do not meet. *)
Definition disjoint_ranges (l : list ((Z * Z) * str * Z)) : Prop :=
  Forall (λ e, e.1.1.1 <= e.1.1.2) l ∧
  ∀ i j e e', l !! i = Some e → l !! j = Some e' → i ≠ j → e.1.1.2 < e'.1.1.1 ∨ e'.1.1.2 < e.1.1.1.

(** The connection [c] was made to the endpoint of the entry. *)
Definition opened (e : (Z * Z) * str * Z) (c : conn) : Prop :=
  ∃ w w', connect (c_str e.1.2) e.2 w = (Ok (Some c), w').

(** What [insert_entries] leaves in the map. *)
Lemma insert_entries_spec element entries s :
  reachable_nodes → mapM slots_entry element = Some entries → disjoint_ranges entries →
  (∀ n e, n ∈ nodes_ (container (cluster_ s)) → e ∈ entries → n.1.1 ≠ e.1.1.1) →
  StronglySorted Z.lt (Slots.keys (nodes_ (container (cluster_ s)))) →
  ∃ conns s', insert_entries element s = (Ok tt, s') ∧ Forall2 opened entries conns ∧
    StronglySorted Z.lt (Slots.keys (nodes_ (container (cluster_ s')))) ∧
    nodes_ (container (cluster_ s')) ≡ₚ nodes_ (container (cluster_ s)) ++ zip (map (λ e, e.1.1) entries) conns.
Proof using connect err.
  clear disconnect_ errstr redisGetReply redisCommand callback.
  intros Hr. revert entries s. induction element as [|x element IH]; intros entries s Hm Hd Hfr Hst; simpl in Hm.
  - injection Hm as <-. exists [], s. simpl. rewrite app_nil_r. split_and!; try done.
  - destruct (slots_entry x) as [[[r h] p]|] eqn:Ex; [|done]. simpl in Hm.
    destruct (mapM slots_entry element) as [es|] eqn:Em; [|done]. injection Hm as <-.
    destruct (Hr (c_str h) p (world s)) as (c & w' & Hc & He).
    set (k := container (cluster_ s)) in *.
    set (s1 := St (Mk (Container (Slots.insert r c (nodes_ k)) (connections_ k)) (userMovedFn_ (cluster_ s))
                      (readytouse_ (cluster_ s)) (moved_ (cluster_ s))) w' (live s)).
    assert (Hi : insert_slots r h p s = (Ok tt, s1)).
    { unfold insert_slots. erewrite (run_Ok (try_call _)) by (unfold try_call; rewrite Hc; reflexivity). simpl.
      erewrite (run_Ok (gets _)) by reflexivity. simpl. by rewrite He. }
    destruct Hd as [Hne Hd]. apply Forall_cons in Hne as [Hne1 Hne].
    assert (Hnew : r.1 ∉ Slots.keys (nodes_ k)).
    { intros Hin. unfold Slots.keys in Hin. apply list_elem_of_fmap in Hin as (n & Hn1 & Hn2).
      apply (Hfr n (r, h, p) Hn2); [set_solver|]. by rewrite <- Hn1. }
    pose proof (Slots.insert_new r c (nodes_ k) Hnew) as Hperm.
    destruct (IH es s1 eq_refl) as (conns & s' & Hrun & Hop & Hst' & Hp').
    + split; [done|]. intros i j e e' Hei Hej Hij. apply (Hd (S i) (S j)); [done..|lia].
    + intros n e Hn Hen. simpl in Hn. rewrite Hperm in Hn. apply elem_of_cons in Hn as [->|Hn].
      * simpl. apply list_elem_of_lookup in Hen as [j Hj].
        pose proof (Hd 0%nat (S j) (r, h, p) e eq_refl Hj ltac:(lia)) as Hx. simpl in Hx, Hne1.
        rewrite Forall_forall in Hne. specialize (Hne e ltac:(by eapply list_elem_of_lookup_2)). simpl in Hne. lia.
      * apply Hfr; [done|set_solver].
    + simpl. by apply Slots.insert_sorted.
    + exists (c :: conns), s'. split_and!.
      * cbn [insert_entries]. rewrite Ex. by erewrite run_Ok by exact Hi.
      * constructor; [|done]. by exists (world s), w'.
      * done.
      * rewrite Hp'. simpl. rewrite Hperm. apply Permutation_middle.
Qed.

(** C25: a cluster built from the answer to "cluster slots" sends every key to the node that serves
    its slot.  For an answer of well-formed entries with ranges that do not meet, the constructor
    succeeds when the nodes can be reached; afterwards, for every key whose slot is in some range,
    [getConnection] returns that range and a connection opened to the host and port listed for it,
    and for a key no range covers it returns no connection. *)
Theorem Cluster_routes element entries s :
  reachable_nodes → mapM slots_entry element = Some entries → disjoint_ranges entries →
  ∃ s', new (REDIS_REPLY_ARRAY element) s = (Ok tt, s') ∧
  ∀ key,
    (∀ e, e ∈ entries → e.1.1.1 <= SlotByKey key <= e.1.1.2 →
      ∃ c, getConnection key s' = (Ok (e.1.1, c), s') ∧ opened e c) ∧
    ((∀ e, e ∈ entries → ¬ (e.1.1.1 <= SlotByKey key <= e.1.1.2)) →
      ∃ x, getConnection key s' = (Err x, s') ∧ (x = NodeSearchException ∨ x = Undefined)).
Proof using connect err.
  clear disconnect_ errstr redisGetReply redisCommand callback.
  intros Hr Hm Hd. unfold new. erewrite (run_Ok (set_cluster _)) by reflexivity. unfold init.
  set (s0 := St (Mk (Container [] ∅) None false false) (world s) (live s)).
  destruct (insert_entries_spec element entries s0 Hr Hm Hd) as (conns & s1 & Hrun & Hop & Hst & Hp);
    [set_solver|constructor|].
  erewrite run_Ok by exact Hrun. erewrite (run_Ok (gets _)) by reflexivity.
  eexists. split; [reflexivity|]. intros key. rewrite getConnection_ready by done. simpl in *.
  pose proof (SlotByKey_bound key) as Hk. set (l := nodes_ (container (cluster_ s1))) in *.
  assert (Hnode : ∀ n, n ∈ l → ∃ i e c, entries !! i = Some e ∧ conns !! i = Some c ∧ n = (e.1.1, c)).
  { intros n. rewrite Hp. intros [i Hi]%list_elem_of_lookup. apply lookup_zip_with_Some in Hi as (r & c & -> & Hi1 & Hi2).
    apply list_lookup_fmap_Some in Hi1 as (e & -> & He). by exists i, e, c. }
  destruct Hd as [Hne Hd]. split.
  - intros e [i Hi]%list_elem_of_lookup He. destruct (Forall2_lookup_l _ _ _ _ _ Hop Hi) as (c & Hc & Ho).
    exists c. split; [|done]. rewrite (Slots.searchBySlots_hit _ l e.1.1 c); [done|done| | | lia | |done].
    + intros n n' Hn Hn'. apply Hnode in Hn as (i1 & e1 & c1 & H1 & H1' & ->), Hn' as (i2 & e2 & c2 & H2 & H2' & ->).
      destruct (decide (i1 = i2)) as [->|Hij]; [left; congruence|right]. exact (Hd i1 i2 _ _ H1 H2 Hij).
    + intros n Hn. apply Hnode in Hn as (i1 & e1 & c1 & H1 & H1' & ->). simpl. rewrite Forall_forall in Hne.
      apply Hne. by eapply list_elem_of_lookup_2.
    + rewrite Hp. apply list_elem_of_lookup. exists i. apply lookup_zip_with_Some. exists e.1.1, c. split_and!; try done.
      by rewrite list_lookup_fmap, Hi.
  - intros Hno. rewrite Slots.searchBySlots_miss; [|done|lia|].
    + eexists. split; [reflexivity|]. case_bool_decide; auto.
    + intros n Hn. apply Hnode in Hn as (i1 & e1 & c1 & H1 & H1' & ->). apply Hno. by eapply list_elem_of_lookup_2.
Qed.

End Hiredis.

(** *** Making a cluster *)
Section Create.
(** The first node is asked over a synchronous context [ctx], whatever the cluster's own
    connections are; [None] is a null pointer. *)
Context {conn ctx World : Type}.
Variable connect : str → Z → World → result exn (option conn) * World.
Variable err : conn → World → bool.
Variable redisConnectWithTimeout : str → Z → World → option ctx * World.
Variable ctx_err : ctx → World → bool.
Variable redisCommand : ctx → str → World → option redisReply * World.
Variable redisFree : ctx → World → World.

(*@ common/hirediscommand.h 56-78 HiredisCommand::createCluster *)
Definition createCluster (host : str) (port : Z) : M (state (conn:=conn) (World:=World)) exn unit :=
  con ← call (redisConnectWithTimeout host port);
  match con with
  | None => throw ConnectionFailedException
  | Some c =>
      bad ← gets (λ s, ctx_err c (world s));
      if (bad : bool) then throw ConnectionFailedException
      else
        reply ← call (redisCommand c (lit "cluster slots"));
        got reply ;;
        checkCritical reply true [] ;;
        match reply with
        | None => throw Undefined
        | Some r =>
            new connect err r ;;
            freeReplyObject ;;
            call (λ w, (tt, redisFree c w))
        end
  end.

Lemma spends_insert_slots slots host port :
  spends (insert_slots (conn:=conn) (World:=World) connect err slots host port) (λ _, 0) 0.
Proof.
  eapply spends_bind; [apply spends_try_call|]. intros [c|]; [|by apply spends_throw].
  eapply spends_bind; [apply spends_gets|]. intros []; [by apply spends_throw|apply spends_on].
Qed.

Lemma spends_insert_entries l : spends (insert_entries (conn:=conn) (World:=World) connect err l) (λ _, 0) 0.
Proof.
  induction l as [|x l IH]; simpl; [by apply spends_ret|]. destruct (slots_entry x) as [[[r h] p]|]; [|by apply spends_throw].
  eapply spends_bind; [apply spends_insert_slots|]. intros []. exact IH.
Qed.

Lemma spends_new r : spends (new (conn:=conn) (World:=World) connect err r) (λ _, 0) 0.
Proof.
  eapply (spends_bind (set_cluster _) _ _ (λ _, 0)); [intros s; simpl; lia|]. intros []. unfold init.
  destruct r; try by apply spends_throw.
  eapply spends_bind; [apply spends_insert_entries|]. intros [].
  eapply spends_bind; [apply spends_gets|]. intros c s. simpl. lia.
Qed.

(** When [createCluster] returns, the cluster is ready and the answer it was made from is freed. *)
Theorem createCluster_ok host port s s' :
  createCluster host port s = (Ok tt, s') → live s' = live s ∧ readytouse_ (cluster_ s') = true.
Proof.
  destruct s as [cl w n]. unfold createCluster, mbind at 1, M_bind, call. cbn [world cluster_ live].
  destruct (redisConnectWithTimeout host port w) as [[c|] w1]; [|done].
  unfold mbind at 1, gets. cbn [world]. destruct (ctx_err c w1); [done|].
  unfold mbind at 1. cbn [world cluster_ live]. destruct (redisCommand c (lit "cluster slots") w1) as [r w2].
  destruct r as [r|]; [|done]. unfold mbind at 1, got. cbn [world cluster_ live]. unfold mbind at 1, checkCritical.
  destruct (critical (Some r) true []); [done|]. cbn [mret M_ret].
  pose proof (spends_new r (St cl w2 (n + 1))) as Hn. unfold mbind at 1.
  destruct (new connect err r (St cl w2 (n + 1))) as [[[]|e] s3] eqn:E; [|done].
  intros [= <-]. simpl in *. split; [lia|].
  unfold new in E. erewrite run_Ok in E by reflexivity. unfold init in E. destruct r; try done.
  apply bind_Ok in E as ([] & s4 & _ & E). erewrite run_Ok in E by reflexivity. by injection E as <-.
Qed.
End Create.

(** *** Two nodes

    The world is the log of the commands exchanged; a context is its port; the node on port 7000
    redirects every command to port 7001, with ASK for the command "ask". *)
Module TwoNodes.
Definition log : Type := list (Z * str).
Definition connect (host : str) (port : Z) (w : log) : result exn (option Z) * log := (Ok (Some port), w).
Definition free (c : Z) (w : log) : log := w.
Definition err (c : Z) (w : log) : bool := false.
Definition errstr (c : Z) (w : log) : str := [].
Definition host : str := lit "10.0.0.2".
Definition moved_text : str := redirection (lit "MOVED") (lit "12182") host (dec 7001).
Definition ask_text : str := redirection (lit "ASK") (lit "12182") host (dec 7001).
Definition exchange (c : Z) (cmd : str) (w : log) : option (option redisReply) * log :=
  (Some (Some (if c =? 7000
               then REDIS_REPLY_ERROR (if decide (cmd = lit "ask") then ask_text else moved_text)
               else REDIS_REPLY_STATUS (lit "OK"))), w ++ [(c, cmd)]).
Definition command (c : Z) (cmd : str) (w : log) : option redisReply * log :=
  (Some (REDIS_REPLY_STATUS (lit "OK")), w ++ [(c, cmd)]).
Definition callback (n : nat) (c : t (conn:=Z)) (w : log) : t (conn:=Z) * log := (c, w).

Definition range (a b port : Z) : redisReply :=
  REDIS_REPLY_ARRAY [REDIS_REPLY_INTEGER a; REDIS_REPLY_INTEGER b;
    REDIS_REPLY_ARRAY [REDIS_REPLY_STRING host; REDIS_REPLY_INTEGER port]].
(** Port 7001 serves the lower slots. *)
Definition answer : list redisReply := [range 8192 16383 7000; range 0 8191 7001].
Definition entries : list ((Z * Z) * str * Z) := [((8192, 16383), host, 7000); ((0, 8191), host, 7001)].
Definition none : state (conn:=Z) (World:=log) := St (Mk (Container [] ∅) None false false) ([] : log) 0.
Definition ready : state (conn:=Z) (World:=log) := snd (new connect err (REDIS_REPLY_ARRAY answer) none).
Definition run (cmd : str) := process connect err errstr exchange command callback (lit "foo") cmd ready.

Example foo_slot : SlotByKey (lit "foo") = 12182.
Proof. by vm_compute. Qed.

(** One command to the first node, one to the node it names. *)
Example moved_log : world (snd (run (lit "get"))) = [(7000, lit "get"); (7001, lit "get")].
Proof. by vm_compute. Qed.
Example ask_log : world (snd (run (lit "ask"))) = [(7000, lit "ask"); (7001, lit "ASKING"); (7001, lit "ask")].
Proof. by vm_compute. Qed.

Lemma nodes_up : reachable_nodes connect err.
Proof. intros h p w. by exists p, w. Qed.

Lemma entries_disjoint : disjoint_ranges entries.
Proof.
  split; [by repeat constructor|]. intros [|[|i]] [|[|j]] e e'; simpl; try done.
  all: intros [= <-] [= <-]; simpl; lia.
Qed.

Lemma Cluster_routes_witness :
  ∃ s', new connect err (REDIS_REPLY_ARRAY answer) none = (Ok tt, s') ∧
        ∃ c, getConnection (lit "foo") s' = (Ok ((8192, 16383), c), s').
Proof.
  destruct (Cluster_routes connect err answer entries none nodes_up eq_refl entries_disjoint) as (s' & H & Hk).
  exists s'. split; [exact H|].
  assert (8192 <= SlotByKey (lit "foo") <= 16383) as Hs by (rewrite foo_slot; lia).
  destruct (proj1 (Hk (lit "foo")) ((8192, 16383), host, 7000) (list_elem_of_here _ _) Hs) as (c & Hc & _).
  exists c. exact Hc.
Defined.

Lemma exchange_sane : sane exchange.
Proof.
  intros c cmd w s w'. unfold exchange. destruct (c =? 7000); [|congruence].
  destruct (decide (cmd = lit "ask")); intros [= <- _].
  - assert (size ask_text = 23) as -> by (vm_compute; reflexivity). reflexivity.
  - assert (size moved_text = 25) as -> by (vm_compute; reflexivity). reflexivity.
Qed.

Lemma process_frees_replies_witness : live (snd (run (lit "get"))) = live ready + 1.
Proof.
  exact (process_frees_replies connect err errstr exchange command callback (lit "foo") (lit "get") ready
           (Ok (Some (REDIS_REPLY_STATUS (lit "OK")))) (snd (run (lit "get"))) exchange_sane eq_refl).
Defined.

Lemma process_follows_redirect_witness :
  ∃ s', run (lit "get") = (Ok (Some (REDIS_REPLY_STATUS (lit "OK"))), s') ∧ live s' = live ready + 1.
Proof.
  destruct (process_follows_redirect connect err errstr exchange command callback false (lit "foo") (lit "get") ready
    (8192, 16383) 7000 (lit "12182") host 7001 [(7000, lit "get")]
    (snd (insert_host connect err host (dec 7001) (St (cluster_ ready) [(7000, lit "get")] 0))) 7001
    [(7000, lit "get")] (REDIS_REPLY_STATUS (lit "OK")) [(7000, lit "get"); (7001, lit "get")])
    as (s' & H & _ & Hl & _).
  all: try exact eq_refl; try (apply (bool_decide_unpack _); exact I); try lia.
  - right. split; [exact eq_refl|]. exists [(7000, lit "get")]. repeat split; exact eq_refl.
  - exists s'. split; [exact H|exact Hl].
Defined.

(** A key below every range: the search steps back from the first node of the map. *)
Example search_before_first : Slots.searchBySlots 100 [((8192, 16383), 7000)] = Err Undefined.
Proof. reflexivity. Qed.

(** Two entries that start at the same slot: the map keeps the first connection and the second one
    is in no container. *)
Example duplicate_range_leaks :
  let s := snd (new connect err (REDIS_REPLY_ARRAY [range 0 100 7000; range 0 200 7001]) none) in
  nodes_ (container (cluster_ s)) = [((0, 100), 7000)].
Proof. by vm_compute. Qed.

(** An answer that is no table of slots makes the constructor throw, and neither the answer nor the
    context it came from is freed. *)
Example createCluster_leaks :
  let '(r, s) := createCluster connect err (λ h p w, (Some p, w)) err command free host 7000 none in
  r = Err ConnectionFailedException ∧ live s = 1.
Proof. by vm_compute. Qed.

(** A connection that breaks leaves the reply pointer uninitialised. *)
Example broken_connection :
  fst (process connect err errstr (λ c cmd w, (None, w)) command callback (lit "foo") (lit "get") ready) = Err Undefined.
Proof. by vm_compute. Qed.

(** A redirection without a host and port is not rejected by the parser: what is taken for the port is
    the whole text, which [std::stoi] refuses. *)
Example malformed_redirection :
  parsehostport (lit "MOVED") = Ok (lit "MOVED", lit "MOVED") ∧
  std_stoi (lit "MOVED") = Err std_invalid_argument.
Proof. by vm_compute. Qed.
End TwoNodes.
End Cluster.
