(* ===== verification/AsyncCluster.v ===== *)
(** * The asynchronous cluster client (common/asynchirediscommand.h)

    [AsyncHiredisCommand::Command] allocates an object, sends its command to the node of its key's
    slot and registers the object with hiredis; the callbacks follow redirections and, at the end,
    call the application and delete the object.  hiredis is its functions for sending and
    disconnecting, and the rule of its event loop: a registered callback is called once, in the order
    of registration on its connection, with a reply or, when the connection is lost, with NULL, and
    the reply is freed after the callback.

    Objects are numbers, looked up in [cmds] when they are used: an object that was deleted is not
    there and using it is [Undefined].  The application's callbacks change the world; what they do
    with the cluster besides is further [Command]s. *)
From S2P Require Import Prelude CppString Decimal SlotHash Cluster.

#[local] Open Scope Z_scope.

Module AsyncHiredisCommand.
Import Cluster.HiredisProcess.

(*@ common/asynchirediscommand.h 63-69 Action *)
Inductive Action := REDIRECT | FINISH | ASK_ | RETRY.
#[export] Instance Action_eq : EqDecision Action.
Proof. solve_decision. Defined.

Inductive callback := ProcessCommandReply | AskingCallback.

Section Async.
Context {conn World : Type} `{EqDecision conn}.
Variable connect : str → Z → World → result exn (option conn) * World.
Variable err : conn → World → bool.
Variable moved_callback : nat → Cluster.t (conn:=conn) → World → Cluster.t (conn:=conn) * World.
(** hiredis: whether the command was accepted; whether a connection is in the subscribed state. *)
Variable redisAsyncFormattedCommand : conn → str → World → bool * World.
Variable redisAsyncDisconnect : conn → World → World.
Variable subscribed : conn → World → bool.
(** The application's functions, by number. *)
Variable userErrorCallback : nat → nat → exn → processState → World → Action * World.
Variable redisCallback : nat → option redisReply → World → World.

(** [cmd_] is the formatted command. *)
(*@ common/asynchirediscommand.h 416-436 AsyncHiredisCommand *)
Record command := Cmd {
  userCallback_p_ : nat;
  userErrorCb_ : option nat;
  con_ : str * option conn;
  key_ : str;
  cmd_ : str;
}.

Inductive event :=
| Accepted (id : nat)
| UserCallback (id : nat) (r : option redisReply)
| ErrorCallback (id : nat) (e : exn) (st : processState).

(** The cluster, the objects, the callbacks registered with hiredis in the order of their commands,
    what was accepted from and told to the application, and the next object to be allocated. *)
Record state := Async {
  cluster : Cluster.state (conn:=conn) (World:=World);
  cmds : gmap nat command;
  pending : list (conn * callback * nat);
  events : list event;
  fresh : nat;
}.

Definition on_cluster {A} (m : M Cluster.state exn A) : M state exn A := λ s,
  let '(r, c) := m (cluster s) in (r, Async c (cmds s) (pending s) (events s) (fresh s)).
Definition call {A} (f : World → A * World) : M state exn A := on_cluster (Cluster.call f).
Definition gets {A} (f : state → A) : M state exn A := λ s, (Ok (f s), s).
Definition log (e : event) : M state exn unit := λ s,
  (Ok tt, Async (cluster s) (cmds s) (pending s) (events s ++ [e]) (fresh s)).
Definition register (c : conn) (cb : callback) (id : nat) : M state exn unit := λ s,
  (Ok tt, Async (cluster s) (cmds s) (pending s ++ [(c, cb, id)]) (events s) (fresh s)).
(** Dereferencing a pointer to an object. *)
Definition that (id : nat) : M state exn command := λ s,
  match cmds s !! id with Some c => (Ok c, s) | None => (Err Undefined, s) end.
Definition store (id : nat) (c : command) : M state exn unit := λ s,
  (Ok tt, Async (cluster s) (<[id := c]> (cmds s)) (pending s) (events s) (fresh s)).
Definition delete_cmd (id : nat) : M state exn unit := λ s,
  (Ok tt, Async (cluster s) (delete id (cmds s)) (pending s) (events s) (fresh s)).

(*@ common/asynchirediscommand.h 167-170 Disconnect *)
Definition Disconnect (c : conn) : M state exn unit := call (λ w, (tt, redisAsyncDisconnect c w)).

(*@ common/asynchirediscommand.h 172-215 AsyncHiredisCommand *)
Definition new_command (userCb : nat) (key cmd : str) : M state exn nat := λ s,
  (Ok (fresh s), Async (cluster s) (<[fresh s := Cmd userCb None ([], None) key cmd]> (cmds s)) (pending s) (events s) (S (fresh s))).

(** [~AsyncHiredisCommand], with the [delete] that runs it. *)
(*@ common/asynchirediscommand.h 217-232 ~AsyncHiredisCommand *)
Definition destroy (id : nat) : M state exn unit :=
  c ← that id;
  match (con_ c).2 with Some con => Disconnect con | None => mret tt end ;;
  delete_cmd id.

(** [redisAsyncFormattedCommand] and [redisAsyncCommand], which register the callback. *)
Definition send (con : conn) (cb : callback) (id : nat) (cmd : str) : M state exn bool :=
  ok ← call (redisAsyncFormattedCommand con cmd);
  if (ok : bool) then register con cb id ;; mret true else mret false.

(*@ common/asynchirediscommand.h 240-243 processHiredisCommand *)
Definition processHiredisCommand (id : nat) (con : conn) : M state exn bool :=
  c ← that id; send con ProcessCommandReply id (cmd_ c).

(*@ common/asynchirediscommand.h 234-238 process *)
Definition process (id : nat) : M state exn bool :=
  c ← that id;
  con ← on_cluster (Cluster.getConnection (key_ c));
  processHiredisCommand id con.2.

(** The three [Command]s differ in how the command is formatted. *)
(*@ common/asynchirediscommand.h 78-129 Command *)
Definition Command (key : str) (userCb : nat) (cmd : str) : M state exn nat :=
  id ← new_command userCb key cmd;
  ok ← process id;
  if (ok : bool) then log (Accepted id) ;; mret id
  else destroy id ;; throw DisconnectedException.

(*@ common/asynchirediscommand.h 160-163 setUserErrorCb *)
Definition setUserErrorCb (id : nat) (userErrorCb : option nat) : M state exn unit :=
  c ← that id; store id (Cmd (userCallback_p_ c) userErrorCb (con_ c) (key_ c) (cmd_ c)).

Definition call_user_error (f id : nat) (e : exn) (st : processState) : M state exn Action :=
  log (ErrorCallback id e st) ;; call (userErrorCallback f id e st).
Definition call_user (id : nat) (r : option redisReply) : M state exn unit :=
  c ← that id;
  log (UserCallback id r) ;; call (λ w, (tt, redisCallback (userCallback_p_ c) r w)).

(*@ common/asynchirediscommand.h 375-385 retry *)
Definition retry (con : conn) (r : option redisReply) (id : nat) : M state exn unit :=
  ok ← processHiredisCommand id con;
  if (ok : bool) then mret tt
  else
    c ← that id;
    match userErrorCb_ c with
    | None => throw Undefined
    | Some f => call_user_error f id DisconnectedException FAILED ;; call_user id r ;; destroy id
    end.

(** The end of both callbacks, on [commandState]. *)
(*@ common/asynchirediscommand.h 361-372 processCommandReply *)
Definition conclude (commandState : Action) (con : conn) (r : option redisReply) (id : nat) : M state exn unit :=
  match commandState with
  | RETRY => retry con r id
  | FINISH =>
      call_user id r ;;
      sub ← gets (λ s, subscribed con (Cluster.world (cluster s)));
      if (sub : bool) then mret tt else destroy id
  | _ => mret tt
  end.

(** What [catch ( const ClusterException &ce )] catches. *)
Definition is_ClusterException (e : exn) : bool :=
  match e with std_invalid_argument | std_out_of_range | Undefined => false | _ => true end.

(*@ common/asynchirediscommand.h 353-359 processCommandReply *)
Definition on_exception (id : nat) (e : exn) (st : processState) : M state exn Action :=
  if is_ClusterException e then
    c ← that id;
    match userErrorCb_ c with
    | Some f => a ← call_user_error f id e st; mret (if decide (a = RETRY) then RETRY else FINISH)
    | None => mret FINISH
    end
  else throw e.

Definition checkCritical (r : option redisReply) : M state exn unit := on_cluster (Cluster.checkCritical r false []).

(*@ common/asynchirediscommand.h 252-265 askingCallback *)
Definition asking_try (r : option redisReply) (id : nat) : M state exn Action :=
  checkCritical r ;;
  match r with
  | Some (REDIS_REPLY_STATUS st) =>
      if decide (c_str st = lit "OK") then
        c ← that id;
        match (con_ c).2 with
        | None => throw Undefined
        | Some con =>
            ok ← processHiredisCommand id con;
            if (ok : bool) then mret ASK_ else throw AskingFailedException
        end
      else throw AskingFailedException
  | _ => throw AskingFailedException
  end.

(*@ common/asynchirediscommand.h 245-289 askingCallback *)
Definition askingCallback (con : conn) (r : option redisReply) (id : nat) : M state exn unit :=
  commandState ← catch (asking_try r id) (λ e, on_exception id e ASK);
  conclude commandState con r id.

(** [that->con_], made if it is not there yet; hiredis dereferences a null connection. *)
(*@ common/asynchirediscommand.h 308-311 processCommandReply *)
Definition redirect_connection (id : nat) (host port : str) : M state exn conn :=
  c ← that id;
  match (con_ c).2 with
  | Some con => mret con
  | None =>
      hc ← on_cluster (Cluster.createNewConnection connect err host port);
      store id (Cmd (userCallback_p_ c) (userErrorCb_ c) hc (key_ c) (cmd_ c)) ;;
      match hc.2 with Some con => mret con | None => throw Undefined end
  end.

(** An exception leaves the [try] block with the value [state] has then. *)
Definition at_state {A} (st : processState) (m : M state exn A) : M state (exn * processState) A :=
  catch m (λ e, throw (e, st)).

(*@ common/asynchirediscommand.h 304-350 processCommandReply *)
Definition redirected (id : nat) (st : processState) (host port : str) : M state exn Action :=
  match st with
  | ASK =>
      con ← redirect_connection id host port;
      ok ← send con AskingCallback id (lit "ASKING");
      if (ok : bool) then mret ASK_ else throw AskingFailedException
  | MOVED =>
      on_cluster (Cluster.moved moved_callback) ;;
      con ← redirect_connection id host port;
      ok ← processHiredisCommand id con;
      if (ok : bool) then mret REDIRECT else throw MovedFailedException
  | READY => mret FINISH
  | CLUSTERDOWN => throw ClusterDownException
  | FAILED => throw (LogicError (lit "cluster logic error"))
  end.

(*@ common/asynchirediscommand.h 299-302 processCommandReply *)
Definition reply_try (r : option redisReply) (id : nat) : M state (exn * processState) Action :=
  at_state FAILED (checkCritical r) ;;
  st ← at_state FAILED (λ s, (match r with Some r => processResult r | None => Err Undefined end, s));
  at_state st.1.1 (redirected id st.1.1 st.1.2 st.2).

(*@ common/asynchirediscommand.h 291-373 processCommandReply *)
Definition processCommandReply (con : conn) (r : option redisReply) (id : nat) : M state exn unit :=
  commandState ← catch (reply_try r id) (λ e, on_exception id e.1 e.2);
  conclude commandState con r id.

(** hiredis hands a reply to a callback and frees it afterwards. *)
Definition deliver (e : conn * callback * nat) (r : option redisReply) : M state exn unit :=
  on_cluster (Cluster.got r) ;;
  match e.1.2 with
  | ProcessCommandReply => processCommandReply e.1.1 r e.2
  | AskingCallback => askingCallback e.1.1 r e.2
  end ;;
  match r with Some _ => on_cluster Cluster.freeReplyObject | None => mret tt end.

Definition set_pending (l : list (conn * callback * nat)) (s : state) : state :=
  Async (cluster s) (cmds s) l (events s) (fresh s).

(** The application sends commands and sets error handlers of objects that hiredis still has; the
    event loop calls the oldest callback of some connection. *)
Inductive step : state → unit → state → Prop :=
| step_command s key cb cmd r s' : Command key cb cmd s = (r, s') → step s tt s'
| step_handler s id f s' :
    setUserErrorCb id f s = (Ok tt, s') → step s tt s'
| step_reply s a e b r s' :
    pending s = a ++ e :: b → Forall (λ e', e'.1.1 ≠ e.1.1) a →
    deliver e r (set_pending (a ++ b) s) = (Ok tt, s') → step s tt s'.

End Async.

(** The same text as [HiredisCommand::createCluster]. *)
(*@ common/asynchirediscommand.h 131-153 createCluster *)
Definition createCluster {conn ctx World} := Cluster.createCluster (conn:=conn) (ctx:=ctx) (World:=World).

(** The library's own function to connect, over hiredis and libevent; [evbase] says whether an event
    base was given. *)
Section Libevent.
Context {conn World : Type}.
Variable err : conn → World → bool.
Variable redisAsyncConnect : str → Z → World → option conn * World.
Variable redisLibeventAttach : conn → World → bool * World.
Variable redisAsyncFree : conn → World → World.

(*@ common/asynchirediscommand.h 387-414 libeventConnect *)
Definition libeventConnect (evbase : bool) (host : str) (port : Z) (w : World) : result exn (option conn) * World :=
  if evbase then
    let '(con, w) := redisAsyncConnect host port w in
    match con with
    | None => (Err ConnectionFailedException, w)
    | Some c =>
        if err c w then (Err ConnectionFailedException, w)
        else
          let '(ok, w) := redisLibeventAttach c w in
          if ok then (Ok (Some c), w) else (Err ConnectionFailedException, redisAsyncFree c w)
    end
  else (Err ConnectionFailedException, w).
End Libevent.
End AsyncHiredisCommand.
