(* ===== verification/AsyncClusterSpec.v ===== *)
(** * The asynchronous cluster client: every accepted command is answered once

    The proofs follow one object through a callback: [status] counts how often it was accepted, is
    registered with hiredis and was told to the application, and what its fields say; every other
    object stays in a settled state ([settled]). *)
From S2P Require Import Prelude CppString Decimal SlotHash Cluster AsyncCluster.

#[local] Open Scope nat_scope.

Module AsyncSpec.
Import Cluster.HiredisProcess AsyncHiredisCommand.

Section Async.
Context {conn World : Type} `{EqDecision conn}.
Variable connect : str → Z → World → result exn (option conn) * World.
Variable err : conn → World → bool.
Variable moved_callback : nat → Cluster.t (conn:=conn) → World → Cluster.t (conn:=conn) * World.
Variable redisAsyncFormattedCommand : conn → str → World → bool * World.
Variable redisAsyncDisconnect : conn → World → World.
Variable subscribed : conn → World → bool.
Variable userErrorCallback : nat → nat → exn → processState → World → Action * World.
Variable redisCallback : nat → option redisReply → World → World.

Abbreviation state := (AsyncHiredisCommand.state (conn:=conn) (World:=World)).

Definition accepted (i : nat) (e : event) : bool := match e with Accepted j => i =? j | _ => false end.
Definition told (i : nat) (e : event) : bool := match e with UserCallback j _ => i =? j | _ => false end.
Definition waits (i : nat) (e : conn * callback * nat) : bool := i =? e.2.
Definition asks (i : nat) (e : conn * callback * nat) : bool :=
  (i =? e.2) && match e.1.2 with AskingCallback => true | _ => false end.

(** How often the object was accepted, waits for a reply, waits for the answer to ASKING and was told
    to the application; and, if it exists, whether it has an error handler and a connection. *)
Record status := Status { acc : nat; wait : nat; ask : nat; calls : nat; obj : option (bool * bool) }.
Definition fields (c : command (conn:=conn)) : bool * bool :=
  (bool_decide (userErrorCb_ c ≠ None), match (con_ c).2 with Some _ => true | None => false end).
Definition status_of (s : state) (i : nat) : status :=
  Status (count (accepted i) (events s)) (count (waits i) (pending s)) (count (asks i) (pending s))
         (count (told i) (events s)) (fields <$> cmds s !! i).

(** Never accepted; waiting for its reply, with a connection if it has sent ASKING; told once. *)
Inductive settled : status → Prop :=
| unsent o : settled (Status 0 0 0 0 o)
| sent q h k : (0 < q → k = true) → settled (Status 1 1 q 0 (Some (h, k)))
| finished : settled (Status 1 0 0 1 None).

(** All objects but [i] are settled, and [i] is in [X]. *)
Record at_work (i : nat) (X : status → Prop) (s : state) : Prop := {
  aw_fresh : i < fresh s;
  aw_new : ∀ j, fresh s ≤ j → status_of s j = Status 0 0 0 0 None;
  aw_others : ∀ j, j ≠ i → settled (status_of s j);
  aw_this : X (status_of s i);
}.
Definition good (s : state) : Prop :=
  (∀ j, fresh s ≤ j → status_of s j = Status 0 0 0 0 None) ∧ ∀ j, settled (status_of s j).

Lemma at_work_settled i s : at_work i settled s → good s.
Proof. intros [Hf Hn Ho Ht]. split; [done|]. intros j. destruct (decide (j = i)) as [->|]; auto. Qed.

(** An operation that changes the status of [i] only. *)
Lemma at_work_upd i (X Y : status → Prop) s s' :
  at_work i X s → fresh s' = fresh s → (∀ j, j ≠ i → status_of s' j = status_of s j) →
  (X (status_of s i) → Y (status_of s' i)) → at_work i Y s'.
Proof.
  intros [Hf Hn Ho Ht] Hfr Hj HY. split; rewrite ?Hfr; auto; intros j Hij; rewrite Hj; auto; lia.
Qed.

Lemma at_work_weaken i (X Y : status → Prop) s : (∀ x, X x → Y x) → at_work i X s → at_work i Y s.
Proof. intros HX H. eapply at_work_upd; eauto. Qed.

(** Within a callback: accepted, not registered, not told; handler [h]. *)
Inductive held (h : bool) : status → Prop := held_ k : held h (Status 1 0 0 0 (Some (h, k))).
(** The same with a connection. *)
Inductive held_con (h : bool) : status → Prop := held_con_ : held_con h (Status 1 0 0 0 (Some (h, true))).
(** A new object. *)
Inductive new_obj : status → Prop := new_obj_ h k : new_obj (Status 0 0 0 0 (Some (h, k))).

Abbreviation T := (triple (S:=state)).
Definition never {A B} (_ : A) (_ : B) : Prop := False.

Lemma held_con_held h x : held_con h x → held h x.
Proof. intros []. constructor. Qed.

(** *** The operations *)
(** What happens to the cluster alone keeps every status. *)
Lemma cluster_keeps i X {A} (m : M (Cluster.state (conn:=conn) (World:=World)) exn A) (Q : A → Prop) (R : exn → Prop) :
  (∀ c, match fst (m c) with Ok a => Q a | Err e => R e end) →
  T (at_work i X) (on_cluster m) (λ a s, Q a ∧ at_work i X s) (λ e s, R e ∧ at_work i X s).
Proof.
  intros Hm s Hs. unfold on_cluster. specialize (Hm (cluster s)). destruct (m (cluster s)) as [[a|e] c]; simpl in Hm.
  all: split; [done|]; eapply at_work_upd; eauto; done.
Qed.

Lemma call_keeps i X {A} (f : World → A * World) (R : exn → state → Prop) :
  T (at_work i X) (call f) (λ _, at_work i X) R.
Proof.
  eapply triple_weaken; [apply (cluster_keeps i X (Cluster.call f) (λ _, True) (λ _, False))|done|by intros a s []|by intros e s []].
  intros c. unfold Cluster.call. by destruct (f (Cluster.world c)).
Qed.

(** The fields of an object in [X]. *)
Definition alive (X : status → Prop) (h : bool) : Prop := ∀ x, X x → ∃ k, obj x = Some (h, k).

Lemma that_spec i X h (R : exn → state → Prop) : alive X h →
  T (at_work i X) (that i) (λ c s, (fields c).1 = h ∧ cmds s !! i = Some c ∧ at_work i X s) R.
Proof.
  intros Ha s Hs. destruct (Ha _ (aw_this _ _ _ Hs)) as [k Hk]. unfold that. simpl in Hk.
  destruct (cmds s !! i) as [c|] eqn:E; [|done]. rewrite E. assert (fields c = (h, k)) as Hf by (simpl in Hk; congruence). by rewrite Hf.
Qed.

(** [that] with a continuation that needs only the fields. *)
Lemma that_bind i X h {A} (f : command → M state exn A) Q R : alive X h →
  (∀ c, (fields c).1 = h → T (λ s, cmds s !! i = Some c ∧ at_work i X s) (f c) Q R) →
  T (at_work i X) (c ← that i; f c) Q R.
Proof.
  intros Ha Hf. eapply triple_bind; [by apply that_spec|]. intros c. apply triple_pure. apply Hf.
Qed.
Lemma forget {A} (p : state → Prop) P (m : M state exn A) Q R : T P m Q R → T (λ s, p s ∧ P s) m Q R.
Proof. intros Hm s [_ Hs]. by apply Hm. Qed.

Lemma count_snoc {A} (p : A → bool) l x : count p (l ++ [x]) = count p l + (if p x then 1 else 0).
Proof. rewrite count_app. simpl. destruct (p x); simpl; lia. Qed.

Lemma register_spec i X Y con cb : (∀ x, X x → Y (Status (acc x) (wait x + 1)
    (ask x + match cb with AskingCallback => 1 | _ => 0 end) (calls x) (obj x))) → 
  T (at_work i X) (register con cb i) (λ _, at_work i Y) never.
Proof.
  intros HY s Hs. simpl. eapply at_work_upd; [exact Hs|done|..].
  - intros j Hj. unfold status_of. simpl. rewrite !count_snoc. unfold waits, asks. simpl.
    apply Nat.eqb_neq in Hj. rewrite Hj. simpl. f_equal; lia.
  - intros Hx%HY. unfold status_of in *. simpl in *. rewrite !count_snoc. unfold waits at 2, asks at 2. simpl.
    rewrite Nat.eqb_refl. simpl. by destruct cb.
Qed.

Lemma log_spec i X Y e : (∀ j, j ≠ i → accepted j e = false ∧ told j e = false) →
  (∀ x, X x → Y (Status (acc x + (if accepted i e then 1 else 0)) (wait x) (ask x) (calls x + (if told i e then 1 else 0)) (obj x))) →
  T (at_work i X) (log e) (λ _, at_work i Y) never.
Proof.
  intros He HY s Hs. simpl. eapply at_work_upd; [exact Hs|done|..].
  - intros j [H1 H2]%He. unfold status_of. simpl. rewrite !count_snoc, H1, H2. f_equal; lia.
  - intros Hx%HY. unfold status_of in *. simpl in *. by rewrite !count_snoc.
Qed.

Lemma store_spec i X Y c : (∀ x, X x → Y (Status (acc x) (wait x) (ask x) (calls x) (Some (fields c)))) →
  T (at_work i X) (store i c) (λ _, at_work i Y) never.
Proof.
  intros HY s Hs. simpl. eapply at_work_upd; [exact Hs|done|..].
  - intros j Hj. unfold status_of. simpl. by rewrite lookup_insert_ne.
  - intros Hx%HY. unfold status_of in *. simpl in *. by rewrite lookup_insert_eq.
Qed.

Lemma delete_spec i X Y : (∀ x, X x → Y (Status (acc x) (wait x) (ask x) (calls x) None)) →
  T (at_work i X) (delete_cmd i) (λ _, at_work i Y) never.
Proof.
  intros HY s Hs. simpl. eapply at_work_upd; [exact Hs|done|..].
  - intros j Hj. unfold status_of. simpl. by rewrite lookup_delete_ne.
  - intros Hx%HY. unfold status_of in *. simpl in *. by rewrite lookup_delete_eq.
Qed.

(** *** Composed operations *)
Lemma async_destroy_spec i X h Y : alive X h → (∀ x, X x → Y (Status (acc x) (wait x) (ask x) (calls x) None)) →
  T (at_work i X) (destroy redisAsyncDisconnect i) (λ _, at_work i Y) never.
Proof.
  intros Ha HY. eapply that_bind; [done|]. intros c _. apply forget.
  eapply (triple_bind _ _ _ (λ _, at_work i X)).
  - destruct (con_ c).2; [apply call_keeps|by apply triple_ret].
  - intros _. by apply delete_spec.
Qed.

Lemma call_user_spec i X h Y r : alive X h →
  (∀ x, X x → Y (Status (acc x) (wait x) (ask x) (calls x + 1) (obj x))) →
  T (at_work i X) (call_user redisCallback i r) (λ _, at_work i Y) never.
Proof.
  intros Ha HY. eapply that_bind; [done|]. intros c _. apply forget.
  eapply (triple_bind _ _ _ (λ _, at_work i Y)); [|intros _; apply call_keeps]. apply log_spec.
  - intros j Hj. by apply Nat.eqb_neq in Hj.
  - intros x Hx. simpl. rewrite Nat.eqb_refl, Nat.add_0_r. by apply HY.
Qed.

Lemma call_user_error_spec i X f e st : 
  T (at_work i X) (call_user_error userErrorCallback f i e st) (λ _, at_work i X) never.
Proof.
  eapply (triple_bind _ _ _ (λ _, at_work i X)); [|intros _; apply call_keeps]. apply log_spec.
  { by intros. }
  intros x Hx. simpl. rewrite !Nat.add_0_r. by destruct x.
Qed.

(** Once a command has been taken by hiredis the object waits for the callback. *)
Lemma async_send_spec i (X Y : status → Prop) con cb cmd : (∀ x, X x → Y (Status (acc x) (wait x + 1)
    (ask x + match cb with AskingCallback => 1 | _ => 0 end) (calls x) (obj x))) → 
  T (at_work i X) (send redisAsyncFormattedCommand con cb i cmd) (λ ok, at_work i (if ok then Y else X)) never.
Proof.
  intros HY. eapply triple_bind; [apply (call_keeps i X)|]. intros [].
  - eapply triple_bind; [by apply register_spec|]. intros ?. by apply triple_ret.
  - by apply triple_ret.
Qed.

Lemma processHiredisCommand_spec i X h (Y : status → Prop) con : alive X h →
  (∀ x, X x → Y (Status (acc x) (wait x + 1) (ask x) (calls x) (obj x))) → 
  T (at_work i X) (processHiredisCommand redisAsyncFormattedCommand i con) (λ ok, at_work i (if ok then Y else X)) never.
Proof.
  intros Ha HY. eapply that_bind; [done|]. intros c _. apply forget. apply async_send_spec.
  intros x Hx. simpl. rewrite Nat.add_0_r. by apply HY.
Qed.

Lemma alive_held h : alive (held h) h.
Proof. intros x [k]. by exists k. Qed.
Lemma alive_held_con h : alive (held_con h) h.
Proof. intros x []. by exists true. Qed.

(** Told, and still there. *)
Inductive told_obj (h : bool) : status → Prop := told_obj_ k : told_obj h (Status 1 0 0 1 (Some (h, k))).

(** Telling the application and deleting the object. *)
Lemma finish_spec i h r : 
  T (at_work i (held h)) (call_user redisCallback i r ;; destroy redisAsyncDisconnect i) (λ _, at_work i settled) never.
Proof.
  eapply triple_bind.
  - apply (call_user_spec i _ h (told_obj h)); [apply alive_held|]. intros x [k]. constructor.
  - intros ?. apply (async_destroy_spec i _ h); [intros x [k]; by exists k|]. intros x [k]. constructor.
Qed.

Lemma sent_again h x : held h x → settled (Status (acc x) (wait x + 1) (ask x) (calls x) (obj x)).
Proof. intros [k]. simpl. constructor. lia. Qed.

Lemma retry_spec i con r : 
  T (at_work i (held true)) (retry redisAsyncFormattedCommand redisAsyncDisconnect userErrorCallback redisCallback con r i)
    (λ _, at_work i settled) never.
Proof.
  eapply triple_bind; [apply (processHiredisCommand_spec i _ true settled); [apply alive_held|apply sent_again]|].
  intros [].
  - by apply triple_ret.
  - eapply that_bind; [apply alive_held|]. intros c Hc. apply forget. destruct (userErrorCb_ c) as [f|] eqn:E.
    + eapply triple_bind; [apply call_user_error_spec|]. intros a. apply finish_spec.
    + unfold fields in Hc. rewrite E in Hc. by apply bool_decide_eq_true in Hc.
Qed.

(** What the [try] block and the handler of a callback leave for its end. *)
Definition outcome (h : bool) (a : Action) : status → Prop :=
  match a with
  | FINISH => held h
  | RETRY => λ x, h = true ∧ held true x
  | _ => settled
  end.

Hypothesis no_subscriptions : ∀ c w, subscribed c w = false.

Lemma conclude_spec i h a con r : 
  T (at_work i (outcome h a)) (conclude redisAsyncFormattedCommand redisAsyncDisconnect subscribed userErrorCallback redisCallback a con r i)
    (λ _, at_work i settled) never.
Proof using no_subscriptions.
  destruct a; simpl; [by apply triple_ret| |by apply triple_ret|].
  - intros s Hs. pose proof (finish_spec i h r s Hs) as Hf. unfold mbind, M_bind, gets in *.
    destruct (call_user redisCallback i r s) as [[[]|e] s1]; [|done]. by rewrite no_subscriptions.
  - eapply triple_weaken; [apply retry_spec| |done|done].
    intros s. apply at_work_weaken. by intros x [_ ?].
Qed.

Lemma on_exception_spec i h e st : 
  T (at_work i (held h)) (on_exception userErrorCallback i e st) (λ a, at_work i (outcome h a))
    (λ e' _, e' = e ∧ is_ClusterException e = false).
Proof.
  unfold on_exception. destruct (is_ClusterException e) eqn:Ec; [|by apply triple_throw].
  eapply that_bind; [apply alive_held|]. intros c Hc. apply forget. destruct (userErrorCb_ c) as [f|] eqn:E.
  - eapply triple_bind; [eapply triple_weaken; [apply call_user_error_spec|done|done|by intros ? ? []]|].
    intros a. apply triple_ret. intros s. apply at_work_weaken. intros x Hx. case_decide; [|done].
    assert ((fields c).1 = true) as Hh by (unfold fields; rewrite E; by apply bool_decide_true).
    rewrite Hh in Hc. by subst h.
  - by apply triple_ret.
Qed.

Hypothesis connects : ∀ h p w, match fst (connect h p w) with Ok (Some _) => True | Ok None => False | Err e => e ≠ Undefined end.

Definition defined (e : exn) : Prop := e ≠ Undefined.

Lemma checkCritical_keeps i X r : 
  T (at_work i X) (checkCritical r) (λ _ s, r ≠ None ∧ at_work i X s) (λ e s, is_ClusterException e = true ∧ at_work i X s).
Proof.
  apply (cluster_keeps i X (Cluster.checkCritical r false []) (λ _, r ≠ None) (λ e, is_ClusterException e = true)).
  intros c. unfold Cluster.checkCritical. destruct r as [r|]; [|done].
  unfold critical. destruct r; try done. by destruct (negb _).
Qed.

Lemma createNewConnection_keeps i X h p : 
  T (at_work i X) (on_cluster (Cluster.createNewConnection connect err h p))
    (λ hc s, hc.2 ≠ None ∧ at_work i X s) (λ e s, defined e ∧ at_work i X s).
Proof using connects.
  apply cluster_keeps. intros c. unfold Cluster.createNewConnection, Cluster.insert_host, mbind, M_bind, Cluster.gets, Cluster.lift.
  destruct (Cluster.connections_ _ !! _) as [k|]; [done|]. unfold Cluster.std_stoi.
  destruct (stoi p) as [n|[]]; try done. unfold Cluster.try_call. specialize (connects (c_str h) n (Cluster.world c)).
  destruct (connect (c_str h) n (Cluster.world c)) as [[[k|]|e] w]; try done. simpl. by destruct (err k w).
Qed.

Lemma redirect_connection_spec i h host port : 
  T (at_work i (held h)) (redirect_connection connect err i host port)
    (λ _, at_work i (held_con h)) (λ e s, defined e ∧ at_work i (held h) s).
Proof using connects.
  eapply that_bind; [apply alive_held|]. intros c Hc. destruct (con_ c).2 as [con|] eqn:E.
  - apply triple_ret. intros s [Hs Ha]. eapply at_work_upd; [exact Ha|done|done|].
    unfold status_of. rewrite Hs. simpl. unfold fields in *. rewrite E. simpl in Hc. intros Hx. inversion Hx. subst. constructor.
  - apply forget. eapply triple_bind; [apply createNewConnection_keeps|]. intros hc. apply triple_pure. intros Hhc.
    eapply (triple_bind _ _ _ (λ _, at_work i (held_con h))).
    + eapply triple_weaken; [apply (store_spec i (held h) (held_con h))|done|done|by intros ? ? []].
      intros x [k]. simpl. unfold fields in *. simpl. destruct hc.2; [|done]. simpl in Hc. rewrite Hc. constructor.
    + intros ?. destruct hc.2; [|done]. by apply triple_ret.
Qed.

Lemma asking_try_spec i h r : 
  T (at_work i (held_con h)) (asking_try redisAsyncFormattedCommand r i) (λ a, at_work i (outcome h a))
    (λ e s, is_ClusterException e = true ∧ at_work i (held h) s).
Proof.
  assert (Hbad : ∀ A (e : exn), is_ClusterException e = true →
    T (at_work i (held_con h)) (throw (A:=A) e) never (λ e s, is_ClusterException e = true ∧ at_work i (held h) s)).
  { intros A e He. apply triple_throw. intros s Hs. split; [done|]. by eapply at_work_weaken; [apply held_con_held|]. }
  eapply triple_bind.
  { eapply triple_weaken; [apply checkCritical_keeps|done|done|]. intros e s [He Hs]. split; [done|].
    by eapply at_work_weaken; [apply held_con_held|]. }
  intros ?. apply triple_pure. intros Hr. destruct r as [r|]; [|done].
  assert (Hfail : T (at_work i (held_con h)) (throw AskingFailedException) (λ a, at_work i (outcome h a))
    (λ e s, is_ClusterException e = true ∧ at_work i (held h) s)).
  { eapply triple_weaken; [by apply Hbad|done|by intros ? ? []|done]. }
  destruct r; try exact Hfail. destruct (decide (c_str s = lit "OK")); [|exact Hfail].
  eapply that_bind; [apply alive_held_con|]. intros c Hc. destruct (con_ c).2 as [con|] eqn:E.
  - apply forget. eapply triple_bind.
    + eapply triple_weaken; [apply (processHiredisCommand_spec i (held_con h) h settled); [apply alive_held_con|]|done|done|by intros ? ? []].
      intros x Hx. by apply (sent_again h), held_con_held.
    + intros []; [by apply triple_ret|exact Hfail].
  - intros s' [Hs Ha]. exfalso. pose proof (aw_this _ _ _ Ha) as Hx. unfold status_of in Hx. rewrite Hs in Hx. simpl in Hx.
    unfold fields in Hx. rewrite E in Hx. by inversion Hx.
Qed.

Lemma redirected_spec i h st host port : 
  T (at_work i (held h)) (redirected connect err moved_callback redisAsyncFormattedCommand i st host port)
    (λ a, at_work i (outcome h a)) (λ e s, defined e ∧ at_work i (held h) s).
Proof using connects.
  assert (Hthrow : ∀ X (e : exn), (∀ x, X x → held h x) → defined e →
    T (at_work i X) (throw e) (λ a, at_work i (outcome h a)) (λ e s, defined e ∧ at_work i (held h) s)).
  { intros X e HX He. apply triple_throw. intros s Hs. split; [done|]. by eapply at_work_weaken. }
  destruct st; simpl.
  - eapply (triple_bind _ _ _ (λ _, at_work i (held h))).
    + eapply triple_weaken; [apply (cluster_keeps i (held h) (Cluster.moved moved_callback) (λ _, True) (λ _, False))|done|by intros ? ? []|by intros ? ? []].
      intros c. unfold Cluster.moved. destruct (Cluster.userMovedFn_ _); [|done]. by destruct (moved_callback _ _ _).
    + intros ?. eapply triple_bind; [apply redirect_connection_spec|]. intros con.
      eapply triple_bind.
      * eapply triple_weaken; [apply (processHiredisCommand_spec i (held_con h) h settled); [apply alive_held_con|]|done|done|by intros ? ? []].
        intros x Hx. by apply (sent_again h), held_con_held.
      * intros []; [by apply triple_ret|]. apply Hthrow; [apply held_con_held|done].
  - eapply triple_bind; [apply redirect_connection_spec|]. intros con. eapply triple_bind.
    + eapply triple_weaken; [apply (async_send_spec i (held_con h) settled)|done|done|by intros ? ? []].
      intros x []. simpl. by constructor.
    + intros []; [by apply triple_ret|]. apply Hthrow; [apply held_con_held|done].
  - by apply Hthrow.
  - by apply triple_ret.
  - by apply Hthrow.
Qed.

Lemma at_state_spec {A} i X (m : M state exn A) Q st (Y : status → Prop) : (∀ x, X x → Y x) →
  T (at_work i X) m Q (λ e s, defined e ∧ at_work i Y s) →
  T (at_work i X) (at_state st m) Q (λ e s, defined e.1 ∧ at_work i Y s).
Proof. intros HX Hm. eapply triple_catch; [exact Hm|]. intros e. by apply triple_throw. Qed.

Lemma cluster_exception_defined e : is_ClusterException e = true → defined e.
Proof. by intros H ->. Qed.

Lemma processResult_defined r e : processResult r = Err e → defined e.
Proof.
  unfold processResult. destruct r; try done. unfold parsehostport.
  repeat (case_match; try done); intros [= <-]; try done; by simplify_eq.
Qed.

Lemma reply_try_spec i h r : 
  T (at_work i (held h)) (reply_try connect err moved_callback redisAsyncFormattedCommand r i)
    (λ a, at_work i (outcome h a)) (λ e s, defined e.1 ∧ at_work i (held h) s).
Proof using connects.
  eapply triple_bind.
  { apply at_state_spec; [done|]. eapply triple_weaken; [apply checkCritical_keeps|done|done|].
    intros e s [He Hs]. split; [by apply cluster_exception_defined|exact Hs]. }
  intros ?. apply triple_pure. intros Hr. destruct r as [r|]; [|done].
  eapply (triple_bind _ _ _ (λ _, at_work i (held h))).
  - apply at_state_spec; [done|]. intros s Hs. destruct (processResult r) eqn:E; [done|].
    split; [by eapply processResult_defined|done].
  - intros [[st host] port]. apply at_state_spec; [done|]. apply redirected_spec.
Qed.

(** An exception that leaves a callback was not a [ClusterException], and nothing undefined. *)
Definition escapes (e : exn) (s : state) : Prop := defined e ∧ is_ClusterException e = false.

(** [on_exception] in front of a [try] block. *)
Lemma callback_spec {E} i h X (m : M state E Action) (ex : E → exn) (st : E → processState) con r :
  T (at_work i X) m (λ a, at_work i (outcome h a)) (λ e s, defined (ex e) ∧ at_work i (held h) s) →
  T (at_work i X)
    (commandState ← catch m (λ e, on_exception userErrorCallback i (ex e) (st e));
     conclude redisAsyncFormattedCommand redisAsyncDisconnect subscribed userErrorCallback redisCallback commandState con r i)
    (λ _, at_work i settled) escapes.
Proof using no_subscriptions.
  intros Hm. eapply triple_bind.
  - eapply triple_catch; [exact Hm|]. intros e. apply triple_pure. intros He.
    eapply triple_weaken; [apply on_exception_spec|done|done|]. intros e' s [-> Hc]. by split.
  - intros a. eapply triple_weaken; [apply conclude_spec|done|done|by intros ? ? []].
Qed.

Lemma processCommandReply_spec i h con r : 
  T (at_work i (held h)) (processCommandReply connect err moved_callback redisAsyncFormattedCommand redisAsyncDisconnect
      subscribed userErrorCallback redisCallback con r i) (λ _, at_work i settled) escapes.
Proof using no_subscriptions connects. apply (callback_spec i h _ _ fst snd). apply reply_try_spec. Qed.

Lemma askingCallback_spec i h con r : 
  T (at_work i (held_con h)) (askingCallback redisAsyncFormattedCommand redisAsyncDisconnect
      subscribed userErrorCallback redisCallback con r i) (λ _, at_work i settled) escapes.
Proof using no_subscriptions.
  apply (callback_spec i h _ (asking_try redisAsyncFormattedCommand r i) id (λ _, ASK)). eapply triple_weaken; [apply asking_try_spec|done|done|].
  intros e s [He Hs]. split; [by apply cluster_exception_defined|exact Hs].
Qed.

Lemma count_mono {A} (p q : A → bool) l : (∀ x, p x = true → q x = true) → count p l ≤ count q l.
Proof.
  intros Hpq. induction l as [|x l IH]; simpl; [lia|]. specialize (Hpq x).
  destruct (p x), (q x); simpl; lia.
Qed.
Lemma asks_waits i l : count (asks i) l ≤ count (waits i) l.
Proof. apply count_mono. unfold asks, waits. by intros x [? _]%andb_true_iff. Qed.

Lemma settled_waiting x : settled x → 0 < wait x →
  acc x = 1 ∧ wait x = 1 ∧ calls x = 0 ∧ ∃ h k, obj x = Some (h, k) ∧ (0 < ask x → k = true).
Proof. intros [] Hw; simpl in *; try lia. split_and!; try done. by eexists _, _. Qed.

(** Taking a callback out of the registered ones. *)
Lemma take_pending s a e b : good s → pending s = a ++ e :: b → ∃ h, 
  at_work e.2 (match e.1.2 with ProcessCommandReply => held h | AskingCallback => held_con h end) (set_pending (a ++ b) s).
Proof.
  intros [Hn Hs] Hp. set (i := e.2).
  assert (Hw : waits i e = true) by (unfold waits, i; by rewrite Nat.eqb_refl).
  assert (Hlt : i < fresh s).
  { destruct (decide (i < fresh s)); [done|]. specialize (Hn i ltac:(lia)). unfold status_of in Hn. rewrite Hp in Hn.
    rewrite !count_app in Hn. cbn [count] in Hn. rewrite Hw in Hn. injection Hn. lia. }
  assert (Hoth : ∀ j, j ≠ i → status_of (set_pending (a ++ b) s) j = status_of s j).
  { intros j Hj%Nat.eqb_neq. unfold status_of. rewrite Hp. simpl. rewrite !count_app. cbn [count].
    unfold waits at 4, asks at 4. fold i. rewrite Hj. simpl. done. }
  assert (Haw : ∀ X, X (status_of (set_pending (a ++ b) s) i) → at_work i X (set_pending (a ++ b) s)).
  { intros X HX. split; simpl; [done| | |done]; intros j Hj; rewrite Hoth by (lia || done); auto. }
  assert (Hw1 : wait (status_of s i) = S (count (waits i) (a ++ b))).
  { unfold status_of. rewrite Hp. simpl. rewrite !count_app. cbn [count]. rewrite Hw. lia. }
  destruct (settled_waiting _ (Hs i)) as (Eacc & Ewait & Ecalls & h & k & Eobj & Hk); [lia|].
  pose proof (asks_waits i (a ++ b)) as Ha1. rewrite Ewait in Hw1. injection Hw1 as Hw1. rewrite <- Hw1 in Ha1.
  exists h. apply Haw. unfold status_of in *. cbn [set_pending events pending cmds acc calls obj] in *.
  rewrite Eacc, Ecalls, Eobj, <- Hw1. replace (count (asks i) (a ++ b)) with 0 by lia. destruct e.1.2 eqn:Ecb; [constructor|].
  rewrite Hk; [constructor|]. cbn [ask]. rewrite Hp, count_app. cbn [count]. unfold asks at 2. fold i.
  rewrite Nat.eqb_refl, Ecb. simpl. lia.
Qed.

Abbreviation Deliver := (deliver connect err moved_callback redisAsyncFormattedCommand redisAsyncDisconnect
  subscribed userErrorCallback redisCallback).

Lemma deliver_spec s a e b r : good s → pending s = a ++ e :: b →
  match Deliver e r (set_pending (a ++ b) s) with (Ok _, s') => good s' | (Err x, _) => defined x ∧ is_ClusterException x = false end.
Proof using no_subscriptions connects.
  intros Hg Hp. destruct (take_pending s a e b Hg Hp) as [h Hw]. revert Hw. generalize (set_pending (a ++ b) s).
  set (X := match e.1.2 with ProcessCommandReply => _ | _ => _ end). fold (triple (at_work e.2 X) (Deliver e r) (λ _, good) escapes).
  assert (T (at_work e.2 X) (Deliver e r) (λ _, good) escapes) as Ht; [|exact Ht].
  eapply (triple_bind _ _ _ (λ _, at_work e.2 X)).
  { eapply triple_weaken; [apply (cluster_keeps e.2 X (Cluster.got r) (λ _, True) (λ _, False)); by intros|done|by intros ? ? []|by intros ? ? []]. }
  intros ?. eapply (triple_bind _ _ _ (λ _, at_work e.2 settled)).
  { unfold X. destruct e.1.2; [apply processCommandReply_spec|apply askingCallback_spec]. }
  intros ?. eapply triple_weaken; [|done|intros ?; apply at_work_settled|done].
  destruct r; [|by apply triple_ret].
  eapply triple_weaken; [apply (cluster_keeps e.2 settled Cluster.freeReplyObject (λ _, True) (λ _, False)); by intros|done|by intros ? ? []|by intros ? ? []].
Qed.

(** *** Commands *)
Lemma new_command_spec cb key cmd : 
  T good (new_command cb key cmd) (λ i, at_work i new_obj) never.
Proof.
  intros s [Hn Hs]. unfold new_command. split; simpl.
  - lia.
  - intros j Hj. rewrite <- (Hn j) by lia. unfold status_of. simpl. by rewrite lookup_insert_ne by lia.
  - intros j Hj. specialize (Hs j). unfold status_of in *. simpl. by rewrite lookup_insert_ne.
  - specialize (Hn (fresh s) ltac:(lia)). unfold status_of in *. simpl. rewrite lookup_insert_eq.
    injection Hn as -> -> -> -> _. constructor.
Qed.

(** Accepted by hiredis, before it is noted. *)
Inductive just_sent : status → Prop := just_sent_ h k : just_sent (Status 0 1 0 0 (Some (h, k))).

Lemma new_obj_settled x : new_obj x → settled x.
Proof. intros []. constructor. Qed.

Lemma Command_spec key cb cmd : 
  T good (Command redisAsyncFormattedCommand redisAsyncDisconnect key cb cmd) (λ _, good) (λ _, good).
Proof.
  eapply triple_bind; [eapply triple_weaken; [apply new_command_spec|done|done|by intros ? ? []]|]. intros i.
  assert (Hthat : ∀ {A} (f : command → M state exn A) Q R,
    (∀ c, T (at_work i new_obj) (f c) Q R) → T (at_work i new_obj) (c ← that i; f c) Q R).
  { intros A f Q R Hf s Hs. pose proof (aw_this _ _ _ Hs) as Hx. unfold status_of in Hx.
    destruct (cmds s !! i) as [c|] eqn:E; [|by inversion Hx].
    unfold mbind, M_bind, that. rewrite E. by apply Hf. }
  eapply (triple_bind _ _ _ (λ ok, at_work i (if (ok : bool) then just_sent else new_obj))).
  - apply Hthat. intros c. eapply (triple_bind _ _ _ (λ _, at_work i new_obj)).
    + eapply triple_weaken; [apply (cluster_keeps i new_obj (Cluster.getConnection (key_ c)) (λ _, True) (λ _, True))|done|by intros ? ? []|].
      * intros k. by destruct (fst _).
      * intros e s [_ Hs]. eapply at_work_settled, at_work_weaken; [apply new_obj_settled|exact Hs].
    + intros con. apply Hthat. intros c'. eapply triple_weaken; [apply (async_send_spec i new_obj just_sent)|done|done|by intros ? ? []].
      intros x []. simpl. constructor.
  - intros [].
    + eapply (triple_bind _ _ _ (λ _, at_work i settled)).
      * eapply triple_weaken; [apply (log_spec i just_sent settled)|done|done|by intros ? ? []].
        -- intros j Hj%Nat.eqb_neq. done.
        -- intros x []. simpl. rewrite Nat.eqb_refl. constructor. lia.
      * intros ?. apply triple_ret. intros s. apply at_work_settled.
    + eapply (triple_bind _ _ _ (λ _, at_work i settled)).
      * apply Hthat. intros c. eapply (triple_bind _ _ _ (λ _, at_work i new_obj)).
        -- destruct (con_ c).2; [apply call_keeps|by apply triple_ret].
        -- intros ?. eapply triple_weaken; [apply (delete_spec i new_obj settled)|done|done|by intros ? ? []].
           intros x []. constructor.
      * intros ?. apply triple_throw. intros s. apply at_work_settled.
Qed.

Lemma setUserErrorCb_good i f s s' : good s → setUserErrorCb i f s = (Ok tt, s') → good s'.
Proof.
  intros [Hn Hs]. unfold setUserErrorCb, mbind, M_bind, that, store. destruct (cmds s !! i) as [c|] eqn:E; [|done].
  intros [= <-]. assert (Hi : i < fresh s).
  { destruct (decide (i < fresh s)); [done|]. specialize (Hn i ltac:(lia)). unfold status_of in Hn. by rewrite E in Hn. }
  split; simpl; intros j.
  - intros Hj. rewrite <- (Hn j) by lia. unfold status_of. simpl. by rewrite lookup_insert_ne by lia.
  - specialize (Hs j). unfold status_of in *. simpl. destruct (decide (j = i)) as [->|Hj]; [|by rewrite lookup_insert_ne].
    rewrite lookup_insert_eq. rewrite E in Hs. simpl in *. inversion Hs; by constructor.
Qed.

(** *** The event loop *)
Definition initial (s : state) : Prop := cmds s = ∅ ∧ pending s = [] ∧ events s = [].

Abbreviation Step := (step connect err moved_callback redisAsyncFormattedCommand redisAsyncDisconnect
  subscribed userErrorCallback redisCallback).

Lemma reachable_good s : reachable initial Step s → good s.
Proof using no_subscriptions connects.
  apply invariant_reachable.
  - intros s0 (Hc & Hp & He). assert (∀ j, status_of s0 j = Status 0 0 0 0 None) as Hj.
    { intros j. unfold status_of. by rewrite Hc, Hp, He, lookup_empty. }
    split; [done|]. intros j. rewrite Hj. constructor.
  - intros s1 [] s2 Hg Hst. destruct Hst as [s1 key cb cmd r s2 Hc|s1 i f s2 Hh|s1 a e b r s2 Hp _ Hd].
    + pose proof (Command_spec key cb cmd s1 Hg) as Hx. rewrite Hc in Hx. by destruct r.
    + by eapply setUserErrorCb_good.
    + pose proof (deliver_spec s1 a e b r Hg Hp) as Hx. by rewrite Hd in Hx.
Qed.

(** C27: every accepted command is answered exactly once.  Whatever the application sends, the
    cluster answers and the error handlers decide, and however connections fail (there being no
    subscriptions), at every point of the event loop a command that was accepted either waits in
    hiredis for exactly one more callback, with its object alive, or has been told to the application
    exactly once, with its object deleted; a command that was refused is in neither.  No callback uses
    a deleted object or a null pointer, and nothing but an exception that is no [ClusterException] can
    leave it. *)
Theorem async_answers_once s : reachable initial Step s →
  (∀ i, let a := count (accepted i) (events s) in
        let w := count (waits i) (pending s) in
        let t := count (told i) (events s) in
        a ≤ 1 ∧ w + t = a ∧ (0 < w → is_Some (cmds s !! i)) ∧ (0 < t → cmds s !! i = None)) ∧
  (∀ a e b r, pending s = a ++ e :: b →
     match Deliver e r (set_pending (a ++ b) s) with
     | (Ok _, _) => True
     | (Err x, _) => x ≠ Undefined ∧ is_ClusterException x = false
     end).
Proof using no_subscriptions connects.
  intros Hr%reachable_good. split.
  - intros i. destruct Hr as [_ Hs]. specialize (Hs i). unfold status_of in Hs. simpl.
    inversion Hs; destruct (cmds s !! i); simpl in *; split_and!; try lia; try done.
  - intros a e b r Hp. pose proof (deliver_spec s a e b r Hr Hp) as Hd.
    destruct (Deliver e r (set_pending (a ++ b) s)) as [[]]; done.
Qed.

(** *** Redirections *)
(** The connection a redirection is followed on: the one the object has from an earlier redirection,
    wherever the new one points, or the endpoint's. *)
Definition redirect_to (c : command) (host : str) (port : Z) (k : conn) (c1 c2 : Cluster.state) : Prop :=
  match (con_ c).2 with
  | Some k' => k = k' ∧ c2 = c1
  | None => Cluster.endpoint connect err host port k c1 c2
  end.

Definition with_con (c : command) (host : str) (port : Z) (k : conn) : command :=
  match (con_ c).2 with
  | Some _ => c
  | None => Cmd (userCallback_p_ c) (userErrorCb_ c) (host ++ ":"%char :: dec port, Some k) (key_ c) (cmd_ c)
  end.

Lemma redirect_connection_run i c host port k (s : state) c2 :
  NUL ∉ host → (0 <= port < 2 ^ 31)%Z → cmds s !! i = Some c → redirect_to c host port k (cluster s) c2 →
  redirect_connection connect err i host (dec port) s =
    (Ok k, Async c2 (<[i := with_con c host port k]> (cmds s)) (pending s) (events s) (fresh s)).
Proof.
  intros Hh Hp Hc Hr. destruct s as [cl cm pe ev fr]. simpl in *. unfold redirect_connection, redirect_to, with_con in *.
  erewrite run_Ok by (unfold that; simpl; rewrite Hc; reflexivity).
  destruct (con_ c).2 as [k'|].
  - destruct Hr as [-> ->]. by rewrite insert_id.
  - erewrite run_Ok; [|unfold on_cluster; cbn [cluster cmds pending events fresh]; unfold Cluster.createNewConnection;
      rewrite (Cluster.insert_host_endpoint connect err host port k cl c2 Hh Hp Hr); reflexivity].
    reflexivity.
Qed.

Lemma cmd_with_con c host port k : cmd_ (with_con c host port k) = cmd_ c.
Proof. unfold with_con. by destruct (con_ c).2. Qed.

Lemma send_run con cb i cmd (s : state) w :
  redisAsyncFormattedCommand con cmd (Cluster.world (cluster s)) = (true, w) →
  send redisAsyncFormattedCommand con cb i cmd s =
    (Ok true, Async (Cluster.St (Cluster.cluster_ (cluster s)) w (Cluster.live (cluster s))) (cmds s)
                (pending s ++ [(con, cb, i)]) (events s) (fresh s)).
Proof. intros E. unfold send, mbind, M_bind, call, on_cluster, Cluster.call. by rewrite E. Qed.

Lemma async_send_command_run i con c (s : state) w :
  cmds s !! i = Some c → redisAsyncFormattedCommand con (cmd_ c) (Cluster.world (cluster s)) = (true, w) →
  processHiredisCommand redisAsyncFormattedCommand i con s =
    (Ok true, Async (Cluster.St (Cluster.cluster_ (cluster s)) w (Cluster.live (cluster s))) (cmds s)
                (pending s ++ [(con, ProcessCommandReply, i)]) (events s) (fresh s)).
Proof.
  intros Hc E. unfold processHiredisCommand. erewrite run_Ok by (unfold that; rewrite Hc; reflexivity). by apply send_run.
Qed.

Lemma redirected_run (ask : bool) i c host port k (s : state) c2 w :
  let c1 := Cluster.cluster_ (cluster s) in
  NUL ∉ host → (0 <= port < 2 ^ 31)%Z → cmds s !! i = Some c → Cluster.userMovedFn_ c1 = None →
  redirect_to c host port k
    (Cluster.St (if ask then c1 else Cluster.Mk (Cluster.container c1) None (Cluster.readytouse_ c1) true)
       (Cluster.world (cluster s)) (Cluster.live (cluster s))) c2 →
  redisAsyncFormattedCommand k (if ask then lit "ASKING" else cmd_ c) (Cluster.world c2) = (true, w) →
  redirected connect err moved_callback redisAsyncFormattedCommand i (if ask then ASK else MOVED) host (dec port) s =
  (Ok (if ask then ASK_ else REDIRECT),
   Async (Cluster.St (Cluster.cluster_ c2) w (Cluster.live c2)) (<[i := with_con c host port k]> (cmds s))
     (pending s ++ [(k, if ask then AskingCallback else ProcessCommandReply, i)]) (events s) (fresh s)).
Proof.
  destruct s as [[cl w0 n] cm pe ev fr]. intros c1. subst c1. cbn [cluster Cluster.cluster_ Cluster.world Cluster.live cmds pending events fresh].
  intros Hnul Hp Hc Hfn Hr Hsend. destruct ask; unfold redirected.
  - erewrite run_Ok; [|exact (redirect_connection_run i c host port k (Async (Cluster.St cl w0 n) cm pe ev fr) c2 Hnul Hp Hc Hr)].
    erewrite run_Ok; [|apply send_run; exact Hsend]. reflexivity.
  - erewrite run_Ok; [|unfold on_cluster, Cluster.moved; cbn [cluster Cluster.cluster_]; rewrite Hfn; reflexivity].
    erewrite run_Ok; [|exact (redirect_connection_run i c host port k (Async _ cm pe ev fr) c2 Hnul Hp Hc Hr)].
    erewrite run_Ok; [|eapply async_send_command_run; [apply lookup_insert_eq|]; rewrite cmd_with_con; exact Hsend].
    reflexivity.
Qed.

(** What a callback does with a redirection.  On MOVED the cluster is marked as moved and the
    command is sent again, on ASK the word ASKING is sent first, on the connection of the endpoint the
    redirection names (the one the cluster has or a new one) - but only the first time: an object that
    was redirected before goes on with the connection it has, whatever the second redirection says.
    Nothing is told to the application, and the object waits for the next callback there. *)
Theorem async_redirects (ask : bool) con slot host port i c (s : state) k c2 w :
  let e := redirection (lit (if ask then "ASK" else "MOVED")) slot host (dec port) in
  let c1 := Cluster.cluster_ (cluster s) in
  " "%char ∉ slot → ":"%char ∉ host → NUL ∉ host → (0 <= port < 2 ^ 31)%Z → (size e < 2 ^ 63)%Z →
  find_str (c_str e) (lit "CLUSTERDOWN") 0 = npos →
  cmds s !! i = Some c → Cluster.userMovedFn_ c1 = None →
  redirect_to c host port k
    (Cluster.St (if ask then c1 else Cluster.Mk (Cluster.container c1) None (Cluster.readytouse_ c1) true)
       (Cluster.world (cluster s)) (Cluster.live (cluster s))) c2 →
  redisAsyncFormattedCommand k (if ask then lit "ASKING" else cmd_ c) (Cluster.world c2) = (true, w) →
  processCommandReply connect err moved_callback redisAsyncFormattedCommand redisAsyncDisconnect subscribed
    userErrorCallback redisCallback con (Some (REDIS_REPLY_ERROR e)) i s =
  (Ok tt, Async (Cluster.St (Cluster.cluster_ c2) w (Cluster.live c2)) (<[i := with_con c host port k]> (cmds s))
     (pending s ++ [(k, if ask then AskingCallback else ProcessCommandReply, i)]) (events s) (fresh s)).
Proof.
  intros e c1 Hsl Hh Hnul Hp Hsz Hcd Hc Hfn Hr Hsend.
  pose proof (redirected_run ask i c host port k s c2 w Hnul Hp Hc Hfn Hr Hsend) as Hrun.
  unfold processCommandReply. erewrite run_Ok; [|unfold catch, reply_try].
  2: { erewrite run_Ok; [|unfold at_state, catch, checkCritical, on_cluster;
         rewrite Cluster.checkCritical_ok by (by apply Cluster.redirect_not_critical); reflexivity].
       erewrite run_Ok; [|unfold at_state, catch; unfold e;
         rewrite (Cluster.processResult_redirect ask slot host (dec port) Hsl Hh Hsz); reflexivity].
       unfold at_state, catch. cbn [fst snd]. destruct s as [[cl w0 n] cm pe ev fr]. cbn [cluster cmds pending events fresh].
       rewrite Hrun. reflexivity. }
  by destruct ask.
Qed.
End Async.

(** The library's own connecting function never returns a null pointer. *)
Lemma libeventConnect_connects {conn World} (err : conn → World → bool) c a f evbase host port w :
  match fst (libeventConnect err c a f evbase host port w) with Ok (Some _) => True | Ok None => False | Err e => e ≠ Undefined end.
Proof.
  unfold libeventConnect. destruct evbase; [|done]. destruct (c host port w) as [[k|] w1]; [|done].
  destruct (err k w1); [done|]. by destruct (a k w1) as [[] w2].
Qed.

(** *** A run

    The two nodes of Cluster.v; the world is the log of the commands and the connections that were
    told to disconnect, which take no more commands. *)
Module Run.
Import Cluster.TwoNodes.
#[local] Open Scope Z_scope.

Definition world : Type := list (Z * str) * list Z.
Definition connect (host : str) (port : Z) (w : world) : result exn (option Z) * world := (Ok (Some port), w).
Definition err (c : Z) (w : world) : bool := false.
Definition moved_callback (n : nat) (c : Cluster.t (conn:=Z)) (w : world) : Cluster.t (conn:=Z) * world := (c, w).
Definition command (c : Z) (cmd : str) (w : world) : bool * world :=
  if bool_decide (c ∈ w.2) then (false, w) else (true, (w.1 ++ [(c, cmd)], w.2)).
Definition disconnect (c : Z) (w : world) : world := (w.1, c :: w.2).
Definition subscribed (c : Z) (w : world) : bool := false.
Definition on_error (f i : nat) (e : exn) (st : processState) (w : world) : Action * world := (FINISH, w).
Definition on_reply (f : nat) (r : option redisReply) (w : world) : world := w.

Abbreviation state := (AsyncHiredisCommand.state (conn:=Z) (World:=world)).
Definition start : state :=
  Async (snd (Cluster.new connect err (REDIS_REPLY_ARRAY answer)
    (Cluster.St (Cluster.Mk (Cluster.Container [] ∅) None false false) ([], []) 0))) ∅ [] [] 0.
Definition get (s : state) : state := snd (Command command disconnect (lit "foo") 0 (lit "get") s).
(** The reply to the oldest command. *)
Definition reply (r : option redisReply) (s : state) : result exn unit * state :=
  match pending s with
  | e :: b => deliver connect err moved_callback command disconnect subscribed on_error on_reply e r (set_pending b s)
  | [] => (Ok tt, s)
  end.
Definition replies (l : list redisReply) (s : state) : state := foldl (λ s r, snd (reply (Some r) s)) s l.
Definition moved_to (port : Z) : redisReply :=
  REDIS_REPLY_ERROR (redirection (lit "MOVED") (lit "12182") host (dec port)).
Definition done_ : redisReply := REDIS_REPLY_STATUS (lit "OK").

Lemma connect_connects h p w :
  match fst (connect h p w) with Ok (Some _) => True | Ok None => False | Err e => e ≠ Undefined end.
Proof. done. Qed.

Definition answered : state := replies [moved_to 7001; done_] (get start).

Lemma answered_reachable : reachable initial (step connect err moved_callback command disconnect subscribed on_error on_reply) answered.
Proof.
  eapply (reach_step _ _ (replies [moved_to 7001] (get start)) tt).
  - eapply (reach_step _ _ (get start) tt).
    + eapply (reach_step _ _ start tt); [by apply reach_init|].
      eapply (step_command _ _ _ _ _ _ _ _ start (lit "foo") 0 (lit "get") (Ok 0%nat)). vm_compute. reflexivity.
    + eapply (step_reply _ _ _ _ _ _ _ _ _ [] (7000, ProcessCommandReply, 0%nat) [] (Some (moved_to 7001))); [by vm_compute|constructor|].
      vm_compute. reflexivity.
  - eapply (step_reply _ _ _ _ _ _ _ _ _ [] (7001, ProcessCommandReply, 0%nat) [] (Some done_)); [by vm_compute|constructor|].
    vm_compute. reflexivity.
Qed.

Lemma async_answers_once_witness :
  (count (accepted 0) (events answered) = 1 ∧ count (told 0) (events answered) = 1 ∧ cmds answered !! 0 = None)%nat.
Proof.
  destruct (proj1 (async_answers_once connect err moved_callback command disconnect subscribed on_error on_reply
    (λ _ _, eq_refl) connect_connects answered answered_reachable) 0%nat) as (_ & _ & _ & H).
  assert (0 < count (told 0) (events answered))%nat as Ht by (apply Nat.ltb_lt; vm_compute; reflexivity).
  split; [vm_compute; reflexivity|]. split; [vm_compute; reflexivity|]. exact (H Ht).
Defined.

Lemma async_redirects_witness :
  ∃ s', processCommandReply connect err moved_callback command disconnect subscribed on_error on_reply
          7000 (Some (moved_to 7001)) 0 (set_pending [] (get start)) = (Ok tt, s') ∧
        pending s' = [(7001, ProcessCommandReply, 0%nat)].
Proof.
  eexists. split.
  - apply (async_redirects connect err moved_callback command disconnect subscribed on_error on_reply false 7000
      (lit "12182") host 7001 0 (Cmd 0 None ([], None) (lit "foo") (lit "get")) (set_pending [] (get start)) 7001
      (snd (Cluster.insert_host connect err host (dec 7001)
        (let c := cluster (get start) in
         Cluster.St (Cluster.Mk (Cluster.container (Cluster.cluster_ c)) None true true) (Cluster.world c) (Cluster.live c))))
      ([(7000, lit "get"); (7001, lit "get")], [])).
    all: try exact eq_refl; try (apply (bool_decide_unpack _); exact I); try lia.
    right. split; [exact eq_refl|]. exists ([(7000, lit "get")], []). repeat split; exact eq_refl.
  - exact eq_refl.
Defined.

(** A node that redirects on gets the command again each time: the second redirection, to port 7002,
    is not followed. *)
Example second_redirect_ignored :
  let s := replies [moved_to 7001; moved_to 7002; moved_to 7002] (get start) in
  pending s = [(7001, ProcessCommandReply, 0%nat)] ∧
  Cluster.world (cluster s) = ([(7000, lit "get"); (7001, lit "get"); (7001, lit "get"); (7001, lit "get")], []).
Proof. by vm_compute. Qed.

(** The object disconnects the connection it was redirected to, which the cluster keeps for the next
    redirection to the same place: the next command is not sent there, and the application is given the
    redirection as its answer. *)
Example closed_connection_reused :
  let s := replies [moved_to 7001] (get answered) in
  Cluster.connections_ (Cluster.container (Cluster.cluster_ (cluster answered))) !! (host ++ lit ":7001") = Some 7001 ∧
  Cluster.world (cluster answered) = ([(7000, lit "get"); (7001, lit "get")], [7001]) ∧
  last (events s) = Some (UserCallback 1 (Some (moved_to 7001))).
Proof. by vm_compute. Qed.

(** The reply is freed by the check and again by hiredis. *)
Example cluster_down_freed_twice :
  let s := replies [REDIS_REPLY_ERROR (lit "CLUSTERDOWN The cluster is down")] (get start) in
  Cluster.live (cluster s) = Cluster.live (cluster start) - 1.
Proof. by vm_compute. Qed.

(** When no connection is found the object is neither sent nor deleted. *)
Example command_leaks :
  let s := Async (snd (Cluster.stop (cluster start))) ∅ [] [] 0 in
  let '(r, s') := Command command disconnect (lit "foo") 0 (lit "get") s in
  r = Err NotInitializedException ∧ base.size (cmds s') = 1%nat ∧ pending s' = [].
Proof. by vm_compute. Qed.

(** A redirection without a port makes [std::stoi] throw through the event loop; the object is left. *)
Example malformed_escapes :
  let '(r, s) := reply (Some (REDIS_REPLY_ERROR (lit "MOVED"))) (get start) in
  r = Err std_invalid_argument ∧ base.size (cmds s) = 1%nat ∧ pending s = [].
Proof. by vm_compute. Qed.
End Run.
End AsyncSpec.
