(* ===== verification/TsQueue.v ===== *)
(** * Intrusive queues (libgo/ts_queue.h)

    [TSQueueHook], [SList] and [TSQueue] over an explicit heap of hooks.  A pointer is an
    [option loc] ([None] is [nullptr]); an operation is a function of the heap and of the
    container's fields, and is [None] when it dereferences a null or freed pointer.  The
    reference count is [RefObject::reference_] (util.h): [DecrementRef] frees the node when
    it reaches 0.  Each operation runs under the queue's own lock, so it is one atomic
    step of the concurrent program. *)
From S2P Require Import Prelude.

Abbreviation loc := positive.
Abbreviation ptr := (option positive).

(*@ libgo/libgo/ts_queue.h 10-15 TSQueueHook *)
Record TSQueueHook := Hook {
  prev : ptr;
  next : ptr;
  check_ : ptr;
  reference_ : Z;
}.

Abbreviation heap := (gmap positive TSQueueHook).

Definition deref (h : heap) (p : ptr) : option TSQueueHook := l ← p; h !! l.

Definition store (p : ptr) (f : TSQueueHook → TSQueueHook) (h : heap) : option heap :=
  l ← p; n ← h !! l; Some (<[l := f n]> h).

Definition set_prev (v : ptr) (n : TSQueueHook) := Hook v (next n) (check_ n) (reference_ n).
Definition set_next (v : ptr) (n : TSQueueHook) := Hook (prev n) v (check_ n) (reference_ n).
Definition set_check (v : ptr) (n : TSQueueHook) := Hook (prev n) (next n) v (reference_ n).

(*@ libgo/libgo/util.h 28-31 RefObject::IncrementRef *)
Definition IncrementRef (p : ptr) (h : heap) : option heap :=
  store p (λ n, Hook (prev n) (next n) (check_ n) (reference_ n + 1)) h.

(*@ libgo/libgo/util.h 33-37 RefObject::DecrementRef *)
Definition DecrementRef (p : ptr) (h : heap) : option heap :=
  l ← p; n ← h !! l;
  let r := (reference_ n - 1)%Z in
  if (r =? 0)%Z then Some (delete l h)
  else Some (<[l := Hook (prev n) (next n) (check_ n) r]> h).

(** [hook->prev = hook->next = nullptr; hook->check_ = nullptr; DecrementRef(hook);] *)
(*@ libgo/libgo/ts_queue.h 271-274 TSQueue::erase *)
Definition detach (p : ptr) (h : heap) : option heap :=
  h1 ← store p (set_next None) h;
  h2 ← store p (set_prev None) h1;
  h3 ← store p (set_check None) h2;
  DecrementRef p h3.

Lemma deref_Some h l : deref h (Some l) = h !! l.
Proof. done. Qed.

#[global] Arguments detach : simpl never.
#[global] Arguments deref : simpl never.
#[global] Arguments store : simpl never.
#[global] Arguments IncrementRef : simpl never.
#[global] Arguments DecrementRef : simpl never.

Module SList.

(*@ libgo/libgo/ts_queue.h 44-47 SList *)
Record t := mk { head_ : ptr; tail_ : ptr; count_ : Z; check : ptr }.

(*@ libgo/libgo/ts_queue.h 50-50 SList::SList *)
Definition nil : t := mk None None 0 None.

(*@ libgo/libgo/ts_queue.h 85-85 SList::empty *)
Definition empty (l : t) : bool := bool_decide (head_ l = None).

(*@ libgo/libgo/ts_queue.h 99-102 SList::size *)
Definition size (l : t) : Z := count_ l.

(*@ libgo/libgo/ts_queue.h 110-115 SList::stealed *)
Definition stealed (l : t) : t := nil.

(*@ libgo/libgo/ts_queue.h 86-98 SList::erase *)
Definition erase (h : heap) (l : t) (it : ptr) : option (heap * t * ptr) :=
  n ← deref h it;
  let it' := next n in
  '(h1, hd) ← match prev n with
              | Some _ => h1 ← store (prev n) (set_next (next n)) h; Some (h1, head_ l)
              | None => hn ← deref h (head_ l); Some (h, next hn)
              end;
  n ← deref h1 it;
  '(h2, tl) ← match next n with
              | Some _ => h2 ← store (next n) (set_prev (prev n)) h1; Some (h2, tail_ l)
              | None => tn ← deref h1 (tail_ l); Some (h1, prev tn)
              end;
  h3 ← detach it h2;
  Some (h3, mk hd tl (u64 (count_ l - 1)) (check l), it').

(*@ libgo/libgo/ts_queue.h 103-109 SList::clear *)
Fixpoint clear_loop (fuel : nat) (h : heap) (l : t) (it : ptr) : option (heap * t) :=
  match it with
  | None => Some (h, stealed l)
  | Some _ =>
      match fuel with
      | O => None
      | S fuel => '(h', l', it') ← erase h l it; clear_loop fuel h' l' it'
      end
  end.
(*@ libgo/libgo/ts_queue.h 103-109 SList::clear *)
Definition clear (fuel : nat) (h : heap) (l : t) : option (heap * t) :=
  clear_loop fuel h l (head_ l).

(*@ libgo/libgo/ts_queue.h 58-65 SList::SList *)
Definition move (other : t) : t * t := (other, stealed other).

(*@ libgo/libgo/ts_queue.h 67-76 SList::operator= *)
Definition move_assign (fuel : nat) (h : heap) (l other : t) : option (heap * t * t) :=
  '(h', _) ← clear fuel h l; Some (h', other, stealed other).

End SList.

Module TSQueue.

(*@ libgo/libgo/ts_queue.h 134-137 TSQueue *)
Record t := mk { head_ : ptr; tail_ : ptr; count_ : Z; check : ptr }.

(*@ libgo/libgo/ts_queue.h 140-145 TSQueue::TSQueue *)
Definition new (sentinel this : loc) (h : heap) : heap * t :=
  (<[sentinel := Hook None None None 1]> h, mk (Some sentinel) (Some sentinel) 0 (Some this)).

(*@ libgo/libgo/ts_queue.h 159-163 TSQueue::empty *)
Definition empty (q : t) : bool := bool_decide (head_ q = tail_ q).

(*@ libgo/libgo/ts_queue.h 165-169 TSQueue::size *)
Definition size (q : t) : Z := count_ q.

(*@ libgo/libgo/ts_queue.h 171-182 TSQueue::push *)
Definition push (h : heap) (q : t) (element : ptr) : option (heap * t) :=
  h1 ← store (tail_ q) (set_next element) h;
  h2 ← store element (set_prev (tail_ q)) h1;
  h3 ← store element (set_next None) h2;
  h4 ← store element (set_check (check q)) h3;
  h5 ← IncrementRef element h4;
  Some (h5, mk (head_ q) element (u64 (count_ q + 1)) (check q)).

(*@ libgo/libgo/ts_queue.h 184-198 TSQueue::pop *)
Definition pop (h : heap) (q : t) : option (heap * t * ptr) :=
  if bool_decide (head_ q = tail_ q) then Some (h, q, None)
  else
    hn ← deref h (head_ q);
    let p := next hn in
    let tail' := if bool_decide (p = tail_ q) then head_ q else tail_ q in
    pn ← deref h p;
    h1 ← store (head_ q) (set_next (next pn)) h;
    pn ← deref h1 p;
    h2 ← match next pn with
         | Some _ => store (next pn) (set_prev (head_ q)) h1
         | None => Some h1
         end;
    h3 ← detach p h2;
    Some (h3, mk (head_ q) tail' (u64 (count_ q - 1)) (check q), p).

(*@ libgo/libgo/ts_queue.h 200-211 TSQueue::push *)
Definition push_list (h : heap) (q : t) (l : SList.t) : option (heap * t * SList.t) :=
  if SList.empty l then Some (h, q, l)
  else
    (* assert(elements.check(check_)) *)
    if bool_decide (SList.check l = check q) then
      h1 ← store (tail_ q) (set_next (SList.head_ l)) h;
      h2 ← store (SList.head_ l) (set_prev (tail_ q)) h1;
      h3 ← store (SList.tail_ l) (set_next None) h2;
      Some (h3, mk (head_ q) (SList.tail_ l) (u64 (count_ q + SList.size l)) (check q),
            SList.stealed l)
    else None.

(** [for (; c < n && last->next; ++c) last = last->next;] *)
(*@ libgo/libgo/ts_queue.h 219-223 TSQueue::pop_front *)
Fixpoint forward (h : heap) (last : ptr) (c : nat) (steps : nat) : option (ptr * nat) :=
  match steps with
  | O => Some (last, c)
  | S k => n ← deref h last;
           match next n with
           | Some _ => forward h (next n) (S c) k
           | None => Some (last, c)
           end
  end.

(*@ libgo/libgo/ts_queue.h 214-230 TSQueue::pop_front *)
Definition pop_front (h : heap) (q : t) (n : nat) : option (heap * t * SList.t) :=
  if bool_decide (head_ q = tail_ q) then Some (h, q, SList.nil)
  else
    hn ← deref h (head_ q);
    let first := next hn in
    '(last, c) ← forward h first 1 (n - 1);
    let tail' := if bool_decide (last = tail_ q) then head_ q else tail_ q in
    ln ← deref h last;
    h1 ← store (head_ q) (set_next (next ln)) h;
    ln ← deref h1 last;
    h2 ← match next ln with
         | Some _ => store (next ln) (set_prev (head_ q)) h1
         | None => Some h1
         end;
    h3 ← store last (set_next None) h2;
    h4 ← store first (set_prev None) h3;
    Some (h4, mk (head_ q) tail' (u64 (count_ q - Z.of_nat c)) (check q),
          SList.mk first last (Z.of_nat c) (check q)).

(** [for (; c < n && first->prev && first->prev != head_; ++c) first = first->prev;] *)
(*@ libgo/libgo/ts_queue.h 238-242 TSQueue::pop_back *)
Fixpoint backward (h : heap) (hd first : ptr) (c : nat) (steps : nat) : option (ptr * nat) :=
  match steps with
  | O => Some (first, c)
  | S k => n ← deref h first;
           if bool_decide (prev n = None) || bool_decide (prev n = hd)
           then Some (first, c)
           else backward h hd (prev n) (S c) k
  end.

(*@ libgo/libgo/ts_queue.h 233-247 TSQueue::pop_back *)
Definition pop_back (h : heap) (q : t) (n : nat) : option (heap * t * SList.t) :=
  if bool_decide (head_ q = tail_ q) then Some (h, q, SList.nil)
  else
    let last := tail_ q in
    '(first, c) ← backward h (head_ q) last 1 (n - 1);
    fn ← deref h first;
    let tail' := prev fn in
    h1 ← store tail' (set_next None) h;
    h2 ← store first (set_prev None) h1;
    Some (h2, mk (head_ q) tail' (u64 (count_ q - Z.of_nat c)) (check q),
          SList.mk first last (Z.of_nat c) (check q)).

(*@ libgo/libgo/ts_queue.h 249-262 TSQueue::pop_all *)
Definition pop_all (h : heap) (q : t) : option (heap * t * SList.t) :=
  if bool_decide (head_ q = tail_ q) then Some (h, q, SList.nil)
  else
    hn ← deref h (head_ q);
    let first := next hn in
    let last := tail_ q in
    h1 ← store (head_ q) (set_next None) h;
    h2 ← store last (set_next None) h1;
    h3 ← store first (set_prev None) h2;
    Some (h3, mk (head_ q) (head_ q) 0 (check q), SList.mk first last (count_ q) (check q)).

(*@ libgo/libgo/ts_queue.h 264-276 TSQueue::erase *)
Definition erase (h : heap) (q : t) (hook : ptr) : option (heap * t * bool) :=
  n ← deref h hook;
  if bool_decide (check_ n = check q) then
    h1 ← match prev n with
         | Some _ => store (prev n) (set_next (next n)) h
         | None => Some h
         end;
    n ← deref h1 hook;
    '(h2, tl) ← match next n with
                | Some _ => h2 ← store (next n) (set_prev (prev n)) h1; Some (h2, tail_ q)
                | None => if bool_decide (hook = tail_ q)
                          then tn ← deref h1 (tail_ q); Some (h1, prev tn)
                          else Some (h1, tail_ q)
                end;
    h3 ← detach hook h2;
    Some (h3, mk (head_ q) tl (u64 (count_ q - 1)) (check q), true)
  else Some (h, q, false).

(*@ libgo/libgo/ts_queue.h 147-157 TSQueue::~TSQueue *)
Fixpoint destroy (fuel : nat) (h : heap) (q : t) : option heap :=
  if bool_decide (head_ q = tail_ q)
  then l ← head_ q; Some (delete l h)
  else match fuel with
       | O => None
       | S fuel =>
           tn ← deref h (tail_ q);
           h1 ← DecrementRef (tail_ q) h;
           destroy fuel h1 (mk (head_ q) (prev tn) (count_ q) (check q))
       end.

End TSQueue.

(** ** Views of the heap

    [links] is the pair of pointers of a hook, [info] its tag and its reference count:
    the operations on the list change the former, [check_]/[DecrementRef] the latter. *)
Definition links (h : heap) (x : loc) : option (ptr * ptr) := (λ n, (prev n, next n)) <$> h !! x.
Definition info (h : heap) (x : loc) : option (ptr * Z) := (λ n, (check_ n, reference_ n)) <$> h !! x.

Definition hd_or (xs : list loc) (n : ptr) : ptr := match xs with [] => n | x :: _ => Some x end.
Definition last_or (xs : list loc) (p : ptr) : ptr := match last xs with None => p | Some x => Some x end.

(** A doubly linked segment: [p] before its first hook, [n] after its last one. *)
Fixpoint seg (h : heap) (p : ptr) (xs : list loc) (n : ptr) : Prop :=
  match xs with
  | [] => True
  | x :: xs' => links h x = Some (p, hd_or xs' n) ∧ seg h (Some x) xs' n
  end.

Lemma hd_or_app xs ys n : hd_or (xs ++ ys) n = hd_or xs (hd_or ys n).
Proof. by destruct xs. Qed.
Lemma last_or_app xs ys p : last_or (xs ++ ys) p = last_or ys (last_or xs p).
Proof. unfold last_or. rewrite last_app. by destruct (last ys). Qed.
Lemma last_or_cons x xs p : last_or (x :: xs) p = last_or xs (Some x).
Proof. unfold last_or. rewrite last_cons. by destruct (last xs). Qed.
Lemma last_or_snoc xs x p : last_or (xs ++ [x]) p = Some x.
Proof. by rewrite last_or_app. Qed.

Lemma seg_app h p xs ys n :
  seg h p (xs ++ ys) n ↔ seg h p xs (hd_or ys n) ∧ seg h (last_or xs p) ys n.
Proof.
  revert p. induction xs as [|x xs IH]; intros p; simpl; [tauto|].
  rewrite IH, hd_or_app, last_or_cons. tauto.
Qed.

Lemma seg_In h p xs n x : seg h p xs n → x ∈ xs → is_Some (h !! x).
Proof.
  revert p. induction xs as [|y xs IH]; intros p; simpl; [set_solver|].
  intros [Hl Hs] [->|Hx]%elem_of_cons; [|eauto].
  unfold links in Hl. apply fmap_Some in Hl as (nd & -> & _). eauto.
Qed.

Lemma links_deref h x a b :
  links h x = Some (a, b) → ∃ nd, h !! x = Some nd ∧ prev nd = a ∧ next nd = b.
Proof. unfold links. intros (nd & -> & [= -> ->])%fmap_Some. eauto. Qed.

(** Changing the two outer pointers of a segment. *)
Definition relink (xs : list loc) (p n : ptr) (z : loc) (l : option (ptr * ptr)) :=
  (λ '(a, b), (if decide (head xs = Some z) then p else a,
               if decide (last xs = Some z) then n else b)) <$> l.

Lemma seg_relink h h' p n p' n' xs :
  NoDup xs → seg h p xs n →
  (∀ z, z ∈ xs → links h' z = relink xs p' n' z (links h z)) →
  seg h' p' xs n'.
Proof.
  intros Hnd Hs Hl.
  assert (Hgen : ∀ ys q, ys `suffix_of` xs → seg h q ys n →
            seg h' (if decide (head ys = head xs) then p' else q) ys n').
  { induction ys as [|y ys IH]; intros q [zs Hz] Hq; simpl; [done|].
    destruct Hq as [Hy Hq].
    assert (Hsuf : ys `suffix_of` xs).
    { exists (zs ++ [y]). by rewrite <- app_assoc. }
    assert (Hlast : last xs = Some y ↔ ys = []).
    { subst xs. rewrite last_app, last_cons. destruct (last ys) as [w|] eqn:Hw.
      - split; [|by intros ->]. intros [= ->].
        apply NoDup_app in Hnd as (_ & _ & Hnd). apply NoDup_cons in Hnd as [Hn _].
        exfalso. apply Hn. by eapply last_Some_elem_of.
      - apply last_None in Hw. tauto. }
    assert (Hne : ys ≠ [] → head ys ≠ head xs).
    { intros Hy0 He. destruct ys as [|w ys]; [done|]. simpl in He. subst xs.
      destruct zs as [|z zs]; simpl in He; injection He as ->.
      - apply NoDup_cons in Hnd as [Hn _]. set_solver.
      - apply NoDup_cons in Hnd as [Hn _]. set_solver. }
    split.
    - rewrite Hl by (subst xs; set_solver). rewrite Hy. unfold relink. simpl.
      f_equal. f_equal.
      + destruct (decide (head xs = Some y)), (decide (Some y = head xs)); congruence.
      + destruct (decide (last xs = Some y)) as [E|E].
        * apply Hlast in E as ->. done.
        * destruct ys; [|done]. destruct E. by apply Hlast.
    - destruct ys as [|w ys]; [done|]. specialize (IH (Some y) Hsuf Hq).
      rewrite decide_False in IH by by apply Hne. done. }
  specialize (Hgen xs p). rewrite decide_True in Hgen by done. apply Hgen; [|done].
  by exists [].
Qed.

Lemma seg_ext h h' p n xs :
  seg h p xs n → (∀ z, z ∈ xs → links h' z = links h z) → seg h' p xs n.
Proof.
  revert p. induction xs as [|x xs IH]; intros p; simpl; [done|].
  intros [Hx Hs] Hl. rewrite Hl by set_solver. split; [done|]. apply IH; [done|].
  intros z Hz. apply Hl. set_solver.
Qed.

(** ** The effect of one store on the views *)
Lemma hook_eq h h' z : links h' z = links h z → info h' z = info h z → h' !! z = h !! z.
Proof.
  unfold links, info. destruct (h !! z) as [[]|], (h' !! z) as [[]|]; simpl; congruence.
Qed.

Lemma info_is_Some h x : is_Some (info h x) → is_Some (h !! x).
Proof. unfold info. by rewrite fmap_is_Some. Qed.
Lemma links_is_Some h x : is_Some (links h x) → is_Some (h !! x).
Proof. unfold links. by rewrite fmap_is_Some. Qed.
Lemma is_Some_info h x : is_Some (h !! x) → is_Some (info h x).
Proof. unfold info. by rewrite fmap_is_Some. Qed.

Definition on (x z : loc) {A} (f : A → A) (o : option A) : option A :=
  if decide (z = x) then f <$> o else o.

Lemma on_eq x {A} (f : A → A) o : on x x f o = f <$> o.
Proof. unfold on. by rewrite decide_True. Qed.
Lemma on_ne x z {A} (f : A → A) o : z ≠ x → on x z f o = o.
Proof. intros. unfold on. by rewrite decide_False. Qed.

Section Store.
Context (x : loc) (h : heap) (Hx : is_Some (h !! x)).

Lemma store_gen f :
  ∃ h', store (Some x) f h = Some h' ∧
    (∀ z, links h' z = if decide (z = x) then (λ n, (prev (f n), next (f n))) <$> h !! x else links h z) ∧
    (∀ z, info h' z = if decide (z = x) then (λ n, (check_ (f n), reference_ (f n))) <$> h !! x else info h z).
Proof.
  destruct Hx as [n Hn]. exists (<[x := f n]> h). unfold store, links, info. simpl. rewrite Hn. simpl.
  split; [done|]. split; intros z; destruct (decide (z = x)) as [->|Hz];
    by rewrite ?lookup_insert_eq, ?lookup_insert_ne by done.
Qed.

Lemma store_next v :
  ∃ h', store (Some x) (set_next v) h = Some h' ∧
    (∀ z, links h' z = on x z (λ '(a, _), (a, v)) (links h z)) ∧ (∀ z, info h' z = info h z).
Proof.
  destruct (store_gen (set_next v)) as (h' & E & L & I). exists h'. split; [done|].
  split; intros z; rewrite ?L, ?I; unfold on, links, info; case_decide; subst; [|done| |done];
    destruct (h !! x) as [[]|]; done.
Qed.

Lemma store_prev v :
  ∃ h', store (Some x) (set_prev v) h = Some h' ∧
    (∀ z, links h' z = on x z (λ '(_, b), (v, b)) (links h z)) ∧ (∀ z, info h' z = info h z).
Proof.
  destruct (store_gen (set_prev v)) as (h' & E & L & I). exists h'. split; [done|].
  split; intros z; rewrite ?L, ?I; unfold on, links, info; case_decide; subst; [|done| |done];
    destruct (h !! x) as [[]|]; done.
Qed.

Lemma store_check v :
  ∃ h', store (Some x) (set_check v) h = Some h' ∧
    (∀ z, links h' z = links h z) ∧ (∀ z, info h' z = on x z (λ '(_, r), (v, r)) (info h z)).
Proof.
  destruct (store_gen (set_check v)) as (h' & E & L & I). exists h'. split; [done|].
  split; intros z; rewrite ?L, ?I; unfold on, links, info; case_decide; subst; [|done| |done];
    destruct (h !! x) as [[]|]; done.
Qed.

Lemma IncrementRef_spec :
  ∃ h', IncrementRef (Some x) h = Some h' ∧
    (∀ z, links h' z = links h z) ∧ (∀ z, info h' z = on x z (λ '(c, r), (c, (r + 1)%Z)) (info h z)).
Proof.
  destruct (store_gen (λ n, Hook (prev n) (next n) (check_ n) (reference_ n + 1))) as (h' & E & L & I).
  exists h'. split; [done|].
  split; intros z; rewrite ?L, ?I; unfold on, links, info; case_decide; subst; [|done| |done];
    destruct (h !! x) as [[]|]; done.
Qed.
End Store.

(** [DecrementRef]: the node survives when it had another reference, and is freed
    otherwise; no other node changes. *)
Lemma DecrementRef_spec x h c r :
  info h x = Some (c, r) →
  ∃ h', DecrementRef (Some x) h = Some h' ∧
    (∀ z, z ≠ x → links h' z = links h z ∧ info h' z = info h z) ∧
    (if (r =? 1)%Z then h' !! x = None
     else links h' x = links h x ∧ info h' x = Some (c, (r - 1)%Z)).
Proof.
  unfold info, links. intros (n & Hn & [= -> ->])%fmap_Some. unfold DecrementRef. simpl. rewrite Hn. simpl.
  assert ((reference_ n - 1 =? 0)%Z = (reference_ n =? 1)%Z) as ->.
  { destruct (Z.eqb_spec (reference_ n - 1) 0), (Z.eqb_spec (reference_ n) 1); done || lia. }
  case_match; eexists; (split; [done|]); split.
  - intros z Hz. by rewrite !lookup_delete_ne.
  - apply lookup_delete_eq.
  - intros z Hz. by rewrite !lookup_insert_ne.
  - by rewrite !lookup_insert_eq.
Qed.

(** ** Representation of a queue and of a detached list *)
Record rep (h : heap) (q : TSQueue.t) (hd : loc) (xs : list loc) : Prop := Rep {
  rep_head : TSQueue.head_ q = Some hd;
  rep_tail : TSQueue.tail_ q = last (hd :: xs);
  rep_seg : seg h None (hd :: xs) None;
  rep_nodup : NoDup (hd :: xs);
  rep_count : TSQueue.count_ q = u64 (Z.of_nat (length xs));
  rep_check : is_Some (TSQueue.check q);
  rep_sentinel : info h hd = Some (None, 1%Z);
  rep_own : ∀ x, x ∈ xs → ∃ r, info h x = Some (TSQueue.check q, r) ∧ (1 ≤ r)%Z;
}.

Record lrep (h : heap) (l : SList.t) (xs : list loc) : Prop := LRep {
  lrep_head : SList.head_ l = head xs;
  lrep_tail : SList.tail_ l = last xs;
  lrep_seg : seg h None xs None;
  lrep_nodup : NoDup xs;
  lrep_count : SList.count_ l = Z.of_nat (length xs);
  lrep_own : ∀ x, x ∈ xs → ∃ r, info h x = Some (SList.check l, r) ∧ (1 ≤ r)%Z;
}.

(** Nothing outside [D] changed. *)
Definition frame (D : list loc) (h h' : heap) : Prop := ∀ z, z ∉ D → h' !! z = h !! z.

Lemma u64_add x y : u64 (u64 x + y) = u64 (x + y).
Proof. unfold u64. by rewrite Z.add_mod_idemp_l by lia. Qed.
Lemma u64_sub x y : u64 (u64 x - y) = u64 (x - y).
Proof. unfold u64. by rewrite Zminus_mod_idemp_l. Qed.

Lemma rep_empty h q hd : rep h q hd [] → TSQueue.tail_ q = TSQueue.head_ q.
Proof. intros []. simpl in *. congruence. Qed.

Lemma rep_nonempty h q hd xs : rep h q hd xs → xs ≠ [] → TSQueue.tail_ q = last xs ∧ TSQueue.head_ q ≠ TSQueue.tail_ q.
Proof.
  intros [Hh Ht _ Hnd _ _ _ _] Hne. rewrite last_cons in Ht.
  destruct (last xs) as [t|] eqn:El.
  - split; [done|]. rewrite Hh, Ht. intros [= ->].
    apply NoDup_cons in Hnd as [Hn _]. apply Hn. by eapply last_Some_elem_of.
  - by apply last_None in El.
Qed.

(** ** Local changes of a segment *)
Lemma seg_set_next h h' p a x n v :
  seg h p (a ++ [x]) n →
  (∀ z, z ∈ a → links h' z = links h z) →
  links h' x = (λ '(b, _), (b, v)) <$> links h x →
  seg h' p (a ++ [x]) v.
Proof.
  rewrite !seg_app. intros [Ha [Hx _]] He Hx'. simpl in *. split; [by eapply seg_ext|].
  rewrite Hx', Hx. done.
Qed.

Lemma seg_set_prev h h' p x b n v :
  seg h p (x :: b) n →
  (∀ z, z ∈ b → links h' z = links h z) →
  links h' x = (λ '(_, c), (v, c)) <$> links h x →
  seg h' v (x :: b) n.
Proof.
  simpl. intros [Hx Hb] He Hx'. split; [by rewrite Hx', Hx|by eapply seg_ext].
Qed.

(** Cutting [m] out of [a ++ [p] ++ m ++ b]: only [p] and the head of [b] change. *)
Lemma seg_unlink h h' a p m b :
  seg h None ((a ++ [p]) ++ m ++ b) None →
  (∀ z, z ∈ a → links h' z = links h z) →
  links h' p = (λ '(x, _), (x, hd_or b None)) <$> links h p →
  match b with
  | [] => True
  | y :: b' => links h' y = (λ '(_, c), (Some p, c)) <$> links h y ∧
               ∀ z, z ∈ b' → links h' z = links h z
  end →
  seg h' None ((a ++ [p]) ++ b) None.
Proof.
  rewrite (seg_app _ _ _ (m ++ b)), (seg_app _ _ m b). intros (Ha & _ & Hb) H1 H2 H3.
  apply seg_app. split; [by eapply seg_set_next|]. rewrite last_or_snoc.
  destruct b as [|y b']; [done|]. destruct H3 as [H3 H4]. by eapply seg_set_prev.
Qed.

(** Joining two lists: only the last of the first and the head of the second change. *)
Lemma seg_join h h' a p x b n :
  seg h None (a ++ [p]) n → seg h None (x :: b) None →
  (∀ z, z ∈ a → links h' z = links h z) →
  links h' p = (λ '(c, _), (c, Some x)) <$> links h p →
  links h' x = (λ '(_, c), (Some p, c)) <$> links h x →
  (∀ z, z ∈ b → links h' z = links h z) →
  seg h' None ((a ++ [p]) ++ x :: b) None.
Proof.
  intros Ha Hb H1 H2 H3 H4. apply seg_app. split; [by eapply seg_set_next|].
  rewrite last_or_snoc. by eapply seg_set_prev.
Qed.

Lemma snoc_of_last (xs : list loc) t : last xs = Some t → ∃ a, xs = a ++ [t].
Proof.
  intros H. destruct xs as [|x xs] using rev_ind; [done|]. rewrite last_snoc in H.
  injection H as ->. eauto.
Qed.

(** Membership goals, without the hypotheses on the heap. *)
Ltac clear_heap :=
  repeat match goal with
  | H : context [links _ _] |- _ => clear H
  | H : context [info _ _] |- _ => clear H
  | H : context [store _ _ _] |- _ => clear H
  | H : context [IncrementRef _ _] |- _ => clear H
  | H : context [DecrementRef _ _] |- _ => clear H
  | H : context [seg _ _ _ _] |- _ => clear H
  | H : context [TSQueue.count_ _] |- _ => clear H
  | H : context [TSQueue.check _] |- _ => clear H
  end.
Ltac mem_solver := solve [clear_heap; set_solver].

(** Discharge a side condition [links h' z = ...] from the effects of the stores. *)
Ltac nodup_facts :=
  repeat match goal with
  | H : NoDup (_ :: _) |- _ => apply NoDup_cons in H as [? H]
  | H : NoDup (_ ++ _) |- _ => apply NoDup_app in H as (H & ? & ?)
  end.
Ltac solve_views :=
  repeat match goal with
  | L : ∀ z, links ?h z = _ |- context [links ?h _] => rewrite L
  | L : ∀ z, info ?h z = _ |- context [info ?h _] => rewrite L
  end;
  rewrite ?on_eq; rewrite ?on_ne by mem_solver.

Lemma detach_spec x h c r :
  info h x = Some (c, r) →
  ∃ h', detach (Some x) h = Some h' ∧
    (∀ z, z ≠ x → links h' z = links h z ∧ info h' z = info h z) ∧
    h' !! x = (if (r =? 1)%Z then None else Some (Hook None None None (r - 1))).
Proof.
  intros Hi. unfold detach.
  destruct (store_next x h ltac:(apply info_is_Some; by rewrite Hi) None) as (h1 & E1 & L1 & I1).
  destruct (store_prev x h1 ltac:(apply info_is_Some; by rewrite I1, Hi) None) as (h2 & E2 & L2 & I2).
  destruct (store_check x h2 ltac:(apply info_is_Some; by rewrite I2, I1, Hi) None) as (h3 & E3 & L3 & I3).
  assert (Hi3 : info h3 x = Some (None, r)) by (rewrite I3, on_eq, I2, I1, Hi; done).
  destruct (DecrementRef_spec x h3 None r Hi3) as (h4 & E4 & F4 & X4).
  exists h4. rewrite E1. simpl. rewrite E2. simpl. rewrite E3. simpl. split; [done|]. split.
  - intros z Hz. destruct (F4 z Hz) as [-> ->]. by solve_views.
  - assert (Hl : links h3 x = Some (None, None)).
    { solve_views. destruct (links h x) as [[]|] eqn:El; [done|].
      unfold links, info in *. by destruct (h !! x). }
    case_match; [done|]. destruct X4 as [X4l X4i]. rewrite Hl in X4l.
    unfold links, info in X4l, X4i. destruct (h4 !! x) as [[]|]; simpl in *; congruence.
Qed.

(** Cutting [m] out of a represented queue. *)
Lemma rep_cut h h' q q' hd xs xs' a p m b :
  rep h q hd xs →
  hd :: xs = (a ++ [p]) ++ m ++ b → hd :: xs' = (a ++ [p]) ++ b →
  TSQueue.head_ q' = TSQueue.head_ q → TSQueue.tail_ q' = last (hd :: xs') →
  TSQueue.count_ q' = u64 (TSQueue.count_ q - Z.of_nat (length m)) →
  TSQueue.check q' = TSQueue.check q →
  (∀ z, z ∉ m → info h' z = info h z) →
  (∀ z, z ∈ a → links h' z = links h z) →
  links h' p = (λ '(x, _), (x, hd_or b None)) <$> links h p →
  match b with
  | [] => True
  | y :: b' => links h' y = (λ '(_, c), (Some p, c)) <$> links h y ∧
               ∀ z, z ∈ b' → links h' z = links h z
  end →
  rep h' q' hd xs'.
Proof.
  intros [Hh Ht Hs Hnd Hc Hk Hsn Ho] Hxs Hxs' Eh Et Ec Ek Hi La Lp Lb.
  assert (Hlen : length xs = length xs' + length m).
  { apply (f_equal length) in Hxs, Hxs'. rewrite !length_app in *. simpl in *. lia. }
  rewrite Hxs in Hs, Hnd. rewrite Hxs' in Et.
  assert (Hsub : ∀ z, z ∈ hd :: xs' → z ∉ m ∧ z ∈ hd :: xs).
  { intros z. rewrite Hxs, Hxs'. nodup_facts. clear_heap. set_solver. }
  assert (Hnd' : NoDup (hd :: xs')).
  { rewrite Hxs'. eapply sublist_NoDup; [done|]. apply sublist_app; [done|].
    by apply sublist_inserts_l. }
  split.
  - congruence.
  - by rewrite Et, Hxs'.
  - rewrite Hxs'. by eapply seg_unlink.
  - done.
  - rewrite Ec, Hc, u64_sub. f_equal. lia.
  - by rewrite Ek.
  - rewrite Hi; [done|]. apply Hsub. set_solver.
  - intros z Hz. destruct (Hsub z) as [H1 H2]; [set_solver|]. rewrite Hi, Ek by done.
    apply Ho. apply elem_of_cons in H2 as [->|H2]; [|done].
    apply NoDup_cons in Hnd' as [Hn _]. done.
Qed.

Module QueueSpec.
Import TSQueue.

Lemma push_spec h q hd xs e c r :
  rep h q hd xs → e ∉ hd :: xs → info h e = Some (c, r) → (0 ≤ r)%Z →
  ∃ h' q', push h q (Some e) = Some (h', q') ∧ rep h' q' hd (xs ++ [e]) ∧
    check q' = check q ∧
    info h' e = Some (check q, (r + 1)%Z) ∧ (∀ z, z ∈ xs → info h' z = info h z) ∧
    frame (e :: hd :: xs) h h'.
Proof.
  intros [Hh Ht Hs Hnd Hc Hk Hsn Ho] He Hi Hr.
  destruct (last (hd :: xs)) as [t|] eqn:El; [|by apply last_None in El].
  assert (He' : ∀ z, z = hd ∨ z ∈ xs → z ≠ e) by mem_solver.
  apply snoc_of_last in El as [a Ea]. rewrite Ea in *.
  assert (Hte : t ≠ e) by mem_solver.
  destruct (store_next t h ltac:(eapply seg_In; [done|mem_solver]) (Some e)) as (h1 & E1 & L1 & I1).
  assert (Hie : is_Some (info h e)) by by rewrite Hi.
  destruct (store_prev e h1 ltac:(apply info_is_Some; by rewrite I1) (Some t)) as (h2 & E2 & L2 & I2).
  destruct (store_next e h2 ltac:(apply info_is_Some; by rewrite I2, I1) None) as (h3 & E3 & L3 & I3).
  destruct (store_check e h3 ltac:(apply info_is_Some; by rewrite I3, I2, I1) (check q)) as (h4 & E4 & L4 & I4).
  destruct (IncrementRef_spec e h4 ltac:(apply info_is_Some; rewrite I4, on_eq, I3, I2, I1; by rewrite Hi)) as (h5 & E5 & L5 & I5).
  exists h5, (mk (head_ q) (Some e) (u64 (count_ q + 1)) (check q)).
  unfold push. rewrite Ht. simpl. rewrite E1. simpl. rewrite E2. simpl. rewrite E3. simpl.
  rewrite E4. simpl. rewrite E5. simpl. split; [done|].
  assert (Hie5 : info h5 e = Some (check q, (r + 1)%Z)) by (solve_views; by rewrite Hi).
  assert (Hio : ∀ z, z ≠ e → info h5 z = info h z) by (intros z Hz; by solve_views).
  split_and!; [|done|done| |].
  - split; simpl.
    + done.
    + change (hd :: xs ++ [e]) with ((hd :: xs) ++ [e]). by rewrite last_snoc.
    + change (seg h5 None ((hd :: xs) ++ [e]) None). rewrite Ea. nodup_facts.
      apply seg_app. split.
      * eapply seg_set_next; [done| |].
        -- intros z Hz. by solve_views.
        -- by solve_views.
      * rewrite last_or_snoc. simpl. split; [|done].
        solve_views. destruct (links h e) as [[]|] eqn:Ele; [done|].
        exfalso. unfold links, info in *. destruct (h !! e); done.
    + change (NoDup ((hd :: xs) ++ [e])). rewrite Ea. apply NoDup_app.
      split; [done|]. split; [mem_solver|]. apply NoDup_singleton.
    + rewrite Hc, u64_add, length_app. simpl. f_equal. lia.
    + done.
    + rewrite Hio by auto. done.
    + intros x [Hx| ->%list_elem_of_singleton]%elem_of_app.
      * rewrite Hio by auto. by apply Ho.
      * exists (r + 1)%Z. split; [done|lia].
  - intros z Hz. apply Hio. auto.
  - intros z Hz. apply hook_eq; [|apply Hio; mem_solver].
    assert (z ≠ t) by mem_solver.
    by solve_views.
Qed.

(** [if (p->next) p->next->prev = v;] where [p]'s successors are [b]. *)
Lemma relink_succ h b v :
  (∀ y, head b = Some y → is_Some (links h y)) →
  ∃ h', (match hd_or b None with Some _ => store (hd_or b None) (set_prev v) h | None => Some h end)
        = Some h' ∧ (∀ z, info h' z = info h z) ∧
        (∀ z, links h' z = match b with
                           | [] => links h z
                           | y :: _ => on y z (λ '(_, c), (v, c)) (links h z)
                           end).
Proof.
  intros Hb. destruct b as [|y b]; simpl; [by exists h|].
  destruct (store_prev y h) with (v := v) as (h' & E & L & I); [|eauto].
  apply links_is_Some. by apply Hb.
Qed.

Lemma erase_miss h q x c r : info h x = Some (c, r) → c ≠ check q → erase h q (Some x) = Some (h, q, false).
Proof.
  unfold info. intros (n & Hn & [= -> ->])%fmap_Some Hc. unfold erase.
  rewrite deref_Some, Hn. simpl. by rewrite bool_decide_false.
Qed.

Lemma erase_spec h q hd a x b k :
  rep h q hd (a ++ x :: b) → info h x = Some (check q, k) →
  ∃ h' q', erase h q (Some x) = Some (h', q', true) ∧ rep h' q' hd (a ++ b) ∧ check q' = check q ∧
    h' !! x = (if (k =? 1)%Z then None else Some (Hook None None None (k - 1))) ∧
    (∀ z, z ≠ x → info h' z = info h z) ∧ frame (hd :: a ++ x :: b) h h'.
Proof.
  intros Hrep Hix. pose proof Hrep as [Hh Ht Hs Hnd Hc Hk Hsn Ho].
  destruct (rep_nonempty _ _ _ _ Hrep) as [Ht' _]; [by destruct a|].
  rewrite last_app, last_cons in Ht'.
  destruct (last (hd :: a)) as [p|] eqn:El; [|by apply last_None in El].
  apply snoc_of_last in El as [a' Ea].
  change (hd :: a ++ x :: b) with ((hd :: a) ++ x :: b) in *. rewrite Ea in *.
  assert (Hnx : x ∉ a' ∧ p ≠ x ∧ x ∉ b ∧ p ∉ b ∧ p ∉ a' ∧ (∀ z, z ∈ a' → z ∉ b)) by (nodup_facts; split_and!; mem_solver).
  destruct Hnx as (Hxa & Hpx & Hxb & Hpb & Hpa & Hab).
  pose proof Hs as [Ha [Lx Hb]]%seg_app. rewrite last_or_snoc in Lx.
  apply seg_app in Ha as [_ [Lp _]]. simpl in Lp.
  destruct (links_deref _ _ _ _ Lx) as (xn & Dx & Pxn & Nxn).
  destruct (store_next p h) with (v := next xn) as (h1 & E1 & L1 & I1).
  { apply links_is_Some. by rewrite Lp. }
  assert (Dx1 : h1 !! x = Some xn).
  { rewrite <- Dx. apply hook_eq; [|done]. by rewrite L1, on_ne by congruence. }
  destruct (relink_succ h1 b (Some p)) as (h2 & E2 & I2 & L2).
  { intros y Hy. rewrite L1. destruct b as [|y' b]; [done|]. injection Hy as ->.
    rewrite on_ne by mem_solver. destruct Hb as [-> _]. done. }
  destruct (detach_spec x h2 (check q) k) as (h3 & E3 & F3 & X3); [by rewrite I2, I1|].
  assert (Hck : check_ xn = check q).
  { unfold info in Hix. rewrite Dx in Hix. by injection Hix as ->. }
  set (tl := match hd_or b None with Some _ => tail_ q | None => Some p end).
  exists h3, (mk (head_ q) tl (u64 (count_ q - 1)) (check q)).
  assert (HE : erase h q (Some x) = Some (h3, mk (head_ q) tl (u64 (count_ q - 1)) (check q), true)).
  { unfold erase. rewrite deref_Some, Dx. simpl. rewrite Hck, bool_decide_true by done.
    rewrite Pxn, E1. simpl. rewrite deref_Some, Dx1. simpl. rewrite Pxn, Nxn. unfold tl.
    destruct b as [|y b]; simpl.
    - simpl in Ht'. rewrite Ht'. rewrite bool_decide_true by done. simpl in E2. injection E2 as ->.
      rewrite deref_Some, Dx1. simpl. rewrite E3. simpl. by rewrite Pxn.
    - simpl in E2. rewrite E2. simpl. rewrite E3. done. }
  split; [exact HE|].
  assert (Hi3 : ∀ z, z ≠ x → info h3 z = info h z).
  { intros z Hz. destruct (F3 z Hz) as [_ ->]. by rewrite I2, I1. }
  assert (Hl3 : ∀ z, z ≠ x → z ≠ p → head b ≠ Some z → links h3 z = links h z).
  { intros z Hz Hzp Hzb. destruct (F3 z Hz) as [-> _]. rewrite L2. destruct b as [|y b].
    - by rewrite L1, on_ne.
    - rewrite on_ne by (simpl in Hzb; congruence). by rewrite L1, on_ne. }
  split_and!; [|done|done|done|].
  - eapply (rep_cut h h3 q _ hd _ (a ++ b) a' p [x] b Hrep); simpl.
    + change (hd :: a ++ x :: b) with ((hd :: a) ++ x :: b). by rewrite Ea.
    + change (hd :: a ++ b) with ((hd :: a) ++ b). by rewrite Ea.
    + done.
    + change (tl = last ((hd :: a) ++ b)). unfold tl. rewrite Ea, last_app. destruct b as [|y b]; simpl.
      * by rewrite last_snoc.
      * rewrite Ht'. simpl. destruct (last b) eqn:Eb; by rewrite last_cons, Eb.
    + done.
    + done.
    + intros z Hz. apply Hi3. mem_solver.
    + intros z Hz. apply Hl3; [congruence|congruence|].
      destruct b as [|y b]; simpl; [done|]. intros [= ->]. eapply Hab; [done|]. left.
    + destruct (F3 p Hpx) as [-> _]. rewrite L2. destruct b as [|y b].
      * by rewrite L1, on_eq, Nxn.
      * rewrite on_ne by mem_solver. by rewrite L1, on_eq, Nxn.
    + destruct b as [|y b]; [done|]. nodup_facts. split.
      * assert (Hy : y ≠ x) by mem_solver. destruct (F3 y Hy) as [-> _].
        rewrite L2, on_eq, L1, on_ne by mem_solver. done.
      * intros z Hz. apply Hl3; [mem_solver|mem_solver|]. simpl. intros [= ->]. done.
  - intros z Hz. apply hook_eq; [|apply Hi3; mem_solver].
    apply Hl3; [mem_solver|mem_solver|]. destruct b as [|y b]; simpl; [done|].
    intros [= ->]. apply Hz. mem_solver.
Qed.

Lemma pop_nil h q hd : rep h q hd [] → pop h q = Some (h, q, None).
Proof. intros H. unfold pop. by rewrite (rep_empty _ _ _ H), bool_decide_true. Qed.

Lemma pop_spec h q hd x r k :
  rep h q hd (x :: r) → info h x = Some (check q, k) →
  ∃ h' q', pop h q = Some (h', q', Some x) ∧ rep h' q' hd r ∧ check q' = check q ∧
    h' !! x = (if (k =? 1)%Z then None else Some (Hook None None None (k - 1))) ∧
    (∀ z, z ≠ x → info h' z = info h z) ∧ frame (hd :: x :: r) h h'.
Proof.
  intros Hrep Hix. pose proof Hrep as [Hh Ht Hs Hnd Hc Hk Hsn Ho].
  destruct (rep_nonempty _ _ _ _ Hrep) as [Ht' Hne]; [done|].
  destruct Hs as [Lhd [Lx Hr]].
  destruct (links_deref _ _ _ _ Lhd) as (hn & Dhd & _ & Nhd). simpl in Nhd.
  destruct (links_deref _ _ _ _ Lx) as (xn & Dx & Pxn & Nxn).
  assert (Hhx : hd ≠ x ∧ hd ∉ r ∧ x ∉ r) by (nodup_facts; mem_solver). destruct Hhx as (Hhx & Hhr & Hxr).
  destruct (store_next hd h ltac:(eauto) (next xn)) as (h1 & E1 & L1 & I1).
  assert (Dx1 : h1 !! x = Some xn).
  { rewrite <- Dx. apply hook_eq; by solve_views. }
  assert (H2 : ∃ h2, match next xn with Some _ => store (next xn) (set_prev (Some hd)) h1 | None => Some h1 end
                     = Some h2 ∧ (∀ z, info h2 z = info h z) ∧
               (∀ z, links h2 z = match r with [] => links h1 z
                                  | y :: _ => on y z (λ '(_, b), (Some hd, b)) (links h1 z) end)).
  { rewrite Nxn. destruct r as [|y r]; simpl.
    - exists h1. done.
    - destruct Hr as [Ly _].
      destruct (store_prev y h1) with (v := Some hd) as (h2 & E2 & L2 & I2).
      { apply links_is_Some. rewrite L1, on_ne by set_solver. by rewrite Ly. }
      exists h2. split; [done|]. split; [|done]. intros z. by rewrite I2, I1. }
  destruct H2 as (h2 & E2 & I2 & L2).
  destruct (detach_spec x h2 (check q) k) as (h3 & E3 & F3 & X3); [by rewrite I2|].
  unfold pop. rewrite bool_decide_false, Hh by done. simpl.
  rewrite deref_Some, Dhd. simpl. rewrite Nhd, deref_Some, Dx. simpl. rewrite E1. simpl.
  rewrite deref_Some, Dx1. simpl. rewrite E2. simpl. rewrite E3. simpl.
  eexists h3, _. split; [reflexivity|].
  assert (Hi3 : ∀ z, z ≠ x → info h3 z = info h z).
  { intros z Hz. destruct (F3 z Hz) as [_ ->]. apply I2. }
  assert (Hl3 : ∀ z, z ≠ x → links h3 z = links h2 z) by (intros z Hz; by destruct (F3 z Hz)).
  split_and!; [|done|done|done|].
  - eapply (rep_cut h h3 q _ hd (x :: r) r [] hd [x] r); try done.
    + simpl. rewrite Ht'. destruct r as [|y r]; [simpl; by rewrite bool_decide_true|].
      rewrite bool_decide_false; [by rewrite last_cons_cons|].
      rewrite last_cons_cons. intros Heq. apply Hxr.
      apply last_Some_elem_of. done.
    + intros z Hz. apply Hi3. mem_solver.
    + intros z Hz. mem_solver.
    + rewrite Hl3, L2 by done. destruct r as [|y r].
      * by rewrite L1, on_eq, Nxn.
      * rewrite on_ne by mem_solver. by rewrite L1, on_eq, Nxn.
    + destruct r as [|y r]; [done|]. nodup_facts. split.
      * rewrite Hl3, L2, on_eq by mem_solver. by rewrite L1, on_ne by mem_solver.
      * intros z Hz. rewrite Hl3, L2, on_ne by mem_solver. by rewrite L1, on_ne by mem_solver.
  - intros z Hz. apply hook_eq; [|apply Hi3; mem_solver].
    rewrite Hl3, L2 by mem_solver. destruct r as [|y r].
    + by rewrite L1, on_ne by mem_solver.
    + rewrite on_ne by mem_solver. by rewrite L1, on_ne by mem_solver.
Qed.

(** ** Cutting a list out of a queue *)
Lemma forward_spec h p x m c k :
  seg h p (x :: m) None →
  forward h (Some x) c k = Some (last (take (S k) (x :: m)), c + min k (length m)).
Proof.
  revert p x m c. induction k as [|k IH]; intros p x m c Hs; simpl.
  - do 2 f_equal. lia.
  - destruct Hs as [Hx Hs]. destruct (links_deref _ _ _ _ Hx) as (xn & Dx & _ & Nx).
    rewrite deref_Some, Dx. simpl. rewrite Nx. destruct m as [|y m]; simpl.
    + do 2 f_equal. lia.
    + rewrite (IH (Some x) y m (S c)) by done. simpl. do 2 f_equal. simpl. lia.
Qed.

Lemma backward_spec h hd xs b x c k :
  seg h (Some hd) (xs ++ x :: b) None → hd ∉ xs →
  backward h (Some hd) (Some x) c k =
    Some (head (drop (length xs - k) (xs ++ [x])), c + min k (length xs)).
Proof.
  revert xs b x c. induction k as [|k IH]; intros xs b x c Hs Hhd; cbn [backward].
  - rewrite drop_app_length' by lia. simpl. do 2 f_equal. lia.
  - pose proof Hs as [Ha [Hx Hb]]%seg_app. destruct (links_deref _ _ _ _ Hx) as (xn & Dx & Px & _).
    rewrite deref_Some, Dx. cbn [mbind option_bind]. rewrite Px. destruct xs as [|y xs] using rev_ind.
    + change (last_or [] (Some hd)) with (Some hd). rewrite (bool_decide_true (Some hd = Some hd)), orb_true_r by done.
      simpl. by rewrite Nat.add_0_r.
    + rewrite last_or_snoc. rewrite !bool_decide_false; [|mem_solver|done]. cbn [orb].
      rewrite <- app_assoc in Hs. rewrite (IH xs (x :: b) y (S c)) by (done || mem_solver).
      rewrite length_app. change (length [y]) with 1. f_equal. f_equal; [|lia].
      replace (length xs + 1 - S k) with (length xs - k) by lia.
      rewrite (drop_app_le (xs ++ [y])) by (rewrite length_app; simpl; lia).
      destruct (drop (length xs - k) (xs ++ [y])) eqn:Ed; [|done].
      apply (f_equal length) in Ed. rewrite length_drop, length_app in Ed. simpl in Ed. lia.
Qed.

(** The views after the cut of [m], between [p] and [b]. *)
Definition cut_links (p : loc) (m b : list loc) (z : loc) (l : option (ptr * ptr)) : option (ptr * ptr) :=
  if decide (z ∈ m) then relink m None None z l
  else if decide (z = p) then (λ '(x, _), (x, hd_or b None)) <$> l
  else if decide (head b = Some z) then (λ '(_, c), (Some p, c)) <$> l
  else l.

Lemma cut_spec h h' q q' hd a p m b xs xs' :
  rep h q hd xs →
  hd :: xs = (a ++ [p]) ++ m ++ b → hd :: xs' = (a ++ [p]) ++ b →
  head_ q' = head_ q → tail_ q' = last (hd :: xs') →
  count_ q' = u64 (count_ q - Z.of_nat (length m)) → check q' = check q →
  (∀ z, info h' z = info h z) →
  (∀ z, links h' z = cut_links p m b z (links h z)) →
  rep h' q' hd xs' ∧
  lrep h' (SList.mk (head m) (last m) (Z.of_nat (length m)) (check q)) m ∧
  frame (hd :: xs) h h'.
Proof.
  intros Hrep Hxs Hxs' Eh Et Ec Ek Hi Hl. pose proof Hrep as [Hh Ht Hs Hnd Hc Hk Hsn Ho].
  rewrite Hxs in Hs, Hnd.
  assert (Hd : (∀ z, z ∈ a → z ∉ m ∧ z ≠ p ∧ z ∉ b) ∧ (∀ z, z ∈ m → z ∉ b) ∧ p ∉ m ∧ p ∉ b)
    by (nodup_facts; split_and!; mem_solver).
  destruct Hd as (Hda & Hdm & Hpm & Hpb).
  assert (Hb : ∀ z, head b = Some z → z ∈ b) by (intros z; destruct b; simpl; [done|intros [= ->]; left]).
  split_and!.
  - eapply (rep_cut h h' q q' hd xs xs' a p m b); try done.
    + intros z Hz. rewrite Hl. unfold cut_links. destruct (Hda z Hz) as (? & ? & ?).
      rewrite !decide_False; auto.
    + rewrite Hl. unfold cut_links. rewrite decide_False, decide_True by done. done.
    + destruct b as [|y b]; [done|]. assert (y ∉ m) by (intros Hy; apply (Hdm y Hy); left).
      split.
      * rewrite Hl. unfold cut_links. rewrite decide_False, decide_False, decide_True by (done || mem_solver). done.
      * intros z Hz. rewrite Hl. unfold cut_links. assert (z ∉ m) by (intros Hy; apply (Hdm z Hy); by right).
        rewrite !decide_False; [done|simpl; intros [= ->]|mem_solver|done]. nodup_facts. done.
  - split; simpl; try done.
    + pose proof Hs as [_ Hs']%seg_app. apply seg_app in Hs' as [Hm _].
      eapply seg_relink; [|exact Hm|].
      * nodup_facts. done.
      * intros z Hz. rewrite Hl. unfold cut_links. by rewrite decide_True.
    + nodup_facts. done.
    + intros x Hx. rewrite Hi. apply Ho. assert (Hx' : x ∈ hd :: xs) by (rewrite Hxs; mem_solver).
      apply elem_of_cons in Hx' as [->|]; [|done]. exfalso.
      assert (Hhd : hd ∈ a ++ [p]) by (destruct a; injection Hxs as -> _; left).
      apply elem_of_app in Hhd as [Hhd|Hhd%list_elem_of_singleton]; [by destruct (Hda hd Hhd)|congruence].
  - intros z Hz. apply hook_eq; [|done]. rewrite Hl. unfold cut_links. rewrite Hxs in Hz.
    rewrite !decide_False; [done| |mem_solver|mem_solver]. intros He%Hb. apply Hz. mem_solver.
Qed.

(** The four stores of a cut: [p->next], the successor's [prev], and the two outer pointers
    of the list that leaves. *)
Lemma cut_views h h2 h4 p m b x y :
  head m = Some x → last m = Some y → NoDup ((p :: m) ++ b) →
  (∀ z, links h2 z = match b with
                     | [] => on p z (λ '(c, _), (c, None)) (links h z)
                     | w :: _ => on w z (λ '(_, c), (Some p, c)) (on p z (λ '(c, _), (c, hd_or b None)) (links h z))
                     end) →
  (∀ z, links h4 z = on x z (λ '(_, c), (None, c)) (on y z (λ '(c, _), (c, None)) (links h2 z))) →
  ∀ z, links h4 z = cut_links p m b z (links h z).
Proof.
  intros Hx Hy Hnd H2 H4 z.
  assert (Hxm : x ∈ m) by (destruct m; [done|injection Hx as ->; left]).
  assert (Hym : y ∈ m) by (by apply last_Some_elem_of).
  apply NoDup_app in Hnd as ([Hpm Hndm]%NoDup_cons & Hmb & _).
  assert (Hz2 : z ∈ m → links h2 z = links h z).
  { intros Hz. rewrite H2. assert (z ≠ p) by congruence. destruct b as [|w b]; rewrite ?on_ne; try done.
    intros ->. apply (Hmb w); [by right|left]. }
  rewrite H4. unfold cut_links. destruct (decide (z ∈ m)) as [Hz|Hz].
  - rewrite Hz2 by done. unfold relink, on. rewrite Hx, Hy.
    destruct (links h z) as [[c d]|]; repeat case_decide; subst; simpl; congruence.
  - rewrite !on_ne by congruence. rewrite H2. destruct b as [|w b]; simpl.
    + destruct (decide (z = p)) as [->|]; [by rewrite on_eq|by rewrite on_ne].
    + assert (w ≠ p) by (intros ->; apply (Hmb p); left). unfold on.
      repeat case_decide; subst; simpl in *; congruence.
Qed.

(** [pop_front(n)] on a non-empty queue: the first [max 1 n] hooks leave (all of them
    when there are fewer), in order, still tagged with the queue. *)
Lemma pop_front_cut h q hd xs n :
  rep h q hd xs → xs ≠ [] →
  ∃ h' q', let m := take (Nat.max 1 n) xs in
    pop_front h q n = Some (h', q', SList.mk (head m) (last m) (Z.of_nat (length m)) (check q)) ∧
    rep h' q' hd (drop (Nat.max 1 n) xs) ∧
    lrep h' (SList.mk (head m) (last m) (Z.of_nat (length m)) (check q)) m ∧
    check q' = check q ∧ (∀ z, info h' z = info h z) ∧ frame (hd :: xs) h h'.
Proof.
  intros Hrep Hne. pose proof Hrep as [Hh Ht Hs Hnd Hc Hk Hsn Ho].
  destruct (rep_nonempty _ _ _ _ Hrep Hne) as [Ht' Hne'].
  destruct xs as [|x xs]; [done|]. set (k := Nat.max 1 n).
  assert (Hkn : k = S (n - 1)) by lia.
  set (m := take k (x :: xs)). set (b := drop k (x :: xs)).
  assert (Hmb : x :: xs = m ++ b) by (symmetry; apply take_drop).
  assert (Hlen : length m = 1 + min (n - 1) (length xs)) by (unfold m; rewrite length_take; simpl; lia).
  assert (Hx : head m = Some x) by (unfold m; rewrite Hkn; done).
  destruct (last m) as [y|] eqn:Hy; [|apply last_None in Hy; by rewrite Hy in Hlen].
  pose proof Hs as [Lhd Hs']. simpl hd_or in Lhd.
  pose proof (forward_spec h (Some hd) x xs 1 (n - 1) Hs') as Hf. rewrite <- Hkn in Hf. fold m in Hf.
  rewrite Hy, <- Hlen in Hf. clearbody m b.
  change (x :: xs) with ([x] ++ xs) in *. rewrite Hmb in *.
  pose proof Hs' as [Hm Hb]%seg_app.
  destruct (snoc_of_last _ _ Hy) as [m' Em]. rewrite Em in Hm. apply seg_app in Hm as [_ [Ly _]].
  destruct (links_deref _ _ _ _ Lhd) as (hn & Dhd & _ & Nhd).
  destruct (links_deref _ _ _ _ Ly) as (yn & Dy & _ & Nyn). simpl in Nyn.
  assert (Hym : y ∈ m) by by apply last_Some_elem_of.
  assert (Hhd : hd ∉ m ∧ hd ∉ b ∧ (∀ z, z ∈ m → z ∉ b)).
  { apply NoDup_cons in Hnd as [? (_ & ? & _)%NoDup_app]. split_and!; mem_solver. }
  destruct Hhd as (Hhm & Hhb & Hmd).
  destruct (store_next hd h) with (v := next yn) as (h1 & E1 & L1 & I1); [eauto|].
  assert (Dy1 : h1 !! y = Some yn).
  { rewrite <- Dy. apply hook_eq; [|done]. by rewrite L1, on_ne by mem_solver. }
  destruct (relink_succ h1 b (Some hd)) as (h2 & E2 & I2 & L2).
  { intros w Hw. destruct b as [|w' b]; [done|]. injection Hw as ->. rewrite L1, on_ne by mem_solver.
    destruct Hb as [-> _]. done. }
  destruct (store_next y h2) with (v := None : ptr) as (h3 & E3 & L3 & I3).
  { apply info_is_Some. rewrite I2, I1. unfold info. by rewrite Dy. }
  destruct (store_prev x h3) with (v := None : ptr) as (h4 & E4 & L4 & I4).
  { apply info_is_Some. rewrite I3, I2, I1. apply is_Some_info. eapply seg_In; [exact Hs'|]. rewrite <- Hmb. left. }
  set (tl := if bool_decide (Some y = tail_ q) then Some hd else tail_ q).
  exists h4, (mk (head_ q) tl (u64 (count_ q - Z.of_nat (length m))) (check q)).
  assert (Hi : ∀ z, info h4 z = info h z) by (intros z; by rewrite I4, I3, I2, I1).
  assert (Hl : ∀ z, links h4 z = cut_links hd m b z (links h z)).
  { apply (cut_views h h2 h4 hd m b x y); [done|done|done| |].
    - intros z. rewrite L2. destruct b as [|w b]; by rewrite L1, Nyn.
    - intros z. by rewrite L4, L3. }
  assert (Htl : tl = last (hd :: b)).
  { unfold tl. rewrite Ht', last_app. destruct b as [|w b].
    - by rewrite Hy, bool_decide_true.
    - rewrite last_cons_cons. destruct (last (w :: b)) as [v|] eqn:Ev; [|by apply last_None in Ev].
      apply last_Some_elem_of in Ev. rewrite bool_decide_false; [done|]. intros [= ->]. by eapply Hmd. }
  destruct (cut_spec h h4 q (mk (head_ q) tl (u64 (count_ q - Z.of_nat (length m))) (check q))
              hd [] hd m b (m ++ b) b Hrep) as (R1 & R2 & R3); try done.
  rewrite Hx, Hy in R2. cbv zeta. rewrite ?Hx, ?Hy.
  split_and!; [|done|done|done|done|done].
  unfold pop_front. rewrite bool_decide_false, Hh by done. simpl.
  rewrite deref_Some, Dhd. simpl. rewrite Nhd, Hf. simpl. rewrite deref_Some, Dy. simpl.
  rewrite E1. simpl. rewrite deref_Some, Dy1. simpl. rewrite Nyn, E2. simpl. rewrite E3. simpl. rewrite E4. simpl.
  unfold tl. done.
Qed.

(** [pop_back(n)]: the last [max 1 n] hooks leave, in order. *)
Lemma pop_back_cut h q hd xs n :
  rep h q hd xs → xs ≠ [] →
  ∃ h' q', let a := take (length xs - Nat.max 1 n) xs in let m := drop (length xs - Nat.max 1 n) xs in
    pop_back h q n = Some (h', q', SList.mk (head m) (last m) (Z.of_nat (length m)) (check q)) ∧
    rep h' q' hd a ∧
    lrep h' (SList.mk (head m) (last m) (Z.of_nat (length m)) (check q)) m ∧
    check q' = check q ∧ (∀ z, info h' z = info h z) ∧ frame (hd :: xs) h h'.
Proof.
  intros Hrep Hne. pose proof Hrep as [Hh Ht Hs Hnd Hc Hk Hsn Ho].
  destruct (rep_nonempty _ _ _ _ Hrep Hne) as [Ht' Hne'].
  assert (Hb : ∃ x, head (drop (length xs - Nat.max 1 n) xs) = Some x ∧
            backward h (Some hd) (last xs) 1 (n - 1) = Some (Some x, length (drop (length xs - Nat.max 1 n) xs))).
  { destruct (last xs) as [y|] eqn:Hy; [|by apply last_None in Hy].
    destruct (snoc_of_last _ _ Hy) as [xs' ->]. destruct Hs as [_ Hs].
    rewrite (backward_spec h hd xs' [] y 1 (n - 1)) by (done || (apply NoDup_cons in Hnd; mem_solver)).
    rewrite length_app, length_drop, length_app. change (length [y]) with 1.
    replace (length xs' + 1 - Nat.max 1 n) with (length xs' - (n - 1)) by lia.
    destruct (drop (length xs' - (n - 1)) (xs' ++ [y])) as [|x d] eqn:Ed.
    - apply (f_equal length) in Ed. rewrite length_drop, length_app in Ed. simpl in Ed. lia.
    - exists x. split; [done|]. do 2 f_equal. lia. }
  destruct Hb as (x & Hx & Hback).
  set (a := take (length xs - Nat.max 1 n) xs) in *. set (m := drop (length xs - Nat.max 1 n) xs) in *.
  assert (Ham : xs = a ++ m) by (symmetry; apply take_drop). clearbody a m. subst xs.
  destruct m as [|x' m']; [done|]. injection Hx as ->. set (m := x :: m') in *.
  destruct (last m) as [y|] eqn:Hy; [|by apply last_None in Hy].
  rewrite last_app, Hy in Ht', Hback.
  destruct (last (hd :: a)) as [p|] eqn:El; [|by apply last_None in El].
  apply snoc_of_last in El as [a' Ea].
  change (hd :: a ++ m) with ((hd :: a) ++ m) in Hs, Hnd. rewrite Ea in Hs, Hnd.
  pose proof Hs as [Ha Hm]%seg_app. rewrite last_or_snoc in Hm. pose proof Hm as [Lx _].
  destruct (links_deref _ _ _ _ Lx) as (xn & Dx & Px & _).
  apply seg_app in Ha as [_ [Lp _]]. simpl in Lp.
  assert (Hpx : p ∉ m) by (nodup_facts; mem_solver).
  assert (Hyn : ∃ c, links h y = Some (c, None)).
  { destruct (snoc_of_last _ _ Hy) as [m'' Em]. rewrite Em in Hm. apply seg_app in Hm as [_ [Ly _]]. eauto. }
  destruct (store_next p h) with (v := None : ptr) as (h1 & E1 & L1 & I1).
  { apply links_is_Some. by rewrite Lp. }
  destruct (store_prev x h1) with (v := None : ptr) as (h2 & E2 & L2 & I2).
  { apply info_is_Some. rewrite I1. apply is_Some_info. eauto. }
  set (q' := mk (head_ q) (Some p) (u64 (count_ q - Z.of_nat (length m))) (check q)).
  assert (Hi : ∀ z, info h2 z = info h z) by (intros z; by rewrite I2, I1).
  assert (Hl : ∀ z, links h2 z = cut_links p m [] z (links h z)).
  { destruct Hyn as [c Hyn].
    apply (cut_views h h1 h2 p m [] x y); [done|done| |done|].
    - rewrite app_nil_r. apply NoDup_cons. split; [done|]. nodup_facts. done.
    - intros z. rewrite L2. unfold on. repeat case_decide; subst; try done.
      + rewrite L1. unfold on. case_decide; by rewrite Hyn.
      + rewrite L1. unfold on. case_decide; by rewrite Hyn. }
  exists h2, q'. cbv zeta.
  destruct (cut_spec h h2 q q' hd a' p m [] (a ++ m) a Hrep) as (R1 & R2 & R3); try done.
  { rewrite app_nil_r. change (hd :: a ++ m) with ((hd :: a) ++ m). by rewrite Ea. }
  { by rewrite app_nil_r. }
  { rewrite Ea. by rewrite last_snoc. }
  rewrite Hy in R2 |- *. split_and!; [|done|done|done|done|done].
  unfold pop_back. rewrite bool_decide_false by done. rewrite Ht', Hh, Hback. simpl.
  rewrite deref_Some, Dx. simpl. rewrite Px, E1. simpl. rewrite E2. simpl. unfold q'. by rewrite Hh.
Qed.

Lemma pop_all_cut h q hd xs :
  rep h q hd xs → xs ≠ [] →
  ∃ h' q',
    pop_all h q = Some (h', q', SList.mk (head xs) (last xs) (count_ q) (check q)) ∧
    rep h' q' hd [] ∧
    lrep h' (SList.mk (head xs) (last xs) (Z.of_nat (length xs)) (check q)) xs ∧
    check q' = check q ∧ (∀ z, info h' z = info h z) ∧ frame (hd :: xs) h h'.
Proof.
  intros Hrep Hne. pose proof Hrep as [Hh Ht Hs Hnd Hc Hk Hsn Ho].
  destruct (rep_nonempty _ _ _ _ Hrep Hne) as [Ht' Hne'].
  destruct (last xs) as [y|] eqn:Hy; [|by apply last_None in Hy].
  destruct (head xs) as [x|] eqn:Hx; [|by destruct xs].
  pose proof Hs as [Lhd Hs']. assert (Hhx : hd_or xs None = Some x) by (by destruct xs). rewrite Hhx in Lhd.
  destruct (links_deref _ _ _ _ Lhd) as (hn & Dhd & _ & Nhd).
  destruct (store_next hd h) with (v := None : ptr) as (h1 & E1 & L1 & I1); [eauto|].
  destruct (store_next y h1) with (v := None : ptr) as (h2 & E2 & L2 & I2).
  { apply info_is_Some. rewrite I1. apply is_Some_info. eapply seg_In; [exact Hs'|]. by apply last_Some_elem_of. }
  destruct (store_prev x h2) with (v := None : ptr) as (h3 & E3 & L3 & I3).
  { apply info_is_Some. rewrite I2, I1. apply is_Some_info. eapply seg_In; [exact Hs'|].
    destruct xs; [done|]. injection Hx as ->. left. }
  assert (Hi : ∀ z, info h3 z = info h z) by (intros z; by rewrite I3, I2, I1).
  assert (Hl : ∀ z, links h3 z = cut_links hd xs [] z (links h z)).
  { apply (cut_views h h1 h3 hd xs [] x y); [done|done|by rewrite app_nil_r|done|].
    intros z. by rewrite L3, L2. }
  exists h3, (mk (head_ q) (head_ q) 0 (check q)).
  destruct (cut_spec h h3 q (mk (head_ q) (head_ q) 0 (check q)) hd [] hd xs [] xs [] Hrep) as (R1 & R2 & R3);
    try done.
  { by rewrite app_nil_r. }
  { simpl. rewrite Hc, u64_sub, Z.sub_diag. done. }
  rewrite Hx, Hy in R2. split_and!; [|done|done|done|done|done].
  unfold pop_all. rewrite bool_decide_false, Hh by done. simpl.
  rewrite deref_Some, Dhd. simpl. rewrite Nhd, E1. simpl. rewrite Ht', E2. simpl. by rewrite E3.
Qed.

(** [push(SList&&)] of a detached list that carries the queue's tag. *)
Lemma push_list_join h q hd xs l ys :
  rep h q hd xs → lrep h l ys → ys ≠ [] → SList.check l = check q →
  (∀ z, z ∈ ys → z ∉ hd :: xs) →
  ∃ h' q', push_list h q l = Some (h', q', SList.nil) ∧ rep h' q' hd (xs ++ ys) ∧
    check q' = check q ∧ (∀ z, info h' z = info h z) ∧ frame (hd :: xs ++ ys) h h'.
Proof.
  intros Hrep [Lh Lt Ls Lnd Lc Lo] Hne Hck Hdis. pose proof Hrep as [Hh Ht Hs Hnd Hc Hk Hsn Ho].
  destruct ys as [|x ys]; [done|]. simpl in Lh.
  destruct (last (x :: ys)) as [y|] eqn:Ey; [|by apply last_None in Ey].
  destruct (last (hd :: xs)) as [p|] eqn:El; [|by apply last_None in El].
  apply snoc_of_last in El as [a Ea]. rewrite Ea in *.
  assert (Hpx : p ∉ x :: ys) by (intros Hp; eapply Hdis; [done|]; mem_solver).
  assert (Hy : links h y = Some (last_or (take (length ys) (x :: ys)) None, None)).
  { destruct (snoc_of_last _ _ Ey) as [ys' Eys]. rewrite Eys in Ls |- *. apply seg_app in Ls as [_ [Ly _]].
    assert (length ys = length ys') as -> by (apply (f_equal length) in Eys; rewrite length_app in Eys; simpl in Eys; lia).
    by rewrite take_app_length. }
  destruct (store_next p h) with (v := Some x) as (h1 & E1 & L1 & I1); [eapply seg_In; [done|mem_solver]|].
  destruct (store_prev x h1) with (v := Some p) as (h2 & E2 & L2 & I2).
  { apply info_is_Some. rewrite I1. apply is_Some_info. eapply seg_In; [exact Ls|left]. }
  destruct (store_next y h2) with (v := None : ptr) as (h3 & E3 & L3 & I3).
  { apply info_is_Some. rewrite I2, I1. apply is_Some_info. eapply seg_In; [exact Ls|]. by apply last_Some_elem_of. }
  assert (Hi : ∀ z, info h3 z = info h z) by (intros z; by rewrite I3, I2, I1).
  assert (Hl3 : ∀ z, links h3 z = links h2 z).
  { intros z. rewrite L3. unfold on. case_decide; [|done]. subst. rewrite L2, L1. unfold on.
    assert (y ∈ x :: ys) by by apply last_Some_elem_of. assert (y ≠ p) by congruence.
    rewrite !(decide_False (P := y = p)), Hy by done. by case_decide. }
  exists h3, (mk (head_ q) (Some y) (u64 (count_ q + SList.size l)) (check q)). split_and!; [| |done|done|].
  - unfold push_list, SList.empty. rewrite Lh, bool_decide_false by done. rewrite Hck, bool_decide_true by done.
    rewrite Ht, E1. simpl. rewrite E2. simpl. rewrite Lt, E3. done.
  - assert (Hxys : x ∉ ys) by (by apply NoDup_cons in Lnd as [? _]).
    assert (Hpy : p ∉ ys) by (intros ?; apply Hpx; by right).
    assert (Hxp : x ≠ p) by (intros ->; apply Hpx; left).
    split; simpl; try done.
    + change (Some y = last ((hd :: xs) ++ x :: ys)). by rewrite last_app, Ey.
    + change (seg h3 None ((hd :: xs) ++ x :: ys) None). rewrite Ea.
      assert (Hap : ∀ z, z ∈ a → z ≠ p ∧ z ≠ x).
      { intros z Hz. split.
        - apply NoDup_app in Hnd as (_ & Hn & _). intros ->. apply (Hn p Hz). left.
        - intros ->. apply (Hdis x); [left|]. apply elem_of_app. by left. }
      eapply seg_join; [exact Hs|exact Ls| | | |].
      * intros z Hz. destruct (Hap z Hz). by rewrite Hl3, L2, on_ne, L1, on_ne.
      * rewrite Hl3, L2, on_ne by congruence. by rewrite L1, on_eq.
      * rewrite Hl3, L2, on_eq. by rewrite L1, on_ne by congruence.
      * intros z Hz. rewrite Hl3, L2, on_ne by congruence. by rewrite L1, on_ne by congruence.
    + change (NoDup ((hd :: xs) ++ x :: ys)). rewrite Ea. apply NoDup_app. split_and!; [done| |done].
      intros z Hz Hz'. by apply (Hdis z).
    + rewrite Hc, u64_add. unfold SList.size. rewrite Lc, length_app. f_equal. lia.
    + by rewrite Hi.
    + intros z [Hz|Hz]%elem_of_app; rewrite Hi; [by apply Ho|]. rewrite <- Hck. by apply Lo.
  - intros z Hz. apply hook_eq; [|done].
    change (z ∉ (hd :: xs) ++ x :: ys) in Hz. rewrite Ea in Hz.
    assert (z ≠ x) by (intros ->; apply Hz; apply elem_of_app; right; left).
    assert (z ≠ p) by (intros ->; apply Hz; apply elem_of_app; left; apply elem_of_app; right; left).
    by rewrite Hl3, L2, on_ne, L1, on_ne.
Qed.

(** ** [SList::erase] and [SList::clear] *)
Lemma relink_pred h a v :
  (∀ y, last a = Some y → is_Some (links h y)) →
  ∃ h', (match last a with Some _ => store (last a) (set_next v) h | None => Some h end) = Some h' ∧
        (∀ z, info h' z = info h z) ∧
        (∀ z, links h' z = match last a with
                           | None => links h z
                           | Some y => on y z (λ '(c, _), (c, v)) (links h z)
                           end).
Proof.
  intros Ha. destruct (last a) as [y|]; [|by exists h].
  destruct (store_next y h) with (v := v) as (h' & E & L & I); [|eauto].
  apply links_is_Some. by apply Ha.
Qed.

Lemma slist_erase_spec h l a x b k :
  lrep h l (a ++ x :: b) → info h x = Some (SList.check l, k) →
  ∃ h' l', SList.erase h l (Some x) = Some (h', l', hd_or b None) ∧
    (0 < SList.count_ l < 2 ^ 64 → lrep h' l' (a ++ b))%Z ∧ SList.check l' = SList.check l ∧
    h' !! x = (if (k =? 1)%Z then None else Some (Hook None None None (k - 1))) ∧
    (∀ z, z ≠ x → info h' z = info h z) ∧ frame (a ++ x :: b) h h'.
Proof.
  intros [Lh Lt Ls Lnd Lc Lo] Hix.
  pose proof Ls as [Ha [Lx Hb]]%seg_app. change (last_or a None) with (match last a with None => None | Some z => Some z end) in Lx.
  assert (Hla : (match last a with None => None | Some z => Some z end) = last a) by by destruct (last a).
  rewrite Hla in Lx. apply NoDup_app in Lnd as (Hnda & Hab & [Hxb Hndb]%NoDup_cons).
  assert (Hxa : x ∉ a) by (intros H; apply (Hab x H); left).
  assert (Hab' : ∀ z, z ∈ a → z ∉ b) by (intros z Hz Hz'; apply (Hab z Hz); by right).
  assert (Hlast : ∀ y, last a = Some y → y ∈ a) by (intros y; apply last_Some_elem_of).
  assert (Hhead : ∀ y, head b = Some y → y ∈ b) by (intros y; destruct b; simpl; [done|intros [= ->]; left]).
  destruct (links_deref _ _ _ _ Lx) as (xn & Dx & Pxn & Nxn).
  destruct (relink_pred h a (hd_or b None)) as (h1 & E1 & I1 & L1).
  { intros y Hy. destruct (snoc_of_last _ _ Hy) as [a' ->].
    apply seg_app in Ha as [_ [-> _]]. done. }
  assert (Dx1 : h1 !! x = Some xn).
  { rewrite <- Dx. apply hook_eq; [|done]. rewrite L1. destruct (last a) eqn:El; [|done].
    rewrite on_ne; [done|]. intros ->. by apply Hxa, Hlast. }
  destruct (relink_succ h1 b (last a)) as (h2 & E2 & I2 & L2).
  { intros y Hy. rewrite L1. destruct b as [|y' b]; [done|]. injection Hy as ->. destruct Hb as [Ly _].
    destruct (last a); [|by rewrite Ly]. unfold on. case_decide; by rewrite Ly. }
  destruct (detach_spec x h2 (SList.check l) k) as (h3 & E3 & F3 & X3); [by rewrite I2, I1|].
  set (l' := SList.mk (match last a with Some _ => SList.head_ l | None => hd_or b None end)
                      (match hd_or b None with Some _ => SList.tail_ l | None => last a end)
                      (u64 (SList.count_ l - 1)) (SList.check l)).
  assert (Hi3 : ∀ z, z ≠ x → info h3 z = info h z).
  { intros z Hz. destruct (F3 z Hz) as [_ ->]. by rewrite I2, I1. }
  assert (Hl3 : ∀ z, z ≠ x → last a ≠ Some z → head b ≠ Some z → links h3 z = links h z).
  { intros z Hz Hza Hzb. destruct (F3 z Hz) as [-> _]. rewrite L2, L1.
    destruct b; [|rewrite on_ne by (simpl in Hzb; congruence)]; destruct (last a); try done; rewrite on_ne; congruence. }
  exists h3, l'. split_and!; [| |done|done|done|].
  - unfold SList.erase. rewrite deref_Some, Dx. simpl. rewrite Pxn, Nxn.
    assert (Hhd : last a = None → SList.head_ l = Some x).
    { intros Hn%last_None. by rewrite Hn in Lh. }
    assert (Htl : hd_or b None = None → SList.tail_ l = Some x).
    { intros Hn. destruct b; [|done]. by rewrite last_snoc in Lt. }
    unfold l'. destruct (last a) as [p|] eqn:El.
    + rewrite E1. simpl. rewrite deref_Some, Dx1. simpl. rewrite Nxn, Pxn. destruct b as [|y b]; simpl.
      * rewrite Htl by done. rewrite deref_Some, Dx1. simpl. simpl in E2. injection E2 as ->. by rewrite E3, Pxn.
      * simpl in E2. by rewrite E2; simpl; rewrite E3.
    + simpl in E1. injection E1 as ->. rewrite Hhd by done. rewrite deref_Some, Dx. simpl.
      rewrite deref_Some, Dx. simpl. rewrite Nxn, Pxn. destruct b as [|y b]; simpl.
      * rewrite Htl by done. rewrite deref_Some, Dx. simpl. simpl in E2. injection E2 as ->. by rewrite E3; simpl; rewrite ?Nxn, ?Pxn.
      * simpl in E2. by rewrite E2; simpl; rewrite E3.
  - intros Hcnt. split; simpl.
    + rewrite Lh. destruct a as [|z a]; simpl.
      * by destruct b.
      * rewrite last_cons. by destruct (last a).
    + rewrite Lt, !last_app, last_cons. destruct b as [|y b]; simpl; [by destruct (last a)|].
      destruct (last (y :: b)) eqn:Ey; [done|]. by apply last_None in Ey.
    + apply seg_app. split.
      * destruct (last a) as [p|] eqn:El; [|by apply last_None in El as ->].
        destruct (snoc_of_last _ _ El) as [a' ->]. eapply seg_set_next; [exact Ha| |].
        -- intros z Hz. apply NoDup_app in Hnda as (_ & Hn & _). apply Hl3.
           ++ intros ->. apply Hxa, elem_of_app. by left.
           ++ intros [= ->]. apply (Hn z Hz). left.
           ++ intros Hz'%Hhead. apply (Hab' z); [|done]. apply elem_of_app. by left.
        -- assert (Hpa : p ∈ a' ++ [p]) by (apply elem_of_app; right; left).
           assert (p ≠ x) by congruence. destruct (F3 p) as [-> _]; [done|]. rewrite L2.
           destruct b as [|y b]; [by rewrite L1, on_eq|]. rewrite on_ne; [by rewrite L1, on_eq|].
           intros <-. apply (Hab' p Hpa). left.
      * change (seg h3 (match last a with None => None | Some z => Some z end) b None). rewrite Hla.
        destruct b as [|y b]; [done|]. apply NoDup_cons in Hndb as [Hyb _]. eapply seg_set_prev; [exact Hb| |].
        -- intros z Hz. apply Hl3.
           ++ intros ->. apply Hxb. by right.
           ++ intros Hz'%Hlast. apply (Hab' z Hz'). by right.
           ++ simpl. intros [= ->]. done.
        -- assert (y ≠ x) by (intros ->; apply Hxb; left). destruct (F3 y) as [-> _]; [done|].
           rewrite L2, on_eq, L1. destruct (last a) as [p|]; [|done].
           rewrite on_ne; [done|]. intros ->. apply (Hab' p); [by apply Hlast|left].
    + apply NoDup_app. split_and!; [done| |done]. intros z Hz Hz'. by apply (Hab' z).
    + rewrite Lc. rewrite u64_small; rewrite Lc in *; rewrite !length_app in *; simpl in *; lia.
    + intros z Hz. assert (z ≠ x) by (apply elem_of_app in Hz as [Hz|Hz]; congruence).
      rewrite Hi3 by done. apply Lo. apply elem_of_app in Hz as [Hz|Hz]; apply elem_of_app; [by left|].
      right. by right.
  - intros z Hz. assert (z ≠ x) by (intros ->; apply Hz, elem_of_app; right; left).
    apply hook_eq; [|by apply Hi3]. apply Hl3; [done| |].
    + intros Hz'%Hlast. apply Hz, elem_of_app. by left.
    + intros Hz'%Hhead. apply Hz, elem_of_app. right. by right.
Qed.

(** [~SList]/[clear]: every hook of the list gives up one reference, in order; a hook with no
    other reference is freed.  The fuel is the length of the list. *)
Lemma slist_clear_spec h l xs :
  lrep h l xs → (Z.of_nat (length xs) < 2 ^ 64)%Z →
  ∃ h', SList.clear (length xs) h l = Some (h', SList.nil) ∧ frame xs h h' ∧
    ∀ x k, x ∈ xs → info h x = Some (SList.check l, k) →
      h' !! x = (if (k =? 1)%Z then None else Some (Hook None None None (k - 1))).
Proof.
  revert h l. induction xs as [|x xs IH]; intros h l Hrep Hlen.
  - pose proof Hrep as [Lh _ _ _ _ _]. exists h. unfold SList.clear. rewrite Lh. simpl.
    split_and!; [done|by intros ?|]. by intros x k Hx%elem_of_nil.
  - pose proof Hrep as [Lh _ _ Lnd Lc Lo]. destruct (Lo x) as (k & Hk & _); [left|].
    destruct (slist_erase_spec h l [] x xs k Hrep Hk) as (h1 & l1 & E1 & R1 & C1 & X1 & I1 & F1).
    simpl in Hlen, Lc. specialize (R1 ltac:(lia)). simpl in R1.
    destruct (IH h1 l1 R1 ltac:(lia)) as (h2 & E2 & F2 & X2).
    apply NoDup_cons in Lnd as [Hx Hnd]. exists h2. split_and!.
    + unfold SList.clear. rewrite Lh. simpl. rewrite E1. simpl. unfold SList.clear in E2.
      destruct R1 as [Lh1 _ _ _ _ _]. rewrite Lh1 in E2. destruct xs; exact E2.
    + intros z Hz. rewrite F2, F1; [done|done|]. intros Hz'. apply Hz. by right.
    + intros y k' [->|Hy]%elem_of_cons Hk'.
      * rewrite F2 by done. rewrite Hk in Hk'. injection Hk' as ->. done.
      * apply X2; [done|]. rewrite I1, C1; [done|]. intros ->. done.
Qed.

(** [~TSQueue]: every hook gives up one reference, from the tail to the head, and the sentinel is
    deleted.  A hook that somebody else owns keeps the links and the tag it had in the queue.  The
    fuel is the length of the queue. *)
Lemma destroy_spec xs : ∀ h q hd n,
  TSQueue.head_ q = Some hd → TSQueue.tail_ q = last (hd :: xs) → seg h None (hd :: xs) n → NoDup (hd :: xs) →
  (∀ x, x ∈ xs → is_Some (h !! x)) →
  ∃ h', TSQueue.destroy (length xs) h q = Some h' ∧ frame (hd :: xs) h h' ∧ h' !! hd = None ∧
    ∀ x c k, x ∈ xs → info h x = Some (c, k) →
      if (k =? 1)%Z then h' !! x = None else links h' x = links h x ∧ info h' x = Some (c, (k - 1)%Z).
Proof.
  induction xs as [|t xs IH] using rev_ind; intros h q hd n Hh Ht Hs Hnd Ho.
  - simpl in Ht. exists (delete hd h). simpl. rewrite Hh, Ht, bool_decide_true by done. simpl. split_and!; [done| |by apply lookup_delete_eq|].
    + intros z Hz. apply lookup_delete_ne. intros ->. apply Hz. left.
    + by intros x c k Hx%elem_of_nil.
  - rewrite app_comm_cons in Hs, Hnd, Ht. rewrite last_snoc in Ht.
    apply seg_app in Hs as [Hs1 [Hlt _]]. apply NoDup_app in Hnd as (Hnd & Hdis & _).
    assert (Htn : ∀ x, x ∈ hd :: xs → x ≠ t) by (intros x Hx ->; apply (Hdis t Hx); left).
    destruct (is_Some_info h t) as [[c0 k0] Hi0]; [apply Ho, elem_of_app; right; left|].
    destruct (DecrementRef_spec t h c0 k0 Hi0) as (h1 & E1 & F1 & X1).
    apply links_deref in Hlt as (tn & Dt & Hpt & _).
    destruct (IH h1 (TSQueue.mk (TSQueue.head_ q) (prev tn) (TSQueue.count_ q) (TSQueue.check q)) hd (Some t)) as (h2 & E2 & F2 & D2 & X2).
    + done.
    + simpl. rewrite Hpt. unfold last_or. by rewrite last_cons; destruct (last xs).
    + eapply seg_ext; [exact Hs1|]. intros z Hz. by apply F1, Htn.
    + done.
    + intros x Hx. apply links_is_Some. destruct (F1 x) as [-> _]; [apply Htn; by right|].
      destruct (Ho x) as [nd Hx']; [apply elem_of_app; by left|]. unfold links. by rewrite Hx'.
    + exists h2. split_and!.
      * rewrite length_app, Nat.add_comm. simpl. rewrite Hh, Ht.
        rewrite bool_decide_false by (intros [= Heq]; apply (Htn t); [rewrite <- Heq; left|done]).
        rewrite deref_Some, Dt. simpl. rewrite E1. simpl. by rewrite <- Hh.
      * intros z Hz. rewrite F2 by (intros Hz'; apply Hz; rewrite app_comm_cons; apply elem_of_app; by left).
        assert (z ≠ t) by (intros ->; apply Hz; right; apply elem_of_app; right; left).
        by apply hook_eq; apply F1.
      * done.
      * intros x c k Hx Hi. apply elem_of_app in Hx as [Hx|Hx].
        -- destruct (F1 x) as [L1 I1]; [apply Htn; by right|].
           specialize (X2 x c k Hx ltac:(by rewrite I1)). by rewrite L1 in X2.
        -- apply list_elem_of_singleton in Hx as ->. rewrite Hi0 in Hi. injection Hi as -> ->.
           assert (Hk : h2 !! t = h1 !! t) by (apply F2; intros Hin; by apply (Htn t Hin)).
           unfold links, info in *. rewrite Hk. destruct (k =? 1)%Z; [done|exact X1].
Qed.

End QueueSpec.
