(* ===== verification/TsQueueSpec.v ===== *)
(** * The task queue as a list with owners

    A client of [TSQueue] sees a FIFO list with random removal.  The refinement below adds
    who owns what: the reference count of every hook is the number of its owners. *)
From S2P Require Import Prelude TsQueue.

(** ** Refinement: any sequence of operations behaves as a list with owners

    The abstract state is the list of queued hooks and the number of references the clients
    hold on each hook.  A client may use a hook on which it holds a reference, and pushes a
    hook only when it is not queued. *)
Module Refinement.
Import TSQueue.

Inductive op := Alloc (e : loc) | Retain (e : loc) | Release (e : loc)
              | Push (e : loc) | Pop | Erase (e : loc) | Size | Empty.
Inductive out := OUnit | OPtr (p : ptr) | OBool (b : bool) | OSize (n : Z).

Definition conc_step (sentinel : loc) (s : heap * t) (o : op) : option (out * (heap * t)) :=
  let '(h, q) := s in
  match o with
  | Alloc e => if decide (e = sentinel ∨ is_Some (h !! e)) then None
               else Some (OUnit, (<[e := Hook None None None 1]> h, q))
  | Retain e => h' ← IncrementRef (Some e) h; Some (OUnit, (h', q))
  | Release e => h' ← DecrementRef (Some e) h; Some (OUnit, (h', q))
  | Push e => '(h', q') ← push h q (Some e); Some (OUnit, (h', q'))
  | Pop => '(h', q', p) ← pop h q; Some (OPtr p, (h', q'))
  | Erase e => '(h', q', b) ← erase h q (Some e); Some (OBool b, (h', q'))
  | Size => Some (OSize (size q), (h, q))
  | Empty => Some (OBool (empty q), (h, q))
  end.

Definition upd (own : loc → Z) (e : loc) (v : Z) : loc → Z := λ z, if decide (z = e) then v else own z.

Definition spec_step (sentinel : loc) (s : list loc * (loc → Z)) (o : op) : option (out * (list loc * (loc → Z))) :=
  let '(xs, own) := s in
  match o with
  | Alloc e => if decide (e = sentinel ∨ own e ≠ 0%Z ∨ e ∈ xs) then None else Some (OUnit, (xs, upd own e 1))
  | Retain e => if decide (1 ≤ own e)%Z then Some (OUnit, (xs, upd own e (own e + 1)%Z)) else None
  | Release e => if decide (1 ≤ own e)%Z then Some (OUnit, (xs, upd own e (own e - 1)%Z)) else None
  | Push e => if decide (1 ≤ own e ∧ e ∉ xs)%Z then Some (OUnit, (xs ++ [e], own)) else None
  | Pop => match xs with
           | [] => Some (OPtr None, (xs, own))
           | x :: r => Some (OPtr (Some x), (r, own))
           end
  | Erase e => if decide (1 ≤ own e)%Z
               then if decide (e ∈ xs) then Some (OBool true, (filter (.≠ e) xs, own))
                    else Some (OBool false, (xs, own))
               else None
  | Size => Some (OSize (u64 (Z.of_nat (length xs))), (xs, own))
  | Empty => Some (OBool (bool_decide (xs = [])), (xs, own))
  end.

Fixpoint exec {S} (step : S → op → option (out * S)) (s : S) (os : list op) : option (list out * S) :=
  match os with
  | [] => Some ([], s)
  | o :: os => '(r, s') ← step s o; '(rs, s'') ← exec step s' os; Some (r :: rs, s'')
  end.

(** The simulation relation: the reference count of a live hook is the number of its owners,
    the queue counting for one; a hook without owner is freed. *)
Record sim (hd : loc) (s : heap * t) (a : list loc * (loc → Z)) : Prop := Sim {
  sim_rep : rep s.1 s.2 hd a.1;
  sim_in : ∀ z, z ∈ a.1 → (0 ≤ a.2 z)%Z ∧ info s.1 z = Some (check s.2, (a.2 z + 1)%Z);
  sim_out : ∀ z, z ≠ hd → z ∉ a.1 →
    (0 ≤ a.2 z)%Z ∧ info s.1 z = (if decide (a.2 z = 0%Z) then None else Some (None, a.2 z));
  sim_hd : a.2 hd = 0%Z;
}.

Lemma rep_ext h h' q hd xs :
  rep h q hd xs → (∀ z, links h' z = links h z) → info h' hd = info h hd →
  (∀ z, z ∈ xs → ∃ r, info h' z = Some (check q, r) ∧ (1 ≤ r)%Z) → rep h' q hd xs.
Proof.
  intros [] Hl Hi Ho. split; try done; [|congruence]. eapply seg_ext; [done|]. auto.
Qed.

Lemma rep_weak_links h h' q hd xs :
  rep h q hd xs → (∀ z, z ∈ hd :: xs → h' !! z = h !! z) → rep h' q hd xs.
Proof.
  intros [Hh Ht Hs Hnd Hc Hk Hsn Ho] Hf. split; try done.
  - eapply seg_ext; [done|]. intros z Hz. unfold links. by rewrite Hf.
  - unfold info. rewrite Hf by left. done.
  - intros x Hx. unfold info. rewrite Hf by (by right). by apply Ho.
Qed.

Lemma info_None h z : info h z = None ↔ h !! z = None.
Proof. unfold info. by rewrite fmap_None. Qed.

Lemma info_ne h h' z : h' !! z = h !! z → info h' z = info h z.
Proof. unfold info. by intros ->. Qed.

(** The out-of-queue part of the relation, as a function of the owner count. *)
Definition out_info (n : Z) : option (ptr * Z) := if decide (n = 0%Z) then None else Some (None, n).

Lemma sim_init hd this :
  sim hd (new hd this ∅) ([], λ _, 0%Z).
Proof.
  split; simpl.
  - split; simpl; try done.
    + unfold links. by rewrite lookup_insert_eq.
    + apply NoDup_singleton.
    + unfold info. by rewrite lookup_insert_eq.
    + by intros x ?%elem_of_nil.
  - by intros z ?%elem_of_nil.
  - intros z Hz _. split; [done|]. apply info_None. by rewrite lookup_insert_ne.
  - done.
Qed.

Lemma upd_eq own e v : upd own e v e = v.
Proof. unfold upd. by rewrite decide_True. Qed.
Lemma upd_ne own e v z : z ≠ e → upd own e v z = own z.
Proof. intros. unfold upd. by rewrite decide_False. Qed.

Lemma sim_alive hd s a e : sim hd s a → (1 ≤ a.2 e)%Z → e ≠ hd ∧
  info s.1 e = Some (if decide (e ∈ a.1) then (check s.2, a.2 e + 1)%Z else (None, a.2 e)).
Proof.
  intros Hs He. assert (Hne : e ≠ hd) by (intros ->; rewrite (sim_hd _ _ _ Hs) in He; lia).
  split; [done|]. case_decide as Hin.
  - by destruct (sim_in _ _ _ Hs e Hin).
  - destruct (sim_out _ _ _ Hs e Hne Hin) as [_ ->]. rewrite decide_False by lia. done.
Qed.

(** Changing the reference count of one live hook keeps the relation. *)
Lemma sim_count hd h q xs own h' e v :
  sim hd (h, q) (xs, own) → e ≠ hd → (0 ≤ v)%Z →
  (∀ z, z ≠ e → h' !! z = h !! z) →
  (if decide (e ∈ xs) then links h' e = links h e ∧ info h' e = Some (check q, v + 1)%Z
   else info h' e = out_info v) →
  sim hd (h', q) (xs, upd own e v).
Proof.
  intros [Hr Hin Hout Hhd] He Hv Hf Hi. simpl in *. split; simpl.
  - case_decide as Hm.
    + eapply rep_ext; [done| | |].
      * intros z. destruct (decide (z = e)) as [->|]; [tauto|]. unfold links. by rewrite Hf.
      * apply info_ne, Hf. done.
      * intros z Hz. destruct (decide (z = e)) as [->|].
        -- destruct Hi as [_ ->]. eexists. split; [done|lia].
        -- rewrite (info_ne h h') by auto. destruct (Hin z Hz) as [? ->]. eexists. split; [done|lia].
    + eapply rep_weak_links; [done|]. intros z Hz. apply Hf. intros ->.
      apply elem_of_cons in Hz as [?|?]; congruence.
  - intros z Hz. destruct (decide (z = e)) as [->|].
    + rewrite decide_True in Hi by done. rewrite upd_eq. tauto.
    + rewrite upd_ne, (info_ne h h') by auto. auto.
  - intros z Hz Hzx. destruct (decide (z = e)) as [->|].
    + rewrite decide_False in Hi by done. rewrite upd_eq. tauto.
    + rewrite upd_ne, (info_ne h h') by auto. auto.
  - rewrite upd_ne by done. done.
Qed.

(** Removing one hook from the queue keeps the relation. *)
Lemma sim_remove hd h q xs own h' q' a x b :
  sim hd (h, q) (xs, own) → xs = a ++ x :: b → rep h' q' hd (a ++ b) → check q' = check q →
  h' !! x = (if (own x + 1 =? 1)%Z then None else Some (Hook None None None (own x + 1 - 1))) →
  (∀ z, z ≠ x → info h' z = info h z) →
  sim hd (h', q') (a ++ b, own).
Proof.
  intros [Hr Hin Hout Hhd] -> Hr' Hk Hx Hi. simpl in *.
  pose proof (rep_nodup _ _ _ _ Hr) as [Hn1 (_ & Hn2 & [Hn3 _]%NoDup_cons)%NoDup_app]%NoDup_cons.
  assert (Hxx : x ∈ a ++ x :: b) by (apply elem_of_app; right; left).
  split; simpl.
  - done.
  - intros z Hz. assert (z ≠ x).
    { intros ->. apply elem_of_app in Hz as [Hz|Hz]; [|done]. apply (Hn2 x Hz). left. }
    rewrite Hi, Hk by done. apply Hin. apply elem_of_app in Hz as [Hz|Hz]; apply elem_of_app; [by left|].
    right. by right.
  - intros z Hz Hzx. destruct (decide (z = x)) as [->|Hne].
    + destruct (Hin x Hxx) as [Hge _]. split; [done|]. unfold info. rewrite Hx.
      destruct (Z.eqb_spec (own x + 1) 1); case_decide; try lia; [done|]. simpl. do 2 f_equal. lia.
    + rewrite Hi by done. apply Hout; [done|]. intros [Hz'|[->|Hz']%elem_of_cons]%elem_of_app; try done;
        apply Hzx, elem_of_app; auto.
  - done.
Qed.

Lemma filter_ne_app (a b : list loc) x :
  x ∉ a → x ∉ b → filter (.≠ x) (a ++ x :: b) = a ++ b.
Proof.
  intros Ha Hb. assert (Hf : ∀ l : list loc, x ∉ l → filter (.≠ x) l = l).
  { induction l as [|y l IH]; intros Hl; [done|]. apply not_elem_of_cons in Hl as [Hy Hl].
    rewrite filter_cons_True by congruence. by rewrite IH. }
  rewrite filter_app, filter_cons_False by (intros []; done). by rewrite !Hf.
Qed.

Lemma alloc_sim hd h q xs own e :
  sim hd (h, q) (xs, own) → e ≠ hd → own e = 0%Z → e ∉ xs →
  h !! e = None ∧ sim hd (<[e := Hook None None None 1]> h, q) (xs, upd own e 1).
Proof.
  intros Hs He Ho Hx. pose proof (sim_out _ _ _ Hs e He Hx) as [_ Hi]. simpl in Hi.
  rewrite decide_True in Hi by done. split; [by apply info_None|].
  eapply sim_count; try done.
  - intros z Hz. by rewrite lookup_insert_ne.
  - rewrite decide_False by done. unfold info. by rewrite lookup_insert_eq.
Qed.

Lemma retain_sim hd h q xs own e :
  sim hd (h, q) (xs, own) → (1 ≤ own e)%Z →
  ∃ h', IncrementRef (Some e) h = Some h' ∧ sim hd (h', q) (xs, upd own e (own e + 1)).
Proof.
  intros Hs He. destruct (sim_alive _ _ _ _ Hs He) as [Hne Hi]. simpl in Hi.
  destruct (IncrementRef_spec e h) as (h' & E & L & I); [apply info_is_Some; by rewrite Hi|].
  exists h'. split; [done|]. eapply sim_count; try done; [lia| |].
  - intros z Hz. apply hook_eq; [done|]. by rewrite I, on_ne.
  - rewrite I, on_eq, Hi. case_decide; simpl; [split; [done|do 2 f_equal; lia]|].
    unfold out_info. by rewrite decide_False by lia.
Qed.

Lemma release_sim hd h q xs own e :
  sim hd (h, q) (xs, own) → (1 ≤ own e)%Z →
  ∃ h', DecrementRef (Some e) h = Some h' ∧ sim hd (h', q) (xs, upd own e (own e - 1)).
Proof.
  intros Hs He. destruct (sim_alive _ _ _ _ Hs He) as [Hne Hi]. simpl in Hi.
  assert (Hi' : ∃ c r, info h e = Some (c, r)) by (rewrite Hi; case_decide; eauto).
  destruct Hi' as (c & r & Hi'). rewrite Hi' in Hi.
  destruct (DecrementRef_spec e h c r Hi') as (h' & E & F & X).
  exists h'. split; [done|]. eapply sim_count; try done; [lia| |].
  - intros z Hz. by apply hook_eq; apply F.
  - case_decide; injection Hi as -> ->.
    + destruct (Z.eqb_spec (own e + 1) 1); [lia|]. destruct X as [-> ->]. split; [done|do 2 f_equal; lia].
    + unfold out_info. destruct (Z.eqb_spec (own e) 1); case_decide; try lia.
      * by apply info_None.
      * by destruct X as [_ ->].
Qed.

Lemma push_sim hd h q xs own e :
  sim hd (h, q) (xs, own) → (1 ≤ own e)%Z → e ∉ xs →
  ∃ h' q', push h q (Some e) = Some (h', q') ∧ sim hd (h', q') (xs ++ [e], own).
Proof.
  intros Hs He Hx. destruct (sim_alive _ _ _ _ Hs He) as [Hne Hi]. simpl in Hi.
  rewrite decide_False in Hi by done. destruct Hs as [Hr Hin Hout Hhd]. simpl in *.
  destruct (QueueSpec.push_spec h q hd xs e None (own e) Hr) as (h' & q' & E & R & C & Ie & Ix & F);
    [by apply not_elem_of_cons|done|lia|].
  exists h', q'. split; [done|]. split; simpl; [done| | |done].
  - intros z [Hz| ->%list_elem_of_singleton]%elem_of_app.
    + rewrite Ix, C by done. auto.
    + rewrite Ie, C. split; [lia|done].
  - intros z Hz [Hzx Hze]%not_elem_of_app. apply not_elem_of_cons in Hze as [Hze _].
    rewrite (info_ne h h'); [auto|]. apply F. rewrite !not_elem_of_cons. auto.
Qed.

Lemma pop_sim hd h q x r own :
  sim hd (h, q) (x :: r, own) →
  ∃ h' q', pop h q = Some (h', q', Some x) ∧ sim hd (h', q') (r, own).
Proof.
  intros Hs. destruct (sim_in _ _ _ Hs x) as [_ Hi]; [left|]. simpl in Hi.
  destruct (QueueSpec.pop_spec h q hd x r _ (sim_rep _ _ _ Hs) Hi) as (h' & q' & E & R & C & X & I & F).
  exists h', q'. split; [done|]. by eapply (sim_remove _ _ _ _ _ _ _ [] x r Hs).
Qed.

Lemma erase_sim hd h q xs own e :
  sim hd (h, q) (xs, own) → (1 ≤ own e)%Z →
  if decide (e ∈ xs)
  then ∃ h' q', erase h q (Some e) = Some (h', q', true) ∧ sim hd (h', q') (filter (.≠ e) xs, own)
  else erase h q (Some e) = Some (h, q, false).
Proof.
  intros Hs He. destruct (sim_alive _ _ _ _ Hs He) as [Hne Hi]. simpl in Hi.
  case_decide as Hin.
  - apply list_elem_of_split in Hin as (a & b & ->).
    destruct (QueueSpec.erase_spec h q hd a e b _ (sim_rep _ _ _ Hs) Hi) as (h' & q' & E & R & C & X & I & F).
    exists h', q'. split; [done|].
    pose proof (rep_nodup _ _ _ _ (sim_rep _ _ _ Hs)) as [_ (_ & Hn & [Hb _]%NoDup_cons)%NoDup_app]%NoDup_cons.
    rewrite filter_ne_app; [|intros Ha; apply (Hn e Ha); left|done].
    by eapply (sim_remove _ _ _ _ _ _ _ a e b Hs).
  - eapply QueueSpec.erase_miss; [done|]. destruct (rep_check _ _ _ _ (sim_rep _ _ _ Hs)) as [c Hc].
    simpl in Hc. congruence.
Qed.

Lemma empty_sim hd h q xs : rep h q hd xs → empty q = bool_decide (xs = []).
Proof.
  intros Hr. unfold empty. apply bool_decide_ext. split.
  - intros He. destruct xs; [done|]. destruct (rep_nonempty _ _ _ _ Hr); [done|]. done.
  - intros ->. symmetry. by apply (rep_empty h q hd).
Qed.

Lemma step_sim hd s a o r a' :
  sim hd s a → spec_step hd a o = Some (r, a') →
  ∃ s', conc_step hd s o = Some (r, s') ∧ sim hd s' a'.
Proof.
  destruct s as [h q], a as [xs own]. intros Hs Ho. pose proof (sim_rep _ _ _ Hs) as Hr. simpl in Hr.
  destruct o as [e|e|e|e| |e| |]; simpl in Ho; [|simpl; try (case_decide as Hd; [|done])..].
  - destruct (decide (e = hd ∨ own e ≠ 0%Z ∨ e ∈ xs)) as [|Hd]; [done|].
    assert (Hd' : e ≠ hd ∧ own e = 0%Z ∧ e ∉ xs).
    { split_and!; [tauto|destruct (decide (own e = 0%Z)); tauto|tauto]. }
    destruct Hd' as (H1 & H2 & H3). injection Ho as <- <-.
    destruct (alloc_sim hd h q xs own e Hs H1 H2 H3) as [Hn Hs'].
    simpl. rewrite decide_False; [eauto|]. rewrite Hn. intros [->|[? [=]]]. done.
  - injection Ho as <- <-. destruct (retain_sim _ _ _ _ _ _ Hs Hd) as (h' & -> & ?). simpl. eauto.
  - injection Ho as <- <-. destruct (release_sim _ _ _ _ _ _ Hs Hd) as (h' & -> & ?). simpl. eauto.
  - injection Ho as <- <-. destruct Hd as [Hd Hx]. destruct (push_sim _ _ _ _ _ _ Hs Hd Hx) as (h' & q' & -> & ?).
    simpl. eauto.
  - destruct xs as [|x xs]; injection Ho as <- <-.
    + rewrite (QueueSpec.pop_nil _ _ _ Hr). simpl. eauto.
    + destruct (pop_sim _ _ _ _ _ _ Hs) as (h' & q' & -> & ?). simpl. eauto.
  - pose proof (erase_sim _ _ _ _ _ _ Hs Hd) as He. case_decide; injection Ho as <- <-.
    + destruct He as (h' & q' & -> & ?). simpl. eauto.
    + rewrite He. simpl. eauto.
  - injection Ho as <- <-. unfold size. rewrite (rep_count _ _ _ _ Hr). eauto.
  - injection Ho as <- <-. rewrite (empty_sim _ _ _ _ Hr). eauto.
Qed.

Lemma exec_sim hd os : ∀ s a rs a',
  sim hd s a → exec (spec_step hd) a os = Some (rs, a') →
  ∃ s', exec (conc_step hd) s os = Some (rs, s') ∧ sim hd s' a'.
Proof.
  induction os as [|o os IH]; simpl; intros s a rs a' Hs He.
  - injection He as <- <-. eauto.
  - destruct (spec_step hd a o) as [[r a1]|] eqn:E1; [|done]. simpl in He.
    destruct (exec (spec_step hd) a1 os) as [[rs1 a2]|] eqn:E2; [|done]. injection He as <- <-.
    destruct (step_sim _ _ _ _ _ _ Hs E1) as (s1 & -> & Hs1).
    destruct (IH _ _ _ _ Hs1 E2) as (s2 & E3 & Hs2). exists s2. simpl. by rewrite E3.
Qed.

(** C1: the task queue refines a FIFO list with random removal, for every sequence of
    operations on a new queue.  When the clients follow the ownership discipline (an operation
    takes only hooks on which they hold a reference, and a hook is pushed when it is not
    queued), no operation dereferences a null or freed pointer, every operation returns what
    the list returns ([pop] the oldest hook, [erase] whether the hook was queued, [size] the
    length modulo 2^64), and at the end a hook is in the heap exactly when a client or the
    queue owns it, with a reference count equal to the number of its owners. *)
Theorem TSQueue_refines_list (hd this : loc) (os : list op) rs xs own :
  exec (spec_step hd) ([], λ _, 0%Z) os = Some (rs, (xs, own)) →
  ∃ h q, exec (conc_step hd) (new hd this ∅) os = Some (rs, (h, q)) ∧
    rep h q hd xs ∧
    ∀ z, z ≠ hd →
      reference_ <$> h !! z =
        (let n := (own z + if decide (z ∈ xs) then 1 else 0)%Z in if (n =? 0)%Z then None else Some n).
Proof.
  intros He. destruct (exec_sim hd os _ _ _ _ (sim_init hd this) He) as ([h q] & E & Hs).
  exists h, q. split; [done|]. split; [apply Hs|]. intros z Hz.
  assert (Hr : reference_ <$> h !! z = snd <$> info h z) by (unfold info; by destruct (h !! z)).
  rewrite Hr. case_decide as Hin.
  - destruct (sim_in _ _ _ Hs z Hin) as [Hge Hi]. simpl in *. rewrite Hi. simpl.
    by destruct (Z.eqb_spec (own z + 1) 0); [lia|].
  - destruct (sim_out _ _ _ Hs z Hz Hin) as [Hge Hi]. simpl in *. rewrite Hi, Z.add_0_r.
    destruct (Z.eqb_spec (own z) 0); [by rewrite decide_True|by rewrite decide_False].
Qed.

Lemma TSQueue_refines_list_witness :
  ∃ h q, exec (conc_step 1) (new 1 9 ∅)
           [Alloc 2; Alloc 3; Alloc 4; Push 2; Push 3; Push 4; Erase 3; Release 2; Pop; Size]
         = Some ([OUnit; OUnit; OUnit; OUnit; OUnit; OUnit; OBool true; OUnit; OPtr (Some 2%positive); OSize 1], (h, q))
         ∧ rep h q 1 [4%positive] ∧ h !! 2%positive = None.
Proof.
  destruct (TSQueue_refines_list 1 9
     [Alloc 2; Alloc 3; Alloc 4; Push 2; Push 3; Push 4; Erase 3; Release 2; Pop; Size] _ _ _ eq_refl)
    as (h & q & E & R & F).
  exists h, q. split; [exact E|]. split; [exact R|].
  specialize (F 2%positive ltac:(done)). destruct (h !! 2%positive); done.
Defined.

End Refinement.

(** ** Lists of hooks that leave a queue *)
Module Transfer.
Import TSQueue.

Lemma lrep_nil h : lrep h SList.nil [].
Proof. split; simpl; try done; [apply NoDup_nil_2|by intros x ?%elem_of_nil]. Qed.

Lemma frame_refl D h : frame D h h.
Proof. by intros z _. Qed.

(** What a call that cuts the list [ys] out of the queue and leaves [xs'] guarantees. *)
Definition cuts (hd : loc) (xs xs' ys : list loc) (h : heap) (q : t) (r : option (heap * t * SList.t)) : Prop :=
  ∃ h' q' l, r = Some (h', q', l) ∧ rep h' q' hd xs' ∧ lrep h' l ys ∧
    (if decide (ys = []) then l = SList.nil else SList.check l = check q) ∧ check q' = check q ∧
    (∀ z, info h' z = info h z) ∧ frame (hd :: xs) h h'.

Lemma cuts_nil hd h q : rep h q hd [] → cuts hd [] [] [] h q (Some (h, q, SList.nil)).
Proof. intros Hr. exists h, q, SList.nil. split_and!; [done|done|apply lrep_nil|done|done|done|apply frame_refl]. Qed.

Lemma pop_front_cuts hd h q xs n :
  rep h q hd xs → cuts hd xs (drop (Nat.max 1 n) xs) (take (Nat.max 1 n) xs) h q (pop_front h q n).
Proof.
  intros Hr. destruct (decide (xs = [])) as [->|Hne].
  - rewrite drop_nil, take_nil. unfold pop_front. rewrite bool_decide_true by (by rewrite (rep_empty _ _ _ Hr)).
    by apply cuts_nil.
  - destruct (QueueSpec.pop_front_cut h q hd xs n Hr Hne) as (h' & q' & E & R & L & K & I & F).
    eexists _, _, _. split_and!; [exact E|done|done| |done|done|done].
    by rewrite decide_False by (intros He; apply (f_equal length) in He; rewrite length_take in He; destruct xs; simpl in *; lia || done).
Qed.

Lemma pop_back_cuts hd h q xs n :
  rep h q hd xs →
  cuts hd xs (take (length xs - Nat.max 1 n) xs) (drop (length xs - Nat.max 1 n) xs) h q (pop_back h q n).
Proof.
  intros Hr. destruct (decide (xs = [])) as [->|Hne].
  - rewrite drop_nil, take_nil. unfold pop_back. rewrite bool_decide_true by (by rewrite (rep_empty _ _ _ Hr)).
    by apply cuts_nil.
  - destruct (QueueSpec.pop_back_cut h q hd xs n Hr Hne) as (h' & q' & E & R & L & K & I & F).
    eexists _, _, _. split_and!; [exact E|done|done| |done|done|done].
    by rewrite decide_False by (intros He; apply (f_equal length) in He; rewrite length_drop in He; destruct xs; simpl in *; lia || done).
Qed.

Lemma pop_all_cuts hd h q xs :
  rep h q hd xs → (Z.of_nat (length xs) < 2 ^ 64)%Z → cuts hd xs [] xs h q (pop_all h q).
Proof.
  intros Hr Hlen. destruct (decide (xs = [])) as [->|Hne].
  - unfold pop_all. rewrite bool_decide_true by (by rewrite (rep_empty _ _ _ Hr)). by apply cuts_nil.
  - destruct (QueueSpec.pop_all_cut h q hd xs Hr Hne) as (h' & q' & E & R & L & K & I & F).
    rewrite (rep_count _ _ _ _ Hr), u64_small in E by lia.
    eexists _, _, _. split_and!; [exact E|done|done| |done|done|done].
    by rewrite decide_False by (done).
Qed.

(** The three bulk pops never dereference a null pointer and split the queue: [pop_front n]
    removes the first [max 1 n] hooks (all when there are fewer; [n = 0] still removes one),
    [pop_back n] the last [max 1 n], [pop_all] everything; the removed hooks form, in the same
    order, a well-formed detached list whose size is their number and whose tag is the
    queue's; the rest stays a well-formed queue; no reference count changes and no other
    hook of the heap is touched. *)
Theorem TSQueue_bulk_pop hd h q xs n :
  rep h q hd xs → (Z.of_nat (length xs) < 2 ^ 64)%Z →
  cuts hd xs (drop (Nat.max 1 n) xs) (take (Nat.max 1 n) xs) h q (pop_front h q n) ∧
  cuts hd xs (take (length xs - Nat.max 1 n) xs) (drop (length xs - Nat.max 1 n) xs) h q (pop_back h q n) ∧
  cuts hd xs [] xs h q (pop_all h q).
Proof. auto using pop_front_cuts, pop_back_cuts, pop_all_cuts. Qed.

(** A concrete queue with two hooks, for the witnesses. *)
Definition q2_heap : heap :=
  <[1%positive := Hook None (Some 2%positive) None 1]> (<[2%positive := Hook (Some 1%positive) (Some 3%positive) (Some 9%positive) 2]>
  (<[3%positive := Hook (Some 2%positive) None (Some 9%positive) 2]> (<[4%positive := Hook None None None 1]> ∅))).
Definition q2 : t := mk (Some 1%positive) (Some 3%positive) 2 (Some 9%positive).

Lemma q2_rep : rep q2_heap q2 1 [2; 3]%positive.
Proof.
  split; simpl; try done.
  - repeat (apply NoDup_cons; split; [set_solver|]). apply NoDup_nil_2.
  - intros x [->|[->|[]%elem_of_nil]%elem_of_cons]%elem_of_cons; exists 2%Z; split; done || lia.
Qed.

Lemma TSQueue_bulk_pop_witness :
  ∃ h' q' l, pop_front q2_heap q2 1 = Some (h', q', l) ∧ rep h' q' 1 [3%positive] ∧ lrep h' l [2%positive].
Proof.
  destruct (TSQueue_bulk_pop 1 q2_heap q2 [2; 3]%positive 1 q2_rep ltac:(simpl; lia))
    as [(h' & q' & l & E & R & L & _) _]. exists h', q', l. split; [exact E|]. split; [exact R|exact L].
Defined.

(** C2: stealing ([pop_back(n)] on the victim, then [push(SList&&)] on the thief, as
    [Processer::StealHalf] does; all the runnable lists carry the same tag [&s_id_]) moves the
    last [max 1 n] tasks of the victim to the end of the thief's list in order: no task is
    lost, duplicated or reordered, both queues stay well formed with the right sizes, no
    reference count changes, and the list handed over is left empty. *)
Theorem TSQueue_steal h q1 q2 hd1 hd2 xs1 xs2 n :
  rep h q1 hd1 xs1 → rep h q2 hd2 xs2 → (∀ z, z ∈ hd1 :: xs1 → z ∉ hd2 :: xs2) →
  check q1 = check q2 →
  ∃ h' q1' l h'' q2', pop_back h q1 n = Some (h', q1', l) ∧ push_list h' q2 l = Some (h'', q2', SList.nil) ∧
    rep h'' q1' hd1 (take (length xs1 - Nat.max 1 n) xs1) ∧
    rep h'' q2' hd2 (xs2 ++ drop (length xs1 - Nat.max 1 n) xs1) ∧
    (∀ z, info h'' z = info h z) ∧ frame ((hd1 :: xs1) ++ hd2 :: xs2) h h''.
Proof.
  intros R1 R2 Hd Hk. destruct (pop_back_cuts hd1 h q1 xs1 n R1) as (h' & q1' & l & E1 & R1' & L & Kl & Kq & I1 & F1).
  assert (R2' : rep h' q2 hd2 xs2).
  { eapply Refinement.rep_weak_links; [done|]. intros z Hz. apply F1. intros Hz'. by apply (Hd z). }
  set (ys := drop (length xs1 - Nat.max 1 n) xs1) in *. set (zs := take (length xs1 - Nat.max 1 n) xs1) in *.
  assert (Hsub : ∀ z, z ∈ ys → z ∈ xs1) by (intros z Hz; exact (subseteq_drop _ xs1 z Hz)).
  assert (Hsub' : ∀ z, z ∈ hd1 :: zs → z ∈ hd1 :: xs1 ∧ z ∉ ys).
  { pose proof (rep_nodup _ _ _ _ R1) as Hn. replace xs1 with (zs ++ ys) in * by apply take_drop.
    change (hd1 :: zs ++ ys) with ((hd1 :: zs) ++ ys) in *. apply NoDup_app in Hn as (_ & Hn & _).
    intros z Hz. split; [apply elem_of_app; by left|by apply Hn]. }
  clearbody ys zs. destruct (decide (ys = [])) as [->|Hne].
  - exists h', q1', l, h', q2. split_and!; [done| |done|by rewrite app_nil_r|done|].
    + unfold push_list, SList.empty. rewrite (lrep_head _ _ _ L). rewrite bool_decide_true by done.
      by rewrite Kl.
    + intros z Hz. apply F1. intros Hz'. apply Hz, elem_of_app. by left.
  - destruct (QueueSpec.push_list_join h' q2 hd2 xs2 l ys R2' L Hne) as (h'' & q2' & E2 & R2'' & K2 & I2 & F2).
    { by rewrite Kl. }
    { intros z Hz. apply Hd. right. auto. }
    exists h', q1', l, h'', q2'. split_and!; [done|done| |done|intros z; by rewrite I2|].
    + eapply Refinement.rep_weak_links; [done|]. intros z Hz. apply F2. destruct (Hsub' z Hz) as [Hz1 Hz2].
      change (z ∉ (hd2 :: xs2) ++ ys). intros [Hz'|Hz']%elem_of_app; [by apply (Hd z)|done].
    + intros z Hz. rewrite F2, F1; [done| |].
      * intros Hz'. apply Hz, elem_of_app. by left.
      * intros Hz'. apply Hz, elem_of_app. change (z ∈ (hd2 :: xs2) ++ ys) in Hz'.
        apply elem_of_app in Hz' as [Hz'|Hz']; [by right|left; right; auto].
Qed.

Definition q3_heap : heap := <[5%positive := Hook None None None 1]> q2_heap.
Definition q3 : t := mk (Some 5%positive) (Some 5%positive) 0 (Some 9%positive).

Lemma TSQueue_steal_witness :
  ∃ h' q1' l h'' q2', pop_back q3_heap q2 1 = Some (h', q1', l) ∧ push_list h' q3 l = Some (h'', q2', SList.nil) ∧
    rep h'' q1' 1 [2%positive] ∧ rep h'' q2' 5 [3%positive].
Proof.
  assert (R2 : rep q3_heap q2 1 [2; 3]%positive).
  { eapply Refinement.rep_weak_links; [exact q2_rep|]. intros z Hz. unfold q3_heap.
    rewrite lookup_insert_ne; [done|]. intros <-. set_solver. }
  assert (R3 : rep q3_heap q3 5 []).
  { split; simpl; try done; [apply NoDup_singleton|by intros x ?%elem_of_nil]. }
  destruct (TSQueue_steal q3_heap q2 q3 1 5 [2; 3]%positive [] 1 R2 R3 ltac:(set_solver) eq_refl)
    as (h' & q1' & l & h'' & q2' & E1 & E2 & H1 & H2 & _).
  exists h', q1', l, h'', q2'. split; [exact E1|]. split; [exact E2|]. split; [exact H1|exact H2].
Defined.

(** Clearing a detached list walks it exactly once, gives up one reference of every hook in
    it (a hook whose only owner was the list is freed, another one comes back with null links and
    a null tag), leaves the list empty and touches nothing else.  Destroying a queue gives up one
    reference of every hook and deletes the sentinel, and touches nothing else; a hook with another
    owner keeps the links and the tag it had. *)
Theorem SList_clear_releases :
  (∀ h l xs, lrep h l xs → (Z.of_nat (length xs) < 2 ^ 64)%Z →
   ∃ h', SList.clear (length xs) h l = Some (h', SList.nil) ∧ frame xs h h' ∧
     ∀ x k, x ∈ xs → info h x = Some (SList.check l, k) →
       h' !! x = (if (k =? 1)%Z then None else Some (Hook None None None (k - 1)))) ∧
  (∀ h q hd xs, rep h q hd xs →
   ∃ h', destroy (length xs) h q = Some h' ∧ frame (hd :: xs) h h' ∧ h' !! hd = None ∧
     ∀ x k, x ∈ xs → info h x = Some (check q, k) →
       if (k =? 1)%Z then h' !! x = None else links h' x = links h x ∧ info h' x = Some (check q, (k - 1)%Z)).
Proof.
  split; [intros h l xs; apply QueueSpec.slist_clear_spec|].
  intros h q hd xs [Hh Ht Hs Hn _ _ _ Ho].
  destruct (QueueSpec.destroy_spec xs h q hd None Hh Ht Hs Hn) as (h' & E & F & D & X).
  - intros x Hx. destruct (Ho x Hx) as (r & Hr & _). apply info_is_Some. by rewrite Hr.
  - exists h'. split_and!; [done..|]. intros x k. apply X.
Qed.

Lemma SList_clear_releases_witness :
  let h := (<[1%positive := Hook None None (Some 9%positive) 1]> ∅ : heap) in
  ∃ h', SList.clear 1 h (SList.mk (Some 1%positive) (Some 1%positive) 1 (Some 9%positive)) = Some (h', SList.nil) ∧
        h' !! 1%positive = None.
Proof.
  intros h. destruct (proj1 SList_clear_releases h (SList.mk (Some 1%positive) (Some 1%positive) 1 (Some 9%positive)) [1%positive])
    as (h' & E & _ & X).
  - split; simpl; try done; [apply NoDup_singleton|].
    intros x ->%list_elem_of_singleton. exists 1%Z. split; done.
  - simpl. lia.
  - exists h'. split; [exact E|]. apply (X 1%positive 1%Z); [left|done].
Defined.

End Transfer.
