(* ===== verification/SkipQueue.v ===== *)
(** * The skip queue (libgo/ts_queue.h, [TSSkipQueue])

    A queue of hooks with a layer of indexes: [indexs_] holds the hooks that sit
    [SkipDistance] apart, so that [pop_front(n)] finds the [n]-th hook by jumping.  The chain
    of hooks is the one of TsQueue.v; what is new is the arithmetic of the layer, whose
    invariant is [layer_ok]: the hooks are numbered from [head_offset_ + 1], and the indexes
    are the multiples of [SkipDistance].  Sizes and offsets are [nat]: every subtraction of the
    code is of a smaller number from a larger one when the invariant holds. *)
From S2P Require Import Prelude TsQueue TsQueueSpec.

Module TSSkipQueue.

(*@ libgo/libgo/ts_queue.h 297-302 TSSkipQueue::SkipLayer *)
Record SkipLayer := Layer { indexs_ : list ptr; head_offset_ : nat; tail_offset_ : nat }.

(*@ libgo/libgo/ts_queue.h 284-304 TSSkipQueue *)
Record t := mk { head_ : ptr; tail_ : ptr; count_ : Z; this : ptr; skip_layer_ : SkipLayer }.

(** The fields shared with [TSQueue]. *)
Definition base (q : t) : TSQueue.t := TSQueue.mk (head_ q) (tail_ q) (count_ q) (this q).

Section Distance.
Variable SkipDistance : nat.

(*@ libgo/libgo/ts_queue.h 307-311 TSSkipQueue::TSSkipQueue *)
Definition new (sentinel self : loc) (h : heap) : heap * t :=
  (<[sentinel := Hook None None None 1]> h,
   mk (Some sentinel) (Some sentinel) 0 (Some self) (Layer [] 0 0)).

(*@ libgo/libgo/ts_queue.h 325-329 TSSkipQueue::empty *)
Definition empty (q : t) : bool := bool_decide (head_ q = tail_ q).

(*@ libgo/libgo/ts_queue.h 331-335 TSSkipQueue::size *)
Definition size (q : t) : Z := count_ q.

(*@ libgo/libgo/ts_queue.h 337-355 TSSkipQueue::push *)
Definition push (h : heap) (q : t) (element : ptr) : option (heap * t) :=
  h1 ← store (tail_ q) (set_next element) h;
  h2 ← store element (set_prev (tail_ q)) h1;
  h3 ← store element (set_next None) h2;
  h4 ← store element (set_check (this q)) h3;
  h5 ← IncrementRef element h4;
  let l := skip_layer_ q in
  let l' := if S (tail_offset_ l) =? SkipDistance
            then Layer (indexs_ l ++ [element]) (head_offset_ l) 0
            else Layer (indexs_ l) (head_offset_ l) (S (tail_offset_ l)) in
  Some (h5, mk (head_ q) element (u64 (count_ q + 1)) (this q) l').

(** The part of [pop_front] that updates the layer: the hook to start from (when an index was
    used), the number of steps left, and the new layer.  [None] is an index out of range. *)
(*@ libgo/libgo/ts_queue.h 365-386 TSSkipQueue::pop_front *)
Definition skip (l : SkipLayer) (first : ptr) (count n : nat) : option (ptr * nat * SkipLayer) :=
  if n <? SkipDistance - head_offset_ l then
    Some (first, n - 1, Layer (indexs_ l) (head_offset_ l + n) (tail_offset_ l))
  else match indexs_ l with
  | [] => Some (first, n - 1, Layer [] (head_offset_ l) (count - n))
  | _ =>
      let forward := (n + head_offset_ l - SkipDistance) / SkipDistance in
      let next_step := Nat.land (n + head_offset_ l - SkipDistance) (SkipDistance - 1) in
      last ← indexs_ l !! forward;
      let rest := drop (S forward) (indexs_ l) in
      Some (last, next_step,
            match rest with
            | [] => Layer [] 0 (count - n)
            | _ => Layer rest next_step (tail_offset_ l)
            end)
  end.

(** [for (i = 0; i < next_step; ++i) last = last->next;] *)
(*@ libgo/libgo/ts_queue.h 388-389 TSSkipQueue::pop_front *)
Fixpoint walk (h : heap) (last : ptr) (steps : nat) : option ptr :=
  match steps with
  | O => Some last
  | S k => n ← deref h last; walk h (next n) k
  end.

(*@ libgo/libgo/ts_queue.h 357-397 TSSkipQueue::pop_front *)
Definition pop_front (h : heap) (q : t) (n : nat) : option (heap * t * SList.t) :=
  if bool_decide (head_ q = tail_ q) || (n =? 0) then Some (h, q, SList.nil)
  else
    hn ← deref h (head_ q);
    let first := next hn in
    let n := Nat.min n (Z.to_nat (count_ q)) in
    '(last, next_step, l') ← skip (skip_layer_ q) first (Z.to_nat (count_ q)) n;
    last ← walk h last next_step;
    let tail' := if bool_decide (last = tail_ q) then head_ q else tail_ q in
    ln ← deref h last;
    h1 ← store (head_ q) (set_next (next ln)) h;
    ln ← deref h1 last;
    h2 ← match next ln with
         | Some _ => store (next ln) (set_prev (head_ q)) h1
         | None => Some h1
         end;
    h3 ← store last (set_next None) h2;
    h4 ← store first (set_prev None) h3;
    Some (h4, mk (head_ q) tail' (u64 (count_ q - Z.of_nat n)) (this q) l',
          SList.mk first last (Z.of_nat n) (this q)).

(** ** The invariant of the layer *)
Record layer_ok (l : SkipLayer) (xs : list loc) : Prop := LayerOk {
  lo_head : head_offset_ l < SkipDistance;
  lo_tail : tail_offset_ l = (head_offset_ l + length xs) mod SkipDistance;
  lo_len : length (indexs_ l) = (head_offset_ l + length xs) / SkipDistance;
  lo_index : ∀ j, j < length (indexs_ l) →
    indexs_ l !! j = Some (xs !! (S j * SkipDistance - head_offset_ l - 1));
}.

Definition skip_rep (h : heap) (q : t) (hd : loc) (xs : list loc) : Prop :=
  rep h (base q) hd xs ∧ layer_ok (skip_layer_ q) xs.

Context (HS : 0 < SkipDistance).

Lemma divmod_step a :
  (if S (a mod SkipDistance) =? SkipDistance then S a mod SkipDistance = 0 ∧ S a / SkipDistance = S (a / SkipDistance)
   else S a mod SkipDistance = S (a mod SkipDistance) ∧ S a / SkipDistance = a / SkipDistance).
Proof.
  pose proof (Nat.div_mod_eq a SkipDistance) as E. pose proof (Nat.mod_upper_bound a SkipDistance ltac:(lia)).
  set (d := a / SkipDistance) in *. set (m := a mod SkipDistance) in *.
  destruct (Nat.eqb_spec (S m) SkipDistance) as [Hm|Hm].
  - rewrite (Nat.mod_unique (S a) SkipDistance (S d) 0), (Nat.div_unique (S a) SkipDistance (S d) 0); lia.
  - rewrite (Nat.mod_unique (S a) SkipDistance d (S m)), (Nat.div_unique (S a) SkipDistance d (S m)); lia.
Qed.

Lemma layer_push l xs e :
  layer_ok l xs →
  layer_ok (if S (tail_offset_ l) =? SkipDistance
            then Layer (indexs_ l ++ [Some e]) (head_offset_ l) 0
            else Layer (indexs_ l) (head_offset_ l) (S (tail_offset_ l))) (xs ++ [e]).
Proof.
  intros [H1 H2 H3 H4]. pose proof (divmod_step (head_offset_ l + length xs)) as D.
  pose proof (Nat.div_mod_eq (head_offset_ l + length xs) SkipDistance) as E.
  rewrite <- H2, <- H3 in *.
  assert (Hold : ∀ j, j < length (indexs_ l) →
            indexs_ l !! j = Some ((xs ++ [e]) !! (S j * SkipDistance - head_offset_ l - 1))).
  { intros j Hj. rewrite H4, lookup_app_l; [done| |done]. nia. }
  destruct (S (tail_offset_ l) =? SkipDistance) eqn:Et; destruct D as [D1 D2];
    split; simpl; rewrite ?length_app; simpl; rewrite ?Nat.add_1_r, <- ?plus_n_Sm, ?D1, ?D2; try done || lia.
  apply Nat.eqb_eq in Et. intros j Hj. destruct (decide (j < length (indexs_ l))) as [Hj'|Hj'].
  - rewrite lookup_app_l by done. rewrite Hold; [done|lia].
  - assert (j = length (indexs_ l)) as -> by lia. rewrite list_lookup_middle by done. f_equal.
    rewrite lookup_app_r by nia. replace (_ - length xs) with 0 by nia. done.
Qed.

(** The layer finds the [n]-th hook: the starting hook is at most [n] hooks from the front,
    the remaining steps lead to the [n]-th, and the new layer fits the hooks that stay. *)
Lemma skip_ok l xs n first k :
  SkipDistance = 2 ^ k → layer_ok l xs → 1 ≤ n ≤ length xs → first = xs !! 0 →
  ∃ i steps l', skip l first (length xs) n = Some (xs !! i, steps, l') ∧ i + steps = n - 1 ∧
    layer_ok l' (drop n xs).
Proof.
  intros Hk [H1 H2 H3 H4] Hn ->. unfold skip.
  pose proof (Nat.div_mod_eq (head_offset_ l + length xs) SkipDistance) as E.
  pose proof (Nat.mod_upper_bound (head_offset_ l + length xs) SkipDistance ltac:(lia)) as Em.
  rewrite <- H2 in E, Em. rewrite <- H3 in E.
  destruct (Nat.ltb_spec n (SkipDistance - head_offset_ l)) as [Hlt|Hge].
  - eexists 0, (n - 1), _. split; [done|]. split; [lia|].
    split; simpl; rewrite ?length_drop; [lia|..].
    + rewrite H2. f_equal. lia.
    + rewrite H3. f_equal. lia.
    + intros j Hj. rewrite H4, lookup_drop by done. do 2 f_equal. nia.
  - destruct (indexs_ l) as [|i0 idx] eqn:Ei; [simpl in E; lia|]. rewrite <- Ei in *. clear i0 idx Ei.
    set (m := n + head_offset_ l - SkipDistance).
    replace (SkipDistance - 1) with (Nat.ones k) by (rewrite Nat.ones_equiv; lia).
    rewrite Nat.land_ones, <- Hk.
    pose proof (Nat.div_mod_eq m SkipDistance) as Ef. pose proof (Nat.mod_upper_bound m SkipDistance ltac:(lia)) as Ebd.
    set (f := m / SkipDistance) in *. set (s := m mod SkipDistance) in *.
    assert (Hf : f < length (indexs_ l)) by nia.
    rewrite H4 by done. simpl. eexists _, s, _. split; [reflexivity|]. split; [nia|].
    assert (Hlen : length (drop (S f) (indexs_ l)) = length (indexs_ l) - S f) by apply length_drop.
    assert (Hdrop : length (drop n xs) = length xs - n) by apply length_drop.
    destruct (drop (S f) (indexs_ l)) as [|i0 idx] eqn:Ed.
    + simpl in Hlen. assert (Hfl : length (indexs_ l) = S f) by lia. rewrite Hfl in E.
      split; simpl; rewrite ?Hdrop; [lia|..].
      * rewrite Nat.mod_small by nia. done.
      * rewrite Nat.div_small by nia. done.
      * lia.
    + rewrite <- Ed in *. clear Ed i0 idx. split; simpl; rewrite ?Hdrop, ?Hlen.
      * lia.
      * apply (Nat.mod_unique _ _ (length (indexs_ l) - S f)); nia.
      * apply (Nat.div_unique _ _ _ (tail_offset_ l)); nia.
      * intros j Hj. rewrite lookup_drop, H4, lookup_drop by lia. do 2 f_equal. nia.
Qed.

(** ** The operations, on top of the chain of TsQueue.v *)
Lemma push_base h q e h' q0 :
  TSQueue.push h (base q) e = Some (h', q0) →
  ∃ q', push h q e = Some (h', q') ∧ base q' = q0 ∧
    skip_layer_ q' = (let l := skip_layer_ q in
                      if S (tail_offset_ l) =? SkipDistance
                      then Layer (indexs_ l ++ [e]) (head_offset_ l) 0
                      else Layer (indexs_ l) (head_offset_ l) (S (tail_offset_ l))).
Proof.
  unfold TSQueue.push, push. simpl.
  destruct (store (tail_ q) _ h) as [h1|]; [simpl|done]. destruct (store e _ h1) as [h2|]; [simpl|done].
  destruct (store e _ h2) as [h3|]; [simpl|done]. destruct (store e _ h3) as [h4|]; [simpl|done].
  destruct (IncrementRef e h4) as [h5|]; [simpl|done]. intros [= <- <-].
  eexists. split; [reflexivity|]. done.
Qed.

Lemma seg_lookup_next h p xs i x :
  seg h p xs None → xs !! i = Some x → ∃ xn, h !! x = Some xn ∧ next xn = xs !! S i.
Proof.
  revert p i. induction xs as [|y xs IH]; intros p i; [done|]. intros [Hy Hs] Hx.
  destruct i as [|i]; simpl in Hx.
  - injection Hx as ->. destruct (links_deref _ _ _ _ Hy) as (xn & Dx & _ & Nx).
    exists xn. split; [done|]. rewrite Nx. by destruct xs.
  - by apply (IH (Some y)).
Qed.

Lemma walk_spec h p xs i k :
  seg h p xs None → i + k < length xs → walk h (xs !! i) k = Some (xs !! (i + k)).
Proof.
  intros Hs. revert i. induction k as [|k IH]; intros i Hlt; simpl.
  - by rewrite Nat.add_0_r.
  - destruct (lookup_lt_is_Some_2 xs i) as [x Hx]; [lia|].
    destruct (seg_lookup_next _ _ _ _ _ Hs Hx) as (xn & Dx & Nx).
    rewrite Hx, deref_Some, Dx. simpl. rewrite Nx, IH by lia. do 2 f_equal. lia.
Qed.

(** Once the [n]-th hook is found, the rest is [TSQueue::pop_front]. *)
Lemma pop_front_base h q n hn last0 steps l' last h' q0 ls :
  head_ q ≠ tail_ q → n ≠ 0 → deref h (head_ q) = Some hn →
  let n' := Nat.min n (Z.to_nat (count_ q)) in
  skip (skip_layer_ q) (next hn) (Z.to_nat (count_ q)) n' = Some (last0, steps, l') →
  walk h last0 steps = Some last →
  TSQueue.forward h (next hn) 1 (n' - 1) = Some (last, n') →
  TSQueue.pop_front h (base q) n' = Some (h', q0, ls) →
  ∃ q', pop_front h q n = Some (h', q', ls) ∧ base q' = q0 ∧ skip_layer_ q' = l'.
Proof.
  intros Hne Hn Hd n' Hsk Hw Hf. unfold TSQueue.pop_front, pop_front. simpl.
  rewrite !bool_decide_false by done. rewrite (proj2 (Nat.eqb_neq n 0)) by done. simpl.
  rewrite Hd. simpl. fold n'. rewrite Hsk. simpl. rewrite Hw. simpl. rewrite Hf. simpl.
  destruct (deref h last) as [ln|]; [simpl|done].
  destruct (store (head_ q) _ h) as [h1|]; [simpl|done]. destruct (deref h1 last) as [ln'|]; [simpl|done].
  destruct (match next ln' with Some _ => _ | None => _ end) as [h2|]; [simpl|done].
  destruct (store last _ h2) as [h3|]; [simpl|done]. destruct (store (next hn) _ h3) as [h4|]; [simpl|done].
  intros [= <- <- <-]. eexists. split; [reflexivity|]. done.
Qed.

Lemma new_ok sentinel self h : h !! sentinel = None →
  skip_rep (new sentinel self h).1 (new sentinel self h).2 sentinel [].
Proof.
  intros _. split.
  - split; simpl; try done.
    + unfold links. by rewrite lookup_insert_eq.
    + apply NoDup_singleton.
    + unfold info. by rewrite lookup_insert_eq.
    + by intros x ?%elem_of_nil.
  - split; simpl; [lia|by rewrite Nat.Div0.mod_0_l|by rewrite Nat.Div0.div_0_l|lia].
Qed.

Lemma push_ok h q hd xs e c r :
  skip_rep h q hd xs → e ∉ hd :: xs → info h e = Some (c, r) → (0 ≤ r)%Z →
  ∃ h' q', push h q (Some e) = Some (h', q') ∧ skip_rep h' q' hd (xs ++ [e]) ∧
    info h' e = Some (this q, (r + 1)%Z) ∧ (∀ z, z ∈ xs → info h' z = info h z) ∧
    frame (e :: hd :: xs) h h'.
Proof.
  intros [Hr Hl] He Hi Hge. destruct (QueueSpec.push_spec h (base q) hd xs e c r Hr He Hi Hge)
    as (h' & q0 & E & R & _ & Ie & Ix & F).
  destruct (push_base _ _ _ _ _ E) as (q' & E' & B & L). exists h', q'. split_and!; try done.
  split; [by rewrite B|]. rewrite L. by apply layer_push.
Qed.

Lemma pop_front_ok k h q hd xs n :
  SkipDistance = 2 ^ k → skip_rep h q hd xs → (Z.of_nat (length xs) < 2 ^ 64)%Z →
  ∃ h' q' l, pop_front h q n = Some (h', q', l) ∧ skip_rep h' q' hd (drop n xs) ∧
    lrep h' l (take n xs) ∧ (∀ z, info h' z = info h z) ∧ frame (hd :: xs) h h'.
Proof.
  intros Hk [Hr Hl] Hlen. pose proof (rep_count _ _ _ _ Hr) as Hc. rewrite u64_small in Hc by lia. simpl in Hc.
  destruct (decide (xs = [] ∨ n = 0)) as [Hz|Hz].
  - exists h, q, SList.nil. assert (drop n xs = xs ∧ take n xs = []) as [-> ->].
    { destruct Hz as [-> | ->]; [by rewrite drop_nil, take_nil|done]. }
    split_and!; [|done|apply Transfer.lrep_nil|done|apply Transfer.frame_refl].
    unfold pop_front. destruct Hz as [-> | ->]; [|by rewrite orb_true_r].
    rewrite bool_decide_true; [done|]. symmetry. apply (rep_empty _ _ _ Hr).
  - assert (Hxs : xs ≠ []) by tauto. assert (Hn : n ≠ 0) by tauto.
    destruct (rep_nonempty _ _ _ _ Hr Hxs) as [Ht Hne]. simpl in Ht, Hne.
    assert (Hlen0 : length xs ≠ 0) by (destruct xs; done).
    set (n' := Nat.min n (length xs)).
    pose proof (rep_seg _ _ _ _ Hr) as [Lhd Hs]. pose proof (rep_head _ _ _ _ Hr) as Hh. simpl in Hh.
    destruct (links_deref _ _ _ _ Lhd) as (hn & Dhd & _ & Nhd).
    assert (Hx0 : next hn = xs !! 0) by (rewrite Nhd; by destruct xs).
    destruct (skip_ok (skip_layer_ q) xs n' (next hn) k Hk Hl ltac:(lia) Hx0) as (i & steps & l' & Es & Hi & Hl').
    destruct (QueueSpec.pop_front_cut h (base q) hd xs n' Hr Hxs) as (h' & q0 & E & R & L & _ & I & F).
    replace (Nat.max 1 n') with n' in * by lia.
    assert (Hdt : drop n' xs = drop n xs ∧ take n' xs = take n xs).
    { unfold n'. destruct (decide (n ≤ length xs)); [by rewrite Nat.min_l by lia|].
      rewrite Nat.min_r by lia. by rewrite !drop_ge, !take_ge by lia. }
    destruct Hdt as [Hd Htk]. rewrite Hd in *. rewrite Htk in *.
    edestruct (pop_front_base h q n hn (xs !! i) steps l' (xs !! (n' - 1)) h' q0) as (q' & E' & B & Lq);
      [exact Hne|exact Hn|..].
    + by rewrite Hh, deref_Some.
    + rewrite Hc, Nat2Z.id. exact Es.
    + rewrite (walk_spec h (Some hd) xs) by (done || lia). do 2 f_equal. lia.
    + rewrite Hc, Nat2Z.id. fold n'. destruct xs as [|x xs]; [done|]. simpl in Hx0. rewrite Hx0.
      rewrite (QueueSpec.forward_spec h (Some hd) x xs 1 (n' - 1) Hs). simpl length in *.
      replace (S (n' - 1)) with n' by lia. f_equal. f_equal; [|lia].
      rewrite last_lookup, length_take, lookup_take_lt by (simpl; lia). f_equal. simpl. lia.
    + rewrite Hc, Nat2Z.id. exact E.
    + eexists h', q', _. split; [exact E'|]. split_and!; [|done|done|done].
      split; [by rewrite B|by rewrite Lq].
Qed.

End Distance.

(** For every power-of-two distance, a skip queue that satisfies the invariant (well-formed
    chain; the indexes are exactly the hooks at the multiples of the distance, counted from
    [head_offset_]) keeps it: [push] appends one hook; [pop_front n] removes exactly the first
    [min n size] hooks in order, although it reaches the last of them through the index layer;
    neither dereferences a null pointer, advances past the end of [indexs_] or changes a
    reference count other than the pushed hook's. *)
Theorem TSSkipQueue_correct k h q hd xs :
  let S := 2 ^ k in
  skip_rep S h q hd xs → (Z.of_nat (length xs) < 2 ^ 64)%Z →
  (∀ e c r, e ∉ hd :: xs → info h e = Some (c, r) → (0 ≤ r)%Z →
     ∃ h' q', push S h q (Some e) = Some (h', q') ∧ skip_rep S h' q' hd (xs ++ [e]) ∧
       info h' e = Some (this q, (r + 1)%Z) ∧ (∀ z, z ∈ xs → info h' z = info h z) ∧
       frame (e :: hd :: xs) h h') ∧
  (∀ n, ∃ h' q' l, pop_front S h q n = Some (h', q', l) ∧ skip_rep S h' q' hd (drop n xs) ∧
     lrep h' l (take n xs) ∧ (∀ z, info h' z = info h z) ∧ frame (hd :: xs) h h').
Proof.
  intros S Hr Hlen. assert (HS : 0 < S) by (pose proof (Nat.pow_nonzero 2 k); lia). split.
  - intros e c r He Hi Hge. by eapply push_ok.
  - intros n. by eapply pop_front_ok.
Qed.

Definition sq2 : t :=
  mk (Some 1%positive) (Some 3%positive) 2 (Some 9%positive) (Layer [Some 3%positive] 0 0).

Lemma TSSkipQueue_correct_witness :
  skip_rep 2 Transfer.q2_heap sq2 1 [2; 3]%positive ∧
  ∃ h' q' l, pop_front 2 Transfer.q2_heap sq2 1 = Some (h', q', l) ∧
    skip_rep 2 h' q' 1 [3%positive] ∧ lrep h' l [2%positive].
Proof.
  assert (Hr : skip_rep 2 Transfer.q2_heap sq2 1 [2; 3]%positive).
  { split; [exact Transfer.q2_rep|]. split; simpl; [lia|done|done|].
    intros [|j] Hj; [done|lia]. }
  split; [exact Hr|].
  destruct (TSSkipQueue_correct 1 Transfer.q2_heap sq2 1%positive [2; 3]%positive Hr ltac:(simpl; lia)) as [_ Hp].
  destruct (Hp 1) as (h' & q' & l & E & R & L & _). exists h', q', l. split; [exact E|]. split; [exact R|exact L].
Defined.

(** Ten hooks, distance 4: popping 6 and then 3 goes through the index layer. *)
Definition q10 : option (heap * t) :=
  foldl (λ s e, '(h, q) ← s; push 4 (<[e := Hook None None None 1]> h) q (Some e))
        (Some (new 1 99 ∅)) [2; 3; 4; 5; 6; 7; 8; 9; 10; 11]%positive.

Example q10_pops :
  ('(h, q) ← q10; '(h, q, l1) ← pop_front 4 h q 6; '(h, q, l2) ← pop_front 4 h q 3;
   Some (SList.head_ l1, SList.tail_ l1, SList.head_ l2, SList.tail_ l2, count_ q,
         indexs_ (skip_layer_ q), head_offset_ (skip_layer_ q), tail_offset_ (skip_layer_ q)))
  = Some (Some 2%positive, Some 7%positive, Some 8%positive, Some 10%positive, 1%Z, [], 0, 1).
Proof. vm_compute. reflexivity. Qed.

End TSSkipQueue.
