(* ===== verification/Timer.v ===== *)
(** * Timers (libgo/timer.h, timer.cpp; libgo/sleep_wait.cpp and Scheduler::DoTimer)

    [CoTimer]: the callback that runs at most once, as a transition system over the threads
    that fire or cancel it.  [CoTimerMgr]: the two deadline maps.  A [std::multimap] is a list
    sorted by its keys, equal keys in insertion order; an iterator kept as a token is the
    identity of the timer, since a timer is inserted once.  Time points are nanoseconds. *)
From S2P Require Import Prelude.
From Stdlib Require Import Sorting.Sorted.

(** ** One timer under concurrent calls *)
Module CoTimer.

(*@ libgo/libgo/timer.h 29-34 CoTimer::e_token_state *)
Inductive e_token_state := none | system | steady.

#[export] Instance e_token_state_eq_dec : EqDecision e_token_state.
Proof. solve_decision. Defined.

(** What a thread does with the timer. *)
Inductive call := Fire | Cancel | BlockCancel.

(** A thread in one of the three calls: before [fn_lock_] is taken, holding it, running the
    callback (still holding it), returned. *)
Inductive pc := Start (c : call) | Locked (c : call) | Running | Returned (c : call) (r : bool).

(*@ libgo/libgo/timer.h 36-45 CoTimer *)
Record shared := Shared { fn_lock_ : option nat; active_ : bool }.

(** Threads are numbered; [None] is a thread outside the timer. *)
Record state := State { sh : shared; pcs : gmap nat pc; runs : nat }.

(** The events an observer sees. *)
Inductive label := Tau | Runs (t : nat) | Returns (t : nat) (c : call) (r : bool).

(*@ libgo/libgo/timer.cpp 20-50 CoTimer::operator(), Cancel, BlockCancel *)
Inductive step : state → label → state → Prop :=
| step_call s ps n t c :
    ps !! t = None →
    step (State s ps n) Tau (State s (<[t := Start c]> ps) n)
| step_lock s ps n t c :
    ps !! t = Some (Start c) → fn_lock_ s = None →
    step (State s ps n) Tau (State (Shared (Some t) (active_ s)) (<[t := Locked c]> ps) n)
| step_try_lock_fails s ps n t c o :
    ps !! t = Some (Start c) → fn_lock_ s = Some o → c ≠ BlockCancel →
    step (State s ps n) (Returns t c false) (State s (<[t := Returned c false]> ps) n)
| step_inactive s ps n t c :
    ps !! t = Some (Locked c) → active_ s = false →
    step (State s ps n) (Returns t c false) (State (Shared None false) (<[t := Returned c false]> ps) n)
| step_fire s ps n t :
    ps !! t = Some (Locked Fire) → active_ s = true →
    step (State s ps n) (Runs t) (State (Shared (fn_lock_ s) false) (<[t := Running]> ps) (S n))
| step_fire_done s ps n t :
    ps !! t = Some Running →
    step (State s ps n) (Returns t Fire true)
         (State (Shared None (active_ s)) (<[t := Returned Fire true]> ps) n)
| step_cancel s ps n t c :
    ps !! t = Some (Locked c) → c ≠ Fire → active_ s = true →
    step (State s ps n) (Returns t c true) (State (Shared None false) (<[t := Returned c true]> ps) n).

(*@ libgo/libgo/timer.cpp 11-13 CoTimer::CoTimer *)
Definition init (s : state) : Prop := s = State (Shared None true) ∅ 0.

(** A thread that took the timer: it runs or ran the callback, or its cancellation
    succeeded. *)
Definition took (p : pc) : bool :=
  match p with Running | Returned _ true => true | _ => false end.
Definition holds (p : pc) : bool :=
  match p with Locked _ | Running => true | _ => false end.

Record inv (s : state) : Prop := Inv {
  inv_holder : ∀ t p, pcs s !! t = Some p → holds p = true → fn_lock_ (sh s) = Some t;
  inv_fresh : active_ (sh s) = true → runs s = 0 ∧ ∀ t p, pcs s !! t = Some p → took p = false;
  inv_one : ∀ t1 t2 p1 p2, pcs s !! t1 = Some p1 → pcs s !! t2 = Some p2 →
    took p1 = true → took p2 = true → t1 = t2;
  inv_runs : runs s ≤ 1 ∧
    (runs s = 1 → ∃ t p, pcs s !! t = Some p ∧ (p = Running ∨ p = Returned Fire true));
  inv_block : ∀ t r, pcs s !! t = Some (Returned BlockCancel r) →
    active_ (sh s) = false ∧ ∀ u, pcs s !! u ≠ Some Running;
}.

Lemma timer_inv_init s : init s → inv s.
Proof. intros ->. split; simpl; try done; intros; simplify_map_eq. split; lia. Qed.

Ltac cases_pc :=
  repeat match goal with
  | H : <[?t := _]> _ !! ?u = Some _ |- _ =>
      destruct (decide (u = t)) as [->|?]; [rewrite lookup_insert_eq in H; simplify_eq
                                           |rewrite lookup_insert_ne in H by congruence]
  end.

Lemma holder_step s l s' : inv s → step s l s' →
  ∀ t p, pcs s' !! t = Some p → holds p = true → fn_lock_ (sh s') = Some t.
Proof.
  intros [I1 _ _ _ _] Hs u p Hu Hp. destruct Hs; simpl in *; cases_pc; simpl in *; try done; eauto;
    try (pose proof (I1 _ _ Hu Hp)); try (pose proof (I1 _ _ H eq_refl)); try congruence.
Qed.

Lemma fresh_step s l s' : inv s → step s l s' →
  active_ (sh s') = true → runs s' = 0 ∧ ∀ t p, pcs s' !! t = Some p → took p = false.
Proof.
  intros [_ I2 _ _ _] Hs Ha. destruct Hs; simpl in *; try done;
    destruct (I2 Ha) as [I2a I2b]; (split; [done|]); intros u p Hu; cases_pc; simpl; eauto.
  by specialize (I2b _ _ H).
Qed.

Lemma one_step s l s' : inv s → step s l s' →
  ∀ t1 t2 p1 p2, pcs s' !! t1 = Some p1 → pcs s' !! t2 = Some p2 →
    took p1 = true → took p2 = true → t1 = t2.
Proof.
  intros [_ I2 I3 _ _] Hs u1 u2 p1 p2 H1 H2 T1 T2.
  destruct Hs as [| | | |s ps n t Ht Ha|s ps n t Ht|s ps n t c Ht Hc Ha]; simpl in *;
    cases_pc; simpl in *; try done; eauto;
    try (destruct (I2 Ha) as [_ I2b]; try rewrite (I2b _ _ H1) in T1; try rewrite (I2b _ _ H2) in T2; done).
Qed.

Lemma runs_step s l s' : inv s → step s l s' →
  runs s' ≤ 1 ∧ (runs s' = 1 → ∃ t p, pcs s' !! t = Some p ∧ (p = Running ∨ p = Returned Fire true)).
Proof.
  intros [_ I2 _ [I4 I5] _] Hs.
  assert (Hex : ∀ t q q', (pcs s !! t = q) → q ≠ Some Running → q ≠ Some (Returned Fire true) → runs s = 1 →
            ∃ u p, <[t := q']> (pcs s) !! u = Some p ∧ (p = Running ∨ p = Returned Fire true)).
  { intros t q q' Hq N1 N2 H1. destruct (I5 H1) as (u & p & Hu & Hp). exists u, p.
    rewrite lookup_insert_ne; [done|]. intros ->. destruct Hp; congruence. }
  destruct Hs as [| | | |s ps n t Ht Ha|s ps n t Ht|s ps n t c Ht Hc Ha]; simpl in *;
    try (split; [done|]; intros Hone; by eapply Hex).
  - destruct (I2 Ha) as [-> _]. split; [lia|]. intros _. exists t, Running. rewrite lookup_insert_eq. auto.
  - split; [done|]. intros _. exists t, (Returned Fire true). rewrite lookup_insert_eq. auto.
Qed.

Lemma block_step s l s' : inv s → step s l s' →
  ∀ t r, pcs s' !! t = Some (Returned BlockCancel r) →
    active_ (sh s') = false ∧ ∀ u, pcs s' !! u ≠ Some Running.
Proof.
  intros [I1 _ _ _ I6] Hs t' r Ht'.
  destruct Hs as [s ps n t c Ht|s ps n t c Ht Hl|s ps n t c o Ht Hl Hc|s ps n t c Ht Ha|s ps n t Ht Ha|s ps n t Ht|s ps n t c Ht Hc Ha];
    simpl in *; cases_pc; simpl in *; try done;
    try (destruct (I6 _ _ Ht') as [Hf Hn]; exfalso; congruence);
    try (destruct (I6 _ _ Ht') as [Hf Hn]; (split; [congruence|]); intros u Hu; cases_pc; try done; by eapply Hn).
  - split; [done|]. intros u Hu; cases_pc.
    pose proof (I1 _ _ Hu eq_refl). pose proof (I1 _ _ Ht eq_refl). congruence.
  - split; [done|]. intros u Hu; cases_pc.
    pose proof (I1 _ _ Hu eq_refl). pose proof (I1 _ _ Ht eq_refl). congruence.
Qed.

Lemma timer_inv_step s l s' : inv s → step s l s' → inv s'.
Proof.
  intros Hi Hs. split; eauto using holder_step, fresh_step, one_step, runs_step, block_step.
Qed.

Lemma timer_inv_reachable s : reachable init step s → inv s.
Proof. apply invariant_reachable; [exact timer_inv_init|exact timer_inv_step]. Qed.

(** A timer that is no longer active stays so. *)
Lemma inactive_step s l s' : active_ (sh s) = false → step s l s' → active_ (sh s') = false.
Proof. intros Ha Hs. by destruct Hs. Qed.

Lemma inactive_run s : active_ (sh s) = false → ∀ ls s', run step s ls s' → ∀ u, Runs u ∉ ls.
Proof.
  intros Ha ls s' Hrun u. induction Hrun as [s|s l s1 ls s2 Hs Hrun IH]; [by intros ?%elem_of_nil|].
  intros [Hl|Hl]%elem_of_cons.
  - subst l. inversion Hs; subst; simpl in *; congruence.
  - apply IH; [|done]. by eapply inactive_step.
Qed.

(** C13: in every interleaving of any number of threads that fire, cancel or block-cancel a
    timer, at most one of them takes it: the callback runs at most once; when a cancellation
    returned true the callback never ran and no other call takes the timer; when
    [BlockCancel] has returned (true or false), the callback is not running, and no later
    step starts it. *)
Theorem CoTimer_at_most_once s :
  reachable init step s →
  runs s ≤ 1 ∧
  (∀ t1 t2 p1 p2, pcs s !! t1 = Some p1 → pcs s !! t2 = Some p2 → took p1 = true → took p2 = true → t1 = t2) ∧
  (∀ t c, pcs s !! t = Some (Returned c true) → c ≠ Fire → runs s = 0) ∧
  (∀ t p, pcs s !! t = Some p → took p = true →
     ∀ ls s', run step s ls s' → ∀ u, Runs u ∉ ls) ∧
  (∀ t r, pcs s !! t = Some (Returned BlockCancel r) →
     (∀ u, pcs s !! u ≠ Some Running) ∧ ∀ ls s', run step s ls s' → ∀ u, Runs u ∉ ls).
Proof.
  intros Hr. pose proof (timer_inv_reachable s Hr) as Hi. pose proof Hi as [I1 I2 I3 [I4 I5] I6]. split_and!.
  - done.
  - done.
  - intros t c Ht Hc. destruct (decide (runs s = 0)) as [|Hn]; [done|].
    destruct (I5 ltac:(lia)) as (u & p & Hu & Hp).
    assert (t = u) as -> by (eapply (I3 t u); [done|done|done|by destruct Hp as [-> | ->]]).
    rewrite Hu in Ht. injection Ht as ->. destruct Hp; congruence.
  - intros t p Ht Hp. apply inactive_run. destruct (active_ (sh s)) eqn:E; [|done].
    destruct (I2 eq_refl) as [_ Hf]. by rewrite (Hf _ _ Ht) in Hp.
  - intros t r Ht. destruct (I6 _ _ Ht) as [Ha Hn]. split; [done|]. by apply inactive_run.
Qed.

(** Thread 1 fires while thread 2 cancels: thread 1 wins. *)
Lemma CoTimer_at_most_once_witness :
  ∃ s, reachable init step s ∧ pcs s !! 1 = Some (Returned Fire true) ∧ runs s ≤ 1 ∧
       (∀ ls s', run step s ls s' → ∀ u, Runs u ∉ ls).
Proof.
  set (s := State (Shared None false) (<[1 := Returned Fire true]> (<[2 := Returned Cancel false]>
             (<[1 := Running]> (<[1 := Locked Fire]> (<[2 := Start Cancel]> (<[1 := Start Fire]> ∅)))))) 1).
  assert (Hr : reachable init step s).
  { eapply reach_step; [|apply (step_fire_done (Shared (Some 1) false)); done].
    eapply reach_step; [|eapply (step_try_lock_fails (Shared (Some 1) false)); done].
    eapply reach_step; [|apply (step_fire (Shared (Some 1) true)); done].
    eapply reach_step; [|apply (step_lock (Shared None true)); done].
    eapply reach_step; [|apply step_call; done].
    eapply reach_step; [|apply step_call; done].
    by apply reach_init. }
  exists s. split; [exact Hr|]. split; [done|].
  destruct (CoTimer_at_most_once s Hr) as (H1 & _ & _ & H4 & _). split; [exact H1|].
  exact (H4 1 (Returned Fire true) eq_refl eq_refl).
Defined.

End CoTimer.

(** ** The deadline maps *)
Module CoTimerMgr.
Import CoTimer.

Definition llmax : Z := (2 ^ 63 - 1)%Z.

(** A timer as the manager sees it: [fn_lock_] is free between two operations. *)
(*@ libgo/libgo/timer.h 36-45 CoTimer *)
Record timer := Timer { t_active_ : bool; token_state_ : e_token_state }.

Abbreviation deadlines := (list (Z * nat)).

(*@ libgo/libgo/timer.h 94-103 CoTimerMgr *)
Record t := mk {
  timers : gmap nat timer;
  s_id : nat;
  system_deadlines_ : deadlines;
  steady_deadlines_ : deadlines;
  system_next_trigger_time_ : Z;
  steady_next_trigger_time_ : Z;
}.

(*@ libgo/libgo/timer.cpp 52-56 CoTimerMgr::CoTimerMgr *)
Definition new : t := mk ∅ 0 [] [] llmax llmax.

(** [std::multimap::insert]: after the entries with an equal key. *)
Fixpoint insert_mm (k : Z) (v : nat) (l : deadlines) : deadlines :=
  match l with
  | [] => [(k, v)]
  | (k', v') :: r => if (k <? k')%Z then (k, v) :: l else (k', v') :: insert_mm k v r
  end.

(** [std::multimap::erase(iterator)]: undefined when the iterator is not in the map. *)
Fixpoint erase_mm (v : nat) (l : deadlines) : option deadlines :=
  match l with
  | [] => None
  | (k', v') :: r => if decide (v = v') then Some r else r' ← erase_mm v r; Some ((k', v') :: r')
  end.

(** [time_point_cast<milliseconds>(tp).time_since_epoch().count()] *)
Definition to_ms (tp : Z) : Z := Z.quot tp 1000000.

(*@ libgo/libgo/timer.cpp 184-194 CoTimerMgr::SetNextTriggerTime *)
Definition SetNextTriggerTime (kind : e_token_state) (tp : Z) (m : t) : t :=
  match kind with
  | system => mk (timers m) (s_id m) (system_deadlines_ m) (steady_deadlines_ m) (to_ms tp) (steady_next_trigger_time_ m)
  | steady => mk (timers m) (s_id m) (system_deadlines_ m) (steady_deadlines_ m) (system_next_trigger_time_ m) (to_ms tp)
  | none => m
  end.

Definition both_empty (m : t) : bool :=
  bool_decide (system_deadlines_ m = []) && bool_decide (steady_deadlines_ m = []).

(** [kind] is [system] for a system time point and [steady] for a steady one. *)
(*@ libgo/libgo/timer.cpp 58-82 CoTimerMgr::ExpireAt *)
Definition ExpireAt (kind : e_token_state) (tp : Z) (m : t) : nat * t :=
  let id := S (s_id m) in
  let m := if both_empty m then SetNextTriggerTime kind tp m else m in
  (id, mk (<[id := Timer true kind]> (timers m)) id
          (if decide (kind = system) then insert_mm tp id (system_deadlines_ m) else system_deadlines_ m)
          (if decide (kind = steady) then insert_mm tp id (steady_deadlines_ m) else steady_deadlines_ m)
          (system_next_trigger_time_ m) (steady_next_trigger_time_ m)).

(** [None]: the timer does not exist, or an iterator that is no longer valid is erased. *)
(*@ libgo/libgo/timer.cpp 98-116 CoTimerMgr::__Cancel *)
Definition __Cancel (id : nat) (m : t) : option t :=
  tm ← timers m !! id;
  match token_state_ tm with
  | system =>
      d ← erase_mm id (system_deadlines_ m);
      Some (mk (<[id := Timer (t_active_ tm) none]> (timers m)) (s_id m) d (steady_deadlines_ m)
               (system_next_trigger_time_ m) (steady_next_trigger_time_ m))
  | steady =>
      d ← erase_mm id (steady_deadlines_ m);
      Some (mk (<[id := Timer (t_active_ tm) none]> (timers m)) (s_id m) (system_deadlines_ m) d
               (system_next_trigger_time_ m) (steady_next_trigger_time_ m))
  | none => Some m
  end.

(** The part that [CoTimer::Cancel], [BlockCancel] and the call of a timer share. *)
(*@ libgo/libgo/timer.cpp 31-39 CoTimer::Cancel *)
Definition deactivate (id : nat) (m : t) : option (bool * t) :=
  tm ← timers m !! id;
  if t_active_ tm
  then Some (true, mk (<[id := Timer false (token_state_ tm)]> (timers m)) (s_id m) (system_deadlines_ m)
                      (steady_deadlines_ m) (system_next_trigger_time_ m) (steady_next_trigger_time_ m))
  else Some (false, m).

(*@ libgo/libgo/timer.cpp 84-96 CoTimerMgr::Cancel, CoTimerMgr::BlockCancel *)
Definition Cancel (id : nat) (m : t) : option (bool * t) :=
  '(ok, m1) ← deactivate id m;
  if (ok : bool) then m2 ← __Cancel id m1; Some (true, m2) else Some (false, m1).

(** The loop over one map: the entries taken, the entries left, what is left of [n]. *)
(*@ libgo/libgo/timer.cpp 127-137 CoTimerMgr::GetExpired *)
Fixpoint take_expired (now : Z) (n : nat) (l : deadlines) : deadlines * deadlines * nat :=
  match l, n with
  | (k, v) :: r, S n' => if (now <? k)%Z then ([], l, n)
                         else let '(e, rest, m) := take_expired now n' r in ((k, v) :: e, rest, m)
  | _, _ => ([], l, n)
  end.

Definition set_none (ids : list nat) (ts : gmap nat timer) : gmap nat timer :=
  foldl (λ ts id, match ts !! id with Some tm => <[id := Timer (t_active_ tm) none]> ts | None => ts end) ts ids.

Definition next_of (rest : deadlines) : Z := match rest with (k, _) :: _ => to_ms k | [] => llmax end.

(*@ libgo/libgo/timer.cpp 173-182 CoTimerMgr::GetNextTriggerTime *)
Definition GetNextTriggerTime (sys_now sdy_now : Z) (m : t) : Z :=
  Z.min (Z.max (system_next_trigger_time_ m - to_ms sys_now) 0)
        (Z.max (steady_next_trigger_time_ m - to_ms sdy_now) 0).

(** [try_lock]: whether [lock_] was free; when it is not, another thread is at the maps, and the
    trigger times are read as they are.  The clocks are read once: [sys_now] and [sdy_now]. *)
(*@ libgo/libgo/timer.cpp 118-165 CoTimerMgr::GetExpired *)
Definition GetExpired (try_lock : bool) (sys_now sdy_now : Z) (n : nat) (m : t) : list nat * Z * t :=
  if both_empty m then ([], llmax, m)
  else if negb try_lock then ([], GetNextTriggerTime sys_now sdy_now m, m)
  else
    let '(e1, rest1, n1) := take_expired sys_now n (system_deadlines_ m) in
    let '(e2, rest2, n2) := take_expired sdy_now n1 (steady_deadlines_ m) in
    let ids := e1.*2 ++ e2.*2 in
    let m' := mk (set_none ids (timers m)) (s_id m) rest1 rest2 (next_of rest1) (next_of rest2) in
    (ids, GetNextTriggerTime sys_now sdy_now m', m').

(*@ libgo/libgo/timer.cpp 167-171 CoTimerMgr::Size *)
Definition Size (m : t) : nat := length (system_deadlines_ m) + length (steady_deadlines_ m).

(** [( *sp_timer)()]: whether the callback runs. *)
(*@ libgo/libgo/timer.cpp 20-29 CoTimer::operator() *)
Definition fire (id : nat) (m : t) : option (bool * t) := deactivate id m.

(** ** Invariant *)
Abbreviation before := (λ a b : Z * nat, (a.1 ≤ b.1)%Z).

Definition dl (k : e_token_state) (m : t) : deadlines :=
  match k with system => system_deadlines_ m | steady => steady_deadlines_ m | none => [] end.

(** A map is sorted, holds a timer once, and holds exactly the timers whose token says so. *)
Record ok (m : t) : Prop := Ok {
  ok_sorted : ∀ k, k ≠ none → StronglySorted before (dl k m);
  ok_nodup : ∀ k, k ≠ none → NoDup (dl k m).*2;
  ok_token : ∀ k id, k ≠ none → id ∈ (dl k m).*2 ↔ ∃ a, timers m !! id = Some (Timer a k);
  ok_id : ∀ id, is_Some (timers m !! id) → id ≤ s_id m;
}.

Lemma insert_mm_perm k v l : insert_mm k v l ≡ₚ (k, v) :: l.
Proof.
  induction l as [|[k' v'] l IH]; simpl; [done|]. case_match; [done|]. rewrite IH. constructor.
Qed.

Lemma insert_mm_sorted k v l : StronglySorted before l → StronglySorted before (insert_mm k v l).
Proof.
  induction 1 as [|[k' v'] l Hs IH Hf]; simpl; [repeat constructor|].
  destruct (Z.ltb_spec k k').
  - constructor; [by constructor|]. constructor; [simpl; lia|]. eapply Forall_impl; [exact Hf|]. simpl. lia.
  - constructor; [done|]. rewrite insert_mm_perm. constructor; [simpl; lia|done].
Qed.

Lemma erase_mm_spec v l : v ∈ l.*2 → ∃ a k b, l = a ++ (k, v) :: b ∧ v ∉ a.*2 ∧ erase_mm v l = Some (a ++ b).
Proof.
  induction l as [|[k' v'] l IH]; simpl; [by intros ?%elem_of_nil|].
  intros Hv. case_decide as Hd; [subst; exists [], k', l; split_and!; [done|by apply not_elem_of_nil|done]|].
  apply elem_of_cons in Hv as [->|Hv]; [done|]. destruct (IH Hv) as (a & k & b & -> & Ha & ->).
  exists ((k', v') :: a), k, b. simpl. split_and!; [done|by apply not_elem_of_cons|done].
Qed.

Lemma sorted_cut (a b : deadlines) x : StronglySorted before (a ++ x :: b) → StronglySorted before (a ++ b).
Proof.
  induction a as [|y a IH]; simpl; inversion 1; subst; [done|]. constructor; [auto|].
  apply Forall_app in H3 as [Ha Hb]. inversion Hb; subst. by apply Forall_app.
Qed.

Lemma sorted_suffix (a b : deadlines) : StronglySorted before (a ++ b) → StronglySorted before b.
Proof. induction a as [|y a IH]; simpl; [done|]. inversion 1; subst. auto. Qed.

(** What one pass over a sorted map takes. *)
Lemma take_expired_spec now n l :
  StronglySorted before l →
  ∃ e rest m, take_expired now n l = (e, rest, m) ∧ l = e ++ rest ∧ n = length e + m ∧
    Forall (λ p, (p.1 ≤ now)%Z) e ∧ (m = 0 ∨ Forall (λ p, (now < p.1)%Z) rest).
Proof.
  intros Hs. revert n. induction Hs as [|[k v] l Hs IH Hf]; intros n; simpl.
  - exists [], [], n. destruct n; split_and!; auto using Forall_nil_2.
  - destruct n as [|n]; simpl.
    + exists [], ((k, v) :: l), 0. split_and!; auto using Forall_nil_2.
    + destruct (Z.ltb_spec now k).
      * exists [], ((k, v) :: l), (S n). split_and!; auto using Forall_nil_2. right. constructor; [done|].
        eapply Forall_impl; [exact Hf|]. simpl. lia.
      * destruct (IH n) as (e & rest & m & -> & -> & -> & He & Hr). exists ((k, v) :: e), rest, m.
        split_and!; auto using Forall_cons_2.
Qed.

Lemma set_none_lookup ids ts id :
  set_none ids ts !! id =
    (λ tm, if decide (id ∈ ids) then Timer (t_active_ tm) none else tm) <$> ts !! id.
Proof.
  revert ts. induction ids as [|i ids IH]; intros ts; simpl.
  - by destruct (ts !! id).
  - rewrite IH. destruct (ts !! i) as [tm|] eqn:Ei.
    + destruct (decide (id = i)) as [->|Hne].
      * rewrite lookup_insert_eq, Ei. simpl. f_equal. case_decide; case_decide; try done; exfalso; set_solver.
      * rewrite lookup_insert_ne by done. destruct (ts !! id); [|done]. simpl. f_equal.
        case_decide; case_decide; try done; exfalso; set_solver.
    + destruct (ts !! id) eqn:Eid; [|done]. simpl. f_equal.
      case_decide; case_decide; try done; exfalso; set_solver.
Qed.

Lemma ok_new : ok new.
Proof.
  split; simpl.
  - intros [] _; constructor.
  - intros [] _; constructor.
  - intros [] id _; simpl; (split; [by intros ?%elem_of_nil|by intros [? ?]]).
  - by intros id [? ?].
Qed.

Lemma ExpireAt_dl kind tp m k :
  kind ≠ none → dl k (ExpireAt kind tp m).2 = if decide (kind = k) then insert_mm tp (S (s_id m)) (dl k m) else dl k m.
Proof.
  intros Hk. unfold ExpireAt. simpl. destruct (both_empty m); destruct kind, k; done.
Qed.

Lemma ExpireAt_ok kind tp m : kind ≠ none → ok m →
  ok (ExpireAt kind tp m).2 ∧ (ExpireAt kind tp m).1 ∉ (dl system m).*2 ++ (dl steady m).*2.
Proof.
  intros Hk [H1 H2 H3 H4].
  assert (Hnew : ∀ k, k ≠ none → S (s_id m) ∉ (dl k m).*2).
  { intros k Hk' Hin. apply H3 in Hin as [a Ha]; [|done]. specialize (H4 (S (s_id m)) ltac:(eauto)). lia. }
  assert (Ht : timers (ExpireAt kind tp m).2 = <[S (s_id m) := Timer true kind]> (timers m)).
  { unfold ExpireAt. simpl. destruct (both_empty m); [|done]. by destruct kind. }
  split.
  - split.
    + intros k Hk'. rewrite ExpireAt_dl by done. case_decide; [|auto]. apply insert_mm_sorted. auto.
    + intros k Hk'. rewrite ExpireAt_dl by done. case_decide; [|auto]. rewrite insert_mm_perm. simpl.
      apply NoDup_cons. auto.
    + intros k id Hk'. rewrite ExpireAt_dl, Ht by done. destruct (decide (id = S (s_id m))) as [->|Hne].
      * rewrite lookup_insert_eq. case_decide as Hkk.
        -- subst. rewrite insert_mm_perm. simpl. split; [eauto|]. intros _. left.
        -- split; [intros Hin; by apply Hnew in Hin|]. intros [a [= _ Hc]]. done.
      * rewrite lookup_insert_ne by done. rewrite <- H3 by done. case_decide; [|done].
        rewrite insert_mm_perm. simpl. rewrite elem_of_cons. tauto.
    + intros id. rewrite Ht. assert (Hs : s_id (ExpireAt kind tp m).2 = S (s_id m)) by done. rewrite Hs.
      destruct (decide (id = S (s_id m))) as [->|Hne]; [done|].
      rewrite lookup_insert_ne by done. intros Hi. specialize (H4 _ Hi). lia.
  - change ((ExpireAt kind tp m).1) with (S (s_id m)). intros [Hin|Hin]%elem_of_app; by eapply Hnew; [|exact Hin].
Qed.

Lemma deactivate_ok id m ok' m' : ok m → deactivate id m = Some (ok', m') →
  ok m' ∧ (∀ k, dl k m' = dl k m) ∧ s_id m' = s_id m ∧
  (∀ i tm, timers m !! i = Some tm → ∃ a, timers m' !! i = Some (Timer a (token_state_ tm))).
Proof.
  intros Hok. unfold deactivate. destruct (timers m !! id) as [[a ts]|] eqn:Eid; [simpl|done].
  destruct a; intros [= <- <-].
  - assert (Hl : ∀ i, timers m !! i = (λ tm, Timer (if decide (i = id) then true else t_active_ tm) (token_state_ tm)) <$> <[id := Timer false ts]> (timers m) !! i).
    { intros i. destruct (decide (i = id)) as [->|Hne].
      - by rewrite lookup_insert_eq, Eid.
      - rewrite lookup_insert_ne by done. by destruct (timers m !! i) as [[]|]. }
    destruct Hok as [H1 H2 H3 H4]. split_and!; [|done|done|].
    + split; try done.
      * intros k i Hk. change (dl k _) with (dl k m). rewrite H3 by done. simpl. rewrite Hl.
        split; intros [b Hb]; destruct (<[id:=_]> (timers m) !! i) as [[]|]; simpl in *; simplify_eq; eauto.
      * simpl. intros i Hi. apply H4. rewrite Hl. destruct Hi as [? ->]. done.
    + simpl. intros i tm Hi. rewrite Hl in Hi. destruct (<[id:=_]> (timers m) !! i) as [[b s]|]; [|done].
      injection Hi as <-. simpl. eauto.
  - split_and!; try done. intros i [b s] Hi. simpl. eauto.
Qed.

Definition active_in (m : t) (id : nat) : bool :=
  match timers m !! id with Some tm => t_active_ tm | None => false end.

Lemma deactivate_total id m : is_Some (timers m !! id) → is_Some (deactivate id m).
Proof. intros [[a s] E]. unfold deactivate. rewrite E. simpl. destruct a; eauto. Qed.

(** A call takes a timer once: it answers whether the timer was active, and it is not afterwards. *)
Lemma deactivate_active id m b m1 : deactivate id m = Some (b, m1) →
  b = active_in m id ∧ ∀ i, active_in m1 i = if decide (i = id) then false else active_in m i.
Proof.
  unfold deactivate, active_in. intros E. destruct (timers m !! id) as [[a s]|] eqn:Eid; [|done]. simpl in E.
  destruct a; injection E as <- <-; (split; [done|]); intros i; simpl.
  - case_decide as Hi; [subst; by rewrite lookup_insert_eq|by rewrite lookup_insert_ne].
  - case_decide as Hi; [subst; by rewrite Eid|done].
Qed.

Lemma deactivate_dom id m b m1 : deactivate id m = Some (b, m1) → ∀ i, is_Some (timers m1 !! i) ↔ is_Some (timers m !! i).
Proof.
  unfold deactivate. intros E i. destruct (timers m !! id) as [[a s]|] eqn:Eid; [|done]. simpl in E.
  destruct a; injection E as <- <-; [|done]. simpl. destruct (decide (i = id)) as [->|Hi]; [by rewrite lookup_insert_eq, Eid|by rewrite lookup_insert_ne].
Qed.

(** [__Cancel] touches the token only. *)
Lemma __Cancel_timers id m m' : __Cancel id m = Some m' →
  (∀ i, is_Some (timers m' !! i) ↔ is_Some (timers m !! i)) ∧ ∀ i, active_in m' i = active_in m i.
Proof.
  unfold __Cancel, active_in. intros E. destruct (timers m !! id) as [[a s]|] eqn:Eid; [|done]. simpl in E.
  assert (timers m' = timers m ∨ timers m' = <[id := Timer a none]> (timers m)) as [->| ->]; [| |split; intros i].
  - destruct s; [injection E as <-; by left|destruct (erase_mm id (system_deadlines_ m)); [|done]|destruct (erase_mm id (steady_deadlines_ m)); [|done]];
      injection E as <-; by right.
  - done.
  - destruct (decide (i = id)) as [->|Hi]; [by rewrite lookup_insert_eq, Eid|by rewrite lookup_insert_ne].
  - destruct (decide (i = id)) as [->|Hi]; [by rewrite lookup_insert_eq, Eid|by rewrite lookup_insert_ne].
Qed.

Lemma __Cancel_ok id m : ok m → is_Some (timers m !! id) →
  ∃ m', __Cancel id m = Some m' ∧ ok m' ∧
    (∀ k, k ≠ none → id ∉ (dl k m').*2) ∧ (∀ k i, i ≠ id → i ∈ (dl k m').*2 ↔ i ∈ (dl k m).*2).
Proof.
  intros [H1 H2 H3 H4] [[a s] Hid]. unfold __Cancel. rewrite Hid. simpl.
  assert (Hin : ∀ k, k ≠ none → s = k → ∃ x kk b, dl k m = x ++ (kk, id) :: b ∧ id ∉ x.*2 ∧ erase_mm id (dl k m) = Some (x ++ b)).
  { intros k Hk ->. apply erase_mm_spec. apply H3; eauto. }
  assert (Hno : ∀ k, k ≠ none → s ≠ k → id ∉ (dl k m).*2).
  { intros k Hk Hs Hi. apply H3 in Hi as [b Hb]; [|done]. congruence. }
  assert (Hgen : ∀ m' k0, k0 ≠ none → s = k0 → timers m' = <[id := Timer a none]> (timers m) → s_id m' = s_id m →
            (∀ k, k ≠ k0 → dl k m' = dl k m) →
            (∃ x kk b, dl k0 m = x ++ (kk, id) :: b ∧ id ∉ x.*2 ∧ dl k0 m' = x ++ b) →
            ok m' ∧ (∀ k, k ≠ none → id ∉ (dl k m').*2) ∧ (∀ k i, i ≠ id → i ∈ (dl k m').*2 ↔ i ∈ (dl k m).*2)).
  { intros m' k0 Hk0 Hs Ht Hsid Hdl (x & kk & b & E & Hx & E').
    assert (Hnd := H2 k0 Hk0). rewrite E, fmap_app in Hnd. simpl in Hnd.
    assert (Hb : id ∉ b.*2) by (apply NoDup_app in Hnd as (_ & _ & [? _]%NoDup_cons); done).
    assert (Hout : ∀ k, k ≠ none → id ∉ (dl k m').*2).
    { intros k Hk. destruct (decide (k = k0)) as [->|Hne]; [|rewrite Hdl by done; apply Hno; congruence].
      rewrite E', fmap_app. intros [?|?]%elem_of_app; done. }
    assert (Hmem : ∀ k i, i ≠ id → i ∈ (dl k m').*2 ↔ i ∈ (dl k m).*2).
    { intros k i Hi. destruct (decide (k = k0)) as [->|Hne]; [|by rewrite Hdl].
      rewrite E, E', !fmap_app. simpl. rewrite !elem_of_app, elem_of_cons. tauto. }
    split_and!; [|done|done]. split.
    - intros k Hk. destruct (decide (k = k0)) as [->|Hne]; [|rewrite Hdl by done; auto].
      rewrite E'. eapply sorted_cut. rewrite <- E. auto.
    - intros k Hk. destruct (decide (k = k0)) as [->|Hne]; [|rewrite Hdl by done; auto].
      rewrite E', fmap_app. eapply sublist_NoDup; [exact Hnd|]. apply sublist_app; [done|]. by apply sublist_cons.
    - intros k i Hk. rewrite Ht. destruct (decide (i = id)) as [->|Hne].
      + rewrite lookup_insert_eq. split; [intros Hi; by apply Hout in Hi|]. intros [? [= _ Hc]]. by subst k.
      + rewrite lookup_insert_ne by done. rewrite Hmem by done. by apply H3.
    - rewrite Ht, Hsid. intros i Hi. apply H4. destruct (decide (i = id)) as [->|Hne]; [eauto|].
      by rewrite lookup_insert_ne in Hi. }
  destruct s.
  - exists m. split; [done|]. split; [by split|]. split; [|done]. intros k Hk. apply Hno; congruence.
  - destruct (Hin system) as (x & kk & b & E & Hx & Ee); [done|done|]. simpl in Ee. rewrite Ee. simpl.
    eexists. split; [done|]. eapply (Hgen _ system); try done; [|by exists x, kk, b].
    intros [] ?; done.
  - destruct (Hin steady) as (x & kk & b & E & Hx & Ee); [done|done|]. simpl in Ee. rewrite Ee. simpl.
    eexists. split; [done|]. eapply (Hgen _ steady); try done; [|by exists x, kk, b].
    intros [] ?; done.
Qed.

Lemma elem_snd (l : deadlines) id : id ∈ l.*2 ↔ ∃ k, (k, id) ∈ l.
Proof.
  rewrite list_elem_of_fmap. split; [intros ([k i] & -> & H); eauto|intros [k H]; by exists (k, id)].
Qed.

(** One pass over both maps. *)
Lemma GetExpired_spec sn dn n m :
  ok m →
  ∃ e1 e2 next m', GetExpired true sn dn n m = (e1.*2 ++ e2.*2, next, m') ∧
    system_deadlines_ m = e1 ++ system_deadlines_ m' ∧ steady_deadlines_ m = e2 ++ steady_deadlines_ m' ∧
    Forall (λ p, (p.1 ≤ sn)%Z) e1 ∧ Forall (λ p, (p.1 ≤ dn)%Z) e2 ∧ length e1 + length e2 ≤ n ∧
    (length e1 + length e2 < n →
       Forall (λ p, (sn < p.1)%Z) (system_deadlines_ m') ∧ Forall (λ p, (dn < p.1)%Z) (steady_deadlines_ m')) ∧
    (both_empty m = false →
       (∀ k id, (k, id) ∈ system_deadlines_ m' → (next ≤ Z.max (to_ms k - to_ms sn) 0)%Z) ∧
       (∀ k id, (k, id) ∈ steady_deadlines_ m' → (next ≤ Z.max (to_ms k - to_ms dn) 0)%Z)) ∧
    (∀ i, timers m' !! i = (λ tm, if decide (i ∈ e1.*2 ++ e2.*2) then Timer (t_active_ tm) none else tm) <$> timers m !! i) ∧
    s_id m' = s_id m.
Proof.
  intros [H1 H2 H3 H4]. unfold GetExpired. cbn [negb].
  destruct (both_empty m) eqn:Eb.
  - apply andb_true_iff in Eb as [E1%bool_decide_eq_true E2%bool_decide_eq_true].
    exists [], [], llmax, m. rewrite E1, E2. split_and!; auto using Forall_nil_2; simpl; try lia.
    intros i. destruct (timers m !! i) as [[]|]; done.
  - destruct (take_expired_spec sn n (system_deadlines_ m)) as (e1 & r1 & n1 & -> & E1 & N1 & F1 & R1).
    { by apply (H1 system). }
    destruct (take_expired_spec dn n1 (steady_deadlines_ m)) as (e2 & r2 & n2 & -> & E2 & N2 & F2 & R2).
    { by apply (H1 steady). }
    assert (Hlow : ∀ now x r, StronglySorted before ((x : Z * nat) :: r) → ∀ k id, (k, id) ∈ x :: r →
              (Z.max (next_of (x :: r) - to_ms now) 0 ≤ Z.max (to_ms k - to_ms now) 0)%Z).
    { intros now [k0 i0] r Hs k id Hin. simpl. apply StronglySorted_inv in Hs as [_ Hf].
      apply elem_of_cons in Hin as [[= -> ->]|Hin]; [lia|].
      rewrite Forall_forall in Hf. specialize (Hf _ Hin). simpl in Hf.
      assert (to_ms k0 ≤ to_ms k)%Z by (apply Z.quot_le_mono; lia). lia. }
    assert (Hs1 : StronglySorted before r1) by (eapply sorted_suffix; rewrite <- E1; by apply (H1 system)).
    assert (Hs2 : StronglySorted before r2) by (eapply sorted_suffix; rewrite <- E2; by apply (H1 steady)).
    eexists e1, e2, _, _. split; [reflexivity|]. simpl. split_and!; try done; [lia| | |].
    + intros Hlt. destruct R1 as [->|R1]; [lia|]. destruct R2 as [->|R2]; [lia|done].
    + intros _. unfold GetNextTriggerTime. simpl. split; intros k id Hin.
      * destruct r1 as [|x r1]; [by apply elem_of_nil in Hin|]. specialize (Hlow sn _ _ Hs1 _ _ Hin). lia.
      * destruct r2 as [|x r2]; [by apply elem_of_nil in Hin|]. specialize (Hlow dn _ _ Hs2 _ _ Hin). lia.
    + intros i. apply set_none_lookup.
Qed.

(** Without the lock nothing is taken and nothing changes. *)
Lemma GetExpired_locked sn dn n m :
  GetExpired false sn dn n m = ([], if both_empty m then llmax else GetNextTriggerTime sn dn m, m).
Proof. unfold GetExpired. by destruct (both_empty m). Qed.

Lemma GetExpired_ok b sn dn n m : ok m → ok (GetExpired b sn dn n m).2.
Proof.
  intros Hok. destruct b; [|by rewrite GetExpired_locked]. destruct (GetExpired_spec sn dn n m Hok)
    as (e1 & e2 & next & m' & -> & E1 & E2 & _ & _ & _ & _ & _ & Ht & Hid). simpl.
  destruct Hok as [H1 H2 H3 H4].
  assert (Hdl : ∀ k, k ≠ none → ∃ e, dl k m = e ++ dl k m' ∧ (∀ i, i ∈ e.*2 → i ∈ e1.*2 ++ e2.*2) ∧
            (∀ i, i ∈ e1.*2 ++ e2.*2 → i ∈ (dl k m).*2 → i ∈ e.*2)).
  { pose proof (H3 system) as H3s. pose proof (H3 steady) as H3d. simpl in H3s, H3d.
    assert (Hx : ∀ i, i ∈ (system_deadlines_ m).*2 → i ∈ (steady_deadlines_ m).*2 → False).
    { intros i Hi1 Hi2. apply H3s in Hi1 as [a Ha]; [|done]. apply H3d in Hi2 as [b Hb]; [|done]. congruence. }
    intros [] Hk; simpl; [done| |].
    - exists e1. split_and!; [done|set_solver|]. intros i [Hi|Hi]%elem_of_app Hi'; [done|].
      exfalso. apply (Hx i); [done|]. rewrite E2, fmap_app. apply elem_of_app. by left.
    - exists e2. split_and!; [done|set_solver|]. intros i [Hi|Hi]%elem_of_app Hi'; [|done].
      exfalso. apply (Hx i); [|done]. rewrite E1, fmap_app. apply elem_of_app. by left. }
  split.
  - intros k Hk. destruct (Hdl k Hk) as (e & E & _). eapply sorted_suffix. rewrite <- E. auto.
  - intros k Hk. destruct (Hdl k Hk) as (e & E & _). specialize (H2 k Hk). rewrite E, fmap_app in H2.
    by apply NoDup_app in H2 as (_ & _ & ?).
  - intros k id Hk. rewrite Ht. destruct (Hdl k Hk) as (e & E & Hin & Hout).
    specialize (H2 k Hk). rewrite E, fmap_app in H2. apply NoDup_app in H2 as (_ & Hdis & _).
    split.
    + intros Hi. assert (Hm : id ∈ (dl k m).*2) by (rewrite E, fmap_app; apply elem_of_app; by right).
      apply H3 in Hm as Ha; [|done]. destruct Ha as [a Ha]. exists a. rewrite Ha. simpl.
      rewrite decide_False; [done|]. intros Hc. by apply (Hdis id); [apply Hout|].
    + intros [a Ha]. destruct (timers m !! id) as [[b s]|] eqn:Eid; [|done]. simpl in Ha. case_decide as Hd.
      * injection Ha as _ Hs. by subst k.
      * injection Ha as -> ->. assert (Hm : id ∈ (dl k m).*2) by (apply H3; eauto).
        rewrite E, fmap_app in Hm. apply elem_of_app in Hm as [Hm|Hm]; [|done]. by apply Hin in Hm.
  - intros id. rewrite Ht, Hid. intros Hi. apply H4. by destruct (timers m !! id); [|destruct Hi].
Qed.

(** ** The loops that drain the expired timers *)
Fixpoint fire_all (ids : list nat) (m : t) : option (list nat * t) :=
  match ids with
  | [] => Some ([], m)
  | id :: r => '(b, m1) ← fire id m; '(ran, m2) ← fire_all r m1; Some (if (b : bool) then id :: ran else ran, m2)
  end.

(** [go c]: the loop condition; [next] is the last value of [next_ms]; [tries]: whether the first, the
    second, ... [try_lock] succeeds.  The result is the count, [next_ms], the callbacks that ran, in
    order, and the manager.  The callbacks leave this manager alone, and the clock does not move
    during the loop. *)
Fixpoint drain (fuel : nat) (tries : nat → bool) (go : nat → bool) (sn dn : Z) (c : nat) (next : Z) (m : t) :
    option (nat * Z * list nat * t) :=
  match fuel with
  | O => None
  | S fuel =>
      if go c then
        let '(ids, next, m1) := GetExpired (tries 0) sn dn 128 m in
        match ids with
        | [] => Some (c, next, [], m1)
        | _ => '(ran, m2) ← fire_all ids m1;
               '(c', next', ran', m3) ← drain fuel (λ i, tries (S i)) go sn dn (c + length ids) next m2;
               Some (c', next', ran ++ ran', m3)
        end
      else Some (c, next, [], m)
  end.

(*@ libgo/libgo/sleep_wait.cpp 31-49 SleepWait::WaitLoop *)
Definition WaitLoop (fuel : nat) (tries : nat → bool) (sn dn next : Z) (m : t) := drain fuel tries (λ _, true) sn dn 0 next m.

(*@ libgo/libgo/scheduler.cpp 212-230 Scheduler::DoTimer *)
Definition DoTimer (timer_handle_every_cycle : nat) (fuel : nat) (tries : nat → bool) (sn dn next : Z) (m : t) :=
  drain fuel tries (λ c, (timer_handle_every_cycle =? 0) || (c <? timer_handle_every_cycle)) sn dn 0 next m.

Lemma fire_all_spec ids m :
  ok m → NoDup ids → (∀ i, i ∈ ids → is_Some (timers m !! i)) →
  ∃ m', fire_all ids m = Some (filter (λ i, active_in m i = true) ids, m') ∧ ok m' ∧
    (∀ k, dl k m' = dl k m) ∧
    (∀ i, active_in m' i = if decide (i ∈ ids) then false else active_in m i).
Proof.
  revert m. induction ids as [|id ids IH]; intros m Hok Hnd Hin; simpl.
  - exists m. split_and!; done.
  - apply NoDup_cons in Hnd as [Hid Hnd].
    destruct (deactivate_total id m) as [[b m1] E]; [apply Hin; left|]. unfold fire. rewrite E. simpl.
    destruct (deactivate_ok _ _ _ _ Hok E) as (Hok1 & Hdl & _ & Ht).
    destruct (deactivate_active _ _ _ _ E) as [-> Ha1].
    destruct (IH m1 Hok1 Hnd) as (m2 & E2 & Hok2 & Hdl2 & Ha2).
    { intros i Hi. destruct (Hin i) as [tm Htm]; [by right|]. destruct (Ht _ _ Htm) as [? ->]. eauto. }
    fold fire. rewrite E2. simpl. exists m2.
    assert (Hf : filter (λ i, active_in m1 i = true) ids = filter (λ i, active_in m i = true) ids).
    { clear -Ha1 Hid. induction ids as [|j js IHj]; [done|].
      apply not_elem_of_cons in Hid as [Hj Hjs]. assert (Hj' : active_in m1 j = active_in m j) by (rewrite Ha1; by apply decide_False; congruence).
      by rewrite !filter_cons, Hj', IHj. }
    split_and!.
    + rewrite Hf, filter_cons. by destruct (active_in m id).
    + done.
    + intros k. by rewrite Hdl2.
    + intros i. rewrite Ha2, Ha1. repeat case_decide; try done; set_solver.
Qed.

Lemma Size_dl m : Size m = length (dl system m) + length (dl steady m).
Proof. done. Qed.

(** The batches up to the point where the loop stops. *)
Lemma drain_spec go sn dn fuel : ∀ tries c next m,
  ok m → Size m < fuel →
  ∃ e1 e2 next' ran m', drain fuel tries go sn dn c next m = Some (c + (length e1 + length e2), next', ran, m') ∧ ok m' ∧
    system_deadlines_ m = e1 ++ system_deadlines_ m' ∧ steady_deadlines_ m = e2 ++ steady_deadlines_ m' ∧
    Forall (λ p, (p.1 ≤ sn)%Z) e1 ∧ Forall (λ p, (p.1 ≤ dn)%Z) e2 ∧
    ran ≡ₚ filter (λ i, active_in m i = true) (e1.*2 ++ e2.*2) ∧
    (go (c + (length e1 + length e2)) = false ∨
     Forall (λ p, (sn < p.1)%Z) (system_deadlines_ m') ∧ Forall (λ p, (dn < p.1)%Z) (steady_deadlines_ m') ∧
     (∀ k id, (k, id) ∈ system_deadlines_ m' → (next' ≤ Z.max (to_ms k - to_ms sn) 0)%Z) ∧
     (∀ k id, (k, id) ∈ steady_deadlines_ m' → (next' ≤ Z.max (to_ms k - to_ms dn) 0)%Z) ∨
     ∃ i, tries i = false ∧ (length e1 + length e2 = 0 → tries 0 = false ∧ m' = m ∧ next' = (GetExpired false sn dn 128 m).1.2)) ∧
    (length e1 + length e2 = 0 ∨ ∃ c0, go c0 = true ∧ c + (length e1 + length e2) ≤ c0 + 128).
Proof.
  induction fuel as [|fuel IH]; intros tries c next m Hok Hsz; [lia|]. cbn [drain].
  destruct (go c) eqn:Hgo.
  2: { exists [], [], next, [], m. rewrite Nat.add_0_r. split_and!; auto using Forall_nil_2. }
  destruct (tries 0) eqn:Etry.
  2: { rewrite GetExpired_locked. exists [], [], (GetExpired false sn dn 128 m).1.2, [], m. rewrite Nat.add_0_r, GetExpired_locked.
       split_and!; auto using Forall_nil_2. right. right. by exists 0. }
  destruct (GetExpired_spec sn dn 128 m Hok)
    as (a1 & a2 & nx & m1 & E & E1 & E2 & F1 & F2 & Hle & Hlt & Hnx & Ht & Hid).
  assert (Hok1 : ok m1) by (pose proof (GetExpired_ok true sn dn 128 m Hok) as H; rewrite E in H; exact H).
  rewrite E. destruct (a1.*2 ++ a2.*2) as [|i0 ids0] eqn:Eids.
  - apply app_eq_nil in Eids as [Ea1 Ea2]. apply fmap_nil_inv in Ea1, Ea2. subst a1 a2.
    exists [], [], nx, [], m1. rewrite Nat.add_0_r. destruct (Hlt ltac:(simpl; lia)) as [G1 G2].
    split_and!; auto using Forall_nil_2. right. left. split_and!; try done.
    + destruct (both_empty m) eqn:Eb; [|by apply Hnx]. intros k id Hin. exfalso.
      apply andb_true_iff in Eb as [Eb%bool_decide_eq_true _]. rewrite E1 in Eb. simpl in Eb.
      rewrite Eb in Hin. by apply elem_of_nil in Hin.
    + destruct (both_empty m) eqn:Eb; [|by apply Hnx]. intros k id Hin. exfalso.
      apply andb_true_iff in Eb as [_ Eb%bool_decide_eq_true]. rewrite E2 in Eb. simpl in Eb.
      rewrite Eb in Hin. by apply elem_of_nil in Hin.
  - cbv beta iota. rewrite <- Eids in *. set (ids := a1.*2 ++ a2.*2) in *.
    assert (Hpos : 0 < length a1 + length a2).
    { assert (Hl : length ids = length a1 + length a2) by (unfold ids; by rewrite length_app, !length_fmap).
      rewrite <- Hl, Eids. simpl. lia. }
    destruct Hok as [H1 H2 H3 H4].
    assert (Hdis : ∀ i, i ∈ (system_deadlines_ m).*2 → i ∈ (steady_deadlines_ m).*2 → False).
    { intros i Hi1 Hi2. apply (H3 system) in Hi1 as [a Ha]; [|done]. apply (H3 steady) in Hi2 as [b Hb]; [|done].
      congruence. }
    pose proof (H2 system ltac:(done)) as N1. pose proof (H2 steady ltac:(done)) as N2. simpl in N1, N2.
    rewrite E1, fmap_app in N1. rewrite E2, fmap_app in N2.
    apply NoDup_app in N1 as (N1 & D1 & _). apply NoDup_app in N2 as (N2 & D2 & _).
    assert (Hnd : NoDup ids).
    { apply NoDup_app. split_and!; [done| |done]. intros i Hi1 Hi2. apply (Hdis i).
      - rewrite E1, fmap_app. apply elem_of_app. by left.
      - rewrite E2, fmap_app. apply elem_of_app. by left. }
    assert (Hold : ∀ i, i ∈ ids → is_Some (timers m !! i)).
    { intros i [Hi|Hi]%elem_of_app.
      - destruct (proj1 (H3 system i ltac:(done))) as [a ->]; [|eauto]. simpl. rewrite E1, fmap_app. apply elem_of_app. by left.
      - destruct (proj1 (H3 steady i ltac:(done))) as [a ->]; [|eauto]. simpl. rewrite E2, fmap_app. apply elem_of_app. by left. }
    assert (Hact1 : ∀ i, active_in m1 i = active_in m i).
    { intros i. unfold active_in. rewrite Ht. destruct (timers m !! i) as [[]|]; [|done]. simpl. by case_decide. }
    destruct (fire_all_spec ids m1 Hok1 Hnd) as (m2 & E3 & Hok2 & Hdl2 & Ha2).
    { intros i Hi. rewrite Ht. destruct (Hold i Hi) as [tm ->]. eauto. }
    rewrite E3. cbn [mbind option_bind].
    pose proof (Hdl2 system) as Hsys. pose proof (Hdl2 steady) as Hsdy. simpl in Hsys, Hsdy.
    assert (Hsz2 : Size m2 < fuel).
    { rewrite Size_dl, !Hdl2. simpl. unfold Size in Hsz. rewrite E1, E2, !length_app in Hsz. lia. }
    destruct (IH (λ i, tries (S i)) (c + length ids) nx m2 Hok2 Hsz2)
      as (e1 & e2 & nx' & ran & m3 & E4 & Hok3 & E5 & E6 & F5 & F6 & Hran & Hfin & Hcap).
    rewrite E4. cbn [mbind option_bind]. rewrite Hsys in E5. rewrite Hsdy in E6.
    assert (Hl : length ids = length a1 + length a2) by (unfold ids; by rewrite length_app, !length_fmap).
    assert (Hc : c + length ids + (length e1 + length e2) = c + (length (a1 ++ e1) + length (a2 ++ e2))).
    { rewrite Hl, !length_app. lia. }
    rewrite Hc in *. eexists (a1 ++ e1), (a2 ++ e2), nx', _, m3. split; [reflexivity|].
    split_and!; try done.
    + by rewrite E1, E5, app_assoc.
    + by rewrite E2, E6, app_assoc.
    + by apply Forall_app.
    + by apply Forall_app.
    + rewrite !fmap_app, Hran.
      assert (Hf : filter (λ i, active_in m2 i = true) (e1.*2 ++ e2.*2) = filter (λ i, active_in m i = true) (e1.*2 ++ e2.*2)).
      { assert (Hout : ∀ i, i ∈ e1.*2 ++ e2.*2 → i ∉ ids).
        { intros i [Hi|Hi]%elem_of_app [Hi'|Hi']%elem_of_app.
          - apply (D1 i); [done|]. rewrite E5, fmap_app. apply elem_of_app. by left.
          - apply (Hdis i); [rewrite E1, E5, !fmap_app; set_solver|rewrite E2, fmap_app; set_solver].
          - apply (Hdis i); [rewrite E1, fmap_app; set_solver|rewrite E2, E6, !fmap_app; set_solver].
          - apply (D2 i); [done|]. rewrite E6, fmap_app. apply elem_of_app. by left. }
        clear -Ha2 Hact1 Hout. induction (e1.*2 ++ e2.*2) as [|j js IHj]; [done|].
        assert (Hj' : active_in m2 j = active_in m j) by (rewrite Ha2, Hact1; apply decide_False, Hout; left).
        rewrite !filter_cons, Hj', IHj; [done|]. intros i Hi. apply Hout. by right. }
      rewrite Hf. assert (Hf1 : filter (λ i, active_in m1 i = true) ids = filter (λ i, active_in m i = true) ids).
      { clear -Hact1. induction ids as [|j js IHj]; [done|]. by rewrite !filter_cons, Hact1, IHj. }
      rewrite Hf1. unfold ids. rewrite !filter_app.
      rewrite <- !app_assoc. apply Permutation_app_head. rewrite !app_assoc. apply Permutation_app_tail.
      apply Permutation_app_comm.
    + destruct Hfin as [Hf|[Hf|(i & Hi & _)]]; [by left|by right; left|]. right. right. exists (S i). split; [done|].
      rewrite !length_app. lia.
    + right. destruct Hcap as [Hz|(c0 & Hg & Hc0)].
      * exists c. split; [done|]. rewrite !length_app in *. lia.
      * exists c0. split; [done|]. lia.
Qed.

(** When [lock_] is free each time, [SleepWait::WaitLoop] ends, with one round per batch and at most one more than there
    are timers, and drains the maps: it removes exactly the timers whose deadline has passed
    ([e1] and [e2], the fronts of the sorted maps), counts each once, runs the callback of
    exactly the active ones, each once, and the [next_ms] it leaves never exceeds the time to
    any remaining deadline, so the scheduler does not oversleep one. *)
Theorem WaitLoop_drains sn dn next m :
  ok m →
  ∃ e1 e2 next' ran m', WaitLoop (S (Size m)) (λ _, true) sn dn next m = Some (length e1 + length e2, next', ran, m') ∧ ok m' ∧
    system_deadlines_ m = e1 ++ system_deadlines_ m' ∧ steady_deadlines_ m = e2 ++ steady_deadlines_ m' ∧
    Forall (λ p, (p.1 ≤ sn)%Z) e1 ∧ Forall (λ p, (p.1 ≤ dn)%Z) e2 ∧
    Forall (λ p, (sn < p.1)%Z) (system_deadlines_ m') ∧ Forall (λ p, (dn < p.1)%Z) (steady_deadlines_ m') ∧
    ran ≡ₚ filter (λ i, active_in m i = true) (e1.*2 ++ e2.*2) ∧
    (∀ k id, (k, id) ∈ system_deadlines_ m' → (next' ≤ Z.max (to_ms k - to_ms sn) 0)%Z) ∧
    (∀ k id, (k, id) ∈ steady_deadlines_ m' → (next' ≤ Z.max (to_ms k - to_ms dn) 0)%Z).
Proof.
  intros Hok. destruct (drain_spec (λ _, true) sn dn (S (Size m)) (λ _, true) 0 next m Hok ltac:(lia))
    as (e1 & e2 & next' & ran & m' & E & Hok' & E1 & E2 & F1 & F2 & Hran & [?|[(G1 & G2 & G3 & G4)|(? & ? & _)]] & _); [done| |done].
  exists e1, e2, next', ran, m'. by split_and!.
Qed.

Definition m3 : t := (ExpireAt system 9000000 (ExpireAt steady 5000000 (ExpireAt steady 2000000 new).2).2).2.

Lemma m3_ok : ok m3.
Proof. unfold m3. do 3 (apply ExpireAt_ok; [done|]). exact ok_new. Qed.

Lemma WaitLoop_drains_witness :
  ok m3 ∧ ∃ c next' ran m', WaitLoop 4 (λ _, true) 8000000 3000000 0 m3 = Some (c, next', ran, m') ∧
    ok m' ∧ ran = [1].
Proof.
  split; [exact m3_ok|].
  destruct (WaitLoop_drains 8000000 3000000 0 m3 m3_ok) as (e1 & e2 & next' & ran & m' & E & Hok & _).
  exists (length e1 + length e2), next', ran, m'. split; [exact E|]. split; [exact Hok|].
  vm_compute in E. injection E as _ _ <- _. reflexivity.
Defined.

(** [Scheduler::DoTimer] ends as well, whatever the lock does; with a limit [timer_handle_every_cycle] it handles
    fewer than the limit plus one batch of 128, and when it stops below the limit, the lock
    having been free each time, no expired timer is left. *)
Theorem DoTimer_bounded cap tries sn dn next m :
  ok m →
  ∃ c next' ran m', DoTimer cap (S (Size m)) tries sn dn next m = Some (c, next', ran, m') ∧ ok m' ∧
    Size m = c + Size m' ∧ length ran ≤ c ∧ (cap ≠ 0 → c < cap + 128) ∧
    ((∀ i, tries i = true) → cap = 0 ∨ c < cap →
       Forall (λ p, (sn < p.1)%Z) (system_deadlines_ m') ∧ Forall (λ p, (dn < p.1)%Z) (steady_deadlines_ m')).
Proof.
  intros Hok.
  destruct (drain_spec (λ c, (cap =? 0) || (c <? cap)) sn dn (S (Size m)) tries 0 next m Hok ltac:(lia))
    as (e1 & e2 & next' & ran & m' & E & Hok' & E1 & E2 & F1 & F2 & Hran & Hfin & Hcap).
  eexists _, next', ran, m'. split; [exact E|]. split_and!.
  - done.
  - unfold Size. rewrite E1, E2, !length_app. lia.
  - rewrite Hran. etransitivity; [apply length_filter|]. rewrite length_app, !length_fmap. lia.
  - intros Hc. destruct Hcap as [->|(c0 & Hg & Hle)]; [lia|].
    apply orb_true_iff in Hg as [Hg%Nat.eqb_eq|Hg%Nat.ltb_lt]; lia.
  - intros Hl Hc. destruct Hfin as [Hf|[(G1 & G2 & _)|(i & Hi & _)]]; [|done|by rewrite Hl in Hi]. exfalso.
    apply orb_false_iff in Hf as [Hf1%Nat.eqb_neq Hf2%Nat.ltb_ge]. lia.
Qed.

Lemma DoTimer_bounded_witness :
  ok m3 ∧ ∃ c next' ran m', DoTimer 1 4 (λ _, true) 10000000 10000000 0 m3 = Some (c, next', ran, m') ∧ ok m' ∧ c = 3.
Proof.
  split; [exact m3_ok|].
  destruct (DoTimer_bounded 1 (λ _, true) 10000000 10000000 0 m3 m3_ok) as (c & next' & ran & m' & E & Hok & _).
  exists c, next', ran, m'. split; [exact E|]. split; [exact Hok|].
  vm_compute in E. by injection E as <- _ _ _.
Defined.

(** What [Cancel] returns and does, on both branches. *)
Lemma Cancel_spec id m tm :
  ok m → timers m !! id = Some tm →
  ∃ m', Cancel id m = Some (t_active_ tm, m') ∧ ok m' ∧
    (∀ i, is_Some (timers m' !! i) ↔ is_Some (timers m !! i)) ∧
    (∀ i, active_in m' i = if decide (i = id) then false else active_in m i) ∧
    (t_active_ tm = true → ∀ k, k ≠ none → id ∉ (dl k m').*2) ∧
    (∀ k i, i ≠ id → i ∈ (dl k m').*2 ↔ i ∈ (dl k m).*2) ∧
    (t_active_ tm = false → m' = m).
Proof.
  intros Hok Hid. unfold Cancel. destruct (deactivate_total id m) as [[b m1] E]; [eauto|]. rewrite E. cbn [mbind option_bind].
  destruct (deactivate_ok _ _ _ _ Hok E) as (Hok1 & Hdl & _ & Ht). destruct (deactivate_active _ _ _ _ E) as [Hb Hact].
  pose proof (deactivate_dom _ _ _ _ E) as Hdom.
  assert (b = t_active_ tm) as -> by (rewrite Hb; unfold active_in; by rewrite Hid).
  destruct (t_active_ tm) eqn:Ea.
  - destruct (__Cancel_ok id m1 Hok1) as (m2 & E2 & Hok2 & Hout & Hmem); [by apply Hdom|].
    rewrite E2. cbn [mbind option_bind]. destruct (__Cancel_timers _ _ _ E2) as [Hd2 Ha2]. exists m2. split_and!; try done.
    + intros i. by rewrite Hd2, Hdom.
    + intros i. by rewrite Ha2, Hact.
    + intros k i Hi. by rewrite Hmem, Hdl.
  - exists m. unfold deactivate in E. rewrite Hid in E. simpl in E. rewrite Ea in E. injection E as <-. by split_and!.
Qed.

(** [Cancel] (and [BlockCancel]) returns true exactly when the timer had not fired or been
    cancelled before; then the timer is in neither map and its callback will not run; the
    other timers are untouched. *)
Theorem CoTimerMgr_Cancel id m tm :
  ok m → timers m !! id = Some tm →
  ∃ m', Cancel id m = Some (t_active_ tm, m') ∧ ok m' ∧ active_in m' id = false ∧
    fire id m' = Some (false, m') ∧
    (t_active_ tm = true → ∀ k, k ≠ none → id ∉ (dl k m').*2) ∧
    (∀ k i, i ≠ id → i ∈ (dl k m').*2 ↔ i ∈ (dl k m).*2).
Proof.
  intros Hok Hid. destruct (Cancel_spec id m tm Hok Hid) as (m' & E & Hok' & Hdom & Hact & Hout & Hmem & _).
  assert (Ha : active_in m' id = false) by (rewrite Hact; by rewrite decide_True).
  exists m'. split_and!; try done. unfold fire, deactivate. unfold active_in in Ha.
  destruct (proj2 (Hdom id)) as [tm' Et]; [eauto|]. rewrite Et in Ha |- *. simpl. by rewrite Ha.
Qed.

Lemma CoTimerMgr_Cancel_witness :
  ok m3 ∧ ∃ m', Cancel 2 m3 = Some (true, m') ∧ ok m' ∧ fire 2 m' = Some (false, m').
Proof.
  split; [exact m3_ok|].
  destruct (CoTimerMgr_Cancel 2 m3 (Timer true steady) m3_ok eq_refl) as (m' & E & Hok & _ & F & _).
  exists m'. split; [exact E|]. split; [exact Hok|exact F].
Defined.

(** ** Sequences of operations *)
(** A callback is called only from the loops over what [GetExpired] has handed out. *)
Inductive op := OpExpireAt (kind : e_token_state) (tp : Z) | OpCancel (id : nat) | OpFire (id : nat)
              | OpGetExpired (try_lock : bool) (sys_now sdy_now : Z) (n : nat).

(** What an operation answers: a new timer, whether a cancellation succeeded, whether a callback ran,
    the timers handed out. *)
Inductive event := Created (id : nat) (kind : e_token_state) | Cancelled (id : nat) (r : bool) | Fired (id : nat) (r : bool)
                 | Expired (ids : list nat).

Definition exec (m : t) (o : op) : option (event * t) :=
  match o with
  | OpExpireAt kind tp => let '(id, m') := ExpireAt kind tp m in Some (Created id kind, m')
  | OpCancel id => '(r, m') ← Cancel id m; Some (Cancelled id r, m')
  | OpFire id => '(r, m') ← fire id m; Some (Fired id r, m')
  | OpGetExpired b sn dn n => let '(ids, _, m') := GetExpired b sn dn n m in Some (Expired ids, m')
  end.

(** The calls there can be: a time point is system or steady, a timer was created, and a callback is
    called for a timer that is no longer in the maps. *)
Definition legal (m : t) (o : op) : Prop :=
  match o with
  | OpExpireAt kind _ => kind ≠ none
  | OpCancel id => is_Some (timers m !! id)
  | OpFire id => ∃ a, timers m !! id = Some (Timer a none)
  | OpGetExpired _ _ _ _ => True
  end.

(** What has happened from a new manager on, and the manager it left. *)
Inductive history : list event → t → Prop :=
| history_new : history [] new
| history_op evs m o e m' : history evs m → legal m o → exec m o = Some (e, m') → history (evs ++ [e]) m'.

(** The call has taken the timer; the timer has left the maps. *)
Definition takes (id : nat) (e : event) : bool :=
  match e with Cancelled i true | Fired i true => bool_decide (i = id) | _ => false end.
Definition leaves (id : nat) (e : event) : bool :=
  match e with Cancelled i true => bool_decide (i = id) | Expired ids => bool_decide (id ∈ ids) | _ => false end.

(** The manager against its history. *)
Record accounts (evs : list event) (m : t) : Prop := Accounts {
  acc_ok : ok m;
  acc_created : ∀ id, is_Some (timers m !! id) ↔ ∃ kind, Created id kind ∈ evs;
  acc_active : ∀ id, active_in m id = true ↔ is_Some (timers m !! id) ∧ Forall (λ e, takes id e = false) evs;
  acc_once : ∀ id, length (filter (λ e, takes id e = true) evs) ≤ 1;
  acc_maps : ∀ kind id, kind ≠ none → id ∈ (dl kind m).*2 ↔ Created id kind ∈ evs ∧ Forall (λ e, leaves id e = false) evs;
  acc_past : ∀ id e, e ∈ evs → takes id e = true ∨ leaves id e = true → is_Some (timers m !! id);
  acc_pending : ∀ kind id, id ∈ (dl kind m).*2 → active_in m id = true;
}.

Lemma accounts_new : accounts [] new.
Proof.
  split.
  - exact ok_new.
  - intros id. simpl. rewrite lookup_empty. split; [by intros [??]|]. by intros (? & ?%elem_of_nil).
  - intros id. unfold active_in. simpl. rewrite lookup_empty. split; [done|]. by intros [[??] _].
  - simpl. lia.
  - intros [] id ?; simpl; (split; [by intros ?%elem_of_nil|by intros [?%elem_of_nil _]]).
  - by intros id e ?%elem_of_nil.
  - intros [] id; simpl; by intros ?%elem_of_nil.
Qed.

(** A step that keeps the books: [hit] is the timer it takes, if any, and [out] those it removes. *)
Lemma accounts_step evs m e m' (hit : option nat) (out : nat → Prop) `{∀ id, Decision (out id)} :
  accounts evs m → ok m' →
  (∀ id kind, e ≠ Created id kind) →
  (∀ id, takes id e = true ↔ hit = Some id) → (∀ id, leaves id e = false ↔ ¬ out id) →
  (∀ id, is_Some (timers m' !! id) ↔ is_Some (timers m !! id)) →
  (∀ id, hit = Some id → active_in m id = true) → (∀ id, out id → is_Some (timers m !! id)) →
  (∀ id, active_in m' id = true ↔ active_in m id = true ∧ hit ≠ Some id) →
  (∀ kind id, kind ≠ none → id ∈ (dl kind m').*2 ↔ id ∈ (dl kind m).*2 ∧ ¬ out id) →
  (∀ kind id, id ∈ (dl kind m').*2 → hit ≠ Some id) →
  accounts (evs ++ [e]) m'.
Proof.
  intros [A1 A2 A3 A4 A5 A7 A6] Hok Hne Htook Hgone Hdom Hhit Hout Hact Hdl Hpend.
  assert (Hc : ∀ id kind, Created id kind ∈ evs ++ [e] ↔ Created id kind ∈ evs).
  { intros id kind. rewrite elem_of_app, list_elem_of_singleton. split; [|by left]. intros [?|He]; [done|]. by destruct (Hne id kind). }
  assert (Hnt : ∀ id, takes id e = false ↔ hit ≠ Some id).
  { intros id. rewrite <- Htook. by destruct (takes id e). }
  split.
  - done.
  - intros id. rewrite Hdom, A2. by setoid_rewrite Hc.
  - intros id. rewrite Hact, A3, Hdom, Forall_app, Forall_singleton, Hnt. tauto.
  - intros id. rewrite filter_app, length_app, filter_cons, filter_nil. specialize (A4 id).
    destruct (decide (takes id e = true)) as [Ht|Ht]; simpl; [|lia].
    apply Htook, Hhit, A3 in Ht as [_ Hf].
    assert (filter (λ e, takes id e = true) evs = []) as ->; [|simpl; lia].
    clear -Hf. induction Hf as [|x l Hx Hl IH]; [done|]. by rewrite filter_cons, Hx.
  - intros kind id Hk. rewrite Hdl, A5, Hc, Forall_app, Forall_singleton, Hgone by done. tauto.
  - intros id x [Hx|Hx%list_elem_of_singleton]%elem_of_app Hor; rewrite Hdom; [by eapply A7|]. subst x.
    destruct Hor as [Ht|Hl]; [by apply A3, Hhit, Htook|]. destruct (leaves id e) eqn:El; [|done].
    apply Hout. apply dec_stable. intros Hn. apply Hgone in Hn. congruence.
  - intros kind id Hin. apply Hact. split; [|by eapply Hpend].
    destruct kind; [by apply elem_of_nil in Hin| |]; eapply (A6 _ id), Hdl, Hin; done.
Qed.

Lemma Created_accounts kind tp evs m id m' : kind ≠ none → accounts evs m → ExpireAt kind tp m = (id, m') → accounts (evs ++ [Created id kind]) m'.
Proof.
  intros Hk [Hok A2 A3 A4 A5 A7 A6] E. pose proof (proj1 (ExpireAt_ok kind tp m Hk Hok)) as Hok'. pose proof (λ k, ExpireAt_dl kind tp m k Hk) as Hdl.
  assert (Ht : timers (ExpireAt kind tp m).2 = <[S (s_id m) := Timer true kind]> (timers m)).
  { unfold ExpireAt. simpl. destruct (both_empty m); [|done]. by destruct kind. }
  assert (id = S (s_id m)) as -> by (unfold ExpireAt in E; by injection E as <- _).
  rewrite E in Hok', Hdl, Ht. simpl in Hok', Hdl, Ht.
  assert (Hnew : timers m !! S (s_id m) = None).
  { destruct (timers m !! S (s_id m)) eqn:En; [|done]. pose proof (ok_id m Hok (S (s_id m)) ltac:(eauto)). lia. }
  assert (Hno : ∀ k, Created (S (s_id m)) k ∉ evs).
  { intros k Hin. destruct (A2 (S (s_id m))) as [_ H]. destruct H as [? H]; [by exists k|]. congruence. }
  assert (Hold : ∀ e, e ∈ evs → takes (S (s_id m)) e = false ∧ leaves (S (s_id m)) e = false).
  { intros e He. assert (H : ¬ (takes (S (s_id m)) e = true ∨ leaves (S (s_id m)) e = true)).
    { intros H. destruct (A7 _ e He H). congruence. }
    destruct (takes _ e), (leaves _ e); naive_solver. }
  assert (Hact : ∀ i, active_in m' i = if decide (i = S (s_id m)) then true else active_in m i).
  { intros i. unfold active_in. rewrite Ht. case_decide; [subst; by rewrite lookup_insert_eq|by rewrite lookup_insert_ne]. }
  split.
  - done.
  - intros i. rewrite Ht. destruct (decide (i = S (s_id m))) as [->|Hi].
    + rewrite lookup_insert_eq. split; [|eauto]. intros _. exists kind. set_solver.
    + rewrite lookup_insert_ne, A2 by done. split; intros [k Hin]; exists k; set_solver.
  - intros i. rewrite Hact, Forall_app, Forall_singleton, Ht. simpl. case_decide as Hi.
    + subst i. rewrite lookup_insert_eq. split; [|done]. intros _. split; [eauto|]. split; [|done]. apply Forall_forall. intros e He. by apply Hold.
    + rewrite lookup_insert_ne, A3 by done. tauto.
  - intros i. rewrite filter_app, filter_cons, filter_nil. simpl. rewrite app_nil_r. apply A4.
  - intros k i Hk'. rewrite Hdl, Forall_app, Forall_singleton. simpl. rewrite elem_of_app, list_elem_of_singleton.
    destruct (decide (i = S (s_id m))) as [->|Hi].
    + assert (Hold' : Forall (λ e, leaves (S (s_id m)) e = false) evs) by (apply Forall_forall; intros e He; by apply Hold).
      assert (Hn : S (s_id m) ∉ (dl k m).*2) by (intros [Hin _]%A5; [by apply (Hno k)|done]).
      case_decide as Hkk.
      * subst. rewrite insert_mm_perm. simpl. split; [intros _; auto|]. intros _. left.
      * split; [by intros Hin|]. intros [[Hin|[= Hc]] _]; [by apply Hno in Hin|congruence].
    + assert (Hm : i ∈ (if decide (kind = k) then insert_mm tp (S (s_id m)) (dl k m) else dl k m).*2 ↔ i ∈ (dl k m).*2).
      { case_decide; [|done]. rewrite insert_mm_perm. simpl. rewrite elem_of_cons. tauto. }
      rewrite Hm, A5 by done. naive_solver.
  - intros i e [He|He%list_elem_of_singleton]%elem_of_app H; [|subst e; by destruct H]. rewrite Ht.
    destruct (decide (i = S (s_id m))) as [->|Hi]; [rewrite lookup_insert_eq; eauto|rewrite lookup_insert_ne by done; by eapply A7].
  - intros k i Hin. rewrite Hact. case_decide as Hi; [done|]. apply (A6 k). rewrite Hdl in Hin. revert Hin. case_decide; [|done].
    rewrite insert_mm_perm. simpl. rewrite elem_of_cons. tauto.
Qed.

Lemma GetExpired_members b sn dn n m : ok m →
  let '(ids, _, m') := GetExpired b sn dn n m in
  (∀ id, is_Some (timers m' !! id) ↔ is_Some (timers m !! id)) ∧ (∀ id, active_in m' id = active_in m id) ∧
  (∀ kind id, kind ≠ none → id ∈ (dl kind m').*2 ↔ id ∈ (dl kind m).*2 ∧ id ∉ ids).
Proof.
  intros Hok. destruct b; [|rewrite GetExpired_locked; set_solver].
  pose proof (GetExpired_ok true sn dn n m Hok) as Hok'.
  destruct (GetExpired_spec sn dn n m Hok) as (e1 & e2 & next & m' & E & _ & _ & _ & _ & _ & _ & _ & Ht & _).
  rewrite E in Hok' |- *. simpl in Hok'. split_and!.
  - intros id. rewrite Ht. by rewrite fmap_is_Some.
  - intros id. unfold active_in. rewrite Ht. destruct (timers m !! id) as [[]|]; [|done]. simpl. by case_decide.
  - intros kind id Hk. rewrite (ok_token m' Hok'), (ok_token m Hok), Ht by done. split.
    + intros [a Ha]. destruct (timers m !! id) as [[a' k']|]; [|done]. simpl in Ha. case_decide; [congruence|]. split; [eauto|done].
    + intros [[a ->] Hn]. simpl. rewrite decide_False by done. eauto.
Qed.

Lemma GetExpired_handed_out b sn dn n m : ok m → ∀ id, id ∈ (GetExpired b sn dn n m).1.1 → is_Some (timers m !! id).
Proof.
  intros Hok id. destruct b; [|rewrite GetExpired_locked; by intros ?%elem_of_nil].
  destruct (GetExpired_spec sn dn n m Hok) as (e1 & e2 & next & m' & -> & E1 & E2 & _). simpl.
  intros [Hi|Hi]%elem_of_app; [destruct (proj1 (ok_token m Hok system id ltac:(done))) as [a ->]|destruct (proj1 (ok_token m Hok steady id ltac:(done))) as [a ->]];
    simpl; rewrite ?E1, ?E2, ?fmap_app; eauto; apply elem_of_app; by left.
Qed.

Lemma exec_accounts evs m o : accounts evs m → legal m o → ∃ e m', exec m o = Some (e, m') ∧ accounts (evs ++ [e]) m'.
Proof.
  intros Hacc Hl. pose proof Hacc as [Hok A2 A3 A4 A5 A7 A6]. destruct o as [kind tp|id|id|b sn dn n]; simpl in Hl; unfold exec.
  - destruct (ExpireAt kind tp m) as [id m'] eqn:E. exists (Created id kind), m'. split; [done|]. by eapply Created_accounts.
  - destruct Hl as [tm Htm]. destruct (Cancel_spec id m tm Hok Htm) as (m' & -> & Hok' & Hdom & Hact & Hout & Hmem & Hsame).
    cbn [mbind option_bind]. eexists _, m'. split; [reflexivity|]. destruct (t_active_ tm) eqn:Ea.
    + assert (Hai : active_in m id = true) by (unfold active_in; by rewrite Htm).
      apply (accounts_step evs m _ m' (Some id) (λ i, i = id)); try done.
      * intros i. simpl. rewrite bool_decide_eq_true. split; congruence.
      * intros i. simpl. rewrite bool_decide_eq_false. naive_solver.
      * congruence.
      * intros i ->. eauto.
      * intros i. rewrite Hact. case_decide; subst; naive_solver.
      * intros k i Hk. destruct (decide (i = id)) as [->|Hi]; [|rewrite Hmem by done; tauto]. specialize (Hout eq_refl k Hk). tauto.
      * intros k i Hin [= ->]. destruct k; [by apply elem_of_nil in Hin| |]; by eapply Hout; [| |exact Hin].
    + rewrite (Hsame eq_refl). apply (accounts_step evs m _ m None (λ _, False)); naive_solver.
  - destruct Hl as [a Ha]. destruct (deactivate_total id m) as [[b m'] E]; [eauto|]. unfold fire. rewrite E. cbn [mbind option_bind].
    eexists _, m'. split; [reflexivity|]. destruct (deactivate_ok _ _ _ _ Hok E) as (Hok' & Hdl & _ & Ht).
    destruct (deactivate_active _ _ _ _ E) as [-> Hact]. pose proof (deactivate_dom _ _ _ _ E) as Hdom.
    destruct (active_in m id) eqn:Eid.
    + apply (accounts_step evs m _ m' (Some id) (λ _, False)); try done.
      * intros i. simpl. rewrite bool_decide_eq_true. split; congruence.
      * simpl. tauto.
      * congruence.
      * intros i. rewrite Hact. case_decide; subst; naive_solver.
      * intros k i Hk. rewrite Hdl. tauto.
      * intros k i Hin [= ->]. rewrite Hdl in Hin. destruct k; [by apply elem_of_nil in Hin| |];
          apply (ok_token m Hok) in Hin as [a' Ha']; try done; congruence.
    + apply (accounts_step evs m _ m' None (λ _, False)); try done.
      * simpl. tauto.
      * intros i. rewrite Hact. case_decide; subst; naive_solver.
      * intros k i Hk. rewrite Hdl. tauto.
  - pose proof (GetExpired_ok b sn dn n m Hok) as Hok'. pose proof (GetExpired_members b sn dn n m Hok) as Hm.
    pose proof (GetExpired_handed_out b sn dn n m Hok) as Hh.
    destruct (GetExpired b sn dn n m) as [[ids nx] m'] eqn:E. destruct Hm as (Hdom & Hact & Hdl).
    eexists _, m'. split; [reflexivity|]. apply (accounts_step evs m _ m' None (λ i, i ∈ ids)); try done.
    + intros i. simpl. by rewrite bool_decide_eq_false.
    + intros i. rewrite Hact. naive_solver.
Qed.

Lemma history_accounts evs m : history evs m → accounts evs m.
Proof.
  induction 1 as [|evs m o e m' Hh IH Hl E]; [exact accounts_new|].
  destruct (exec_accounts evs m o IH Hl) as (e' & m2 & E' & Hacc). rewrite E in E'. by injection E' as <- <-.
Qed.

(** C14: whatever the sequence of [ExpireAt], [Cancel]/[BlockCancel], [GetExpired] (its [try_lock] failing or not) and
    calls of the callbacks it handed out, from a new manager on: no operation fails (in particular [__Cancel] never
    erases an iterator that is not in its map), both maps are sorted, hold a timer at most once, and exactly the
    timers whose [token_state_] says so ([ok]); and the manager is what its history says ([accounts]): a timer is active exactly when it
    was created and no call has taken it (a successful cancellation or a callback that ran), at most one call ever
    takes it, it is in the map of its clock exactly when it was neither handed out nor cancelled, and what is in a map is active. *)
Theorem CoTimerMgr_invariant evs m : history evs m →
  accounts evs m ∧ ∀ o, legal m o → is_Some (exec m o).
Proof.
  intros Hh. pose proof (history_accounts evs m Hh) as Hacc. split; [done|]. intros o Hl.
  destruct (exec_accounts evs m o Hacc Hl) as (e & m' & -> & _). eauto.
Qed.

(** The first timer expires and runs, the third is cancelled, the second stays. *)
Definition some_events : list event :=
  [Created 1 steady; Created 2 system; Created 3 steady; Expired []; Expired [1]; Fired 1 true; Cancelled 3 true; Cancelled 1 false].
Definition some_manager : t :=
  mk (<[1 := Timer false none]> (<[2 := Timer true system]> (<[3 := Timer false none]> ∅))) 3 [(30000000%Z, 2)] [] 30 6.

(** One more call. *)
Ltac call H o :=
  match type of H with
  | history ?evs ?m =>
      match eval vm_compute in (exec m o) with
      | Some (?e, ?m') => apply (λ h l, history_op evs m o e m' h l eq_refl) in H; [|first [done | eexists; reflexivity]]
      end
  end.

Lemma CoTimerMgr_invariant_witness : history some_events some_manager ∧ accounts some_events some_manager.
Proof.
  assert (Hh : history some_events some_manager).
  { pose proof history_new as H. call H (OpExpireAt steady 5000000). call H (OpExpireAt system 30000000). call H (OpExpireAt steady 6000000).
    call H (OpGetExpired false 10 5500000 8). call H (OpGetExpired true 10 5500000 8). call H (OpFire 1). call H (OpCancel 3). call H (OpCancel 1).
    exact H. }
  split; [exact Hh|]. exact (proj1 (CoTimerMgr_invariant _ _ Hh)).
Defined.

(** [ExpireAt] refreshes the trigger time only when both maps are empty: a timer that is
    earlier than the ones present is not seen by a thread whose [GetExpired] fails to take the
    lock and returns [GetNextTriggerTime()]. *)
Example stale_trigger_time :
  let m := (ExpireAt steady 2000000 (ExpireAt steady 9000000 new).2).2 in
  steady_deadlines_ m = [(2000000%Z, 2); (9000000%Z, 1)] ∧ GetNextTriggerTime 0 0 m = 9%Z.
Proof. vm_compute. done. Qed.

End CoTimerMgr.
