(* ===== verification/Block.v ===== *)
(** * Semaphores of the coroutine library (libgo/block_object.cpp, co_mutex.cpp)

    [core] is the data under [lock_]: the number of signals and the queue of waiting tasks;
    its operations are the critical sections of the code.  [step] interleaves them with the
    timers of the timed waits and with the part of [Wakeup] that runs after the lock is
    released.  A counting-semaphore specification follows from the invariant of [step]. *)
From S2P Require Import Prelude.

Module BlockObject.

(*@ libgo/libgo/block_object.h 10-17 BlockObject *)
Record core := Core { wakeup_ : Z; max_wakeup_ : Z; wait_queue_ : list nat }.

(*@ libgo/libgo/block_object.cpp 11-15 BlockObject::BlockObject *)
Definition new (init_wakeup max_wakeup : Z) : core := Core init_wakeup max_wakeup [].

(*@ libgo/libgo/block_object.cpp 86-95 BlockObject::TryBlockWait *)
Definition TryBlockWait (c : core) : bool * core :=
  if (wakeup_ c =? 0)%Z then (false, c)
  else (true, Core (wakeup_ c - 1) (max_wakeup_ c) (wait_queue_ c)).

(** The critical section of [CoBlockWait]: whether the wait is over at once. *)
(*@ libgo/libgo/block_object.cpp 37-43 BlockObject::CoBlockWait *)
Definition CoBlockWait_enter (c : core) : bool * core :=
  if (0 <? wakeup_ c)%Z then (true, Core (wakeup_ c - 1) (max_wakeup_ c) (wait_queue_ c)) else (false, c).

(** [AddWaitTask]: false when a signal arrived meanwhile. *)
(*@ libgo/libgo/block_object.cpp 159-190 BlockObject::AddWaitTask *)
Definition AddWaitTask (c : core) (tk : nat) : bool * core :=
  if (wakeup_ c =? 0)%Z then (true, Core (wakeup_ c) (max_wakeup_ c) (wait_queue_ c ++ [tk]))
  else (false, Core (wakeup_ c - 1) (max_wakeup_ c) (wait_queue_ c)).

(** The result, the task taken from the queue, the new state. *)
(*@ libgo/libgo/block_object.cpp 97-111 BlockObject::Wakeup *)
Definition Wakeup (c : core) : bool * option nat * core :=
  match wait_queue_ c with
  | tk :: r => (true, Some tk, Core (wakeup_ c) (max_wakeup_ c) r)
  | [] => if (max_wakeup_ c <=? wakeup_ c)%Z then (false, None, c)
          else (true, None, Core (wakeup_ c + 1) (max_wakeup_ c) [])
  end.

(** [wait_queue_.erase(tk)] *)
(*@ libgo/libgo/block_object.cpp 137-141 BlockObject::CancelWait *)
Definition erase (c : core) (tk : nat) : bool * core :=
  if decide (tk ∈ wait_queue_ c)
  then (true, Core (wakeup_ c) (max_wakeup_ c) (filter (.≠ tk) (wait_queue_ c)))
  else (false, c).

(*@ libgo/libgo/block_object.cpp 153-157 BlockObject::IsWakeup *)
Definition IsWakeup (c : core) : bool := (0 <? wakeup_ c)%Z.

(** ** The threads around the lock *)

(** Where a task is with respect to the object: running, between the failed fast path and
    [AddWaitTask], in the queue, taken out by [Wakeup] but not yet resumed, taken out by its
    timer but not yet resumed. *)
Inductive pc := Running | Switching | Waiting | Popped | Erased.

(*@ libgo/libgo/task.h 31-54 Task *)
Record task := Task {
  pc_ : pc;
  block_ : bool;
  block_sequence_ : Z;
  timed_ : bool;
  is_block_timeout_ : bool;
}.

(** A timer of a timed wait: armed, or past its first check of the sequence number. *)
Inductive tstate := Armed | Checked.

Record state := State {
  obj : core;
  tasks : nat → task;
  timers : nat → option (Z * tstate);
}.

Inductive label :=
| LBegin (t : nat) | LGrant (t : nat) | LNow (t : nat) | LPost | LPostTo (t : nat) | LPostFail
| LTimeout (t : nat) | LTau.

Definition set_pc (p : pc) (tk : task) : task :=
  Task p (block_ tk) (block_sequence_ tk) (timed_ tk) (is_block_timeout_ tk).

(*@ libgo/libgo/block_object.cpp 30-151 BlockObject::CoBlockWait, CoBlockWaitTimed, Wakeup, CancelWait, AddWaitTask *)
Inductive step : state → label → state → Prop :=
| step_wait_now c c' ts tm t :
    pc_ (ts t) = Running → CoBlockWait_enter c = (true, c') →
    step (State c ts tm) (LNow t) (State c' ts tm)
| step_try c c' ts tm t :
    pc_ (ts t) = Running → TryBlockWait c = (true, c') →
    step (State c ts tm) (LNow t) (State c' ts tm)
| step_wait_block c c' ts tm t timeo :
    pc_ (ts t) = Running → CoBlockWait_enter c = (false, c') →
    step (State c ts tm) (LBegin t)
         (State c' (fupd ts t (Task Switching true (u32 (block_sequence_ (ts t) + 1)) (negb (timeo =? 0)%Z) false)) tm)
| step_add_grant c c' ts tm t :
    pc_ (ts t) = Switching → AddWaitTask c t = (false, c') →
    step (State c ts tm) (LGrant t) (State c' (fupd ts t (set_pc Running (ts t))) tm)
| step_add_wait c c' ts tm t :
    pc_ (ts t) = Switching → AddWaitTask c t = (true, c') →
    step (State c ts tm) LTau
         (State c' (fupd ts t (set_pc Waiting (ts t)))
                (if timed_ (ts t) then fupd tm t (Some (block_sequence_ (ts t), Armed)) else tm))
| step_wakeup_task c c' ts tm t :
    Wakeup c = (true, Some t, c') →
    step (State c ts tm) (LPostTo t) (State c' (fupd ts t (set_pc Popped (ts t))) tm)
| step_wakeup c c' ts tm :
    Wakeup c = (true, None, c') → step (State c ts tm) LPost (State c' ts tm)
| step_wakeup_fail c c' ts tm :
    Wakeup c = (false, None, c') → step (State c ts tm) LPostFail (State c' ts tm)
| step_resume c ts tm t :
    (* BlockCancelTimer waits for a callback that runs *)
    pc_ (ts t) = Popped → (∀ seq, tm t ≠ Some (seq, Checked)) →
    step (State c ts tm) LTau
         (State c (fupd ts t (Task Running false (block_sequence_ (ts t)) (timed_ (ts t)) (is_block_timeout_ (ts t))))
                (fupd tm t None))
| step_timer_check c ts tm t seq :
    tm t = Some (seq, Armed) →
    step (State c ts tm) LTau
         (State c ts (fupd tm t (if (block_sequence_ (ts t) =? seq)%Z then Some (seq, Checked) else None)))
| step_timer_miss c c' ts tm t seq :
    tm t = Some (seq, Checked) →
    block_ (ts t) = false ∨ block_sequence_ (ts t) ≠ seq ∨ erase c t = (false, c') →
    step (State c ts tm) LTau (State c ts (fupd tm t None))
| step_timer_erase c c' ts tm t seq :
    tm t = Some (seq, Checked) → block_ (ts t) = true → block_sequence_ (ts t) = seq → erase c t = (true, c') →
    step (State c ts tm) (LTimeout t) (State c' (fupd ts t (set_pc Erased (ts t))) tm)
| step_timer_resume c ts tm t :
    pc_ (ts t) = Erased →
    step (State c ts tm) LTau
         (State c (fupd ts t (Task Running false (block_sequence_ (ts t)) (timed_ (ts t)) true)) (fupd tm t None)).

Definition idle (s : state) : Prop :=
  wait_queue_ (obj s) = [] ∧ ∀ t, pc_ (tasks s t) = Running ∧ timers s t = None.

Record inv (s : state) : Prop := Inv {
  inv_bounds : (0 ≤ wakeup_ (obj s) ≤ max_wakeup_ (obj s))%Z;
  inv_lost : (0 < wakeup_ (obj s))%Z → wait_queue_ (obj s) = [];
  inv_nodup : NoDup (wait_queue_ (obj s));
  inv_queue : ∀ t, t ∈ wait_queue_ (obj s) ↔ pc_ (tasks s t) = Waiting;
  inv_timer : ∀ t seq st, timers s t = Some (seq, st) →
    seq = block_sequence_ (tasks s t) ∧
    (pc_ (tasks s t) = Waiting ∨ pc_ (tasks s t) = Popped ∨ (pc_ (tasks s t) = Erased ∧ st = Checked));
}.

Definition init (w m : Z) (s : state) : Prop :=
  obj s = new w m ∧ idle s.

Lemma block_inv_init w m s : (0 ≤ w ≤ m)%Z → init w m s → inv s.
Proof.
  intros Hw [Ho [Hq Hi]]. rewrite Ho in *. split; rewrite ?Ho; simpl; try done.
  - by apply NoDup_nil_2.
  - intros t. destruct (Hi t) as [-> _]. split; [by intros ?%elem_of_nil|done].
  - intros t seq st Ht. destruct (Hi t) as [_ E]. congruence.
Qed.

Lemma enter_spec c b c' : (0 ≤ wakeup_ c)%Z → CoBlockWait_enter c = (b, c') →
  max_wakeup_ c' = max_wakeup_ c ∧ wait_queue_ c' = wait_queue_ c ∧
  if b then (0 < wakeup_ c)%Z ∧ wakeup_ c' = (wakeup_ c - 1)%Z else wakeup_ c = 0%Z ∧ c' = c.
Proof. unfold CoBlockWait_enter. destruct (Z.ltb_spec 0 (wakeup_ c)); intros ? [= <- <-]; simpl; split_and!; try done; lia. Qed.

Lemma try_spec c b c' : (0 ≤ wakeup_ c)%Z → TryBlockWait c = (b, c') →
  max_wakeup_ c' = max_wakeup_ c ∧ wait_queue_ c' = wait_queue_ c ∧
  if b then (0 < wakeup_ c)%Z ∧ wakeup_ c' = (wakeup_ c - 1)%Z else wakeup_ c = 0%Z ∧ c' = c.
Proof. unfold TryBlockWait. destruct (Z.eqb_spec (wakeup_ c) 0); intros ? [= <- <-]; simpl; split_and!; try done; lia. Qed.

Lemma add_spec c t b c' : (0 ≤ wakeup_ c)%Z → AddWaitTask c t = (b, c') →
  max_wakeup_ c' = max_wakeup_ c ∧
  if b then wakeup_ c = 0%Z ∧ wakeup_ c' = 0%Z ∧ wait_queue_ c' = wait_queue_ c ++ [t]
  else (0 < wakeup_ c)%Z ∧ wakeup_ c' = (wakeup_ c - 1)%Z ∧ wait_queue_ c' = wait_queue_ c.
Proof. unfold AddWaitTask. destruct (Z.eqb_spec (wakeup_ c) 0); intros ? [= <- <-]; simpl; split_and!; try done; lia. Qed.

Lemma wakeup_spec c b o c' : Wakeup c = (b, o, c') →
  max_wakeup_ c' = max_wakeup_ c ∧
  match o with
  | Some t => b = true ∧ wakeup_ c' = wakeup_ c ∧ wait_queue_ c = t :: wait_queue_ c'
  | None => wait_queue_ c = [] ∧ wait_queue_ c' = [] ∧
            if b then (wakeup_ c < max_wakeup_ c)%Z ∧ wakeup_ c' = (wakeup_ c + 1)%Z
            else (max_wakeup_ c ≤ wakeup_ c)%Z ∧ c' = c
  end.
Proof.
  unfold Wakeup. destruct (wait_queue_ c) as [|t r] eqn:Eq.
  - destruct (Z.leb_spec (max_wakeup_ c) (wakeup_ c)); intros [= <- <- <-]; simpl; split_and!; try done.
  - intros [= <- <- <-]. simpl. by split_and!.
Qed.

Lemma block_erase_spec c t b c' : erase c t = (b, c') →
  max_wakeup_ c' = max_wakeup_ c ∧ wakeup_ c' = wakeup_ c ∧
  if b then t ∈ wait_queue_ c ∧ wait_queue_ c' = filter (.≠ t) (wait_queue_ c) else t ∉ wait_queue_ c ∧ c' = c.
Proof. unfold erase. case_decide; intros [= <- <-]; simpl; by split_and!. Qed.

Ltac use_specs Hb :=
  repeat match goal with
  | H : CoBlockWait_enter _ = (?b, _) |- _ => apply enter_spec in H as (? & ? & ?); [|exact (proj1 Hb)]
  | H : TryBlockWait _ = (?b, _) |- _ => apply try_spec in H as (? & ? & ?); [|exact (proj1 Hb)]
  | H : AddWaitTask _ _ = (?b, _) |- _ => apply add_spec in H as (? & ?); [|exact (proj1 Hb)]
  | H : Wakeup _ = _ |- _ => apply wakeup_spec in H as (? & ?)
  | H : erase _ _ = (true, _) |- _ => apply block_erase_spec in H as (? & ? & ?)
  end.

(** Bounds and the absence of lost signals: facts on [obj] alone. *)
Lemma core_step s l s' : inv s → step s l s' →
  (0 ≤ wakeup_ (obj s') ≤ max_wakeup_ (obj s'))%Z ∧
  ((0 < wakeup_ (obj s'))%Z → wait_queue_ (obj s') = []) ∧ NoDup (wait_queue_ (obj s')).
Proof.
  intros [Hb Hl Hn Hq _] Hs. destruct Hs; simpl in *; use_specs Hb; destruct Hb as [Hb1 Hb2];
    try (split_and!; auto; fail).
  - destruct H2 as [? ?]. rewrite H1. split_and!; [lia|lia| |done]. intros _. apply Hl. lia.
  - destruct H2 as [? ?]. rewrite H1. split_and!; [lia|lia| |done]. intros _. apply Hl. lia.
  - destruct H2 as [? ->]. by split_and!.
  - destruct H1 as (? & ? & ->). split_and!; [lia|lia| |done]. intros _. apply Hl. lia.
  - destruct H1 as (? & ? & E). rewrite E. split_and!; [lia|lia|lia|].
    apply NoDup_app. split_and!; [done| |apply NoDup_singleton].
    intros x Hx ->%list_elem_of_singleton. apply Hq in Hx. congruence.
  - destruct H0 as (_ & ? & E). rewrite E in *. split_and!; [lia|lia| |].
    + intros Hp. specialize (Hl ltac:(lia)). done.
    + by apply NoDup_cons in Hn as [_ Hn].
  - destruct H0 as (E & E' & ? & ?). rewrite E'. split_and!; [lia|lia|done|apply NoDup_nil_2].
  - destruct H0 as (E & E' & ? & ->). by split_and!.
  - destruct H4 as [Hin E]. rewrite E. split_and!; [lia|lia| |by apply NoDup_filter].
    intros Hp. rewrite (Hl ltac:(lia)) in Hin. by apply elem_of_nil in Hin.
Qed.

Lemma queue_step s l s' : inv s → step s l s' →
  ∀ t, t ∈ wait_queue_ (obj s') ↔ pc_ (tasks s' t) = Waiting.
Proof.
  intros [Hb Hl Hn Hq _] Hs u. pose proof (Hq u) as Hqu.
  destruct Hs; simpl in *; use_specs Hb;
    repeat match goal with H : _ ∧ _ |- _ => destruct H end; subst;
    repeat match goal with H : wait_queue_ ?c' = _ |- _ => rewrite H in * end;
    fupd_cases; simpl in *; rewrite ?elem_of_app, ?list_elem_of_singleton, ?elem_of_cons, ?list_elem_of_filter in *;
    try (split; intros; naive_solver congruence).
  - split; [|done]. intros Hin. apply NoDup_cons in Hn as [Hn _]. done.
Qed.

Lemma timer_step s l s' : inv s → step s l s' →
  ∀ t seq st, timers s' t = Some (seq, st) →
    seq = block_sequence_ (tasks s' t) ∧
    (pc_ (tasks s' t) = Waiting ∨ pc_ (tasks s' t) = Popped ∨ (pc_ (tasks s' t) = Erased ∧ st = Checked)).
Proof.
  intros [_ _ _ Hq Ht] Hs u seq' st Hu.
  destruct Hs; simpl in *;
    try (match goal with H : Wakeup _ = (_, Some _, _) |- _ => apply wakeup_spec in H as (_ & _ & _ & Hw) end;
         assert (Hpc : pc_ (ts t) = Waiting) by (apply Hq; rewrite Hw; left));
    try (match goal with H : context [if timed_ ?x then _ else _] |- _ => destruct (timed_ x) end);
    try (match goal with H : context [(?a =? ?b)%Z] |- _ => destruct (Z.eqb_spec a b) end);
    fupd_cases; simpl in *; simplify_eq; try (by apply (Ht _ _ _ Hu)); try (specialize (Ht _ _ _ Hu); intuition congruence);
    auto.
  - match goal with H : tm t = Some _ |- _ => specialize (Ht _ _ _ H); intuition congruence end.
Qed.

Lemma block_inv_step s l s' : inv s → step s l s' → inv s'.
Proof.
  intros Hi Hs. destruct (core_step _ _ _ Hi Hs) as (H1 & H2 & H3).
  split; eauto using queue_step, timer_step.
Qed.

(** ** What the labels of a run say *)
Definition is_post (l : label) : bool := match l with LPost | LPostTo _ => true | _ => false end.
Definition is_acquire (l : label) : bool := match l with LNow _ | LGrant _ | LPostTo _ => true | _ => false end.
Definition begins (t : nat) (l : label) : bool := match l with LBegin u => bool_decide (u = t) | _ => false end.
Definition ends (t : nat) (l : label) : bool :=
  match l with LGrant u | LPostTo u | LTimeout u => bool_decide (u = t) | _ => false end.
Definition pending (p : pc) : nat := match p with Switching | Waiting => 1 | _ => 0 end.

Record acct (w : Z) (s : state) (ls : list label) : Prop := Acct {
  acct_inv : inv s;
  acct_tokens : wakeup_ (obj s) = (w + Z.of_nat (count is_post ls) - Z.of_nat (count is_acquire ls))%Z;
  acct_waits : ∀ t, count (begins t) ls = count (ends t) ls + pending (pc_ (tasks s t));
}.

Lemma acct_step w s ls l s' : acct w s ls → step s l s' → acct w s' (ls ++ [l]).
Proof.
  intros [Hi Ht Hw] Hs. split; [by eapply block_inv_step| |].
  - rewrite !count_app. pose proof (inv_bounds _ Hi) as Hb.
    destruct Hs; simpl in *; use_specs Hb; repeat match goal with H : _ ∧ _ |- _ => destruct H end; subst; lia.
  - intros t. rewrite !count_app, Hw. pose proof (inv_queue _ Hi) as Hq.
    destruct Hs; simpl in *;
      try (match goal with H : Wakeup _ = (_, Some ?u, _) |- _ =>
             apply wakeup_spec in H as (_ & _ & _ & Hwk);
             assert (Hpc : pc_ (ts u) = Waiting) by (apply Hq; rewrite Hwk; left) end);
      try (match goal with H : erase _ ?u = (true, _) |- _ =>
             apply block_erase_spec in H as (_ & _ & [Hin _]); apply Hq in Hin as Hpc end);
      repeat case_bool_decide; fupd_cases; simplify_eq; simpl;
      repeat match goal with H : pc_ (_ ?u) = _ |- _ => rewrite H in *; clear H end; simpl; lia.
Qed.

Lemma acct_run w m s0 ls s : (0 ≤ w ≤ m)%Z → init w m s0 → run step s0 ls s → acct w s ls.
Proof.
  intros Hw Hi Hr. apply (invariant_run step (acct w) (acct_step w) s0 ls s Hr []).
  split; [by eapply block_inv_init| |].
  - destruct Hi as [-> _]. simpl. lia.
  - intros t. destruct Hi as [_ [_ Hi]]. destruct (Hi t) as [-> _]. done.
Qed.

Lemma step_max s l s' : step s l s' → inv s → max_wakeup_ (obj s') = max_wakeup_ (obj s).
Proof. intros Hs [Hb _ _ _ _]. destruct Hs; simpl in *; use_specs Hb; done. Qed.

(** C10: a [BlockObject] is a counting semaphore, in every interleaving of waits (timed or not),
    wakeups and expiring timers: the count stays between 0 and [max_wakeup_] and equals the
    initial count plus the successful wakeups minus the waits that obtained a signal, so no
    signal is lost or invented, even when a timeout races with a wakeup; no signal is stored
    while a task waits (no lost wakeup); each blocking wait ends at most once, by a signal or
    by its timeout, never both; a timer is alive only while the wait that armed it lasts. *)
Theorem BlockObject_counting_semaphore w m s0 ls s :
  (0 ≤ w ≤ m)%Z → init w m s0 → run step s0 ls s →
  (0 ≤ wakeup_ (obj s) ≤ max_wakeup_ (obj s))%Z ∧
  wakeup_ (obj s) = (w + Z.of_nat (count is_post ls) - Z.of_nat (count is_acquire ls))%Z ∧
  ((0 < wakeup_ (obj s))%Z → wait_queue_ (obj s) = []) ∧
  (∀ t, t ∈ wait_queue_ (obj s) ↔ pc_ (tasks s t) = Waiting) ∧
  (∀ t, count (begins t) ls = count (ends t) ls + pending (pc_ (tasks s t))) ∧
  (∀ t seq st, timers s t = Some (seq, st) →
     seq = block_sequence_ (tasks s t) ∧ pc_ (tasks s t) ≠ Running ∧ pc_ (tasks s t) ≠ Switching).
Proof.
  intros Hw Hi Hr. destruct (acct_run w m s0 ls s Hw Hi Hr) as [[H1 H2 H3 H4 H5] Ht Hc].
  split_and!; try done; try lia; try (intros t; apply H4).
  intros t seq st E. destruct (H5 _ _ _ E) as [-> Hp]. intuition congruence.
Qed.

Definition quiet : nat → task := λ _, Task Running false 0 false false.

Lemma BlockObject_counting_semaphore_witness :
  ∃ s, run step (State (new 0 1) quiet (λ _, None)) [LBegin 7; LTau; LPostTo 7; LTau] s ∧
       (0 ≤ wakeup_ (obj s) ≤ max_wakeup_ (obj s))%Z.
Proof.
  assert (Hex : ∃ s, run step (State (new 0 1) quiet (λ _, None)) [LBegin 7; LTau; LPostTo 7; LTau] s).
  { eexists. eapply run_cons; [by eapply (step_wait_block _ _ _ _ 7 5)|].
    eapply run_cons; [by eapply (step_add_wait _ _ _ _ 7)|].
    eapply run_cons; [by eapply (step_wakeup_task _ _ _ _ 7)|].
    eapply run_cons; [|apply run_nil]. apply (step_resume _ _ _ 7); [done|]. intros seq. done. }
  destruct Hex as [s Hr]. exists s. split; [exact Hr|].
  assert (Hi : init 0 1 (State (new 0 1) quiet (λ _, None))) by (split; [done|]; split; [done|]; done).
  destruct (BlockObject_counting_semaphore 0 1 _ _ s ltac:(lia) Hi Hr) as [Hb _]. exact Hb.
Defined.

(** A waiter is served when its turn comes: [Wakeup] takes the oldest waiting task, and the
    others move up. *)
Lemma Wakeup_fifo c t r : wait_queue_ c = t :: r →
  Wakeup c = (true, Some t, Core (wakeup_ c) (max_wakeup_ c) r).
Proof. intros E. unfold Wakeup. by rewrite E. Qed.

(** ** Waits outside a coroutine and waits of zero length *)

(** The polling loop of [CoBlockWaitTimed] on a plain thread: [env i] is the object as the
    other threads leave it before the [i]-th poll, [elapsed i] the time when the poll is over. *)
(*@ libgo/libgo/block_object.cpp 57-64 BlockObject::CoBlockWaitTimed *)
Fixpoint CoBlockWaitTimed_thread (fuel i : nat) (env : nat → core → core) (elapsed : nat → Z) (timeo : Z) (c : core) :
    option (bool * core) :=
  match fuel with
  | O => None
  | S fuel =>
      let '(ok, c') := TryBlockWait (env i c) in
      if ok then Some (false, c')
      else if (elapsed i <? timeo)%Z then CoBlockWaitTimed_thread fuel (S i) env elapsed timeo c'
      else Some (false, c')
  end.

(** On a plain thread, a timed wait reports a timeout whatever happens, also when it took
    a signal: with a signal available at the first poll it returns false and the signal is
    gone.  The wait ends when the time is up at some poll: the fuel is the number of polls. *)
Theorem CoBlockWaitTimed_thread_false :
  (∀ fuel i env elapsed timeo c b c',
     CoBlockWaitTimed_thread fuel i env elapsed timeo c = Some (b, c') → b = false) ∧
  (∀ fuel elapsed timeo w m q, (0 < w)%Z →
     CoBlockWaitTimed_thread (S fuel) 0 (λ _ c, c) elapsed timeo (Core w m q) = Some (false, Core (w - 1) m q)) ∧
  (∀ k i env elapsed timeo c, (timeo <= elapsed (i + k)%nat)%Z →
     ∃ c', CoBlockWaitTimed_thread (S k) i env elapsed timeo c = Some (false, c')).
Proof.
  split_and!.
  - induction fuel as [|fuel IH]; intros i env elapsed timeo c b c'; simpl; [done|].
    destruct (TryBlockWait (env i c)) as [[] c1]; [by intros [= <- <-]|].
    destruct (elapsed i <? timeo)%Z; [apply IH|by intros [= <- <-]].
  - intros fuel elapsed timeo w m q Hw. simpl. unfold TryBlockWait. simpl.
    by destruct (Z.eqb_spec w 0); [lia|].
  - induction k as [|k IH]; intros i env elapsed timeo c Hk; cbn [CoBlockWaitTimed_thread];
      destruct (TryBlockWait (env i c)) as [[] c1]; try by eexists.
    + rewrite Nat.add_0_r in Hk. destruct (Z.ltb_spec (elapsed i) timeo); [lia|by eexists].
    + destruct (elapsed i <? timeo)%Z; [|by eexists]. apply IH. by replace (S i + k) with (i + S k) by lia.
Qed.

(** A coroutine's timed wait of length zero (what [CoBlockWaitTimed(deadline)] asks for
    when the deadline has passed) arms no timer: once it waits, no sequence of steps in which
    nobody posts ends the wait. *)
Theorem zero_timeout_never_expires s0 t ls s :
  inv s0 → pc_ (tasks s0 t) = Switching → timed_ (tasks s0 t) = false → wakeup_ (obj s0) = 0%Z →
  run step s0 ls s → count is_post ls = 0 →
  (pc_ (tasks s t) = Switching ∨ pc_ (tasks s t) = Waiting) ∧ timers s t = None.
Proof.
  intros Hi Hp Ht Hw Hr Hc.
  assert (Hgen : inv s ∧ (pc_ (tasks s t) = Switching ∨ pc_ (tasks s t) = Waiting) ∧ timed_ (tasks s t) = false ∧
                 timers s t = None ∧ wakeup_ (obj s) = 0%Z); [|tauto].
  assert (Htm : timers s0 t = None).
  { destruct (timers s0 t) as [[seq st]|] eqn:E; [|done]. destruct (inv_timer _ Hi _ _ _ E) as [_ H].
    intuition congruence. }
  assert (Hor : pc_ (tasks s0 t) = Switching ∨ pc_ (tasks s0 t) = Waiting) by auto. clear Hp.
  induction Hr as [s|s l s1 ls s2 Hs Hr IH]; [by split_and!|]. simpl in Hc.
  pose proof (block_inv_step _ _ _ Hi Hs) as Hi1. pose proof (inv_bounds _ Hi) as Hb.
  apply IH; clear IH; try done; try lia;
    destruct Hs; simpl in *; use_specs Hb; repeat match goal with H : _ ∧ _ |- _ => destruct H end; try lia;
    try done; fupd_cases; simpl; simplify_eq; try congruence; auto;
    try (destruct (timed_ (ts t0)) eqn:Et; fupd_cases; congruence);
    try (intuition congruence).
Qed.

Definition stuck0 : state :=
  State (new 0 1) (fupd quiet 7 (Task Switching true 1 false false)) (λ _, None).

Lemma zero_timeout_never_expires_witness :
  inv stuck0 ∧ ∃ s, run step stuck0 [LTau] s ∧ pc_ (tasks s 7) = Waiting ∧ timers s 7 = None.
Proof.
  assert (Hi : inv stuck0).
  { split; simpl; try done; [apply NoDup_nil_2|]. intros t. split; [by intros ?%elem_of_nil|].
    by fupd_cases. }
  split; [exact Hi|]. eexists.
  assert (Hr : run step stuck0 [LTau] (State (Core 0 1 [7]) (fupd (tasks stuck0) 7 (set_pc Waiting (tasks stuck0 7))) (λ _, None))).
  { eapply run_cons; [|apply run_nil].
    exact (step_add_wait (new 0 1) (Core 0 1 [7]) (tasks stuck0) (λ _, None) 7 eq_refl eq_refl). }
  split; [exact Hr|]. split; [done|].
  apply (zero_timeout_never_expires stuck0 7 [LTau] _ Hi eq_refl eq_refl eq_refl Hr eq_refl).
Defined.

End BlockObject.

(** ** The coroutine mutex *)
Module CoMutex.
Import BlockObject.

(*@ libgo/libgo/co_mutex.cpp 9-12 CoMutex::CoMutex *)
Definition new_mutex : core := new 1 1.

(*@ libgo/libgo/co_mutex.cpp 23-26 CoMutex::try_lock *)
Definition try_lock (c : core) : bool * core := TryBlockWait c.

(*@ libgo/libgo/co_mutex.cpp 28-31 CoMutex::is_lock *)
Definition is_lock (c : core) : bool := negb (IsWakeup c).

(** [inr] is the task handed the mutex, if any; [inl] is [ec_mutex_double_unlock]. *)
(*@ libgo/libgo/co_mutex.cpp 33-37 CoMutex::unlock *)
Definition unlock (c : core) : (unit + option nat) * core :=
  match Wakeup c with
  | (false, _, c') => (inl tt, c')
  | (true, o, c') => (inr o, c')
  end.

(** C11: a [CoMutex] provides mutual exclusion in every interleaving of [lock], [try_lock] and
    [unlock]: the number of successful locks minus the number of successful unlocks is 0 or 1;
    it is 1 exactly when [is_lock] says so; unlocking a mutex that nobody holds raises
    [ec_mutex_double_unlock] and changes nothing; unlocking a held one hands it to the oldest
    waiter without letting a third task in between. *)
Theorem CoMutex_mutual_exclusion s0 ls s :
  init 1 1 s0 → run step s0 ls s →
  (let holders := (Z.of_nat (count is_acquire ls) - Z.of_nat (count is_post ls))%Z in
   (0 ≤ holders ≤ 1)%Z ∧ is_lock (obj s) = bool_decide (holders = 1%Z) ∧
   (holders = 0%Z → unlock (obj s) = (inl tt, obj s) ∧ fst (try_lock (obj s)) = true) ∧
   (holders = 1%Z → fst (try_lock (obj s)) = false ∧
      match wait_queue_ (obj s) with
      | [] => ∃ c, unlock (obj s) = (inr None, c) ∧ is_lock c = false
      | t :: r => ∃ c, unlock (obj s) = (inr (Some t), c) ∧ is_lock c = true ∧ wait_queue_ c = r
      end)).
Proof.
  intros Hi Hr. destruct (acct_run 1 1 s0 ls s ltac:(lia) Hi Hr) as [[Hb Hl _ _ _] Ht _].
  assert (Hm : max_wakeup_ (obj s) = 1%Z).
  { clear -Hi Hr. assert (Hi0 : inv s0) by (eapply (block_inv_init 1 1); [lia|done]).
    assert (H0 : max_wakeup_ (obj s0) = 1%Z) by by destruct Hi as [-> _].
    clear Hi. induction Hr as [s|s l s1 ls s2 Hs Hr IH]; [done|]. apply IH; [by eapply block_inv_step|].
    by rewrite (step_max _ _ _ Hs). }
  set (holders := (Z.of_nat (count is_acquire ls) - Z.of_nat (count is_post ls))%Z).
  assert (Hw : wakeup_ (obj s) = (1 - holders)%Z) by lia.
  assert (Hh : (0 ≤ holders ≤ 1)%Z) by lia. clearbody holders. split; [done|].
  unfold is_lock, IsWakeup, unlock, try_lock, TryBlockWait, Wakeup. rewrite Hw, Hm. split_and!.
  - destruct (Z.ltb_spec 0 (1 - holders)); case_bool_decide; simpl; done || lia.
  - intros ->. rewrite Hl by lia. simpl. done.
  - intros ->. simpl. split; [done|]. destruct (wait_queue_ (obj s)) as [|t r]; simpl; eexists; split_and!; done.
Qed.

Lemma CoMutex_mutual_exclusion_witness :
  ∃ s, run step (State new_mutex quiet (λ _, None)) [LNow 3; LBegin 4; LTau; LPostTo 4] s ∧ is_lock (obj s) = true.
Proof.
  assert (Hex : ∃ s, run step (State new_mutex quiet (λ _, None)) [LNow 3; LBegin 4; LTau; LPostTo 4] s).
  { eexists. eapply run_cons; [by eapply (step_wait_now _ _ _ _ 3)|].
    eapply run_cons; [by eapply (step_wait_block _ _ _ _ 4 0)|].
    eapply run_cons; [by eapply (step_add_wait _ _ _ _ 4)|].
    eapply run_cons; [by eapply (step_wakeup_task _ _ _ _ 4)|apply run_nil]. }
  destruct Hex as [s Hr]. exists s. split; [exact Hr|].
  assert (Hi : init 1 1 (State new_mutex quiet (λ _, None))) by (split; [done|]; split; [done|]; done).
  destruct (CoMutex_mutual_exclusion _ _ s Hi Hr) as (_ & E & _). exact E.
Defined.

End CoMutex.
