(* ===== verification/Waiters.v ===== *)
(** * Threads blocked on a semaphore

    Shared by the components built from several [BlockObject]s: the threads are a list of
    program points, [w] selects the points that wait on a given semaphore, and [blk_ok] says
    that the semaphore's queue holds exactly those threads.  Each critical section of Block.v
    keeps it. *)
From S2P Require Import Prelude Block.
Import BlockObject.

Module Waiters.

Definition b2n (b : bool) : nat := if b then 1 else 0.

Lemma count_le {A} (f : A → bool) l : count f l ≤ length l.
Proof. induction l as [|x l IH]; simpl; [lia|]. destruct (f x); lia. Qed.

Lemma count_zero {A} (f : A → bool) l : (∀ x, x ∈ l → f x = false) → count f l = 0.
Proof.
  induction l as [|x l IH]; intros H; simpl; [done|]. rewrite (H x) by left. rewrite IH; [done|].
  intros y Hy. apply H. by right.
Qed.

Lemma count_pos {A} (f : A → bool) l x : x ∈ l → f x = true → 1 ≤ count f l.
Proof.
  induction 1 as [x l|x y l Hx IH]; intros Hf; simpl; [rewrite Hf; lia|]. specialize (IH Hf). lia.
Qed.

Lemma count_insert {A} (f : A → bool) l t x y : l !! t = Some x →
  count f (<[t := y]> l) + b2n (f x) = count f l + b2n (f y).
Proof.
  revert t. induction l as [|z l IH]; intros [|t] Hx; simpl in *; try done.
  - injection Hx as ->. unfold b2n. lia.
  - specialize (IH _ Hx). lia.
Qed.

Section Waiters.
Context {P : Type}.
(** A semaphore whose queue holds the threads that [w] selects. *)
Record blk_ok (mx : Z) (w : P → bool) (c : core) (ts : list P) : Prop := BlkOk {
  blk_bounds : (0 ≤ wakeup_ c)%Z;
  blk_max : max_wakeup_ c = mx;
  blk_lost : (0 < wakeup_ c)%Z → wait_queue_ c = [];
  blk_nodup : NoDup (wait_queue_ c);
  blk_queue : ∀ t, t ∈ wait_queue_ c ↔ ∃ p, ts !! t = Some p ∧ w p = true;
}.

Lemma blk_thread mx w c ts t x y :
  blk_ok mx w c ts → ts !! t = Some x → w x = false → w y = false → blk_ok mx w c (<[t := y]> ts).
Proof.
  intros [H1 Hm H2 H3 H4] Hx Wx Wy. split; try done. intros u. rewrite H4.
  destruct (decide (u = t)) as [->|Hne].
  - rewrite list_lookup_insert_eq by (by eapply lookup_lt_Some). rewrite Hx. naive_solver congruence.
  - by rewrite list_lookup_insert_ne.
Qed.

Lemma blk_dec mx w c c' ts :
  blk_ok mx w c ts → (0 < wakeup_ c)%Z → wakeup_ c' = (wakeup_ c - 1)%Z → max_wakeup_ c' = max_wakeup_ c →
  wait_queue_ c' = wait_queue_ c → blk_ok mx w c' ts.
Proof.
  intros [H1 Hm H2 H3 H4] Hp Hw Hmx Hq. split; rewrite ?Hq, ?Hmx; try done; [lia|]. intros _. by apply H2.
Qed.

Lemma blk_enqueue mx w c c' ts t x y :
  blk_ok mx w c ts → ts !! t = Some x → w x = false → w y = true → AddWaitTask c t = (true, c') →
  blk_ok mx w c' (<[t := y]> ts) ∧ wakeup_ c' = wakeup_ c.
Proof.
  intros [H1 Hm H2 H3 H4] Hx Wx Wy Ha. apply add_spec in Ha as (Hmx & Hz & Hz' & Hq); [|done].
  split; [|lia]. split.
  - lia.
  - congruence.
  - lia.
  - rewrite Hq. apply NoDup_app. split_and!; [done| |apply NoDup_singleton].
    intros u Hu ->%list_elem_of_singleton. apply H4 in Hu as (p & Hp & Wp). congruence.
  - intros u. rewrite Hq, elem_of_app, H4, list_elem_of_singleton. destruct (decide (u = t)) as [->|Hne].
    + rewrite list_lookup_insert_eq by (by eapply lookup_lt_Some). naive_solver.
    + rewrite list_lookup_insert_ne by done. naive_solver.
Qed.

Lemma blk_erase mx w c c' ts t x y :
  blk_ok mx w c ts → ts !! t = Some x → w y = false → erase c t = (true, c') →
  blk_ok mx w c' (<[t := y]> ts) ∧ wakeup_ c' = wakeup_ c.
Proof.
  intros [H1 Hm H2 H3 H4] Hx Wy He. apply block_erase_spec in He as (Hmx & Hw & Hin & Hq). split; [|done].
  split; rewrite ?Hq, ?Hw.
  - done.
  - congruence.
  - intros Hp. rewrite (H2 Hp) in Hin. by apply elem_of_nil in Hin.
  - by apply NoDup_filter.
  - intros u. rewrite list_elem_of_filter, H4. destruct (decide (u = t)) as [->|Hne].
    + rewrite list_lookup_insert_eq by (by eapply lookup_lt_Some). naive_solver congruence.
    + rewrite list_lookup_insert_ne by done. naive_solver.
Qed.

(** The effect of [Wakeup] on the thread it takes out of the queue. *)
Definition wake (grant : P → P) (o : option nat) (ts : list P) : list P :=
  match o with Some t => alter grant t ts | None => ts end.

Lemma length_wake grant o ts : length (wake grant o ts) = length ts.
Proof. destruct o; [apply length_alter|done]. Qed.

(** [Wakeup]: the count goes up or the oldest waiting thread gets the signal. *)
Lemma blk_wakeup grant mx w c b o c' ts :
  blk_ok mx w c ts → (∀ p, w (grant p) = false) → Wakeup c = (b, o, c') → (wakeup_ c < mx)%Z →
  blk_ok mx w c' (wake grant o ts) ∧
  match o with
  | None => wakeup_ c' = (wakeup_ c + 1)%Z
  | Some t => wakeup_ c' = wakeup_ c ∧ ∃ p, ts !! t = Some p ∧ w p = true
  end.
Proof.
  intros [H1 Hm H2 H3 H4] Hg Hw Hlt. apply wakeup_spec in Hw as (Hmx & Ho). destruct o as [t|]; simpl.
  - destruct Ho as (-> & Hw & Hq). rewrite Hq in *. destruct (proj1 (H4 t)) as (p & Hp & Wp); [left|].
    apply NoDup_cons in H3 as [Hn H3]. split; [|eauto]. split; try done.
    + lia.
    + congruence.
    + intros Hp0. specialize (H2 ltac:(lia)). done.
    + intros u. destruct (decide (u = t)) as [->|Hne].
      * rewrite list_lookup_alter_eq, Hp. simpl. split; [done|]. intros (p' & [= <-] & Wp'). by rewrite Hg in Wp'.
      * rewrite list_lookup_alter_ne by done. rewrite <- H4, elem_of_cons. naive_solver.
  - destruct Ho as (Hq & Hq' & Hb). destruct b; [|rewrite Hm in Hb; lia]. destruct Hb as [_ Hb].
    split; [|done]. split; rewrite ?Hq'; try done.
    + lia.
    + congruence.
    + apply NoDup_nil_2.
    + rewrite Hq in H4. done.
Qed.

Lemma wake_insert grant t p ts : ts !! t = Some p → wake grant (Some t) ts = <[t := grant p]> ts.
Proof.
  intros Hp. simpl. apply list_eq. intros i. destruct (decide (i = t)) as [->|Hne].
  - rewrite list_lookup_alter_eq, Hp. simpl. by rewrite list_lookup_insert_eq by (by eapply lookup_lt_Some).
  - by rewrite list_lookup_alter_ne, list_lookup_insert_ne by done.
Qed.

End Waiters.
End Waiters.
