(* ===== verification/Channel.v ===== *)
(** * Channels (libgo/channel.h)

    A channel is two semaphores ([write_block_] counts the free slots, [read_block_] the
    readable elements) around a queue.  Any number of coroutines push and pop; a step is one
    critical section of a semaphore or of [queue_lock_].  The semaphores are the [core]s of
    Block.v with their queues of waiting tasks. *)
From S2P Require Import Prelude Block Waiters.
Import BlockObject Waiters.

Module Channel.
Section Channel.
Context {V : Type}.

(** Where a coroutine is inside an operation of the channel. *)
Inductive pc :=
| Idle
| PushSwitching (v : V) (timed : bool) | PushWaiting (v : V) (timed : bool)
| PushGranted (v : V)                     (* holds a write signal *)
| PushStored                              (* pushed, before read_block_.Wakeup() *)
| PopStarted (timed : bool)               (* after write_block_.Wakeup() *)
| PopSwitching (timed : bool) | PopWaiting (timed : bool)
| PopGranted                              (* holds a read signal *)
| PopRetry | PopCancel.                   (* the loop of TryPop and of a TimedPop that timed out *)

(*@ libgo/libgo/channel.h 98-108 ChannelImpl *)
Record state := State { write_block_ : core; read_block_ : core; queue_ : list V; threads : list pc }.

Inductive label := LStore (v : V) | LTake (v : V) | LRet (t : nat) (ok : bool) | LTau | LEmptyFront.

(** The wait is over for a task taken out of a wait queue. *)
Definition grant (p : pc) : pc :=
  match p with PushWaiting v _ => PushGranted v | PopWaiting _ => PopGranted | p => p end.

Abbreviation wake := (Waiters.wake grant).

(*@ libgo/libgo/channel.h 106-108 ChannelImpl::ChannelImpl *)
Definition init (capacity n : nat) : state :=
  State (new (Z.of_nat capacity) npos) (new 0 npos) [] (replicate n Idle).

(*@ libgo/libgo/channel.h 120-276 ChannelImpl *)
Inductive step : state → label → state → Prop :=
| push_now wb wb' rb q ts t v :
    ts !! t = Some Idle → CoBlockWait_enter wb = (true, wb') →
    step (State wb rb q ts) LTau (State wb' rb q (<[t := PushGranted v]> ts))
| push_block wb wb' rb q ts t v timed :
    ts !! t = Some Idle → CoBlockWait_enter wb = (false, wb') →
    step (State wb rb q ts) LTau (State wb' rb q (<[t := PushSwitching v timed]> ts))
| push_added wb wb' rb q ts t v timed :
    ts !! t = Some (PushSwitching v timed) → AddWaitTask wb t = (false, wb') →
    step (State wb rb q ts) LTau (State wb' rb q (<[t := PushGranted v]> ts))
| push_wait wb wb' rb q ts t v timed :
    ts !! t = Some (PushSwitching v timed) → AddWaitTask wb t = (true, wb') →
    step (State wb rb q ts) LTau (State wb' rb q (<[t := PushWaiting v timed]> ts))
| push_timeout wb wb' rb q ts t v :
    ts !! t = Some (PushWaiting v true) → erase wb t = (true, wb') →
    step (State wb rb q ts) (LRet t false) (State wb' rb q (<[t := Idle]> ts))
| try_push wb wb' rb q ts t v ok :
    ts !! t = Some Idle → TryBlockWait wb = (ok, wb') →
    step (State wb rb q ts) (if ok then LTau else LRet t false)
         (State wb' rb q (<[t := if ok then PushGranted v else Idle]> ts))
| push_store wb rb q ts t v :
    ts !! t = Some (PushGranted v) →
    step (State wb rb q ts) (LStore v) (State wb rb (q ++ [v]) (<[t := PushStored]> ts))
| push_post wb rb rb' q ts t b o :
    ts !! t = Some PushStored → Wakeup rb = (b, o, rb') →
    step (State wb rb q ts) (LRet t true) (State wb rb' q (wake o (<[t := Idle]> ts)))
| pop_start wb wb' rb q ts t b o p :
    ts !! t = Some Idle → Wakeup wb = (b, o, wb') → p = PopRetry ∨ (∃ timed, p = PopStarted timed) →
    step (State wb rb q ts) LTau (State wb' rb q (wake o (<[t := p]> ts)))
| pop_now wb rb rb' q ts t timed :
    ts !! t = Some (PopStarted timed) → CoBlockWait_enter rb = (true, rb') →
    step (State wb rb q ts) LTau (State wb rb' q (<[t := PopGranted]> ts))
| pop_block wb rb rb' q ts t timed :
    ts !! t = Some (PopStarted timed) → CoBlockWait_enter rb = (false, rb') →
    step (State wb rb q ts) LTau (State wb rb' q (<[t := PopSwitching timed]> ts))
| pop_added wb rb rb' q ts t timed :
    ts !! t = Some (PopSwitching timed) → AddWaitTask rb t = (false, rb') →
    step (State wb rb q ts) LTau (State wb rb' q (<[t := PopGranted]> ts))
| pop_wait wb rb rb' q ts t timed :
    ts !! t = Some (PopSwitching timed) → AddWaitTask rb t = (true, rb') →
    step (State wb rb q ts) LTau (State wb rb' q (<[t := PopWaiting timed]> ts))
| pop_timeout wb rb rb' q ts t :
    ts !! t = Some (PopWaiting true) → erase rb t = (true, rb') →
    step (State wb rb q ts) LTau (State wb rb' q (<[t := PopCancel]> ts))
| pop_retry wb rb rb' q ts t ok :
    ts !! t = Some PopRetry → TryBlockWait rb = (ok, rb') →
    step (State wb rb q ts) LTau (State wb rb' q (<[t := if ok then PopGranted else PopCancel]> ts))
| pop_cancel wb wb' rb q ts t ok :
    ts !! t = Some PopCancel → TryBlockWait wb = (ok, wb') →
    step (State wb rb q ts) (if ok then LRet t false else LTau)
         (State wb' rb q (<[t := if ok then Idle else PopRetry]> ts))
| pop_take wb rb v q ts t :
    ts !! t = Some PopGranted →
    step (State wb rb (v :: q) ts) (LTake v) (State wb rb q (<[t := Idle]> ts))
| pop_take_empty wb rb ts t :
    (* queue_.front() of an empty queue *)
    ts !! t = Some PopGranted → step (State wb rb [] ts) LEmptyFront (State wb rb [] ts).

Definition is_push_wait (p : pc) : bool := match p with PushWaiting _ _ => true | _ => false end.
Definition is_pop_wait (p : pc) : bool := match p with PopWaiting _ => true | _ => false end.
Definition is_push_granted (p : pc) : bool := match p with PushGranted _ => true | _ => false end.
Definition is_push_stored (p : pc) : bool := match p with PushStored => true | _ => false end.
Definition is_pop_granted (p : pc) : bool := match p with PopGranted => true | _ => false end.
Definition is_popping (p : pc) : bool :=
  match p with
  | PopStarted _ | PopSwitching _ | PopWaiting _ | PopGranted | PopRetry | PopCancel => true
  | _ => false
  end.
Record inv (cap : nat) (s : state) : Prop := Inv {
  inv_wb : blk_ok npos is_push_wait (write_block_ s) (threads s);
  inv_rb : blk_ok npos is_pop_wait (read_block_ s) (threads s);
  inv_items : Z.of_nat (length (queue_ s)) =
    (wakeup_ (read_block_ s) + Z.of_nat (count is_pop_granted (threads s) + count is_push_stored (threads s)))%Z;
  inv_slots : (wakeup_ (write_block_ s) + Z.of_nat (count is_push_granted (threads s) + length (queue_ s)))%Z =
    Z.of_nat (cap + count is_popping (threads s));
}.

Lemma chan_inv_init cap n : (Z.of_nat cap ≤ npos)%Z → inv cap (init cap n).
Proof.
  intros Hc. assert (Hcnt : ∀ f : pc → bool, f Idle = false → count f (replicate n Idle) = 0).
  { intros f Hf. induction n as [|n IH]; simpl; [done|]. by rewrite Hf, IH. }
  assert (Hlk : ∀ t p, replicate n Idle !! t = Some p → p = Idle) by (intros t p Hp; by apply lookup_replicate in Hp as [-> _]).
  split; simpl; rewrite ?Hcnt by done; try lia.
  - split; simpl; try done; [lia|apply NoDup_nil_2|]. intros t. split; [by intros ?%elem_of_nil|].
    intros (p & Hp%Hlk & Wp). by subst.
  - split; simpl; try done; [apply NoDup_nil_2|]. intros t. split; [by intros ?%elem_of_nil|].
    intros (p & Hp%Hlk & Wp). by subst.
Qed.

(** One thread moves, no semaphore involved or only its count. *)
Ltac counts Hx y :=
  pose proof (count_insert is_push_granted _ _ _ y Hx); pose proof (count_insert is_push_stored _ _ _ y Hx);
  pose proof (count_insert is_pop_granted _ _ _ y Hx); pose proof (count_insert is_popping _ _ _ y Hx);
  unfold b2n in *; simpl in *.

Definition counts_of (ts : list pc) : nat * nat * nat * nat :=
  (count is_push_granted ts, count is_push_stored ts, count is_pop_granted ts, count is_popping ts).

(** [read_block_.Wakeup()]: the count goes up, or one more reader holds a signal. *)
Lemma wake_reader rb b o rb' ts wb :
  blk_ok npos is_push_wait wb ts → blk_ok npos is_pop_wait rb ts → Wakeup rb = (b, o, rb') → (wakeup_ rb < npos)%Z →
  blk_ok npos is_push_wait wb (wake o ts) ∧ blk_ok npos is_pop_wait rb' (wake o ts) ∧
  count is_push_granted (wake o ts) = count is_push_granted ts ∧
  count is_push_stored (wake o ts) = count is_push_stored ts ∧
  count is_popping (wake o ts) = count is_popping ts ∧
  (wakeup_ rb' + Z.of_nat (count is_pop_granted (wake o ts)) = wakeup_ rb + Z.of_nat (count is_pop_granted ts) + 1)%Z.
Proof.
  intros Hwb Hrb Hw Hlt. destruct (blk_wakeup grant npos _ _ _ _ _ _ Hrb ltac:(by intros []) Hw Hlt) as [Hrb' Ho].
  destruct o as [t|]; [|split_and!; try done; simpl; lia].
  destruct Ho as (Hc & p & Hp & Wp). destruct p; try done.
  rewrite (wake_insert grant _ _ _ Hp) in *. simpl grant in *. counts Hp PopGranted.
  split_and!; try done; try lia. by eapply blk_thread.
Qed.

(** [write_block_.Wakeup()]: the count goes up, or one more writer holds a signal. *)
Lemma wake_writer wb b o wb' ts rb :
  blk_ok npos is_push_wait wb ts → blk_ok npos is_pop_wait rb ts → Wakeup wb = (b, o, wb') → (wakeup_ wb < npos)%Z →
  blk_ok npos is_push_wait wb' (wake o ts) ∧ blk_ok npos is_pop_wait rb (wake o ts) ∧
  count is_pop_granted (wake o ts) = count is_pop_granted ts ∧
  count is_push_stored (wake o ts) = count is_push_stored ts ∧
  count is_popping (wake o ts) = count is_popping ts ∧
  (wakeup_ wb' + Z.of_nat (count is_push_granted (wake o ts)) = wakeup_ wb + Z.of_nat (count is_push_granted ts) + 1)%Z.
Proof.
  intros Hwb Hrb Hw Hlt. destruct (blk_wakeup grant npos _ _ _ _ _ _ Hwb ltac:(by intros []) Hw Hlt) as [Hwb' Ho].
  destruct o as [t|]; [|split_and!; try done; simpl; lia].
  destruct Ho as (Hc & p & Hp & Wp). destruct p as [|?|v timed|?|?|?|?|?|?|?|?]; try done.
  rewrite (wake_insert grant _ _ _ Hp) in *. simpl grant in *. counts Hp (PushGranted v).
  split_and!; try done; try lia. by eapply blk_thread.
Qed.

Lemma step_length s l s' : step s l s' → length (threads s') = length (threads s).
Proof. intros Hs. destruct Hs; simpl; rewrite ?length_wake, ?length_insert; done. Qed.

Lemma chan_inv_step cap s l s' :
  (Z.of_nat (cap + length (threads s)) < npos)%Z → inv cap s → step s l s' → inv cap s'.
Proof.
  intros Hn [Hwb Hrb Hit Hsl] Hs. pose proof (blk_bounds _ _ _ _ Hwb) as Bw. pose proof (blk_bounds _ _ _ _ Hrb) as Br.
  pose proof (count_le is_popping (threads s)) as Hle.
  destruct Hs; simpl in *.
  - apply enter_spec in H0 as (Hm & Hq & Hp & Hd); [|done]. counts H (PushGranted v).
    split; simpl; [|by eapply blk_thread|lia|lia]. eapply blk_thread; [|done..]. by eapply blk_dec.
  - apply enter_spec in H0 as (Hm & Hq & Hp & ->); [|done]. counts H (PushSwitching v timed).
    split; simpl; [by eapply blk_thread|by eapply blk_thread|lia|lia].
  - apply add_spec in H0 as (Hm & Hp & Hd & Hq); [|done]. counts H (PushGranted v).
    split; simpl; [|by eapply blk_thread|lia|lia]. eapply blk_thread; [|done..]. by eapply blk_dec.
  - destruct (blk_enqueue _ _ _ _ _ _ _ (PushWaiting v timed) Hwb H eq_refl eq_refl H0) as [Hwb' E]. counts H (PushWaiting v timed).
    split; simpl; [done|by eapply blk_thread|lia|lia].
  - destruct (blk_erase _ _ _ _ _ _ _ Idle Hwb H eq_refl H0) as [Hwb' E]. counts H (Idle).
    split; simpl; [done|by eapply blk_thread|lia|lia].
  - apply try_spec in H0 as (Hm & Hq & Hd); [|done]. destruct ok.
    + destruct Hd as [Hp Hd]. counts H (PushGranted v).
      split; simpl; [|by eapply blk_thread|lia|lia]. eapply blk_thread; [|done..]. by eapply blk_dec.
    + destruct Hd as [_ ->]. counts H (Idle). split; simpl; [by eapply blk_thread|by eapply blk_thread|lia|lia].
  - counts H PushStored. split; simpl; [by eapply blk_thread|by eapply blk_thread| |]; rewrite length_app; simpl; lia.
  - counts H (Idle). assert (Hwb' : blk_ok npos is_push_wait wb (<[t:=Idle]> ts)) by by eapply blk_thread.
    assert (Hrb' : blk_ok npos is_pop_wait rb (<[t:=Idle]> ts)) by by eapply blk_thread.
    destruct (wake_reader _ _ _ _ _ _ Hwb' Hrb' H0 ltac:(lia)) as (W1 & W2 & C1 & C2 & C3 & C4).
    split; simpl; [done|done|lia|lia].
  - assert (Hp : is_push_wait p = false ∧ is_pop_wait p = false ∧ is_push_granted p = false ∧ is_push_stored p = false
                 ∧ is_pop_granted p = false ∧ is_popping p = true) by (destruct H1 as [->|[? ->]]; done).
    destruct Hp as (P1 & P2 & P3 & P4 & P5 & P6). counts H p. rewrite P3, P4, P5, P6 in *.
    assert (Hwb' : blk_ok npos is_push_wait wb (<[t:=p]> ts)) by by eapply blk_thread.
    assert (Hrb' : blk_ok npos is_pop_wait rb (<[t:=p]> ts)) by by eapply blk_thread.
    destruct (wake_writer _ _ _ _ _ _ Hwb' Hrb' H0 ltac:(lia)) as (W1 & W2 & C1 & C2 & C3 & C4).
    split; simpl; [done|done|lia|lia].
  - apply enter_spec in H0 as (Hm & Hq & Hp & Hd); [|done]. counts H (PopGranted).
    split; simpl; [by eapply blk_thread| |lia|lia]. eapply blk_thread; [|done..]. by eapply blk_dec.
  - apply enter_spec in H0 as (Hm & Hq & Hp & ->); [|done]. counts H (PopSwitching timed).
    split; simpl; [by eapply blk_thread|by eapply blk_thread|lia|lia].
  - apply add_spec in H0 as (Hm & Hp & Hd & Hq); [|done]. counts H (PopGranted).
    split; simpl; [by eapply blk_thread| |lia|lia]. eapply blk_thread; [|done..]. by eapply blk_dec.
  - destruct (blk_enqueue _ _ _ _ _ _ _ (PopWaiting timed) Hrb H eq_refl eq_refl H0) as [Hrb' E]. counts H (PopWaiting timed).
    split; simpl; [by eapply blk_thread|done|lia|lia].
  - destruct (blk_erase _ _ _ _ _ _ _ PopCancel Hrb H eq_refl H0) as [Hrb' E]. counts H PopCancel.
    split; simpl; [by eapply blk_thread|done|lia|lia].
  - apply try_spec in H0 as (Hm & Hq & Hd); [|done]. destruct ok.
    + destruct Hd as [Hp Hd]. counts H PopGranted.
      split; simpl; [by eapply blk_thread| |lia|lia]. eapply blk_thread; [|done..]. by eapply blk_dec.
    + destruct Hd as [_ ->]. counts H PopCancel. split; simpl; [by eapply blk_thread|by eapply blk_thread|lia|lia].
  - apply try_spec in H0 as (Hm & Hq & Hd); [|done]. destruct ok.
    + destruct Hd as [Hp Hd]. counts H (Idle).
      split; simpl; [|by eapply blk_thread|lia|lia]. eapply blk_thread; [|done..]. by eapply blk_dec.
    + destruct Hd as [_ ->]. counts H PopRetry. split; simpl; [by eapply blk_thread|by eapply blk_thread|lia|lia].
  - counts H (Idle). split; simpl; [by eapply blk_thread|by eapply blk_thread|lia|lia].
  - by split.
Qed.

(** ** Runs *)
Definition stores (ls : list label) : list V := omap (λ l, match l with LStore v => Some v | _ => None end) ls.
Definition takes (ls : list label) : list V := omap (λ l, match l with LTake v => Some v | _ => None end) ls.

Record run_inv (cap n : nat) (s : state) (ls : list label) : Prop := RunInv {
  ri_inv : inv cap s;
  ri_len : length (threads s) = n;
  ri_fifo : stores ls = takes ls ++ queue_ s;
  ri_front : LEmptyFront ∉ ls;
}.

Lemma run_inv_step cap n s ls l s' :
  (Z.of_nat (cap + n) < npos)%Z → run_inv cap n s ls → step s l s' → run_inv cap n s' (ls ++ [l]).
Proof.
  intros Hn [Hi Hl Hf He] Hs. split.
  - eapply chan_inv_step; [|done|done]. by rewrite Hl.
  - by rewrite (step_length _ _ _ Hs).
  - unfold stores, takes in *. rewrite !omap_app, Hf.
    destruct Hs; simpl; try (destruct ok); simpl; rewrite ?app_nil_r, <- ?app_assoc; done.
  - intros [Hin|Hin%list_elem_of_singleton]%elem_of_app; [done|].
    pose proof (inv_items _ _ Hi) as Hit. pose proof (blk_bounds _ _ _ _ (inv_rb _ _ Hi)) as Hb.
    destruct Hs; try (destruct ok); try done; simpl in *.
    apply (count_insert is_pop_granted _ _ _ Idle) in H. unfold b2n in H. simpl in H. lia.
Qed.

Lemma run_inv_run cap n ls s :
  (Z.of_nat (cap + n) < npos)%Z → run step (init cap n) ls s → run_inv cap n s ls.
Proof.
  intros Hn Hr. eapply (invariant_run step (run_inv cap n) _ _ _ _ Hr []).
  split; [apply chan_inv_init; lia|apply length_replicate|done|by intros ?%elem_of_nil].
  Unshelve. intros s' ls' l s''. by apply run_inv_step.
Qed.

(** C8: in every interleaving of any number of coroutines that push, pop, try or time out on a
    channel, [front()] is never called on an empty queue; what has been taken followed by what
    is still queued is what was stored, in order (no element lost, duplicated or reordered);
    and the queue never holds more than the capacity plus the readers that have announced
    themselves: it can hold more than the capacity ([beyond_capacity]). *)
Theorem Channel_safety cap n ls s :
  (Z.of_nat (cap + n) < npos)%Z → run step (init cap n) ls s →
  LEmptyFront ∉ ls ∧ stores ls = takes ls ++ queue_ s ∧
  length (queue_ s) ≤ cap + count is_popping (threads s).
Proof.
  intros Hn Hr. destruct (run_inv_run cap n ls s Hn Hr) as [Hi _ Hf He]. split_and!; try done.
  pose proof (inv_slots _ _ Hi). pose proof (blk_bounds _ _ _ _ (inv_wb _ _ Hi)). lia.
Qed.

(** C9: no lost wakeup and no deadlock: when every coroutine is idle or blocked on the channel,
    a blocked reader means that the queue is empty and no writer is blocked, and a blocked
    writer means that no reader is blocked and the queue is full. *)
Theorem Channel_no_deadlock cap n ls s :
  (Z.of_nat (cap + n) < npos)%Z → run step (init cap n) ls s →
  (∀ p, p ∈ threads s → p = Idle ∨ is_push_wait p = true ∨ is_pop_wait p = true) →
  (∀ p, p ∈ threads s → is_pop_wait p = true → queue_ s = [] ∧ ∀ p', p' ∈ threads s → is_push_wait p' = false) ∧
  (∀ p, p ∈ threads s → is_push_wait p = true →
     length (queue_ s) = cap ∧ ∀ p', p' ∈ threads s → is_pop_wait p' = false).
Proof.
  intros Hn Hr Hq. destruct (run_inv_run cap n ls s Hn Hr) as [[Hwb Hrb Hit Hsl] _ _ _].
  assert (Hz : ∀ f : pc → bool, f Idle = false → (∀ p, is_push_wait p = true → f p = false) →
            (∀ p, is_pop_wait p = true → f p = false) → count f (threads s) = 0).
  { intros f F1 F2 F3. apply count_zero. intros p Hp. destruct (Hq p Hp) as [->|[?|?]]; auto. }
  rewrite (Hz is_push_granted), (Hz is_pop_granted), (Hz is_push_stored) in * by (done || by intros []).
  assert (Hwait : ∀ w c, blk_ok npos w c (threads s) → ∀ p, p ∈ threads s → w p = true → wakeup_ c = 0%Z).
  { intros w c [B1 _ B2 _ B4] p [t Ht]%list_elem_of_lookup Wp. destruct (decide (0 < wakeup_ c)%Z) as [Hp|Hp]; [|lia].
    specialize (B2 Hp). assert (Hin : t ∈ wait_queue_ c) by (apply B4; eauto). rewrite B2 in Hin. by apply elem_of_nil in Hin. }
  assert (Hboth : ∀ p p', p ∈ threads s → is_pop_wait p = true → p' ∈ threads s → is_push_wait p' = true → False).
  { intros p p' Hp Wp Hp' Wp'. pose proof (Hwait _ _ Hrb p Hp Wp). pose proof (Hwait _ _ Hwb p' Hp' Wp').
    assert (1 ≤ count is_popping (threads s)) by (eapply count_pos; [exact Hp|by destruct p]). lia. }
  split.
  - intros p Hp Wp. pose proof (Hwait _ _ Hrb p Hp Wp). split.
    + apply length_zero_iff_nil. lia.
    + intros p' Hp'. destruct (is_push_wait p') eqn:E; [|done]. exfalso. exact (Hboth p p' Hp Wp Hp' E).
  - intros p Hp Wp. pose proof (Hwait _ _ Hwb p Hp Wp).
    assert (Hno : ∀ p', p' ∈ threads s → is_pop_wait p' = false).
    { intros p' Hp'. destruct (is_pop_wait p') eqn:E; [|done]. exfalso. exact (Hboth p' p Hp' E Hp Wp). }
    split; [|done]. rewrite (count_zero is_popping) in Hsl; [lia|].
    intros p' Hp'. destruct (Hq p' Hp') as [->|[E|E]]; [done|by destruct p'|].
    rewrite (Hno p' Hp') in E. done.
Qed.

End Channel.

(** Thread 1 waits to read; thread 0 pushes 5 through a channel of capacity 0. *)
Definition demo_labels : list (@label nat) := [LTau; LTau; LTau; LTau; LStore 5; LRet 0 true; LTake 5].

Lemma demo_run : ∃ s : @state nat, run step (init 0 2) demo_labels s ∧ queue_ s = [].
Proof.
  eexists. split.
  - unfold demo_labels.
    eapply run_cons; [eapply (pop_start _ _ _ _ _ 1 _ _ (PopStarted false)); [done|done|right; by eexists]|].
    eapply run_cons; [by eapply (pop_block _ _ _ _ _ 1)|].
    eapply run_cons; [by eapply (pop_wait _ _ _ _ _ 1)|].
    eapply run_cons; [by eapply (push_now _ _ _ _ _ 0 5)|].
    eapply run_cons; [by eapply (push_store _ _ _ _ 0)|].
    eapply run_cons; [by eapply (push_post _ _ _ _ _ 0)|].
    eapply run_cons; [by eapply (pop_take _ _ _ _ _ 1)|apply run_nil].
  - done.
Qed.

(** While that reader is on its way the queue holds an element, and its capacity is 0. *)
Example beyond_capacity : ∃ s : @state nat, run step (init 0 2) [LTau; LTau; LTau; LTau; LStore 5] s ∧ queue_ s = [5].
Proof.
  eexists. split.
  - eapply run_cons; [eapply (pop_start _ _ _ _ _ 1 _ _ (PopStarted false)); [done|done|right; by eexists]|].
    eapply run_cons; [by eapply (pop_block _ _ _ _ _ 1)|].
    eapply run_cons; [by eapply (pop_wait _ _ _ _ _ 1)|].
    eapply run_cons; [by eapply (push_now _ _ _ _ _ 0 5)|].
    eapply run_cons; [by eapply (push_store _ _ _ _ 0)|apply run_nil].
  - done.
Qed.

Lemma Channel_safety_witness :
  ∃ s : @state nat, run step (init 0 2) demo_labels s ∧ stores demo_labels = takes demo_labels ++ queue_ s.
Proof.
  destruct demo_run as (s & Hr & _). exists s. split; [exact Hr|].
  destruct (Channel_safety 0 2 demo_labels s ltac:(vm_compute; done) Hr) as (_ & E & _). exact E.
Defined.

(** A reader blocks on an empty channel. *)
Lemma Channel_no_deadlock_witness :
  ∃ s : @state nat, run step (init 0 1) [LTau; LTau; LTau] s ∧
    ∀ p, p ∈ threads s → is_pop_wait p = true → queue_ s = [].
Proof.
  assert (Hex : ∃ s : @state nat, run step (init 0 1) [LTau; LTau; LTau] s ∧ threads s = [PopWaiting false]).
  { eexists. split.
    - eapply run_cons; [eapply (pop_start _ _ _ _ _ 0 _ _ (PopStarted false)); [done|done|right; by eexists]|].
      eapply run_cons; [by eapply (pop_block _ _ _ _ _ 0)|].
      eapply run_cons; [by eapply (pop_wait _ _ _ _ _ 0)|apply run_nil].
    - reflexivity. }
  destruct Hex as (s & Hr & Hs). exists s. split; [exact Hr|]. intros p Hp Wp.
  destruct (Channel_no_deadlock 0 1 [LTau; LTau; LTau] s ltac:(vm_compute; done) Hr) as [H _].
  - rewrite Hs. intros p' ->%list_elem_of_singleton. by right; right.
  - by destruct (H p Hp Wp).
Defined.

End Channel.
