(* ===== verification/VoidChannel.v ===== *)
(** * Channels without values (libgo/channel.h, [Channel<void>])

    The specialisation has the two semaphores and no queue: a push passes on a signal, and a pop ends
    where it gets one.  It is shown to be a channel of values that carry nothing. *)
From S2P Require Import Prelude Block Waiters Channel.
Import BlockObject Waiters.

Module VoidChannel.
Import Channel(Idle, PushSwitching, PushWaiting, PushGranted, PopStarted, PopSwitching, PopWaiting, PopGranted, PopRetry, PopCancel).

(** The points of the program are those of Channel.v; [PushStored], behind the queue, does not occur. *)
Abbreviation pc := (@Channel.pc unit).
Abbreviation wake := (Waiters.wake (@Channel.grant unit)).

(*@ libgo/libgo/channel.h 354-363 ChannelImpl *)
Record state := State { write_block_ : core; read_block_ : core; threads : list pc }.
Inductive label := LPushed (t : nat) | LPopped (t : nat) | LFailed (t : nat) | LTau.

(*@ libgo/libgo/channel.h 361-363 ChannelImpl::ChannelImpl *)
Definition init (capacity n : nat) : state := State (new (Z.of_nat capacity) npos) (new 0 npos) (replicate n Idle).

(*@ libgo/libgo/channel.h 365-368 empty *)
Definition empty (s : state) : bool := negb (IsWakeup (read_block_ s)).

(*@ libgo/libgo/channel.h 370-432 ChannelImpl *)
Inductive step : state → label → state → Prop :=
| push_now wb wb' rb ts t :
    ts !! t = Some Idle → CoBlockWait_enter wb = (true, wb') →
    step (State wb rb ts) LTau (State wb' rb (<[t := PushGranted tt]> ts))
| push_block wb wb' rb ts t timed :
    ts !! t = Some Idle → CoBlockWait_enter wb = (false, wb') →
    step (State wb rb ts) LTau (State wb' rb (<[t := PushSwitching tt timed]> ts))
| push_added wb wb' rb ts t timed :
    ts !! t = Some (PushSwitching tt timed) → AddWaitTask wb t = (false, wb') →
    step (State wb rb ts) LTau (State wb' rb (<[t := PushGranted tt]> ts))
| push_wait wb wb' rb ts t timed :
    ts !! t = Some (PushSwitching tt timed) → AddWaitTask wb t = (true, wb') →
    step (State wb rb ts) LTau (State wb' rb (<[t := PushWaiting tt timed]> ts))
| push_timeout wb wb' rb ts t :
    ts !! t = Some (PushWaiting tt true) → erase wb t = (true, wb') →
    step (State wb rb ts) (LFailed t) (State wb' rb (<[t := Idle]> ts))
| try_push wb wb' rb ts t ok :
    ts !! t = Some Idle → TryBlockWait wb = (ok, wb') →
    step (State wb rb ts) (if ok then LTau else LFailed t) (State wb' rb (<[t := if ok then PushGranted tt else Idle]> ts))
| push_post wb rb rb' ts t b o :
    ts !! t = Some (PushGranted tt) → Wakeup rb = (b, o, rb') →
    step (State wb rb ts) (LPushed t) (State wb rb' (wake o (<[t := Idle]> ts)))
| pop_start wb wb' rb ts t b o p :
    ts !! t = Some Idle → Wakeup wb = (b, o, wb') → p = PopRetry ∨ (∃ timed, p = PopStarted timed) →
    step (State wb rb ts) LTau (State wb' rb (wake o (<[t := p]> ts)))
| pop_now wb rb rb' ts t timed :
    ts !! t = Some (PopStarted timed) → CoBlockWait_enter rb = (true, rb') →
    step (State wb rb ts) LTau (State wb rb' (<[t := PopGranted]> ts))
| pop_block wb rb rb' ts t timed :
    ts !! t = Some (PopStarted timed) → CoBlockWait_enter rb = (false, rb') →
    step (State wb rb ts) LTau (State wb rb' (<[t := PopSwitching timed]> ts))
| pop_added wb rb rb' ts t timed :
    ts !! t = Some (PopSwitching timed) → AddWaitTask rb t = (false, rb') →
    step (State wb rb ts) LTau (State wb rb' (<[t := PopGranted]> ts))
| pop_wait wb rb rb' ts t timed :
    ts !! t = Some (PopSwitching timed) → AddWaitTask rb t = (true, rb') →
    step (State wb rb ts) LTau (State wb rb' (<[t := PopWaiting timed]> ts))
| pop_timeout wb rb rb' ts t :
    ts !! t = Some (PopWaiting true) → erase rb t = (true, rb') →
    step (State wb rb ts) LTau (State wb rb' (<[t := PopCancel]> ts))
| pop_retry wb rb rb' ts t ok :
    ts !! t = Some PopRetry → TryBlockWait rb = (ok, rb') →
    step (State wb rb ts) LTau (State wb rb' (<[t := if ok then PopGranted else PopCancel]> ts))
| pop_cancel wb wb' rb ts t ok :
    ts !! t = Some PopCancel → TryBlockWait wb = (ok, wb') →
    step (State wb rb ts) (if ok then LFailed t else LTau) (State wb' rb (<[t := if ok then Idle else PopRetry]> ts))
| pop_done wb rb ts t :
    ts !! t = Some PopGranted → step (State wb rb ts) (LPopped t) (State wb rb (<[t := Idle]> ts)).

(** ** It is a channel of [unit] *)
Import Channel(PushStored, queue_, LStore, LTake, LRet, inv, inv_items, inv_rb, is_pop_granted, is_popping, run_inv, run_inv_run, ri_inv, ri_fifo, stores, takes, inv_slots, inv_wb, is_push_granted, is_push_stored).

(** What a step is in the channel of values. *)
Definition expand (l : label) : list (@Channel.label unit) :=
  match l with
  | LPushed t => [LStore tt; LRet t true]
  | LPopped _ => [LTake tt]
  | LFailed t => [LRet t false]
  | LTau => [Channel.LTau]
  end.
Definition expansion (ls : list label) : list (@Channel.label unit) := concat (map expand ls).
Definition with_queue (s : state) (q : list unit) : @Channel.state unit := Channel.State (write_block_ s) (read_block_ s) q (threads s).

(** Who has got a signal finds an element. *)
Lemma granted_finds cap (s : @Channel.state unit) t : inv cap s → Channel.threads s !! t = Some PopGranted → queue_ s ≠ [].
Proof.
  intros Hi Ht Hq. pose proof (inv_items _ _ Hi) as Hit. pose proof (blk_bounds _ _ _ _ (inv_rb _ _ Hi)).
  assert (1 ≤ count is_pop_granted (Channel.threads s)) by (by eapply count_pos; [eapply list_elem_of_lookup_2; exact Ht|]).
  rewrite Hq in Hit. simpl in Hit. lia.
Qed.

Lemma single_step (s : @Channel.state unit) l s' : Channel.step s l s' → run Channel.step s [l] s'.
Proof. intros H. eapply run_cons; [exact H|apply run_nil]. Qed.

Lemma step_simulated cap s l s' q : inv cap (with_queue s q) → step s l s' → ∃ q', run Channel.step (with_queue s q) (expand l) (with_queue s' q').
Proof.
  intros Hi Hs. destruct Hs; unfold with_queue in *; cbn in *; try (exists q; apply single_step; by econstructor).
  - exists q. destruct ok; apply single_step; [by eapply (Channel.try_push _ _ _ _ _ _ tt true)|by eapply (Channel.try_push _ _ _ _ _ _ tt false)].
  - exists (q ++ [tt]). eapply run_cons; [by eapply Channel.push_store|]. apply single_step. rewrite <- (list_insert_insert_eq ts t Idle PushStored).
    eapply Channel.push_post; [|done]. apply list_lookup_insert_eq. by eapply lookup_lt_Some.
  - exists q. destruct ok; apply single_step; [by eapply (Channel.pop_cancel _ _ _ _ _ _ true)|by eapply (Channel.pop_cancel _ _ _ _ _ _ false)].
  - destruct q as [|[] q]; [by destruct (granted_finds _ _ t Hi)|]. exists q. apply single_step. by eapply Channel.pop_take.
Qed.

(** A run is a run of the channel of [unit], where the same calls return the same in the same order. *)
Theorem VoidChannel_refines cap n ls s : (Z.of_nat (cap + n) < npos)%Z → run step (init cap n) ls s →
  ∃ q, run Channel.step (Channel.init cap n) (expansion ls) (with_queue s q).
Proof.
  intros Hn Hr. apply (invariant_run step (λ s ls, ∃ q, run Channel.step (Channel.init cap n) (expansion ls) (with_queue s q))) with (pre := []) in Hr; [done| |].
  - intros s1 ls1 l s2 [q Hq] Hs. destruct (step_simulated cap s1 l s2 q) as [q' Hq']; [|done|].
    + exact (ri_inv _ _ _ _ (run_inv_run cap n _ _ Hn Hq)).
    + exists q'. unfold expansion. rewrite map_app, concat_app. cbn [map concat]. rewrite app_nil_r. by eapply run_app.
  - exists []. apply run_nil.
Qed.

(** [PushStored] does not occur. *)
Definition none_stored (ts : list pc) : Prop := ∀ i p, ts !! i = Some p → is_push_stored p = false.
Lemma insert_none_stored ts t p : none_stored ts → is_push_stored p = false → none_stored (<[t := p]> ts).
Proof. intros Hc Hp i x [(-> & -> & _)|[_ Hx]]%list_lookup_insert_Some; [done|by eapply Hc]. Qed.
Lemma wake_none_stored o ts : none_stored ts → none_stored (wake o ts).
Proof.
  intros Hc i p Hp. destruct o as [t|]; [|by eapply Hc]. simpl in Hp. destruct (decide (i = t)) as [-> |Hne].
  - rewrite list_lookup_alter_eq in Hp. apply fmap_Some in Hp as (x & Hx%Hc & ->). by destruct x.
  - rewrite list_lookup_alter_ne in Hp by done. by eapply Hc.
Qed.
Lemma never_stored cap n ls s : run step (init cap n) ls s → count is_push_stored (threads s) = 0.
Proof.
  intros Hr. apply (invariant_run step (λ s _, none_stored (threads s))) with (pre := []) in Hr.
  - apply count_zero. intros p [i Hp]%list_elem_of_lookup. by eapply Hr.
  - intros s1 _ l s2 H0 Hs. destruct Hs; cbn in *; try apply wake_none_stored; (apply insert_none_stored; [done|]); try (by destruct ok); try done.
    by destruct H2 as [-> |[? ->]].
  - intros i p Hp. by apply lookup_replicate in Hp as [-> _].
Qed.

(** The calls that have returned. *)
Definition pushed (ls : list label) : nat := length (omap (λ l, match l with LPushed t => Some t | _ => None end) ls).
Definition popped (ls : list label) : nat := length (omap (λ l, match l with LPopped t => Some t | _ => None end) ls).
Lemma expansion_counts ls : length (stores (expansion ls)) = pushed ls ∧ length (takes (expansion ls)) = popped ls.
Proof.
  unfold expansion, pushed, popped. induction ls as [|l ls [IH1 IH2]]; [done|]. unfold stores, takes in *. cbn [map concat]. rewrite !omap_app, !length_app, IH1, IH2.
  by destruct l.
Qed.

(** No signal is lost or made: of the pushes that have returned, so many have not been answered by a
    pop as there are signals to be taken or that have been, and those are not more than the capacity
    and the pops under way. *)
Theorem VoidChannel_counts cap n ls s : (Z.of_nat (cap + n) < npos)%Z → run step (init cap n) ls s →
  ∃ k, pushed ls = popped ls + k ∧ Z.of_nat k = (wakeup_ (read_block_ s) + Z.of_nat (count is_pop_granted (threads s)))%Z ∧
    k ≤ cap + count is_popping (threads s).
Proof.
  intros Hn Hr. destruct (VoidChannel_refines cap n ls s Hn Hr) as [q Hq]. destruct (run_inv_run cap n _ _ Hn Hq) as [Hi _ Hf _].
  destruct (expansion_counts ls) as [<- <-]. exists (length q). rewrite Hf, length_app. split; [done|].
  pose proof (inv_items _ _ Hi) as Hit. pose proof (inv_slots _ _ Hi) as Hsl. pose proof (blk_bounds _ _ _ _ (inv_wb _ _ Hi)) as Hb.
  cbn in *. rewrite (never_stored cap n ls s Hr) in Hit. lia.
Qed.
End VoidChannel.
