(* ===== verification/ThreadPool.v ===== *)
(** * The thread pool behind co_await (libgo/thread_pool.h, thread_pool.cpp, coroutine.h)

    A coroutine hands a function to threads that are not the scheduler's, and waits on a channel for
    its result.  The queue is a [TSQueue], which has its own lock; a worker first looks without the
    mutex, and sleeps on a condition variable when there is nothing.

    A step is one access to the queue, one operation on the mutex or the condition variable, or one
    action on a task.  A task is the element of the queue, known by the number of its call; its channel
    has room for the one result, so that a worker need not wait to write it (Channel.v). *)
From S2P Require Import Prelude Waiters.
Import Waiters.

#[local] Open Scope nat_scope.

Module ThreadPool.
Section ThreadPool.
Context {V : Type}.

(** Where the caller is in [co_await]: [AsyncWait] before the mutex and between [push] and the end of
    its scope, on the channel, and behind it.  A caller of [AsyncWait] itself may also let go of the
    channel. *)
Inductive caller_pc := Calling | Notifying | Receiving | Received (v : V) | Dropped.

(** Where the task is; [Held] by a worker. *)
Inductive place := Unpushed | Queued | Held (w : nat) | Deleted.

(** A call: the function, by its result, its caller, and its channel.  [at_] and [ran], how often the
    function was called, are not in the program. *)
(*@ libgo/libgo/thread_pool.h 10-49 TPElem *)
Record call := Call { fn_ : V; caller : caller_pc; ch_ : option V; at_ : place; ran : nat }.

(** A worker in [RunLoop]: in [get], asleep, with a task in [Do], behind the function, and behind [Do]. *)
Inductive worker_pc := Getting | Locking | Checking | Waiting | Popping | Doing (e : nat) | Running (e : nat) | Sending (e : nat) | Deleting (e : nat).

Inductive owner := Worker (w : nat) | Caller (c : nat).

(*@ libgo/libgo/thread_pool.h 51-81 ThreadPool *)
Record state := State { elem_list_ : list nat; cond_mtx_ : option owner; workers : list worker_pc; calls : list call }.

Inductive label := LCall | LRun (e : nat) | LAnswer (e : nat) (v : V) | LSpurious | LDrop | LTau.

Definition with_caller (p : caller_pc) (k : call) : call := Call (fn_ k) p (ch_ k) (at_ k) (ran k).
Definition with_place (a : place) (k : call) : call := Call (fn_ k) (caller k) (ch_ k) a (ran k).
Definition set_worker (w : nat) (p : worker_pc) (s : state) : state := State (elem_list_ s) (cond_mtx_ s) (<[w := p]> (workers s)) (calls s).
Definition set_call (e : nat) (f : call → call) (s : state) : state := State (elem_list_ s) (cond_mtx_ s) (workers s) (alter f e (calls s)).
Definition set_mutex (m : option owner) (s : state) : state := State (elem_list_ s) m (workers s) (calls s).
Definition set_queue (q : list nat) (s : state) : state := State q (cond_mtx_ s) (workers s) (calls s).
(** A worker has taken the first task. *)
Definition taken (w e : nat) (q : list nat) (s : state) : state := set_worker w (Doing e) (set_call e (with_place (Held w)) (set_queue q s)).

(** [Channel::Unique]: the caller's copy of the channel is gone. *)
(*@ libgo/libgo/channel.h 82-85 Unique *)
Definition Unique (k : call) : bool := match caller k with Dropped | Received _ => true | _ => false end.

(** The caller: [AsyncWait], where [push] and [notify_one] are under the mutex. *)
(*@ libgo/libgo/thread_pool.h 64-74 AsyncWait *)
Inductive async_wait : state → label → state → Prop :=
| push s c k : calls s !! c = Some k → caller k = Calling → cond_mtx_ s = None →
    async_wait s LTau (set_mutex (Some (Caller c)) (set_queue (elem_list_ s ++ [c]) (set_call c (λ k, with_place Queued (with_caller Notifying k)) s)))
| notify_one s c k w : calls s !! c = Some k → caller k = Notifying → workers s !! w = Some Waiting →
    async_wait s LTau (set_mutex None (set_worker w Locking (set_call c (with_caller Receiving) s)))
| notify_nobody s c k : calls s !! c = Some k → caller k = Notifying → (∀ w, workers s !! w ≠ Some Waiting) →
    async_wait s LTau (set_mutex None (set_call c (with_caller Receiving) s)).

(** [co_await]: a new element, [AsyncWait], and the read from the channel. *)
(*@ libgo/libgo/coroutine.h 64-92 __async_wait *)
Inductive co_await : state → label → state → Prop :=
| await s v : co_await s LCall (State (elem_list_ s) (cond_mtx_ s) (workers s) (calls s ++ [Call v Calling None Unpushed 0]))
| await_pushes s l s' : async_wait s l s' → co_await s l s'
| receive s c k v : calls s !! c = Some k → caller k = Receiving → ch_ k = Some v →
    co_await s (LAnswer c v) (set_call c (λ k, Call (fn_ k) (Received v) None (at_ k) (ran k)) s)
| drop s c k : calls s !! c = Some k → caller k = Receiving → co_await s LDrop (set_call c (with_caller Dropped) s).

(** [pop] first without the mutex; then the loop under it, and a second [pop], which may find nothing. *)
(*@ libgo/libgo/thread_pool.cpp 29-38 get *)
Inductive get : state → label → state → Prop :=
| get_first s w e q : workers s !! w = Some Getting → elem_list_ s = e :: q → get s LTau (taken w e q s)
| get_none s w : workers s !! w = Some Getting → elem_list_ s = [] → get s LTau (set_worker w Locking s)
| lock s w : workers s !! w = Some Locking → cond_mtx_ s = None → get s LTau (set_mutex (Some (Worker w)) (set_worker w Checking s))
| check_empty s w : workers s !! w = Some Checking → elem_list_ s = [] → get s LTau (set_mutex None (set_worker w Waiting s))
| check_nonempty s w : workers s !! w = Some Checking → elem_list_ s ≠ [] → get s LTau (set_worker w Popping s)
| spurious s w : workers s !! w = Some Waiting → get s LSpurious (set_worker w Locking s)
| get_second s w e q : workers s !! w = Some Popping → elem_list_ s = e :: q → get s LTau (set_mutex None (taken w e q s))
| get_missed s w : workers s !! w = Some Popping → elem_list_ s = [] → get s LTau (set_mutex None (set_worker w Getting s)).

(** A task whose caller is gone is not run; the result of another goes into its channel. *)
(*@ libgo/libgo/thread_pool.h 19-50 Do *)
Inductive Do : state → label → state → Prop :=
| do_unique s w e k : workers s !! w = Some (Doing e) → calls s !! e = Some k → Unique k = true → Do s LTau (set_worker w (Deleting e) s)
| do_run s w e k : workers s !! w = Some (Doing e) → calls s !! e = Some k → Unique k = false → Do s LTau (set_worker w (Running e) s)
| fn_returns s w e : workers s !! w = Some (Running e) →
    Do s (LRun e) (set_worker w (Sending e) (set_call e (λ k, Call (fn_ k) (caller k) (ch_ k) (at_ k) (S (ran k))) s))
| send s w e : workers s !! w = Some (Sending e) →
    Do s LTau (set_worker w (Deleting e) (set_call e (λ k, Call (fn_ k) (caller k) (Some (fn_ k)) (at_ k) (ran k)) s)).

(*@ libgo/libgo/thread_pool.cpp 17-27 RunLoop *)
Inductive RunLoop : state → label → state → Prop :=
| run_get s l s' : get s l s' → RunLoop s l s'
| run_do s l s' : Do s l s' → RunLoop s l s'
| delete s w e : workers s !! w = Some (Deleting e) → RunLoop s LTau (set_worker w Getting (set_call e (with_place Deleted) s)).

Inductive step : state → label → state → Prop :=
| caller_step s l s' : co_await s l s' → step s l s'
| worker_step s l s' : RunLoop s l s' → step s l s'.

(** The tasks that are left are deleted, and their callers wait for ever. *)
(*@ libgo/libgo/thread_pool.cpp 9-15 ThreadPool::~ThreadPool *)
Definition destroy (s : state) : state := set_queue [] (foldr (λ e, set_call e (with_place Deleted)) s (elem_list_ s)).

Definition start (n : nat) : state := State [] None (replicate n Getting) [].
Definition init (n : nat) (s : state) : Prop := s = start n.

(** ** What holds in every state *)

Definition held (p : worker_pc) : option nat :=
  match p with Doing e | Running e | Sending e | Deleting e => Some e | _ => None end.
(** With the mutex. *)
Definition locked (p : worker_pc) : bool := match p with Checking | Popping => true | _ => false end.
Definition waiting (p : worker_pc) : bool := match p with Waiting => true | _ => false end.
(** About to look into the queue. *)
Definition looking (p : worker_pc) : bool := match p with Getting | Locking | Checking | Popping => true | _ => false end.

Definition pending (k : call) : Prop := caller k = Notifying ∨ caller k = Receiving ∨ caller k = Dropped.
Definition unran (k : call) : Prop := pending k ∧ ch_ k = None ∧ ran k = 0.
(** Answered, or ready to be, or given up. *)
Definition final (k : call) : Prop :=
  ran k = 1 ∧ (ch_ k = Some (fn_ k) ∧ pending k ∨ ch_ k = None ∧ caller k = Received (fn_ k)) ∨
  ran k = 0 ∧ ch_ k = None ∧ caller k = Dropped.
Definition stage (p : worker_pc) (k : call) : Prop :=
  match p with
  | Doing _ | Running _ => unran k
  | Sending _ => pending k ∧ ch_ k = None ∧ ran k = 1
  | Deleting _ => final k
  | _ => False
  end.

Record placed (s : state) : Prop := Placed {
  pl_nodup : NoDup (elem_list_ s);
  pl_queue e : e ∈ elem_list_ s → ∃ k, calls s !! e = Some k ∧ at_ k = Queued;
  pl_worker w p e : workers s !! w = Some p → held p = Some e → ∃ k, calls s !! e = Some k ∧ at_ k = Held w ∧ stage p k;
  pl_call e k : calls s !! e = Some k → match at_ k with
    | Unpushed => caller k = Calling ∧ ch_ k = None ∧ ran k = 0
    | Queued => e ∈ elem_list_ s ∧ unran k
    | Held w => ∃ p, workers s !! w = Some p ∧ held p = Some e
    | Deleted => final k
    end;
}.

Lemma alter_Some {A} (f : A → A) (e : nat) (l : list A) (e' : nat) k' : alter f e l !! e' = Some k' → ∃ k, l !! e' = Some k ∧ k' = (if decide (e = e') then f k else k).
Proof.
  destruct (decide (e = e')) as [->|Hne].
  - rewrite list_lookup_alter_eq. intros (k & -> & Hk)%fmap_Some. by exists k.
  - rewrite list_lookup_alter_ne by done. by exists k'.
Qed.
Lemma alter_at {A} (f : A → A) (e : nat) (l : list A) k : l !! e = Some k → alter f e l !! e = Some (f k).
Proof. intros H. by rewrite list_lookup_alter_eq, H. Qed.
Lemma insert_other {A} (l : list A) (w : nat) x y w' p : l !! w = Some x → l !! w' = Some p → w' = w ∧ p = x ∨ <[w := y]> l !! w' = Some p.
Proof. intros Hx Hp. destruct (decide (w' = w)) as [->|Hne]; [left; split; congruence|right]. by rewrite list_lookup_insert_ne. Qed.

Lemma placed_init n : placed (start n).
Proof. split; [constructor|by intros e ?%elem_of_nil| |done]. intros w p e Hp. by apply lookup_replicate in Hp as [-> _]. Qed.

Lemma placed_mutex s m : placed s → placed (set_mutex m s).
Proof. by intros []. Qed.

(** A worker without a task goes on. *)
Lemma placed_idle s w p p' : placed s → workers s !! w = Some p → held p = None → held p' = None → placed (set_worker w p' s).
Proof.
  intros [H1 H2 H3 H4] Hw Hp Hp'. split; [done|done| |]; cbn.
  - intros w' q e Hq He. apply list_lookup_insert_Some in Hq as [(<- & <- & _)|[_ Hq]]; [congruence|]. by eapply H3.
  - intros e k Hk. specialize (H4 e k Hk). destruct (at_ k) as [| |w'|]; try done. destruct H4 as (q & Hq & He). exists q. split; [|done].
    destruct (insert_other _ _ _ p' _ _ Hw Hq) as [[-> ->]|]; [congruence|done].
Qed.

(** A task where it is, and its call. *)
Lemma placed_call s e f : placed s → (∀ k, calls s !! e = Some k → at_ (f k) = at_ k ∧ at_ k ≠ Unpushed ∧ (unran k → unran (f k)) ∧
  (∀ p, stage p k → stage p (f k)) ∧ (final k → final (f k))) → placed (set_call e f s).
Proof.
  intros [H1 H2 H3 H4] Hf. split; [done| | |]; cbn.
  - intros e' He. destruct (H2 e' He) as (k & Hk & Ha). destruct (decide (e' = e)) as [->|Hne].
    + exists (f k). split; [by apply alter_at|]. destruct (Hf k Hk) as [-> _]. done.
    + exists k. by rewrite list_lookup_alter_ne.
  - intros w p e' Hw He. destruct (H3 w p e' Hw He) as (k & Hk & Ha & Hs). destruct (decide (e' = e)) as [->|Hne].
    + exists (f k). split; [by apply alter_at|]. destruct (Hf k Hk) as (-> & _ & _ & Hst & _). auto.
    + exists k. by rewrite list_lookup_alter_ne.
  - intros e' k' Hk'. apply alter_Some in Hk' as (k & Hk & ->). pose proof (H4 e' k Hk) as H. case_decide as Hd; [subst e'|done].
    destruct (Hf k Hk) as (-> & Hn & Hu & _ & Hfi). destruct (at_ k); [done| |done|auto]. naive_solver.
Qed.

(** A worker with a task, and its call. *)
Lemma placed_work s w p p' e f : placed s → workers s !! w = Some p → held p = Some e → held p' = Some e →
  (∀ k, calls s !! e = Some k → stage p k → at_ (f k) = at_ k ∧ stage p' (f k)) → placed (set_worker w p' (set_call e f s)).
Proof.
  intros [H1 H2 H3 H4] Hw Hp Hp' Hf. destruct (H3 w p e Hw Hp) as (k0 & Hk0 & Ha0 & Hs0). destruct (Hf k0 Hk0 Hs0) as [Ha0' Hs0']. split; [done| | |]; cbn.
  - intros e' He. destruct (H2 e' He) as (k & Hk & Ha). exists k. split; [|done]. rewrite list_lookup_alter_ne; [done|]. intros <-. congruence.
  - intros w' q e' Hq He. apply list_lookup_insert_Some in Hq as [(<- & <- & _)|[Hne Hq]].
    + assert (e' = e) as -> by congruence. exists (f k0). split; [by apply alter_at|]. split; [congruence|done].
    + destruct (H3 w' q e' Hq He) as (k & Hk & Ha & Hs). exists k. split; [|done]. rewrite list_lookup_alter_ne; [done|]. intros <-. congruence.
  - intros e' k' Hk'. apply alter_Some in Hk' as (k & Hk & ->). pose proof (H4 e' k Hk) as H. case_decide as Hd.
    + subst e'. assert (k = k0) as -> by congruence. rewrite Ha0', Ha0. exists p'. split; [|done]. apply list_lookup_insert_eq. by eapply lookup_lt_Some.
    + destruct (at_ k) as [| |w'|]; try done. destruct H as (q & Hq & He). exists q. split; [|done].
      destruct (insert_other _ _ _ p' _ _ Hw Hq) as [[-> ->]|]; [congruence|done].
Qed.

Lemma placed_taken s w p e q : placed s → workers s !! w = Some p → held p = None → elem_list_ s = e :: q → placed (taken w e q s).
Proof.
  intros [H1 H2 H3 H4] Hw Hp Hq. rewrite Hq in *. apply NoDup_cons in H1 as [Hn H1].
  destruct (H2 e ltac:(by left)) as (k0 & Hk0 & Ha0). pose proof (H4 e k0 Hk0) as Hu. rewrite Ha0 in Hu. destruct Hu as [_ Hu]. split; [done| | |]; cbn.
  - intros e' He. destruct (H2 e' ltac:(by right)) as (k & Hk & Ha). exists k. split; [|done]. rewrite list_lookup_alter_ne; [done|]. by intros <-.
  - intros w' p' e' Hw' He. apply list_lookup_insert_Some in Hw' as [(<- & <- & _)|[Hne Hw']].
    + injection He as <-. exists (with_place (Held w) k0). split; [by apply alter_at|]. by split.
    + destruct (H3 w' p' e' Hw' He) as (k & Hk & Ha & Hs). exists k. split; [|done]. rewrite list_lookup_alter_ne; [done|]. intros <-. congruence.
  - intros e' k' Hk'. apply alter_Some in Hk' as (k & Hk & ->). pose proof (H4 e' k Hk) as H. case_decide as Hd.
    + subst e'. cbn. exists (Doing e). split; [|done]. apply list_lookup_insert_eq. by eapply lookup_lt_Some.
    + destruct (at_ k) as [| |w'|]; try done.
      * destruct H as [[->|He]%elem_of_cons Hk2]; [done|by split].
      * destruct H as (p' & Hp' & He). exists p'. split; [|done]. destruct (insert_other _ _ _ (Doing e) _ _ Hw Hp') as [[-> ->]|]; [congruence|done].
Qed.

Lemma placed_push s c k : placed s → calls s !! c = Some k → caller k = Calling →
  placed (set_queue (elem_list_ s ++ [c]) (set_call c (λ k, with_place Queued (with_caller Notifying k)) s)).
Proof.
  intros [H1 H2 H3 H4] Hc Hp. pose proof (H4 c k Hc) as Hk. assert (at_ k = Unpushed) as Ha.
  { destruct (at_ k) as [| |w|]; [done|..].
    - destruct Hk as [_ [Hpe _]]. unfold pending in Hpe. naive_solver congruence.
    - destruct Hk as (p & Hw & He). destruct (H3 w p c Hw He) as (k2 & Hk2 & _ & Hs). assert (k2 = k) as -> by congruence.
      destruct p; try done; simpl in Hs; unfold unran, final, pending in Hs; naive_solver congruence.
    - unfold final, pending in Hk. naive_solver congruence. }
  rewrite Ha in Hk. destruct Hk as (_ & Hch & Hr). split; cbn.
  - apply NoDup_app. split_and!; [done| |apply NoDup_singleton]. intros e He ->%list_elem_of_singleton. destruct (H2 c He) as (k2 & Hk2 & Ha2). congruence.
  - intros e [He| ->%list_elem_of_singleton]%elem_of_app.
    + destruct (H2 e He) as (k2 & Hk2 & Ha2). exists k2. split; [|done]. rewrite list_lookup_alter_ne; [done|]. intros <-. congruence.
    + eexists. split; [by apply alter_at|done].
  - intros w p e Hw He. destruct (H3 w p e Hw He) as (k2 & Hk2 & Ha2 & Hs). exists k2. split; [|done]. rewrite list_lookup_alter_ne; [done|]. intros <-. congruence.
  - intros e k' Hk'. apply alter_Some in Hk' as (k2 & Hk2 & ->). pose proof (H4 e k2 Hk2) as H. case_decide as Hd.
    + subst e. assert (k2 = k) as -> by congruence. cbn. split; [apply elem_of_app; right; by apply list_elem_of_singleton|]. by split_and!; [left|..].
    + destruct (at_ k2); try done. destruct H as [He Hu]. split; [|done]. apply elem_of_app. by left.
Qed.

Lemma placed_await s v : placed s → placed (State (elem_list_ s) (cond_mtx_ s) (workers s) (calls s ++ [Call v Calling None Unpushed 0])).
Proof.
  intros [H1 H2 H3 H4]. assert (∀ e k, calls s !! e = Some k → (calls s ++ [Call v Calling None Unpushed 0]) !! e = Some k) as Hold.
  { intros e k Hk. by apply lookup_app_l_Some. }
  split; cbn; [done|naive_solver..|].
  intros e k [Hk|[_ Hk]]%lookup_app_Some; [by apply H4|]. apply list_lookup_singleton_Some in Hk as [_ <-]. done.
Qed.

(** The caller's part of a call changes. *)
Lemma placed_caller s c k f : placed s → calls s !! c = Some k → caller k ≠ Calling → at_ (f k) = at_ k →
  (unran k → unran (f k)) → (pending k ∧ ch_ k = None ∧ ran k = 1 → pending (f k) ∧ ch_ (f k) = None ∧ ran (f k) = 1) → (final k → final (f k)) → placed (set_call c f s).
Proof.
  intros Hp Hk Hc Ha Hu Hs Hf. apply placed_call; [done|]. intros k' Hk'. assert (k' = k) as -> by congruence. split_and!; try done.
  - intros E. pose proof (pl_call s Hp c k Hk) as H. rewrite E in H. naive_solver.
  - intros [] H; simpl in *; auto.
Qed.

Lemma set_call_id s e : set_call e (λ k, k) s = s.
Proof. unfold set_call. destruct s as [q m ws ks]. cbn. f_equal. by apply list_alter_id. Qed.

Lemma placed_delete s w e : placed s → workers s !! w = Some (Deleting e) → placed (set_worker w Getting (set_call e (with_place Deleted) s)).
Proof.
  intros [H1 H2 H3 H4] Hw. destruct (H3 w _ e Hw eq_refl) as (k0 & Hk0 & Ha0 & Hs0). split; [done| | |]; cbn.
  - intros e' He. destruct (H2 e' He) as (k & Hk & Ha). exists k. split; [|done]. rewrite list_lookup_alter_ne; [done|]. intros <-. congruence.
  - intros w' p e' Hw' He. apply list_lookup_insert_Some in Hw' as [(<- & <- & _)|[Hne Hw']]; [done|].
    destruct (H3 w' p e' Hw' He) as (k & Hk & Ha & Hs). exists k. split; [|done]. rewrite list_lookup_alter_ne; [done|]. intros <-. congruence.
  - intros e' k' Hk'. apply alter_Some in Hk' as (k & Hk & ->). pose proof (H4 e' k Hk) as H. case_decide as Hd.
    + subst e'. assert (k = k0) as -> by congruence. exact Hs0.
    + destruct (at_ k) as [| |w'|]; try done. destruct H as (p & Hp & He). exists p. split; [|done].
      destruct (insert_other _ _ _ Getting _ _ Hw Hp) as [[-> ->]|]; [simpl in He; congruence|done].
Qed.

Lemma task_placed_step s l s' : placed s → step s l s' → placed s'.
Proof.
  intros Hp Hs. destruct Hs as [s l s' Hs|s l s' Hs].
  - destruct Hs as [s v|s l s' Hs|s c k v Hk Hc Hv|s c k Hk Hc]; [by apply placed_await|destruct Hs as [s c k Hk Hc Hm|s c k w Hk Hc Hw|s c k Hk Hc Hw]|..].
    + by eapply placed_mutex, placed_push.
    + eapply placed_mutex, placed_idle; [|exact Hw|done..]. eapply placed_caller; [done|exact Hk|congruence|done|..]; unfold unran, final, pending; cbn; naive_solver congruence.
    + apply placed_mutex. eapply placed_caller; [done|exact Hk|congruence|done|..]; unfold unran, final, pending; cbn; naive_solver congruence.
    + eapply placed_caller; [done|exact Hk|congruence|done|..]; unfold unran, final, pending; cbn; naive_solver congruence.
    + eapply placed_caller; [done|exact Hk|congruence|done|..]; unfold unran, final, pending; cbn; naive_solver congruence.
  - destruct Hs as [s l s' Hs|s l s' Hs|s w e Hw].
    + destruct Hs as [s w e q Hw Hq|s w Hw Hq|s w Hw Hm|s w Hw Hq|s w Hw Hq|s w Hw|s w e q Hw Hq|s w Hw Hq];
        repeat apply placed_mutex; try (by eapply placed_taken); by eapply placed_idle.
    + destruct Hs as [s w e k Hw Hk Hu|s w e k Hw Hk Hu|s w e Hw|s w e Hw].
      * rewrite <- (set_call_id s e). eapply placed_work; [done|exact Hw|done..|]. intros k' Hk' Hst. split; [done|]. assert (k' = k) as -> by congruence.
        unfold stage, unran, final, pending, Unique in *. destruct (caller k); naive_solver.
      * rewrite <- (set_call_id s e). eapply placed_work; [done|exact Hw|done..|]. by intros k' Hk' Hst.
      * eapply placed_work; [done|exact Hw|done..|]. intros k' Hk' Hst. split; [done|]. unfold stage, unran, pending in *. cbn. naive_solver.
      * eapply placed_work; [done|exact Hw|done..|]. intros k' Hk' Hst. split; [done|]. unfold stage, final, pending in *. cbn. naive_solver.
    + by apply placed_delete.
Qed.

(** ** The mutex *)
Record guarded (s : state) : Prop := Guarded {
  gd_worker w p : workers s !! w = Some p → locked p = true ↔ cond_mtx_ s = Some (Worker w);
  gd_caller c k : calls s !! c = Some k → caller k = Notifying ↔ cond_mtx_ s = Some (Caller c);
  gd_owner : match cond_mtx_ s with
    | Some (Worker w) => w < length (workers s) | Some (Caller c) => c < length (calls s) | None => True end;
}.
Lemma guarded_init n : guarded (start n).
Proof. split; [|done|done]. intros w p Hp. by apply lookup_replicate in Hp as [-> _]. Qed.

(** Workers and callers that neither take nor give back the mutex. *)
Lemma guarded_worker s w p p' : guarded s → workers s !! w = Some p → locked p' = locked p → guarded (set_worker w p' s).
Proof.
  intros [H1 H2 H3] Hw Hp. split; cbn; [|done|by rewrite length_insert]. intros w' q Hq.
  apply list_lookup_insert_Some in Hq as [(<- & <- & _)|[_ Hq]]; [|by apply H1]. rewrite Hp. by apply H1.
Qed.
Lemma guarded_call s e f : guarded s → (∀ k, calls s !! e = Some k → caller (f k) = Notifying ↔ caller k = Notifying) → guarded (set_call e f s).
Proof.
  intros [H1 H2 H3] Hf. split; cbn; [done| |by rewrite length_alter]. intros c k' Hk'. apply alter_Some in Hk' as (k & Hk & ->).
  case_decide; [subst c; rewrite Hf by done|]; by apply H2.
Qed.
Lemma guarded_queue s q : guarded s → guarded (set_queue q s).
Proof. by intros []. Qed.
(** The owner gives it back. *)
Lemma guarded_unlock s w p p' : guarded s → workers s !! w = Some p → locked p = true → locked p' = false → guarded (set_mutex None (set_worker w p' s)).
Proof.
  intros [H1 H2 H3] Hw Hp Hp'. pose proof (proj1 (H1 w p Hw) Hp) as Hm. split; cbn; [| |done].
  - intros w' q Hq. apply list_lookup_insert_Some in Hq as [(<- & <- & _)|[Hne Hq]]; [by rewrite Hp'|]. rewrite (H1 w' q Hq), Hm. naive_solver.
  - intros c k Hk. rewrite (H2 c k Hk), Hm. done.
Qed.
Lemma guarded_notified s c k : guarded s → calls s !! c = Some k → caller k = Notifying → guarded (set_mutex None (set_call c (with_caller Receiving) s)).
Proof.
  intros [H1 H2 H3] Hk Hc. pose proof (proj1 (H2 c k Hk) Hc) as Hm. split; cbn; [| |done].
  - intros w q Hq. rewrite (H1 w q Hq), Hm. done.
  - intros c' k' Hk'. apply alter_Some in Hk' as (k2 & Hk2 & ->). case_decide; [done|]. rewrite (H2 c' k2 Hk2), Hm. naive_solver.
Qed.
Lemma guarded_push s c k q : guarded s → calls s !! c = Some k → cond_mtx_ s = None →
  guarded (set_mutex (Some (Caller c)) (set_queue q (set_call c (λ k, with_place Queued (with_caller Notifying k)) s))).
Proof.
  intros [H1 H2 H3] Hk Hm. rewrite Hm in *. split; cbn.
  - intros w p Hp. rewrite (H1 w p Hp). naive_solver.
  - intros c' k' Hk'. apply alter_Some in Hk' as (k2 & Hk2 & ->). case_decide; [by subst|]. rewrite (H2 c' k2 Hk2). naive_solver.
  - rewrite length_alter. by eapply lookup_lt_Some.
Qed.
Lemma guarded_lock s w p : guarded s → workers s !! w = Some p → cond_mtx_ s = None → guarded (set_mutex (Some (Worker w)) (set_worker w Checking s)).
Proof.
  intros [H1 H2 H3] Hw Hm. rewrite Hm in *. split; cbn.
  - intros w' q Hq. apply list_lookup_insert_Some in Hq as [(<- & <- & _)|[Hne Hq]]; [done|]. rewrite (H1 w' q Hq). naive_solver.
  - intros c k Hk. rewrite (H2 c k Hk). naive_solver.
  - rewrite length_insert. by eapply lookup_lt_Some.
Qed.
Lemma guarded_await s v : guarded s → guarded (State (elem_list_ s) (cond_mtx_ s) (workers s) (calls s ++ [Call v Calling None Unpushed 0])).
Proof.
  intros [H1 H2 H3]. split; cbn; [done| |].
  - intros c k [Hk|[Hl Hk]]%lookup_app_Some; [by apply H2|]. apply list_lookup_singleton_Some in Hk as [_ <-]. split; [done|]. intros E. rewrite E in H3. lia.
  - destruct (cond_mtx_ s) as [[|]|]; rewrite ?length_app; lia.
Qed.

Lemma guarded_step s l s' : guarded s → step s l s' → guarded s'.
Proof.
  intros Hg Hs. destruct Hs as [s l s' Hs|s l s' Hs].
  - destruct Hs as [s v|s l s' Hs|s c k v Hk Hc Hv|s c k Hk Hc]; [by apply guarded_await|destruct Hs as [s c k Hk Hc Hm|s c k w Hk Hc Hw|s c k Hk Hc Hw]|..].
    + by eapply guarded_push.
    + change (guarded (set_worker w Locking (set_mutex None (set_call c (with_caller Receiving) s)))). eapply guarded_worker; [|exact Hw|done]. by eapply guarded_notified.
    + by eapply guarded_notified.
    + apply guarded_call; [done|]. intros k' Hk'. assert (k' = k) as -> by congruence. cbn. rewrite Hc. done.
    + apply guarded_call; [done|]. intros k' Hk'. assert (k' = k) as -> by congruence. cbn. rewrite Hc. done.
  - destruct Hs as [s l s' Hs|s l s' Hs|s w e Hw].
    + destruct Hs as [s w e q Hw Hq|s w Hw Hq|s w Hw Hm|s w Hw Hq|s w Hw Hq|s w Hw|s w e q Hw Hq|s w Hw Hq].
      * eapply guarded_worker; [|exact Hw|done]. apply guarded_call; [by apply guarded_queue|done].
      * by eapply guarded_worker.
      * by eapply guarded_lock.
      * by eapply guarded_unlock.
      * by eapply guarded_worker.
      * by eapply guarded_worker.
      * eapply guarded_unlock; [|exact Hw|done..]. apply guarded_call; [by apply guarded_queue|done].
      * by eapply guarded_unlock.
    + destruct Hs as [s w e k Hw Hk Hu|s w e k Hw Hk Hu|s w e Hw|s w e Hw].
      * by eapply guarded_worker.
      * by eapply guarded_worker.
      * eapply guarded_worker; [|exact Hw|done]. by apply guarded_call.
      * eapply guarded_worker; [|exact Hw|done]. by apply guarded_call.
    + eapply guarded_worker; [|exact Hw|done]. by apply guarded_call.
Qed.

(** ** Nobody sleeps over a task *)

Definition notifying (s : state) : bool := match cond_mtx_ s with Some (Caller _) => true | _ => false end.
(** When a worker is asleep, there are workers about to look for all the tasks of the queue, but for
    the one that is being notified. *)
Definition alert (s : state) : Prop :=
  0 < count waiting (workers s) → length (elem_list_ s) <= count looking (workers s) + b2n (notifying s).

Lemma alert_step s l s' : guarded s → alert s → step s l s' → alert s'.
Proof.
  intros [Hgw Hgc _] Ha Hs. unfold alert, notifying in *.
  assert (∀ w p p', workers s !! w = Some p → count waiting (<[w := p']> (workers s)) + b2n (waiting p) = count waiting (workers s) + b2n (waiting p') ∧
    count looking (<[w := p']> (workers s)) + b2n (looking p) = count looking (workers s) + b2n (looking p')) as Hc by (intros; by split; apply count_insert).
  destruct Hs as [s l s' Hs|s l s' Hs].
  - destruct Hs as [s v|s l s' Hs|s c k v Hk Hp Hv|s c k Hk Hp]; [done|destruct Hs as [s c k Hk Hp Hm|s c k w Hk Hp Hw|s c k Hk Hp Hw]|done..]; cbn.
    + rewrite Hm in Ha. rewrite length_app. cbn in *. lia.
    + pose proof (proj1 (Hgc c k Hk) Hp) as Hm. rewrite Hm in Ha. destruct (Hc w _ Locking Hw). unfold b2n in *; cbn in *. lia.
    + rewrite count_zero; [lia|]. intros p Hin. apply list_elem_of_lookup in Hin as [w Hw']. destruct p; try done. by destruct (Hw w).
  - destruct Hs as [s l s' Hs|s l s' Hs|s w e Hw].
    + destruct Hs as [s w e q Hw Hq|s w Hw Hq|s w Hw Hm|s w Hw Hq|s w Hw Hq|s w Hw|s w e q Hw Hq|s w Hw Hq]; cbn.
      * destruct (Hc w _ (Doing e) Hw). rewrite Hq in Ha. unfold b2n in *; cbn in *. lia.
      * destruct (Hc w _ Locking Hw). unfold b2n in *; cbn in *. lia.
      * rewrite Hm in Ha. destruct (Hc w _ Checking Hw). unfold b2n in *; cbn in *. lia.
      * rewrite Hq. cbn. lia.
      * destruct (Hc w _ Popping Hw). unfold b2n in *; cbn in *. lia.
      * destruct (Hc w _ Locking Hw). unfold b2n in *; cbn in *. lia.
      * rewrite (proj1 (Hgw w _ Hw) eq_refl) in Ha. destruct (Hc w _ (Doing e) Hw). rewrite Hq in Ha. unfold b2n in *; cbn in *. lia.
      * rewrite (proj1 (Hgw w _ Hw) eq_refl) in Ha. destruct (Hc w _ Getting Hw). unfold b2n in *; cbn in *. lia.
    + destruct Hs as [s w e k Hw Hk Hu|s w e k Hw Hk Hu|s w e Hw|s w e Hw]; cbn;
        (match goal with |- context [<[w := ?p]> _] => destruct (Hc w _ p Hw) end; unfold b2n in *; cbn in *; lia).
    + destruct (Hc w _ Getting Hw). cbn. unfold b2n in *; cbn in *. lia.
Qed.

Definition pool_inv (s : state) : Prop := placed s ∧ guarded s ∧ alert s.
Lemma pool_inv_init n : pool_inv (start n).
Proof.
  split_and!; [apply placed_init|apply guarded_init|]. unfold alert. cbn. lia.
Qed.
Lemma pool_inv_step s l s' : pool_inv s → step s l s' → pool_inv s'.
Proof. intros (H1 & H2 & H3) Hs. split_and!; [by eapply task_placed_step|by eapply guarded_step|by eapply alert_step]. Qed.
Lemma pool_inv_run n tr s : run step (start n) tr s → pool_inv s ∧ length (workers s) = n.
Proof.
  assert (∀ s l s', step s l s' → length (workers s') = length (workers s)) as Hlen.
  { intros s0 l s1 [? ? ? Hs|? ? ? Hs]; [destruct Hs as [|? ? ? Hs| |]; [done|destruct Hs|..]|destruct Hs as [? ? ? Hs|? ? ? Hs|]; [destruct Hs|destruct Hs|]]; cbn; by rewrite ?length_insert. }
  intros Hr. assert (pool_inv (start n) ∧ length (workers (start n)) = n) as H by (split; [apply pool_inv_init|cbn; by rewrite length_replicate]).
  revert H. generalize (start n) Hr. clear Hr. intros s0 Hr. induction Hr as [|s0 l s1 tr s2 Hs Hr IH]; [done|]. intros [H1 H2]. apply IH.
  split; [by eapply pool_inv_step|]. by rewrite (Hlen _ _ _ Hs).
Qed.

(** ** A function is called once, and its result is the answer *)

Definition runs (e : nat) (l : label) : bool := match l with LRun e' => bool_decide (e' = e) | _ => false end.
Definition answers (e : nat) (l : label) : bool := match l with LAnswer e' _ => bool_decide (e' = e) | _ => false end.
Definition received (k : call) : bool := match caller k with Received _ => true | _ => false end.

(** The steps so far, and the calls. *)
Definition logged (s : state) (tr : list label) : Prop := ∀ e,
  match calls s !! e with
  | Some k => count (runs e) tr = ran k ∧ count (answers e) tr = b2n (received k) ∧ ∀ v, LAnswer e v ∈ tr → caller k = Received v
  | None => count (runs e) tr = 0 ∧ count (answers e) tr = 0 ∧ ∀ v, LAnswer e v ∉ tr
  end.

Lemma logged_same s s' tr l : (∀ e, runs e l = false ∧ answers e l = false) →
  (∀ e, match calls s' !! e with
        | Some k' => (∃ k, calls s !! e = Some k ∧ ran k' = ran k ∧ ∀ v, caller k' = Received v ↔ caller k = Received v) ∨
                     (calls s !! e = None ∧ ran k' = 0 ∧ received k' = false)
        | None => calls s !! e = None
        end) → logged s tr → logged s' (tr ++ [l]).
Proof.
  intros Hl Hs Hlog e. specialize (Hs e). specialize (Hlog e). destruct (Hl e) as [H1 H2]. rewrite !count_app. cbn [count]. rewrite H1, H2, !Nat.add_0_r.
  assert (∀ v, LAnswer e v ∈ tr ++ [l] ↔ LAnswer e v ∈ tr) as Hin.
  { intros v. rewrite elem_of_app, list_elem_of_singleton. split; [intros [?|<-]; [done|]|by left]. simpl in H2. by rewrite bool_decide_eq_false in H2. }
  destruct (calls s' !! e) as [k'|].
  - destruct Hs as [(k & E & Hr & Hc)|(E & Hr & Hc)]; rewrite E in Hlog; destruct Hlog as (L1 & L2 & L3).
    + split_and!; [congruence| |].
      * rewrite L2. unfold received. destruct (caller k') eqn:Ek', (caller k) eqn:Ek; try done; exfalso; naive_solver.
      * intros v Hv%Hin. by apply Hc, L3.
    + rewrite L1, L2, Hr, Hc. split_and!; [done..|]. intros v Hv%Hin. by destruct (L3 v).
  - rewrite Hs in Hlog. destruct Hlog as (L1 & L2 & L3). split_and!; [done..|]. intros v. rewrite Hin. apply L3.
Qed.

Lemma calls_same s e f : (∀ k, calls s !! e = Some k → ran (f k) = ran k ∧ ∀ v, caller (f k) = Received v ↔ caller k = Received v) → ∀ e',
  match calls (set_call e f s) !! e' with
  | Some k' => (∃ k, calls s !! e' = Some k ∧ ran k' = ran k ∧ ∀ v, caller k' = Received v ↔ caller k = Received v) ∨ (calls s !! e' = None ∧ ran k' = 0 ∧ received k' = false)
  | None => calls s !! e' = None
  end.
Proof.
  intros Hf e'. cbn. destruct (decide (e' = e)) as [->|Hne].
  - rewrite list_lookup_alter_eq. destruct (calls s !! e) as [k|] eqn:E; [|done]. left. exists k. split; [done|]. by apply Hf.
  - rewrite list_lookup_alter_ne by done. destruct (calls s !! e') as [k|] eqn:E; [|done]. left. by exists k.
Qed.

Lemma logged_step s tr l s' : placed s → logged s tr → step s l s' → logged s' (tr ++ [l]).
Proof.
  intros Hp Hlog Hs.
  assert (∀ e f l, (∀ k, calls s !! e = Some k → ran (f k) = ran k ∧ ∀ v, caller (f k) = Received v ↔ caller k = Received v) →
    (∀ e, runs e l = false ∧ answers e l = false) → logged (set_call e f s) (tr ++ [l])) as Hcall.
  { intros e f l0 Hf Hl. eapply logged_same; [done|by apply calls_same|done]. }
  assert (∀ l, (∀ e, runs e l = false ∧ answers e l = false) → logged s (tr ++ [l])) as Hnone.
  { intros l0 Hl. eapply logged_same; [done| |done]. intros e. destruct (calls s !! e) as [k|] eqn:E; [|done]. left. by exists k. }
  destruct Hs as [s l s' Hs|s l s' Hs].
  - destruct Hs as [s v|s l s' Hs|s c k v Hk Hc Hv|s c k Hk Hc]; [|destruct Hs as [s c k Hk Hc Hm|s c k w Hk Hc Hw|s c k Hk Hc Hw]|..].
    + eapply logged_same; [done| |done]. intros e. cbn. destruct (_ !! e) as [k'|] eqn:E.
      * apply lookup_app_Some in E as [E|[Hl E]]; [left; by exists k'|right]. apply list_lookup_singleton_Some in E as [_ <-]. split; [by apply lookup_ge_None_2|done].
      * apply lookup_ge_None_1 in E. rewrite length_app in E. apply lookup_ge_None_2. lia.
    + apply (Hcall c); [|done]. intros k' Hk'. assert (k' = k) as -> by congruence. by rewrite Hc.
    + apply (Hcall c); [|done]. intros k' Hk'. assert (k' = k) as -> by congruence. cbn. by rewrite Hc.
    + apply (Hcall c); [|done]. intros k' Hk'. assert (k' = k) as -> by congruence. cbn. by rewrite Hc.
    + intros e. specialize (Hlog e). rewrite !count_app. cbn. destruct (decide (e = c)) as [->|Hne].
      * rewrite list_lookup_alter_eq, Hk in *. cbn. destruct Hlog as (L1 & L2 & L3). rewrite bool_decide_true by done. unfold received in L2. rewrite Hc in L2. cbn in L2.
        split_and!; [lia|unfold received; cbn; lia|]. intros v' [Hv'|Hv']%elem_of_app; [apply L3 in Hv'; congruence|]. apply list_elem_of_singleton in Hv'. congruence.
      * rewrite list_lookup_alter_ne by done. rewrite bool_decide_false by done. rewrite !Nat.add_0_r.
        assert (∀ v', LAnswer e v' ∈ tr ++ [LAnswer c v] ↔ LAnswer e v' ∈ tr) as Hin.
        { intros v'. rewrite elem_of_app, list_elem_of_singleton. split; [intros [?|?]; [done|congruence]|by left]. }
        destruct (calls s !! e) as [k'|]; destruct Hlog as (L1 & L2 & L3); (split_and!; [done..|]); intros v'; rewrite Hin; apply L3.
    + apply (Hcall c); [|done]. intros k' Hk'. assert (k' = k) as -> by congruence. cbn. by rewrite Hc.
  - destruct Hs as [s l s' Hs|s l s' Hs|s w e Hw].
    + destruct Hs as [s w e q Hw Hq|s w Hw Hq|s w Hw Hm|s w Hw Hq|s w Hw Hq|s w Hw|s w e q Hw Hq|s w Hw Hq]; try (by apply Hnone); by apply (Hcall e (with_place (Held w))).
    + destruct Hs as [s w e k Hw Hk Hu|s w e k Hw Hk Hu|s w e Hw|s w e Hw]; [by apply Hnone..| |].
      * destruct (pl_worker s Hp w _ e Hw eq_refl) as (k & Hk & Ha & Hst). intros e'. specialize (Hlog e'). rewrite !count_app. cbn.
        assert (∀ v', LAnswer e' v' ∈ tr ++ [LRun e] ↔ LAnswer e' v' ∈ tr) as Hin.
        { intros v'. rewrite elem_of_app, list_elem_of_singleton. split; [intros [?|?]; [done|congruence]|by left]. }
        destruct (decide (e' = e)) as [->|Hne].
        -- rewrite list_lookup_alter_eq, Hk in *. cbn. destruct Hlog as (L1 & L2 & L3). rewrite bool_decide_true by done. split_and!; [lia|unfold received in *; cbn in *; lia|].
           intros v'. rewrite Hin. apply L3.
        -- rewrite list_lookup_alter_ne by done. rewrite bool_decide_false by congruence. rewrite !Nat.add_0_r.
           destruct (calls s !! e') as [k'|]; destruct Hlog as (L1 & L2 & L3); (split_and!; [done..|]); intros v'; rewrite Hin; apply L3.
      * by apply (Hcall e).
    + by apply (Hcall e (with_place Deleted)).
Qed.

(** What the stage of a task says of its call. *)
Definition called_well (k : call) : Prop := ran k <= 1 ∧ ∀ v, caller k = Received v → ran k = 1 ∧ v = fn_ k.
Lemma unran_well k : unran k → called_well k.
Proof. intros (H & _ & Hr). split; [lia|]. intros v Hv. unfold pending in H. rewrite Hv in H. by destruct H as [|[|]]. Qed.
Lemma final_well k : final k → called_well k.
Proof.
  intros [(Hr & [(_ & H)|(_ & H)])|(Hr & _ & H)]; (split; [lia|]); intros v Hv.
  - unfold pending in H. rewrite Hv in H. by destruct H as [|[|]].
  - rewrite H in Hv. by injection Hv as <-.
  - congruence.
Qed.
Lemma stage_well p k : stage p k → called_well k.
Proof.
  destruct p; try done; simpl; intros H; [by apply unran_well..| |by apply final_well]. destruct H as (H & _ & Hr). split; [lia|].
  intros v Hv. unfold pending in H. rewrite Hv in H. by destruct H as [|[|]].
Qed.

(** C20: a function given to the pool is called at most once, and the answer is its own.  In every run of
    any number of workers and callers: no function is called twice; a call is answered at most once,
    with the result of its function, which has been called by then; no task is lost, every call being
    in exactly one of the caller's hands, the queue, a worker and the past; and when a worker is
    asleep, enough others are about to look for the tasks of the queue. *)
Theorem co_await_once n tr s : run step (start n) tr s →
  (∀ e, count (runs e) tr <= 1 ∧ count (answers e) tr <= 1) ∧
  (∀ e v, LAnswer e v ∈ tr → count (runs e) tr = 1 ∧ fn_ <$> calls s !! e = Some v) ∧
  NoDup (elem_list_ s) ∧
  (∀ e k, calls s !! e = Some k → match at_ k with
    | Unpushed => caller k = Calling
    | Queued => e ∈ elem_list_ s
    | Held w => held <$> workers s !! w = Some (Some e)
    | Deleted => count (runs e) tr = 1 ∨ caller k = Dropped
    end) ∧
  (0 < count waiting (workers s) → length (elem_list_ s) <= count looking (workers s) + b2n (notifying s)).
Proof.
  intros Hr. destruct (pool_inv_run n tr s Hr) as [(Hp & _ & Ha) _].
  assert (logged s tr) as Hlog.
  { apply (invariant_run step (λ s tr, pool_inv s ∧ logged s tr)) with (pre := []) in Hr as [_ Hl]; [done| |split; [apply pool_inv_init|]].
    - intros s1 tr1 l s2 [H1 H2] Hs. split; [by eapply pool_inv_step|]. eapply logged_step; [apply H1|done|done].
    - intros e. cbn. split_and!; [done..|]. intros v. apply not_elem_of_nil. }
  assert (∀ e k, calls s !! e = Some k → called_well k ∧ (at_ k = Deleted → ran k = 1 ∨ caller k = Dropped)) as Hcall.
  { intros e k Hk. pose proof (pl_call s Hp e k Hk) as H. destruct (at_ k) as [| |w|].
    - split; [|done]. destruct H as (Hc & _ & H0). split; [lia|]. congruence.
    - split; [apply unran_well, H|done].
    - destruct H as (p & Hw & He). destruct (pl_worker s Hp w p e Hw He) as (k' & Hk' & _ & Hs). assert (k' = k) as -> by congruence.
      split; [by eapply stage_well|done].
    - split; [by apply final_well|]. intros _. unfold final in H. naive_solver. }
  split_and!; [| | | |exact Ha].
  - intros e. pose proof (Hlog e) as He. destruct (calls s !! e) as [k|] eqn:Hk; destruct He as (-> & -> & _); [|lia]. destruct (Hcall e k Hk) as [[H _] _].
    split; [done|]. by destruct (received k); cbn; lia.
  - intros e v Hv. pose proof (Hlog e) as He. destruct (calls s !! e) as [k|] eqn:Hk; [|by destruct He as (_ & _ & He), (He v)].
    destruct He as (-> & _ & He). apply He in Hv. destruct (Hcall e k Hk) as ((_ & H) & _). by destruct (H v Hv) as [-> ->].
  - apply Hp.
  - intros e k Hk. pose proof (pl_call s Hp e k Hk) as H. pose proof (Hlog e) as He. rewrite Hk in He. destruct He as (-> & _).
    destruct (Hcall e k Hk) as (_ & Hd). destruct (at_ k) as [| |w|]; [apply H|apply H| |by apply Hd]. destruct H as (p & -> & Hh). cbn. by rewrite Hh.
Qed.

(** ** Every call is answered *)

Definition worker_weight (p : worker_pc) : nat :=
  match p with Waiting => 0 | Popping => 2 | Checking => 3 | Locking => 4 | Getting => 5 | Deleting _ => 6 | Sending _ => 7 | Running _ => 8 | Doing _ => 9 end.
Definition caller_weight (p : caller_pc) : nat := match p with Calling => 25 | Notifying => 8 | Receiving => 1 | _ => 0 end.
Definition popping (p : worker_pc) : bool := match p with Popping => true | _ => false end.
(** A bound for the steps that are left: a worker that finds the queue empty behind its check goes round. *)
Definition weight (s : state) : nat :=
  16 * length (elem_list_ s) + sum_list_with worker_weight (workers s) + sum_list_with (λ k, caller_weight (caller k)) (calls s) +
  (if decide (elem_list_ s = []) then 4 * Nat.min 1 (count popping (workers s)) else 0).

Lemma sum_insert {A} (f : A → nat) l w x y : l !! w = Some x → sum_list_with f (<[w := y]> l) + f x = sum_list_with f l + f y.
Proof.
  revert w. induction l as [|z l IH]; intros [|w] H; try done.
  - injection H as ->. change (f y + sum_list_with f l + f x = f x + sum_list_with f l + f y). lia.
  - specialize (IH w H). change (f z + sum_list_with f (<[w:=y]> l) + f x = f z + sum_list_with f l + f y). lia.
Qed.
Lemma sum_alter {A} (f : A → nat) (g : A → A) l e x : l !! e = Some x → sum_list_with f (alter g e l) + f x = sum_list_with f l + f (g x).
Proof.
  revert e. induction l as [|z l IH]; intros [|e] H; try done.
  - injection H as ->. change (f (g x) + sum_list_with f l + f x = f x + sum_list_with f l + f (g x)). lia.
  - specialize (IH e H). change (f z + sum_list_with f (alter g e l) + f x = f z + sum_list_with f l + f (g x)). lia.
Qed.

Lemma sum_alter_same {A} (f : A → nat) (g : A → A) l e : (∀ x, f (g x) = f x) → sum_list_with f (alter g e l) = sum_list_with f l.
Proof. intros H. revert e. induction l as [|x l IH]; intros [|e]; try done.
  - change (f (g x) + sum_list_with f l = f x + sum_list_with f l). by rewrite H.
  - change (f x + sum_list_with f (alter g e l) = f x + sum_list_with f l). by rewrite IH.
Qed.

(** Steps that the program makes, but for new calls and wake-ups without a reason. *)
Definition own (l : label) : bool := match l with LCall | LSpurious => false | _ => true end.

Lemma one_popping s w : guarded s → workers s !! w = Some Popping → count popping (<[w := Getting]> (workers s)) = 0.
Proof.
  intros [H _ _] Hw. apply count_zero. intros p Hp. apply list_elem_of_lookup in Hp as [w' Hp].
  apply list_lookup_insert_Some in Hp as [(<- & <- & _)|[Hne Hp]]; [done|]. destruct p; try done.
  pose proof (proj1 (H w _ Hw) eq_refl). pose proof (proj1 (H w' _ Hp) eq_refl). congruence.
Qed.

(** Taking a task pays for the worker that misses it. *)
Lemma taken_weight s w p e q m : workers s !! w = Some p → elem_list_ s = e :: q → worker_weight p <= 5 → 2 <= worker_weight p →
  weight (set_mutex m (taken w e q s)) < weight s.
Proof.
  intros Hw Hq Hp Hp2. unfold weight. cbn [elem_list_ workers calls taken set_worker set_call set_queue set_mutex]. rewrite Hq. cbn [length].
  pose proof (sum_insert worker_weight _ _ _ (Doing e) Hw) as Hs. cbn [worker_weight] in Hs.
  rewrite (sum_alter_same (λ k, caller_weight (caller k)) (with_place (Held w))) by done.
  rewrite (decide_False (P := e :: q = [])) by done. destruct (decide (q = [])); lia.
Qed.

(** A worker moves, and a call; the queue stays. *)
Lemma worker_weight_step s w p p' m : workers s !! w = Some p → worker_weight p' < worker_weight p → popping p' = false →
  weight (set_mutex m (set_worker w p' s)) < weight s.
Proof.
  intros Hw Hlt Hp. unfold weight. cbn [elem_list_ workers calls set_worker set_mutex].
  pose proof (sum_insert worker_weight _ _ _ p' Hw) as Hs. pose proof (count_insert popping _ _ _ p' Hw) as Hc. rewrite Hp in Hc. cbn in Hc.
  destruct (decide _); lia.
Qed.
Lemma call_weight_step s c k f m : calls s !! c = Some k → caller_weight (caller (f k)) < caller_weight (caller k) → weight (set_mutex m (set_call c f s)) < weight s.
Proof.
  intros Hk Hlt. unfold weight. cbn [elem_list_ workers calls set_call set_mutex].
  pose proof (sum_alter (λ k, caller_weight (caller k)) f _ _ _ Hk) as Hs. cbn beta in Hs. lia.
Qed.
Lemma same_weight s e f : (∀ k, caller (f k) = caller k) → weight (set_call e f s) = weight s.
Proof.
  intros H. unfold weight. cbn [elem_list_ workers calls set_call]. by rewrite (sum_alter_same (λ k, caller_weight (caller k))) by (intros k; by rewrite H).
Qed.

Lemma own_decreases s l s' : guarded s → step s l s' → own l = true → weight s' < weight s.
Proof.
  intros Hg Hs Hl.
  assert (∀ s, set_mutex (cond_mtx_ s) s = s) as Hm by (by intros []).
  destruct Hs as [s l s' Hs|s l s' Hs].
  - destruct Hs as [s v|s l s' Hs|s c k v Hk Hc Hv|s c k Hk Hc]; [done|destruct Hs as [s c k Hk Hc Hmx|s c k w Hk Hc Hw|s c k Hk Hc Hw]|..].
    + unfold weight. cbn [elem_list_ workers calls set_call set_mutex set_queue]. rewrite length_app. cbn [length].
      pose proof (sum_alter (λ k, caller_weight (caller k)) (λ k, with_place Queued (with_caller Notifying k)) _ _ _ Hk) as Hs. cbn in Hs. rewrite Hc in Hs. cbn in Hs.
      rewrite (decide_False (P := elem_list_ s ++ [c] = [])) by (by destruct (elem_list_ s)). destruct (decide _); lia.
    + unfold weight. cbn [elem_list_ workers calls set_call set_mutex set_worker].
      pose proof (sum_alter (λ k, caller_weight (caller k)) (with_caller Receiving) _ _ _ Hk) as Hs. cbn in Hs. rewrite Hc in Hs. cbn in Hs.
      pose proof (sum_insert worker_weight _ _ _ Locking Hw) as Hs2. pose proof (count_insert popping _ _ _ Locking Hw) as Hc2. cbn in Hs2, Hc2. destruct (decide _); lia.
    + eapply call_weight_step; [exact Hk|]. cbn. rewrite Hc. cbn. lia.
    + rewrite <- (Hm (set_call _ _ _)). eapply call_weight_step; [exact Hk|]. cbn. rewrite Hc. cbn. lia.
    + rewrite <- (Hm (set_call _ _ _)). eapply call_weight_step; [exact Hk|]. cbn. rewrite Hc. cbn. lia.
  - assert (∀ s w p p', workers s !! w = Some p → worker_weight p' < worker_weight p → popping p' = false → weight (set_worker w p' s) < weight s) as Hwork.
    { intros s0 w p p' Hw H1 H2. rewrite <- (Hm (set_worker w p' s0)). by eapply worker_weight_step. }
    destruct Hs as [s l s' Hs|s l s' Hs|s w e Hw].
    + destruct Hs as [s w e q Hw Hq|s w Hw Hq|s w Hw Hmx|s w Hw Hq|s w Hw Hq|s w Hw|s w e q Hw Hq|s w Hw Hq]; try done.
      * rewrite <- (Hm (taken w e q s)). eapply taken_weight; [exact Hw|exact Hq|cbn; lia|cbn; lia].
      * eapply Hwork; [exact Hw|cbn; lia|done].
      * eapply worker_weight_step; [exact Hw|cbn; lia|done].
      * eapply worker_weight_step; [exact Hw|cbn; lia|done].
      * unfold weight. cbn [elem_list_ workers calls set_worker]. rewrite !decide_False by done.
        pose proof (sum_insert worker_weight _ _ _ Popping Hw) as Hs. cbn in Hs. lia.
      * eapply taken_weight; [exact Hw|exact Hq|cbn; lia|cbn; lia].
      * unfold weight. cbn [elem_list_ workers calls set_worker set_mutex]. rewrite !decide_True by done. rewrite (one_popping s w Hg Hw).
        pose proof (sum_insert worker_weight _ _ _ Getting Hw) as Hs. pose proof (count_insert popping _ _ _ Getting Hw) as Hc. rewrite (one_popping s w Hg Hw) in Hc. cbn in Hs, Hc. lia.
    + destruct Hs as [s w e k Hw Hk Hu|s w e k Hw Hk Hu|s w e Hw|s w e Hw]; [eapply Hwork; [exact Hw|cbn; lia|done]..| |].
      * erewrite <- (same_weight s e). 2: shelve. eapply Hwork; [exact Hw|cbn; lia|done]. Unshelve. done.
      * erewrite <- (same_weight s e). 2: shelve. eapply Hwork; [exact Hw|cbn; lia|done]. Unshelve. done.
    + erewrite <- (same_weight s e). 2: shelve. eapply Hwork; [exact Hw|cbn; lia|done]. Unshelve. done.
Qed.

Definition answered (k : call) : Prop := match caller k with Received _ | Dropped => True | _ => False end.
#[local] Instance answered_dec k : Decision (answered k).
Proof. unfold answered. destruct (caller k); apply _. Defined.
(** A step that is not a caller's giving up. *)
Definition moves (s : state) : Prop := ∃ l s', step s l s' ∧ own l = true ∧ l ≠ LDrop.

Lemma get_moves s l s' : get s l s' → own l = true → l ≠ LDrop → moves s.
Proof. intros H Ho Hd. exists l, s'. split_and!; [by apply worker_step, run_get|done|done]. Qed.
Lemma do_moves s l s' : Do s l s' → own l = true → l ≠ LDrop → moves s.
Proof. intros H Ho Hd. exists l, s'. split_and!; [by apply worker_step, run_do|done|done]. Qed.

(** A worker that is not asleep moves, when nobody has the mutex or it has it. *)
Lemma worker_moves s w p : placed s → workers s !! w = Some p → waiting p = false → cond_mtx_ s = None ∨ cond_mtx_ s = Some (Worker w) ∧ locked p = true → moves s.
Proof.
  intros Hp Hw Hn Hm. destruct p as [| | | | |e|e|e|e]; try done.
  - destruct (elem_list_ s) eqn:Hq; [by eapply get_moves; [by eapply get_none|..]|by eapply get_moves; [by eapply get_first|..]].
  - destruct Hm as [Hm|[_ ?]]; [|done]. by eapply get_moves; [by eapply lock|..].
  - destruct (elem_list_ s) eqn:Hq; [by eapply get_moves; [by eapply check_empty|..]|].
    by eapply get_moves; [eapply check_nonempty; [done|congruence]|..].
  - destruct (elem_list_ s) eqn:Hq; [by eapply get_moves; [by eapply get_missed|..]|by eapply get_moves; [by eapply get_second|..]].
  - destruct (pl_worker s Hp w _ e Hw eq_refl) as (k & Hk & _). destruct (Unique k) eqn:Hu; [by eapply do_moves; [by eapply do_unique|..]|by eapply do_moves; [by eapply do_run|..]].
  - by eapply do_moves; [by eapply fn_returns|..].
  - by eapply do_moves; [by eapply send|..].
  - eexists _, _. split_and!; [by eapply worker_step, delete|done|done].
Qed.

(** The owner of the mutex moves. *)
Lemma owner_moves s : placed s → guarded s → cond_mtx_ s ≠ None → moves s.
Proof.
  intros Hp [Hw Hc Ho] Hm. destruct (cond_mtx_ s) as [[w|c]|] eqn:E; [| |done].
  - destruct (lookup_lt_is_Some_2 _ _ Ho) as [p Hl]. pose proof (proj2 (Hw w p Hl) eq_refl) as Hlk.
    eapply worker_moves; [done|exact Hl|by destruct p|by right].
  - destruct (lookup_lt_is_Some_2 _ _ Ho) as [k Hl]. pose proof (proj2 (Hc c k Hl) eq_refl) as Hn.
    destruct (decide (0 < count waiting (workers s))) as [Hpos|Hz].
    + assert (∃ w, workers s !! w = Some Waiting) as [w Hwt].
      { revert Hpos. clear. induction (workers s) as [|p l IH]; cbn; [lia|]. destruct p; try (intros H; apply IH in H as [w Hw]; by exists (S w)). by exists 0. }
      eexists _, _. split_and!; [by eapply caller_step, await_pushes, notify_one|done|done].
    + eexists _, _. split_and!; [eapply caller_step, await_pushes, notify_nobody; [exact Hl|done|]|done|done].
      intros w Hwt. apply Hz. by apply (count_pos waiting _ Waiting); [eapply list_elem_of_lookup_2|].
Qed.

Lemma pool_progress s : pool_inv s → 0 < length (workers s) → (∀ e k, calls s !! e = Some k → answered k) ∨ moves s.
Proof.
  intros (Hp & Hg & Ha) Hn. destruct (decide (cond_mtx_ s = None)) as [Hm|Hm]; [|right; by apply owner_moves].
  assert ((∀ e k, calls s !! e = Some k → answered k) ∨ ∃ e k, calls s !! e = Some k ∧ ¬ answered k) as [|(e & k & Hk & Hna)].
  { clear. induction (calls s) as [|k l [IH|(e & k' & H & Hn)]]; [by left| |right; by exists (S e), k'].
    destruct (decide (answered k)) as [Hk|Hk].
    - left. intros [|e] k' H; [by injection H as <-|by eapply IH].
    - right. by exists 0, k. }
  { by left. }
  right. unfold answered in Hna. destruct (caller k) eqn:Hc; try tauto.
  - eexists _, _. split_and!; [by eapply caller_step, await_pushes, push|done|done].
  - pose proof (proj1 (gd_caller s Hg e k Hk) Hc). congruence.
  - destruct (ch_ k) as [v|] eqn:Hv; [eexists _, _; split_and!; [by eapply caller_step, receive|done|done]|].
    pose proof (pl_call s Hp e k Hk) as Hpl. destruct (at_ k) as [| |w|].
    + destruct Hpl; congruence.
    + destruct (decide (0 < count looking (workers s))) as [Hl|Hl].
      * assert (∃ w p, workers s !! w = Some p ∧ looking p = true) as (w & p & Hw & Hlk).
        { revert Hl. clear. induction (workers s) as [|p l IH]; cbn; [lia|]. destruct (looking p) eqn:E; [intros _; by exists 0, p|]. intros H. apply IH in H as (w & q & ? & ?). by exists (S w), q. }
        eapply worker_moves; [done|exact Hw|by destruct p|by left].
      * destruct (decide (0 < count waiting (workers s))) as [Hwt|Hwt].
        -- specialize (Ha Hwt). unfold notifying in Ha. rewrite Hm in Ha. destruct Hpl as [Hin _]. destruct (elem_list_ s) as [|e0 q] eqn:Eq; [by apply elem_of_nil in Hin|]. cbn in Ha. lia.
        -- destruct (workers s) as [|p l] eqn:Ew; [simpl in Hn; lia|]. eapply (worker_moves s 0 p); [done|by rewrite Ew| |by left]. cbn in Hwt. by destruct p; simpl in Hwt; try lia.
    + destruct Hpl as (p & Hw & Hh). eapply worker_moves; [done|exact Hw|by destruct p|by left].
    + unfold final, pending in Hpl. naive_solver congruence.
Qed.

(** C19: every call is answered.  With a worker, from every state that can be reached: without new calls
    and wake-ups for no reason every run ends, within a number of steps that the state gives; and as
    long as a caller waits that has not let go of its channel, some step of the program can be made.
    So when no more can be made every call has its answer: no wake-up is lost, and none of the waits
    is for ever. *)
Theorem co_await_returns n tr s : 0 < n → run step (start n) tr s →
  (∀ tr' s', run step s tr' s' → Forall (λ l, own l = true) tr' → length tr' <= weight s) ∧
  ((∀ e k, calls s !! e = Some k → answered k) ∨ ∃ l s', step s l s' ∧ own l = true ∧ l ≠ LDrop).
Proof.
  intros Hn Hr. destruct (pool_inv_run n tr s Hr) as [Hi Hl]. split.
  - intros tr' s' Hr'. clear Hr Hl. revert Hi. induction Hr' as [|s l s1 tr' s2 Hs Hr' IH]; intros Hi Ho; [cbn [length]; lia|].
    apply Forall_cons in Ho as [Hol Ho]. pose proof (own_decreases s l s1 (proj1 (proj2 Hi)) Hs Hol).
    specialize (IH (pool_inv_step _ _ _ Hi Hs) Ho). cbn [length]. lia.
  - apply pool_progress; [done|lia].
Qed.
End ThreadPool.

(** ** A run *)
Module Run.
(** One worker goes to sleep; a caller's task wakes it up, is run and answered. *)
Definition trace : list (@label nat) := [LTau; LTau; LTau; LCall; LTau; LTau; LTau; LTau; LTau; LTau; LRun 0; LTau; LAnswer 0 7].
Definition last : @state nat := State [] None [Deleting 0] [Call 7 (Received 7) None (Held 0) 1].

Lemma runs_to_last : run step (start 1) trace last.
Proof.
  unfold trace.
  eapply run_cons; [by apply worker_step, run_get, (get_none _ 0)|]. eapply run_cons; [by apply worker_step, run_get, (lock _ 0)|].
  eapply run_cons; [by apply worker_step, run_get, (check_empty _ 0)|]. eapply run_cons; [apply caller_step, (await _ 7)|].
  eapply run_cons; [by eapply caller_step, await_pushes, (push _ 0)|]. eapply run_cons; [by eapply caller_step, await_pushes, (notify_one _ 0 _ 0)|].
  eapply run_cons; [by apply worker_step, run_get, (lock _ 0)|]. eapply run_cons; [by apply worker_step, run_get, (check_nonempty _ 0)|].
  eapply run_cons; [by apply worker_step, run_get, (get_second _ 0 0 [])|]. eapply run_cons; [by eapply worker_step, run_do, (do_run _ 0 0)|].
  eapply run_cons; [by apply worker_step, run_do, (fn_returns _ 0 0)|]. eapply run_cons; [by apply worker_step, run_do, (send _ 0 0)|].
  eapply run_cons; [by eapply caller_step, (receive _ 0 _ 7)|]. apply run_nil.
Qed.

Lemma co_await_once_witness : run step (start 1) trace last ∧ count (runs 0) trace = 1 ∧ fn_ <$> calls last !! 0 = Some 7 ∧
  (∀ e, count (runs e) trace <= 1 ∧ count (answers e) trace <= 1).
Proof.
  split; [exact runs_to_last|]. destruct (co_await_once 1 trace last runs_to_last) as (H1 & H2 & _).
  destruct (H2 0 7 ltac:(by apply (list_elem_of_lookup_2 trace 12))) as [H3 H4]. split; [exact H3|]. split; [exact H4|exact H1].
Defined.
Lemma co_await_returns_witness : 0 < 1 ∧ run step (start 1) trace last ∧ (∀ tr' s', run step last tr' s' → Forall (λ l, own l = true) tr' → length tr' <= weight last).
Proof.
  split; [lia|]. split; [exact runs_to_last|]. exact (proj1 (co_await_returns 1 trace last (le_n 1) runs_to_last)).
Defined.

(** The destructor deletes the tasks that are left; their callers are not told. *)
Example destroyed_call : destroy (State [0] None [] [Call 7 Receiving None Queued 0]) = State [] None [] [Call 7 Receiving None Deleted 0].
Proof. reflexivity. Qed.
End Run.
End ThreadPool.
