(* ===== verification/RWMutex.v ===== *)
(** * The reader-writer lock (libgo/co_rwmutex.cpp)

    [CoRWMutexImpl] is a [CoMutex] and an atomic counter of readers; the two are read and
    written by separate steps, so a reader and a writer can overlap between them.  A thread
    is one program point of one of the six operations. *)
From S2P Require Import Prelude Block Waiters.
Import BlockObject Waiters.

Module CoRWMutex.

Inductive pc :=
| Idle
| RCounted (try : bool)                  (* after ++readers_c_, before is_lock() *)
| RBackoff (try : bool)                  (* is_lock() was true, before --readers_c_ *)
| RYield                                 (* SleepSwitch(0), then the loop again *)
| Reading
| WSwitching | WWaiting                  (* inside mtx_.lock() *)
| WSpin                                  (* holds mtx_, while (readers_c_) *)
| WCheck                                 (* w_try_lock, holds mtx_ *)
| WUndo                                  (* w_try_lock saw a reader, before mtx_.unlock() *)
| Writing.

#[export] Instance pc_eq_dec : EqDecision pc.
Proof. solve_decision. Defined.

(*@ libgo/libgo/co_rwmutex.cpp 7-18 CoRWMutexImpl *)
Record state := State { mtx_ : core; readers_c_ : Z; threads : list pc }.

Inductive label := LRet (t : nat) (ok : bool) | LTau | LDoubleUnlock.

Definition grant (p : pc) : pc := match p with WWaiting => WSpin | p => p end.
Abbreviation wake := (Waiters.wake grant).

Definition init (n : nat) : state := State (new 1 1) 0 (replicate n Idle).

(*@ libgo/libgo/co_rwmutex.cpp 20-80 CoRWMutexImpl *)
Inductive step : state → label → state → Prop :=
| r_count m rc ts t try p :
    ts !! t = Some p → p = Idle ∨ (p = RYield ∧ try = false) →
    step (State m rc ts) LTau (State m (rc + 1) (<[t := RCounted try]> ts))
| r_enter m rc ts t try :
    ts !! t = Some (RCounted try) → CoMutex.is_lock m = false →
    step (State m rc ts) (LRet t true) (State m rc (<[t := Reading]> ts))
| r_locked m rc ts t try :
    ts !! t = Some (RCounted try) → CoMutex.is_lock m = true →
    step (State m rc ts) LTau (State m rc (<[t := RBackoff try]> ts))
| r_backoff m rc ts t try :
    ts !! t = Some (RBackoff try) →
    step (State m rc ts) (if try then LRet t false else LTau)
         (State m (rc - 1) (<[t := if try then Idle else RYield]> ts))
| r_unlock m rc ts t :
    ts !! t = Some Reading → step (State m rc ts) (LRet t true) (State m (rc - 1) (<[t := Idle]> ts))
| w_lock_now m m' rc ts t :
    ts !! t = Some Idle → CoBlockWait_enter m = (true, m') →
    step (State m rc ts) LTau (State m' rc (<[t := WSpin]> ts))
| w_lock_block m m' rc ts t :
    ts !! t = Some Idle → CoBlockWait_enter m = (false, m') →
    step (State m rc ts) LTau (State m' rc (<[t := WSwitching]> ts))
| w_lock_added m m' rc ts t :
    ts !! t = Some WSwitching → AddWaitTask m t = (false, m') →
    step (State m rc ts) LTau (State m' rc (<[t := WSpin]> ts))
| w_lock_wait m m' rc ts t :
    ts !! t = Some WSwitching → AddWaitTask m t = (true, m') →
    step (State m rc ts) LTau (State m' rc (<[t := WWaiting]> ts))
| w_spin m rc ts t :
    ts !! t = Some WSpin → rc = 0%Z →
    step (State m rc ts) (LRet t true) (State m rc (<[t := Writing]> ts))
| w_try_mutex m m' rc ts t ok :
    ts !! t = Some Idle → CoMutex.try_lock m = (ok, m') →
    step (State m rc ts) (if ok then LTau else LRet t false)
         (State m' rc (<[t := if ok then WCheck else Idle]> ts))
| w_try_ok m rc ts t :
    ts !! t = Some WCheck → rc = 0%Z →
    step (State m rc ts) (LRet t true) (State m rc (<[t := Writing]> ts))
| w_try_readers m rc ts t :
    ts !! t = Some WCheck → rc ≠ 0%Z →
    step (State m rc ts) LTau (State m rc (<[t := WUndo]> ts))
| w_unlock m m' rc ts t p o :
    ts !! t = Some p → p = Writing ∨ p = WUndo → CoMutex.unlock m = (inr o, m') →
    step (State m rc ts) (LRet t (bool_decide (p = Writing))) (State m' rc (wake o (<[t := Idle]> ts)))
| w_unlock_error m m' rc ts t p :
    ts !! t = Some p → p = Writing ∨ p = WUndo → CoMutex.unlock m = (inl tt, m') →
    step (State m rc ts) LDoubleUnlock (State m' rc (<[t := Idle]> ts)).

Definition is_wait (p : pc) : bool := match p with WWaiting => true | _ => false end.
Definition holds_mtx (p : pc) : bool := match p with WSpin | WCheck | WUndo | Writing => true | _ => false end.
Definition counted (p : pc) : bool := match p with RCounted _ | RBackoff _ | Reading => true | _ => false end.
Definition is_reading (p : pc) : bool := match p with Reading => true | _ => false end.
Definition is_writing (p : pc) : bool := match p with Writing => true | _ => false end.

Record inv (s : state) : Prop := Inv {
  inv_mtx : blk_ok 1 is_wait (mtx_ s) (threads s);
  inv_held : (wakeup_ (mtx_ s) + Z.of_nat (count holds_mtx (threads s)) = 1)%Z;
  inv_readers : readers_c_ s = Z.of_nat (count counted (threads s));
  inv_excl : 1 ≤ count is_writing (threads s) → count is_reading (threads s) = 0;
}.

Lemma rw_inv_init n : inv (init n).
Proof.
  assert (Hcnt : ∀ f : pc → bool, f Idle = false → count f (replicate n Idle) = 0).
  { intros f Hf. apply count_zero. intros x Hx. by apply elem_of_replicate in Hx as [-> _]. }
  split; simpl; rewrite ?Hcnt by done; try done.
  split; simpl; try done; [apply NoDup_nil_2|]. intros t. split; [by intros ?%elem_of_nil|].
  intros (p & Hp & Wp). apply lookup_replicate in Hp as [-> _]. done.
Qed.

Lemma count_impl {A} (f g : A → bool) l : (∀ x, f x = true → g x = true) → count f l ≤ count g l.
Proof.
  intros H. induction l as [|x l IH]; simpl; [lia|]. specialize (H x). destruct (f x); [rewrite H by done|]; lia.
Qed.

Ltac counts Hx y :=
  pose proof (count_insert holds_mtx _ _ _ y Hx); pose proof (count_insert counted _ _ _ y Hx);
  pose proof (count_insert is_reading _ _ _ y Hx); pose proof (count_insert is_writing _ _ _ y Hx);
  unfold b2n in *; simpl in *.

Lemma unlock_Wakeup m o m' : CoMutex.unlock m = (inr o, m') → Wakeup m = (true, o, m').
Proof. unfold CoMutex.unlock. destruct (Wakeup m) as [[[] o'] m1]; by intros [= <- <-]. Qed.

Lemma rw_inv_step s l s' : inv s → step s l s' → inv s'.
Proof.
  intros [Hb Hh Hr He] Hs. pose proof (blk_bounds _ _ _ _ Hb) as Bw.
  pose proof (count_impl is_reading counted (threads s) ltac:(by intros [])) as Hrc.
  pose proof (count_impl is_writing holds_mtx (threads s) ltac:(by intros [])) as Hwc.
  destruct Hs; simpl in *.
  - destruct H0 as [->|[-> ->]].
    + counts H (RCounted try). split; simpl; [by eapply blk_thread|lia|lia|lia].
    + counts H (RCounted false). split; simpl; [by eapply blk_thread|lia|lia|lia].
  - unfold CoMutex.is_lock, IsWakeup in H0. destruct (Z.ltb_spec 0 (wakeup_ m)); [|done].
    counts H Reading. split; simpl; [by eapply blk_thread|lia|lia|lia].
  - counts H (RBackoff try). split; simpl; [by eapply blk_thread|lia|lia|lia].
  - destruct try; [counts H Idle|counts H RYield]; (split; simpl; [by eapply blk_thread|lia|lia|lia]).
  - counts H Idle. split; simpl; [by eapply blk_thread|lia|lia|lia].
  - apply enter_spec in H0 as (Hm & Hq & Hp & Hd); [|done]. counts H WSpin.
    split; simpl; [|lia|lia|lia]. eapply blk_thread; [|done..]. by eapply blk_dec.
  - apply enter_spec in H0 as (Hm & Hq & Hp & ->); [|done]. counts H WSwitching.
    split; simpl; [by eapply blk_thread|lia|lia|lia].
  - apply add_spec in H0 as (Hm & Hp & Hd & Hq); [|done]. counts H WSpin.
    split; simpl; [|lia|lia|lia]. eapply blk_thread; [|done..]. by eapply blk_dec.
  - destruct (blk_enqueue _ _ _ _ _ _ _ WWaiting Hb H eq_refl eq_refl H0) as [Hb' E]. counts H WWaiting.
    split; simpl; [done|lia|lia|lia].
  - counts H Writing. split; simpl; [by eapply blk_thread|lia|lia|lia].
  - apply try_spec in H0 as (Hm & Hq & Hd); [|done]. destruct ok.
    + destruct Hd as [Hp Hd]. counts H WCheck. split; simpl; [|lia|lia|lia].
      eapply blk_thread; [|done..]. by eapply blk_dec.
    + destruct Hd as [_ ->]. counts H Idle. split; simpl; [by eapply blk_thread|lia|lia|lia].
  - counts H Writing. split; simpl; [by eapply blk_thread|lia|lia|lia].
  - counts H WUndo. split; simpl; [by eapply blk_thread|lia|lia|lia].
  - apply unlock_Wakeup in H1. counts H Idle.
    assert (Hp : holds_mtx p = true ∧ counted p = false ∧ is_reading p = false ∧ is_wait p = false)
      by (by destruct H0 as [-> | ->]). destruct Hp as (P1 & P2 & P3 & P4). rewrite P1, P2, P3 in *.
    assert (Hb' : blk_ok 1 is_wait m (<[t:=Idle]> ts)) by by eapply blk_thread.
    destruct (blk_wakeup grant 1 _ _ _ _ _ _ Hb' ltac:(by intros []) H1 ltac:(lia)) as [Hb'' Ho].
    destruct o as [u|]; [|split; simpl in *; [done|lia|lia|lia]].
    destruct Ho as (Hc & q & Hu & Wq). destruct q; try done.
    rewrite (wake_insert grant _ _ _ Hu) in *. counts Hu WSpin. split; simpl; [done|lia|lia|lia].
  - exfalso. unfold CoMutex.unlock in H1. destruct (Wakeup m) as [[b o] m1] eqn:E. destruct b; [done|].
    apply wakeup_spec in E as (_ & E). destruct o; [naive_solver|]. destruct E as (_ & _ & Hle & _).
    rewrite (blk_max _ _ _ _ Hb) in Hle.
    assert (1 ≤ count holds_mtx ts).
    { eapply count_pos; [by eapply list_elem_of_lookup_2|by destruct H0 as [-> | ->]]. }
    lia.
Qed.

Lemma rw_inv_reachable n s : reachable (eq (init n)) step s → inv s.
Proof. apply invariant_reachable; [intros ? <-; apply rw_inv_init|apply rw_inv_step]. Qed.

(** C12: the reader-writer lock, with any number of threads in any interleaving (the counter and
    the mutex are separate atomics): a writer excludes every other writer and every reader;
    the reader counter never goes negative and equals the number of threads that counted
    themselves; no unlock raises [ec_mutex_double_unlock]. *)
Theorem CoRWMutex_exclusion n s :
  reachable (eq (init n)) step s →
  count is_writing (threads s) ≤ 1 ∧
  (1 ≤ count is_writing (threads s) → count is_reading (threads s) = 0) ∧
  (0 ≤ readers_c_ s)%Z ∧ readers_c_ s = Z.of_nat (count counted (threads s)) ∧
  (∀ s', ¬ step s LDoubleUnlock s').
Proof.
  intros Hr. pose proof (rw_inv_reachable n s Hr) as Hi. pose proof Hi as [Hb Hh Hrc He].
  pose proof (count_impl is_writing holds_mtx (threads s) ltac:(by intros [])) as Hwc.
  pose proof (blk_bounds _ _ _ _ Hb) as Bw. split_and!; try done; try lia.
  intros s' Hs. inversion Hs as [| | |? ? ? ? try ? E| | | | | | |? ? ? ? ? ok ? ? E| | | |m m' rc ts t p Hp Hw Hu]; subst;
    [by destruct try|by destruct ok|]. simpl in *.
  unfold CoMutex.unlock in Hu. destruct (Wakeup m) as [[b o] m1] eqn:E. destruct b; [done|].
  apply wakeup_spec in E as (_ & E). destruct o; [naive_solver|]. destruct E as (_ & _ & Hle & _).
  rewrite (blk_max _ _ _ _ Hb) in Hle.
  assert (1 ≤ count holds_mtx ts).
  { eapply count_pos; [by eapply list_elem_of_lookup_2|by destruct Hw as [-> | ->]]. }
  lia.
Qed.

(** Thread 0 reads while thread 1 waits for it to become the writer. *)
Lemma CoRWMutex_exclusion_witness :
  ∃ s, reachable (eq (init 2)) step s ∧ threads s = [Reading; WSpin] ∧ readers_c_ s = 1%Z ∧
       ∀ s', ¬ step s LDoubleUnlock s'.
Proof.
  assert (Hr : reachable (eq (init 2)) step (State (Core 0 1 []) 1 [Reading; WSpin])).
  { eapply reach_step; [|by apply (w_lock_now (Core 1 1 []) _ 1 [Reading; Idle] 1)].
    eapply reach_step; [|by apply (r_enter (Core 1 1 []) 1 [RCounted false; Idle] 0 false)].
    eapply reach_step; [|by apply (r_count (Core 1 1 []) 0 [Idle; Idle] 0 false Idle); [done|left]].
    by apply reach_init. }
  eexists. split; [exact Hr|]. split; [done|]. split; [done|].
  exact (proj2 (proj2 (proj2 (proj2 (CoRWMutex_exclusion 2 _ Hr))))).
Defined.

End CoRWMutex.
