(* ===== verification/Sched.v ===== *)
(** * The scheduler (libgo: scheduler.cpp, processer.cpp, sleep_wait.cpp, linux/io_wait.cpp)

    Threads run coroutines from the queues of their [Processer]s, steal from each other, and move
    coroutines between those queues and the places where they wait: asleep ([SleepWait]), for a
    file ([IoWait]) or for a semaphore ([BlockObject]).  [act] is one atomic operation of one
    thread (an operation of a locked queue, a compare-and-swap, a critical section), [step]
    interleaves any number of threads.  The queues are lists: TsQueueSpec.v proves that a
    [TSQueue] is one.

    A coroutine between two switches is the environment of the model: it may create coroutines,
    signal semaphores, make I/O sentries, and ends its turn in any state.  Switching contexts is
    assumed to succeed. *)
From S2P Require Import Prelude Block.
Import BlockObject.

Module Scheduler.

(*@ libgo/libgo/task.h 10-22 TaskState *)
Inductive TaskState := init_ | runnable | io_block | sys_block | sleep | done_ | fatal.
#[export] Instance TaskState_eq_dec : EqDecision TaskState.
Proof. solve_decision. Defined.

(*@ libgo/libgo/task.h 31-54 Task *)
Record task := Task { state_ : TaskState; proc_ : option nat; io_sentry_ : option nat; block_ : option nat; eptr_ : bool }.

(*@ libgo/libgo/linux/fd_context.h 30-46 IoSentry *)
Record sentry := IoSentry { triggered : bool; task_ptr_ : nat }.

(** What a thread has still to do before its next operation: add a coroutine it holds to a queue;
    the second half of [IoWait::SchedulerSwitch], [__IOBlockTriggered], [SleepWait::SchedulerSwitch]
    or of a sleep timer's callback. *)
Inductive duty := NoDuty | Add (tk : nat) (dispatch : Z) | IoCheck (sid : nat) | IoErase (sid : nat) | ExpireAt (tk : nat) | Fire (tk : nat).

(** Where it is in [Processer::Run] (with [c], [done_count] and whether it may steal afterwards)
    or in the rest of [Scheduler::DoRunnable]. *)
Inductive pc :=
| Idle
| Loop (c d : nat) (st : bool) | Pop (c d : nat) (st : bool)
| InTask (tk c d : nat) (st : bool) | Switch (tk c d : nat) (st : bool)
| StealFrom (r : nat) | StealN (r n : nat) | Stolen (l : list nat).

(** A thread; [proc] is [ThreadLocalInfo::proc], an index of [run_proc_list_], equal to [thread_id]. *)
(*@ libgo/libgo/scheduler.h 15-20 ThreadLocalInfo *)
Record thread := Thread { proc : option nat; pc_ : pc; duty_ : duty }.

(*@ libgo/libgo/scheduler.h 158-176 Scheduler *)
Record state := State {
  run_proc_list_ : list (list nat);       (* the [runnable_list_] of every processer *)
  tasks : gmap nat task;                  (* the coroutines that are not done *)
  sentries : gmap nat sentry;
  wait_tasks_ : list nat;                 (* of SleepWait *)
  timers : list nat;                      (* the sleep timers that have not expired *)
  wait_io_sentries_ : list nat;           (* of IoWait *)
  blocks : list core;                     (* the BlockObjects of the program *)
  task_count_ : Z;
  dispatch_robin_index_ : Z;
  thread_id_ : nat }.

Definition set_procs v s := State v (tasks s) (sentries s) (wait_tasks_ s) (timers s) (wait_io_sentries_ s) (blocks s) (task_count_ s) (dispatch_robin_index_ s) (thread_id_ s).
Definition set_tasks v s := State (run_proc_list_ s) v (sentries s) (wait_tasks_ s) (timers s) (wait_io_sentries_ s) (blocks s) (task_count_ s) (dispatch_robin_index_ s) (thread_id_ s).
Definition set_sentries v s := State (run_proc_list_ s) (tasks s) v (wait_tasks_ s) (timers s) (wait_io_sentries_ s) (blocks s) (task_count_ s) (dispatch_robin_index_ s) (thread_id_ s).
Definition set_sleep w ti s := State (run_proc_list_ s) (tasks s) (sentries s) w ti (wait_io_sentries_ s) (blocks s) (task_count_ s) (dispatch_robin_index_ s) (thread_id_ s).
Definition set_wait_io v s := State (run_proc_list_ s) (tasks s) (sentries s) (wait_tasks_ s) (timers s) v (blocks s) (task_count_ s) (dispatch_robin_index_ s) (thread_id_ s).
Definition set_blocks v s := State (run_proc_list_ s) (tasks s) (sentries s) (wait_tasks_ s) (timers s) (wait_io_sentries_ s) v (task_count_ s) (dispatch_robin_index_ s) (thread_id_ s).
Definition set_count v s := State (run_proc_list_ s) (tasks s) (sentries s) (wait_tasks_ s) (timers s) (wait_io_sentries_ s) (blocks s) v (dispatch_robin_index_ s) (thread_id_ s).
Definition set_robin v s := State (run_proc_list_ s) (tasks s) (sentries s) (wait_tasks_ s) (timers s) (wait_io_sentries_ s) (blocks s) (task_count_ s) v (thread_id_ s).
Definition set_thread_id v s := State (run_proc_list_ s) (tasks s) (sentries s) (wait_tasks_ s) (timers s) (wait_io_sentries_ s) (blocks s) (task_count_ s) (dispatch_robin_index_ s) v.

Definition with_state (st : TaskState) (t : task) : task := Task st (proc_ t) (io_sentry_ t) (block_ t) (eptr_ t).
Definition with_sentry (sid : nat) (t : task) : task := Task (state_ t) (proc_ t) (Some sid) (block_ t) (eptr_ t).

Section Options.
Variable enable_work_steal : bool.

(** The list with the missing processers, all idle, up to [index]. *)
(*@ libgo/libgo/scheduler.cpp 40-53 Scheduler::GetProcesser *)
Definition GetProcesser (index : nat) (l : list (list nat)) : list (list nat) :=
  if decide (index < length l) then l else l ++ replicate (S index - length l) [].

(*@ libgo/libgo/processer.cpp 16-21 Processer::AddTaskRunnable *)
Definition Processer_AddTaskRunnable (p tk : nat) (s : state) : state :=
  set_procs (alter (λ q, q ++ [tk]) p (run_proc_list_ s)) (set_tasks (alter (with_state runnable) tk (tasks s)) s).

Definition egod_default : Z := -4.
Definition egod_random : Z := -3.
Definition egod_robin : Z := -2.
Definition egod_local_thread : Z := -1.

(** The processer a new coroutine goes to, and the next [dispatch_robin_index_]; [rnd] is the
    result of [rand()], [self] the calling thread's processer. *)
(*@ libgo/libgo/scheduler.cpp 243-275 Scheduler::AddTaskRunnable *)
Definition choose (dispatch : Z) (rnd : nat) (self : option nat) (nprocs : nat) (robin : Z) : nat * Z :=
  let d := if (dispatch <=? egod_default)%Z then if enable_work_steal then egod_local_thread else egod_robin else dispatch in
  let n := Nat.max nprocs 1 in
  if (d =? egod_random)%Z then (rnd mod n, robin)
  else if (d =? egod_robin)%Z then (Z.to_nat (robin mod Z.of_nat n), u32 (robin + 1))
  else if (d =? egod_local_thread)%Z then (default 0 self, robin)
  else (Z.to_nat d, robin).

(*@ libgo/libgo/scheduler.cpp 238-276 Scheduler::AddTaskRunnable *)
Definition AddTaskRunnable (dispatch : Z) (rnd : nat) (self : option nat) (tk : nat) (s : state) : state :=
  match tasks s !! tk ≫= proc_ with
  | Some p => Processer_AddTaskRunnable p tk s
  | None =>
      let '(p, robin) := choose dispatch rnd self (length (run_proc_list_ s)) (dispatch_robin_index_ s) in
      Processer_AddTaskRunnable p tk (set_robin robin (set_procs (GetProcesser p (run_proc_list_ s)) s))
  end.

(** The processer to steal from. *)
(*@ libgo/libgo/scheduler.cpp 186-190 Scheduler::DoRunnable *)
Definition victim (rnd self thread_count : nat) : nat :=
  let r := rnd mod thread_count in
  if decide (r = self) then if decide (0 < self) then self - 1 else self + 1 else r.

(** The end of [Processer::Run], in [DoRunnable]. *)
(*@ libgo/libgo/scheduler.cpp 169-197 Scheduler::DoRunnable *)
Definition end_run (p rnd c d : nat) (st : bool) (s : state) : pc * state :=
  let s := set_count (u32 (task_count_ s - Z.of_nat d)) s in
  let n := length (run_proc_list_ s) in
  (if decide (c = 0 ∧ d = 0 ∧ st = true ∧ 1 < n) then StealFrom (victim rnd p n) else Idle, s).

(** [pop_back(n)]: the queue left and the tasks taken. *)
Definition split_back (n : nat) (q : list nat) : list nat * list nat := (take (length q - n) q, drop (length q - n) q).

(** ** One operation of one thread *)
Definition in_coroutine (c : pc) : Prop := c = Idle ∨ ∃ tk n d st, c = InTask tk n d st.

(** What a coroutine may leave in its own task when it gives the processor up: it runs on [p]; to
    wait for a file it has a sentry of its own, to wait for a semaphore it names one. *)
Definition may_yield (s : state) (tk p : nat) (t : task) : Prop :=
  proc_ t = Some p ∧ state_ t ∈ [runnable; io_block; sys_block; sleep; done_] ∧
  (state_ t = io_block → ∃ sid b, io_sentry_ t = Some sid ∧ sentries s !! sid = Some (IoSentry b tk)) ∧
  (state_ t = sys_block → ∃ b, block_ t = Some b ∧ b < length (blocks s)).

(** [Scheduler::Run] and [Processer::Run]: the thread's first call; the loop over the queue; what
    becomes of the coroutine after its turn. *)
(*@ libgo/libgo/processer.cpp 23-87 Processer::Run *)
Inductive run_act : thread → state → thread → state → Prop :=
| act_start s :
    run_act (Thread None Idle NoDuty) s (Thread (Some (thread_id_ s)) Idle NoDuty)
        (set_thread_id (S (thread_id_ s)) (set_procs (GetProcesser (thread_id_ s) (run_proc_list_ s)) s))
| act_run p s :
    run_act (Thread (Some p) Idle NoDuty) s (Thread (Some p) (Loop 0 0 enable_work_steal) NoDuty) s
| act_size p c d st q s : run_proc_list_ s !! p = Some q → c < length q →
    run_act (Thread (Some p) (Loop c d st) NoDuty) s (Thread (Some p) (Pop c d st) NoDuty) s
| act_break p c d st q rnd pc s s' : run_proc_list_ s !! p = Some q → length q ≤ c → end_run p rnd c d st s = (pc, s') →
    run_act (Thread (Some p) (Loop c d st) NoDuty) s (Thread (Some p) pc NoDuty) s'
| act_pop p c d st tk q s : run_proc_list_ s !! p = Some (tk :: q) →
    run_act (Thread (Some p) (Pop c d st) NoDuty) s (Thread (Some p) (InTask tk (S c) d st) NoDuty)
        (set_procs (<[p := q]> (run_proc_list_ s)) s)
| act_pop_nil p c d st rnd pc s s' : run_proc_list_ s !! p = Some [] → end_run p rnd c d st s = (pc, s') →
    run_act (Thread (Some p) (Pop c d st) NoDuty) s (Thread (Some p) pc NoDuty) s'
| act_yield p tk c d st t t' s : tasks s !! tk = Some t → may_yield s tk p t' →
    run_act (Thread (Some p) (InTask tk c d st) NoDuty) s (Thread (Some p) (Switch tk c d st) NoDuty)
        (set_tasks (<[tk := t']> (tasks s)) s)
| act_runnable p tk c d st t s : tasks s !! tk = Some t → state_ t = runnable →
    run_act (Thread (Some p) (Switch tk c d st) NoDuty) s (Thread (Some p) (Loop c d st) NoDuty)
        (set_procs (alter (λ q, q ++ [tk]) p (run_proc_list_ s)) s)
| act_block p tk c d st t b o o' s : tasks s !! tk = Some t → state_ t = sys_block → block_ t = Some b →
    blocks s !! b = Some o → AddWaitTask o tk = (true, o') →
    run_act (Thread (Some p) (Switch tk c d st) NoDuty) s (Thread (Some p) (Loop c d st) NoDuty) (set_blocks (<[b := o']> (blocks s)) s)
| act_noblock p tk c d st t b o o' s : tasks s !! tk = Some t → state_ t = sys_block → block_ t = Some b →
    blocks s !! b = Some o → AddWaitTask o tk = (false, o') →
    run_act (Thread (Some p) (Switch tk c d st) NoDuty) s (Thread (Some p) (Loop c d st) NoDuty)
        (Processer_AddTaskRunnable p tk (set_blocks (<[b := o']> (blocks s)) s))
| act_done p tk c d st t s : tasks s !! tk = Some t → state_ t = done_ → eptr_ t = false →
    run_act (Thread (Some p) (Switch tk c d st) NoDuty) s (Thread (Some p) (Loop c (S d) st) NoDuty) (set_tasks (delete tk (tasks s)) s)
| act_throw p tk c d st t s : tasks s !! tk = Some t → state_ t = done_ → eptr_ t = true →
    run_act (Thread (Some p) (Switch tk c d st) NoDuty) s (Thread (Some p) Idle NoDuty)
        (set_count (u32 (task_count_ s - Z.of_nat (S d))) (set_tasks (delete tk (tasks s)) s)).

(** Work stealing. *)
(*@ libgo/libgo/processer.cpp 108-118 Processer::StealHalf *)
Inductive steal_act : thread → state → thread → state → Prop :=
| act_steal_size p r q s : run_proc_list_ s !! r = Some q →
    steal_act (Thread (Some p) (StealFrom r) NoDuty) s (Thread (Some p) (StealN r ((length q + 1) / 2)) NoDuty) s
| act_steal p r n q s : run_proc_list_ s !! r = Some q →
    steal_act (Thread (Some p) (StealN r n) NoDuty) s (Thread (Some p) (Stolen (snd (split_back n q))) NoDuty)
        (set_procs (<[r := fst (split_back n q)]> (run_proc_list_ s)) s)
| act_stolen_none p s :
    steal_act (Thread (Some p) (Stolen []) NoDuty) s (Thread (Some p) Idle NoDuty) s
| act_stolen p l s : l ≠ [] →
    steal_act (Thread (Some p) (Stolen l) NoDuty) s (Thread (Some p) (Loop 0 0 false) NoDuty)
        (set_procs (alter (λ q, q ++ l) p (run_proc_list_ s)) s).

(** Sleeping: [SchedulerSwitch], a timer that has expired taken by the thread that will call it,
    [Wakeup]. *)
(*@ libgo/libgo/sleep_wait.cpp 21-57 SleepWait::SchedulerSwitch, WaitLoop, Wakeup *)
Inductive sleep_act : thread → state → thread → state → Prop :=
| act_sleep p tk c d st t s : tasks s !! tk = Some t → state_ t = sleep →
    sleep_act (Thread (Some p) (Switch tk c d st) NoDuty) s (Thread (Some p) (Loop c d st) (ExpireAt tk))
        (set_sleep (wait_tasks_ s ++ [tk]) (timers s) s)
| act_expire_at pr c tk s :
    sleep_act (Thread pr c (ExpireAt tk)) s (Thread pr c NoDuty) (set_sleep (wait_tasks_ s) (timers s ++ [tk]) s)
| act_expired pr tk a b s : timers s = a ++ tk :: b →
    sleep_act (Thread pr Idle NoDuty) s (Thread pr Idle (Fire tk)) (set_sleep (wait_tasks_ s) (a ++ b) s)
| act_fire pr c tk s : tk ∈ wait_tasks_ s →
    sleep_act (Thread pr c (Fire tk)) s (Thread pr c (Add tk egod_default))
        (set_sleep (filter (λ x, x ≠ tk) (wait_tasks_ s)) (timers s) s).

(** Waiting for a file: [SchedulerSwitch] enters the list, then looks at the sentry; a trigger marks
    the sentry, then looks in the list. *)
(*@ libgo/libgo/linux/io_wait.cpp 78-100 IoWait::SchedulerSwitch, IOBlockTriggered, __IOBlockTriggered *)
Inductive io_act : thread → state → thread → state → Prop :=
| act_io p tk c d st t sid s : tasks s !! tk = Some t → state_ t = io_block → io_sentry_ t = Some sid →
    io_act (Thread (Some p) (Switch tk c d st) NoDuty) s (Thread (Some p) (Loop c d st) (IoCheck sid))
        (set_wait_io (wait_io_sentries_ s ++ [sid]) s)
| act_io_check pr c sid e s : sentries s !! sid = Some e →
    io_act (Thread pr c (IoCheck sid)) s (Thread pr c (if triggered e then IoErase sid else NoDuty)) s
| act_trigger pr c sid tk s : in_coroutine c → sentries s !! sid = Some (IoSentry false tk) →
    io_act (Thread pr c NoDuty) s (Thread pr c (IoErase sid)) (set_sentries (<[sid := IoSentry true tk]> (sentries s)) s)
| act_io_erase pr c sid e s : sentries s !! sid = Some e → sid ∈ wait_io_sentries_ s →
    io_act (Thread pr c (IoErase sid)) s (Thread pr c (Add (task_ptr_ e) egod_default))
        (set_wait_io (filter (λ x, x ≠ sid) (wait_io_sentries_ s)) s)
| act_io_late pr c sid s : sid ∉ wait_io_sentries_ s →
    io_act (Thread pr c (IoErase sid)) s (Thread pr c NoDuty) s.

(** What a coroutine, or a thread between two runs, does to other coroutines. *)
(*@ libgo/libgo/scheduler.cpp 55-62 Scheduler::CreateTask *)
Inductive prog_act : thread → state → thread → state → Prop :=
| act_create pr c tk dispatch s : in_coroutine c → tasks s !! tk = None → (egod_default ≤ dispatch)%Z →
    prog_act (Thread pr c NoDuty) s (Thread pr c (Add tk dispatch))
        (set_count (u32 (task_count_ s + 1)) (set_tasks (<[tk := Task init_ None None None false]> (tasks s)) s))
| act_add pr c tk dispatch rnd s :
    prog_act (Thread pr c (Add tk dispatch)) s (Thread pr c NoDuty) (AddTaskRunnable dispatch rnd pr tk s)
| act_sentry pr tk c d st sid t s : tasks s !! tk = Some t → sentries s !! sid = None →
    prog_act (Thread pr (InTask tk c d st) NoDuty) s (Thread pr (InTask tk c d st) NoDuty)
        (set_sentries (<[sid := IoSentry false tk]> (sentries s)) (set_tasks (<[tk := with_sentry sid t]> (tasks s)) s))
| act_wakeup pr c b o r tk o' s : in_coroutine c → blocks s !! b = Some o → Wakeup o = (r, Some tk, o') →
    prog_act (Thread pr c NoDuty) s (Thread pr c (Add tk egod_default)) (set_blocks (<[b := o']> (blocks s)) s)
| act_signal pr c b o r o' s : in_coroutine c → blocks s !! b = Some o → Wakeup o = (r, None, o') →
    prog_act (Thread pr c NoDuty) s (Thread pr c NoDuty) (set_blocks (<[b := o']> (blocks s)) s)
| act_try pr c b o r o' s : in_coroutine c → blocks s !! b = Some o →
    TryBlockWait o = (r, o') ∨ CoBlockWait_enter o = (r, o') →
    prog_act (Thread pr c NoDuty) s (Thread pr c NoDuty) (set_blocks (<[b := o']> (blocks s)) s)
| act_cancel_wait pr c b o tk o' s : in_coroutine c → blocks s !! b = Some o → BlockObject.erase o tk = (true, o') →
    prog_act (Thread pr c NoDuty) s (Thread pr c (Add tk egod_default)) (set_blocks (<[b := o']> (blocks s)) s).

Definition act (th : thread) (s : state) (th' : thread) (s' : state) : Prop :=
  run_act th s th' s' ∨ steal_act th s th' s' ∨ sleep_act th s th' s' ∨ io_act th s th' s' ∨ prog_act th s th' s'.

Definition config : Type := list thread * state.

Inductive step : config → nat → config → Prop :=
| step_act ts s i th th' s' : ts !! i = Some th → act th s th' s' → step (ts, s) i (<[i := th']> ts, s').

(** Any number of threads, none of which has called [Run] yet; the semaphores of the program. *)
Definition init (c : config) : Prop := ∃ n bs,
  Forall (λ o, wait_queue_ o = []) bs ∧
  c = (replicate n (Thread None Idle NoDuty), State [] ∅ ∅ [] [] [] bs 0 0 0).

(** ** Where the coroutines are *)
Definition occ (x : nat) (l : list nat) : nat := count (λ y, bool_decide (y = x)) l.
Definition b2n (b : bool) : nat := if b then 1 else 0.
Abbreviation total := sum_list_with.

Definition is_of (m : gmap nat sentry) (x sid : nat) : nat :=
  match m !! sid with Some e => b2n (bool_decide (task_ptr_ e = x)) | None => 0 end.

(** How often [x] is queued or waits. *)
Definition waits (x : nat) (s : state) : nat :=
  total (occ x) (run_proc_list_ s) + occ x (wait_tasks_ s) + total (is_of (sentries s) x) (wait_io_sentries_ s) +
  total (λ o, occ x (wait_queue_ o)) (blocks s).

(** How often [x] is in the hands of a thread. *)
Definition holds (x : nat) (th : thread) : nat :=
  match pc_ th with
  | InTask tk _ _ _ | Switch tk _ _ _ => b2n (bool_decide (tk = x))
  | Stolen l => occ x l
  | _ => 0
  end +
  match duty_ th with Add tk _ => b2n (bool_decide (tk = x)) | _ => 0 end.

Definition live (x : nat) (s : state) : nat := match tasks s !! x with Some _ => 1 | None => 0 end.

#[local] Arguments occ : simpl never.
#[local] Arguments is_of : simpl never.
#[local] Arguments b2n : simpl never.

Lemma occ_app x a b : occ x (a ++ b) = occ x a + occ x b.
Proof. apply count_app. Qed.
Lemma occ_cons x y l : occ x (y :: l) = b2n (bool_decide (y = x)) + occ x l.
Proof. done. Qed.
Lemma occ_nil x : occ x [] = 0.
Proof. done. Qed.

Lemma total_insert {A} (f : A → nat) l i x y : l !! i = Some x → total f (<[i:=y]> l) + f x = total f l + f y.
Proof.
  revert i. induction l as [|z l IH]; intros [|i] Hx; simpl in *; try done.
  - injection Hx as ->. lia.
  - specialize (IH _ Hx). lia.
Qed.

Lemma total_alter {A} (f : A → nat) g l i x : l !! i = Some x → total f (alter g i l) + f x = total f l + f (g x).
Proof.
  intros Hx. assert (alter g i l = <[i:=g x]> l) as ->; [|by apply total_insert].
  rewrite list_insert_alter. apply list_alter_ext; [|done]. intros y Hy. congruence.
Qed.

Lemma total_mid {A} (f : A → nat) a x b : total f (a ++ x :: b) = f x + total f (a ++ b).
Proof. rewrite !sum_list_with_app. simpl. lia. Qed.

Lemma total_snoc {A} (f : A → nat) l x : total f (l ++ [x]) = total f l + f x.
Proof. rewrite sum_list_with_app. simpl. lia. Qed.


Lemma total_zero {A} (f : A → nat) n x : f x = 0 → total f (replicate n x) = 0.
Proof. intros H. induction n as [|n IH]; simpl; lia. Qed.

Lemma occ_pos x l : 0 < occ x l → x ∈ l.
Proof.
  unfold occ. induction l as [|y l IH]; simpl; [lia|]. case_bool_decide as H; [subst; left|]. intros. right. apply IH. lia.
Qed.

Lemma occ_ge x l : x ∈ l → 1 ≤ occ x l.
Proof.
  unfold occ. induction 1 as [x l|x y l Hx IH]; simpl; [rewrite bool_decide_true by done; lia|].
  case_bool_decide; lia.
Qed.

Lemma occ_filter x y l : occ x (filter (λ z, z ≠ y) l) = if decide (x = y) then 0 else occ x l.
Proof.
  unfold occ. induction l as [|z l IH]; simpl; [by case_decide|]. rewrite filter_cons. repeat case_decide; simpl;
    rewrite ?IH; repeat case_bool_decide; subst; try done; lia.
Qed.

Lemma total_filter f y l : total f (filter (λ z : nat, z ≠ y) l) + occ y l * f y = total f l.
Proof.
  induction l as [|z l IH]; [done|]. rewrite filter_cons, occ_cons. destruct (decide (z = y)) as [->|Hz].
  - rewrite decide_False, bool_decide_true by naive_solver. unfold b2n. cbn. lia.
  - rewrite decide_True, bool_decide_false by done. unfold b2n. cbn. lia.
Qed.

(** *** The operations that several steps share *)
Lemma GetProcesser_total f i l : f [] = 0 → total f (GetProcesser i l) = total f l.
Proof. intros H. unfold GetProcesser. case_decide; [done|]. rewrite sum_list_with_app, total_zero by done. lia. Qed.
Lemma GetProcesser_length i l : i < length (GetProcesser i l) ∧ length l ≤ length (GetProcesser i l).
Proof. unfold GetProcesser. case_decide; [lia|]. rewrite length_app, length_replicate. lia. Qed.

Lemma live_alter x tk f s v : live x (set_tasks (alter f tk v) s) = live x (set_tasks v s).
Proof.
  unfold live. simpl. destruct (decide (x = tk)) as [->|].
  - rewrite lookup_alter_eq. by destruct (v !! tk).
  - by rewrite lookup_alter_ne.
Qed.

Lemma push_total x p tk l : p < length l → total (occ x) (alter (λ q, q ++ [tk]) p l) = total (occ x) l + b2n (bool_decide (tk = x)).
Proof.
  intros Hp. destruct (lookup_lt_is_Some_2 l p Hp) as [q Hq].
  pose proof (total_alter (occ x) (λ q, q ++ [tk]) l p q Hq) as H. cbv beta in H. rewrite occ_app, occ_cons, occ_nil in H. lia.
Qed.

Lemma Processer_Add_waits x p tk s : p < length (run_proc_list_ s) →
  waits x (Processer_AddTaskRunnable p tk s) = waits x s + b2n (bool_decide (tk = x)).
Proof. intros Hp. unfold waits, Processer_AddTaskRunnable. cbn. rewrite push_total by done. lia. Qed.

Lemma Processer_Add_live x p tk s : live x (Processer_AddTaskRunnable p tk s) = live x s.
Proof. unfold Processer_AddTaskRunnable. apply (live_alter x tk (with_state runnable) s). Qed.

(** The processer [AddTaskRunnable] adds to. *)
Definition target (dispatch : Z) (rnd : nat) (self : option nat) (tk : nat) (s : state) : nat :=
  match tasks s !! tk ≫= proc_ with
  | Some p => p
  | None => fst (choose dispatch rnd self (length (run_proc_list_ s)) (dispatch_robin_index_ s))
  end.

Definition procs_ok (s : state) : Prop := ∀ tk t p, tasks s !! tk = Some t → proc_ t = Some p → p < length (run_proc_list_ s).

Lemma Add_spec dispatch rnd self tk s :
  procs_ok s →
  ∃ p s1, AddTaskRunnable dispatch rnd self tk s = Processer_AddTaskRunnable p tk s1 ∧ p < length (run_proc_list_ s1) ∧
    length (run_proc_list_ s) ≤ length (run_proc_list_ s1) ∧ p = target dispatch rnd self tk s ∧
    tasks s1 = tasks s ∧ sentries s1 = sentries s ∧ wait_io_sentries_ s1 = wait_io_sentries_ s ∧
    task_count_ s1 = task_count_ s ∧ wait_tasks_ s1 = wait_tasks_ s ∧ timers s1 = timers s ∧
    (∀ x, waits x s1 = waits x s).
Proof.
  intros Hp. unfold AddTaskRunnable, target. destruct (tasks s !! tk ≫= proc_) as [p|] eqn:Ht.
  - exists p, s. split_and!; try done. destruct (tasks s !! tk) as [t|] eqn:Htk; [|done]. by eapply Hp.
  - destruct (choose _ _ _ _ _) as [p robin] eqn:Hc. exists p. eexists. split; [reflexivity|]. simpl.
    destruct (GetProcesser_length p (run_proc_list_ s)). split_and!; try done. intros x. unfold waits. simpl.
    rewrite GetProcesser_total by done. done.
Qed.

(** ** Each operation keeps every coroutine in its one place *)
Definition sentries_ok (s : state) : Prop := ∀ sid, sid ∈ wait_io_sentries_ s → is_Some (sentries s !! sid).

Record local_ok (th : thread) (s : state) : Prop := {
  lo_thread p : proc th = Some p → p < length (run_proc_list_ s);
  lo_procs : procs_ok s;
  lo_sentries : sentries_ok s;
  lo_once x : waits x s + holds x th ≤ 1 }.

Definition moved (x : nat) (th : thread) (s : state) (th' : thread) (s' : state) : Prop :=
  waits x s' + holds x th' + live x s = waits x s + holds x th + live x s'.

Lemma live_insert x tk t v s : live x (set_tasks (<[tk:=t]> v) s) = if decide (x = tk) then 1 else live x (set_tasks v s).
Proof.
  unfold live. simpl. case_decide as H; [subst; by rewrite lookup_insert_eq|by rewrite lookup_insert_ne by congruence].
Qed.

Lemma live_update x tk t t' s : tasks s !! tk = Some t → live x (set_tasks (<[tk:=t']> (tasks s)) s) = live x s.
Proof. intros H. rewrite live_insert. case_decide as E; [subst; unfold live; by rewrite H|done]. Qed.

Lemma end_run_moved p rnd c d st s pc s' :
  end_run p rnd c d st s = (pc, s') → (∀ x, waits x s' = waits x s) ∧ (∀ x, live x s' = live x s) ∧
  (pc = Idle ∨ ∃ r, pc = StealFrom r) ∧ run_proc_list_ s' = run_proc_list_ s ∧ tasks s' = tasks s ∧
  sentries s' = sentries s ∧ wait_io_sentries_ s' = wait_io_sentries_ s ∧ wait_tasks_ s' = wait_tasks_ s ∧ timers s' = timers s ∧
  task_count_ s' = u32 (task_count_ s - Z.of_nat d).
Proof.
  unfold end_run. case_decide; intros [= <- <-]; split_and!; try done; eauto.
Qed.

Lemma queue_total x p q q' l : l !! p = Some q → total (occ x) (<[p:=q']> l) + occ x q = total (occ x) l + occ x q'.
Proof. apply total_insert. Qed.

Lemma block_total x b o o' l : l !! b = Some o →
  total (λ o, occ x (wait_queue_ o)) (<[b:=o']> l) + occ x (wait_queue_ o) = total (λ o, occ x (wait_queue_ o)) l + occ x (wait_queue_ o').
Proof. apply (total_insert (λ o, occ x (wait_queue_ o))). Qed.

Ltac place := unfold moved, waits, holds, live; cbn -[occ is_of b2n]; rewrite ?occ_nil; try lia.

Lemma run_place x th s th' s' : run_act th s th' s' → local_ok th s → moved x th s th' s'.
Proof.
  intros H [Ht Hp Hs Ho]. destruct H as [s|p s|p c d st q s Hq Hc|p c d st q rnd pc s s' Hq Hc He|p c d st tk q s Hq|p c d st rnd pc s s' Hq He
    |p tk c d st t t' s Hk Hy|p tk c d st t s Hk Hst|p tk c d st t b o o' s Hk Hst Hb Ho' Ha|p tk c d st t b o o' s Hk Hst Hb Ho' Ha
    |p tk c d st t s Hk Hst He|p tk c d st t s Hk Hst He].
  - place. rewrite GetProcesser_total by done. lia.
  - place.
  - place.
  - destruct (end_run_moved _ _ _ _ _ _ _ _ He) as (Hw & Hl & Hpc & _). unfold moved. rewrite Hw, Hl. unfold holds. cbn.
    destruct Hpc as [->|[r ->]]; lia.
  - pose proof (queue_total x p _ q _ Hq) as H. rewrite occ_cons in H. place.
  - destruct (end_run_moved _ _ _ _ _ _ _ _ He) as (Hw & Hl & Hpc & _). unfold moved. rewrite Hw, Hl. unfold holds. cbn.
    destruct Hpc as [->|[r ->]]; lia.
  - unfold moved. rewrite (live_update x tk t) by done. place.
  - pose proof (push_total x p tk (run_proc_list_ s) (Ht p eq_refl)) as H. place.
  - pose proof (block_total x b o o' _ Ho') as H. unfold AddWaitTask in Ha. destruct (wakeup_ o =? 0)%Z; simplify_eq.
    cbn [wait_queue_] in H. rewrite occ_app, occ_cons, occ_nil in H. place.
  - pose proof (block_total x b o o' _ Ho') as H. unfold AddWaitTask in Ha. destruct (wakeup_ o =? 0)%Z; simplify_eq.
    unfold moved. rewrite Processer_Add_live, Processer_Add_waits by by apply Ht. cbn [wait_queue_] in H. place.
  - place. destruct (decide (x = tk)) as [->|Hx].
    + rewrite lookup_delete_eq, Hk, bool_decide_true by done. unfold b2n. lia.
    + rewrite lookup_delete_ne, bool_decide_false by done. unfold b2n. lia.
  - place. destruct (decide (x = tk)) as [->|Hx].
    + rewrite lookup_delete_eq, Hk, bool_decide_true by done. unfold b2n. lia.
    + rewrite lookup_delete_ne, bool_decide_false by done. unfold b2n. lia.
Qed.

Lemma steal_place x th s th' s' : steal_act th s th' s' → local_ok th s → moved x th s th' s'.
Proof.
  intros H [Ht Hp Hs Ho]. destruct H as [p r q s Hq|p r n q s Hq|p s|p l s Hl].
  - place.
  - pose proof (queue_total x r q (fst (split_back n q)) _ Hq) as H. pose proof (occ_app x (fst (split_back n q)) (snd (split_back n q))) as Ha.
    unfold split_back in *. cbn [fst snd] in *. rewrite take_drop in Ha. place.
  - place.
  - destruct (lookup_lt_is_Some_2 _ p (Ht p eq_refl)) as [q Hq].
    pose proof (total_alter (occ x) (λ q, q ++ l) _ p q Hq) as H. cbv beta in H. rewrite occ_app in H. place.
Qed.

Lemma sleep_place x th s th' s' : sleep_act th s th' s' → local_ok th s → moved x th s th' s'.
Proof.
  intros H [Ht Hp Hs Ho]. destruct H as [p tk c d st t s Hk Hst|pr c tk s|pr tk a b s Hti|pr c tk s Hin].
  - place. rewrite occ_app, occ_cons, occ_nil. lia.
  - place.
  - place.
  - place. rewrite occ_filter. specialize (Ho x). unfold waits in Ho. case_decide as Hx.
    + subst. pose proof (occ_ge _ _ Hin). rewrite bool_decide_true by done. unfold b2n in *. lia.
    + rewrite bool_decide_false by congruence. unfold b2n. lia.
Qed.

Lemma io_place x th s th' s' : io_act th s th' s' → local_ok th s → 
  (∀ p tk c d st t sid, pc_ th = Switch tk c d st → proc th = Some p → tasks s !! tk = Some t → io_sentry_ t = Some sid → state_ t = io_block →
     ∃ b, sentries s !! sid = Some (IoSentry b tk)) →
  moved x th s th' s'.
Proof.
  intros H [Ht Hp Hs Ho] Hy. destruct H as [p tk c d st t sid s Hk Hst Hsid|pr c sid e s He|pr c sid tk s Hc He|pr c sid e s He Hin|pr c sid s Hin].
  - destruct (Hy p tk c d st t sid eq_refl eq_refl Hk Hsid Hst) as [b Hb]. place. rewrite total_snoc. unfold is_of at 2. rewrite Hb. cbn. lia.
  - place. destruct (triggered e); cbn; lia.
  - assert (∀ l, total (is_of (<[sid:=IoSentry true tk]> (sentries s)) x) l = total (is_of (sentries s) x) l) as Hl.
    { induction l as [|y l IH]; [done|]. cbn. rewrite IH. f_equal. unfold is_of. destruct (decide (y = sid)) as [->|].
      - by rewrite lookup_insert_eq, He.
      - by rewrite lookup_insert_ne by congruence. }
    place. rewrite Hl. lia.
  - pose proof (total_filter (is_of (sentries s) x) sid (wait_io_sentries_ s)) as H. pose proof (occ_ge _ _ Hin) as Hg.
    pose proof (Ho (task_ptr_ e)) as H1. unfold waits in H1.
    pose proof (total_filter (is_of (sentries s) (task_ptr_ e)) sid (wait_io_sentries_ s)) as H2.
    assert (∀ y, is_of (sentries s) y sid = b2n (bool_decide (task_ptr_ e = y))) as Hof by (intros y; unfold is_of; by rewrite He).
    rewrite Hof in H, H2. rewrite bool_decide_true in H2 by done. unfold b2n at 1 in H2.
    assert (occ sid (wait_io_sentries_ s) = 1) as Hocc by lia. rewrite Hocc in H. place.
  - place.
Qed.

Lemma Wakeup_queue o r tk o' x : Wakeup o = (r, tk, o') →
  occ x (wait_queue_ o) = occ x (wait_queue_ o') + match tk with Some k => b2n (bool_decide (k = x)) | None => 0 end.
Proof.
  unfold Wakeup. destruct (wait_queue_ o) as [|k q] eqn:Hq.
  - destruct (max_wakeup_ o <=? wakeup_ o)%Z; intros [= <- <- <-]; [by rewrite Hq|done].
  - intros [= <- <- <-]. cbn [wait_queue_]. rewrite occ_cons. lia.
Qed.

Lemma prog_place x th s th' s' : prog_act th s th' s' → local_ok th s → moved x th s th' s'.
Proof.
  intros H [Ht Hp Hs Ho]. destruct H as [pr c tk dis s Hc Hk Hd|pr c tk dis rnd s|pr tk c d st sid t s Hk Hsid|pr c b o r tk o' s Hc Hb Hw
    |pr c b o r o' s Hc Hb Hw|pr c b o r o' s Hc Hb Hw|pr c b o tk o' s Hc Hb He].
  - place. destruct (decide (x = tk)) as [->|Hx].
    + rewrite lookup_insert_eq, Hk, bool_decide_true by done. unfold b2n. lia.
    + rewrite lookup_insert_ne, bool_decide_false by congruence. unfold b2n. lia.
  - destruct (Add_spec dis rnd pr tk s Hp) as (p & s1 & -> & Hlt & _ & _ & Htk & _ & _ & _ & _ & _ & Hw).
    unfold moved. rewrite Processer_Add_live, Processer_Add_waits, Hw by done. unfold live, holds. rewrite Htk. cbn. lia.
  - assert (∀ l, (∀ y, y ∈ l → y ∈ wait_io_sentries_ s) →
      total (is_of (<[sid:=IoSentry false tk]> (sentries s)) x) l = total (is_of (sentries s) x) l) as Hl.
    { induction l as [|y l IH]; intros Hy; [done|]. cbn. rewrite IH by (intros; apply Hy; by right). f_equal.
      unfold is_of. rewrite lookup_insert_ne; [done|]. intros <-. destruct (Hs sid) as [? ?]; [apply Hy; left|congruence]. }
    unfold moved. assert (∀ v, live x (set_sentries v (set_tasks (<[tk:=with_sentry sid t]> (tasks s)) s)) = live x s) as Hlv.
    { intros v. rewrite <- (live_update x tk t (with_sentry sid t) s Hk). done. }
    rewrite Hlv. place. rewrite Hl by done. lia.
  - pose proof (block_total x b o o' _ Hb) as H. rewrite (Wakeup_queue _ _ _ _ x Hw) in H. place.
  - pose proof (block_total x b o o' _ Hb) as H. rewrite (Wakeup_queue _ _ _ _ x Hw) in H. place.
  - pose proof (block_total x b o o' _ Hb) as H. assert (wait_queue_ o' = wait_queue_ o) as Hq.
    { unfold TryBlockWait, CoBlockWait_enter in Hw.
      destruct Hw as [Hw|Hw]; [destruct (wakeup_ o =? 0)%Z|destruct (0 <? wakeup_ o)%Z]; by simplify_eq. }
    rewrite Hq in H. place.
  - pose proof (block_total x b o o' _ Hb) as H. unfold BlockObject.erase in He. case_decide as Hin; simplify_eq. cbn [wait_queue_] in H.
    rewrite occ_filter in H. pose proof (Ho tk) as H1. unfold waits in H1. pose proof (occ_ge _ _ Hin) as Hg.
    assert (occ tk (wait_queue_ o) ≤ total (λ o, occ tk (wait_queue_ o)) (blocks s)) as Hle.
    { apply (sum_list_with_in o (λ o, occ tk (wait_queue_ o))). by eapply list_elem_of_lookup_2. }
    destruct (decide (x = tk)) as [->|Hx].
    + place. rewrite bool_decide_true by done. unfold b2n. lia.
    + place. rewrite bool_decide_false by congruence. unfold b2n. lia.
Qed.

(** ** What an operation leaves alone *)
Definition sentry_le (m m' : gmap nat sentry) : Prop :=
  ∀ sid b tk, m !! sid = Some (IoSentry b tk) → ∃ b', m' !! sid = Some (IoSentry b' tk) ∧ (b = true → b' = true).

Lemma sentry_le_refl m : sentry_le m m.
Proof. intros sid b tk H. eauto. Qed.

(** The part of the state that other threads rely on only grows, and the task object of a
    coroutine is written only by the thread that holds it. *)
Record framed (th : thread) (s s' : state) : Prop := {
  f_procs : length (run_proc_list_ s) ≤ length (run_proc_list_ s');
  f_sentries : sentry_le (sentries s) (sentries s');
  f_blocks : length (blocks s') = length (blocks s);
  f_tasks tk : live tk s = 1 → holds tk th = 0 → tasks s' !! tk = tasks s !! tk }.

Lemma framed_same th s s' :
  length (run_proc_list_ s) ≤ length (run_proc_list_ s') → sentries s' = sentries s → length (blocks s') = length (blocks s) →
  tasks s' = tasks s → framed th s s'.
Proof. intros H1 H2 H3 H4. split; [done|rewrite H2; apply sentry_le_refl|done|]. intros. by rewrite H4. Qed.

Lemma not_held tk th k : holds tk th = 0 → (∃ c d st, pc_ th = InTask k c d st ∨ pc_ th = Switch k c d st) ∨ (∃ dis, duty_ th = Add k dis) → tk ≠ k.
Proof.
  intros H Hk ->. unfold holds in H. destruct Hk as [(c & d & st & [E|E])|[dis E]]; rewrite E in H;
    rewrite bool_decide_true in H by done; unfold b2n in H; lia.
Qed.

Lemma Add_framed th p tk s s1 :
  (∀ k, holds k th = 0 → k ≠ tk) → length (run_proc_list_ s) ≤ length (run_proc_list_ s1) → sentries s1 = sentries s →
  length (blocks s1) = length (blocks s) → tasks s1 = tasks s → framed th s (Processer_AddTaskRunnable p tk s1).
Proof.
  intros Hk H1 H2 H3 H4. split; unfold Processer_AddTaskRunnable; simpl.
  - by rewrite length_alter.
  - rewrite H2. apply sentry_le_refl.
  - done.
  - intros k _ Hh. rewrite lookup_alter_ne by (apply not_eq_sym; auto). by rewrite H4.
Qed.

Lemma run_framed th s th' s' : run_act th s th' s' → framed th s s'.
Proof.
  intros H. destruct H as [s|p s|p c d st q s Hq Hc|p c d st q rnd pc s s' Hq Hc He|p c d st tk q s Hq|p c d st rnd pc s s' Hq He
    |p tk c d st t t' s Hk Hy|p tk c d st t s Hk Hst|p tk c d st t b o o' s Hk Hst Hb Ho' Ha|p tk c d st t b o o' s Hk Hst Hb Ho' Ha
    |p tk c d st t s Hk Hst He|p tk c d st t s Hk Hst He].
  - apply framed_same; try done. apply GetProcesser_length.
  - by apply framed_same.
  - by apply framed_same.
  - unfold end_run in He. case_decide; simplify_eq; by apply framed_same.
  - apply framed_same; try done. simpl. by rewrite length_insert.
  - unfold end_run in He. case_decide; simplify_eq; by apply framed_same.
  - split; simpl; [done|apply sentry_le_refl|done|]. intros k _ Hh. rewrite lookup_insert_ne; [done|].
    apply not_eq_sym, (not_held _ _ _ Hh). left. simpl. eauto.
  - apply framed_same; try done. simpl. by rewrite length_alter.
  - apply framed_same; try done. simpl. by rewrite length_insert.
  - apply Add_framed; try done; [|simpl; by rewrite length_insert]. intros k Hh. apply (not_held _ _ _ Hh). left. simpl. eauto.
  - split; simpl; [done|apply sentry_le_refl|done|]. intros k _ Hh. rewrite lookup_delete_ne; [done|].
    apply not_eq_sym, (not_held _ _ _ Hh). left. simpl. eauto.
  - split; simpl; [done|apply sentry_le_refl|done|]. intros k _ Hh. rewrite lookup_delete_ne; [done|].
    apply not_eq_sym, (not_held _ _ _ Hh). left. simpl. eauto.
Qed.

Lemma steal_framed th s th' s' : steal_act th s th' s' → framed th s s'.
Proof.
  intros []; apply framed_same; try done; simpl; by rewrite ?length_insert, ?length_alter.
Qed.

Lemma sleep_framed th s th' s' : sleep_act th s th' s' → framed th s s'.
Proof. intros []; by apply framed_same. Qed.

Lemma io_framed th s th' s' : io_act th s th' s' → framed th s s'.
Proof.
  intros H. destruct H as [p tk c d st t sid s Hk Hst Hsid|pr c sid e s He|pr c sid tk s Hc He|pr c sid e s He Hin|pr c sid s Hin];
    try by apply framed_same.
  split; simpl; try done. intros sid' b k Hb. destruct (decide (sid' = sid)) as [->|Hn].
  - rewrite lookup_insert_eq. simplify_eq. eauto.
  - rewrite lookup_insert_ne by done. eauto.
Qed.

Lemma prog_framed th s th' s' : prog_act th s th' s' → procs_ok s → framed th s s'.
Proof.
  intros H Hp. destruct H as [pr c tk dis s Hc Hk Hd|pr c tk dis rnd s|pr tk c d st sid t s Hk Hsid|pr c b o r tk o' s Hc Hb Hw
    |pr c b o r o' s Hc Hb Hw|pr c b o r o' s Hc Hb Hw|pr c b o tk o' s Hc Hb He];
    try (apply framed_same; try done; simpl; by rewrite length_insert).
  - split; simpl; [done|apply sentry_le_refl|done|]. intros k Hl _. rewrite lookup_insert_ne; [done|]. intros <-.
    unfold live in Hl. by rewrite Hk in Hl.
  - destruct (Add_spec dis rnd pr tk s Hp) as (p & s1 & E & Hlt & Hle & _ & Htk & Hse & _).
    assert (blocks s1 = blocks s) as Hbl.
    { unfold AddTaskRunnable in E. destruct (tasks s !! tk ≫= proc_); [|destruct (choose _ _ _ _ _)];
        apply (f_equal blocks) in E; unfold Processer_AddTaskRunnable in E; simpl in E; congruence. }
    rewrite E. apply Add_framed; try done; [|by rewrite Hbl]. intros k Hh. apply (not_held _ _ _ Hh). right. simpl. eauto.
  - split; simpl; [done| |done|].
    + intros sid' b k Hb. rewrite lookup_insert_ne by congruence. eauto.
    + intros k _ Hh. rewrite lookup_insert_ne; [done|]. apply not_eq_sym, (not_held _ _ _ Hh). left. simpl. eauto.
Qed.

Lemma act_framed th s th' s' : act th s th' s' → procs_ok s → framed th s s'.
Proof.
  intros [H|[H|[H|[H|H]]]] Hp; [by eapply run_framed|by eapply steal_framed|by eapply sleep_framed|by eapply io_framed|by eapply prog_framed].
Qed.

(** ** The invariant *)

(** Sleep timers about to be set, or expired and about to be called. *)
Definition arming (x : nat) (th : thread) : nat :=
  match duty_ th with ExpireAt tk | Fire tk => b2n (bool_decide (tk = x)) | _ => 0 end.
(** Looks at sentry [sid] still to come. *)
Definition checking (sid : nat) (th : thread) : nat :=
  match duty_ th with IoCheck x | IoErase x => b2n (bool_decide (x = sid)) | _ => 0 end.
(** Coroutines done and not yet subtracted from [task_count_]. *)
Definition done_count (th : thread) : nat :=
  match pc_ th with Loop _ d _ | Pop _ d _ | InTask _ _ d _ | Switch _ _ d _ => d | _ => 0 end.

Definition switch_ok (s : state) (tk : nat) (t : task) : Prop :=
  state_ t ∈ [runnable; io_block; sys_block; sleep; done_] ∧
  (state_ t = io_block → ∃ sid b, io_sentry_ t = Some sid ∧ sentries s !! sid = Some (IoSentry b tk)) ∧
  (state_ t = sys_block → ∃ b, block_ t = Some b ∧ b < length (blocks s)).

Record thread_ok (th : thread) (s : state) : Prop := {
  t_proc p : proc th = Some p → p < length (run_proc_list_ s);
  t_some : pc_ th ≠ Idle → is_Some (proc th);
  t_switch tk c d st : pc_ th = Switch tk c d st → ∃ t, tasks s !! tk = Some t ∧ switch_ok s tk t;
  t_steal r n : pc_ th = StealFrom r ∨ pc_ th = StealN r n → r < length (run_proc_list_ s);
  t_duty sid : duty_ th = IoCheck sid ∨ duty_ th = IoErase sid → is_Some (sentries s !! sid) }.

Record inv (c : config) : Prop := {
  i_place x : waits x (c.2) + total (holds x) (c.1) = live x (c.2);
  i_threads th : th ∈ c.1 → thread_ok th (c.2);
  i_procs : procs_ok (c.2);
  i_sentries : sentries_ok (c.2);
  i_sleep x : occ x (wait_tasks_ (c.2)) = occ x (timers (c.2)) + total (arming x) (c.1);
  i_io sid tk : sid ∈ wait_io_sentries_ (c.2) → sentries (c.2) !! sid = Some (IoSentry true tk) → 1 ≤ total (checking sid) (c.1);
  i_count : task_count_ (c.2) = u32 (Z.of_nat (size (tasks (c.2))) + Z.of_nat (total done_count (c.1))) }.

Lemma live_le x s : live x s ≤ 1.
Proof. unfold live. destruct (tasks s !! x); lia. Qed.

Lemma inv_local ts s i th : inv (ts, s) → ts !! i = Some th → local_ok th s.
Proof.
  intros [H1 H2 H3 H4 _ _ _] Hi. simpl in *. split; [|done|done|].
  - apply (t_proc th s), H2. by eapply list_elem_of_lookup_2.
  - intros x. specialize (H1 x). pose proof (live_le x s).
    pose proof (sum_list_with_in th (holds x) ts ltac:(by eapply list_elem_of_lookup_2)). lia.
Qed.

(** Two threads never hold the same coroutine. *)
Lemma inv_exclusive ts s i j th1 th2 x :
  inv (ts, s) → ts !! i = Some th1 → ts !! j = Some th2 → i ≠ j → 0 < holds x th2 → holds x th1 = 0 ∧ live x s = 1.
Proof.
  intros [H1 _ _ _ _ _ _] Hi Hj Hn Hh. simpl in *. specialize (H1 x). pose proof (live_le x s).
  pose proof (total_insert (holds x) ts i th1 (Thread None Idle NoDuty) Hi) as H2. change (holds x (Thread None Idle NoDuty)) with 0 in H2.
  assert (<[i:=Thread None Idle NoDuty]> ts !! j = Some th2) as Hj' by by rewrite list_lookup_insert_ne.
  pose proof (sum_list_with_in th2 (holds x) _ ltac:(by eapply list_elem_of_lookup_2)). lia.
Qed.

Lemma switch_le s s' tk t :
  sentry_le (sentries s) (sentries s') → length (blocks s') = length (blocks s) → switch_ok s tk t → switch_ok s' tk t.
Proof.
  intros Hs Hb (H1 & H2 & H3). split; [done|]. split.
  - intros E. destruct (H2 E) as (sid & b & E1 & E2). destruct (Hs _ _ _ E2) as (b' & E3 & _). eauto.
  - intros E. destruct (H3 E) as (b & E1 & E2). exists b. split; [done|]. by rewrite Hb.
Qed.

Lemma sentry_le_some m m' sid : sentry_le m m' → is_Some (m !! sid) → is_Some (m' !! sid).
Proof. intros H [[b tk] E]. destruct (H _ _ _ E) as (b' & E' & _). eauto. Qed.

(** The threads that do not act. *)
Lemma other_ok ts s i j th th' s' th2 :
  inv (ts, s) → ts !! i = Some th → ts !! j = Some th2 → i ≠ j → act th s th' s' → thread_ok th2 s'.
Proof.
  intros HI Hi Hj Hn Ha. assert (thread_ok th2 s) as [K1 K2 K3 K4 K5].
  { apply (i_threads _ HI). by eapply list_elem_of_lookup_2. }
  destruct (act_framed th s th' s' Ha (i_procs _ HI)) as [F1 F2 F3 F4]. split.
  - intros p Hp. specialize (K1 p Hp). lia.
  - done.
  - intros tk c d st Hpc. destruct (K3 _ _ _ _ Hpc) as (t & Ht & Hsw). exists t. split; [|by eapply switch_le].
    rewrite F4; [done|..]; eapply (inv_exclusive ts s i j th th2); try done; unfold holds; rewrite Hpc, bool_decide_true by done; unfold b2n; lia.
  - intros r n Hr. specialize (K4 r n Hr). lia.
  - intros sid Hs. eapply sentry_le_some; [done|]. by apply K5.
Qed.

Lemma victim_ok rnd self n : 1 < n → victim rnd self n < n ∧ victim rnd self n ≠ self.
Proof.
  intros Hn. unfold victim. pose proof (Nat.mod_upper_bound rnd n ltac:(lia)). repeat case_decide; lia.
Qed.

(** A field of [thread_ok] about program points or duties that the thread does not have. *)
Ltac no_pc := intros; repeat match goal with H : _ ∨ _ |- _ => destruct H end; simplify_eq/=.

Lemma end_run_ok p rnd c d st s pc s' :
  end_run p rnd c d st s = (pc, s') → p < length (run_proc_list_ s) → thread_ok (Thread (Some p) pc NoDuty) s'.
Proof.
  intros He Hp. destruct (end_run_moved _ _ _ _ _ _ _ _ He) as (_ & _ & Hpc & Hl & _). split; simpl.
  - intros q [= <-]. by rewrite Hl.
  - eauto.
  - intros tk c' d' st' ->. destruct Hpc as [|[r ?]]; done.
  - intros r n Hr. rewrite Hl. unfold end_run in He. case_decide as Hd; simplify_eq; [|by destruct Hr].
    destruct Hr as [[= <-]|]; [|done]. apply victim_ok. apply Hd.
  - by intros sid [|].
Qed.

Lemma own_ok th s th' s' : act th s th' s' → thread_ok th s → local_ok th s → thread_ok th' s'.
Proof.
  intros Ha K L. destruct (act_framed th s th' s' Ha (lo_procs _ _ L)) as [F1 F2 F3 _].
  destruct K as [K1 K2 K3 K4 K5]. destruct Ha as [H|[H|[H|[H|H]]]].
  - destruct H as [s|p s|p c d st q s Hq Hc|p c d st q rnd pc s s' Hq Hc He|p c d st tk q s Hq|p c d st rnd pc s s' Hq He
      |p tk c d st t t' s Hk Hy|p tk c d st t s Hk Hst|p tk c d st t b o o' s Hk Hst Hb Ho' Ha|p tk c d st t b o o' s Hk Hst Hb Ho' Ha
      |p tk c d st t s Hk Hst He|p tk c d st t s Hk Hst He];
      try (split; simpl; [intros q' [= <-]; specialize (K1 _ eq_refl); simpl in *; lia|by eauto|by no_pc|by no_pc|by no_pc]).
    + split; simpl; [intros q' [= <-]; apply GetProcesser_length|by eauto|by no_pc|by no_pc|by no_pc].
    + eapply end_run_ok; [done|]. by apply K1.
    + eapply end_run_ok; [done|]. by apply K1.
    + split; simpl; [intros q' [= <-]; by apply K1|by eauto| |by no_pc|by no_pc].
      intros tk' c' d' st' [= <- <- <- <-]. rewrite lookup_insert_eq. exists t'. split; [done|]. destruct Hy as (_ & Hy). exact Hy.
  - destruct H as [p r q s Hq|p r n q s Hq|p s|p l s Hl];
      (split; simpl; [intros q' [= <-]; specialize (K1 _ eq_refl); simpl in *; lia|by eauto|by no_pc| |by no_pc]);
      try by no_pc. intros r' n' [?|[= <- <-]]; [done|]. by apply (K4 r 0); left.
  - destruct H as [p tk c d st t s Hk Hst|pr c tk s|pr tk a b s Hti|pr c tk s Hin]; split; simpl; try done; try by no_pc.
  - destruct H as [p tk c d st t sid s Hk Hst Hsid|pr c sid e s He|pr c sid tk s Hc He|pr c sid e s He Hin|pr c sid s Hin].
    + split; simpl; try done; try by no_pc. intros sid' [[= <-]|]; [|done].
      destruct (K3 _ _ _ _ eq_refl) as (t' & Ht' & _ & Hio & _). simplify_eq. destruct (Hio Hst) as (sid' & b & E1 & E2). simplify_eq. eauto.
    + split; simpl; try done. intros sid' Hs'. destruct (triggered e); no_pc; eauto.
    + split; simpl; try done.
      * intros tk' c' d' st' ->. destruct Hc as [|(? & ? & ? & ? & ?)]; done.
      * intros sid' [|[= <-]]; [done|]. rewrite lookup_insert_eq. eauto.
    + split; simpl; try done; by no_pc.
    + split; simpl; try done; by no_pc.
  - assert (∀ pr c d', in_coroutine c → (∀ sid, d' ≠ IoCheck sid ∧ d' ≠ IoErase sid) → Thread pr c NoDuty = th → thread_ok (Thread pr c d') s') as Hco.
    { intros pr c d' Hc Hd <-. split; simpl.
      - intros p Hp. specialize (K1 p Hp). lia.
      - done.
      - intros tk' c' dd' st' ->. destruct Hc as [|(? & ? & ? & ? & ?)]; done.
      - intros r n [->| ->]; destruct Hc as [|(? & ? & ? & ? & ?)]; done.
      - intros sid [E|E]; by destruct (Hd sid). }
    destruct H as [pr c tk dis s Hc Hk Hd|pr c tk dis rnd s|pr tk c d st sid t s Hk Hsid|pr c b o r tk o' s Hc Hb Hw
      |pr c b o r o' s Hc Hb Hw|pr c b o r o' s Hc Hb Hw|pr c b o tk o' s Hc Hb He]; try by eapply Hco.
    + split; simpl.
      * intros p Hp. specialize (K1 p Hp). lia.
      * done.
      * intros tk' c' d' st' ->. destruct (K3 _ _ _ _ eq_refl) as (t & Ht & Hsw). simpl in *.
        destruct (decide (tk' = tk)) as [->|Hn].
        { exfalso. pose proof (lo_once _ _ L tk) as Ho. unfold holds in Ho. simpl in Ho. rewrite bool_decide_true in Ho by done. unfold b2n in Ho. lia. }
        destruct (Add_spec dis rnd pr tk s (lo_procs _ _ L)) as (p & s1 & E & _ & _ & _ & Htk & _).
        exists t. split; [|by eapply switch_le]. rewrite E. unfold Processer_AddTaskRunnable. simpl. by rewrite lookup_alter_ne, Htk.
      * intros r n Hr. specialize (K4 r n Hr). lia.
      * by no_pc.
    + split; simpl; [intros p Hp; specialize (K1 p Hp); simpl in *; lia|done|by no_pc|by no_pc|by no_pc].
Qed.

Lemma act_place x th s th' s' : act th s th' s' → thread_ok th s → local_ok th s → moved x th s th' s'.
Proof.
  intros [H|[H|[H|[H|H]]]] K L; [by apply run_place|by apply steal_place|by apply sleep_place| |by apply prog_place].
  apply io_place; [done|done|]. intros p tk c d st t sid Hpc _ Ht Hs Hst.
  destruct (t_switch _ _ K tk c d st Hpc) as (t' & Ht' & _ & Hio & _). simplify_eq. destruct (Hio Hst) as (? & b & ? & ?). simplify_eq. eauto.
Qed.

Lemma procs_le s s' : procs_ok s → length (run_proc_list_ s) ≤ length (run_proc_list_ s') →
  (∀ tk t', tasks s' !! tk = Some t' → ∀ p, proc_ t' = Some p → (∃ tk' t, tasks s !! tk' = Some t ∧ proc_ t = Some p) ∨ p < length (run_proc_list_ s')) →
  procs_ok s'.
Proof.
  intros H Hl Ht tk t' p E Hp. destruct (Ht tk t' E p Hp) as [(tk' & t & E' & Hp')|?]; [|done].
  specialize (H tk' t p E' Hp'). lia.
Qed.

Lemma alter_procs (v : gmap nat task) tk st k t' p : alter (with_state st) tk v !! k = Some t' → proc_ t' = Some p → ∃ k' t, v !! k' = Some t ∧ proc_ t = Some p.
Proof.
  intros H Hp. destruct (decide (k = tk)) as [->|].
  - rewrite lookup_alter_eq in H. destruct (v !! tk) as [t|] eqn:E; simplify_eq/=. eauto.
  - rewrite lookup_alter_ne in H by done. eauto.
Qed.

Lemma act_procs th s th' s' : act th s th' s' → thread_ok th s → local_ok th s → procs_ok s'.
Proof.
  intros Ha K L. pose proof (lo_procs _ _ L) as Hp. destruct (act_framed th s th' s' Ha Hp) as [F1 _ _ _].
  apply (procs_le s); [done|done|]. intros tk1 t1 E1 p1 Hp1. destruct Ha as [H|[H|[H|[H|H]]]].
  - destruct H as [s|p s|p c d st q s Hq Hc|p c d st q rnd pc s s' Hq Hc He|p c d st tk q s Hq|p c d st rnd pc s s' Hq He
      |p tk c d st t t' s Hk Hy|p tk c d st t s Hk Hst|p tk c d st t b o o' s Hk Hst Hb Ho' Ha|p tk c d st t b o o' s Hk Hst Hb Ho' Ha
      |p tk c d st t s Hk Hst He|p tk c d st t s Hk Hst He]; simpl in E1; try (left; by eauto).
    + left. unfold end_run in He. case_decide; simplify_eq; eauto.
    + left. unfold end_run in He. case_decide; simplify_eq; eauto.
    + destruct (decide (tk1 = tk)) as [->|]; [|rewrite lookup_insert_ne in E1 by done; eauto].
      rewrite lookup_insert_eq in E1. simplify_eq. destruct Hy as (Hy & _). simplify_eq. right. by apply (t_proc _ _ K).
    + left. by eapply alter_procs.
    + apply lookup_delete_Some in E1 as [_ E1]. eauto.
    + apply lookup_delete_Some in E1 as [_ E1]. eauto.
  - destruct H; simpl in E1; eauto.
  - destruct H; simpl in E1; eauto.
  - destruct H; simpl in E1; eauto.
  - destruct H as [pr c tk dis s Hc Hk Hd|pr c tk dis rnd s|pr tk c d st sid t s Hk Hsid|pr c b o r tk o' s Hc Hb Hw
      |pr c b o r o' s Hc Hb Hw|pr c b o r o' s Hc Hb Hw|pr c b o tk o' s Hc Hb He]; simpl in E1; try (left; by eauto).
    + destruct (decide (tk1 = tk)) as [->|]; [rewrite lookup_insert_eq in E1; by simplify_eq|rewrite lookup_insert_ne in E1 by done; eauto].
    + destruct (Add_spec dis rnd pr tk s Hp) as (p & s1 & E & _ & _ & _ & Htk & _). rewrite E in E1. simpl in E1. rewrite Htk in E1.
      left. by eapply alter_procs.
    + destruct (decide (tk1 = tk)) as [->|]; [|rewrite lookup_insert_ne in E1 by done; eauto].
      rewrite lookup_insert_eq in E1. simplify_eq. left. eauto.
Qed.

(** What changes outside the places: the waiting lists, the timers and the counter. *)
Lemma act_sentries th s th' s' : act th s th' s' → thread_ok th s → local_ok th s → sentries_ok s'.
Proof.
  intros Ha K L. pose proof (lo_sentries _ _ L) as Hs. destruct (act_framed th s th' s' Ha (lo_procs _ _ L)) as [_ F2 _ _].
  intros sid Hsid. assert (sid ∈ wait_io_sentries_ s ∨ is_Some (sentries s !! sid)) as [Hin|Hin]; [|by eapply sentry_le_some; [|apply Hs]|by eapply sentry_le_some].
  destruct Ha as [H|[H|[H|[H|H]]]].
  - destruct H; auto; match goal with He : end_run _ _ _ _ _ _ = _ |- _ => apply end_run_moved in He as (_ & _ & _ & _ & _ & _ & He & _); rewrite He in Hsid; auto end.
  - destruct H; auto.
  - destruct H; auto.
  - destruct H as [p tk c d st t sid1 s Hk Hst Hsid1|pr c sid1 e s He|pr c sid1 tk s Hc He|pr c sid1 e s He Hin|pr c sid1 s Hin]; simpl in Hsid; auto.
    + apply elem_of_app in Hsid as [?|Hsid]; [auto|]. apply list_elem_of_singleton in Hsid as ->. right.
      destruct (t_switch _ _ K tk c d st eq_refl) as (t' & Ht' & _ & Hio & _). simplify_eq. destruct (Hio Hst) as (? & b & ? & ?). simplify_eq. eauto.
    + apply list_elem_of_filter in Hsid as [_ ?]. auto.
  - destruct H as [| pr c tk dis rnd s| | | | |]; auto. simpl in Hsid.
    destruct (Add_spec dis rnd pr tk s (lo_procs _ _ L)) as (p & s1 & E & _ & _ & _ & _ & _ & Hw & _). rewrite E in Hsid. simpl in Hsid. rewrite Hw in Hsid. auto.
Qed.

Lemma act_sleep_eq x th s th' s' : act th s th' s' → local_ok th s →
  occ x (wait_tasks_ s') + occ x (timers s) + arming x th = occ x (wait_tasks_ s) + occ x (timers s') + arming x th'.
Proof.
  intros Ha L. destruct Ha as [H|[H|[H|[H|H]]]].
  - destruct H; try done; match goal with He : end_run _ _ _ _ _ _ = _ |- _ =>
      apply end_run_moved in He as (_ & _ & _ & _ & _ & _ & _ & He1 & He2 & _); by rewrite He1, He2 end.
  - by destruct H.
  - destruct H as [p tk c d st t s Hk Hst|pr c tk s|pr tk a b s Hti|pr c tk s Hin]; simpl; unfold arming; simpl.
    + rewrite occ_app, occ_cons, occ_nil. lia.
    + rewrite occ_app, occ_cons, occ_nil. lia.
    + rewrite Hti, !occ_app, occ_cons. lia.
    + rewrite occ_filter. pose proof (lo_once _ _ L x) as Ho. unfold waits in Ho. case_decide as Hx.
      * subst. pose proof (occ_ge _ _ Hin). rewrite bool_decide_true by done. unfold b2n. lia.
      * rewrite bool_decide_false by congruence. unfold b2n. lia.
  - destruct H as [| ? ? ? e| | |]; unfold arming; simpl; try lia. by destruct (triggered e).
  - destruct H as [| pr c tk dis rnd s| | | | |]; unfold arming; simpl; try lia.
    destruct (Add_spec dis rnd pr tk s (lo_procs _ _ L)) as (p & s1 & E & _ & _ & _ & _ & _ & _ & _ & Hw & Ht & _).
    rewrite E. simpl. rewrite Hw, Ht. lia.
Qed.

(** A sentry of the waiting list that has been triggered is still to be looked at. *)
Definition watched (th : thread) (s : state) (n : nat → nat) : Prop :=
  ∀ sid tk, sid ∈ wait_io_sentries_ s → sentries s !! sid = Some (IoSentry true tk) → 1 ≤ n sid + checking sid th.

Lemma act_watched th s th' s' n : act th s th' s' → local_ok th s → watched th s n → watched th' s' n.
Proof.
  intros Ha L Hw sid tk0 Hin Hse. destruct Ha as [H|[H|[H|[H|H]]]].
  - destruct H; try (specialize (Hw sid tk0 Hin Hse); exact Hw); match goal with He : end_run _ _ _ _ _ _ = _ |- _ =>
      apply end_run_moved in He as (_ & _ & _ & _ & _ & Hs1 & Hs2 & _); rewrite Hs1 in Hse; rewrite Hs2 in Hin; exact (Hw sid tk0 Hin Hse) end.
  - destruct H; exact (Hw sid tk0 Hin Hse).
  - destruct H; exact (Hw sid tk0 Hin Hse).
  - destruct H as [p tk c d st t sid1 s Hk Hst Hsid1|pr c sid1 e s He|pr c sid1 tk s Hc He|pr c sid1 e s He Hi|pr c sid1 s Hi]; simpl in *.
    + apply elem_of_app in Hin as [Hin|Hin]; [specialize (Hw sid tk0 Hin Hse); unfold checking in *; simpl in *; lia|].
      apply list_elem_of_singleton in Hin as ->. unfold checking. simpl. rewrite bool_decide_true by done. unfold b2n. lia.
    + specialize (Hw sid tk0 Hin Hse). unfold checking in *. simpl in *. destruct (triggered e) eqn:Ht; simpl; [lia|].
      destruct (decide (sid1 = sid)) as [->|]; [simplify_eq; done|]. rewrite bool_decide_false in Hw by done. unfold b2n in Hw. lia.
    + unfold checking. simpl. destruct (decide (sid1 = sid)) as [->|Hn]; [rewrite bool_decide_true by done; unfold b2n; lia|].
      rewrite lookup_insert_ne in Hse by done. specialize (Hw sid tk0 Hin Hse). unfold checking in Hw. simpl in Hw. lia.
    + apply list_elem_of_filter in Hin as [Hn Hin]. specialize (Hw sid tk0 Hin Hse). unfold checking in *. simpl in *.
      rewrite bool_decide_false in Hw by done. unfold b2n in Hw. lia.
    + specialize (Hw sid tk0 Hin Hse). unfold checking in *. simpl in *. rewrite bool_decide_false in Hw by (intros ->; done). unfold b2n in Hw. lia.
  - destruct H as [| pr c tk dis rnd s|pr tk c d st sid1 t s Hk Hsid1| | | |]; try exact (Hw sid tk0 Hin Hse).
    + destruct (Add_spec dis rnd pr tk s (lo_procs _ _ L)) as (p & s1 & E & _ & _ & _ & _ & Hs1 & Hw1 & _).
      rewrite E in Hin, Hse. simpl in Hin, Hse. rewrite Hw1 in Hin. rewrite Hs1 in Hse. exact (Hw sid tk0 Hin Hse).
    + simpl in *. rewrite lookup_insert_ne in Hse; [exact (Hw sid tk0 Hin Hse)|]. intros ->. destruct (lo_sentries _ _ L sid Hin). congruence.
Qed.

Lemma u32_add a b : u32 (u32 a + b) = u32 (a + b).
Proof. unfold u32. by rewrite Zplus_mod_idemp_l. Qed.

Lemma size_alter f k (m : gmap nat task) : size (alter f k m) = size m.
Proof. by rewrite <- !(size_dom (D:=gset nat)), dom_alter_L. Qed.

(** The counter and the number of coroutines change together. *)
Lemma act_count th s th' s' : act th s th' s' → local_ok th s → ∃ k : Z,
  (task_count_ s' = u32 (task_count_ s + k) ∨ k = 0%Z ∧ task_count_ s' = task_count_ s) ∧
  (Z.of_nat (size (tasks s')) + Z.of_nat (done_count th') = Z.of_nat (size (tasks s)) + Z.of_nat (done_count th) + k)%Z.
Proof.
  intros Ha L. assert (∀ tk t, tasks s !! tk = Some t → size (tasks s) = S (size (delete tk (tasks s)))) as Hdel.
  { intros tk t Hk. rewrite <- (insert_delete_id (tasks s) tk t Hk) at 1. by rewrite map_size_insert_None by apply lookup_delete_eq. }
  assert (∀ tk t t', tasks s !! tk = Some t → size (<[tk:=t']> (tasks s)) = size (tasks s)) as Hins.
  { intros tk t t' Hk. rewrite map_size_insert, Hk. done. }
  destruct Ha as [H|[H|[H|[H|H]]]].
  - destruct H as [s|p s|p c d st q s Hq Hc|p c d st q rnd pc s s' Hq Hc He|p c d st tk q s Hq|p c d st rnd pc s s' Hq He
      |p tk c d st t t' s Hk Hy|p tk c d st t s Hk Hst|p tk c d st t b o o' s Hk Hst Hb Ho' Ha|p tk c d st t b o o' s Hk Hst Hb Ho' Ha
      |p tk c d st t s Hk Hst He|p tk c d st t s Hk Hst He];
      try (exists 0%Z; split; [right; done|unfold done_count; simpl; lia]).
    + destruct (end_run_moved _ _ _ _ _ _ _ _ He) as (_ & _ & Hpc & _ & Ht & _ & _ & _ & _ & Hct). exists (- Z.of_nat d)%Z.
      split; [left; by rewrite Hct|]. rewrite Ht. destruct Hpc as [->|[r ->]]; unfold done_count; simpl; lia.
    + destruct (end_run_moved _ _ _ _ _ _ _ _ He) as (_ & _ & Hpc & _ & Ht & _ & _ & _ & _ & Hct). exists (- Z.of_nat d)%Z.
      split; [left; by rewrite Hct|]. rewrite Ht. destruct Hpc as [->|[r ->]]; unfold done_count; simpl; lia.
    + exists 0%Z. split; [by right|]. unfold done_count. simpl. rewrite (Hins _ _ _ Hk). lia.
    + exists 0%Z. split; [by right|]. unfold done_count. simpl. unfold Processer_AddTaskRunnable. simpl. rewrite size_alter. lia.
    + exists 0%Z. split; [by right|]. unfold done_count. simpl. rewrite (Hdel _ _ Hk). lia.
    + exists (- Z.of_nat (S d))%Z. split; [by left|]. unfold done_count. simpl pc_. cbv iota. simpl tasks. rewrite (Hdel _ _ Hk). lia.
  - destruct H; exists 0%Z; (split; [by right|unfold done_count; simpl; lia]).
  - destruct H; exists 0%Z; (split; [by right|unfold done_count; simpl; lia]).
  - destruct H; exists 0%Z; (split; [by right|unfold done_count; simpl; lia]).
  - destruct H as [pr c tk dis s Hc Hk Hd|pr c tk dis rnd s|pr tk c d st sid1 t s Hk Hsid1| | | |];
      try (exists 0%Z; split; [right; done|unfold done_count; simpl; lia]).
    + exists 1%Z. split; [by left|]. unfold done_count. simpl. rewrite map_size_insert_None by done. lia.
    + destruct (Add_spec dis rnd pr tk s (lo_procs _ _ L)) as (p & s1 & E & _ & _ & _ & Ht & _ & _ & Hct & _).
      exists 0%Z. rewrite E. split; [right; split; [done|exact Hct]|]. unfold done_count, Processer_AddTaskRunnable. simpl. rewrite size_alter, Ht. lia.
    + exists 0%Z. split; [by right|]. unfold done_count. simpl. rewrite (Hins _ _ _ Hk). lia.
Qed.

Lemma sched_inv_init c : init c → inv c.
Proof.
  intros (n & bs & Hb & ->). split; simpl; try done.
  - intros x. rewrite total_zero by done. unfold waits, live. simpl. rewrite lookup_empty.
    assert (total (λ o, occ x (wait_queue_ o)) bs = 0) as ->; [|done].
    induction Hb as [|o bs Ho Hb IH]; simpl; [done|]. by rewrite Ho, IH.
  - intros th Hth. apply elem_of_replicate in Hth as [-> _]. split; simpl; try done; by no_pc.
  - intros sid Hs. simpl in Hs. by apply elem_of_nil in Hs.
  - intros x. by rewrite total_zero.
  - rewrite total_zero by done. done.
Qed.

Lemma sched_inv_step c i c' : inv c → step c i c' → inv c'.
Proof.
  intros HI Hst. destruct Hst as [ts s i th th' s' Hi Ha]. pose proof (inv_local ts s i th HI Hi) as L.
  assert (thread_ok th s) as K by (apply (i_threads _ HI); by eapply list_elem_of_lookup_2).
  split; simpl.
  - intros x. pose proof (i_place _ HI x) as H. simpl in H. pose proof (act_place x th s th' s' Ha K L) as Hm. unfold moved in Hm.
    pose proof (total_insert (holds x) ts i th th' Hi). lia.
  - intros th2 (j & Hj)%list_elem_of_lookup. destruct (decide (i = j)) as [<-|Hn].
    + rewrite list_lookup_insert_eq in Hj by by eapply lookup_lt_Some. simplify_eq. by eapply own_ok.
    + rewrite list_lookup_insert_ne in Hj by done. by eapply (other_ok ts s i j th th' s' th2).
  - by eapply act_procs.
  - by eapply act_sentries.
  - intros x. pose proof (i_sleep _ HI x) as H. simpl in H. pose proof (act_sleep_eq x th s th' s' Ha L) as Hm.
    pose proof (total_insert (arming x) ts i th th' Hi). lia.
  - intros sid tk Hin Hs. pose proof (total_insert (checking sid) ts i th th' Hi) as Ht.
    assert (watched th s (λ sid, total (checking sid) ts - checking sid th)) as Hw.
    { intros sid0 tk0 Hin0 Hs0. pose proof (i_io _ HI sid0 tk0 Hin0 Hs0) as H. simpl in H.
      pose proof (sum_list_with_in th (checking sid0) ts ltac:(by eapply list_elem_of_lookup_2)). lia. }
    pose proof (act_watched th s th' s' _ Ha L Hw sid tk Hin Hs) as H. cbv beta in H.
    pose proof (sum_list_with_in th (checking sid) ts ltac:(by eapply list_elem_of_lookup_2)). lia.
  - pose proof (i_count _ HI) as H. simpl in H. destruct (act_count th s th' s' Ha L) as (k & Hk & Hsz).
    pose proof (total_insert done_count ts i th th' Hi) as Ht.
    destruct Hk as [->|[-> ->]]; rewrite H, ?u32_add; f_equal; lia.
Qed.

Lemma sched_inv_reachable c : reachable init step c → inv c.
Proof. apply invariant_reachable; [apply sched_inv_init|intros; by eapply sched_inv_step]. Qed.

Lemma total_pos {A} (f : A → nat) l : 0 < total f l → ∃ x, x ∈ l ∧ 0 < f x.
Proof.
  induction l as [|x l IH]; simpl; [lia|]. intros H. destruct (f x) eqn:E; [|exists x; split; [left|lia]].
  destruct IH as (y & Hy & Hf); [lia|]. exists y. split; [by right|done].
Qed.

Lemma b2n_pos (P : Prop) `{Decision P} : 0 < b2n (bool_decide P) → P.
Proof. unfold b2n. case_bool_decide; [done|lia]. Qed.

Lemma live_Some x s : live x s = 1 ↔ is_Some (tasks s !! x).
Proof. unfold live. destruct (tasks s !! x); split; [eauto|done|done|]. by intros []. Qed.

(** C15: no coroutine is lost, duplicated or run by two threads: in every interleaving of any number
    of threads that create, run, steal, put to sleep, block and wake coroutines, each coroutine
    that is not done is in exactly one place (one runnable queue, one waiting list, or the hands
    of one thread), a coroutine that is done is nowhere, and [task_count_] counts the live ones
    and those whose end the running loops have still to report. *)
Theorem Scheduler_conserves_tasks ts s :
  reachable init step (ts, s) →
  (∀ x, is_Some (tasks s !! x) → waits x s + total (holds x) ts = 1) ∧
  (∀ x, tasks s !! x = None → waits x s + total (holds x) ts = 0) ∧
  task_count_ s = u32 (Z.of_nat (size (tasks s)) + Z.of_nat (total done_count ts)).
Proof.
  intros H%sched_inv_reachable. destruct H as [H1 _ _ _ _ _ H2]. simpl in *. split_and!; [| |done].
  - intros x Hx. rewrite H1. by apply live_Some.
  - intros x Hx. rewrite H1. unfold live. by rewrite Hx.
Qed.

(** The fields of a coroutine's task object are written only by the thread that holds it: a
    step of another thread neither changes the object nor takes hold of it. *)
Theorem Scheduler_task_owner ts s i j th th2 th' s' x :
  reachable init step (ts, s) → ts !! i = Some th → ts !! j = Some th2 → i ≠ j →
  0 < holds x th2 → act th s th' s' → tasks s' !! x = tasks s !! x ∧ holds x th' = 0.
Proof.
  intros H%sched_inv_reachable Hi Hj Hn Hh Ha. destruct (inv_exclusive ts s i j th th2 x H Hi Hj Hn Hh) as [H0 Hl].
  destruct (act_framed th s th' s' Ha (i_procs _ H)) as [_ _ _ F]. split; [by apply F|].
  assert (thread_ok th s) as K by (apply (i_threads _ H); by eapply list_elem_of_lookup_2).
  pose proof (act_place x th s th' s' Ha K (inv_local _ _ _ _ H Hi)) as Hm. unfold moved in Hm.
  pose proof (i_place _ H x) as Hp. simpl in Hp.
  pose proof (sched_inv_step (ts, s) i _ H (step_act ts s i th th' s' Hi Ha)) as H'. pose proof (i_place _ H' x) as Hp'. simpl in Hp'.
  pose proof (live_le x s'). pose proof (total_insert (holds x) ts i th th' Hi) as Ht.
  assert (<[i:=th']> ts !! j = Some th2) as Hj' by by rewrite list_lookup_insert_ne.
  pose proof (total_insert (holds x) _ j th2 (Thread None Idle NoDuty) Hj') as Ht2. change (holds x (Thread None Idle NoDuty)) with 0 in Ht2.
  assert (<[j:=Thread None Idle NoDuty]> (<[i:=th']> ts) !! i = Some th') as Hi'.
  { rewrite list_lookup_insert_ne by done. apply list_lookup_insert_eq. by eapply lookup_lt_Some. }
  pose proof (sum_list_with_in th' (holds x) _ ltac:(by eapply list_elem_of_lookup_2)). lia.
Qed.

(** C16: no wakeup is lost, whichever of the switch and the wakeup comes first: a sleeping
    coroutine has its timer pending, or a thread is about to set or to call it; the assertion of
    [SleepWait::Wakeup] holds (the coroutine is in the list when its timer is called); and a
    coroutine waiting for a file whose sentry has been triggered is about to be taken out of the
    list by some thread. *)
Theorem Scheduler_no_lost_wakeup ts s :
  reachable init step (ts, s) →
  (∀ tk, tk ∈ wait_tasks_ s → tk ∈ timers s ∨ ∃ th, th ∈ ts ∧ (duty_ th = ExpireAt tk ∨ duty_ th = Fire tk)) ∧
  (∀ th tk, th ∈ ts → duty_ th = Fire tk → tk ∈ wait_tasks_ s) ∧
  (∀ sid tk, sid ∈ wait_io_sentries_ s → sentries s !! sid = Some (IoSentry true tk) →
     ∃ th, th ∈ ts ∧ (duty_ th = IoCheck sid ∨ duty_ th = IoErase sid)).
Proof.
  intros H%sched_inv_reachable. pose proof (i_sleep _ H) as Hs. pose proof (i_io _ H) as Hio. simpl in *. split_and!.
  - intros tk Hin%occ_ge. specialize (Hs tk). destruct (decide (0 < occ tk (timers s))) as [Hp|Hp]; [left; by apply occ_pos|right].
    destruct (total_pos (arming tk) ts ltac:(lia)) as (th & Hth & Hf). exists th. split; [done|].
    unfold arming in Hf. destruct (duty_ th); try lia; apply b2n_pos in Hf as ->; auto.
  - intros th tk Hth Hd. apply occ_pos. specialize (Hs tk). pose proof (sum_list_with_in th (arming tk) ts Hth) as Hle.
    unfold arming at 1 in Hle. rewrite Hd, bool_decide_true in Hle by done. unfold b2n in Hle. lia.
  - intros sid tk Hin Hse. destruct (total_pos (checking sid) ts (Hio sid tk Hin Hse)) as (th & Hth & Hf). exists th. split; [done|].
    unfold checking in Hf. destruct (duty_ th); try lia; apply b2n_pos in Hf as ->; auto.
Qed.

Lemma pc_progress p c s : thread_ok (Thread (Some p) c NoDuty) s → (∀ tk n d st, c = InTask tk n d st → is_Some (tasks s !! tk)) →
  ∃ th' s', act (Thread (Some p) c NoDuty) s th' s'.
Proof.
  intros K Hlive. destruct (lookup_lt_is_Some_2 (run_proc_list_ s) p) as [q Hq]; [by apply (t_proc _ _ K)|].
  destruct c as [|c d st|c d st|tk c d st|tk c d st|r|r n|l].
  - eexists _, _. left. apply act_run.
  - destruct (decide (c < length q)) as [Hc|Hc]; [eexists _, _; left; by eapply act_size|].
    destruct (end_run p 0 c d st s) as [pc s'] eqn:He. exists (Thread (Some p) pc NoDuty), s'. left. eapply act_break; [exact Hq|lia|exact He].
  - destruct q as [|tk q]; [|eexists _, _; left; by eapply act_pop].
    destruct (end_run p 0 c d st s) as [pc s'] eqn:He. exists (Thread (Some p) pc NoDuty), s'. left. eapply act_pop_nil; [exact Hq|exact He].
  - destruct (Hlive _ _ _ _ eq_refl) as [t Ht]. eexists _, _. left.
    apply (act_yield p tk c d st t (Task runnable (Some p) None None false)); [done|]. split_and!; try done. left.
  - destruct (t_switch _ _ K _ _ _ _ eq_refl) as (t & Ht & Hst & Hio & Hbl).
    destruct (state_ t) eqn:Hs; try (exfalso; clear -Hst; set_solver).
    + eexists _, _. left. by eapply act_runnable.
    + destruct (Hio eq_refl) as (sid & b & Hsid & _). eexists _, _. right; right; right; left. by eapply act_io.
    + destruct (Hbl eq_refl) as (b & Hb & Hlt). destruct (lookup_lt_is_Some_2 _ _ Hlt) as [o Ho].
      destruct (AddWaitTask o tk) as [[|] o'] eqn:Ha; eexists _, _; left; [by eapply act_block|by eapply act_noblock].
    + eexists _, _. right; right; left. by eapply act_sleep.
    + destruct (eptr_ t) eqn:He; eexists _, _; left; [by eapply act_throw|by eapply act_done].
  - destruct (lookup_lt_is_Some_2 (run_proc_list_ s) r) as [q' Hq']; [apply (t_steal _ _ K r 0); by left|].
    eexists _, _. right; left. by eapply act_steal_size.
  - destruct (lookup_lt_is_Some_2 (run_proc_list_ s) r) as [q' Hq']; [apply (t_steal _ _ K r n); by right|].
    eexists _, _. right; left. by eapply act_steal.
  - destruct l as [|x l]; eexists _, _; right; left; [apply act_stolen_none|by apply act_stolen].
Qed.

(** C17: no thread of the scheduler ever gets stuck: in every reachable configuration every thread
    has a next step; it never looks at a processer, task, sentry or semaphore that is not there,
    no assertion fails, and a victim of stealing exists. *)
Theorem Scheduler_progress ts s i th :
  reachable init step (ts, s) → ts !! i = Some th → ∃ th' s', act th s th' s'.
Proof.
  intros Hr%sched_inv_reachable Hi. assert (th ∈ ts) as Hin by by eapply list_elem_of_lookup_2.
  pose proof (i_threads _ Hr th Hin) as K. destruct th as [pr c du]. simpl in K. destruct du as [|tk dis|sid|sid|tk|tk].
  - destruct pr as [p|].
    + apply pc_progress; [done|]. intros tk n d st ->. apply live_Some. pose proof (i_place _ Hr tk) as Hp. simpl in Hp.
      pose proof (sum_list_with_in _ (holds tk) ts Hin) as Hle. unfold holds at 1 in Hle. simpl in Hle.
      rewrite bool_decide_true in Hle by done. unfold b2n in Hle. pose proof (live_le tk s). lia.
    + destruct c; [eexists _, _; left; apply act_start|..]; by destruct (t_some _ _ K ltac:(done)).
  - eexists _, _. do 4 right. by apply (act_add pr c tk dis 0).
  - destruct (t_duty _ _ K sid) as [e He]; [by left|]. eexists _, _. do 3 right. left. by eapply act_io_check.
  - destruct (t_duty _ _ K sid) as [e He]; [by right|].
    destruct (decide (sid ∈ wait_io_sentries_ s)); eexists _, _; do 3 right; left; [by eapply act_io_erase|by eapply act_io_late].
  - eexists _, _. do 2 right. left. apply act_expire_at.
  - eexists _, _. do 2 right. left. apply act_fire. apply occ_pos. pose proof (i_sleep _ Hr tk) as Hs. simpl in Hs.
    pose proof (sum_list_with_in _ (arming tk) ts Hin) as Hle. unfold arming at 1 in Hle. simpl in Hle.
    rewrite bool_decide_true in Hle by done. unfold b2n in Hle. lia.
Qed.

End Options.

(** ** A configuration to apply the theorems to: two threads have started, the second has created
    coroutine 7 and holds it. *)
Definition demo_threads : list thread :=
  [Thread (Some 0) Idle NoDuty; Thread (Some 1) Idle (Add 7 egod_default)].
Definition demo_state : state :=
  State [[]; []] {[7 := Task init_ None None None false]} ∅ [] [] [] [] 1 0 2.

Lemma demo_reachable : reachable init (step true) (demo_threads, demo_state).
Proof.
  assert (reachable init (step true) ([Thread None Idle NoDuty; Thread None Idle NoDuty], State [] ∅ ∅ [] [] [] [] 0 0 0)) as H.
  { apply reach_init. exists 2, []. split; [constructor|done]. }
  eapply (reach_step _ _ _ 0) in H; [|eapply (step_act true _ _ 0); [reflexivity|left; apply act_start]].
  eapply (reach_step _ _ _ 1) in H; [|eapply (step_act true _ _ 1); [reflexivity|left; apply act_start]].
  eapply (reach_step _ _ _ 1) in H; [|eapply (step_act true _ _ 1); [reflexivity|do 4 right; apply (act_create _ _ _ 7 egod_default); [by left|done|done]]].
  exact H.
Qed.

Lemma Scheduler_conserves_tasks_witness :
  waits 7 demo_state + sum_list_with (holds 7) demo_threads = 1 ∧ task_count_ demo_state = 1%Z.
Proof.
  destruct (Scheduler_conserves_tasks true _ _ demo_reachable) as (H & _ & Hc).
  split; [apply H; eexists; reflexivity|]. rewrite Hc. reflexivity.
Defined.

Lemma Scheduler_task_owner_witness :
  tasks (set_thread_id 2 demo_state) !! 7 = tasks demo_state !! 7 ∧ holds 7 (Thread (Some 0) (Loop 0 0 true) NoDuty) = 0.
Proof.
  apply (Scheduler_task_owner true demo_threads demo_state 0 1 (Thread (Some 0) Idle NoDuty)
    (Thread (Some 1) Idle (Add 7 egod_default)) (Thread (Some 0) (Loop 0 0 true) NoDuty) demo_state 7 demo_reachable);
    try reflexivity; [discriminate|vm_compute; lia|left; apply act_run].
Defined.

(** Later: thread 1 has run the coroutine, which sleeps; its timer is still to be set. *)
Definition asleep : task := Task sleep (Some 1) None None false.
Definition sleep_threads : list thread := [Thread (Some 0) Idle NoDuty; Thread (Some 1) (Loop 1 0 true) (ExpireAt 7)].
Definition sleep_state : state := State [[]; []] {[7 := asleep]} ∅ [7] [] [] [] 1 0 2.

Lemma sleep_reachable : reachable init (step true) (sleep_threads, sleep_state).
Proof.
  pose proof demo_reachable as H.
  eapply (reach_step _ _ _ 1) in H; [|eapply (step_act true _ _ 1); [reflexivity|do 4 right; apply (act_add true _ _ 7 egod_default 0)]].
  eapply (reach_step _ _ _ 1) in H; [|eapply (step_act true _ _ 1); [reflexivity|left; apply act_run]].
  eapply (reach_step _ _ _ 1) in H; [|eapply (step_act true _ _ 1); [reflexivity|left; eapply (act_size true _ _ _ _ [7]); [reflexivity|simpl; lia]]].
  eapply (reach_step _ _ _ 1) in H; [|eapply (step_act true _ _ 1); [reflexivity|left; eapply (act_pop true _ _ _ _ 7 []); reflexivity]].
  eapply (reach_step _ _ _ 1) in H; [|eapply (step_act true _ _ 1); [reflexivity|left; eapply (act_yield true _ 7 _ _ _ _ asleep); [reflexivity|]]].
  2: { split; [done|]. split; [set_solver|]. done. }
  eapply (reach_step _ _ _ 1) in H; [|eapply (step_act true _ _ 1); [reflexivity|do 2 right; left; eapply (act_sleep _ 7); reflexivity]].
  exact H.
Qed.

Lemma Scheduler_no_lost_wakeup_witness :
  7 ∈ timers sleep_state ∨ ∃ th, th ∈ sleep_threads ∧ (duty_ th = ExpireAt 7 ∨ duty_ th = Fire 7).
Proof. apply (proj1 (Scheduler_no_lost_wakeup true _ _ sleep_reachable) 7). left. Defined.

Lemma Scheduler_progress_witness : ∃ th' s', act true (Thread (Some 1) Idle (Add 7 egod_default)) demo_state th' s'.
Proof. apply (Scheduler_progress true demo_threads demo_state 1 _ demo_reachable). reflexivity. Defined.

(** ** The choice of a processer *)

(** Round-robin dispatch is fair: as long as the 32-bit index does not wrap around, any [n]
    consecutive new coroutines (the default without work stealing) go to [n] different processers
    of the [n] that exist. *)
Theorem robin_fair n robin rnd self i j :
  0 < n → (0 ≤ robin)%Z → (robin + Z.of_nat n ≤ 2 ^ 32)%Z → i < n → j < n →
  let pick k := fst (choose false egod_default rnd self n (robin + Z.of_nat k)) in
  pick i < n ∧ (pick i = pick j → i = j) ∧
  snd (choose false egod_default rnd self n (robin + Z.of_nat i)) = u32 (robin + Z.of_nat (S i)).
Proof.
  intros Hn Hr Hw Hi Hj pick. unfold pick, choose. simpl Z.leb. cbv iota. simpl Z.eqb. cbv iota. simpl fst. simpl snd.
  rewrite Nat.max_l by lia.
  pose proof (Z.mod_pos_bound (robin + Z.of_nat i) (Z.of_nat n) ltac:(lia)).
  pose proof (Z.mod_pos_bound (robin + Z.of_nat j) (Z.of_nat n) ltac:(lia)).
  split_and!; [lia| |f_equal; lia]. intros E%Z2Nat.inj; [|lia..].
  pose proof (Z.div_mod (robin + Z.of_nat i) (Z.of_nat n) ltac:(lia)) as Di. pose proof (Z.div_mod (robin + Z.of_nat j) (Z.of_nat n) ltac:(lia)) as Dj.
  rewrite E in Di. set (a := ((robin + Z.of_nat i) / Z.of_nat n)%Z) in *. set (b := ((robin + Z.of_nat j) / Z.of_nat n)%Z) in *.
  assert (Z.of_nat i - Z.of_nat j = Z.of_nat n * (a - b))%Z as Hd by lia.
  assert (a - b = 0)%Z as Hab; [|rewrite Hab in Hd; lia].
  destruct (Z.lt_trichotomy (a - b) 0) as [?|[?|?]]; [nia|done|nia].
Qed.

Lemma robin_fair_witness : fst (choose false egod_default 0 None 3 (5 + Z.of_nat 0)) ≠ fst (choose false egod_default 0 None 3 (5 + Z.of_nat 2)).
Proof.
  intros E. destruct (robin_fair 3 5 0 None 0 2) as (_ & H & _); [lia..|]. specialize (H E). discriminate.
Defined.

End Scheduler.
