(* ===== verification/Processer.v ===== *)
(** * One pass over a processer's queue (libgo/processer.cpp, [Processer::Run])

    Seen from one thread: [turn] is what a coroutine does between being switched in and out, with
    the coroutines that anybody adds to this queue meanwhile and what becomes of it afterwards.
    Sched.v interleaves the same loop with the other threads. *)
From S2P Require Import Prelude.

Module Processer.

(** After its turn a coroutine is back in the queue ([runnable], or [sys_block] on a semaphore
    that has been signalled), waits elsewhere, or is done, with an exception to rethrow or not. *)
Inductive outcome := Requeue | Waits | Done (eptr : bool).

Section Run.
Context {St : Type}.
Variable turn : nat → St → list nat * outcome * St.

(** The count [c], [done_count], the queue, the coroutines run, in order, and whether an
    exception left the loop. *)
Record pass := Pass { count_ : nat; done_count : nat; queue : list nat; trace : list nat; thrown : bool; env : St }.

Definition after (tk : nat) (o : outcome) : list nat := match o with Requeue => [tk] | _ => [] end.

(*@ libgo/libgo/processer.cpp 34-86 Processer::Run *)
Fixpoint Run (fuel : nat) (c d : nat) (q tr : list nat) (st : St) : option pass :=
  match fuel with
  | O => None
  | S fuel =>
      if length q <=? c then Some (Pass c d q tr false st)
      else match q with
           | [] => Some (Pass c d q tr false st)
           | tk :: q =>
               let '(added, o, st) := turn tk st in
               let q := q ++ added ++ after tk o in
               match o with
               | Done true => Some (Pass (S c) (S d) q (tr ++ [tk]) true st)
               | Done false => Run fuel (S c) (S d) q (tr ++ [tk]) st
               | _ => Run fuel (S c) d q (tr ++ [tk]) st
               end
           end
  end.

(** [room st] bounds the coroutines that will still be added to the queue. *)
Variable room : St → nat.
Hypothesis turn_room : ∀ tk st, length (turn tk st).1.1 + room (turn tk st).2 ≤ room st.

(** Everything that was ever in the queue, in order: what has run, then the queue. *)
Lemma Run_aux fuel : ∀ c d q tr st pushed q0,
  length tr = c → q0 ++ pushed = tr ++ q → length q + room st - c < fuel →
  ∃ r more, Run fuel c d q tr st = Some r ∧ length (trace r) = count_ r ∧
    (q0 ++ pushed) ++ more = trace r ++ queue r ∧ c ≤ count_ r ∧ (thrown r = false → length (queue r) ≤ count_ r) ∧
    count_ r ≤ Nat.max c (length q + room st).
Proof.
  induction fuel as [|fuel IH]; intros c d q tr st pushed q0 Hc Hq Hf; [lia|]. cbn [Run].
  destruct (Nat.leb_spec (length q) c) as [Hle|Hlt].
  - eexists _, []. split; [reflexivity|]. simpl. rewrite app_nil_r. split_and!; try done. lia.
  - destruct q as [|tk q]; [simpl in Hlt; lia|]. pose proof (turn_room tk st) as Hr.
    destruct (turn tk st) as [[added o] st'] eqn:Ht. simpl in Hr, Hf, Hlt.
    assert (length (after tk o) ≤ 1) as Ha by (destruct o; simpl; lia).
    assert (q0 ++ pushed ++ added ++ after tk o = (tr ++ [tk]) ++ (q ++ added ++ after tk o)) as Hq'.
    { rewrite app_assoc, Hq, <- !app_assoc. done. }
    assert (∀ d', ∃ r more, Run fuel (S c) d' (q ++ added ++ after tk o) (tr ++ [tk]) st' = Some r ∧ length (trace r) = count_ r ∧
      (q0 ++ pushed) ++ more = trace r ++ queue r ∧ c ≤ count_ r ∧ (thrown r = false → length (queue r) ≤ count_ r) ∧
      count_ r ≤ Nat.max c (length (tk :: q) + room st)) as Hrec.
    { intros d'. destruct (IH (S c) d' (q ++ added ++ after tk o) (tr ++ [tk]) st' (pushed ++ added ++ after tk o) q0)
        as (r & more & E & H1 & H2 & H3 & H4 & H5); [rewrite length_app; simpl; lia|done|rewrite !length_app; lia|].
      exists r, ((added ++ after tk o) ++ more). split_and!; [done|done| |lia|done|rewrite !length_app in H5; simpl; lia].
      rewrite <- H2, <- !app_assoc. done. }
    destruct o as [| |[|]]; try apply Hrec. eexists _, (added ++ after tk (Done true)). split; [reflexivity|]. simpl.
    split_and!; [rewrite length_app; simpl; lia| |lia|done|lia].
    rewrite <- app_assoc. exact Hq'.
Qed.

(** One call of [Run] ends whenever only finitely many coroutines are added to the queue
    meanwhile, after at most as many turns as there are coroutines in the queue at first plus
    those added; it runs them strictly in the order of the queue, so that no coroutine runs a second
    time before every one that was queued before it; and it leaves the rest queued in order. *)
Theorem Run_fifo q st fuel :
  length q + room st < fuel →
  ∃ r pushed, Run fuel 0 0 q [] st = Some r ∧ length (trace r) = count_ r ∧
    q ++ pushed = trace r ++ queue r ∧ count_ r ≤ length q + room st ∧
    (thrown r = false → length (queue r) ≤ count_ r).
Proof.
  intros Hf. destruct (Run_aux fuel 0 0 q [] st [] q) as (r & more & E & H1 & H2 & _ & H3 & H4);
    [done|by rewrite app_nil_r|lia|]. rewrite app_nil_r in H2. exists r, more. split_and!; try done; lia.
Qed.
End Run.

(** Coroutines that yield once each: all run once, and all are queued again. *)
Definition yields (tk : nat) (st : unit) : list nat * outcome * unit := ([], Requeue, tt).

Lemma Run_fifo_witness :
  ∃ r pushed, Run yields 5 0 0 [3; 1; 2] [] tt = Some r ∧ length (trace r) = count_ r ∧ [3; 1; 2] ++ pushed = trace r ++ queue r ∧
    count_ r ≤ length [3; 1; 2] + 0 ∧ (thrown r = false → length (queue r) ≤ count_ r).
Proof. apply (Run_fifo yields (λ _, 0)); [done|simpl; lia]. Defined.

Example yields_run : Run yields 5 0 0 [3; 1; 2] [] tt = Some (Pass 3 0 [3; 1; 2] [3; 1; 2] false tt).
Proof. reflexivity. Qed.

(** Coroutines that end at once: the loop stops half way, when it has run as many as are left. *)
Example ends_run : Run (λ _ (_ : unit), ([], Done false, tt)) 9 0 0 [1; 2; 3; 4; 5] [] tt = Some (Pass 3 3 [4; 5] [1; 2; 3] false tt).
Proof. reflexivity. Qed.

(** A coroutine that creates another one in every turn keeps the loop going for ever. *)
Lemma Run_spawning fuel : ∀ c d q tr, c < length q → Run (λ tk (_ : unit), ([S tk], Requeue, tt)) fuel c d q tr tt = None.
Proof.
  induction fuel as [|fuel IH]; intros c d q tr Hq; [done|]. cbn [Run]. destruct (Nat.leb_spec (length q) c); [lia|].
  destruct q as [|tk q]; [simpl in *; lia|]. apply IH. rewrite !length_app. simpl in *. lia.
Qed.

End Processer.
