(* ===== verification/TaskObject.v ===== *)
(** * Coroutines as objects (libgo/task.cpp)

    What a coroutine does with an exception, the statistics over all coroutines, and their texts for
    debugging.  Their places in the scheduler are in Sched.v. *)
From S2P Require Import Prelude CppString Decimal Sched.
Import Scheduler(TaskState, init_, runnable, io_block, sys_block, sleep, done_, fatal).

#[local] Open Scope Z_scope.

Module TaskObject.

(** ** The function of a coroutine *)

(*@ libgo/libgo/config.h 93-98 eCoExHandle *)
Inductive eCoExHandle := immedaitely_throw | delay_rethrow | debugger_only.

(** The state and [eptr_] when it switches out for the last time; or the exception leaves it. *)
Inductive ending (E : Type) := Ends (state_ : TaskState) (eptr_ : option E) | Escapes (e : E).
Arguments Ends {E} state_ eptr_.
Arguments Escapes {E} e.

(** [fn_] returns or throws; the option is read before it and, when it throws, again behind it.  Both
    handlers do the same but for the text they print. *)
(*@ libgo/libgo/task.cpp 35-82 Task::Task_CB *)
Definition Task_CB {E} (before : eCoExHandle) (fn_ : option E) (after : eCoExHandle) : ending E :=
  match before, fn_ with
  | immedaitely_throw, None => Ends done_ None
  | immedaitely_throw, Some e => Escapes e
  | _, None => Ends done_ None
  | _, Some e =>
      match after with
      | immedaitely_throw => Escapes e
      | delay_rethrow => Ends done_ (Some e)
      | debugger_only => Ends done_ None
      end
  end.

(** ** Texts *)

(** [(size_t)state] *)
Definition state_number (s : TaskState) : nat :=
  match s with init_ => 0 | runnable => 1 | io_block => 2 | sys_block => 3 | sleep => 4 | done_ => 5 | fatal => 6 end.
(** Any value of the underlying type may be given. *)
(*@ libgo/libgo/task.cpp 11-27 GetTaskStateName *)
Definition GetTaskStateName (state : nat) : str :=
  default (lit "unkown") (map lit ["init"; "runnable"; "io_block"; "sys_block"; "sleep"; "done"; "fatal"]%string !! state).

(** A literal is its address and its text. *)
(*@ libgo/libgo/util.h 114-122 SourceLocation *)
Record SourceLocation := Location { file_ : option (Z * str); lineno_ : Z }.
#[export] Instance SourceLocation_eq_dec : EqDecision SourceLocation.
Proof. solve_decision. Defined.
#[export] Instance SourceLocation_countable : Countable SourceLocation.
Proof. refine (inj_countable' (λ l, (file_ l, lineno_ l)) (λ p, Location p.1 p.2) _). by intros []. Defined.
(*@ libgo/libgo/util.h 132-139 to_string *)
Definition to_string (l : SourceLocation) : str :=
  lit "{file:" ++ match file_ l with Some (_, t) => c_str t | None => [] end ++ lit ", line:" ++ dec_int (lineno_ l) ++ lit "}".

(*@ libgo/libgo/task.h 31-67 Task *)
Record task := Task { id_ : Z; state_ : TaskState; debug_info_ : str; location_ : SourceLocation }.

(*@ libgo/libgo/task.cpp 118-121 Task::SetDebugInfo *)
Definition SetDebugInfo (info : str) (t : task) : task :=
  Task (id_ t) (state_ t) (info ++ lit "(" ++ dec (id_ t) ++ lit ")") (location_ t).
(*@ libgo/libgo/task.cpp 123-132 Task::DebugInfo *)
Definition DebugInfo (t : task) : str * task :=
  match debug_info_ t with
  | [] => let info := dec (id_ t) ++ match file_ (location_ t) with Some _ => lit " :" ++ to_string (location_ t) | None => [] end in
          (info, Task (id_ t) (state_ t) info (location_ t))
  | info => (info, t)
  end.

(** ** The statistics

    [objects] are the coroutines that are there, by their addresses; the rest is static.  Each
    operation is one of one thread, where [++s_id] is no atomic one: with several threads see below. *)
(*@ libgo/libgo/task.cpp 29-33 Task *)
Record statics := Statics { s_id : Z; s_task_count : Z; s_stat_set : gset Z; objects : gmap Z task }.

(*@ libgo/libgo/task.cpp 109-116 Task::InitLocation *)
Definition InitLocation (enable_coro_stat : bool) (p : Z) (file : option (Z * str)) (lineno : Z) (s : statics) : statics :=
  Statics (s_id s) (s_task_count s) (if enable_coro_stat then {[p]} ∪ s_stat_set s else s_stat_set s)
    (alter (λ t, Task (id_ t) (state_ t) (debug_info_ t) (Location file lineno)) p (objects s)).
(** [new] gives an address that is free. *)
(*@ libgo/libgo/task.cpp 84-90 Task::Task *)
Definition construct (enable_coro_stat : bool) (p : Z) (file : option (Z * str)) (lineno : Z) (s : statics) : statics :=
  let id := u64 (s_id s + 1) in
  InitLocation enable_coro_stat p file lineno
    (Statics id (u64 (s_task_count s + 1)) (s_stat_set s) (<[p := Task id init_ [] (Location None 0)]> (objects s))).
(** [None] where an assertion fails.  The object is in no queue and has no references. *)
(*@ libgo/libgo/task.cpp 92-107 Task::~Task *)
Definition destruct_ (enable_coro_stat : bool) (p : Z) (s : statics) : option statics :=
  if 0 <? s_task_count s then
    Some (Statics (s_id s) (u64 (s_task_count s - 1)) (if enable_coro_stat then s_stat_set s ∖ {[p]} else s_stat_set s) (delete p (objects s)))
  else None.
Definition set_state (p : Z) (st : TaskState) (s : statics) : statics :=
  match objects s !! p with
  | Some t => Statics (s_id s) (s_task_count s) (s_stat_set s) (<[p := Task (id_ t) st (debug_info_ t) (location_ t)]> (objects s))
  | None => s
  end.

(** [++result[l]], with counts of 32 bits. *)
Definition count_up (result : gmap SourceLocation Z) (l : SourceLocation) : gmap SourceLocation Z :=
  <[l := u32 (default 0 (result !! l) + 1)]> result.
(** The objects of the set; [None] where one of the pointers is dangling. *)
Definition stat_objects (s : statics) : option (list task) := mapM (λ p, objects s !! p) (elements (s_stat_set s)).
(*@ libgo/libgo/task.cpp 139-151 Task::GetStatInfo *)
Definition GetStatInfo (enable_coro_stat : bool) (s : statics) : option (gmap SourceLocation Z) :=
  if enable_coro_stat then ts ← stat_objects s; Some (foldl count_up ∅ (map location_ ts)) else Some ∅.
(*@ libgo/libgo/task.cpp 152-165 Task::GetStateInfo *)
Definition GetStateInfo (enable_coro_stat : bool) (s : statics) : option (list (gmap SourceLocation Z)) :=
  let result := replicate 7 ∅ in
  if enable_coro_stat then
    ts ← stat_objects s;
    Some (foldl (λ r t, alter (λ m, count_up m (location_ t)) (state_number (state_ t)) r) result ts)
  else Some result.

(** ** With the statistics enabled all the time *)

Record inv (s : statics) : Prop := Inv {
  inv_count : s_task_count s = Z.of_nat (base.size (objects s));
  inv_set : s_stat_set s = dom (objects s);
}.

Inductive op := New (p : Z) (file : option (Z * str)) (lineno : Z) | Del (p : Z) | Set_ (p : Z) (st : TaskState).
(** An address of a new object is free, one of an object that goes is not; the heap is smaller than 2^64. *)
Definition allowed (o : op) (s : statics) : Prop :=
  match o with
  | New p _ _ => objects s !! p = None ∧ Z.of_nat (S (base.size (objects s))) < 2 ^ 64
  | Del p => is_Some (objects s !! p) ∧ Z.of_nat (base.size (objects s)) < 2 ^ 64
  | Set_ p _ => is_Some (objects s !! p)
  end.
Definition exec (o : op) (s : statics) : option statics :=
  match o with New p f l => Some (construct true p f l s) | Del p => destruct_ true p s | Set_ p st => Some (set_state p st s) end.

Lemma exec_inv o s : inv s → allowed o s → ∃ s', exec o s = Some s' ∧ inv s'.
Proof.
  intros [Hc Hs] Ho. destruct o as [p f l|p|p st]; cbn in *.
  - destruct Ho as [Hf Hl]. eexists. split; [done|]. unfold construct, InitLocation. cbn. rewrite alter_insert_eq. split; cbn.
    + rewrite map_size_insert_None by done. rewrite u64_small by lia. lia.
    + rewrite dom_insert_L. by rewrite Hs.
  - destruct Ho as [[t Ht] Hl]. pose proof (map_size_ne_0_lookup_2 (objects s) p ltac:(by eexists)) as Hp.
    unfold destruct_. rewrite (proj2 (Z.ltb_lt _ _)) by lia. eexists. split; [done|]. split; cbn.
    + rewrite (map_size_delete_Some p (objects s)) by (by eexists). rewrite u64_small by lia. lia.
    + rewrite dom_delete_L. by rewrite Hs.
  - destruct Ho as [t Ht]. eexists. split; [done|]. unfold set_state. rewrite Ht. split; cbn.
    + by rewrite map_size_insert_Some by (by eexists).
    + rewrite dom_insert_L, Hs. assert (p ∈ dom (objects s)) by (by apply elem_of_dom; eexists). set_solver.
Qed.

(** How many of the coroutines come from a place in the program. *)
Definition here (l : SourceLocation) (ts : list task) : nat := length (filter (λ t, location_ t = l) ts).
Definition coroutines (s : statics) : list task := (map_to_list (objects s)).*2.

Lemma count_up_all ts : ∀ m l,
  foldl count_up m (map location_ ts) !! l = if decide (here l ts = 0%nat) then m !! l else Some (u32 (default 0 (m !! l) + Z.of_nat (here l ts))).
Proof.
  induction ts as [|t ts IH]; intros m l; [done|]. cbn [map foldl]. rewrite IH. unfold here, count_up. rewrite filter_cons.
  destruct (decide (location_ t = l)) as [<- |Hl]; [|by rewrite !lookup_insert_ne by done]. simpl length. rewrite (decide_False (P := S _ = 0%nat)) by done.
  rewrite lookup_insert_eq. cbn [from_option id]. case_decide as Hn; [rewrite Hn; by f_equal|]. f_equal. unfold u32. rewrite Zplus_mod_idemp_l. f_equal. lia.
Qed.

Lemma mapM_found (m : gmap Z task) kts : (∀ kt, kt ∈ kts → m !! kt.1 = Some kt.2) → mapM (λ p, m !! p) kts.*1 = Some kts.*2.
Proof. intros H. apply mapM_Some_2. induction kts as [|kt kts IH]; constructor; [apply H, list_elem_of_here|]. apply IH. intros kt' Hk. by apply H, list_elem_of_further. Qed.

Lemma objects_found s : inv s → ∃ ts, stat_objects s = Some ts ∧ ts ≡ₚ coroutines s.
Proof.
  intros [_ Hs]. unfold stat_objects, coroutines. rewrite Hs.
  assert (elements (dom (objects s)) ≡ₚ (map_to_list (objects s)).*1) as Hp.
  { apply NoDup_Permutation; [apply NoDup_elements|apply NoDup_fst_map_to_list|]. intros p. rewrite elem_of_elements, elem_of_dom, list_elem_of_fmap. split.
    - intros [t Ht]. exists (p, t). split; [done|]. by apply elem_of_map_to_list.
    - intros ([q t] & -> & Ht%elem_of_map_to_list). by eexists. }
  apply Permutation_map_inv in Hp as (kts & E & Hk). change (map fst kts) with kts.*1 in E. rewrite E. exists kts.*2. split.
  - apply mapM_found. intros [q t] Hq. apply elem_of_map_to_list. by rewrite Hk.
  - by rewrite Hk.
Qed.

Lemma here_perm l ts ts' : ts ≡ₚ ts' → here l ts = here l ts'.
Proof. intros H. unfold here. by rewrite H. Qed.

Lemma states_all ts : ∀ (r : list (gmap SourceLocation Z)) i,
  foldl (λ r t, alter (λ m, count_up m (location_ t)) (state_number (state_ t)) r) r ts !! i =
  (λ m, foldl count_up m (map location_ (filter (λ t, state_number (state_ t) = i) ts))) <$> r !! i.
Proof.
  induction ts as [|t ts IH]; intros r i; [cbn; destruct (r !! i); done|]. cbn [foldl]. rewrite IH, filter_cons. destruct (decide (state_number (state_ t) = i)) as [<- |Hi].
  - rewrite list_lookup_alter_eq. by destruct (r !! _).
  - by rewrite list_lookup_alter_ne by done.
Qed.

Definition start : statics := Statics 0 0 ∅ ∅.
Definition step (s : statics) (o : op) (s' : statics) : Prop := allowed o s ∧ exec o s = Some s'.
Lemma run_inv os s : run step start os s → inv s.
Proof.
  intros Hr. apply (invariant_run step (λ s _, inv s)) with (pre := []) in Hr; [done| |by split].
  intros s1 _ o s2 Hi [Ho E]. destruct (exec_inv o s1 Hi Ho) as (s2' & E' & Hi'). congruence.
Qed.

(** How often a place is counted: not at all, or with 32 bits. *)
Definition counts (ts : list task) (m : gmap SourceLocation Z) : Prop :=
  ∀ l, m !! l = if decide (here l ts = 0%nat) then None else Some (u32 (Z.of_nat (here l ts))).
Definition in_state (i : nat) (ts : list task) : list task := filter (λ t, state_number (state_ t) = i) ts.

(** While the statistics are enabled, the destructor's assertion holds, [s_task_count] is the number of
    the coroutines that exist, and the two tables count them by their places, over all states and for
    each state. *)
Theorem statistics_count os s : run step start os s →
  (∀ o, allowed o s → is_Some (exec o s)) ∧ s_task_count s = Z.of_nat (length (coroutines s)) ∧
  (∃ m, GetStatInfo true s = Some m ∧ counts (coroutines s) m) ∧
  (∃ r, GetStateInfo true s = Some r ∧ length r = 7%nat ∧ ∀ i m, r !! i = Some m → counts (in_state i (coroutines s)) m).
Proof.
  intros Hr. pose proof (run_inv os s Hr) as Hi. destruct (objects_found s Hi) as (ts & E & Hp).
  assert (∀ ts', ts' ≡ₚ ts → ∀ m, m = foldl count_up ∅ (map location_ ts) → counts ts' m) as Hcount.
  { intros ts' Hp' m -> l. rewrite count_up_all, lookup_empty. by rewrite (here_perm l _ _ Hp'). }
  split_and!.
  - intros o Ho. destruct (exec_inv o s Hi Ho) as (s' & -> & _). by eexists.
  - rewrite (inv_count _ Hi). unfold coroutines. by rewrite length_fmap, length_map_to_list.
  - unfold GetStatInfo. rewrite E. eexists. split; [done|]. by apply Hcount.
  - unfold GetStateInfo. rewrite E. eexists. split; [done|]. split.
    + assert (∀ r : list (gmap SourceLocation Z), length (foldl (λ r t, alter (λ m, count_up m (location_ t)) (state_number (state_ t)) r) r ts) = length r) as ->; [|done].
      clear. induction ts as [|t ts IH]; intros r; [done|]. cbn [foldl]. by rewrite IH, length_alter.
    + intros i m Hm. rewrite states_all in Hm. apply fmap_Some in Hm as (m0 & Hm0%lookup_replicate & ->). destruct Hm0 as [-> _].
      intros l. rewrite count_up_all, lookup_empty. unfold in_state. by rewrite <- (here_perm l _ _ (filter_Permutation _ _ _ Hp)).
Qed.

(** ** Examples *)
Definition file : option (Z * str) := Some (4096, lit "main.cpp").

(** Where the option is turned off while a coroutine ends, its pointer stays in the set. *)
Example dangling : (destruct_ false 64 (construct true 64 file 10 start) ≫= GetStatInfo true) = None.
Proof. vm_compute. reflexivity. Qed.
(** The other way round nothing goes wrong. *)
Example enabled_late :
  (s ← destruct_ true 64 (construct false 64 file 10 (construct true 128 file 10 start)); m ← GetStatInfo true s; m !! Location file 10) = Some 1.
Proof. vm_compute. reflexivity. Qed.

(** The text is made once: the name that is given first stays, and the place is not in it. *)
Example debug_info : let t := Task 7 init_ [] (Location file 10) in
  (DebugInfo t).1 = lit "7 :{file:main.cpp, line:10}" ∧ (DebugInfo (SetDebugInfo (lit "reader") t)).1 = lit "reader(7)" ∧ GetTaskStateName 9 = lit "unkown".
Proof. vm_compute. done. Qed.
End TaskObject.
