(* ===== verification/SchedRun.v ===== *)
(** * One round of a scheduler thread (libgo/scheduler.cpp, [Scheduler::Run])

    A round runs coroutines, then the timers, then the sleepers, and then waits for events, or sleeps
    when there is no epoll.  The timers and the sleepers are two timer managers of Timer.v; running
    coroutines is in Processer.v and Sched.v, and the events in FdContext.v: what they count is given
    here. *)
From S2P Require Import Prelude Timer.
From Stdlib Require Import Sorting.Sorted.
Import CoTimerMgr.

#[local] Open Scope Z_scope.

Module SchedRun.

Definition erf_do_coroutines : Z := 0x1.
Definition erf_do_timer : Z := 0x2.
Definition erf_do_sleeper : Z := 0x4.
Definition erf_do_eventloop : Z := 0x8.
Definition erf_idle_cpu : Z := 0x10.
(*@ libgo/libgo/scheduler.h 28-38 eRunFlags *)
Definition erf_all : Z := 0x7fffffff.
Definition has (flags f : Z) : bool := negb (Z.land flags f =? 0).
Definition u8 (x : Z) : Z := x mod 2 ^ 8.

(*@ libgo/libgo/config.h 122-127 CoroutineOptions *)
Record options := Options { max_sleep_ms : Z; timer_handle_every_cycle : nat }.

(** The two clocks, at one time. *)
Record clocks := Clocks { system_now : Z; steady_now : Z }.

(** What a round does: the coroutines that ran, how long it waited for events and how long it slept (in
    ms), where it did, and the state it leaves. *)
Record round := Round {
  run_task_count : Z; waited : option Z; slept : option Z;
  sleep_ms : Z;                        (* of [ThreadLocalInfo] *)
  timer_mgr_ : t; sleep_mgr_ : t;      (* of [Scheduler] and of [SleepWait] *)
}.

Section Run.
Variable o : options.
(** [DoRunnable] and [DoEpoll] by what they return: the second gets the milliseconds. *)
Variables (DoRunnable : Z) (DoEpoll : Z → Z).
(** The clocks when the timers and when the sleepers are looked at. *)
Variables now_timer now_sleeper : clocks.
(** Whether each [try_lock] of the two managers succeeds: another thread can be at the maps. *)
Variables try_timer try_sleeper : nat → bool.

(** The milliseconds for [epoll_wait]. *)
(*@ libgo/libgo/scheduler.cpp 120-126 Scheduler::Run *)
Definition wait_milliseconds (idle : bool) (next_ms : Z) : Z := if idle then Z.min next_ms (max_sleep_ms o) else 0.

(** The counters are [uint8_t]. *)
(*@ libgo/libgo/scheduler.cpp 134-136 Scheduler::Run *)
Definition next_sleep (ms next_ms : Z) : Z := u8 (Z.min (Z.min (u8 (ms + 1)) (max_sleep_ms o)) next_ms).

(** [in_coroutine] is [IsCoroutine()]; [None] where the fuel of the timer loops is not enough. *)
(*@ libgo/libgo/scheduler.cpp 81-152 Scheduler::Run *)
Definition Run (fuel : nat) (in_coroutine : bool) (flags ms : Z) (timers sleepers : t) : option round :=
  if in_coroutine then Some (Round 0 None None ms timers sleepers)
  else
    let run_task_count := if has flags erf_do_coroutines then DoRunnable else 0 in
    '(tm_count, timer_next_ms, _, timers) ←
      (if has flags erf_do_timer then DoTimer (timer_handle_every_cycle o) fuel try_timer (system_now now_timer) (steady_now now_timer) (max_sleep_ms o) timers
       else Some (0%nat, max_sleep_ms o, [], timers));
    '(sl_count, sleep_next_ms, _, sleepers) ←
      (if has flags erf_do_sleeper then WaitLoop fuel try_sleeper (system_now now_sleeper) (steady_now now_sleeper) (max_sleep_ms o) sleepers
       else Some (0%nat, max_sleep_ms o, [], sleepers));
    let next_ms := Z.min timer_next_ms sleep_next_ms in
    let idle := (run_task_count =? 0) && (tm_count =? 0)%nat && (sl_count =? 0)%nat in
    let wait := wait_milliseconds idle next_ms in
    let ep_count := if has flags erf_do_eventloop then DoEpoll wait else -1 in
    let waited := if has flags erf_do_eventloop then Some wait else None in
    let idle := idle && (ep_count <=? 0) in
    let '(slept, ms) :=
      if has flags erf_idle_cpu then
        if idle then
          if ep_count =? -1 then let ms := next_sleep ms next_ms in (Some ms, ms) else (None, ms)
        else (None, 1)
      else (None, ms) in
    Some (Round run_task_count waited slept ms timers sleepers).

(** ** A thread does not oversleep *)

(** A time of waiting is not longer than up to any deadline that is left. *)
Definition no_later (now : clocks) (ms : Z) (m : t) : Prop :=
  (∀ k id, (k, id) ∈ system_deadlines_ m → ms <= Z.max (to_ms k - to_ms (system_now now)) 0) ∧
  (∀ k id, (k, id) ∈ steady_deadlines_ m → ms <= Z.max (to_ms k - to_ms (steady_now now)) 0).

Lemma no_later_less now ms ms' m : no_later now ms m → ms' <= ms → no_later now ms' m.
Proof. intros [H1 H2] Hle. split; intros k id Hin; [specialize (H1 k id Hin)|specialize (H2 k id Hin)]; lia. Qed.

(** The trigger times are up to date: no timer has come in that is earlier than the time its map had
    when the time was set.  They are after a [GetExpired] that got the lock. *)
Definition fresh (m : t) : Prop :=
  (∀ k id, (k, id) ∈ system_deadlines_ m → system_next_trigger_time_ m <= to_ms k) ∧
  (∀ k id, (k, id) ∈ steady_deadlines_ m → steady_next_trigger_time_ m <= to_ms k).

Lemma next_of_first l k id : StronglySorted before l → (k, id) ∈ l → next_of l <= to_ms k.
Proof.
  intros Hs Hin. destruct l as [|[k0 i0] r]; [by apply elem_of_nil in Hin|]. apply StronglySorted_inv in Hs as [_ Hf]. simpl.
  apply elem_of_cons in Hin as [[= -> ->]|Hin]; [lia|]. rewrite Forall_forall in Hf. specialize (Hf _ Hin). simpl in Hf.
  apply Z.quot_le_mono; lia.
Qed.

Lemma GetExpired_fresh sn dn n m : ok m → fresh (GetExpired true sn dn n m).2.
Proof.
  intros Hok. pose proof (GetExpired_ok true sn dn n m Hok) as [Hs _ _ _]. pose proof (Hs CoTimer.system ltac:(done)) as H1. pose proof (Hs CoTimer.steady ltac:(done)) as H2.
  clear Hs Hok. revert H1 H2. unfold GetExpired. cbn [negb].
  destruct (both_empty m) eqn:Eb.
  - apply andb_true_iff in Eb as [E1%bool_decide_eq_true E2%bool_decide_eq_true]. intros _ _. simpl.
    split; intros k id; rewrite ?E1, ?E2; by intros ?%elem_of_nil.
  - destruct (take_expired sn n (system_deadlines_ m)) as [[e1 r1] n1], (take_expired dn n1 (steady_deadlines_ m)) as [[e2 r2] n2]. simpl.
    intros H1 H2. split; intros k id; by apply next_of_first.
Qed.

Lemma fresh_no_later now n m : fresh m → no_later now (GetExpired false (system_now now) (steady_now now) n m).1.2 m.
Proof.
  intros [F1 F2]. rewrite GetExpired_locked. simpl. destruct (both_empty m) eqn:Eb.
  - apply andb_true_iff in Eb as [E1%bool_decide_eq_true E2%bool_decide_eq_true].
    split; intros k id; rewrite ?E1, ?E2; by intros ?%elem_of_nil.
  - unfold GetNextTriggerTime. split; intros k id Hin; [specialize (F1 k id Hin)|specialize (F2 k id Hin)]; lia.
Qed.

Lemma GetExpired_next b sn dn n m : 0 <= (GetExpired b sn dn n m).1.2.
Proof.
  unfold GetExpired. destruct (both_empty m); [by unfold llmax|]. destruct b; simpl; [|unfold GetNextTriggerTime; lia].
  destruct (take_expired sn n (system_deadlines_ m)) as [[e1 r1] n1], (take_expired dn n1 (steady_deadlines_ m)) as [[e2 r2] n2].
  simpl. unfold GetNextTriggerTime. lia.
Qed.

Lemma drain_next go sn dn fuel : ∀ tries c next m c' next' ran m', 0 <= next → drain fuel tries go sn dn c next m = Some (c', next', ran, m') → 0 <= next'.
Proof.
  induction fuel as [|fuel IH]; intros tries c next m c' next' ran m' Hn E; [done|]. cbn [drain] in E. destruct (go c); [|by injection E as _ <- _ _].
  pose proof (GetExpired_next (tries 0%nat) sn dn 128 m) as Hnx.
  destruct (GetExpired (tries 0%nat) sn dn 128 m) as [[ids nx] m1]. cbn [fst snd] in Hnx.
  destruct ids as [|i ids]; [by injection E as _ <- _ _|]. destruct (fire_all (i :: ids) m1) as [[r1 m2]|]; [|done]. cbn [mbind option_bind] in E.
  destruct (drain fuel _ go sn dn (c + length (i :: ids)) nx m2) as [[[[c1 nx1] r2] m3]|] eqn:Ed; [|done]. injection E as _ <- _ _. by eapply IH.
Qed.

(** A loop over a manager ends; when it has handled nothing, its [next_ms] is not too late, unless the
    lock was taken and the trigger times were out of date. *)
Lemma drain_idle go tries now fuel m next : ok m → (Size m < fuel)%nat → go 0%nat = true → 0 <= next →
  ∃ c next' ran m', drain fuel tries go (system_now now) (steady_now now) 0 next m = Some (c, next', ran, m') ∧ ok m' ∧ 0 <= next' ∧
    (c = 0%nat → tries 0%nat = true ∨ fresh m → no_later now next' m').
Proof.
  intros Hok Hs Hg Hn. destruct (drain_spec go (system_now now) (steady_now now) fuel tries 0 next m Hok Hs) as (e1 & e2 & next' & ran & m' & E & Hok' & _ & _ & _ & _ & _ & Hend & _).
  eexists _, next', ran, m'. split; [exact E|]. split; [done|]. split; [by eapply drain_next|]. intros Hc Hfr.
  destruct Hend as [Hf|[(_ & _ & G1 & G2)|(_ & _ & Hl)]]; [rewrite Hc, Hg in Hf; done|by split|].
  destruct (Hl Hc) as (Hlock & -> & ->). apply fresh_no_later. destruct Hfr; [congruence|done].
Qed.

(** Either loop, where its flag asks for it, or the bound alone. *)
Lemma loop_idle (b : bool) go tries now fuel m : ok m → (Size m < fuel)%nat → go 0%nat = true → 0 <= max_sleep_ms o →
  ∃ c next' ran m', (if b then drain fuel tries go (system_now now) (steady_now now) 0 (max_sleep_ms o) m else Some (0%nat, max_sleep_ms o, [], m)) =
    Some (c, next', ran, m') ∧ ok m' ∧ 0 <= next' ∧ (b = true → c = 0%nat → tries 0%nat = true ∨ fresh m → no_later now next' m').
Proof.
  intros Hok Hs Hg Hn. destruct b; [|by exists 0%nat, (max_sleep_ms o), [], m].
  destruct (drain_idle go tries now fuel m (max_sleep_ms o) Hok Hs Hg Hn) as (c & nx & ran & m' & E & Hok' & H0 & Hl). exists c, nx, ran, m'. by split_and!.
Qed.

Lemma next_sleep_range ms next_ms : 0 <= next_ms → 0 <= max_sleep_ms o < 2 ^ 8 → 0 <= next_sleep ms next_ms <= Z.min next_ms (max_sleep_ms o).
Proof.
  intros Hn Hm. unfold next_sleep. pose proof (Z.mod_pos_bound (ms + 1) (2 ^ 8) ltac:(lia)) as H. fold (u8 (ms + 1)) in H.
  assert (u8 (Z.min (Z.min (u8 (ms + 1)) (max_sleep_ms o)) next_ms) = Z.min (Z.min (u8 (ms + 1)) (max_sleep_ms o)) next_ms) as ->; [|lia].
  apply Z.mod_small. lia.
Qed.

(** C18: how long a thread waits.  A round of any flags ends; it waits or sleeps at most [max_sleep_ms], and only when no coroutine
    has run; it sleeps only where there is nothing to wait for events with.  And it does not wait past the deadline of a timer
    that it finds in a manager whose first [try_lock] of the round succeeded, or whose trigger times are up to date ([fresh], which a
    [GetExpired] with the lock makes them).  Where another thread holds the lock and an earlier timer has come in since the trigger time was
    set, only the bound [max_sleep_ms] is left ([stale_round] below is such a round). *)
Theorem Run_waits fuel flags ms timers sleepers : ok timers → ok sleepers → (Size timers < fuel)%nat → (Size sleepers < fuel)%nat →
  0 <= max_sleep_ms o < 2 ^ 8 →
  ∃ r, Run fuel false flags ms timers sleepers = Some r ∧ ok (timer_mgr_ r) ∧ ok (sleep_mgr_ r) ∧
    (∀ w, waited r = Some w ∨ slept r = Some w →
      0 <= w <= max_sleep_ms o ∧
      (0 < w → run_task_count r = 0 ∧ (has flags erf_do_timer = true → try_timer 0%nat = true ∨ fresh timers → no_later now_timer w (timer_mgr_ r)) ∧
               (has flags erf_do_sleeper = true → try_sleeper 0%nat = true ∨ fresh sleepers → no_later now_sleeper w (sleep_mgr_ r)))) ∧
    (∀ w v, slept r = Some w → waited r = Some v → DoEpoll v = -1).
Proof.
  intros Ht Hs Ft Fs Hm. unfold Run.
  destruct (loop_idle (has flags erf_do_timer) (λ c, (timer_handle_every_cycle o =? 0)%nat || (c <? timer_handle_every_cycle o)%nat) try_timer now_timer fuel timers)
    as (c1 & n1 & r1 & m1 & E1 & Hok1 & Hn1 & Hl1); [done|done|by destruct (timer_handle_every_cycle o)|lia|].
  destruct (loop_idle (has flags erf_do_sleeper) (λ _, true) try_sleeper now_sleeper fuel sleepers) as (c2 & n2 & r2 & m2 & E2 & Hok2 & Hn2 & Hl2); [done|done|done|lia|].
  unfold DoTimer, WaitLoop. rewrite E1. cbn [mbind option_bind]. rewrite E2. cbn [mbind option_bind].
  set (n := if has flags erf_do_coroutines then DoRunnable else 0). set (idle := (n =? 0) && (c1 =? 0)%nat && (c2 =? 0)%nat).
  set (wait := wait_milliseconds idle (Z.min n1 n2)). set (ep := if has flags erf_do_eventloop then DoEpoll wait else -1).
  assert (∀ w, 0 <= w <= Z.min (Z.min n1 n2) (max_sleep_ms o) → idle = true → n = 0 ∧
            (has flags erf_do_timer = true → try_timer 0%nat = true ∨ fresh timers → no_later now_timer w m1) ∧
            (has flags erf_do_sleeper = true → try_sleeper 0%nat = true ∨ fresh sleepers → no_later now_sleeper w m2)) as Hidle.
  { intros w Hw Hi. unfold idle in Hi. rewrite !andb_true_iff, Z.eqb_eq, !Nat.eqb_eq in Hi. destruct Hi as [[Hz Hc1] Hc2]. split_and!; [done| |]; intros Hf Hfr.
    - eapply no_later_less; [by apply Hl1|lia].
    - eapply no_later_less; [by apply Hl2|lia]. }
  assert (0 <= wait <= max_sleep_ms o ∧ (0 < wait → idle = true ∧ wait <= Z.min (Z.min n1 n2) (max_sleep_ms o))) as [Hw1 Hw2].
  { unfold wait, wait_milliseconds. destruct idle; split; lia. }
  pose proof (next_sleep_range ms (Z.min n1 n2) ltac:(lia) Hm) as Hns.
  destruct (if has flags erf_idle_cpu then _ else _) as [sl ms'] eqn:Esl.
  assert (∀ w, sl = Some w → idle = true ∧ ep = -1 ∧ w = next_sleep ms (Z.min n1 n2)) as Hsl.
  { intros w ->. destruct (has flags erf_idle_cpu); [|done]. destruct idle; [|done]. cbn [andb] in Esl. destruct (ep <=? 0); [|done].
    destruct (Z.eqb_spec ep (-1)); [|done]. by injection Esl as <- _. }
  eexists. split; [reflexivity|]. cbn [timer_mgr_ sleep_mgr_ waited slept run_task_count]. split_and!; [done|done| |].
  - intros w [Hw|Hw].
    + destruct (has flags erf_do_eventloop); [|done]. injection Hw as <-. split; [done|]. intros Hp. destruct (Hw2 Hp) as [Hi Hle]. apply Hidle; [lia|done].
    + destruct (Hsl w Hw) as (Hi & _ & ->). split; [lia|]. intros _. by apply Hidle.
  - intros w v Hw Hv. destruct (Hsl w Hw) as (_ & He & _). unfold ep in He. destruct (has flags erf_do_eventloop); [|done]. by injection Hv as <-.
Qed.
End Run.

(** Rounds of a thread. *)
Module Rounds.
Definition o : options := Options 20 0.
Definition at_ms (ms : Z) : clocks := Clocks (ms * 1000000) (ms * 1000000).
(** A sleeper that is to wake at 1012 ms, and no timer. *)
Definition sleeper : t := (ExpireAt CoTimer.steady 1012000000 new).2.

Lemma Run_waits_witness : 0 <= max_sleep_ms o < 2 ^ 8 ∧
  ∃ r, Run o 0 (λ _, 0) (at_ms 1000) (at_ms 1000) (λ _, true) (λ _, true) 2 false erf_all 1 new sleeper = Some r ∧ waited r = Some 12 ∧ slept r = None.
Proof.
  split; [done|]. destruct (Run_waits o 0 (λ _, 0) (at_ms 1000) (at_ms 1000) (λ _, true) (λ _, true) 2 erf_all 1 new sleeper) as (r & E & _).
  - exact ok_new.
  - unfold sleeper. by apply ExpireAt_ok, ok_new.
  - vm_compute. lia.
  - vm_compute. lia.
  - done.
  - exists r. split; [exact E|]. vm_compute in E. injection E as <-. done.
Defined.

(** Another thread holds the lock of the sleepers, and a sleeper for 1005 ms has come in after the one
    for 1012 ms: the thread waits for the later one. *)
Example stale_round : let m := (ExpireAt CoTimer.steady 1005000000 sleeper).2 in
  waited <$> Run o 0 (λ _, 0) (at_ms 1000) (at_ms 1000) (λ _, true) (λ _, false) 3 false erf_all 1 new m = Some (Some 12) ∧
  waited <$> Run o 0 (λ _, 0) (at_ms 1000) (at_ms 1000) (λ _, true) (λ _, true) 3 false erf_all 1 new m = Some (Some 5).
Proof. vm_compute. done. Qed.

(** With coroutines that ran the thread does not wait. *)
Example busy : waited <$> Run o 3 (λ _, 0) (at_ms 1000) (at_ms 1000) (λ _, true) (λ _, true) 2 false erf_all 1 new sleeper = Some (Some 0).
Proof. vm_compute. reflexivity. Qed.

(** Without epoll the sleeps get longer by one, up to [max_sleep_ms]; with the greatest value of that
    the counter, which has 8 bits, goes from 255 to 0. *)
Example sleeps : (λ ms, next_sleep (Options 20 0) ms llmax) <$> [0; 1; 19; 20] = [1; 2; 20; 20].
Proof. vm_compute. reflexivity. Qed.
Example sleeps_start_over : (λ ms, next_sleep (Options 255 0) ms llmax) <$> [253; 254; 255; 0] = [254; 255; 0; 1].
Proof. vm_compute. reflexivity. Qed.
End Rounds.
End SchedRun.
