(* ===== verification/FdContext.v ===== *)
(** * Descriptors and the reactor (libgo/linux/fd_context.cpp, io_wait.cpp)

    A [FileDescriptorCtx] knows which coroutines wait for its descriptor to become readable,
    writable or either, and keeps epoll's interest in step.  [epoll_ctl] is the kernel's, a
    parameter.  Event masks are integers with the bits of poll(2). *)
From S2P Require Import Prelude.

#[local] Open Scope Z_scope.

Module Reactor.

Definition POLLIN : Z := 1.
Definition POLLOUT : Z := 4.
Definition POLLERR : Z := 8.
Definition POLLHUP : Z := 16.
Definition POLLNVAL : Z := 32.
Definition EPOLLIN : Z := 1.
Definition EPOLLOUT : Z := 4.
Definition EPOLLERR : Z := 8.
Definition EPOLLHUP : Z := 16.
Definition EPOLLET : Z := 2 ^ 31.

(** [a & b] as a condition *)
Definition has (a b : Z) : bool := negb (Z.land a b =? 0).

(*@ libgo/libgo/linux/io_wait.cpp 25-33 PollEvent2Epoll *)
Definition PollEvent2Epoll (events : Z) : Z :=
  let e := 0 in
  let e := if has events POLLIN then Z.lor e EPOLLIN else e in
  let e := if has events POLLOUT then Z.lor e EPOLLOUT else e in
  let e := if has events POLLHUP then Z.lor e EPOLLHUP else e in
  if has events POLLERR then Z.lor e EPOLLERR else e.

(*@ libgo/libgo/linux/io_wait.cpp 35-43 EpollEvent2Poll *)
Definition EpollEvent2Poll (events : Z) : Z :=
  let e := 0 in
  let e := if has events EPOLLIN then Z.lor e POLLIN else e in
  let e := if has events EPOLLOUT then Z.lor e POLLOUT else e in
  let e := if has events EPOLLHUP then Z.lor e POLLHUP else e in
  if has events EPOLLERR then Z.lor e POLLERR else e.

Record pollfd := Pollfd { fd : Z; events : Z; revents : Z }.
(*@ libgo/libgo/linux/fd_context.h 30-51 IoSentry *)
Record sentry := IoSentry { watch_fds_ : list pollfd; task_ptr_ : nat }.

(** The sets are [std::map<Task*, IoSentryWeakPtr>]: coroutine to sentry. *)
(*@ libgo/libgo/linux/fd_context.h 63-158 FileDescriptorCtx *)
Record ctx := Ctx {
  fd_ : Z; supported : bool;           (* is_socket() || is_epoll() *)
  closed_ : bool; et_mode_ : bool; pending_events_ : Z; readable_ : bool; writable_ : bool;
  i_tasks_ : gmap nat nat; o_tasks_ : gmap nat nat; io_tasks_ : gmap nat nat }.

Definition set_pending_events (e : Z) (c : ctx) : ctx :=
  Ctx (fd_ c) (supported c) (closed_ c) (et_mode_ c) e (readable_ c) (writable_ c) (i_tasks_ c) (o_tasks_ c) (io_tasks_ c).
Definition set_ready (r w : bool) (c : ctx) : ctx :=
  Ctx (fd_ c) (supported c) (closed_ c) (et_mode_ c) (pending_events_ c) r w (i_tasks_ c) (o_tasks_ c) (io_tasks_ c).
Definition set_tasks (i o io : gmap nat nat) (c : ctx) : ctx :=
  Ctx (fd_ c) (supported c) (closed_ c) (et_mode_ c) (pending_events_ c) (readable_ c) (writable_ c) i o io.
Definition set_closed (c : ctx) : ctx :=
  Ctx (fd_ c) (supported c) true (et_mode_ c) (pending_events_ c) (readable_ c) (writable_ c) (i_tasks_ c) (o_tasks_ c) (io_tasks_ c).
Definition set_et (c : ctx) : ctx :=
  Ctx (fd_ c) (supported c) (closed_ c) true (pending_events_ c) (readable_ c) (writable_ c) (i_tasks_ c) (o_tasks_ c) (io_tasks_ c).

Inductive wset := SetI | SetO | SetIO.
#[export] Instance wset_eq_dec : EqDecision wset.
Proof. solve_decision. Defined.

(*@ libgo/libgo/linux/fd_context.cpp 426-436 FileDescriptorCtx::ChooseSet *)
Definition ChooseSet (events : Z) : wset :=
  let events := Z.land events (Z.lor POLLIN POLLOUT) in
  if events =? POLLIN then SetI else if events =? POLLOUT then SetO else SetIO.

Definition tasks_of (k : wset) (c : ctx) : gmap nat nat :=
  match k with SetI => i_tasks_ c | SetO => o_tasks_ c | SetIO => io_tasks_ c end.
Definition with_set (k : wset) (m : gmap nat nat) (c : ctx) : ctx :=
  match k with
  | SetI => set_tasks m (o_tasks_ c) (io_tasks_ c) c
  | SetO => set_tasks (i_tasks_ c) m (io_tasks_ c) c
  | SetIO => set_tasks (i_tasks_ c) (o_tasks_ c) m c
  end.

Inductive ctl := EPOLL_CTL_ADD | EPOLL_CTL_MOD | EPOLL_CTL_DEL.
Inductive add_into_reactor_result := failed | progress | complete.

(** *** Sentries *)

(*@ libgo/libgo/linux/fd_context.cpp 39-46 IoSentry::triggered_by_add *)
Fixpoint triggered_by_add (f : Z) (ev : Z) (l : list pollfd) : list pollfd :=
  match l with
  | [] => []
  | p :: l => if fd p =? f then Pollfd (fd p) (events p) ev :: l else p :: triggered_by_add f ev l
  end.

(** The [revents] given to the entries for this descriptor. *)
(*@ libgo/libgo/linux/fd_context.cpp 409-419 FileDescriptorCtx::trigger_task_list *)
Definition mark_entry (f : Z) (ev : Z) (p : pollfd) : pollfd :=
  if fd p =? f then
    Pollfd (fd p) (events p)
      (if negb (has ev (Z.lor POLLIN POLLOUT)) then Z.land ev (Z.lnot (Z.lor POLLIN POLLOUT))
       else if negb (has ev POLLIN) then Z.land ev (Z.lnot POLLIN)
       else if negb (has ev POLLOUT) then Z.land ev (Z.lnot POLLOUT)
       else ev)
  else p.

Definition mark (f ev : Z) (s : sentry) : sentry := IoSentry (map (mark_entry f ev) (watch_fds_ s)) (task_ptr_ s).

Section Kernel.
(** The kernel's state for one epoll descriptor, [epoll_ctl] on it (true for success), and the
    interest in a descriptor. *)
Context {K : Type}.
Variable epoll_ctl : ctl → Z → Z → K → bool * K.

Record world := World { ctx_ : ctx; sents : gmap nat sentry; kern : K }.

(*@ libgo/libgo/linux/io_wait.cpp 102-120 IoWait::reactor_ctl *)
Definition reactor_ctl (m : ctl) (f poll_events : Z) (is_support et_mode : bool) (k : K) : bool * K :=
  if is_support then
    let ev := PollEvent2Epoll poll_events in
    let ev := if et_mode then Z.lor ev EPOLLET else ev in
    epoll_ctl m f ev k
  else (false, k).

(*@ libgo/libgo/linux/fd_context.cpp 115-131 FileDescriptorCtx::set_et_mode *)
Definition set_et_mode (c : ctx) (k : K) : ctx * K :=
  if et_mode_ c then (c, k)
  else let c := set_et c in
       if negb (pending_events_ c =? 0)
       then (c, snd (reactor_ctl EPOLL_CTL_MOD (fd_ c) (pending_events_ c) (supported c) (et_mode_ c) k))
       else (c, k).

(*@ libgo/libgo/linux/fd_context.cpp 311-339 FileDescriptorCtx::del_events *)
Definition del_events (poll_events : Z) (c : ctx) (k : K) : ctx * K :=
  let new_pending_event := Z.land (pending_events_ c) (Z.lnot poll_events) in
  if new_pending_event =? pending_events_ c then (c, k)
  else if et_mode_ c then (c, k)
  else
    let k := if negb (new_pending_event =? 0)
             then snd (reactor_ctl EPOLL_CTL_MOD (fd_ c) new_pending_event (supported c) (et_mode_ c) k)
             else snd (reactor_ctl EPOLL_CTL_DEL (fd_ c) 0 (supported c) (et_mode_ c) k) in
    (set_pending_events new_pending_event c, k).

(*@ libgo/libgo/linux/fd_context.cpp 217-272 FileDescriptorCtx::add_into_reactor *)
Definition add_into_reactor (poll_events : Z) (sid : nat) (w : world) : add_into_reactor_result * world :=
  let '(World c ss k) := w in
  match ss !! sid with
  | None => (failed, w)
  | Some s =>
    if closed_ c then (failed, w)
    else
      let revents := if et_mode_ c then
                       Z.lor (if has poll_events POLLIN && readable_ c then POLLIN else 0)
                             (if has poll_events POLLOUT && writable_ c then POLLOUT else 0)
                     else 0 in
      if negb (revents =? 0)
      then (complete, World c (<[sid := IoSentry (triggered_by_add (fd_ c) revents (watch_fds_ s)) (task_ptr_ s)]> ss) k)
      else
        let tk_set := ChooseSet poll_events in
        let poll_events := Z.land poll_events (Z.lor POLLIN POLLOUT) in
        let enter (c : ctx) (k : K) :=
          (progress, World (with_set tk_set (<[task_ptr_ s := sid]> (tasks_of tk_set c)) c) ss k) in
        if has poll_events (Z.lnot (pending_events_ c)) then
          let events := Z.lor (pending_events_ c) poll_events in
          let m := if pending_events_ c =? 0 then EPOLL_CTL_ADD else EPOLL_CTL_MOD in
          match reactor_ctl m (fd_ c) events (supported c) (et_mode_ c) k with
          | (false, k) => (failed, World c ss k)
          | (true, k) => enter (set_pending_events events c) k
          end
        else enter c k
  end.

(*@ libgo/libgo/linux/fd_context.cpp 273-310 FileDescriptorCtx::del_from_reactor *)
Definition del_from_reactor (poll_events : Z) (tk : nat) (c : ctx) (k : K) : ctx * K :=
  if closed_ c then (c, k)
  else if pending_events_ c =? 0 then (c, k)
  else
    let tk_set := ChooseSet poll_events in
    match tasks_of tk_set c !! tk with
    | None => (c, k)
    | Some _ =>
        let rest := delete tk (tasks_of tk_set c) in
        let c := with_set tk_set rest c in
        if negb (bool_decide (rest = ∅)) then (c, k)
        else
          let del_event :=
            match tk_set with
            | SetI => if decide (io_tasks_ c = ∅) then POLLIN else 0
            | SetO => if decide (io_tasks_ c = ∅) then POLLOUT else 0
            | SetIO => Z.lor (if decide (i_tasks_ c = ∅) then POLLIN else 0) (if decide (o_tasks_ c = ∅) then POLLOUT else 0)
            end in
          if negb (del_event =? 0) then del_events del_event c k else (c, k)
    end.

(** The sentries of a set that still exist are marked and put in [output]; the set is cleared by
    the caller. *)
(*@ libgo/libgo/linux/fd_context.cpp 400-424 FileDescriptorCtx::trigger_task_list *)
Definition trigger_list (f ev : Z) (tasks : gmap nat nat) (st : gmap nat sentry * gset nat) : gmap nat sentry * gset nat :=
  map_fold (λ _ sid '(ss, output),
    match ss !! sid with
    | Some s => (<[sid := mark f ev s]> ss, {[sid]} ∪ output)
    | None => (ss, output)
    end) st tasks.

Definition trigger_task_list (k : wset) (ev : Z) (c : ctx) (st : gmap nat sentry * gset nat) : ctx * (gmap nat sentry * gset nat) :=
  (with_set k ∅ c, trigger_list (fd_ c) ev (tasks_of k c) st).

(*@ libgo/libgo/linux/fd_context.cpp 357-398 FileDescriptorCtx::reactor_trigger *)
Definition reactor_trigger (poll_events : Z) (output : gset nat) (w : world) : gset nat * world :=
  let '(World c ss k) := w in
  if closed_ c then (output, w)
  else
    let c := set_ready (has poll_events POLLIN || readable_ c) (has poll_events POLLOUT || writable_ c) c in
    let st := (ss, output) in
    if has poll_events (Z.lnot (Z.lor POLLIN POLLOUT)) then
      let '(c, st) := trigger_task_list SetI poll_events c st in
      let '(c, st) := trigger_task_list SetO poll_events c st in
      let '(c, st) := trigger_task_list SetIO poll_events c st in
      let '(c, k) := del_events (Z.lor POLLIN POLLOUT) c k in
      (snd st, World c (fst st) k)
    else
      let '(c, st) := if has poll_events POLLIN then
                        let '(c, st) := trigger_task_list SetI poll_events c st in
                        trigger_task_list SetIO poll_events c st
                      else (c, st) in
      let '(c, st) := if has poll_events POLLOUT then
                        let '(c, st) := trigger_task_list SetO poll_events c st in
                        trigger_task_list SetIO poll_events c st
                      else (c, st) in
      let '(c, k) := del_events poll_events c k in
      (snd st, World c (fst st) k).

(** [close]: every waiting coroutine is woken with [POLLNVAL]; the sentries to trigger are returned. *)
(*@ libgo/libgo/linux/fd_context.cpp 140-177 FileDescriptorCtx::close *)
Definition close (w : world) : gset nat * world :=
  let '(World c ss k) := w in
  if closed_ c then (∅, w)
  else
    let nval (tasks : gmap nat nat) (st : gmap nat sentry * gset nat) :=
      map_fold (λ _ sid '(ss, output),
        match ss !! sid with
        | Some s => (<[sid := IoSentry (map (λ p, if fd p =? fd_ c then Pollfd (fd p) (events p) POLLNVAL else p) (watch_fds_ s)) (task_ptr_ s)]> ss,
                     {[sid]} ∪ output)
        | None => (ss, output)
        end) st tasks in
    let st := nval (io_tasks_ c) (nval (o_tasks_ c) (nval (i_tasks_ c) (ss, ∅))) in
    (snd st, World (set_tasks ∅ ∅ ∅ (set_ready false false (set_pending_events 0 (set_closed c)))) (fst st) k).

(** [~IoSentry], for the entries of this descriptor. *)
(*@ libgo/libgo/linux/fd_context.cpp 19-27 IoSentry::~IoSentry *)
Definition drop_sentry (sid : nat) (w : world) : world :=
  let '(World c ss k) := w in
  match ss !! sid with
  | None => w
  | Some s =>
      let '(c, k) := foldl (λ '(c, k) p, if fd p =? fd_ c then del_from_reactor (events p) (task_ptr_ s) c k else (c, k))
                           (c, k) (watch_fds_ s) in
      World c (delete sid ss) k
  end.

End Kernel.

End Reactor.
