(* ===== verification/FdContextSpec.v ===== *)
(** * Descriptors and the reactor: nobody waits for an event epoll does not watch

    The invariant [covered] relates the waiting sets, [pending_events_] and the kernel's interest;
    every operation keeps it, whatever fails.  A reported event wakes exactly the sentries that
    wait for it. *)
From S2P Require Import Prelude FdContext.
Import Reactor.

#[local] Open Scope Z_scope.

Module ReactorSpec.

#[local] Arguments Z.testbit : simpl never.
#[local] Arguments Z.land : simpl never.
#[local] Arguments Z.lor : simpl never.
#[local] Arguments Z.lnot : simpl never.

(** ** Bits *)
Lemma land_bit a n : 0 <= n → Z.land a (2 ^ n) = if Z.testbit a n then 2 ^ n else 0.
Proof.
  intros Hn. apply Z.bits_inj'. intros m Hm. rewrite Z.land_spec. destruct (decide (m = n)) as [->|].
  - rewrite Z.pow2_bits_true, andb_true_r by done. destruct (Z.testbit a n); [by rewrite Z.pow2_bits_true|by rewrite Z.bits_0].
  - rewrite Z.pow2_bits_false, andb_false_r by done. destruct (Z.testbit a n); [by rewrite Z.pow2_bits_false|by rewrite Z.bits_0].
Qed.

Lemma has_bit a n : 0 <= n → has a (2 ^ n) = Z.testbit a n.
Proof.
  intros Hn. unfold has. rewrite land_bit by done. pose proof (Z.pow_pos_nonneg 2 n). destruct (Z.testbit a n); lia.
Qed.

Lemma has_in a : has a POLLIN = Z.testbit a 0.
Proof. apply (has_bit a 0). lia. Qed.
Lemma has_out a : has a POLLOUT = Z.testbit a 2.
Proof. apply (has_bit a 2). lia. Qed.

Lemma has_false a b : has a b = false ↔ ∀ n, 0 <= n → Z.testbit a n = true → Z.testbit b n = false.
Proof.
  unfold has. rewrite negb_false_iff, Z.eqb_eq. split.
  - intros H n Hn Ha. assert (Z.testbit (Z.land a b) n = false) as E by by rewrite H, Z.bits_0. rewrite Z.land_spec, Ha in E. done.
  - intros H. apply Z.bits_inj'. intros n Hn. rewrite Z.land_spec, Z.bits_0. destruct (Z.testbit a n) eqn:E; [by rewrite H|done].
Qed.

(** The bits of the masks the sources use. *)
Lemma pollio_bits n : Z.testbit (Z.lor POLLIN POLLOUT) n = bool_decide (n = 0) || bool_decide (n = 2).
Proof.
  destruct (decide (n = 0)) as [->|]; [done|]. destruct (decide (n = 2)) as [->|]; [done|].
  rewrite !bool_decide_false by done. destruct (Z.lt_ge_cases n 0); [by apply Z.testbit_neg_r|].
  rewrite Z.lor_spec. change POLLIN with (2 ^ 0). change POLLOUT with (2 ^ 2). by rewrite !Z.pow2_bits_false.
Qed.

Lemma has_err a : has a POLLERR = Z.testbit a 3.
Proof. apply (has_bit a 3). lia. Qed.
Lemma has_hup a : has a POLLHUP = Z.testbit a 4.
Proof. apply (has_bit a 4). lia. Qed.

Lemma land_events e :
  Z.land e (Z.lor (Z.lor POLLIN POLLOUT) (Z.lor POLLERR POLLHUP)) =
    Z.lor (Z.lor (if Z.testbit e 0 then 1 else 0) (if Z.testbit e 2 then 4 else 0))
          (Z.lor (if Z.testbit e 3 then 8 else 0) (if Z.testbit e 4 then 16 else 0)).
Proof.
  rewrite !Z.land_lor_distr_r. f_equal; f_equal; [apply (land_bit e 0)|apply (land_bit e 2)|apply (land_bit e 3)|apply (land_bit e 4)]; lia.
Qed.

Lemma epoll_bits e : Z.testbit (PollEvent2Epoll e) 0 = Z.testbit e 0 ∧ Z.testbit (PollEvent2Epoll e) 2 = Z.testbit e 2.
Proof.
  unfold PollEvent2Epoll. rewrite has_in, has_out. destruct (Z.testbit e 0), (Z.testbit e 2), (has e POLLHUP), (has e POLLERR); done.
Qed.

(** The two translations of event masks are inverse on the events the sources use: what is
    asked of epoll comes back as asked, every other bit (edge-triggered, priority) is dropped. *)
Theorem epoll_events_roundtrip e (et : bool) :
  EpollEvent2Poll (if et then Z.lor (PollEvent2Epoll e) EPOLLET else PollEvent2Epoll e)
    = Z.land e (Z.lor (Z.lor POLLIN POLLOUT) (Z.lor POLLERR POLLHUP)).
Proof.
  rewrite land_events. unfold PollEvent2Epoll. rewrite has_in, has_out, has_err, has_hup.
  destruct (Z.testbit e 0), (Z.testbit e 2), (Z.testbit e 3), (Z.testbit e 4), et; reflexivity.
Qed.

(** [trigger_task_list]'s three branches come to the same: the events as reported, whatever the
    entry asked for. *)
Lemma mark_entry_events f ev p : mark_entry f ev p = if fd p =? f then Pollfd (fd p) (events p) ev else p.
Proof.
  unfold mark_entry. destruct (fd p =? f); [|done]. f_equal.
  assert (∀ b, has ev b = false → Z.land ev (Z.lnot b) = ev) as H.
  { intros b Hb. apply Z.bits_inj'. intros n Hn. rewrite Z.land_spec, Z.lnot_spec by done.
    destruct (Z.testbit ev n) eqn:E; [|done]. rewrite (proj1 (has_false ev b) Hb n Hn E). done. }
  destruct (has ev (Z.lor POLLIN POLLOUT)) eqn:E1; simpl; [|by apply H].
  destruct (has ev POLLIN) eqn:E2; simpl; [|by apply H]. destruct (has ev POLLOUT) eqn:E3; simpl; [done|by apply H].
Qed.

Lemma mark_idem f ev s : mark f ev (mark f ev s) = mark f ev s.
Proof.
  unfold mark. simpl. f_equal. rewrite map_map. apply map_ext. intros p. rewrite !mark_entry_events.
  destruct (fd p =? f) eqn:E; [cbn [fd]|]; by rewrite E.
Qed.

(** ** Waking *)

(** The sentries [P] have been marked, the others left alone. *)
Definition marked (f ev : Z) (P : gset nat) (ss ss' : gmap nat sentry) : Prop :=
  ∀ sid, ss' !! sid = (λ s, if decide (sid ∈ P) then mark f ev s else s) <$> ss !! sid.

Lemma marked_nil f ev ss : marked f ev ∅ ss ss.
Proof. intros sid. destruct (ss !! sid); simpl; [by rewrite decide_False by set_solver|done]. Qed.

Lemma marked_trans f ev P1 P2 ss1 ss2 ss3 : marked f ev P1 ss1 ss2 → marked f ev P2 ss2 ss3 → marked f ev (P1 ∪ P2) ss1 ss3.
Proof.
  intros H1 H2 sid. rewrite H2, H1. destruct (ss1 !! sid) as [s|]; simpl; [|done]. f_equal.
  destruct (decide (sid ∈ P1)), (decide (sid ∈ P2)); [rewrite mark_idem| | |];
    rewrite ?decide_True, ?decide_False by set_solver; done.
Qed.

Lemma marked_some f ev P ss ss' sid : marked f ev P ss ss' → is_Some (ss' !! sid) ↔ is_Some (ss !! sid).
Proof. intros H. rewrite H. by rewrite fmap_is_Some. Qed.

Definition sids (tasks : gmap nat nat) : gset nat := map_img tasks.

Lemma trigger_list_spec f ev tasks ss out ss' out' :
  trigger_list f ev tasks (ss, out) = (ss', out') →
  marked f ev (sids tasks) ss ss' ∧ ∀ sid, sid ∈ out' ↔ sid ∈ out ∨ sid ∈ sids tasks ∧ is_Some (ss !! sid).
Proof.
  unfold trigger_list. revert ss' out'.
  apply (map_fold_weak_ind (λ r m, ∀ ss' out', r = (ss', out') → marked f ev (sids m) ss ss' ∧ ∀ sid, sid ∈ out' ↔ sid ∈ out ∨ sid ∈ sids m ∧ is_Some (ss !! sid))).
  - intros ss' out' [= <- <-]. unfold sids. rewrite map_img_empty_L. split; [apply marked_nil|]. set_solver.
  - intros tk sid m [ss1 out1] Htk IH ss' out' E. destruct (IH _ _ eq_refl) as [IH1 IH2].
    assert (sids (<[tk:=sid]> m) = {[sid]} ∪ sids m) as Hs by (apply map_img_insert_notin_L; done).
    rewrite Hs. destruct (ss1 !! sid) as [s|] eqn:Hsid; injection E as <- <-.
    + split.
      * rewrite (comm_L (∪)). eapply marked_trans; [exact IH1|]. intros x. destruct (decide (x = sid)) as [->|Hx].
        -- rewrite lookup_insert_eq, Hsid. simpl. by rewrite decide_True by set_solver.
        -- rewrite lookup_insert_ne by done. destruct (ss1 !! x); simpl; [by rewrite decide_False by set_solver|done].
      * assert (is_Some (ss !! sid)) as Hss by (apply (marked_some _ _ _ _ _ _ IH1); eauto).
        intros x. rewrite elem_of_union, IH2, elem_of_union, !elem_of_singleton. naive_solver.
    + assert (ss !! sid = None) as Hss.
      { destruct (ss !! sid) eqn:E; [|done]. assert (is_Some (ss1 !! sid)) as [? ?] by (apply (marked_some _ _ _ _ _ _ IH1); eauto). congruence. }
      split.
      * intros x. rewrite IH1. destruct (decide (x = sid)) as [->|Hx]; [by rewrite Hss|]. destruct (ss !! x); simpl; [|done]. f_equal.
        destruct (decide (x ∈ sids m)); [by rewrite decide_True by set_solver|by rewrite decide_False by set_solver].
      * intros x. rewrite IH2, elem_of_union, elem_of_singleton. split; [naive_solver|]. intros [?|[[->|?] Hx]]; auto.
        destruct Hx as [? ?]. congruence.
Qed.

(** Whether an event wakes the coroutines of a set. *)
Definition wakes (ev : Z) (k : wset) : bool :=
  has ev (Z.lnot (Z.lor POLLIN POLLOUT)) ||
  match k with SetI => has ev POLLIN | SetO => has ev POLLOUT | SetIO => has ev POLLIN || has ev POLLOUT end.

Definition woken (ev : Z) (c : ctx) : gset nat :=
  (if wakes ev SetI then sids (i_tasks_ c) else ∅) ∪ (if wakes ev SetO then sids (o_tasks_ c) else ∅) ∪
  (if wakes ev SetIO then sids (io_tasks_ c) else ∅).

Section Kernel.
Context {K : Type} (epoll_ctl : ctl → Z → Z → K → bool * K).
Abbreviation reactor_trigger := (Reactor.reactor_trigger epoll_ctl).
Abbreviation del_events := (Reactor.del_events epoll_ctl).

Lemma del_events_tasks ev c k w : tasks_of w (fst (del_events ev c k)) = tasks_of w c ∧ fd_ (fst (del_events ev c k)) = fd_ c ∧
  closed_ (fst (del_events ev c k)) = closed_ c.
Proof. unfold Reactor.del_events. destruct (_ =? _); [done|]. destruct (et_mode_ c); [done|]. by destruct w. Qed.

Lemma del_events_fst {ev c k c' k'} : del_events ev c k = (c', k') → ∀ w, tasks_of w c' = tasks_of w c.
Proof. intros E w. destruct (del_events_tasks ev c k w) as [H _]. by rewrite E in H. Qed.

(** One set triggered, or not. *)
Lemma trigger_set (b : bool) k ev c ss out c' ss' out' :
  (if b then trigger_task_list k ev c (ss, out) else (c, (ss, out))) = (c', (ss', out')) →
  let P := if b then sids (tasks_of k c) else ∅ in
  marked (fd_ c) ev P ss ss' ∧ (∀ sid, sid ∈ out' ↔ sid ∈ out ∨ sid ∈ P ∧ is_Some (ss !! sid)) ∧
  c' = (if b then with_set k ∅ c else c).
Proof.
  destruct b.
  - unfold trigger_task_list. intros [= <- E]. destruct (trigger_list_spec _ _ _ _ _ _ _ E) as [H1 H2]. done.
  - intros [= <- <- <-]. split_and!; [apply marked_nil| |done]. set_solver.
Qed.

(** Two sets triggered one after the other. *)
Lemma woken_trans f ev P1 P2 ss1 ss2 ss3 (o1 o2 o3 : gset nat) :
  marked f ev P1 ss1 ss2 → (∀ sid, sid ∈ o2 ↔ sid ∈ o1 ∨ sid ∈ P1 ∧ is_Some (ss1 !! sid)) →
  marked f ev P2 ss2 ss3 → (∀ sid, sid ∈ o3 ↔ sid ∈ o2 ∨ sid ∈ P2 ∧ is_Some (ss2 !! sid)) →
  marked f ev (P1 ∪ P2) ss1 ss3 ∧ (∀ sid, sid ∈ o3 ↔ sid ∈ o1 ∨ sid ∈ P1 ∪ P2 ∧ is_Some (ss1 !! sid)).
Proof.
  intros H1 O1 H2 O2. split; [by eapply marked_trans|]. intros sid. rewrite O2, O1, (marked_some _ _ _ _ _ _ H1), elem_of_union. naive_solver.
Qed.

(** An event wakes exactly the sentries that wait for it: [reactor_trigger] outputs the living
    sentries of the sets that the event concerns (all of them for an error or hang-up), gives
    their entries for this descriptor the reported events, empties those sets, and touches no
    other sentry and no other set. *)
Theorem reactor_trigger_wakes ev out c ss k out' c' ss' k' :
  closed_ c = false → reactor_trigger ev out (World c ss k) = (out', World c' ss' k') →
  (∀ sid, sid ∈ out' ↔ sid ∈ out ∨ sid ∈ woken ev c ∧ is_Some (ss !! sid)) ∧
  marked (fd_ c) ev (woken ev c) ss ss' ∧
  (∀ w, tasks_of w c' = if wakes ev w then ∅ else tasks_of w c).
Proof.
  intros Hcl E. unfold Reactor.reactor_trigger in E. rewrite Hcl in E. set (c0 := set_ready _ _ c) in E.
  assert (fd_ c0 = fd_ c ∧ ∀ w, tasks_of w c0 = tasks_of w c) as [Hf Ht] by (split; [done|by intros []]). unfold woken, wakes.
  destruct (has ev (Z.lnot (Z.lor POLLIN POLLOUT))).
  - destruct (trigger_task_list SetI ev c0 (ss, out)) as [c1 [ss1 o1]] eqn:E1. apply (trigger_set true) in E1 as (M1 & O1 & ->).
    destruct (trigger_task_list SetO _ _ _) as [c2 [ss2 o2]] eqn:E2. apply (trigger_set true) in E2 as (M2 & O2 & ->).
    destruct (trigger_task_list SetIO _ _ _) as [c3 [ss3 o3]] eqn:E3. apply (trigger_set true) in E3 as (M3 & O3 & ->).
    destruct (del_events _ _ k) as [c4 k4] eqn:E4. simplify_eq/=.
    destruct (woken_trans _ _ _ _ _ _ _ _ _ _ M1 O1 M2 O2) as [M12 O12]. destruct (woken_trans _ _ _ _ _ _ _ _ _ _ M12 O12 M3 O3) as [M O].
    split_and!; [exact O|exact M|]. intros w. rewrite (del_events_fst E4 w). by destruct w.
  - destruct (if has ev POLLIN then _ else _) as [c1 [ss1 o1]] eqn:E1.
    destruct (if has ev POLLOUT then _ else _) as [c2 [ss2 o2]] eqn:E2.
    destruct (del_events ev c2 k) as [c3 k3] eqn:E3. cbn [fst snd] in E. injection E as <- <- <- <-.
    assert (marked (fd_ c) ev (if has ev POLLIN then sids (i_tasks_ c) ∪ sids (io_tasks_ c) else ∅) ss ss1 ∧
      (∀ sid, sid ∈ o1 ↔ sid ∈ out ∨ sid ∈ (if has ev POLLIN then sids (i_tasks_ c) ∪ sids (io_tasks_ c) else ∅) ∧ is_Some (ss !! sid)) ∧
      c1 = if has ev POLLIN then with_set SetIO ∅ (with_set SetI ∅ c0) else c0) as (M1 & O1 & Hc1).
    { destruct (has ev POLLIN); [|exact (trigger_set false SetI ev c0 _ _ _ _ _ E1)].
      destruct (trigger_task_list SetI ev c0 (ss, out)) as [ca [ssa oa]] eqn:Ea. apply (trigger_set true) in Ea as (Ma & Oa & ->).
      apply (trigger_set true) in E1 as (Mb & Ob & ->). destruct (woken_trans _ _ _ _ _ _ _ _ _ _ Ma Oa Mb Ob) as [M O]. done. }
    assert (fd_ c1 = fd_ c ∧ o_tasks_ c1 = o_tasks_ c ∧ io_tasks_ c1 = if has ev POLLIN then ∅ else io_tasks_ c) as (Hf1 & Ho1 & Hio1).
    { rewrite Hc1. by destruct (has ev POLLIN). }
    assert (marked (fd_ c) ev (if has ev POLLOUT then sids (o_tasks_ c) ∪ sids (io_tasks_ c1) else ∅) ss1 ss2 ∧
      (∀ sid, sid ∈ o2 ↔ sid ∈ o1 ∨ sid ∈ (if has ev POLLOUT then sids (o_tasks_ c) ∪ sids (io_tasks_ c1) else ∅) ∧ is_Some (ss1 !! sid)) ∧
      c2 = if has ev POLLOUT then with_set SetIO ∅ (with_set SetO ∅ c1) else c1) as (M2 & O2 & ->).
    { destruct (has ev POLLOUT); [|rewrite <- Hf1; exact (trigger_set false SetI ev c1 _ _ _ _ _ E2)].
      destruct (trigger_task_list SetO ev c1 (ss1, o1)) as [ca [ssa oa]] eqn:Ea. apply (trigger_set true) in Ea as (Ma & Oa & ->).
      apply (trigger_set true) in E2 as (Mb & Ob & ->). simpl tasks_of in *. simpl fd_ in *. rewrite Hf1, Ho1 in *.
      destruct (woken_trans _ _ _ _ _ _ _ _ _ _ Ma Oa Mb Ob) as [M O]. done. }
    destruct (woken_trans _ _ _ _ _ _ _ _ _ _ M1 O1 M2 O2) as [M O].
    assert ((if has ev POLLIN then sids (i_tasks_ c) ∪ sids (io_tasks_ c) else ∅) ∪ (if has ev POLLOUT then sids (o_tasks_ c) ∪ sids (io_tasks_ c1) else ∅)
      = (if false || has ev POLLIN then sids (i_tasks_ c) else ∅) ∪ (if false || has ev POLLOUT then sids (o_tasks_ c) else ∅) ∪
        (if false || (has ev POLLIN || has ev POLLOUT) then sids (io_tasks_ c) else ∅)) as HP.
    { rewrite Hio1. assert (sids ∅ = ∅) as Hs0 by apply map_img_empty_L. destruct (has ev POLLIN), (has ev POLLOUT); simpl; rewrite ?Hs0; set_solver. }
    rewrite HP in M, O. split_and!; [exact O|exact M|]. intros w.
    rewrite (del_events_fst E3 w), Hc1. by destruct w, (has ev POLLIN), (has ev POLLOUT).
Qed.
(** ** What waits is watched *)

(** The documented behaviour of epoll_ctl(2) that the code relies on: a successful ADD or MOD sets
    the interest in the descriptor, a failure changes nothing. *)
Variable interest : K → Z → option Z.
Hypothesis ctl_ok : ∀ m f e k k', epoll_ctl m f e k = (true, k') → m ≠ EPOLL_CTL_DEL → interest k' f = Some e.
Hypothesis ctl_fail : ∀ m f e k k', epoll_ctl m f e k = (false, k') → interest k' f = interest k f.

(** The interest in [f] has at least the bits of [p]. *)
Definition watches (k : K) (f p : Z) : Prop :=
  ∃ e, interest k f = Some e ∧ (Z.testbit p 0 = true → Z.testbit e 0 = true) ∧ (Z.testbit p 2 = true → Z.testbit e 2 = true).

Record covered (c : ctx) (k : K) : Prop := {
  cv_i : i_tasks_ c ≠ ∅ → Z.testbit (pending_events_ c) 0 = true;
  cv_o : o_tasks_ c ≠ ∅ → Z.testbit (pending_events_ c) 2 = true;
  cv_io : io_tasks_ c ≠ ∅ → Z.testbit (pending_events_ c) 0 = true ∧ Z.testbit (pending_events_ c) 2 = true;
  cv_kernel : pending_events_ c ≠ 0 → watches k (fd_ c) (pending_events_ c) }.

Lemma ctl_watches m f p sup et k k' b :
  reactor_ctl epoll_ctl m f p sup et k = (b, k') →
  if b then m ≠ EPOLL_CTL_DEL → watches k' f p else interest k' f = interest k f.
Proof.
  unfold reactor_ctl. destruct sup; [|by intros [= <- <-]]. intros E. destruct b; [|by eapply ctl_fail].
  intros Hm. eexists. split; [by eapply ctl_ok|]. destruct (epoll_bits p) as [B0 B2].
  destruct et; rewrite ?Z.lor_spec, ?B0, ?B2; split; intros ->; done.
Qed.

Lemma watches_sub k f p q :
  watches k f p → (Z.testbit q 0 = true → Z.testbit p 0 = true) → (Z.testbit q 2 = true → Z.testbit p 2 = true) → watches k f q.
Proof. intros (e & He & H0 & H2) Q0 Q2. exists e. auto. Qed.

Lemma watches_same k k' f p : interest k' f = interest k f → watches k f p → watches k' f p.
Proof. intros E (e & He & H). exists e. by rewrite E. Qed.

Lemma bit_nonzero p n : Z.testbit p n = true → p ≠ 0.
Proof. intros H ->. by rewrite Z.bits_0 in H. Qed.

Lemma del_bit p ev n : 0 <= n → Z.testbit (Z.land p (Z.lnot ev)) n = Z.testbit p n && negb (Z.testbit ev n).
Proof. intros Hn. by rewrite Z.land_spec, Z.lnot_spec. Qed.

(** [del_events] of events that no set waits for. *)
Lemma del_events_covered ev c k c' k' :
  covered c k → (i_tasks_ c ≠ ∅ → Z.testbit ev 0 = false) → (o_tasks_ c ≠ ∅ → Z.testbit ev 2 = false) →
  (io_tasks_ c ≠ ∅ → Z.testbit ev 0 = false ∧ Z.testbit ev 2 = false) →
  del_events ev c k = (c', k') → covered c' k'.
Proof.
  intros [C1 C2 C3 C4] H1 H2 H3. unfold Reactor.del_events.
  destruct (_ =? _) eqn:En; [by intros [= <- <-]|]. destruct (et_mode_ c); [by intros [= <- <-]|]. intros [= <- <-].
  apply Z.eqb_neq in En. assert (pending_events_ c ≠ 0) as Hp by (intros H0; rewrite H0 in En; by rewrite Z.land_0_l in En).
  split; cbn [set_pending_events i_tasks_ o_tasks_ io_tasks_ pending_events_ fd_]; rewrite ?del_bit by lia.
  - intros Hi. by rewrite C1, H1.
  - intros Ho. by rewrite C2, H2.
  - intros Hio. destruct (C3 Hio) as [-> ->], (H3 Hio) as [-> ->]. done.
  - intros Hnz. rewrite (proj2 (negb_true_iff _)) by by apply Z.eqb_neq.
    destruct (reactor_ctl epoll_ctl EPOLL_CTL_MOD (fd_ c) _ _ _ k) as [b k1] eqn:E. apply ctl_watches in E. cbn [snd]. destruct b; [by apply E|].
    eapply watches_same; [exact E|]. apply (watches_sub _ _ (pending_events_ c)); [by apply C4| |]; rewrite del_bit by lia; by intros [? _]%andb_true_iff.
Qed.

Lemma choose_bits ev : (has ev POLLIN || has ev POLLOUT) = true →
  match ChooseSet ev with
  | SetI => Z.testbit ev 0 = true ∧ Z.testbit ev 2 = false
  | SetO => Z.testbit ev 0 = false ∧ Z.testbit ev 2 = true
  | SetIO => Z.testbit ev 0 = true ∧ Z.testbit ev 2 = true
  end.
Proof.
  rewrite has_in, has_out. unfold ChooseSet. rewrite Z.land_lor_distr_r.
  rewrite (land_bit ev 0 : _ → Z.land ev POLLIN = _), (land_bit ev 2 : _ → Z.land ev POLLOUT = _) by lia.
  by destruct (Z.testbit ev 0), (Z.testbit ev 2).
Qed.
(** Smaller sets need no more. *)
Lemma covered_sub c c' k :
  covered c k → fd_ c' = fd_ c → pending_events_ c' = pending_events_ c →
  (∀ w, tasks_of w c' ≠ ∅ → tasks_of w c ≠ ∅) → covered c' k.
Proof.
  intros [C1 C2 C3 C4] Hf Hp Ht. split; rewrite ?Hp, ?Hf; try done; intros H.
  - apply C1, (Ht SetI H).
  - apply C2, (Ht SetO H).
  - apply C3, (Ht SetIO H).
Qed.

Lemma add_covered ev sid w r w' :
  covered (ctx_ w) (kern w) → (has ev POLLIN || has ev POLLOUT) = true →
  add_into_reactor epoll_ctl ev sid w = (r, w') → covered (ctx_ w') (kern w').
Proof.
  intros C Hev. destruct w as [c ss k]. simpl in C. unfold add_into_reactor. destruct (ss !! sid) as [s|]; [|by intros [= _ <-]].
  destruct (closed_ c); [by intros [= _ <-]|]. destruct (negb (_ =? 0)); [by intros [= _ <-]|].
  pose proof (choose_bits ev Hev) as Hch. set (q := Z.land ev (Z.lor POLLIN POLLOUT)).
  assert (∀ n, Z.testbit q n = Z.testbit ev n && (bool_decide (n = 0) || bool_decide (n = 2))) as Hq.
  { intros n. unfold q. by rewrite Z.land_spec, pollio_bits. }
  assert (∀ c1 k1, covered c1 k1 → (Z.testbit ev 0 = true → Z.testbit (pending_events_ c1) 0 = true) →
    (Z.testbit ev 2 = true → Z.testbit (pending_events_ c1) 2 = true) →
    covered (with_set (ChooseSet ev) (<[task_ptr_ s := sid]> (tasks_of (ChooseSet ev) c1)) c1) k1) as Henter.
  { intros c1 k1 [C1 C2 C3 C4] H0 H2. destruct (ChooseSet ev); destruct Hch as [Hb0 Hb2]; split; simpl; auto. }
  destruct (has q (Z.lnot (pending_events_ c))) eqn:Hh.
  - destruct (reactor_ctl _ _ _ _ _ _ k) as [b k1] eqn:E. apply ctl_watches in E. destruct b; intros [= _ <-]; simpl.
    + apply Henter.
      * destruct C as [C1 C2 C3 C4]. split; simpl; rewrite ?Z.lor_spec; [by intros H; rewrite C1|by intros H; rewrite C2| |].
        -- intros H. by destruct (C3 H) as [-> ->].
        -- intros _. apply E. by destruct (pending_events_ c =? 0).
      * simpl. rewrite Z.lor_spec, Hq. intros ->. by rewrite orb_true_r.
      * simpl. rewrite Z.lor_spec, Hq. intros ->. by rewrite orb_true_r.
    + destruct C as [C1 C2 C3 C4]. split; try done. intros H. eapply watches_same; [exact E|auto].
  - intros [= _ <-]. simpl. rewrite has_false in Hh.
    assert (∀ n, 0 <= n → (n = 0 ∨ n = 2) → Z.testbit ev n = true → Z.testbit (pending_events_ c) n = true) as Hsub.
    { intros n Hn H02 He. assert (Z.testbit q n = true) as Hqn by (rewrite Hq, He; by destruct H02 as [->| ->]).
      specialize (Hh n Hn Hqn). rewrite Z.lnot_spec in Hh by done. by apply negb_false_iff in Hh. }
    apply Henter; [done|apply (Hsub 0); auto; lia|apply (Hsub 2); auto; lia].
Qed.

Lemma del_covered ev tk c k c' k' :
  covered c k → (has ev POLLIN || has ev POLLOUT) = true → del_from_reactor epoll_ctl ev tk c k = (c', k') → covered c' k'.
Proof.
  intros C Hev. unfold del_from_reactor. destruct (closed_ c); [by intros [= <- <-]|]. destruct (pending_events_ c =? 0); [by intros [= <- <-]|].
  destruct (tasks_of (ChooseSet ev) c !! tk) as [sid|] eqn:Htk; [|by intros [= <- <-]].
  set (c1 := with_set _ _ c). assert (covered c1 k) as C1.
  { apply (covered_sub c); [done|by destruct (ChooseSet ev)|by destruct (ChooseSet ev)|]. intros w Hw He. unfold c1 in Hw.
    destruct (ChooseSet ev), w; simpl in *; apply Hw; try done; rewrite He in *; by rewrite ?lookup_empty in Htk. }
  destruct (bool_decide _) eqn:Hemp; [|by intros [= <- <-]]. apply bool_decide_eq_true in Hemp. simpl.
  destruct (negb (_ =? 0)); [|by intros [= <- <-]]. apply del_events_covered; [done|..]; unfold c1; rewrite Hemp;
    destruct (ChooseSet ev); simpl; repeat case_decide; try done; by split.
Qed.

Lemma trigger_covered ev out w out' w' :
  covered (ctx_ w) (kern w) → reactor_trigger ev out w = (out', w') → covered (ctx_ w') (kern w').
Proof.
  destruct w as [c ss k]. intros C. simpl in C. unfold Reactor.reactor_trigger. destruct (closed_ c); [by intros [= _ <-]|].
  set (c0 := set_ready _ _ c). assert (covered c0 k) as C0 by (by apply (covered_sub c); try done; intros []).
  destruct (has ev (Z.lnot (Z.lor POLLIN POLLOUT))).
  - unfold trigger_task_list. cbv beta zeta iota. destruct (del_events _ _ k) as [c4 k4] eqn:E. intros [= _ <-]. simpl.
    revert E. apply del_events_covered; try done. apply (covered_sub c0); try done. by intros [].
  - unfold trigger_task_list. rewrite has_in, has_out.
    destruct (Z.testbit ev 0) eqn:B0, (Z.testbit ev 2) eqn:B2; cbv beta zeta iota; destruct (del_events ev _ k) as [c4 k4] eqn:E;
      intros [= _ <-]; simpl; revert E; apply del_events_covered; simpl; try done; try (by intros; split);
      apply (covered_sub c0); try done; by intros [].
Qed.

Lemma et_covered c k c' k' : covered c k → set_et_mode epoll_ctl c k = (c', k') → covered c' k'.
Proof.
  intros C. unfold set_et_mode. destruct (et_mode_ c); [by intros [= <- <-]|].
  assert (covered (set_et c) k) as Ce by (by apply (covered_sub c); try done; intros []). destruct (negb _); [|by intros [= <- <-]].
  destruct (reactor_ctl _ _ _ _ _ _ k) as [b k1] eqn:E. intros [= <- <-]. apply ctl_watches in E. destruct Ce as [C1 C2 C3 C4]. split; try done.
  intros H. destruct b; [by apply E|]. eapply watches_same; [exact E|auto].
Qed.

Lemma close_covered w o w' : covered (ctx_ w) (kern w) → close w = (o, w') → covered (ctx_ w') (kern w').
Proof. destruct w as [c ss k]. unfold close. destruct (closed_ c); [by intros ? [= _ <-]|]. intros _ [= _ <-]. by split. Qed.

Lemma drop_covered sid w :
  covered (ctx_ w) (kern w) → (∀ s, sents w !! sid = Some s → Forall (λ p, (has (events p) POLLIN || has (events p) POLLOUT) = true) (watch_fds_ s)) →
  covered (ctx_ (drop_sentry epoll_ctl sid w)) (kern (drop_sentry epoll_ctl sid w)).
Proof.
  destruct w as [c ss k]. intros C Hs. unfold drop_sentry. destruct (ss !! sid) as [s|] eqn:E; [|done]. specialize (Hs s E).
  destruct (foldl _ (c, k) (watch_fds_ s)) as [c' k'] eqn:Ef. simpl. simpl in C. clear E. revert c k C Ef.
  induction Hs as [|p l Hp Hl IH]; intros c k C Ef; simpl in Ef; [by simplify_eq|].
  destruct (fd p =? fd_ c) eqn:Efd; [|by apply (IH c k)].
  destruct (del_from_reactor epoll_ctl (events p) (task_ptr_ s) c k) as [c1 k1] eqn:Ed. apply (IH c1 k1); [by eapply del_covered|done].
Qed.
(** *** Any sequence of operations on one descriptor *)
Definition wanted (p : pollfd) : Prop := (has (events p) POLLIN || has (events p) POLLOUT) = true.

(** What a step does, seen from the coroutines: a sentry [sid] of coroutine [tk] is registered for
    events, sentries are woken, a sentry of [tk] is destroyed. *)
Inductive fd_label := LNone | LAdd (ev : Z) (sid tk : nat) | LWake (out : gset nat) | LClose | LDrop (tk : nat).

Inductive fd_step : world (K:=K) → fd_label → world (K:=K) → Prop :=
| fs_sentry sid e w : sents w !! sid = None → Forall wanted (watch_fds_ e) →
    fd_step w LNone (World (ctx_ w) (<[sid := e]> (sents w)) (kern w))
| fs_add ev sid s r w w' : (has ev POLLIN || has ev POLLOUT) = true → sents w !! sid = Some s →
    add_into_reactor epoll_ctl ev sid w = (r, w') → fd_step w (LAdd ev sid (task_ptr_ s)) w'
| fs_trigger ev out out' w w' : reactor_trigger ev out w = (out', w') → fd_step w (LWake out') w'
| fs_et w c k : set_et_mode epoll_ctl (ctx_ w) (kern w) = (c, k) → fd_step w LNone (World c (sents w) k)
| fs_close w o w' : close w = (o, w') → fd_step w LClose w'
| fs_drop sid s w : sents w !! sid = Some s → Forall wanted (watch_fds_ s) →
    fd_step w (LDrop (task_ptr_ s)) (drop_sentry epoll_ctl sid w).

Definition fresh_fd (w : world (K:=K)) : Prop :=
  pending_events_ (ctx_ w) = 0 ∧ i_tasks_ (ctx_ w) = ∅ ∧ o_tasks_ (ctx_ w) = ∅ ∧ io_tasks_ (ctx_ w) = ∅.

Lemma step_covered w l w' : covered (ctx_ w) (kern w) → fd_step w l w' → covered (ctx_ w') (kern w').
Proof.
  intros C Hst. destruct Hst as [sid e w Hn He|ev sid s r w w' Hev Hs E|ev out out' w w' E|w c k E|w o w' E|sid s w Hs Hd]; simpl in *; try done.
  - by eapply add_covered.
  - by eapply trigger_covered.
  - by eapply et_covered.
  - by eapply close_covered.
  - apply drop_covered; [done|]. intros s0 Hs0. rewrite Hs in Hs0. by injection Hs0 as <-.
Qed.

Lemma reachable_covered w : reachable fresh_fd fd_step w → covered (ctx_ w) (kern w).
Proof.
  revert w. apply invariant_reachable; [|by intros; eapply step_covered].
  intros w (H1 & H2 & H3 & H4). by split; rewrite ?H1, ?H2, ?H3, ?H4.
Qed.

(** The events of a set of waiting coroutines are watched. *)
Lemma set_watched c k ev : covered c k → (has ev POLLIN || has ev POLLOUT) = true → tasks_of (ChooseSet ev) c ≠ ∅ →
  watches k (fd_ c) (Z.land ev (Z.lor POLLIN POLLOUT)).
Proof.
  intros [C1 C2 C3 C4] Hev Hne. pose proof (choose_bits ev Hev) as Hch.
  assert ((Z.testbit ev 0 = true → Z.testbit (pending_events_ c) 0 = true) ∧ (Z.testbit ev 2 = true → Z.testbit (pending_events_ c) 2 = true)) as [P0 P2].
  { destruct (ChooseSet ev); simpl in Hne; destruct Hch as [Hb0 Hb2]; split; intros Hb; try congruence; auto; by apply C3. }
  apply (watches_sub _ _ (pending_events_ c)).
  - apply C4. rewrite has_in, has_out in Hev. apply orb_true_iff in Hev as [Hb|Hb]; eapply bit_nonzero; eauto.
  - rewrite Z.land_spec. intros [Hb _]%andb_true_iff. auto.
  - rewrite Z.land_spec. intros [Hb _]%andb_true_iff. auto.
Qed.

(** Registering a wait has four outcomes and no other: a closed descriptor, or a refusal by
    epoll, fails and changes nothing of the descriptor; in edge-triggered mode an event already
    recorded completes at once, reporting only events asked for, without registering; otherwise
    the sentry is registered under its coroutine in the set of its events, replacing what that
    coroutine had there, and the events are watched from then on. *)
Theorem add_into_reactor_outcomes ev sid s c ss k r c' ss' k' :
  ss !! sid = Some s → (has ev POLLIN || has ev POLLOUT) = true → covered c k →
  add_into_reactor epoll_ctl ev sid (World c ss k) = (r, World c' ss' k') →
  match r with
  | failed => c' = c ∧ ss' = ss ∧ interest k' (fd_ c) = interest k (fd_ c)
  | complete => et_mode_ c = true ∧ c' = c ∧ k' = k ∧ ∃ rev, Z.land rev ev = rev ∧ rev ≠ 0 ∧
      ss' = <[sid := IoSentry (triggered_by_add (fd_ c) rev (watch_fds_ s)) (task_ptr_ s)]> ss
  | progress => ss' = ss ∧ closed_ c = false ∧
      (∀ w, tasks_of w c' = if decide (w = ChooseSet ev) then <[task_ptr_ s := sid]> (tasks_of w c) else tasks_of w c) ∧
      watches k' (fd_ c') (Z.land ev (Z.lor POLLIN POLLOUT))
  end.
Proof.
  intros Hs Hev C E. pose proof (add_covered ev sid (World c ss k) r _ C Hev E) as C'. simpl in C'.
  unfold add_into_reactor in E. rewrite Hs in E. destruct (closed_ c) eqn:Hcl; [by simplify_eq|].
  set (rev := if et_mode_ c then _ else 0) in E. destruct (negb (rev =? 0)) eqn:Hrev.
  - simplify_eq. unfold rev in Hrev. destruct (et_mode_ c') eqn:Het; [|done]. split_and!; try done. exists rev. unfold rev.
    apply negb_true_iff, Z.eqb_neq in Hrev. split_and!; [|done|done]. rewrite has_in, has_out.
    apply Z.bits_inj'. intros n Hn. rewrite Z.land_spec. destruct (Z.testbit (Z.lor _ _) n) eqn:Hb; [|done]. simpl.
    rewrite Z.lor_spec in Hb. destruct (decide (n = 0)) as [->|]; [by destruct (Z.testbit ev 0), (Z.testbit ev 2), (readable_ c'), (writable_ c')|].
    destruct (decide (n = 2)) as [->|]; [by destruct (Z.testbit ev 0), (Z.testbit ev 2), (readable_ c'), (writable_ c')|].
    pose proof (pollio_bits n) as Hp. rewrite !bool_decide_false, Z.lor_spec in Hp by done. apply orb_false_iff in Hp as [Hp0 Hp2].
    destruct (Z.testbit ev 0 && readable_ c'), (Z.testbit ev 2 && writable_ c'); rewrite ?Hp0, ?Hp2, ?Z.bits_0 in Hb; done.
  - assert (∀ c1 k1, (∀ w, tasks_of w c1 = tasks_of w c) → fd_ c1 = fd_ c →
      (progress, World (with_set (ChooseSet ev) (<[task_ptr_ s := sid]> (tasks_of (ChooseSet ev) c1)) c1) ss k1) = (r, World c' ss' k') →
      r = progress ∧ ss' = ss ∧ (∀ w, tasks_of w c' = if decide (w = ChooseSet ev) then <[task_ptr_ s := sid]> (tasks_of w c) else tasks_of w c)) as Hen.
    { intros c1 k1 Ht Hf [= <- <- <- <-]. split_and!; try done. intros w. rewrite Ht. specialize (Ht w).
      destruct (ChooseSet ev), w; simpl in *; by rewrite ?decide_True, ?decide_False by done. }
    assert (r = progress → ss' = ss → (∀ w, tasks_of w c' = if decide (w = ChooseSet ev) then <[task_ptr_ s := sid]> (tasks_of w c) else tasks_of w c) →
      watches k' (fd_ c') (Z.land ev (Z.lor POLLIN POLLOUT))) as Hw.
    { intros _ _ Ht. apply set_watched; [done|done|]. rewrite (Ht (ChooseSet ev)), decide_True by done. apply insert_non_empty. }
    destruct (has (Z.land ev _) _).
    + destruct (reactor_ctl _ _ _ _ _ _ k) as [b k1] eqn:Ec. apply ctl_watches in Ec. destruct b; [|by simplify_eq].
      destruct (Hen (set_pending_events (Z.lor (pending_events_ c) (Z.land ev (Z.lor POLLIN POLLOUT))) c) k1) as (-> & Hss & Ht); [by intros []|done|exact E|auto].
    + destruct (Hen c k (λ _, eq_refl) eq_refl E) as (-> & Hss & Ht). auto.
Qed.
(** *** A coroutine that waits *)

(** A step that leaves the wait of sentry [sid] of coroutine [tk] for [ev] alone: it does not wake [sid] or close the
    descriptor, it destroys no sentry of [tk], and it registers no other sentry of [tk] for the same
    kind of events (a coroutine that waits does not call). *)
Definition undisturbed (ev : Z) (sid tk : nat) (l : fd_label) : Prop :=
  match l with
  | LNone => True
  | LAdd ev' sid' tk' => tk' = tk → sid' = sid ∨ ChooseSet ev' ≠ ChooseSet ev
  | LWake out => sid ∉ out
  | LClose => False
  | LDrop tk' => tk' ≠ tk
  end.

(** Sentry [sid] of [tk] is registered for [ev]. *)
Record waits (ev : Z) (sid tk : nat) (w : world (K:=K)) : Prop := Waits {
  wt_open : closed_ (ctx_ w) = false;
  wt_set : tasks_of (ChooseSet ev) (ctx_ w) !! tk = Some sid;
  wt_alive : ∃ s, sents w !! sid = Some s ∧ task_ptr_ s = tk;
}.

Lemma trigger_keeps_closed ev out w out' w' : reactor_trigger ev out w = (out', w') → closed_ (ctx_ w') = closed_ (ctx_ w).
Proof.
  destruct w as [c ss k]. unfold Reactor.reactor_trigger. destruct (closed_ c) eqn:Hcl; [by intros [= _ <-]|].
  set (c0 := set_ready _ _ c). unfold trigger_task_list. intros E.
  assert (∀ e c' k' c2 k2, del_events e c' k' = (c2, k2) → closed_ c2 = closed_ c') as Hd.
  { intros e c' k' c2 k2 E'. destruct (del_events_tasks e c' k' SetI) as (_ & _ & H). by rewrite E' in H. }
  destruct (has ev (Z.lnot (Z.lor POLLIN POLLOUT))), (has ev POLLIN), (has ev POLLOUT); cbv beta zeta iota in E;
    destruct (del_events _ _ k) as [c4 k4] eqn:Ed; injection E as _ <-; cbn [ctx_]; by rewrite (Hd _ _ _ _ _ Ed).
Qed.

(** [progress] leaves the descriptor open. *)
Lemma add_closed ev sid w r w' : add_into_reactor epoll_ctl ev sid w = (r, w') → closed_ (ctx_ w') = closed_ (ctx_ w).
Proof.
  destruct w as [c ss k]. unfold add_into_reactor. destruct (ss !! sid) as [s|]; [|by intros [= _ <-]].
  destruct (closed_ c) eqn:Hc; [by intros [= _ <-]|]. destruct (negb _); [by intros [= _ <-]|]. destruct (has _ _).
  - destruct (reactor_ctl _ _ _ _ _ _ k) as [[] k1]; intros [= _ <-]; [|done]. by destruct (ChooseSet ev).
  - intros [= _ <-]. by destruct (ChooseSet ev).
Qed.

Lemma waits_woken ev sid tk w ev' : waits ev sid tk w → wakes ev' (ChooseSet ev) = true → sid ∈ woken ev' (ctx_ w).
Proof.
  intros [_ Hset _] Hw. assert (sid ∈ sids (tasks_of (ChooseSet ev) (ctx_ w))) as Hin by (apply elem_of_map_img; eauto).
  unfold woken. destruct (ChooseSet ev); rewrite Hw; set_solver.
Qed.

Lemma waits_trigger ev sid tk w ev' out out' w' :
  waits ev sid tk w → reactor_trigger ev' out w = (out', w') → sid ∉ out' → waits ev sid tk w'.
Proof.
  intros Hwt E Hn. pose proof Hwt as [Hcl Hset (s & Hs & Htk)]. pose proof (trigger_keeps_closed _ _ _ _ _ E) as Hcl'.
  destruct w as [c ss k], w' as [c' ss' k']. simpl in *. destruct (reactor_trigger_wakes _ _ _ _ _ _ _ _ _ Hcl E) as (Ho & Hm & Ht).
  split; simpl; [congruence| |].
  - rewrite Ht. destruct (wakes ev' (ChooseSet ev)) eqn:Hw; [|done]. exfalso. apply Hn, Ho. right. split; [|eauto].
    by apply (waits_woken ev sid tk (World c ss k)).
  - rewrite Hm, Hs. simpl. eexists. split; [reflexivity|]. by destruct (decide _).
Qed.

Lemma del_waits ev' tk' c k c' k' : del_from_reactor epoll_ctl ev' tk' c k = (c', k') →
  closed_ c' = closed_ c ∧ ∀ x tk, tk ≠ tk' → tasks_of x c' !! tk = tasks_of x c !! tk.
Proof.
  unfold del_from_reactor. destruct (closed_ c) eqn:Hcl; [intros [= <- <-]; done|]. destruct (pending_events_ c =? 0); [intros [= <- <-]; done|].
  destruct (tasks_of (ChooseSet ev') c !! tk') as [sid|]; [|intros [= <- <-]; done].
  set (c1 := with_set _ _ c). assert (closed_ c1 = closed_ c ∧ ∀ x tk, tk ≠ tk' → tasks_of x c1 !! tk = tasks_of x c !! tk) as [H1 H2].
  { split; [by unfold c1; destruct (ChooseSet ev')|]. intros x tk Hne. unfold c1. destruct (ChooseSet ev'), x; simpl; try done; by rewrite lookup_delete_ne. }
  destruct (negb _); [intros [= <- <-]; split; [congruence|done]|]. destruct (negb _); [|intros [= <- <-]; split; [congruence|done]].
  intros E. split.
  - destruct (del_events_tasks (match ChooseSet ev' with SetI => if decide (io_tasks_ c1 = ∅) then POLLIN else 0 | SetO => if decide (io_tasks_ c1 = ∅) then POLLOUT else 0
      | SetIO => Z.lor (if decide (i_tasks_ c1 = ∅) then POLLIN else 0) (if decide (o_tasks_ c1 = ∅) then POLLOUT else 0) end) c1 k SetI) as (_ & _ & H).
    rewrite E in H. simpl in H. congruence.
  - intros x tk Hne. by rewrite (del_events_fst E x), H2.
Qed.

Lemma waits_drop ev sid tk w sid' s' : waits ev sid tk w → sents w !! sid' = Some s' → task_ptr_ s' ≠ tk →
  waits ev sid tk (drop_sentry epoll_ctl sid' w).
Proof.
  intros [Hcl Hset (s & Hs & Htk)] Hs' Hne. destruct w as [c ss k]. simpl in *. unfold drop_sentry. rewrite Hs'.
  destruct (foldl _ (c, k) (watch_fds_ s')) as [c' k'] eqn:Ef.
  assert (closed_ c' = closed_ c ∧ tasks_of (ChooseSet ev) c' !! tk = tasks_of (ChooseSet ev) c !! tk) as [H1 H2].
  { clear -Ef Hne. revert c k Ef. induction (watch_fds_ s') as [|p l IH]; intros c k Ef; simpl in Ef; [by simplify_eq|].
    destruct (fd p =? fd_ c) eqn:Efd; [|by apply (IH c k)]. destruct (del_from_reactor epoll_ctl (events p) (task_ptr_ s') c k) as [c1 k1] eqn:Ed.
    apply del_waits in Ed as [D1 D2]. destruct (IH c1 k1 Ef) as [I1 I2]. split; [congruence|]. rewrite I2. by apply D2. }
  split; simpl; [congruence|congruence|]. exists s. rewrite lookup_delete_ne; [done|]. intros ->. congruence.
Qed.

Lemma waits_step ev sid tk w l w' : covered (ctx_ w) (kern w) → waits ev sid tk w → fd_step w l w' → undisturbed ev sid tk l → waits ev sid tk w'.
Proof.
  intros C Hwt Hst. pose proof Hwt as [Hcl Hset (s & Hs & Htk)].
  destruct Hst as [sid' e w Hn He|ev' sid' s' r w w' Hev Hs' E|ev' out out' w w' E|w c k E|w o w' E|sid' s' w Hs' Hd]; simpl; intros Hu; try done.
  - split; simpl; [done|done|]. exists s. rewrite lookup_insert_ne; [done|]. intros ->. congruence.
  - pose proof (add_closed _ _ _ _ _ E) as Hcl'. destruct w as [c ss k], w' as [c' ss' k']. simpl in Hcl, Hset, Hs, Hs', C, Hu, Hcl'.
    pose proof (add_into_reactor_outcomes ev' sid' s' c ss k r c' ss' k' Hs' Hev C E) as Ho. destruct r.
    + destruct Ho as (-> & -> & _). by split; eauto.
    + destruct Ho as (-> & Hc & Ht & _). split; simpl; [|..].
      * congruence.
      * rewrite Ht. case_decide as Hk; [|done]. destruct (decide (task_ptr_ s' = tk)) as [Heq|Hne].
        -- destruct (Hu Heq) as [->|Hx]; [|congruence]. subst tk. by rewrite Heq, lookup_insert_eq.
        -- by rewrite lookup_insert_ne.
      * eauto.
    + destruct Ho as (_ & -> & _ & rev & _ & _ & ->). split; simpl; [done|done|]. destruct (decide (sid' = sid)) as [->|Hx].
      * rewrite lookup_insert_eq. eexists. split; [reflexivity|]. simpl. congruence.
      * rewrite lookup_insert_ne by done. eauto.
  - by eapply waits_trigger.
  - unfold set_et_mode in E. split; simpl; [..|eauto]; destruct (et_mode_ (ctx_ w)); try (by injection E as <- _);
      (destruct (negb _); injection E as <- _; by destruct (ChooseSet ev)).
  - by eapply waits_drop.
Qed.

(** C21: a coroutine that waits is watched until it is woken.  When [add_into_reactor] has entered a
    sentry for input or output (or both; hang-up and error alone are not considered), then after any further operations on the
    descriptor by any coroutines, with any failures of epoll_ctl, as long as no trigger has put the sentry
    out, the descriptor is not closed and no sentry of the same coroutine is destroyed ([undisturbed]): the kernel's interest has
    the events it waits for, and the next reported event that concerns them, or an error, puts the sentry out.
    (That no sentry of the coroutine is destroyed late is a condition the callers do not keep:
    [late_destructor_loses_the_wait]; what a wait for hang-up alone does is [wait_for_hangup_only].) *)
Theorem waiting_is_watched w ev sid s w1 ls w2 :
  reachable fresh_fd fd_step w → sents w !! sid = Some s → (has ev POLLIN || has ev POLLOUT) = true →
  add_into_reactor epoll_ctl ev sid w = (progress, w1) →
  run fd_step w1 ls w2 → Forall (undisturbed ev sid (task_ptr_ s)) ls →
  watches (kern w2) (fd_ (ctx_ w2)) (Z.land ev (Z.lor POLLIN POLLOUT)) ∧
  ∀ ev' out, wakes ev' (ChooseSet ev) = true → sid ∈ fst (reactor_trigger ev' out w2).
Proof.
  intros Hr Hs Hev Ha Hrun Hu. pose proof (reachable_covered w Hr) as C.
  assert (waits ev sid (task_ptr_ s) w1) as Hw.
  { pose proof (add_into_reactor_outcomes ev sid s (ctx_ w) (sents w) (kern w)) as Ho. pose proof (add_closed _ _ _ _ _ Ha) as Hcl.
    destruct w as [c ss k], w1 as [c1 ss1 k1]. simpl in Hs, C, Ho, Hcl.
    destruct (Ho progress c1 ss1 k1 Hs Hev C Ha) as (-> & Hc & Ht & _). split; simpl; [| |eauto].
    - congruence.
    - by rewrite Ht, decide_True, lookup_insert_eq. }
  pose proof (add_covered _ _ _ _ _ C Hev Ha) as C1. clear C Hr Hs Ha w.
  assert (covered (ctx_ w2) (kern w2) ∧ waits ev sid (task_ptr_ s) w2) as [C2 H2].
  { revert Hu C1 Hw. induction Hrun as [w|w l w' ls w'' Hst Hrun IH]; intros Hu C1 Hw; [done|].
    apply Forall_cons in Hu as [Hu Hus]. apply IH; [done|by eapply step_covered|by eapply waits_step]. }
  split.
  - apply set_watched; [done|done|]. intros He. pose proof (wt_set _ _ _ _ H2) as Hset. by rewrite He, lookup_empty in Hset.
  - intros ev' out Hk. pose proof (waits_woken _ _ _ _ ev' H2 Hk) as Hin. destruct H2 as [Hcl _ (s' & Hs' & _)].
    destruct w2 as [c ss k]. simpl in Hcl, Hs', Hin. destruct (reactor_trigger ev' out (World c ss k)) as [out' [c' ss' k']] eqn:E.
    apply (reactor_trigger_wakes _ _ _ _ _ _ _ _ _ Hcl E). right. eauto.
Qed.
End Kernel.

(** ** A kernel *)
Definition table : Type := Z → option Z.
Definition table_ctl (m : ctl) (f e : Z) (t : table) : bool * table :=
  match m, t f with
  | EPOLL_CTL_ADD, None => (true, fupd t f (Some e))
  | EPOLL_CTL_MOD, Some _ => (true, fupd t f (Some e))
  | EPOLL_CTL_DEL, Some _ => (true, fupd t f None)
  | _, _ => (false, t)
  end.

Lemma table_ok m f e k k' : table_ctl m f e k = (true, k') → m ≠ EPOLL_CTL_DEL → k' f = Some e.
Proof. unfold table_ctl. destruct m, (k f); intros E Hm; simplify_eq; try done; apply fupd_eq. Qed.
Lemma table_fail m f e k k' : table_ctl m f e k = (false, k') → k' f = k f.
Proof. unfold table_ctl. destruct m, (k f) eqn:Hk; intros E; simplify_eq; done. Qed.

Definition ctx5 : ctx := Ctx 5 true false false 0 false false ∅ ∅ ∅.
Definition reader (tk : nat) : sentry := IoSentry [Pollfd 5 POLLIN 0] tk.
Definition no_interest : table := λ _, None.
Definition w5 : world (K:=table) := World ctx5 {[1%nat := reader 9]} no_interest.

Definition add5 := add_into_reactor table_ctl POLLIN 1 w5.

(** Coroutine 9 waits to read; coroutine 8 begins and ends a wait to write. *)
Definition writer : sentry := IoSentry [Pollfd 5 POLLOUT 0] 8.
Definition w6 : world (K:=table) := World (ctx_ (snd add5)) (<[2%nat := writer]> (sents (snd add5))) (kern (snd add5)).
Definition w7 : world (K:=table) := snd (add_into_reactor table_ctl POLLOUT 2 w6).
Definition w8 : world (K:=table) := snd (Reactor.reactor_trigger table_ctl POLLOUT ∅ w7).

Lemma waiting_is_watched_witness :
  watches (λ t : table, t) (kern w8) 5 POLLIN ∧ 1%nat ∈ fst (Reactor.reactor_trigger table_ctl POLLIN ∅ w8).
Proof.
  assert (run (fd_step table_ctl) (snd add5) [LNone; LAdd POLLOUT 2 8; LWake {[2%nat]}] w8) as Hrun.
  { eapply run_cons; [apply (fs_sentry table_ctl 2 writer); [reflexivity|by repeat constructor]|].
    eapply run_cons; [apply (fs_add table_ctl POLLOUT 2 writer (fst (add_into_reactor table_ctl POLLOUT 2 w6)) w6 w7); reflexivity|].
    eapply run_cons; [apply (fs_trigger table_ctl POLLOUT ∅ _ w7 w8); reflexivity|]. apply run_nil. }
  destruct (waiting_is_watched table_ctl (λ t, t) table_ok table_fail w5 POLLIN 1 (reader 9) (snd add5) [LNone; LAdd POLLOUT 2 8; LWake {[2%nat]}] w8) as [H1 H2].
  - apply reach_init. by split.
  - reflexivity.
  - reflexivity.
  - reflexivity.
  - exact Hrun.
  - repeat constructor; simpl; [by intros|set_solver].
  - split; [exact H1|]. apply H2. reflexivity.
Defined.

Lemma add_into_reactor_outcomes_witness : tasks_of SetI (ctx_ (snd add5)) = {[9%nat := 1%nat]}.
Proof.
  pose proof (add_into_reactor_outcomes table_ctl (λ t, t) table_ok table_fail POLLIN 1 (reader 9) ctx5 {[1%nat := reader 9]} no_interest
    progress (ctx_ (snd add5)) (sents (snd add5)) (kern (snd add5))) as H.
  assert (covered (λ t : table, t) ctx5 no_interest) as C by (by split).
  destruct (H eq_refl eq_refl C eq_refl) as (_ & _ & Ht & _). exact (Ht SetI).
Defined.

Lemma reactor_trigger_wakes_witness :
  1%nat ∈ fst (Reactor.reactor_trigger table_ctl POLLIN ∅ (snd add5)).
Proof.
  destruct (reactor_trigger_wakes table_ctl POLLIN ∅ (ctx_ (snd add5)) (sents (snd add5)) (kern (snd add5))
    (fst (Reactor.reactor_trigger table_ctl POLLIN ∅ (snd add5))) (ctx_ (snd (Reactor.reactor_trigger table_ctl POLLIN ∅ (snd add5))))
    (sents (snd (Reactor.reactor_trigger table_ctl POLLIN ∅ (snd add5)))) (kern (snd (Reactor.reactor_trigger table_ctl POLLIN ∅ (snd add5))))) as (H & _).
  - reflexivity.
  - reflexivity.
  - apply H. right. split; [|eexists; reflexivity]. apply (bool_decide_unpack _). reflexivity.
Defined.

(** ** What the code does where it should not *)

(** Two coroutines wait for the same descriptor, one to read and one to write; both events come:
    the entry that asked for input alone reports output as well. *)
Example revents_not_asked_for :
  let w := World ctx5 {[1%nat := reader 9; 2%nat := IoSentry [Pollfd 5 POLLOUT 0] 8]} no_interest in
  let w := snd (add_into_reactor table_ctl POLLOUT 2 (snd (add_into_reactor table_ctl POLLIN 1 w))) in
  sents (snd (Reactor.reactor_trigger table_ctl (Z.lor POLLIN POLLOUT) ∅ w)) !! 1%nat
    = Some (IoSentry [Pollfd 5 POLLIN (Z.lor POLLIN POLLOUT)] 9).
Proof. reflexivity. Qed.

(** A coroutine that polls for no event but hang-up or error is entered in a set, but the
    descriptor is not given to epoll: nothing will wake it. *)
Example wait_for_hangup_only :
  fst (add_into_reactor table_ctl 0 1 w5) = progress ∧ io_tasks_ (ctx_ (snd (add_into_reactor table_ctl 0 1 w5))) = {[9%nat := 1%nat]} ∧
  kern (snd (add_into_reactor table_ctl 0 1 w5)) 5 = None.
Proof. vm_compute. done. Qed.

(** A sentry destroyed late (the thread that triggered it still held it) takes the new wait of its
    coroutine out of the set and of epoll: coroutine 9 waits with sentry 2, and nothing watches. *)
Definition late : world (K:=table) :=
  let w := snd add5 in
  let w := snd (Reactor.reactor_trigger table_ctl POLLIN ∅ w) in
  let w := World (ctx_ w) (<[2%nat := reader 9]> (sents w)) (kern w) in
  snd (add_into_reactor table_ctl POLLIN 2 w).

(** Destroying a sentry unregisters whatever its coroutine waits for on the descriptor, not
    only itself: when the reactor thread drops its last reference to a triggered sentry after the
    coroutine has begun its next wait, that wait is removed from the waiting set and from epoll. *)
Theorem late_destructor_loses_the_wait :
  i_tasks_ (ctx_ late) = {[9%nat := 2%nat]} ∧ is_Some (kern late 5) ∧
  i_tasks_ (ctx_ (drop_sentry table_ctl 1 late)) = ∅ ∧ kern (drop_sentry table_ctl 1 late) 5 = None ∧
  is_Some (sents (drop_sentry table_ctl 1 late) !! 2%nat).
Proof. vm_compute. split_and!; try done; eexists; reflexivity. Qed.

End ReactorSpec.
