(* ===== verification/Kernel.v ===== *)
(** * The system calls the hooks rest on

    The C library and the kernel are not part of the sources.  [Kernel] lists the calls that
    fd_context.cpp and linux_glibc_hook.cpp make, each as a function of the kernel's state; the laws
    the theorems rely on are in [KernelLaws].  [Scripted] is a small kernel for the examples. *)
From S2P Require Import Prelude FdContext.
Import Reactor.

#[local] Open Scope Z_scope.

Definition O_NONBLOCK : Z := 2 ^ 11.
Definition EINTR : Z := 4.
Definition EBADF : Z := 9.
Definition EAGAIN : Z := 11.
Definition EINVAL : Z := 22.
Definition EPERM : Z := 1.
Definition ETIMEDOUT : Z := 110.
Definition ECONNREFUSED : Z := 111.
Definition EINPROGRESS : Z := 115.

(** A [fd_set] is the set of its members. *)
Abbreviation fd_set := (gset Z).

Class Kernel (K : Type) := {
  errno : K → Z;
  set_errno : Z → K → K;
  (** [fstat]: fails, or tells whether the descriptor is a socket. *)
  sys_fstat : Z → K → option bool;
  sys_getfl : Z → K → Z;                     (* fcntl(fd, F_GETFL) *)
  sys_setfl : Z → Z → K → Z * K;             (* fcntl(fd, F_SETFL, flags) *)
  sys_dupfd : Z → Z → K → Z * K;             (* fcntl(fd, F_DUPFD, from) *)
  sys_fcntl : Z → Z → Z → K → Z * K;         (* the other commands *)
  sys_ioctl : Z → Z → Z → K → Z * K;
  sys_close : Z → K → Z * K;
  sys_epoll_ctl : ctl → Z → Z → K → bool * K;
  (** [poll]: the result and the array. *)
  sys_poll : list pollfd → Z → K → (Z * list pollfd) * K;
  (** [select] on the descriptors below the first argument, with a timeout in milliseconds (-1 for
      none); a missing set is [None]. *)
  sys_select : Z → option fd_set → option fd_set → option fd_set → Z → K →
               (Z * (option fd_set * option fd_set * option fd_set)) * K;
  sys_connect : Z → K → Z * K;
  (** [getsockopt(fd, SOL_SOCKET, SO_ERROR)]: the result and the error read. *)
  sys_so_error : Z → K → (Z * Z) * K;
  sys_setsockopt : Z → Z → Z → K → Z * K;
  sys_dup : Z → K → Z * K;
  sys_dup2 : Z → Z → K → Z * K;
  sys_dup3 : option (Z → Z → Z → K → Z * K);  (* not in every C library *)
  (** [epoll_wait]: the result and the events, as masks and descriptors. *)
  sys_epoll_wait : Z → Z → Z → K → (Z * list (Z * Z)) * K;
  now_ms : K → Z;                            (* the steady clock *)
  sys_sleep : Z → K → Z * K;                 (* sleep, usleep and nanosleep: a blocking sleep, in nanoseconds *)
}.

Class KernelLaws (K : Type) `{Kernel K} := {
  errno_set e k : errno (set_errno e k) = e;
  (** [poll] writes [revents] only. *)
  poll_fds fds timeout k : map (λ p, (fd p, events p)) (sys_poll fds timeout k).1.2 = map (λ p, (fd p, events p)) fds;
  (** The flags that were set are read back, as far as O_NONBLOCK is concerned. *)
  getfl_setfl fd fl k : (sys_setfl fd fl k).1 = 0 → has (sys_getfl fd (sys_setfl fd fl k).2) O_NONBLOCK = has fl O_NONBLOCK;
}.
#[global] Arguments O_NONBLOCK : simpl never.

(** ** A scripted kernel

    Descriptors are open sockets with their flags; the answers of poll (the result and the
    [revents]), of connect and of an input or output call (with their errno) are scripted; calls of
    close and sleeps are logged. *)
Record scripted := Scripted {
  s_errno : Z; flags : gmap Z Z; closed_fds : list Z; interest : gmap Z Z;
  poll_script : list (Z * list Z); io_script : list (Z * Z); so_error : Z; slept : list Z }.

Definition upd_errno (e : Z) (k : scripted) : scripted :=
  Scripted e (flags k) (closed_fds k) (interest k) (poll_script k) (io_script k) (so_error k) (slept k).
Definition upd_flags (f : gmap Z Z) (k : scripted) : scripted :=
  Scripted (s_errno k) f (closed_fds k) (interest k) (poll_script k) (io_script k) (so_error k) (slept k).
Definition upd_interest (i : gmap Z Z) (k : scripted) : scripted :=
  Scripted (s_errno k) (flags k) (closed_fds k) i (poll_script k) (io_script k) (so_error k) (slept k).

(** The next scripted answer; 0 when there is none left. *)
Definition io_call (k : scripted) : Z * scripted :=
  match io_script k with
  | (n, e) :: rest => (n, Scripted e (flags k) (closed_fds k) (interest k) (poll_script k) rest (so_error k) (slept k))
  | [] => (0, k)
  end.

Definition with_revents (l : list Z) (fds : list pollfd) : list pollfd :=
  imap (λ i p, Pollfd (fd p) (events p) (default 0 (l !! i))) fds.

#[export] Instance scripted_kernel : Kernel scripted := {|
  errno := s_errno;
  set_errno := upd_errno;
  sys_fstat fd k := match flags k !! fd with Some _ => Some true | None => None end;
  sys_getfl fd k := default 0 (flags k !! fd);
  sys_setfl fd fl k := (0, upd_flags (<[fd := fl]> (flags k)) k);
  sys_dupfd fd from k := (from, upd_flags (<[from := default 0 (flags k !! fd)]> (flags k)) k);
  sys_fcntl _ _ _ k := (0, k);
  sys_ioctl _ _ _ k := (0, k);
  sys_close fd k := (0, Scripted (s_errno k) (delete fd (flags k)) (closed_fds k ++ [fd]) (interest k) (poll_script k)
                          (io_script k) (so_error k) (slept k));
  sys_epoll_ctl m fd e k :=
    match m, interest k !! fd with
    | EPOLL_CTL_ADD, None => (true, upd_interest (<[fd := e]> (interest k)) k)
    | EPOLL_CTL_MOD, Some _ => (true, upd_interest (<[fd := e]> (interest k)) k)
    | EPOLL_CTL_DEL, Some _ => (true, upd_interest (delete fd (interest k)) k)
    | _, _ => (false, k)
    end;
  sys_poll fds _ k :=
    match poll_script k with
    | (n, l) :: rest =>
        ((n, with_revents l fds), Scripted (s_errno k) (flags k) (closed_fds k) (interest k) rest (io_script k) (so_error k) (slept k))
    | [] => ((0, with_revents [] fds), k)
    end;
  sys_select _ r w e _ k := ((0, (r, w, e)), k);
  sys_connect _ k := io_call k;
  sys_so_error _ k := ((0, so_error k), k);
  sys_setsockopt _ _ _ k := (0, k);
  sys_dup fd k := (fd + 1, upd_flags (<[fd + 1 := default 0 (flags k !! fd)]> (flags k)) k);
  sys_dup2 fd fd' k := (fd', upd_flags (<[fd' := default 0 (flags k !! fd)]> (flags k)) k);
  sys_dup3 := None;
  sys_epoll_wait _ _ _ k := ((0, []), k);
  now_ms _ := 0;
  sys_sleep u k := (0, Scripted (s_errno k) (flags k) (closed_fds k) (interest k) (poll_script k) (io_script k)
                         (so_error k) (slept k ++ [u]));
|}.

Lemma with_revents_fds l fds : map (λ p, (fd p, events p)) (with_revents l fds) = map (λ p, (fd p, events p)) fds.
Proof.
  unfold with_revents. apply list_eq. intros i. rewrite !list_lookup_fmap, list_lookup_imap.
  by destruct (fds !! i).
Qed.

#[export] Instance scripted_laws : KernelLaws scripted.
Proof.
  split.
  - done.
  - intros fds timeout k. simpl. destruct (poll_script k) as [|[n l] rest]; simpl; apply with_revents_fds.
  - intros fd fl k _. simpl. by rewrite lookup_insert_eq.
Qed.
