(* ===== verification/FdManager.v ===== *)
(** * The table of descriptors (libgo/linux/fd_context.cpp, [FdManager])

    [FdManager] maps a descriptor to a context that descriptors made by dup share.  A context is
    the part the reactor works on (FdContext.v) and the flags and timeouts the hooks keep for the
    program.  The state holds every context, every sentry and the kernel. *)
From S2P Require Import Prelude FdContext Kernel.
Import Reactor.

#[local] Open Scope Z_scope.

Module FdManager.

Record timeval := Timeval { tv_sec : Z; tv_usec : Z }.

(** [supported] of the reactor's part is [is_socket() || is_epoll()]. *)
(*@ libgo/libgo/linux/fd_context.h 134-157 FileDescriptorCtx *)
Record fdctx := FdCtx {
  rc : ctx; is_initialize_ : bool; is_socket_ : bool; is_epoll_ : bool;
  sys_nonblock_ : bool; user_nonblock_ : bool; recv_o_ : timeval; send_o_ : timeval }.

Definition closed (c : fdctx) : bool := closed_ (rc c).
Definition readable (c : fdctx) : bool := readable_ (rc c).
Definition writable (c : fdctx) : bool := writable_ (rc c).

Definition with_rc (f : ctx → ctx) (c : fdctx) : fdctx :=
  FdCtx (f (rc c)) (is_initialize_ c) (is_socket_ c) (is_epoll_ c) (sys_nonblock_ c) (user_nonblock_ c) (recv_o_ c) (send_o_ c).

(*@ libgo/libgo/linux/fd_context.h 202-206 FileDescriptorCtx::set_readable *)
Definition set_readable (b : bool) : fdctx → fdctx := with_rc (λ c, set_ready b (writable_ c) c).
(*@ libgo/libgo/linux/fd_context.h 207-211 FileDescriptorCtx::set_writable *)
Definition set_writable (b : bool) : fdctx → fdctx := with_rc (λ c, set_ready (readable_ c) b c).

(*@ libgo/libgo/linux/fd_context.cpp 185-188 FileDescriptorCtx::set_user_nonblock *)
Definition set_user_nonblock (b : bool) (c : fdctx) : fdctx :=
  FdCtx (rc c) (is_initialize_ c) (is_socket_ c) (is_epoll_ c) (sys_nonblock_ c) b (recv_o_ c) (send_o_ c).

Definition set_supported (b : bool) (c : ctx) : ctx :=
  Ctx (fd_ c) b (closed_ c) (et_mode_ c) (pending_events_ c) (readable_ c) (writable_ c) (i_tasks_ c) (o_tasks_ c) (io_tasks_ c).

(*@ libgo/libgo/linux/fd_context.cpp 111-114 FileDescriptorCtx::set_is_epoll *)
Definition set_is_epoll (c : fdctx) : fdctx :=
  FdCtx (set_supported true (rc c)) (is_initialize_ c) (is_socket_ c) true (sys_nonblock_ c) (user_nonblock_ c) (recv_o_ c) (send_o_ c).

Definition SO_RCVTIMEO : Z := 20.
Definition SO_SNDTIMEO : Z := 21.

(*@ libgo/libgo/linux/fd_context.cpp 201-208 FileDescriptorCtx::set_time_o *)
Definition set_time_o (type : Z) (tv : timeval) (c : fdctx) : fdctx :=
  if type =? SO_RCVTIMEO
  then FdCtx (rc c) (is_initialize_ c) (is_socket_ c) (is_epoll_ c) (sys_nonblock_ c) (user_nonblock_ c) tv (send_o_ c)
  else FdCtx (rc c) (is_initialize_ c) (is_socket_ c) (is_epoll_ c) (sys_nonblock_ c) (user_nonblock_ c) (recv_o_ c) tv.

(*@ libgo/libgo/linux/fd_context.cpp 209-216 FileDescriptorCtx::get_time_o *)
Definition get_time_o (type : Z) (c : fdctx) : timeval := if type =? SO_RCVTIMEO then recv_o_ c else send_o_ c.

(** The fields before the constructor runs. *)
Definition raw_ctx (fd : Z) : fdctx :=
  FdCtx (Ctx fd false false false 0 false false ∅ ∅ ∅) false false false false false (Timeval 0 0) (Timeval 0 0).

(** The two tables, for small and big descriptors, are one map; [Some i] is a context, shared by
    the descriptors that have the same [i].  [triggered] are the sentries [IOBlockTriggered] has
    been called on. *)
(*@ libgo/libgo/linux/fd_context.h 160-192 FdManager *)
Record t {K : Type} := Mgr {
  pairs : gmap Z nat; ctxs : gmap nat fdctx; sents : gmap nat sentry; triggered : gset nat; kern : K }.
Arguments t : clear implicits.

Section Kernel.
Context {K : Type} `{Kernel K}.

Definition with_ctxs (f : gmap nat fdctx → gmap nat fdctx) (m : t K) : t K :=
  Mgr _ (pairs m) (f (ctxs m)) (sents m) (triggered m) (kern m).
Definition with_kern (k : K) (m : t K) : t K := Mgr _ (pairs m) (ctxs m) (sents m) (triggered m) k.

(*@ libgo/libgo/linux/fd_context.cpp 62-97 FileDescriptorCtx::re_initialize *)
Definition re_initialize (c : fdctx) (k : K) : fdctx * K :=
  if is_initialize_ c then (c, k)
  else
    let fd := fd_ (rc c) in
    let '(init, sock) := match sys_fstat fd k with Some sock => (true, sock) | None => (false, false) end in
    let k := if sock then
               let flags := sys_getfl fd k in
               if negb (has flags O_NONBLOCK) then snd (sys_setfl fd (Z.lor flags O_NONBLOCK) k) else k
             else k in
    let r := rc c in
    (FdCtx (Ctx fd (sock || is_epoll_ c) false (et_mode_ r) 0 (readable_ r) (writable_ r) (i_tasks_ r) (o_tasks_ r) (io_tasks_ r))
           init sock (is_epoll_ c) sock false (Timeval 0 0) (Timeval 0 0), k).

(*@ libgo/libgo/linux/fd_context.cpp 48-52 FileDescriptorCtx::FileDescriptorCtx *)
Definition new_ctx (fd : Z) (k : K) : fdctx * K := re_initialize (raw_ctx fd) k.

(** The context is made when it is missing, then (re)initialised. *)
(*@ libgo/libgo/linux/fd_context.cpp 530-553 FdManager::get_pair, FdManager::get *)
Definition get (fd : Z) (m : t K) : nat * t K :=
  let '(i, m) :=
    match pairs m !! fd with
    | Some i => (i, m)
    | None => let i := fresh (dom (ctxs m)) in
              let '(c, k) := new_ctx fd (kern m) in
              (i, Mgr _ (<[fd := i]> (pairs m)) (<[i := c]> (ctxs m)) (sents m) (triggered m) k)
    end in
  match ctxs m !! i with
  | Some c => let '(c, k) := re_initialize c (kern m) in (i, with_kern k (with_ctxs <[i := c]> m))
  | None => (i, m)
  end.

(*@ libgo/libgo/linux/fd_context.cpp 470-479 FdManager::get_fd_ctx *)
Definition get_fd_ctx (fd : Z) (m : t K) : option (nat * fdctx) * t K :=
  if fd <? 0 then (None, m)
  else let '(i, m) := get fd m in
       match ctxs m !! i with
       | Some c => if is_initialize_ c then (Some (i, c), m) else (None, m)
       | None => (None, m)
       end.

(** What the reactor's functions do to one context. *)
Definition on_reactor {A} (i : nat) (c : fdctx) (f : world (K:=K) → A * world (K:=K)) (m : t K) : A * t K :=
  let '(a, w) := f (World (rc c) (sents m) (kern m)) in
  (a, Mgr _ (pairs m) (<[i := with_rc (λ _, ctx_ w) c]> (ctxs m)) (Reactor.sents w) (triggered m) (Reactor.kern w)).

Definition trigger (s : gset nat) (m : t K) : t K := Mgr _ (pairs m) (ctxs m) (sents m) (s ∪ triggered m) (kern m).

(** [FileDescriptorCtx::close]: the context closes the descriptor it was made for and triggers
    every sentry that waits for it. *)
(*@ libgo/libgo/linux/fd_context.cpp 140-177 FileDescriptorCtx::close *)
Definition ctx_close (i : nat) (call_syscall : bool) (m : t K) : Z * t K :=
  match ctxs m !! i with
  | Some c =>
      if closed c then (0, m)
      else let '(ret, k) := if call_syscall then sys_close (fd_ (rc c)) (kern m) else (0, kern m) in
           let '(woken, m) := on_reactor i c Reactor.close (with_kern k m) in
           (ret, trigger woken m)
  | None => (0, m)
  end.

Definition drop_pair (fd : Z) (m : t K) : t K := Mgr _ (delete fd (pairs m)) (ctxs m) (sents m) (triggered m) (kern m).

(*@ libgo/libgo/linux/fd_context.cpp 480-497 FdManager::close *)
Definition close (fd : Z) (call_syscall : bool) (m : t K) : Z * t K :=
  if fd <? 0 then (0, m)
  else match pairs m !! fd with
       | None => if call_syscall then let '(ret, k) := sys_close fd (kern m) in (ret, with_kern k m) else (0, m)
       | Some i => let '(ret, m) := ctx_close i call_syscall m in (ret, drop_pair fd m)
       end.

(** [fclose] of a stream on [fd]: the C library's fclose closes the descriptor. *)
(*@ libgo/libgo/linux/fd_context.cpp 498-515 FdManager::fclose *)
Definition fclose (fd : Z) (m : t K) : Z * t K :=
  if fd <? 0 then (0, m)
  else let '(ret, k) := sys_close fd (kern m) in
       match pairs m !! fd with
       | None => (ret, with_kern k m)
       | Some i => (ret, drop_pair fd (snd (ctx_close i false (with_kern k m))))
       end.

(*@ libgo/libgo/linux/fd_context.cpp 516-528 FdManager::dup *)
Definition dup (src dst : Z) (m : t K) : bool * t K :=
  let '(i, m) := get src m in
  match ctxs m !! i with
  | Some c =>
      if negb (is_initialize_ c) then (false, m)
      else match pairs m !! dst with
           | Some _ => (false, m)
           | None => (true, Mgr _ (<[dst := i]> (pairs m)) (ctxs m) (sents m) (triggered m) (kern m))
           end
  | None => (false, m)
  end.

Definition ctx_add_into_reactor (i : nat) (c : fdctx) (events : Z) (sid : nat) (m : t K) : add_into_reactor_result * t K :=
  on_reactor i c (Reactor.add_into_reactor sys_epoll_ctl events sid) m.

(** [IoSentry::~IoSentry], when the last reference goes. *)
(*@ libgo/libgo/linux/fd_context.cpp 19-27 IoSentry::~IoSentry *)
Definition destroy_sentry (sid : nat) (m : t K) : t K :=
  match sents m !! sid with
  | None => m
  | Some s =>
      let m := foldl (λ m p,
        match get_fd_ctx (fd p) m with
        | (Some (i, c), m) =>
            snd (on_reactor i c (λ w, let '(r, k) := del_from_reactor sys_epoll_ctl (events p) (task_ptr_ s) (ctx_ w) (Reactor.kern w) in
                                      (tt, World r (Reactor.sents w) k)) m)
        | (None, m) => m
        end) m (watch_fds_ s) in
      Mgr _ (pairs m) (ctxs m) (delete sid (sents m)) (triggered m) (kern m)
  end.

(** Every entry has a context. *)
Definition ok (m : t K) : Prop := ∀ fd i, pairs m !! fd = Some i → is_Some (ctxs m !! i).

Lemma re_initialize_id c k : is_initialize_ c = true → re_initialize c k = (c, k).
Proof. unfold re_initialize. by intros ->. Qed.

(** A fresh context of an open descriptor. *)
Definition fresh_ctx (fd : Z) (sock : bool) : fdctx :=
  FdCtx (Ctx fd sock false false 0 false false ∅ ∅ ∅) true sock false sock false (Timeval 0 0) (Timeval 0 0).

Lemma new_ctx_open fd sock k : sys_fstat fd k = Some sock → ∃ k', new_ctx fd k = (fresh_ctx fd sock, k').
Proof. intros Hs. unfold new_ctx, re_initialize. simpl. rewrite Hs, orb_false_r. by eexists. Qed.

(** The context of a descriptor that has one is found again, and nothing changes. *)
Lemma get_old fd i c (m : t K) : pairs m !! fd = Some i → ctxs m !! i = Some c → is_initialize_ c = true →
  ∃ m', get fd m = (i, m') ∧ pairs m' = pairs m ∧ kern m' = kern m ∧ sents m' = sents m ∧ triggered m' = triggered m ∧ ctxs m' = ctxs m.
Proof.
  intros Hp Hc Hi. unfold get. rewrite Hp, Hc, re_initialize_id by done. eexists. split; [reflexivity|].
  simpl. by rewrite insert_id.
Qed.

Lemma get_fd_ctx_old fd i c (m : t K) : 0 <= fd → pairs m !! fd = Some i → ctxs m !! i = Some c → is_initialize_ c = true →
  get_fd_ctx fd m = (Some (i, c), m).
Proof.
  intros Hf Hp Hc Hi. unfold get_fd_ctx. rewrite (proj2 (Z.ltb_ge _ _)) by done.
  destruct (get_old fd i c m Hp Hc Hi) as (m' & -> & E1 & E2 & E3 & E4 & E5). rewrite E5, Hc, Hi.
  destruct m, m'; simpl in *. by subst.
Qed.

Lemma get_new fd sock (m : t K) : pairs m !! fd = None → sys_fstat fd (kern m) = Some sock →
  ∃ i m', get fd m = (i, m') ∧ ctxs m !! i = None ∧ pairs m' = <[fd := i]> (pairs m) ∧
    ctxs m' = <[i := fresh_ctx fd sock]> (ctxs m).
Proof.
  intros Hp Hs. unfold get. rewrite Hp. pose proof (is_fresh (dom (ctxs m))) as Hf. set (i := fresh (dom (ctxs m))) in *.
  apply not_elem_of_dom in Hf. destruct (new_ctx_open fd sock _ Hs) as (k' & ->). simpl. rewrite lookup_insert_eq.
  rewrite re_initialize_id by done. eexists i, _. split; [reflexivity|]. simpl. by rewrite insert_insert_eq.
Qed.

(** [close] on an open context: what it leaves. *)
Lemma ctx_close_open i (cs : bool) c (m : t K) : ctxs m !! i = Some c → closed c = false →
  let k := if cs then snd (sys_close (fd_ (rc c)) (kern m)) else kern m in
  ∃ ret (woken : gset nat) ss c', ctx_close i cs m = (ret, Mgr K (pairs m) (<[i := c']> (ctxs m)) ss (woken ∪ triggered m) k) ∧
    closed c' = true ∧ is_initialize_ c' = is_initialize_ c ∧ fd_ (rc c') = fd_ (rc c).
Proof.
  intros Hc Hcl k. unfold ctx_close. rewrite Hc, Hcl.
  assert ((if cs then sys_close (fd_ (rc c)) (kern m) else (0, kern m)) =
          ((if cs then sys_close (fd_ (rc c)) (kern m) else (0, kern m)).1, k)) as ->.
  { subst k. destruct cs; [by destruct (sys_close _ _)|done]. }
  unfold on_reactor, Reactor.close. simpl. unfold closed in Hcl. rewrite Hcl.
  eexists _, _, _, _. split; [reflexivity|]. done.
Qed.

Lemma close_open fd i (cs : bool) c (m : t K) : 0 <= fd → pairs m !! fd = Some i → ctxs m !! i = Some c → closed c = false →
  let k := if cs then snd (sys_close (fd_ (rc c)) (kern m)) else kern m in
  ∃ ret (woken : gset nat) ss c', close fd cs m = (ret, Mgr K (delete fd (pairs m)) (<[i := c']> (ctxs m)) ss (woken ∪ triggered m) k) ∧
    closed c' = true ∧ is_initialize_ c' = is_initialize_ c ∧ fd_ (rc c') = fd_ (rc c).
Proof.
  intros Hf Hp Hc Hcl k. unfold close. rewrite (proj2 (Z.ltb_ge _ _)), Hp by done.
  destruct (ctx_close_open i cs c m Hc Hcl) as (ret & woken & ss & c' & -> & H1 & H2 & H3).
  eexists _, _, _, _. split; [reflexivity|]. done.
Qed.

(** A descriptor that is closed and opened again starts afresh.  [close fd] removes its entry and
    calls close(2) once, on the descriptor the context was made for, and changes no other
    descriptor's entry; when the kernel gives the number out again, the next [get_fd_ctx] returns a
    new context: open, blocking for the program, with no timeouts, nothing waiting and nothing
    pending, whatever happened to the old one. *)
Theorem FdManager_reopen fd i c (m : t K) k' sock :
  0 <= fd → pairs m !! fd = Some i → ctxs m !! i = Some c → closed c = false →
  sys_fstat fd k' = Some sock →
  let m1 := snd (close fd true m) in
  pairs m1 = delete fd (pairs m) ∧ kern m1 = snd (sys_close (fd_ (rc c)) (kern m)) ∧
  ∃ j m2, get_fd_ctx fd (with_kern k' m1) = (Some (j, fresh_ctx fd sock), m2) ∧ ctxs m1 !! j = None ∧
    (∀ fd', fd' ≠ fd → pairs m2 !! fd' = pairs m !! fd').
Proof.
  intros Hf Hp Hc Hcl Hst m1. destruct (close_open fd i true c m Hf Hp Hc Hcl) as (ret & woken & ss & c' & E & H1 & H2 & H3).
  unfold m1. rewrite E. simpl. split; [done|]. split; [done|].
  set (m1' := with_kern k' _). destruct (get_new fd sock m1') as (j & m2 & Eg & Hj & Hp2 & Hc2); [apply lookup_delete_eq|done|].
  exists j, m2. unfold get_fd_ctx. rewrite (proj2 (Z.ltb_ge _ _)), Eg, Hc2, lookup_insert_eq by done. simpl. split; [done|].
  split; [done|]. intros fd' Hne. rewrite Hp2, lookup_insert_ne by done. by apply lookup_delete_ne.
Qed.

(** A descriptor made by dup shares the context of its original, so closing the copy closes
    the original: the manager calls close(2) on the original descriptor, never on the copy, and
    leaves the original with a context that stays closed. *)
Theorem dup_close_closes_original src dst (m : t K) i c :
  0 <= dst → src ≠ dst → pairs m !! src = Some i → pairs m !! dst = None → ctxs m !! i = Some c →
  fd_ (rc c) = src → is_initialize_ c = true → closed c = false →
  let '(copied, m1) := dup src dst m in
  let m2 := snd (close dst true m1) in
  copied = true ∧ kern m2 = snd (sys_close src (kern m)) ∧ pairs m2 = pairs m ∧
  ∃ c' m3, get src m2 = (i, m3) ∧ ctxs m3 !! i = Some c' ∧ closed c' = true.
Proof.
  intros Hd Hne Hp Hpd Hc Hfd Hin Hcl. unfold dup.
  destruct (get_old src i c m Hp Hc Hin) as (m0 & -> & E1 & E2 & E3 & E4 & E5). rewrite E5, Hc, Hin, E1, Hpd. simpl.
  set (m1 := Mgr K _ _ _ _ _).
  destruct (close_open dst i true c m1 Hd ltac:(apply lookup_insert_eq) Hc Hcl) as (ret & woken & ss & c' & -> & H1 & H2 & H3).
  simpl. rewrite E2, Hfd, delete_insert_id by done. do 3 (split; [done|]).
  set (m2 := Mgr K _ _ _ _ _). destruct (get_old src i c' m2 Hp) as (m3 & -> & _ & _ & _ & _ & E9);
    [apply lookup_insert_eq|by rewrite H2|].
  exists c', m3. rewrite E9. split; [done|]. split; [apply lookup_insert_eq|done].
Qed.
End Kernel.

Definition open3 : t scripted :=
  Mgr _ {[3 := 0%nat]} {[0%nat := fresh_ctx 3 true]} ∅ ∅ (Scripted 0 {[3 := O_NONBLOCK]} [] ∅ [] [] 0 []).

Lemma FdManager_reopen_witness : pairs (snd (close 3 true open3)) = delete 3 (pairs open3).
Proof.
  assert (0 <= 3) as H3 by lia.
  assert (sys_fstat 3 (kern open3) = Some true) as Hst by (vm_compute; reflexivity).
  destruct (FdManager_reopen 3 0 (fresh_ctx 3 true) open3 (kern open3) true H3 eq_refl eq_refl eq_refl Hst) as (Hp & _).
  exact Hp.
Defined.

Lemma dup_close_closes_original_witness : closed_fds (kern (snd (close 4 true (snd (dup 3 4 open3))))) = [3].
Proof.
  assert (0 <= 4) as H4 by lia. assert (3 ≠ 4) as Hne by lia.
  destruct (dup_close_closes_original 3 4 open3 0 (fresh_ctx 3 true) H4 Hne eq_refl eq_refl eq_refl eq_refl eq_refl eq_refl)
    as (_ & Hk & _).
  exact (f_equal closed_fds Hk).
Defined.
End FdManager.
