(* ===== verification/EventLoop.v ===== *)
(** * Waiting for events (libgo/linux/io_wait.cpp, [IoWait::WaitLoop])

    A thread of the scheduler asks epoll for events and passes each on to the context of its descriptor,
    which gives the sentries that it wakes; these are triggered when all events have been looked at. *)
From S2P Require Import Prelude FdContext Kernel FdManager FdContextSpec.
Import Reactor FdManager ReactorSpec.

#[local] Open Scope Z_scope.

Module EventLoop.
Section Kernel.
Context {K : Type} `{Kernel K}.

(** The loop over the events; they are masks with their descriptors. *)
(*@ libgo/libgo/linux/io_wait.cpp 143-154 IoWait::WaitLoop *)
Fixpoint trigger_events (evs : list (Z * Z)) (triggers : gset nat) (m : t K) : gset nat * t K :=
  match evs with
  | [] => (triggers, m)
  | (events, fd) :: evs =>
      match get_fd_ctx fd m with
      | (None, m) => trigger_events evs triggers m
      | (Some (i, c), m) =>
          let '(triggers, m) := on_reactor i c (reactor_trigger sys_epoll_ctl (EpollEvent2Poll events) triggers) m in
          trigger_events evs triggers m
      end
  end.

(** [created] is [IsEpollCreated()].  [IOBlockTriggered] on a sentry is a step of Sched.v; here the
    sentries it is called on are remembered.  The fuel is for interrupted calls. *)
(*@ libgo/libgo/linux/io_wait.cpp 121-165 IoWait::WaitLoop *)
Fixpoint WaitLoop (fuel : nat) (created : bool) (epfd epoll_event_size wait_milliseconds : Z) (m : t K) : option (Z * t K) :=
  if negb created then Some (-1, m)
  else
    match fuel with
    | O => None
    | S fuel =>
        let '((n, evs), k) := sys_epoll_wait epfd epoll_event_size wait_milliseconds (kern m) in
        let m := with_kern k m in
        if n =? -1 then if errno k =? EINTR then WaitLoop fuel created epfd epoll_event_size wait_milliseconds m else Some (0, m)
        else let '(triggers, m) := trigger_events (take (Z.to_nat n) evs) ∅ m in Some (n, trigger triggers m)
    end.

(** ** What a descriptor's context is asked for *)

Lemma re_initialize_tasks c k w : tasks_of w (rc (re_initialize c k).1) = tasks_of w (rc c).
Proof. unfold re_initialize. destruct (is_initialize_ c); [done|]. destruct (sys_fstat _ _); by destruct w. Qed.
Lemma new_ctx_tasks fd k w : tasks_of w (rc (new_ctx fd k).1) = ∅.
Proof. unfold new_ctx. rewrite re_initialize_tasks. by destruct w. Qed.

(** What waits in a context. *)
Definition waiting (c : fdctx) (w : wset) : gmap nat nat := tasks_of w (rc c).

(** A table with another one behind it, where a context is new, or was there with the same tasks, and is
    as it was where it was initialised. *)
Record extends (m m' : t K) : Prop := Extends {
  ext_sents : sents m' = sents m;
  ext_triggered : triggered m' = triggered m;
  ext_pairs : ∀ fd i, pairs m !! fd = Some i → pairs m' !! fd = Some i;
  ext_new : ∀ fd i, pairs m' !! fd = Some i → pairs m !! fd = Some i ∨ ctxs m !! i = None;
  ext_dom : ∀ i, is_Some (ctxs m !! i) → is_Some (ctxs m' !! i);
  ext_old : ∀ i c, ctxs m !! i = Some c → is_initialize_ c = true → ctxs m' !! i = Some c;
  ext_tasks : ∀ i c', ctxs m' !! i = Some c' → ∀ w, waiting c' w = default ∅ ((λ c, waiting c w) <$> ctxs m !! i);
}.

Lemma extends_refl m : extends m m.
Proof. split; try done; [by left|]. intros i c E w. by rewrite E. Qed.

Lemma extends_insert (m : t K) i c c' k : ctxs m !! i = Some c → (is_initialize_ c = true → c' = c) → (∀ w, waiting c' w = waiting c w) →
  extends m (Mgr _ (pairs m) (<[i := c']> (ctxs m)) (sents m) (triggered m) k).
Proof.
  intros Hc Hi Hw. split; cbn; try done; [by left|by intros; apply lookup_insert_is_Some'; auto| |].
  - intros j d Hd Hini. destruct (decide (j = i)) as [-> |Hne]; [|by rewrite lookup_insert_ne]. rewrite lookup_insert_eq. f_equal. rewrite Hc in Hd. injection Hd as ->. auto.
  - intros j d Hd w. destruct (decide (j = i)) as [-> |Hne].
    + rewrite lookup_insert_eq in Hd. injection Hd as <-. rewrite Hc. cbn. apply Hw.
    + rewrite lookup_insert_ne in Hd by done. by rewrite Hd.
Qed.

Lemma get_extends fd m i m' : get fd m = (i, m') → extends m m' ∧ pairs m' !! fd = Some i.
Proof.
  unfold get. destruct (pairs m !! fd) as [j|] eqn:Hp.
  - destruct (ctxs m !! j) as [c|] eqn:Hc; [|intros [= <- <-]; by split; [apply extends_refl|]].
    destruct (re_initialize c (kern m)) as [c' k] eqn:Hr. intros [= <- <-]. split; [|done]. apply (extends_insert m j c c' k Hc).
    + intros Hi. rewrite re_initialize_id in Hr by done. by injection Hr as <- _.
    + intros w. change c' with (c', k).1. rewrite <- Hr. apply re_initialize_tasks.
  - destruct (new_ctx fd (kern m)) as [c k] eqn:Hn. cbn [ctxs kern]. rewrite lookup_insert_eq.
    destruct (re_initialize c k) as [c' k'] eqn:Hr. intros [= <- <-]. cbn. rewrite lookup_insert_eq. split; [|done].
    assert (ctxs m !! fresh (dom (ctxs m)) = None) as Hf by (apply not_elem_of_dom, is_fresh).
    split; cbn; try done.
    + intros fd' j Hj. rewrite lookup_insert_ne; [done|]. intros <-. congruence.
    + intros fd' j [[_ <-]|[_ Hj]]%lookup_insert_Some; auto.
    + intros j Hj. do 2 (apply lookup_insert_is_Some'; right). done.
    + intros j d Hd _. rewrite !lookup_insert_ne; congruence.
    + intros j d Hd w. destruct (decide (j = fresh (dom (ctxs m)))) as [-> |Hne].
      * rewrite lookup_insert_eq in Hd. injection Hd as <-. rewrite Hf. cbn. unfold waiting. change c' with (c', k').1. rewrite <- Hr, re_initialize_tasks.
        change c with (c, k).1. rewrite <- Hn. apply new_ctx_tasks.
      * rewrite !lookup_insert_ne in Hd by done. by rewrite Hd.
Qed.

(** ** One event *)

Lemma woken_in ev c sid : sid ∈ woken ev c ↔ ∃ w, wakes ev w = true ∧ sid ∈ sids (tasks_of w c).
Proof.
  unfold woken. rewrite !elem_of_union. split.
  - intros [[H1|H1]|H1]; [exists SetI|exists SetO|exists SetIO]; (destruct (wakes ev _); [done|set_solver]).
  - intros ([] & Hw & Hs); rewrite Hw; auto.
Qed.

Lemma trigger_closed ev out (w : world (K:=K)) : closed_ (ctx_ (reactor_trigger sys_epoll_ctl ev out w).2) = closed_ (ctx_ w).
Proof.
  destruct w as [c ss k]. unfold reactor_trigger. destruct (closed_ c) eqn:Hc; [done|]. unfold trigger_task_list.
  destruct (has ev (Z.lnot _)), (has ev POLLIN), (has ev POLLOUT); cbn;
    match goal with |- context [del_events ?f ?e ?d ?k] => pose proof (proj2 (proj2 (del_events_tasks f e d k SetI))) as E; destruct (del_events f e d k) end; exact E.
Qed.

Definition alive (m : t K) (sid : nat) : Prop := is_Some (sents m !! sid).

(** What some events may do: sentries go from what waits to what is triggered. *)
Record shrinks (m m' : t K) (out out' : gset nat) : Prop := Shrinks {
  sh_triggered : triggered m' = triggered m;
  sh_alive : ∀ sid, alive m' sid ↔ alive m sid;
  sh_pairs : ∀ fd i, pairs m !! fd = Some i → pairs m' !! fd = Some i;
  sh_new : ∀ fd i, pairs m' !! fd = Some i → pairs m !! fd = Some i ∨ ctxs m !! i = None;
  sh_dom : ∀ i, is_Some (ctxs m !! i) → is_Some (ctxs m' !! i);
  sh_less : ∀ i c' w sid, ctxs m' !! i = Some c' → sid ∈ sids (waiting c' w) → ∃ c, ctxs m !! i = Some c ∧ sid ∈ sids (waiting c w);
  sh_keep : ∀ i c, ctxs m !! i = Some c → is_initialize_ c = true → closed c = false →
    ∃ c', ctxs m' !! i = Some c' ∧ is_initialize_ c' = true ∧ closed c' = false ∧
      ∀ w sid, sid ∈ sids (waiting c w) → alive m sid → sid ∈ sids (waiting c' w) ∨ sid ∈ out';
  sh_out : out ⊆ out';
}.

Lemma sids_empty : sids ∅ = ∅.
Proof. apply map_img_empty_L. Qed.

Lemma extends_shrinks m m' out : extends m m' → shrinks m m' out out.
Proof.
  intros [H1 Ht H2 H3 Hd H4 H5]. split; try done.
  - intros sid. unfold alive. by rewrite H1.
  - intros i c' w sid Hc Hs. rewrite (H5 i c' Hc w) in Hs. destruct (ctxs m !! i) as [c|]; [by eexists|]. cbn in Hs. rewrite sids_empty in Hs. set_solver.
  - intros i c Hc Hi Hcl. exists c. split_and!; auto.
Qed.

Lemma shrinks_trans m1 m2 m3 o1 o2 o3 : shrinks m1 m2 o1 o2 → shrinks m2 m3 o2 o3 → shrinks m1 m3 o1 o3.
Proof.
  intros [At A1 A2 A3 Ad A4 A5 A6] [Bt B1 B2 B3 Bd B4 B5 B6]. split; auto.
  - congruence.
  - intros sid. by rewrite B1.
  - intros fd i Hp. destruct (B3 fd i Hp) as [Hp'|Hn]; [auto|]. right. destruct (ctxs m1 !! i) as [c|] eqn:Hc; [|done].
    destruct (Ad i) as [c' Hc']; [by eexists|]. congruence.
  - intros i c3 w sid Hc Hs. destruct (B4 i c3 w sid Hc Hs) as (c2 & Hc2 & Hs2). by eapply A4.
  - intros i c Hc Hi Hcl. destruct (A5 i c Hc Hi Hcl) as (c2 & Hc2 & Hi2 & Hcl2 & Hk2). destruct (B5 i c2 Hc2 Hi2 Hcl2) as (c3 & Hc3 & Hi3 & Hcl3 & Hk3).
    exists c3. split_and!; [done..|]. intros w sid Hw Ha. destruct (Hk2 w sid Hw Ha) as [Hs|Hs]; [|by right; apply B6]. apply Hk3; [done|by apply A1].
  - set_solver.
Qed.

(** The reactor's part of an event: it gives the sentries that the event wakes. *)
Lemma reactor_shrinks i c ev m out out' m' : ctxs m !! i = Some c → on_reactor i c (reactor_trigger sys_epoll_ctl ev out) m = (out', m') →
  shrinks m m' out out' ∧ (∀ sid, sid ∈ out' → sid ∈ out ∨ alive m sid ∧ sid ∈ woken ev (rc c)) ∧
  (closed c = false → ∀ sid, alive m sid → sid ∈ woken ev (rc c) → sid ∈ out').
Proof.
  intros Hc E. unfold on_reactor in E. pose proof (trigger_closed ev out (World (rc c) (sents m) (kern m))) as Hcl'. cbn [ctx_] in Hcl'.
  destruct (reactor_trigger sys_epoll_ctl ev out (World (rc c) (sents m) (kern m))) as [o [c' ss' k']] eqn:Er. cbn in E, Hcl'. injection E as <- <-.
  destruct (closed c) eqn:Hcl.
  - unfold reactor_trigger in Er. unfold closed in Hcl. rewrite Hcl in Er. injection Er as <- <- <- <-. split_and!; [|by left|done].
    assert (with_rc (λ _, rc c) c = c) as -> by (by destruct c). apply extends_shrinks. by apply (extends_insert m i c c (kern m)).
  - destruct (reactor_trigger_wakes sys_epoll_ctl ev out (rc c) (sents m) (kern m) o c' ss' k' Hcl Er) as (Ho & Hm & Ht). split_and!; cbn.
    + split; cbn; auto.
      * intros sid. unfold alive. cbn. by apply (marked_some _ _ _ _ _ sid Hm).
      * intros j Hj. apply lookup_insert_is_Some'. auto.
      * intros j d w sid Hd Hs. destruct (decide (j = i)) as [-> |Hne]; [|rewrite lookup_insert_ne in Hd by done; by exists d].
        rewrite lookup_insert_eq in Hd. injection Hd as <-. exists c. split; [done|]. unfold waiting in *. cbn in Hs. rewrite Ht in Hs.
        destruct (wakes ev w); [rewrite sids_empty in Hs; set_solver|done].
      * intros j d Hd Hi Hcd. destruct (decide (j = i)) as [-> |Hne]; [|rewrite lookup_insert_ne by done; exists d; split_and!; auto].
        rewrite lookup_insert_eq. eexists. split; [done|]. rewrite Hc in Hd. injection Hd as <-. split_and!; [done|unfold closed; cbn; by rewrite Hcl'|].
        intros w sid Hw Ha. unfold waiting. cbn. rewrite Ht. destruct (wakes ev w) eqn:Hwk; [|by left]. right. apply Ho. right. split; [|done].
        apply woken_in. by exists w.
      * intros sid Hs. apply Ho. by left.
    + intros sid Hs. apply Ho in Hs as [Hs|[Hs Ha]]; auto.
    + intros _ sid Ha Hs. apply Ho. auto.
Qed.

(** ** All events *)

(** The event wakes the sentry: it waits, for what is reported, in the context of the descriptor. *)
Definition asks (P : fdctx → Prop) (m : t K) (e : Z * Z) (sid : nat) : Prop :=
  ∃ i c, 0 <= e.2 ∧ pairs m !! e.2 = Some i ∧ ctxs m !! i = Some c ∧ P c ∧ sid ∈ woken (EpollEvent2Poll e.1) (rc c).
Definition usable (c : fdctx) : Prop := is_initialize_ c = true ∧ closed c = false.

Lemma asks_before m m' o o' e sid : shrinks m m' o o' → asks (λ _, True) m' e sid → asks (λ _, True) m e sid.
Proof.
  intros S (i & c' & Hf & Hp & Hc & _ & (w & Hw & Hs)%woken_in). destruct (sh_less _ _ _ _ S i c' w sid Hc Hs) as (c & Hc' & Hs').
  exists i, c. split_and!; [done| |done|done|apply woken_in; by exists w]. destruct (sh_new _ _ _ _ S _ _ Hp); [done|congruence].
Qed.
Lemma asks_after m m' o o' e sid : shrinks m m' o o' → alive m sid → asks usable m e sid → asks usable m' e sid ∨ sid ∈ o'.
Proof.
  intros S Ha (i & c & Hf & Hp & Hc & [Hi Hcl] & (w & Hw & Hs)%woken_in). destruct (sh_keep _ _ _ _ S i c Hc Hi Hcl) as (c' & Hc' & Hi' & Hcl' & Hk).
  destruct (Hk w sid Hs Ha) as [Hs'|]; [|by right]. left. exists i, c'. split_and!; [done|by apply (sh_pairs _ _ _ _ S)|done|by split|apply woken_in; by exists w].
Qed.

Lemma get_fd_ctx_extends fd m o m' : get_fd_ctx fd m = (o, m') → extends m m' ∧
  match o with
  | Some (i, c) => 0 <= fd ∧ pairs m' !! fd = Some i ∧ ctxs m' !! i = Some c
  | None => ¬ ∃ i c, 0 <= fd ∧ pairs m !! fd = Some i ∧ ctxs m !! i = Some c ∧ is_initialize_ c = true
  end.
Proof.
  unfold get_fd_ctx. destruct (Z.ltb_spec fd 0) as [Hf|Hf]; [intros [= <- <-]; split; [apply extends_refl|intros (? & ? & ? & _); lia]|].
  destruct (get fd m) as [i m1] eqn:Hg. destruct (get_extends fd m i m1 Hg) as [He Hp].
  assert (∀ c, ctxs m1 !! i = Some c → is_initialize_ c = true ∨ ¬ ∃ i c, 0 <= fd ∧ pairs m !! fd = Some i ∧ ctxs m !! i = Some c ∧ is_initialize_ c = true) as Hno.
  { intros c Hc. destruct (is_initialize_ c) eqn:Hi; [by left|]. right. intros (j & d & _ & Hj & Hd & Hid).
    pose proof (ext_pairs _ _ He _ _ Hj). pose proof (ext_old _ _ He _ _ Hd Hid). congruence. }
  destruct (ctxs m1 !! i) as [c|] eqn:Hc.
  - destruct (is_initialize_ c) eqn:Hi; intros [= <- <-]; split; auto. destruct (Hno c eq_refl); [congruence|done].
  - intros [= <- <-]. split; [done|]. intros (j & d & _ & Hj & Hd & Hid). pose proof (ext_pairs _ _ He _ _ Hj). pose proof (ext_old _ _ He _ _ Hd Hid). congruence.
Qed.

Lemma trigger_events_spec evs : ∀ m out out' m', trigger_events evs out m = (out', m') → shrinks m m' out out' ∧
  (∀ sid, sid ∈ out' → sid ∈ out ∨ alive m sid ∧ ∃ e, e ∈ evs ∧ asks (λ _, True) m e sid) ∧
  (∀ e sid, e ∈ evs → alive m sid → asks usable m e sid → sid ∈ out').
Proof.
  induction evs as [|[ev fd] evs IH]; intros m out out' m' E.
  - injection E as <- <-. split_and!; [apply extends_shrinks, extends_refl|by left|]. intros e sid He. set_solver.
  - cbn [trigger_events] in E. destruct (get_fd_ctx fd m) as [o m1] eqn:Hg. apply get_fd_ctx_extends in Hg as [He Ho]. pose proof (extends_shrinks m m1 out He) as S1.
    assert (∃ out1 m2, trigger_events evs out1 m2 = (out', m') ∧ shrinks m m2 out out1 ∧
      (∀ sid, sid ∈ out1 → sid ∈ out ∨ alive m sid ∧ asks (λ _, True) m (ev, fd) sid) ∧
      (∀ sid, alive m sid → asks usable m (ev, fd) sid → sid ∈ out1)) as (out1 & m2 & E2 & S2 & Hs & Hc).
    { destruct o as [[i c]|].
      - destruct Ho as (Hf & Hp & Hc). destruct (on_reactor _ _ _ _) as [out1 m2] eqn:Er. apply reactor_shrinks in Er as (S & Hs & Hw); [|done].
        exists out1, m2. split; [done|]. split; [by eapply shrinks_trans|]. split.
        + intros sid Hin. destruct (Hs sid Hin) as [|[Ha Hwk]]; [by left|]. right. split; [by apply (sh_alive _ _ _ _ S1)|].
          eapply asks_before; [exact S1|]. by exists i, c.
        + intros sid Ha Hask. destruct (asks_after _ _ _ _ _ _ S1 Ha Hask) as [Hask'|]; [|by apply (sh_out _ _ _ _ S)].
          destruct Hask' as (j & d & _ & Hj & Hd & [_ Hcl] & Hwk). cbn in Hj, Hwk. rewrite Hp in Hj. injection Hj as <-. rewrite Hc in Hd. injection Hd as <-.
          apply (Hw Hcl); [by apply (sh_alive _ _ _ _ S1)|done].
      - exists out, m1. split_and!; [done|done|by left|]. intros sid _ (i & c & Hf & Hp & Hc & [Hi _] & _). destruct Ho. by exists i, c. }
    destruct (IH m2 out1 out' m' E2) as (S3 & Hs3 & Hc3). split_and!; [by eapply shrinks_trans| |].
    + intros sid Hin. destruct (Hs3 sid Hin) as [Hin1|(Ha & e & Hein & Hask)].
      * destruct (Hs sid Hin1) as [|[Ha Hask]]; [by left|]. right. split; [done|]. exists (ev, fd). split; [left|done].
      * right. split; [by apply (sh_alive _ _ _ _ S2)|]. exists e. split; [by right|]. by eapply asks_before.
    + intros e sid [-> |Hein]%elem_of_cons Ha Hask; [by apply (sh_out _ _ _ _ S3), Hc|].
      destruct (asks_after _ _ _ _ _ _ S2 Ha Hask) as [Hask'|]; [|by apply (sh_out _ _ _ _ S3)]. apply (Hc3 e sid Hein); [by apply (sh_alive _ _ _ _ S2)|done].
Qed.

(** ** A call of epoll_wait *)

(** epoll_wait is interrupted finitely often. *)
Variables (epfd size ms : Z) (left : K → nat).
Hypothesis interrupted : ∀ k n evs k', sys_epoll_wait epfd size ms k = ((n, evs), k') → n = -1 → errno k' = EINTR → (left k' < left k)%nat.

(** What has been reported: the events of the last call, or none where it failed. *)
Definition reported (n : Z) (evs : list (Z * Z)) : Prop :=
  (n = 0 ∧ evs = []) ∨ ∃ k k' evs', sys_epoll_wait epfd size ms k = ((n, evs'), k') ∧ n ≠ -1 ∧ evs = take (Z.to_nat n) evs'.

(** C22: what is reported wakes who waits for it.  The loop ends; the sentries that it triggers are living ones that wait for what is reported on
    their descriptor, and every one that waits for it in a context that can be used is among them. *)
Theorem WaitLoop_wakes m fuel : (left (kern m) < fuel)%nat →
  ∃ n evs m' T, WaitLoop fuel true epfd size ms m = Some (n, m') ∧ reported n evs ∧ triggered m' = T ∪ triggered m ∧
    (∀ sid, sid ∈ T → alive m sid ∧ ∃ e, e ∈ evs ∧ asks (λ _, True) m e sid) ∧
    (∀ e sid, e ∈ evs → alive m sid → asks usable m e sid → sid ∈ T).
Proof.
  revert m. induction fuel as [|fuel IH]; intros m Hl; [lia|]. cbn [WaitLoop negb].
  destruct (sys_epoll_wait epfd size ms (kern m)) as [[n evs] k] eqn:E. destruct (Z.eqb_spec n (-1)) as [Hn|Hn].
  - destruct (Z.eqb_spec (errno k) EINTR) as [He|He].
    + destruct (IH (with_kern k m)) as (n' & evs' & m' & T & E' & Hr & Ht & H1 & H2); [|by exists n', evs', m', T].
      pose proof (interrupted _ _ _ _ E Hn He). cbn. lia.
    + exists 0, [], (with_kern k m), ∅. split_and!; [done|by left| |set_solver|set_solver]. cbn. by rewrite union_empty_l_L.
  - destruct (trigger_events _ _ _) as [T m'] eqn:Et. apply trigger_events_spec in Et as Es. destruct Es as (S & H1 & H2).
    exists n, (take (Z.to_nat n) evs), (trigger T m'), T. split_and!; [done|right; by exists (kern m), k, evs| | |].
    + cbn. by rewrite (sh_triggered _ _ _ _ S).
    + intros sid Hs. destruct (H1 sid Hs) as [Hs'|Hs']; [set_solver|]. exact Hs'.
    + exact H2.
Qed.
End Kernel.

(** A coroutine reads from descriptor 5, another from 6; epoll_wait is interrupted and then reports 5. *)
Module Events.
#[local] Instance kernel : Kernel scripted := {|
  errno := s_errno; set_errno := upd_errno; sys_fstat := sys_fstat; sys_getfl := sys_getfl; sys_setfl := sys_setfl; sys_dupfd := sys_dupfd;
  sys_fcntl := sys_fcntl; sys_ioctl := sys_ioctl; sys_close := sys_close; sys_epoll_ctl := sys_epoll_ctl; sys_poll := sys_poll;
  sys_select := sys_select; sys_connect := sys_connect; sys_so_error := sys_so_error; sys_setsockopt := sys_setsockopt; sys_dup := sys_dup;
  sys_dup2 := sys_dup2; sys_dup3 := sys_dup3; now_ms := now_ms; sys_sleep := sys_sleep;
  sys_epoll_wait _ _ _ k := let '(n, k) := io_call k in ((n, if n <=? 0 then [] else [(EPOLLIN, 5)]), k);
|}.
Definition k0 : scripted := Scripted 0 {[5 := 0; 6 := 0]} [] {[5 := EPOLLIN; 6 := EPOLLIN]} [] [(-1, EINTR); (1, 0)] 0 [].
Definition reads (fd : Z) (tk sid : nat) : fdctx :=
  FdCtx (Ctx fd true false false POLLIN false false {[tk := sid]} ∅ ∅) true true false true false (Timeval 0 0) (Timeval 0 0).
Definition m0 : t scripted :=
  Mgr _ {[5 := 0%nat; 6 := 1%nat]} {[0%nat := reads 5 7 70; 1%nat := reads 6 8 80]}
    {[70%nat := IoSentry [Pollfd 5 POLLIN 0] 7; 80%nat := IoSentry [Pollfd 6 POLLIN 0] 8]} ∅ k0.

Lemma kernel_interrupted (k : scripted) n evs k' : sys_epoll_wait 3 10 20 k = ((n, evs), k') → n = -1 → errno k' = EINTR →
  (length (io_script k') < length (io_script k))%nat.
Proof. cbn. unfold io_call. destruct (io_script k) as [|[m e] rest] eqn:Hs; intros [= <- _ <-] Hn _; [done|]. cbn. lia. Qed.

Lemma WaitLoop_wakes_witness : ∃ n evs m' T, WaitLoop 3 true 3 10 20 m0 = Some (n, m') ∧ reported 3 10 20 n evs ∧ triggered m' = T ∪ triggered m0 ∧
  (∀ sid, sid ∈ T → alive m0 sid ∧ ∃ e, e ∈ evs ∧ asks (λ _, True) m0 e sid) ∧ (∀ e sid, e ∈ evs → alive m0 sid → asks usable m0 e sid → sid ∈ T).
Proof. apply (WaitLoop_wakes 3 10 20 (λ k, length (io_script k)) kernel_interrupted m0 3). vm_compute. lia. Defined.

Example the_reader : (λ p, (p.1, elements (triggered p.2))) <$> WaitLoop 3 true 3 10 20 m0 = Some (1, [70%nat]).
Proof. vm_compute. reflexivity. Qed.
End Events.
End EventLoop.
