(* ===== verification/Hook.v ===== *)
(** * The hooked system calls (libgo/linux/linux_glibc_hook.cpp)

    Inside a coroutine a blocking call becomes a non-blocking one and, when it would block, a wait
    in the reactor that suspends the coroutine only.  A hook is a function of the descriptor table,
    the sentries and the kernel; [tk] is the running coroutine ([None] on a plain thread, where
    every hook is the original call).  What the rest of the program does while the coroutine is
    suspended is a parameter, [Runtime]. *)
From S2P Require Import Prelude FdContext Kernel FdManager.
Import Reactor FdManager.

#[local] Open Scope Z_scope.

(** [CoSwitch] after the sentry has been set up, with the time-out of its timer, if any: the state
    when the coroutine runs again.  [SleepSwitch]: the same for a sleep. *)
Class Runtime (K : Type) := {
  suspend : nat → option Z → FdManager.t K → FdManager.t K;
  sleep_switch : Z → FdManager.t K → FdManager.t K;
}.

(** While a coroutine waits its sentry stays, watching the same descriptors. *)
Definition watched (s : sentry) : list (Z * Z) := map (λ p, (fd p, events p)) (watch_fds_ s).
Class RuntimeLaws (K : Type) `{Runtime K} := {
  suspend_sentry sid timer (m : FdManager.t K) s : sents m !! sid = Some s →
    ∃ s', sents (suspend sid timer m) !! sid = Some s' ∧ watched s' = watched s;
}.

Module Hook.

Definition int32 (x : Z) : Z := (x + 2 ^ 31) mod 2 ^ 32 - 2 ^ 31.
Definition revents_0 (p : pollfd) : pollfd := Pollfd (fd p) (events p) 0.

Section Hooks.
Context {K : Type} `{Kernel K} `{Runtime K}.
Abbreviation state := (FdManager.t K).

Definition sys {A} (f : K → A * K) (m : state) : A * state := let '(a, k) := f (kern m) in (a, with_kern k m).
Definition fail (e : Z) (m : state) : Z * state := (-1, with_kern (set_errno e (kern m)) m).
Definition on_ctx (i : nat) (f : fdctx → fdctx) (m : state) : state := with_ctxs (alter f i) m.

(** [!fd_ctx || fd_ctx->closed()] after looking the descriptor up. *)
Definition open_ctx (fd : Z) (m : state) : option (nat * fdctx) * state :=
  match get_fd_ctx fd m with
  | (Some (i, c), m) => (if closed c then None else Some (i, c), m)
  | (None, m) => (None, m)
  end.

(** ** poll *)
Definition set_watch (sid i : nat) (rev : Z) (m : state) : state :=
  Mgr _ (pairs m) (ctxs m)
    (alter (λ s, IoSentry (alter (λ p, Pollfd (fd p) (events p) rev) i (watch_fds_ s)) (task_ptr_ s)) sid (FdManager.sents m))
    (triggered m) (kern m).

(** The loop over the descriptors: whether some wait was [added], and whether it [triggered] at
    once. *)
(*@ libgo/libgo/linux/linux_glibc_hook.cpp 131-156 libgo_poll *)
Fixpoint add_fds (sid i : nat) (l : list pollfd) (added triggered : bool) (m : state) : bool * bool * state :=
  match l with
  | [] => (added, triggered, m)
  | p :: l =>
      if fd p <? 0 then add_fds sid (S i) l added triggered m
      else match open_ctx (fd p) m with
           | (None, m) => add_fds sid (S i) l added triggered (set_watch sid i POLLNVAL m)
           | (Some (ci, c), m) =>
               match ctx_add_into_reactor ci c (events p) sid m with
               | (failed, m) => add_fds sid (S i) l added triggered (set_watch sid i POLLNVAL m)
               | (complete, m) => add_fds sid (S i) l true true m
               | (progress, m) => add_fds sid (S i) l true triggered m
               end
           end
  end.

Definition new_sentry (tk : nat) (fds : list pollfd) (m : state) : nat * state :=
  let sid := fresh (dom (FdManager.sents m)) in
  (sid, Mgr _ (pairs m) (ctxs m) (<[sid := IoSentry (map revents_0 fds) tk]> (FdManager.sents m)) (triggered m) (kern m)).

Definition result_fds (sid : nat) (fds : list pollfd) (m : state) : list pollfd :=
  match FdManager.sents m !! sid with
  | Some s => zip_with (λ p q, Pollfd (fd p) (events p) (revents q)) fds (watch_fds_ s)
  | None => fds
  end.

(** [errno = 0] on a normal return; the sentry's last reference is the frame's. *)
Definition leave_poll (sid : nat) (m : state) : state :=
  destroy_sentry sid (with_kern (set_errno 0 (kern m)) m).

(*@ libgo/libgo/linux/linux_glibc_hook.cpp 127-197 libgo_poll *)
Definition poll_wait (tk : nat) (fds : list pollfd) (timeout : Z) (m : state) : (Z * list pollfd) * state :=
  let '(sid, m) := new_sentry tk fds m in
  let '(added, now, m) := add_fds sid 0 (map revents_0 fds) false false m in
  let fds := map revents_0 fds in
  if negb added then ((Z.of_nat (length fds), fds), leave_poll sid m)
  else
    let m := if now then m else suspend sid (if 0 <? timeout then Some timeout else None) m in
    let fds := result_fds sid fds m in
    ((Z.of_nat (length (filter (λ p, revents p ≠ 0) fds)), fds), leave_poll sid m).

Definition SleepSwitch (timeout : Z) (m : state) : state := sleep_switch timeout m.

(*@ libgo/libgo/linux/linux_glibc_hook.cpp 88-197 libgo_poll *)
Definition libgo_poll (tk : option nat) (fds : list pollfd) (timeout : Z) (nonblocking_check : bool) (m : state)
  : (Z * list pollfd) * state :=
  match tk with
  | None => sys (sys_poll fds timeout) m
  | Some tk =>
      if timeout =? 0 then sys (sys_poll fds timeout) m
      else if bool_decide (Forall (λ p, fd p < 0) fds) then ((0, fds), SleepSwitch timeout m)
      else if nonblocking_check then
        let '((res, fds), m) := sys (sys_poll fds 0) m in
        if negb (res =? 0) then ((res, fds), m) else poll_wait tk fds timeout m
      else poll_wait tk fds timeout m
  end.

(*@ libgo/libgo/linux/linux_glibc_hook.cpp 744-747 poll *)
Definition poll (tk : option nat) (fds : list pollfd) (timeout : Z) (m : state) : (Z * list pollfd) * state :=
  libgo_poll tk fds timeout true m.

(** ** read, write and their variants *)
(** The labels of the function's gotos. *)
Inductive label := retry | eintr (poll_timeout : Z) | retry_intr_fn.

Definition set_ready_flag (event : Z) (b : bool) (i : nat) (m : state) : state :=
  if event =? POLLIN then on_ctx i (set_readable b) m else on_ctx i (set_writable b) m.

Definition not_ready (event : Z) (i : nat) (m : state) : bool :=
  match ctxs m !! i with
  | Some c => ((event =? POLLIN) && negb (readable c)) || ((event =? POLLOUT) && negb (writable c))
  | None => false
  end.

(** From a label to the return; [None] when the fuel runs out. *)
(*@ libgo/libgo/linux/linux_glibc_hook.cpp 498-581 read_write_mode *)
Fixpoint rw_loop (fuel : nat) (tk : nat) (fd : Z) (i : nat) (fn : K → Z * K) (event timeout_ms start buflen : Z)
    (l : label) (m : state) : option (Z * state) :=
  match fuel with
  | O => None
  | S fuel =>
    let goto := rw_loop fuel tk fd i fn event timeout_ms start buflen in
    match l with
    | retry =>
        if not_ready event i m then
          if timeout_ms =? 0 then goto (eintr (-1)) m
          else
            let expired := int32 (now_ms (kern m) - start) in
            if timeout_ms <? expired then Some (fail EAGAIN m)
            else goto (eintr (timeout_ms - expired)) m
        else goto retry_intr_fn m
    | eintr poll_timeout =>
        let '((triggers, fds), m) := libgo_poll (Some tk) [Pollfd fd event 0] poll_timeout false m in
        if triggers =? -1 then
          if errno (kern m) =? EINTR then goto (eintr poll_timeout) m else Some (-1, m)
        else if triggers =? 0 then Some (fail EAGAIN m)
        else
          let revents := match fds with p :: _ => revents p | [] => 0 end in
          let m := if (triggers =? 1) && (event =? POLLIN) && has revents POLLIN then on_ctx i (set_readable true) m else m in
          let m := if (triggers =? 1) && (event =? POLLOUT) && has revents POLLOUT then on_ctx i (set_writable true) m else m in
          goto retry_intr_fn m
    | retry_intr_fn =>
        let '(n, m) := sys fn m in
        if (n =? -1) && (errno (kern m) =? EAGAIN) then goto retry (set_ready_flag event false i m)
        else if (n =? -1) && (errno (kern m) =? EINTR) then goto retry_intr_fn m
        else if (0 <=? n) && (n <? buflen) then Some (n, set_ready_flag event false i m)
        else Some (n, m)
    end
  end.

(*@ libgo/libgo/linux/linux_glibc_hook.cpp 468-498 read_write_mode *)
Definition read_write_mode (fuel : nat) (tk : option nat) (fd : Z) (fn : K → Z * K) (event timeout_so buflen : Z) (m : state)
  : option (Z * state) :=
  match tk with
  | None => Some (sys fn m)
  | Some tk =>
      match open_ctx fd m with
      | (None, m) => Some (fail EBADF m)
      | (Some (i, c), m) =>
          if negb (is_socket_ c) then Some (sys fn m)
          else if user_nonblock_ c then Some (sys fn m)
          else
            let tv := get_time_o timeout_so c in
            let timeout_ms := int32 (tv_sec tv * 1000 + Z.quot (tv_usec tv) 1000) in
            let start := if timeout_ms =? 0 then 0 else now_ms (kern m) in
            rw_loop fuel tk fd i fn event timeout_ms start buflen retry m
      end
  end.

(** The calls: the original function applied to its arguments is [fn]; the length is converted to
    [ssize_t]. *)
Definition ssize (n : Z) : Z := (n + 2 ^ 63) mod 2 ^ 64 - 2 ^ 63.
Definition iov_total (iov : list Z) : Z := foldl (λ a l, u64 (a + l)) 0 iov.

(*@ libgo/libgo/linux/linux_glibc_hook.cpp 662-666 accept *)
Definition accept fuel tk fd fn := read_write_mode fuel tk fd fn POLLIN SO_RCVTIMEO 0.
(*@ libgo/libgo/linux/linux_glibc_hook.cpp 668-672 read *)
Definition read fuel tk fd fn (count : Z) := read_write_mode fuel tk fd fn POLLIN SO_RCVTIMEO (ssize count).
(*@ libgo/libgo/linux/linux_glibc_hook.cpp 674-681 readv *)
Definition readv fuel tk fd fn (iov : list Z) := read_write_mode fuel tk fd fn POLLIN SO_RCVTIMEO (ssize (iov_total iov)).
(*@ libgo/libgo/linux/linux_glibc_hook.cpp 683-687 recv *)
Definition recv fuel tk fd fn (len : Z) := read_write_mode fuel tk fd fn POLLIN SO_RCVTIMEO (ssize len).
(*@ libgo/libgo/linux/linux_glibc_hook.cpp 689-695 recvfrom *)
Definition recvfrom fuel tk fd fn (len : Z) := read_write_mode fuel tk fd fn POLLIN SO_RCVTIMEO (ssize len).
(*@ libgo/libgo/linux/linux_glibc_hook.cpp 697-704 recvmsg *)
Definition recvmsg fuel tk fd fn (iov : list Z) := read_write_mode fuel tk fd fn POLLIN SO_RCVTIMEO (ssize (iov_total iov)).
(*@ libgo/libgo/linux/linux_glibc_hook.cpp 706-710 write *)
Definition write fuel tk fd fn (count : Z) := read_write_mode fuel tk fd fn POLLOUT SO_SNDTIMEO (ssize count).
(*@ libgo/libgo/linux/linux_glibc_hook.cpp 712-719 writev *)
Definition writev fuel tk fd fn (iov : list Z) := read_write_mode fuel tk fd fn POLLOUT SO_SNDTIMEO (ssize (iov_total iov)).
(*@ libgo/libgo/linux/linux_glibc_hook.cpp 721-725 send *)
Definition send fuel tk fd fn (len : Z) := read_write_mode fuel tk fd fn POLLOUT SO_SNDTIMEO (ssize len).
(*@ libgo/libgo/linux/linux_glibc_hook.cpp 727-733 sendto *)
Definition sendto fuel tk fd fn (len : Z) := read_write_mode fuel tk fd fn POLLOUT SO_SNDTIMEO (ssize len).
(*@ libgo/libgo/linux/linux_glibc_hook.cpp 735-742 sendmsg *)
Definition sendmsg fuel tk fd fn (iov : list Z) := read_write_mode fuel tk fd fn POLLOUT SO_SNDTIMEO (ssize (iov_total iov)).

(** ** connect *)
(** [revents] is the uninitialised field of the [pollfd]. *)
(*@ libgo/libgo/linux/linux_glibc_hook.cpp 612-660 connect *)
Definition connect (tk : option nat) (fd s_connect_timeout revents : Z) (m : state) : Z * state :=
  match tk with
  | None => sys (sys_connect fd) m
  | Some _ =>
      match open_ctx fd m with
      | (None, m) => fail EBADF m
      | (Some (i, c), m) =>
          if user_nonblock_ c then sys (sys_connect fd) m
          else
            let '(n, m) := sys (sys_connect fd) m in
            if n =? 0 then (0, m)
            else if negb (n =? -1) || negb (errno (kern m) =? EINPROGRESS) then (n, m)
            else
              let '((poll_res, fds), m) := poll tk [Pollfd fd POLLOUT revents] s_connect_timeout m in
              let revents := match fds with p :: _ => Reactor.revents p | [] => revents end in
              if (poll_res <=? 0) || negb (revents =? POLLOUT) then fail ETIMEDOUT m
              else
                let '((res, error), m) := sys (sys_so_error fd) m in
                if res =? -1 then (-1, m)
                else if error =? 0 then (0, m)
                else fail error m
      end
  end.

(** ** select *)
Definition FD_SETSIZE : Z := 1024.
Definition mem (fd : Z) (s : option fd_set) : bool := match s with Some s => bool_decide (fd ∈ s) | None => false end.

(** The events asked for on a descriptor; [exceptfds] asks for none. *)
Definition asked (r w e : option fd_set) (fd : Z) : option Z :=
  if mem fd r || mem fd w || mem fd e
  then Some (Z.lor (if mem fd r then POLLIN else 0) (if mem fd w then POLLOUT else 0))
  else None.

(** The map from descriptors to events, in order. *)
(*@ libgo/libgo/linux/linux_glibc_hook.cpp 797-823 select *)
Definition select_fds (nfds : Z) (r w e : option fd_set) : list pollfd :=
  omap (λ fd, (λ ev, Pollfd fd ev 0) <$> asked r w e fd) (seqZ 0 nfds).

Definition set_if (b : bool) (fd : Z) (s : option fd_set) : option fd_set * Z :=
  match s with Some s => if b then (Some ({[fd]} ∪ s), 1) else (Some s, 0) | None => (None, 0) end.

(*@ libgo/libgo/linux/linux_glibc_hook.cpp 835-861 select *)
Definition select_result (pfds : list pollfd) (r w e : option fd_set) : Z * (option fd_set * option fd_set * option fd_set) :=
  foldl (λ '(ret, (r, w, e)) p,
    let '(r, a) := set_if (has (events p) POLLIN) (fd p) r in
    let '(w, b) := set_if (has (events p) POLLOUT) (fd p) w in
    let '(e, c) := set_if (has (events p) (Z.lnot (Z.lor POLLIN POLLOUT))) (fd p) e in
    (ret + a + b + c, (r, w, e))) (0, (r, w, e)) pfds.

Definition cleared (s : option fd_set) : option fd_set := (λ _, ∅) <$> s.

(*@ libgo/libgo/linux/linux_glibc_hook.cpp 749-862 select *)
Definition select (tk : option nat) (nfds : Z) (r w e : option fd_set) (timeout : option timeval) (m : state)
  : (Z * (option fd_set * option fd_set * option fd_set)) * state :=
  let timeout_ms := match timeout with
                    | Some tv => int32 (tv_sec tv * 1000 + Z.quot (tv_usec tv) 1000)
                    | None => -1
                    end in
  match tk with
  | None => sys (sys_select nfds r w e timeout_ms) m
  | Some _ =>
      if timeout_ms =? 0 then sys (sys_select nfds r w e timeout_ms) m
      else if nfds =? 0 then ((0, (r, w, e)), SleepSwitch timeout_ms m)
      else
        let nfds := Z.min nfds FD_SETSIZE in
        let '((n, (rfs, wfs, efs)), m) := sys (sys_select nfds r w e 0) m in
        if negb (n =? 0) then ((n, (rfs, wfs, efs)), m)
        else
          let pfds := select_fds nfds r w e in
          let '((n, pfds), m) := poll tk pfds timeout_ms m in
          if n <=? 0 then ((n, (cleared r, cleared w, cleared e)), m)
          else (select_result pfds (cleared r) (cleared w) (cleared e), m)
  end.

(** ** sleep, usleep, nanosleep *)
(*@ libgo/libgo/linux/linux_glibc_hook.cpp 864-879 sleep *)
Definition sleep (tk : option nat) (seconds : Z) (m : state) : Z * state :=
  match tk with
  | None => sys (sys_sleep (seconds * 10 ^ 9)) m
  | Some _ => (0, SleepSwitch (int32 (u32 (seconds * 1000))) m)
  end.

(*@ libgo/libgo/linux/linux_glibc_hook.cpp 881-897 usleep *)
Definition usleep (tk : option nat) (usec : Z) (m : state) : Z * state :=
  match tk with
  | None => sys (sys_sleep (usec * 1000)) m
  | Some _ => (0, SleepSwitch (int32 (usec / 1000)) m)
  end.

(*@ libgo/libgo/linux/linux_glibc_hook.cpp 899-914 nanosleep *)
Definition nanosleep (tk : option nat) (tv_sec tv_nsec : Z) (m : state) : Z * state :=
  match tk with
  | None => sys (sys_sleep (tv_sec * 10 ^ 9 + tv_nsec)) m
  | Some _ => (0, SleepSwitch (int32 (tv_sec * 1000 + Z.quot tv_nsec 1000000)) m)
  end.

(** ** Descriptors and their flags *)
(*@ libgo/libgo/linux/linux_glibc_hook.cpp 916-920 close *)
Definition close (fd : Z) (m : state) : Z * state := FdManager.close fd true m.

(*@ libgo/libgo/linux/linux_glibc_hook.cpp 1128-1132 fclose *)
Definition fclose (fd : Z) (m : state) : Z * state := FdManager.fclose fd m.

Definition F_DUPFD : Z := 0.
Definition F_GETFL : Z := 3.
Definition F_SETFL : Z := 4.
Definition F_DUPFD_CLOEXEC : Z := 1030.

(** The commands that are passed on with their argument, an integer or a pointer, or without one,
    are the call of the C library. *)
(*@ libgo/libgo/linux/linux_glibc_hook.cpp 922-1026 fcntl *)
Definition fcntl (fd cmd arg : Z) (m : state) : Z * state :=
  if (cmd =? F_DUPFD) || (cmd =? F_DUPFD_CLOEXEC) then
    let '(newfd, m) := sys (sys_dupfd fd arg) m in
    if newfd <? 0 then (newfd, m) else (newfd, snd (FdManager.dup fd newfd m))
  else if cmd =? F_SETFL then
    match open_ctx fd m with
    | (None, m) => sys (sys_setfl fd arg) m
    | (Some (i, c), m) =>
        if negb (is_socket_ c) then sys (sys_setfl fd arg) m
        else
          let m := on_ctx i (set_user_nonblock (has arg O_NONBLOCK)) m in
          sys (sys_setfl fd (if sys_nonblock_ c then Z.lor arg O_NONBLOCK else Z.land arg (Z.lnot O_NONBLOCK))) m
    end
  else if cmd =? F_GETFL then
    let flags := sys_getfl fd (kern m) in
    match open_ctx fd m with
    | (None, m) => (flags, m)
    | (Some (i, c), m) =>
        if negb (is_socket_ c) then (flags, m)
        else (if user_nonblock_ c then Z.lor flags O_NONBLOCK else Z.land flags (Z.lnot O_NONBLOCK), m)
    end
  else sys (sys_fcntl fd cmd arg) m.

Definition FIONBIO : Z := 0x5421.

(** [arg] is the integer the argument points to. *)
(*@ libgo/libgo/linux/linux_glibc_hook.cpp 1028-1048 ioctl *)
Definition ioctl (fd request arg : Z) (m : state) : Z * state :=
  if request =? FIONBIO then
    match open_ctx fd m with
    | (None, m) => sys (sys_ioctl fd request arg) m
    | (Some (i, c), m) =>
        if negb (is_socket_ c) then sys (sys_ioctl fd request arg) m
        else (0, on_ctx i (set_user_nonblock (negb (arg =? 0))) m)
    end
  else sys (sys_ioctl fd request arg) m.

Definition SOL_SOCKET : Z := 1.

(*@ libgo/libgo/linux/linux_glibc_hook.cpp 1055-1069 setsockopt *)
Definition setsockopt (sockfd level optname : Z) (optval : timeval) (m : state) : Z * state :=
  let m := if (level =? SOL_SOCKET) && ((optname =? SO_RCVTIMEO) || (optname =? SO_SNDTIMEO))
           then match get_fd_ctx sockfd m with
                | (Some (i, _), m) => on_ctx i (set_time_o optname optval) m
                | (None, m) => m
                end
           else m in
  sys (sys_setsockopt sockfd level optname) m.

(*@ libgo/libgo/linux/linux_glibc_hook.cpp 1071-1084 dup *)
Definition dup (oldfd : Z) (m : state) : Z * state :=
  let '(newfd, m) := sys (sys_dup oldfd) m in
  if newfd <? 0 then (newfd, m) else (newfd, snd (FdManager.dup oldfd newfd m)).

(** dup2 and dup3 around the call of the C library. *)
Definition dup_onto (call : K → Z * K) (oldfd newfd : Z) (m : state) : Z * state :=
  if (newfd <? 0) || (oldfd <? 0) || (oldfd =? newfd) then sys call m
  else
    let '(ret, m) := sys call m in
    if ret <? 0 then (ret, m)
    else
      let m := snd (FdManager.close newfd false m) in
      (ret, snd (FdManager.dup oldfd newfd m)).

(*@ libgo/libgo/linux/linux_glibc_hook.cpp 1086-1103 dup2 *)
Definition dup2 (oldfd newfd : Z) (m : state) : Z * state := dup_onto (sys_dup2 oldfd newfd) oldfd newfd m.

(*@ libgo/libgo/linux/linux_glibc_hook.cpp 1105-1126 dup3 *)
Definition dup3 (oldfd newfd flags : Z) (m : state) : Z * state :=
  match sys_dup3 with
  | None => fail EPERM m
  | Some dup3_f => dup_onto (dup3_f oldfd newfd flags) oldfd newfd m
  end.

(** ** libgo's own calls *)
(*@ libgo/libgo/linux/linux_glibc_hook.cpp 39-65 libgo_epoll_wait *)
Definition libgo_epoll_wait (tk : option nat) (epfd maxevents timeout : Z) (m : state) : (Z * list (Z * Z)) * state :=
  match tk with
  | None => sys (sys_epoll_wait epfd maxevents timeout) m
  | Some _ =>
      let '((res, evs), m) := sys (sys_epoll_wait epfd maxevents 0) m in
      if negb (res =? 0) then ((res, evs), m)
      else match open_ctx epfd m with
           | (None, m) => let '(r, m) := fail EINVAL m in ((r, evs), m)
           | (Some (i, c), m) =>
               let m := on_ctx i set_is_epoll m in
               let '((res, _), m) := poll tk [Pollfd epfd (Z.lor POLLIN POLLOUT) 0] timeout m in
               if res <=? 0 then ((res, evs), m) else sys (sys_epoll_wait epfd maxevents 0) m
           end
  end.

(*@ libgo/libgo/linux/linux_glibc_hook.cpp 67-72 set_et_mode *)
Definition set_et_mode (fd : Z) (m : state) : state :=
  match open_ctx fd m with
  | (None, m) => m
  | (Some (i, c), m) =>
      snd (on_reactor i c (λ w, let '(r, k) := Reactor.set_et_mode sys_epoll_ctl (ctx_ w) (Reactor.kern w) in
                                (tt, World r (Reactor.sents w) k)) m)
  end.

(*@ libgo/libgo/linux/linux_glibc_hook.cpp 74-79 reset_readable *)
Definition reset_readable (fd : Z) (m : state) : state :=
  match open_ctx fd m with (None, m) => m | (Some (i, _), m) => on_ctx i (set_readable false) m end.
(*@ libgo/libgo/linux/linux_glibc_hook.cpp 81-86 reset_writable *)
Definition reset_writable (fd : Z) (m : state) : state :=
  match open_ctx fd m with (None, m) => m | (Some (i, _), m) => on_ctx i (set_writable false) m end.

End Hooks.
End Hook.
