(* ===== verification/HookSpec.v ===== *)
(** * What the hooks promise (properties of Hook.v)

    The nonblocking flag the program sees against the one the kernel has; the contract of poll; the
    answers of select; the outcome and the termination of the blocking calls; what dup2 and connect
    do. *)
From S2P Require Import Prelude FdContext FdContextSpec Kernel FdManager Hook.
Import Reactor FdManager Hook.

#[local] Open Scope Z_scope.

Module HookSpec.

Section Laws.
Context {K : Type} `{Kernel K} `{!KernelLaws K} `{Runtime K} `{!RuntimeLaws K}.
Abbreviation state := (FdManager.t K).

(** ** Flags *)
Lemma has_nonblock a : has a O_NONBLOCK = Z.testbit a 11.
Proof. apply ReactorSpec.has_bit. lia. Qed.
Lemma has_lor a : has (Z.lor a O_NONBLOCK) O_NONBLOCK = true.
Proof. rewrite has_nonblock, Z.lor_spec. unfold O_NONBLOCK. by rewrite Z.pow2_bits_true, orb_true_r. Qed.
Lemma has_clear a : has (Z.land a (Z.lnot O_NONBLOCK)) O_NONBLOCK = false.
Proof.
  rewrite has_nonblock, Z.land_spec, Z.lnot_spec by lia. unfold O_NONBLOCK. by rewrite Z.pow2_bits_true, andb_false_r.
Qed.

Lemma open_ctx_old fd i c (m : state) : 0 <= fd → pairs m !! fd = Some i → ctxs m !! i = Some c → is_initialize_ c = true →
  closed c = false → open_ctx fd m = (Some (i, c), m).
Proof. intros Hf Hp Hc Hi Hcl. unfold open_ctx. by rewrite (get_fd_ctx_old fd i c m Hf Hp Hc Hi), Hcl. Qed.

(** C24: O_NONBLOCK is virtualised.  For a socket the manager knows, whatever flags the program sets
    with fcntl(F_SETFL), the descriptor stays non-blocking in the kernel, and fcntl(F_GETFL) reports
    O_NONBLOCK exactly when the program asked for it; the same holds after ioctl(FIONBIO), which does
    not reach the kernel at all. *)
Theorem nonblock_virtualised fd i c flags arg (m : state) :
  0 <= fd → pairs m !! fd = Some i → ctxs m !! i = Some c → is_initialize_ c = true → is_socket_ c = true →
  sys_nonblock_ c = true → closed c = false →
  (∀ fl, (sys_setfl fd fl (kern m)).1 = 0) →
  (let m1 := snd (fcntl fd F_SETFL flags m) in
   has (sys_getfl fd (kern m1)) O_NONBLOCK = true ∧
   ∃ v, fcntl fd F_GETFL 0 m1 = (v, m1) ∧ has v O_NONBLOCK = has flags O_NONBLOCK) ∧
  (let m1 := snd (ioctl fd FIONBIO arg m) in
   kern m1 = kern m ∧
   ∃ v, fcntl fd F_GETFL 0 m1 = (v, m1) ∧ has v O_NONBLOCK = negb (arg =? 0)).
Proof.
  intros Hf Hp Hc Hi Hs Hn Hcl Hset.
  assert (Hget : ∀ b k, let m1 := with_kern k (on_ctx i (set_user_nonblock b) m) in
            ∃ v, fcntl fd F_GETFL 0 m1 = (v, m1) ∧ has v O_NONBLOCK = b).
  { intros b k m1. assert (ctxs m1 !! i = Some (set_user_nonblock b c)) as Hc1.
    { subst m1. simpl. by rewrite lookup_alter_eq, Hc. }
    unfold fcntl. cbn [Z.eqb orb F_GETFL F_DUPFD F_DUPFD_CLOEXEC F_SETFL].
    pose proof (open_ctx_old fd i (set_user_nonblock b c) m1 Hf Hp Hc1 Hi Hcl) as Ho.
    change (3 =? F_DUPFD) with false. change (3 =? F_DUPFD_CLOEXEC) with false. change (3 =? F_SETFL) with false.
    change (3 =? 3) with true. cbn [orb]. rewrite Ho. simpl. rewrite Hs. simpl. eexists. split; [reflexivity|].
    destruct b; [apply has_lor|apply has_clear]. }
  split; cbn zeta.
  - unfold fcntl at 1 3 4. change (F_SETFL =? F_DUPFD) with false. change (F_SETFL =? F_DUPFD_CLOEXEC) with false.
    change (F_SETFL =? F_SETFL) with true. cbn [orb].
    rewrite (open_ctx_old fd i c m Hf Hp Hc Hi Hcl), Hs, Hn. cbn [negb].
    specialize (Hset (Z.lor flags O_NONBLOCK)). pose proof (getfl_setfl fd (Z.lor flags O_NONBLOCK) (kern m) Hset) as Hl.
    unfold sys. cbn [kern on_ctx with_ctxs]. destruct (sys_setfl fd _ (kern m)) as [r k]. simpl in Hl |- *.
    rewrite Hl, has_lor. split; [done|]. apply (Hget _ k).
  - unfold ioctl. rewrite Z.eqb_refl, (open_ctx_old fd i c m Hf Hp Hc Hi Hcl), Hs. cbn [negb]. simpl. split; [done|].
    apply (Hget _ (kern m)).
Qed.

(** ** poll *)
Lemma watched_mark fdn rev l : map (λ p, (fd p, events p)) (triggered_by_add fdn rev l) = map (λ p, (fd p, events p)) l.
Proof. induction l as [|p l IH]; simpl; [done|]. destruct (fd p =? fdn); simpl; [done|by rewrite IH]. Qed.

(** The sentries are the same but for the [revents]. *)
Definition same_watch (m m' : state) : Prop :=
  ∀ sid, watched <$> FdManager.sents m' !! sid = watched <$> FdManager.sents m !! sid.

Lemma same_watch_trans m1 m2 m3 : same_watch m1 m2 → same_watch m2 m3 → same_watch m1 m3.
Proof. intros H1 H2 sid. by rewrite H2. Qed.

Lemma same_sents m m' : FdManager.sents m' = FdManager.sents m → same_watch m m'.
Proof. intros E sid. by rewrite E. Qed.

Lemma get_sents fd (m : state) : FdManager.sents (snd (get fd m)) = FdManager.sents m.
Proof.
  unfold get. destruct (pairs m !! fd).
  - destruct (ctxs m !! n); [|done]. by destruct (re_initialize _ _).
  - destruct (new_ctx _ _). simpl. rewrite lookup_insert_eq. by destruct (re_initialize _ _).
Qed.

Lemma open_ctx_sents fd (m : state) o m' : open_ctx fd m = (o, m') → FdManager.sents m' = FdManager.sents m.
Proof.
  unfold open_ctx, get_fd_ctx. pose proof (get_sents fd m) as Hg. destruct (fd <? 0); [by intros [= <- <-]|].
  destruct (get fd m) as [i m1]. simpl in Hg. destruct (ctxs m1 !! i) as [c|]; [|by intros [= <- <-]].
  destruct (is_initialize_ c); by intros [= <- <-].
Qed.

Lemma add_watch i c ev sid (m : state) r m' : ctx_add_into_reactor i c ev sid m = (r, m') → same_watch m m'.
Proof.
  unfold ctx_add_into_reactor, on_reactor. intros E j.
  destruct (add_into_reactor _ _ _ _) as [r' [c1 ss k]] eqn:Ea. injection E as <- <-. simpl.
  unfold add_into_reactor in Ea. destruct (FdManager.sents m !! sid) as [s|] eqn:Hs; [|by injection Ea as <- <- <- <-].
  destruct (closed_ (rc c)); [by injection Ea as <- <- <- <-|].
  destruct (negb _); [injection Ea as <- <- <- <-|].
  - destruct (decide (j = sid)) as [->|]; [|by rewrite lookup_insert_ne]. rewrite lookup_insert_eq, Hs. simpl.
    f_equal. unfold watched. simpl. apply watched_mark.
  - destruct (has _ _); [|by injection Ea as <- <- <- <-]. destruct (reactor_ctl _ _ _ _ _ _) as [[] ?]; by injection Ea as <- <- <- <-.
Qed.

Lemma set_watch_same sid i rev (m : state) : same_watch m (set_watch sid i rev m).
Proof.
  intros j. simpl. destruct (decide (j = sid)) as [->|]; [|by rewrite lookup_alter_ne].
  rewrite lookup_alter_eq. destruct (FdManager.sents m !! sid) as [s|]; [|done]. simpl. f_equal. unfold watched. simpl.
  apply list_eq. intros x. rewrite !list_lookup_fmap. destruct (decide (x = i)) as [->|].
  - rewrite list_lookup_alter_eq. by destruct (watch_fds_ s !! i).
  - by rewrite list_lookup_alter_ne.
Qed.

Lemma add_fds_same sid i l a b (m : state) a' b' m' : add_fds sid i l a b m = (a', b', m') → same_watch m m'.
Proof.
  revert i a b m. induction l as [|p l IH]; intros i a b m; simpl; [by intros [= <- <- <-]|].
  destruct (fd p <? 0); [apply IH|]. destruct (open_ctx (fd p) m) as [[[ci c]|] m1] eqn:Eo;
    pose proof (same_sents _ _ (open_ctx_sents _ _ _ _ Eo)) as H1.
  - destruct (ctx_add_into_reactor ci c (events p) sid m1) as [r m2] eqn:Ea. pose proof (add_watch _ _ _ _ _ _ _ Ea) as H2.
    intros E. eapply same_watch_trans; [exact H1|]. eapply same_watch_trans; [exact H2|].
    destruct r; [|by eapply IH|by eapply IH]. eapply same_watch_trans; [|by eapply IH]. apply set_watch_same.
  - intros E. eapply same_watch_trans; [exact H1|]. eapply same_watch_trans; [|by eapply IH]. apply set_watch_same.
Qed.

Lemma del_sents i c ev tk (m : state) :
  FdManager.sents (snd (on_reactor i c (λ w, let '(r, k) := del_from_reactor sys_epoll_ctl ev tk (ctx_ w) (Reactor.kern w) in
                                      (tt, World r (Reactor.sents w) k)) m)) = FdManager.sents m.
Proof. unfold on_reactor. simpl. by destruct (del_from_reactor _ _ _ _ _). Qed.

Lemma destroy_sents sid (m : state) : FdManager.sents (destroy_sentry sid m) = delete sid (FdManager.sents m).
Proof.
  unfold destroy_sentry. destruct (FdManager.sents m !! sid) as [s|] eqn:Hs; [|by rewrite delete_id].
  simpl. f_equal. clear Hs. generalize (watch_fds_ s) as l. intros l. revert m.
  induction l as [|p l IH]; intros m; [done|]. cbn [foldl]. rewrite IH.
  unfold get_fd_ctx. pose proof (get_sents (fd p) m) as Hg. destruct (fd p <? 0); [done|]. destruct (get (fd p) m) as [i m1].
  simpl in Hg. rewrite <- Hg. destruct (ctxs m1 !! i) as [c|]; [|done]. destruct (is_initialize_ c); [|done].
  apply del_sents.
Qed.

Lemma revents_0_fds fds : map (λ p, (fd p, events p)) (map revents_0 fds) = map (λ p, (fd p, events p)) fds.
Proof. by rewrite map_map. Qed.

Lemma zip_fds l1 l2 : map (λ p, (fd p, events p)) l2 = map (λ p, (fd p, events p)) l1 →
  map (λ p, (fd p, events p)) (zip_with (λ p q, Pollfd (fd p) (events p) (revents q)) l1 l2) = map (λ p, (fd p, events p)) l1.
Proof. revert l2. induction l1 as [|p l1 IH]; intros [|q l2]; simpl; try done. intros [= _ _ E]. by rewrite IH. Qed.

Lemma poll_wait_core tk fds timeout (m : state) :
  let sid := fst (new_sentry tk fds m) in
  let added := fst (fst (add_fds sid 0 (map revents_0 fds) false false (snd (new_sentry tk fds m)))) in
  let '((n, fds'), m') := poll_wait tk fds timeout m in
  map (λ p, (fd p, events p)) fds' = map (λ p, (fd p, events p)) fds ∧
  FdManager.sents m' !! sid = None ∧
  (if added then n = Z.of_nat (length (filter (λ p, revents p ≠ 0) fds'))
   else n = Z.of_nat (length fds) ∧ Forall (λ p, revents p = 0) fds').
Proof.
  cbn zeta. unfold poll_wait. destruct (new_sentry tk fds m) as [sid' m1] eqn:En. cbn [fst snd].
  unfold new_sentry in En. injection En as Es Em.
  assert (Hs1 : FdManager.sents m1 = <[sid' := IoSentry (map revents_0 fds) tk]> (FdManager.sents m)) by (by rewrite <- Em, <- Es).
  destruct (add_fds sid' 0 (map revents_0 fds) false false m1) as [[a b] m2] eqn:Ea. cbn [fst snd].
  pose proof (add_fds_same _ _ _ _ _ _ _ _ _ Ea sid') as H2. rewrite Hs1, lookup_insert_eq in H2. simpl in H2.
  apply fmap_Some in H2 as (s & Hs & Hw). rewrite <- (revents_0_fds fds).
  assert (Hleave : ∀ m3, FdManager.sents (leave_poll sid' m3) !! sid' = None).
  { intros m3. unfold leave_poll. rewrite destroy_sents. apply lookup_delete_eq. }
  destruct a; simpl.
  - set (m3 := if b then m2 else _).
    assert (∃ s, FdManager.sents m3 !! sid' = Some s ∧ watched s = watched (IoSentry (map revents_0 fds) tk)) as (s' & Hs' & Hw').
    { subst m3. destruct b; [by exists s|].
      destruct (suspend_sentry sid' (if 0 <? timeout then Some timeout else None) m2 s Hs) as (s' & Hs' & E). exists s'. by rewrite E. }
    split; [|split; [apply Hleave|reflexivity]]. unfold result_fds. rewrite Hs', zip_fds; done.
  - split; [done|]. split; [apply Hleave|]. split; [by rewrite length_map|].
    apply Forall_map, Forall_true. intros p. done.
Qed.

(** What poll promises, for a call that waits in the reactor: it reports on the descriptors it
    was given, in order; unless none of them can be waited for, its result is the number of entries
    with something to report; and the sentry it made is gone again.  When none can be waited for it returns the number of descriptors, with
    nothing reported for any. *)
Theorem poll_wait_contract tk fds timeout (m : state) :
  let sid := fst (new_sentry tk fds m) in
  let added := fst (fst (add_fds sid 0 (map revents_0 fds) false false (snd (new_sentry tk fds m)))) in
  let '((n, fds'), m') := poll_wait tk fds timeout m in
  map (λ p, (fd p, events p)) fds' = map (λ p, (fd p, events p)) fds ∧
  FdManager.sents m' !! sid = None ∧
  (if added then n = Z.of_nat (length (filter (λ p, revents p ≠ 0) fds'))
   else n = Z.of_nat (length fds) ∧ Forall (λ p, revents p = 0) fds').
Proof. exact (poll_wait_core tk fds timeout m). Qed.

Lemma libgo_poll_fds tk fds timeout b (m : state) :
  map (λ p, (fd p, events p)) (libgo_poll tk fds timeout b m).1.2 = map (λ p, (fd p, events p)) fds.
Proof.
  assert (Hw : ∀ tk fds, map (λ p, (fd p, events p)) (poll_wait tk fds timeout m).1.2 = map (λ p, (fd p, events p)) fds).
  { intros tk' fds'. pose proof (poll_wait_core tk' fds' timeout m) as Hc. cbn zeta in Hc.
    destruct (poll_wait tk' fds' timeout m) as [[n r] m']. by destruct Hc. }
  assert (Hs : ∀ t, map (λ p, (fd p, events p)) (sys (sys_poll fds t) m).1.2 = map (λ p, (fd p, events p)) fds).
  { intros t. pose proof (poll_fds fds t (kern m)) as Hp. unfold sys. by destruct (sys_poll fds t (kern m)) as [[n r] k]. }
  unfold libgo_poll. destruct tk as [tk|]; [|apply Hs]. destruct (timeout =? 0); [apply Hs|].
  case_bool_decide; [done|]. destruct b; [|apply Hw]. specialize (Hs 0).
  destruct (sys (sys_poll fds 0) m) as [[res fds'] m'] eqn:E. simpl in Hs. destruct (negb _); [done|].
  pose proof (poll_wait_core tk fds' timeout m') as Hc. cbn zeta in Hc.
  destruct (poll_wait tk fds' timeout m') as [[n r] m'']. simpl. rewrite (proj1 Hc). done.
Qed.

(** ** select *)
Definition requested (l : list Z) (s : option fd_set) : list Z := match s with Some s => filter (.∈ s) l | None => [] end.
Definition marked_in (l : list Z) (s : option fd_set) : option fd_set := (λ _, list_to_set (requested l s)) <$> s.

Lemma select_result_ext p1 p2 r w e : map (λ p, (fd p, events p)) p1 = map (λ p, (fd p, events p)) p2 →
  select_result p1 r w e = select_result p2 r w e.
Proof.
  unfold select_result. generalize (0, (r, w, e)). revert p2. induction p1 as [|p p1 IH]; intros [|q p2] [ret [[r' w'] e']]; try done.
  simpl. intros [= Hf He E]. rewrite Hf, He. by apply IH.
Qed.

(** What one descriptor contributes. *)
Lemma asked_events r w e x : let ev := Z.lor (if mem x r then POLLIN else 0) (if mem x w then POLLOUT else 0) in
  has ev POLLIN = mem x r ∧ has ev POLLOUT = mem x w ∧ has ev (Z.lnot (Z.lor POLLIN POLLOUT)) = false ∧
  asked r w e x = (if mem x r || mem x w || mem x e then Some ev else None).
Proof. intros ev. unfold asked. fold ev. subst ev. destruct (mem x r), (mem x w); repeat split; reflexivity. Qed.

Lemma set_if_spec l x s :
  set_if (mem x s) x (marked_in l s) = (marked_in (l ++ [x]) s, if mem x s then 1 else 0) ∧
  Z.of_nat (length (requested (l ++ [x]) s)) = Z.of_nat (length (requested l s)) + (if mem x s then 1 else 0).
Proof.
  destruct s as [s|]; [|done]. unfold mem, marked_in, requested. simpl. rewrite filter_app, filter_cons, filter_nil.
  case_bool_decide as Hx; [rewrite decide_True by done|rewrite decide_False, app_nil_r by done].
  - split; [|rewrite length_app; simpl; lia]. f_equal. f_equal. rewrite list_to_set_app_L. simpl. set_solver.
  - split; [done|lia].
Qed.

Lemma requested_none x l s : mem x s = false → requested (l ++ [x]) s = requested l s.
Proof.
  destruct s as [s|]; [|done]. unfold mem, requested. case_bool_decide as Hx; [done|]. intros _.
  by rewrite filter_app, filter_cons, decide_False, filter_nil, app_nil_r.
Qed.

Lemma select_result_requested l r w e :
  select_result (omap (λ x, (λ ev, Pollfd x ev 0) <$> asked r w e x) l) (cleared r) (cleared w) (cleared e) =
    (Z.of_nat (length (requested l r)) + Z.of_nat (length (requested l w)), (marked_in l r, marked_in l w, cleared e)).
Proof.
  unfold select_result. induction l as [|x l IH] using rev_ind.
  - simpl. destruct r, w, e; done.
  - rewrite omap_app, foldl_app, IH. clear IH. destruct (asked_events r w e x) as (Hi & Ho & He & Ha).
    destruct (set_if_spec l x r) as [Hr Hrn], (set_if_spec l x w) as [Hw Hwn].
    cbn [omap list_omap]. rewrite Ha. set (ev := Z.lor _ _) in *.
    destruct (mem x r || mem x w || mem x e) eqn:Em; simpl.
    + rewrite Hi, Ho, He, Hr, Hw. assert (set_if false x (cleared e) = (cleared e, 0)) as -> by by destruct e.
      f_equal. lia.
    + apply orb_false_iff in Em as [[Em1 Em2]%orb_false_iff _]. unfold marked_in.
      by rewrite !(requested_none x l) by done.
Qed.

(** Select reports what was asked for, not what happened.  In a coroutine, once the first
    non-blocking look finds nothing and the wait in the reactor reports some descriptor, the sets
    returned hold every descriptor that was asked for in the read and write sets, ready or not, the
    result is their number, and the except set is empty. *)
Theorem select_reports_requests tk nfds r w e timeout (m : state) sets k n pfds m2 :
  0 < nfds → let nfds' := Z.min nfds FD_SETSIZE in
  let timeout_ms := match timeout with Some tv => int32 (tv_sec tv * 1000 + Z.quot (tv_usec tv) 1000) | None => -1 end in
  timeout_ms ≠ 0 →
  sys_select nfds' r w e 0 (kern m) = ((0, sets), k) →
  poll (Some tk) (select_fds nfds' r w e) timeout_ms (with_kern k m) = ((n, pfds), m2) → 0 < n →
  select (Some tk) nfds r w e timeout m =
    ((Z.of_nat (length (requested (seqZ 0 nfds') r)) + Z.of_nat (length (requested (seqZ 0 nfds') w)),
      (marked_in (seqZ 0 nfds') r, marked_in (seqZ 0 nfds') w, cleared e)), m2).
Proof.
  intros Hn nfds' timeout_ms Ht Hs Hp Hpos. unfold select. fold timeout_ms.
  rewrite (proj2 (Z.eqb_neq timeout_ms 0)), (proj2 (Z.eqb_neq nfds 0)) by lia. fold nfds'. unfold sys at 1. rewrite Hs.
  destruct sets as [[rfs wfs] efs]. cbn [Z.eqb negb]. rewrite Hp. rewrite (proj2 (Z.leb_gt n 0)) by done. f_equal.
  rewrite <- select_result_requested. apply select_result_ext.
  change pfds with (n, pfds).2. change (n, pfds) with ((n, pfds), m2).1. rewrite <- Hp. apply libgo_poll_fds.
Qed.

(** ** Blocking calls *)
Section ReadWrite.
Variables (tk : nat) (fd : Z) (i : nat) (fn : K → Z * K) (event timeout_ms start buflen : Z).
(** A measure of the interruptions still to come: a call of [fn] that fails with EAGAIN or EINTR, or
    a poll that fails with EINTR, uses one up; nothing else makes new ones. *)
Variable left : state → nat.

Definition transient (n : Z) (m : state) : Prop := n = -1 ∧ (errno (kern m) = EAGAIN ∨ errno (kern m) = EINTR).

Record finite_interruptions : Prop := {
  left_fn (m : state) n m1 : sys fn m = (n, m1) → transient n m1 → (left m1 < left m)%nat;
  left_flag (f : fdctx → fdctx) (m : state) : left (on_ctx i f m) = left m;
  left_poll t (m : state) n fds m1 : libgo_poll (Some tk) [Pollfd fd event 0] t false m = ((n, fds), m1) →
    (left m1 <= left m)%nat ∧ (n = -1 → errno (kern m1) = EINTR → (left m1 < left m)%nat) }.

(** How a blocking call may end: with an answer of [fn] that is not a transient failure; with EAGAIN
    because its time-out has passed or a wait ended with nothing to report; or with the failure of a
    poll. *)
Inductive outcome : Z → state → Prop :=
| answered (m : state) n m1 (f : bool) : sys fn m = (n, m1) → ¬ transient n m1 → outcome n (if f then set_ready_flag event false i m1 else m1)
| timed_out (m : state) : timeout_ms ≠ 0 → timeout_ms < int32 (now_ms (kern m) - start) → outcome (-1) (snd (fail EAGAIN m))
| nothing_reported t (m : state) fds m1 : libgo_poll (Some tk) [Pollfd fd event 0] t false m = ((0, fds), m1) →
    outcome (-1) (snd (fail EAGAIN m1))
| poll_failed t (m : state) fds m1 : libgo_poll (Some tk) [Pollfd fd event 0] t false m = ((-1, fds), m1) →
    errno (kern m1) ≠ EINTR → outcome (-1) m1.

Definition rank (l : label) : nat := match l with retry => 3 | eintr _ => 2 | retry_intr_fn => 1 end.

Lemma left_ready b m : finite_interruptions → left (set_ready_flag event b i m) = left m.
Proof. intros F. unfold set_ready_flag. by destruct (event =? POLLIN); apply F. Qed.

Lemma rw_loop_total fuel l m : finite_interruptions → (3 * left m + rank l <= fuel)%nat →
  ∃ n m', rw_loop fuel tk fd i fn event timeout_ms start buflen l m = Some (n, m') ∧ outcome n m'.
Proof.
  intros F. revert l m. induction fuel as [|fuel IH]; intros l m Hm; [destruct l; simpl in Hm; lia|].
  cbn [rw_loop]. destruct l as [|t|]; cbn [rank] in Hm.
  - destruct (not_ready event i m); [|apply IH; cbn [rank]; lia].
    destruct (Z.eqb_spec timeout_ms 0); [apply IH; cbn [rank]; lia|].
    destruct (Z.ltb_spec timeout_ms (int32 (now_ms (kern m) - start))); [|apply IH; cbn [rank]; lia].
    eexists _, _. split; [reflexivity|]. by apply timed_out.
  - destruct (libgo_poll (Some tk) [Pollfd fd event 0] t false m) as [[n fds] m1] eqn:Ep.
    destruct (left_poll F _ _ _ _ _ Ep) as [Hl1 Hl2]. destruct (Z.eqb_spec n (-1)) as [->|Hn1].
    + destruct (Z.eqb_spec (errno (kern m1)) EINTR) as [He|He].
      * apply IH. specialize (Hl2 eq_refl He). cbn [rank]. lia.
      * eexists _, _. split; [reflexivity|]. by eapply poll_failed.
    + destruct (Z.eqb_spec n 0) as [->|Hn0].
      * eexists _, _. split; [reflexivity|]. by eapply nothing_reported.
      * apply IH. cbn [rank]. repeat match goal with |- context [if ?b then _ else _] => destruct b end; rewrite ?(left_flag F); lia.
  - destruct (sys fn m) as [n m1] eqn:Ef. pose proof (left_fn F _ _ _ Ef) as Hl.
    destruct (Z.eqb_spec n (-1)) as [Hn|Hn]; cbn [andb].
    + destruct (Z.eqb_spec (errno (kern m1)) EAGAIN) as [He|He]; cbn [andb].
      { apply IH. rewrite left_ready by done. specialize (Hl ltac:(split; auto)). cbn [rank]. lia. }
      destruct (Z.eqb_spec (errno (kern m1)) EINTR) as [He'|He']; cbn [andb].
      { apply IH. specialize (Hl ltac:(split; auto)). cbn [rank]. lia. }
      assert (¬ transient n m1) as Ht by (intros [_ [?|?]]; done).
      destruct ((0 <=? n) && (n <? buflen)); eexists _, _; (split; [reflexivity|]).
      * exact (answered m n m1 true Ef Ht).
      * exact (answered m n m1 false Ef Ht).
    + assert (¬ transient n m1) as Ht by (intros [? _]; done).
      destruct ((0 <=? n) && (n <? buflen)); eexists _, _; (split; [reflexivity|]).
      * exact (answered m n m1 true Ef Ht).
      * exact (answered m n m1 false Ef Ht).
Qed.
End ReadWrite.

(** C23: a hooked blocking call behaves as a blocking call.  In a coroutine, on a socket the program
    has not made non-blocking, the call returns when the interruptions are finite, with the fuel of
    three steps for each, and the caller sees the kernel's answer to the original call, EINTR and
    EAGAIN never, unless the receive or send time-out set on the socket has passed or a wait ended
    with nothing to report (EAGAIN), or polling itself failed. *)
Theorem read_write_blocks fuel tk fd fn event timeout_so buflen (m : state) i c left :
  0 <= fd → pairs m !! fd = Some i → ctxs m !! i = Some c → is_initialize_ c = true → closed c = false →
  is_socket_ c = true → user_nonblock_ c = false → finite_interruptions tk fd i fn event left →
  (3 * left m + 3 <= fuel)%nat →
  let timeout_ms := int32 (tv_sec (get_time_o timeout_so c) * 1000 + Z.quot (tv_usec (get_time_o timeout_so c)) 1000) in
  ∃ n m' start, read_write_mode fuel (Some tk) fd fn event timeout_so buflen m = Some (n, m') ∧
    outcome tk fd i fn event timeout_ms start n m'.
Proof.
  intros Hf Hp Hc Hi Hcl Hs Hu F Hfuel timeout_ms. unfold read_write_mode.
  rewrite (open_ctx_old fd i c m Hf Hp Hc Hi Hcl), Hs, Hu. cbn [negb]. fold timeout_ms.
  set (start := if timeout_ms =? 0 then 0 else now_ms (kern m)).
  destruct (rw_loop_total tk fd i fn event timeout_ms start buflen left fuel retry m F Hfuel) as (n & m' & E & Ho).
  exists n, m', start. done.
Qed.

End Laws.

(** ** A scripted run *)
Module Run.

(** A suspended coroutine is resumed when everything it waits for has happened; sleeps are logged
    in milliseconds. *)
#[export] Instance eager : Runtime scripted := {|
  suspend sid _ m := Mgr _ (pairs m) (ctxs m)
    (alter (λ s, IoSentry (map (λ p, Pollfd (fd p) (events p) (events p)) (watch_fds_ s)) (task_ptr_ s)) sid (FdManager.sents m))
    (triggered m) (kern m);
  sleep_switch ms m := with_kern (snd (sys_sleep ms (kern m))) m;
|}.
#[export] Instance eager_laws : RuntimeLaws scripted.
Proof.
  split. intros sid timer m s Hs. simpl. rewrite lookup_alter_eq, Hs. eexists. split; [reflexivity|].
  unfold watched. simpl. by rewrite map_map.
Qed.

Definition kernel (polls : list (Z * list Z)) (io : list (Z * Z)) (err : Z) : scripted :=
  Scripted 0 {[3 := O_NONBLOCK; 4 := O_NONBLOCK]} [] ∅ polls io err [].
(** Descriptors 3 and 4 are sockets the manager knows. *)
Definition start (k : scripted) : FdManager.t scripted :=
  Mgr _ {[3 := 0%nat; 4 := 1%nat]} {[0%nat := fresh_ctx 3 true; 1%nat := fresh_ctx 4 true]} ∅ ∅ k.

Lemma nonblock_virtualised_witness :
  ∃ v, fst (fcntl 3 F_GETFL 0 (snd (fcntl 3 F_SETFL 2 (start (kernel [] [] 0))))) = v ∧ has v O_NONBLOCK = false.
Proof.
  assert (0 <= 3) as H3 by lia. set (m := start (kernel [] [] 0)).
  assert (∀ fl, (sys_setfl 3 fl (kern m)).1 = 0) as Hset by done.
  destruct (nonblock_virtualised 3 0 (fresh_ctx 3 true) 2 0 m H3 eq_refl eq_refl eq_refl eq_refl eq_refl eq_refl Hset)
    as [(_ & v & Hv & Hb) _].
  exists v. split; [exact (f_equal fst Hv)|exact Hb].
Defined.

Definition wait34 : list pollfd := [Pollfd 3 POLLIN 0; Pollfd 4 POLLOUT 0].

Lemma poll_wait_contract_witness : (poll_wait 7 wait34 (-1) (start (kernel [] [] 0))).1.1 = 2.
Proof.
  pose proof (poll_wait_contract 7 wait34 (-1) (start (kernel [] [] 0))) as Hc. cbn zeta in Hc.
  destruct (poll_wait 7 wait34 (-1) (start (kernel [] [] 0))) as [[n fds] m'] eqn:E.
  destruct Hc as (_ & _ & Hn). vm_compute in E. injection E as <- <- _. exact Hn.
Defined.

(** Nothing is ready at first; descriptor 3 becomes readable, 4 does not become writable. *)
Definition only3 : scripted := kernel [(1, [POLLIN; 0])] [] 0.
Lemma select_reports_requests_witness :
  (select (Some 7%nat) 5 (Some {[3]}) (Some {[4]}) None None (start only3)).1 = (2, (Some {[3]}, Some {[4]}, None)).
Proof.
  assert (0 < 5) as H5 by lia. assert (-1 ≠ 0) as Hm by lia. assert (0 < 1) as H1 by lia.
  set (k := start only3). set (p := poll (Some 7%nat) (select_fds 5 (Some {[3]}) (Some {[4]}) None) (-1) (with_kern (kern k) k)).
  assert (p = ((1, p.1.2), p.2)) as Hp by (vm_compute; reflexivity).
  pose proof (select_reports_requests 7 5 (Some {[3]}) (Some {[4]}) None None k (Some {[3]}, Some {[4]}, None) (kern k) 1 p.1.2 p.2
    H5 Hm eq_refl Hp H1) as H.
  rewrite H. vm_compute. reflexivity.
Defined.

(** *** The script's length as the measure *)
Definition script (k : scripted) : nat := length (io_script k) + length (poll_script k).
Definition left (m : FdManager.t scripted) : nat := script (kern m).

Lemma ctl_script c f e k : script (sys_epoll_ctl c f e k).2 = script k.
Proof. simpl. by destruct c, (interest k !! f). Qed.

Lemma reactor_ctl_script c f e b1 b2 k : script (reactor_ctl sys_epoll_ctl c f e b1 b2 k).2 = script k.
Proof. unfold reactor_ctl. destruct b1; [|done]. destruct b2; apply ctl_script. Qed.

Lemma re_initialize_script c k : script (re_initialize c k).2 = script k.
Proof.
  unfold re_initialize. destruct (is_initialize_ c); [done|]. destruct (sys_fstat (fd_ (rc c)) k) as [sock|]; [|done].
  simpl. destruct sock; [|done]. by case_match.
Qed.

Lemma get_left f m : left (get f m).2 = left m.
Proof.
  unfold get, left. destruct (pairs m !! f) as [i|].
  - destruct (ctxs m !! i) as [c|]; [|done]. pose proof (re_initialize_script c (kern m)). by destruct (re_initialize c _).
  - unfold new_ctx. pose proof (re_initialize_script (raw_ctx f) (kern m)) as H1. destruct (re_initialize _ _) as [c k].
    simpl. rewrite lookup_insert_eq. pose proof (re_initialize_script c k) as H2. destruct (re_initialize c k). simpl in *. congruence.
Qed.

Lemma open_ctx_left f m : left (open_ctx f m).2 = left m.
Proof.
  unfold open_ctx, get_fd_ctx. pose proof (get_left f m). destruct (f <? 0); [done|]. destruct (get f m) as [i m1].
  destruct (ctxs m1 !! i) as [c|]; [|done]. by destruct (is_initialize_ c).
Qed.

Lemma add_left i c ev sid m : left (ctx_add_into_reactor i c ev sid m).2 = left m.
Proof.
  unfold ctx_add_into_reactor, on_reactor, add_into_reactor, left. simpl.
  destruct (FdManager.sents m !! sid); [|done]. destruct (closed_ _); [done|]. destruct (negb _); [done|].
  destruct (has _ _); [|done].
  destruct (reactor_ctl _ _ _ _ _ _ _) as [ok k] eqn:E. apply (f_equal (λ x, script x.2)) in E.
  rewrite reactor_ctl_script in E. by destruct ok.
Qed.

Lemma del_script ev tk c k : script (del_from_reactor sys_epoll_ctl ev tk c k).2 = script k.
Proof.
  unfold del_from_reactor. destruct (closed_ c); [done|]. destruct (_ =? 0); [done|]. destruct (_ !! tk); [|done].
  destruct (negb _); [done|]. destruct (negb _); [|done]. unfold del_events. destruct (_ =? _); [done|].
  destruct (et_mode_ _); [done|]. cbn [snd]. destruct (negb _); apply reactor_ctl_script.
Qed.

Lemma destroy_left sid m : left (destroy_sentry sid m) = left m.
Proof.
  unfold destroy_sentry. destruct (FdManager.sents m !! sid) as [s|]; [|done]. unfold left at 1. cbn [kern].
  match goal with |- context [foldl ?f m ?l] => set (g := f); change (left (foldl g m l) = left m) end.
  generalize (watch_fds_ s) as l. intros l. revert m. induction l as [|p l IH]; intros m; [done|]. cbn [foldl]. rewrite IH.
  unfold g, get_fd_ctx. pose proof (get_left (fd p) m) as Hg. destruct (fd p <? 0); [done|]. destruct (get (fd p) m) as [i m1].
  destruct (ctxs m1 !! i) as [c|]; [|done]. destruct (is_initialize_ c); [|done].
  rewrite <- Hg. unfold on_reactor, left. simpl. pose proof (del_script (events p) (task_ptr_ s) (rc c) (kern m1)) as Hd.
  by destruct (del_from_reactor _ _ _ _ _).
Qed.

Lemma add_fds_left sid i l a b m : left (add_fds sid i l a b m).2 = left m.
Proof.
  revert i a b m. induction l as [|p l IH]; intros i a b m; [done|]. cbn [add_fds]. destruct (fd p <? 0); [apply IH|].
  pose proof (open_ctx_left (fd p) m) as Ho. destruct (open_ctx (fd p) m) as [[[ci c]|] m1]; [|by rewrite IH].
  pose proof (add_left ci c (events p) sid m1) as Ha. destruct (ctx_add_into_reactor ci c (events p) sid m1) as [[] m2];
    rewrite IH; simpl in *; unfold left in *; simpl in *; congruence.
Qed.

Lemma poll_wait_left tk fds t m : left (poll_wait tk fds t m).2 = left m ∧ 0 <= (poll_wait tk fds t m).1.1.
Proof.
  unfold poll_wait, new_sentry. set (sid := fresh _). set (m1 := Mgr _ _ _ _ _ _).
  pose proof (add_fds_left sid 0 (map revents_0 fds) false false m1) as Ha.
  destruct (add_fds sid 0 (map revents_0 fds) false false m1) as [[a b] m2]. cbn [snd] in Ha.
  assert (∀ m3, left (leave_poll sid m3) = left m3) as Hl by (intros m3; unfold leave_poll; by rewrite destroy_left).
  destruct a; cbn [negb snd fst]; rewrite Hl; (split; [|lia]).
  - by destruct b.
  - done.
Qed.

(** A call that takes its answers from the script. *)
Lemma io_finite : finite_interruptions 7 3 0 io_call POLLIN left.
Proof.
  split.
  - intros m n m1. unfold sys, io_call, left, script. destruct (io_script (kern m)) as [|[x e] rest] eqn:E.
    + intros [= <- <-] [? _]. done.
    + intros [= <- <-] _. simpl. lia.
  - done.
  - intros t m n fds m1 E.
    assert ((left m1 <= left m)%nat ∧ (n = -1 → (left m1 < left m)%nat)) as [H1 H2]; [|by split; [|intros Hn _; apply H2]].
    unfold libgo_poll in E. destruct (t =? 0).
    + unfold sys in E. simpl in E. unfold left, script. destruct (poll_script (kern m)) as [|[x l] rest] eqn:Ep; injection E as <- <- <-; simpl.
      * rewrite Ep. by split.
      * split; lia.
    + rewrite bool_decide_false in E by (intros Hf; apply Forall_cons in Hf as [Hf _]; simpl in Hf; lia).
      pose proof (poll_wait_left 7 [Pollfd 3 POLLIN 0] t m) as [Hl Hn]. rewrite E in Hl, Hn. simpl in Hl, Hn. split; lia.
Qed.

(** A read that is interrupted, would block once, and then has 5 bytes. *)
Definition slow : scripted := kernel [] [(-1, EINTR); (-1, EAGAIN); (5, 0)] 0.

Example slow_read : (λ r, r.1) <$> read 30 (Some 7%nat) 3 io_call 100 (start slow) = Some 5.
Proof. by vm_compute. Qed.

Lemma read_write_blocks_witness :
  ∃ n m' b, read_write_mode 30 (Some 7%nat) 3 io_call POLLIN SO_RCVTIMEO 100 (start slow) = Some (n, m') ∧
    outcome 7 3 0 io_call POLLIN 0 b n m'.
Proof.
  assert (0 <= 3) as H3 by lia. assert (3 * left (start slow) + 3 <= 30)%nat as Hl by (vm_compute; lia).
  exact (read_write_blocks 30 7 3 io_call POLLIN SO_RCVTIMEO 100 (start slow) 0 (fresh_ctx 3 true) left
    H3 eq_refl eq_refl eq_refl eq_refl eq_refl eq_refl io_finite Hl).
Defined.

(** *** Consequences worth knowing *)
(** A connection that is refused: the wait ends with POLLOUT, POLLERR and POLLHUP, which is not
    POLLOUT, so the caller sees ETIMEDOUT and the socket's error is never asked for. *)
Example refused_is_timed_out :
  let k := kernel [(1, [Z.lor POLLOUT (Z.lor POLLERR POLLHUP)])] [(-1, EINPROGRESS)] ECONNREFUSED in
  let '(r, m) := connect (Some 7%nat) 3 (-1) 0 (start k) in r = -1 ∧ errno (kern m) = ETIMEDOUT.
Proof. by vm_compute. Qed.

(** dup2 onto a descriptor that is already a copy closes the context the two share: the original
    reads EBADF from then on. *)
Example dup2_again :
  let m1 := snd (dup2 3 5 (start (kernel [] [(5, 0)] 0))) in
  let m2 := snd (dup2 3 5 m1) in
  fst <$> read 30 (Some 7%nat) 3 io_call 100 m1 = Some 5 ∧ fst <$> read 30 (Some 7%nat) 3 io_call 100 m2 = Some (-1) ∧
  (λ r, errno (kern r.2)) <$> read 30 (Some 7%nat) 3 io_call 100 m2 = Some EBADF.
Proof. by vm_compute. Qed.

(** A poll on a descriptor that is not open: the result says one entry has something to report, and
    none has. *)
Example poll_not_open :
  (poll (Some 7%nat) [Pollfd 9 POLLIN 0] (-1) (start (kernel [] [] 0))).1 = (1, [Pollfd 9 POLLIN 0]).
Proof. by vm_compute. Qed.

(** poll without descriptors and without a time-out returns at once. *)
Example poll_nothing : (poll (Some 7%nat) [] (-1) (start (kernel [] [] 0))).1 = (0, []).
Proof. by vm_compute. Qed.

(** sleep for 4294968 seconds (about 50 days) sleeps for 704 milliseconds. *)
Example sleep_wraps : slept (kern (snd (sleep (Some 7%nat) 4294968 (start (kernel [] [] 0))))) = [704].
Proof. by vm_compute. Qed.

End Run.
End HookSpec.
