(* ===== verification/HostEnt.v ===== *)
(** * Host entries of the name-service hooks (libgo/linux/linux_glibc_hook.cpp)

    The hooks of gethostbyname and its relatives ask c-ares and copy the [hostent] it hands over into
    one buffer of the caller: the name, two ints, two arrays of pointers that end with a null pointer,
    and the strings they point to.  Memory is bytes by address; a pointer takes eight bytes and an int
    four, least significant byte first. *)
From S2P Require Import Prelude CppString.

#[local] Open Scope Z_scope.

Module HostEnt.

(** ** Memory *)
Definition mem : Type := Z → ascii.

Definition write (m : mem) (p : Z) (s : str) : mem :=
  λ a, if decide (p <= a < p + size s) then default NUL (s !! Z.to_nat (a - p)) else m a.

Fixpoint read (m : mem) (p : Z) (n : nat) : str :=
  match n with O => [] | S n => m p :: read m (p + 1) n end.

(** Integers of [n] bytes. *)
Fixpoint le (n : nat) (v : Z) : str :=
  match n with O => [] | S n => ascii_of_nat (Z.to_nat (v mod 256)) :: le n (v / 256) end.
Definition le_value (s : str) : Z := foldr (λ c v, Z.of_nat (nat_of_ascii c) + 256 * v) 0 s.
Definition load (n : nat) (m : mem) (p : Z) : Z := le_value (read m p n).
Definition int32 (v : Z) : Z := (v + 2 ^ 31) mod 2 ^ 32 - 2 ^ 31.

(** The string at a pointer; [None] when it does not end within [fuel] bytes. *)
Fixpoint cstring (fuel : nat) (m : mem) (p : Z) : option str :=
  match fuel with
  | O => None
  | S fuel => if decide (m p = NUL) then Some [] else cons (m p) <$> cstring fuel m (p + 1)
  end.

(** The pointers at [p] before a null pointer. *)
Fixpoint pointers (fuel : nat) (m : mem) (p : Z) : option (list Z) :=
  match fuel with
  | O => None
  | S fuel => let q := load 8 m p in if q =? 0 then Some [] else cons q <$> pointers fuel m (p + 8)
  end.

Record hostent := Hostent { h_name : Z; h_addrtype : Z; h_length : Z; h_aliases : Z; h_addr_list : Z }.

(** How far a string or an array is followed. *)
Section Limit.
Variable limit : nat.

(** The end of an array of pointers: the place of its null pointer. *)
Fixpoint array_end (fuel : nat) (m : mem) (p : Z) : option Z :=
  match fuel with
  | O => None
  | S fuel => if load 8 m p =? 0 then Some p else array_end fuel m (p + 8)
  end.

(*@ libgo/libgo/linux/linux_glibc_hook.cpp 202-224 buffer_to_hostent *)
Definition buffer_to_hostent (m : mem) (buf : Z) : option hostent :=
  name ← cstring limit m buf;
  let p := buf + (size name + 1) in
  let addrtype := int32 (load 4 m p) in
  let length_ := int32 (load 4 m (p + 4)) in
  let aliases := p + 8 in
  q ← array_end limit m aliases;
  Some (Hostent buf addrtype length_ aliases (q + 8)).

(** The lengths of the strings with their terminators. *)
Definition lengths (ss : list str) : Z := foldr (λ s n, size s + 1 + n) 0 ss.

(** One of the two loops over an array: each string is copied behind the last and its new place is
    entered in the array; then the array is ended. *)
(*@ libgo/libgo/linux/linux_glibc_hook.cpp 274-294 hostent_dup *)
Fixpoint copy_strings (fuel : nat) (m : mem) (p array buf : Z) : option (mem * Z) :=
  match fuel with
  | O => None
  | S fuel =>
      if load 8 m p =? 0 then Some (write m array (le 8 0), buf)
      else
        let m := write m array (le 8 buf) in
        s ← cstring limit m (load 8 m p);
        let m := write m buf (s ++ [NUL]) in
        copy_strings fuel m (p + 8) (array + 8) (buf + (size s + 1))
  end.

(** Whether the entry was copied, the length needed, the copy and the memory; [dst] is not touched
    when the buffer is too short. *)
(*@ libgo/libgo/linux/linux_glibc_hook.cpp 225-299 hostent_dup *)
Definition hostent_dup (src dst : hostent) (buf buflen : Z) (m : mem) : option (bool * Z * hostent * mem) :=
  name ← cstring limit m (h_name src);
  alias_ps ← pointers limit m (h_aliases src);
  alias_ss ← mapM (cstring limit m) alias_ps;
  addr_ps ← pointers limit m (h_addr_list src);
  addr_ss ← mapM (cstring limit m) addr_ps;
  let alias_c := Z.of_nat (length alias_ps) in
  let addr_c := Z.of_nat (length addr_ps) in
  let expect_length := size name + 1 + 8 + (lengths alias_ss + 8 * (alias_c + 1)) + (lengths addr_ss + 8 * (addr_c + 1)) in
  if buflen <? expect_length then Some (false, expect_length, dst, m)
  else
    let ori_buf := buf in
    let m := write m buf (name ++ [NUL]) in
    let buf := buf + (size name + 1) in
    let m := write m buf (le 4 (h_addrtype src)) in
    let buf := buf + 4 in
    let m := write m buf (le 4 (h_length src)) in
    let buf := buf + 4 in
    let aliases_array := buf in
    let buf := buf + 8 * (alias_c + 1) in
    let addr_array := buf in
    let buf := buf + 8 * (addr_c + 1) in
    '(m, buf) ← copy_strings limit m (h_aliases src) aliases_array buf;
    '(m, buf) ← copy_strings limit m (h_addr_list src) addr_array buf;
    dst ← buffer_to_hostent m ori_buf;
    Some (true, buflen, dst, m).

(** ** The callers *)

(** What [*result] holds: null, a place for a [hostent], or whatever was there. *)
Inductive place := Null | At (e : hostent) | Wild.

(** What c-ares did: it called back with a status, or an entry, or not at all within one turn of
    [select] and [ares_process]. *)
Inductive answer := NoData | BadName | NotFound | Found (src : hostent) | NotCalled.

(** The codes of [h_errno]. *)
Definition NO_DATA : Z := 4.
Definition NO_RECOVERY : Z := 3.
Definition HOST_NOT_FOUND : Z := 1.
Definition ENOEXEC : Z := 8.

(** The outcome of a call: its result, [*result], [*h_errnop], [buflen] and the memory; or the
    assertion on [dst] fails; or it writes through a wild pointer. *)
Inductive outcome := Returns (ret : Z) (result : place) (err buflen : Z) (m : mem) | Aborts | Undefined.

(** [ret_h] is not used. *)
(*@ libgo/libgo/linux/linux_glibc_hook.cpp 308-378 gethostbyname_with_ares *)
Definition with_ares (ans : answer) (ret_h : hostent) (buf buflen : Z) (result : place) (m : mem) : option outcome :=
  match ans with
  | NoData => Some (Returns (-1) Null NO_DATA buflen m)
  | BadName => Some (Returns (-1) Null NO_RECOVERY buflen m)
  | NotFound => Some (Returns (-1) Null HOST_NOT_FOUND buflen m)
  | NotCalled => Some (Returns (-1) Null HOST_NOT_FOUND buflen m)
  | Found src =>
      match result with
      | Null => Some Aborts
      | Wild => Some Undefined
      | At dst =>
          '(ok, buflen, dst, m) ← hostent_dup src dst buf buflen m;
          Some (if ok : bool then Returns 0 (At dst) 0 buflen m else Returns (-1) Null ENOEXEC buflen m)
      end
  end.

(** The static buffer of the hooks without a buffer: its place and length; [realloc] is a parameter. *)
Variable realloc : Z → Z → Z.

(** The entry, or [h_errno]; the static buffer; the memory. *)
Inductive found := Entry (e : hostent) | Failed (h_errno : Z) | Abort | UndefinedBehaviour.

(** The second call is made with the same [p], which the first one has set. *)
(*@ libgo/libgo/linux/linux_glibc_hook.cpp 1135-1160 co_gethostbyname2 *)
Definition co_gethostbyname2 (ans1 ans2 : answer) (h : hostent) (s_buffer s_buflen : Z) (m : mem) : option (found * (Z * Z) * mem) :=
  r ← with_ares ans1 h s_buffer s_buflen (At h) m;
  match r with
  | Aborts => Some (Abort, (s_buffer, s_buflen), m)
  | Undefined => Some (UndefinedBehaviour, (s_buffer, s_buflen), m)
  | Returns res p err buflen m =>
      if (res =? -1) && (s_buflen <? buflen) then
        let s_buflen := buflen in
        let s_buffer := realloc s_buffer s_buflen in
        r ← with_ares ans2 h s_buffer buflen p m;
        match r with
        | Aborts => Some (Abort, (s_buffer, s_buflen), m)
        | Undefined => Some (UndefinedBehaviour, (s_buffer, s_buflen), m)
        | Returns res p err _ m =>
            Some (match p with At e => if res =? 0 then Entry e else Failed err | _ => Failed err end, (s_buffer, s_buflen), m)
        end
      else Some (match p with At e => if res =? 0 then Entry e else Failed err | _ => Failed err end, (s_buffer, s_buflen), m)
  end.

(** The caller's [*result] is an output of the function: it holds nothing in particular. *)
(*@ libgo/libgo/linux/linux_glibc_hook.cpp 1181-1190 gethostbyname_r *)
Definition gethostbyname_r (ans : answer) (ret_h : hostent) (buf buflen : Z) (result : place) (m : mem) : option outcome :=
  with_ares ans ret_h buf buflen result m.
(** The functions for addresses have the same bodies, with the other function of c-ares. *)
(*@ libgo/libgo/linux/linux_glibc_hook.cpp 385-456 gethostbyaddr_with_ares *)
Definition gethostbyaddr_with_ares (ans : answer) (ret_h : hostent) (buf buflen : Z) (result : place) (m : mem) : option outcome :=
  with_ares ans ret_h buf buflen result m.

(*@ libgo/libgo/linux/linux_glibc_hook.cpp 1204-1234 gethostbyaddr *)
Definition gethostbyaddr (ans1 ans2 : answer) (h : hostent) (s_buffer s_buflen : Z) (m : mem) : option (found * (Z * Z) * mem) :=
  co_gethostbyname2 ans1 ans2 h s_buffer s_buflen m.

(*@ libgo/libgo/linux/linux_glibc_hook.cpp 1236-1247 gethostbyaddr_r *)
Definition gethostbyaddr_r (ans : answer) (ret_h : hostent) (buf buflen : Z) (result : place) (m : mem) : option outcome :=
  gethostbyaddr_with_ares ans ret_h buf buflen result m.
End Limit.
End HostEnt.
