(* ===== verification/HostEntSpec.v ===== *)
(** * A host entry is copied with its pointers (properties of HostEnt.v) *)
From S2P Require Import Prelude CppString HostEnt.
Import HostEnt.

#[local] Open Scope Z_scope.

Module HostEntSpec.

(** ** Bytes in memory *)
Definition at_ (m : mem) (p : Z) (s : str) : Prop := ∀ i c, s !! i = Some c → m (p + Z.of_nat i) = c.

Lemma at_write m p s : at_ (write m p s) p s.
Proof.
  intros i c Hi. unfold write. pose proof (lookup_lt_Some _ _ _ Hi). rewrite decide_True by (unfold size; lia).
  replace (Z.to_nat (p + Z.of_nat i - p)) with i by lia. by rewrite Hi.
Qed.

Lemma write_out m p s a : ¬ (p <= a < p + size s) → write m p s a = m a.
Proof. intros H. unfold write. by rewrite decide_False. Qed.

(** Memory that agrees on the bytes of [s] holds it too. *)
Lemma at_agree m m' p s : at_ m p s → (∀ a, p <= a < p + size s → m' a = m a) → at_ m' p s.
Proof. intros H Ha i c Hi. pose proof (lookup_lt_Some _ _ _ Hi). rewrite Ha by (unfold size; lia). by apply H. Qed.

Lemma at_app m p s t : at_ m p (s ++ t) ↔ at_ m p s ∧ at_ m (p + size s) t.
Proof.
  split.
  - intros H. split; intros i c Hi.
    + apply H. by apply lookup_app_l_Some.
    + unfold size. rewrite <- Z.add_assoc, <- Nat2Z.inj_add. apply H. rewrite lookup_app_r by lia.
      by replace (length s + i - length s)%nat with i by lia.
  - intros [H1 H2] i c [Hi|[Hl Hi]]%lookup_app_Some; [by apply H1|]. specialize (H2 _ _ Hi). rewrite <- H2. f_equal. unfold size. lia.
Qed.

Lemma at_cons m p c s : at_ m p (c :: s) ↔ m p = c ∧ at_ m (p + 1) s.
Proof.
  rewrite (at_app m p [c] s). change (size [c]) with 1. split; intros [H1 H2]; split; try done.
  - specialize (H1 0%nat c eq_refl). by rewrite Z.add_0_r in H1.
  - intros [|i] d; [|done]. intros [= <-]. by rewrite Z.add_0_r.
Qed.

Lemma read_at m p s : at_ m p s → read m p (length s) = s.
Proof. revert p. induction s as [|c s IH]; intros p; simpl; [done|]. intros [-> H]%at_cons. by rewrite IH. Qed.

(** ** Integers *)
Lemma le_length n v : length (le n v) = n.
Proof. revert v. induction n as [|n IH]; intros v; simpl; [done|]. by rewrite IH. Qed.

Lemma size_le n v : size (le n v) = Z.of_nat n.
Proof. unfold size. by rewrite le_length. Qed.

Lemma le_round n v : 0 <= v < 256 ^ Z.of_nat n → le_value (le n v) = v.
Proof.
  revert v. induction n as [|n IH]; intros v Hv; [simpl in *; lia|].
  rewrite Nat2Z.inj_succ, Z.pow_succ_r in Hv by lia. cbn [le le_value foldr]. fold (le_value (le n (v / 256))).
  rewrite IH by (split; [apply Z.div_pos; lia|apply Z.div_lt_upper_bound; lia]).
  pose proof (Z.mod_pos_bound v 256 ltac:(lia)). rewrite nat_ascii_embedding by lia.
  rewrite Z2Nat.id by lia. pose proof (Z.div_mod v 256 ltac:(lia)). lia.
Qed.

Lemma le_mod n v : le n (v mod 256 ^ Z.of_nat n) = le n v.
Proof.
  revert v. induction n as [|n IH]; intros v; [done|]. rewrite Nat2Z.inj_succ, Z.pow_succ_r by lia. cbn [le].
  assert (0 < 256 ^ Z.of_nat n) by (apply Z.pow_pos_nonneg; lia).
  f_equal; [|rewrite <- IH; symmetry; rewrite <- IH; symmetry; f_equal].
  - do 2 f_equal. rewrite Z.mod_mod_divide; [done|]. exists (256 ^ Z.of_nat n). lia.
  - rewrite Z.rem_mul_r by lia. rewrite (Z.mul_comm 256), Z.div_add by lia. rewrite (Z.div_small (v mod 256)) by (apply Z.mod_pos_bound; lia).
    rewrite Z.add_0_l. by rewrite Z.mod_mod by lia.
Qed.

Lemma load_at n m p v : 0 <= v < 256 ^ Z.of_nat n → at_ m p (le n v) → load n m p = v.
Proof. intros Hv H. unfold load. rewrite <- (le_length n v) at 1. rewrite read_at by done. by apply le_round. Qed.

Lemma load_int m p v : - 2 ^ 31 <= v < 2 ^ 31 → at_ m p (le 4 v) → int32 (load 4 m p) = v.
Proof.
  intros Hv H. rewrite <- le_mod in H. rewrite (load_at 4 m p (v mod 256 ^ Z.of_nat 4)); [|apply Z.mod_pos_bound; lia|done].
  change (256 ^ Z.of_nat 4) with (2 ^ 32). unfold int32. rewrite Zplus_mod_idemp_l. rewrite Z.mod_small by lia. lia.
Qed.

(** ** Strings and arrays *)
Lemma cstring_at fuel m p s : NUL ∉ s → (length s < fuel)%nat → at_ m p (s ++ [NUL]) → cstring fuel m p = Some s.
Proof.
  revert p s. induction fuel as [|fuel IH]; intros p s Hs Hf H; [lia|]. destruct s as [|c s]; cbn [cstring app] in *.
  - apply at_cons in H as [-> _]. by rewrite decide_True.
  - apply at_cons in H as [-> H]. apply not_elem_of_cons in Hs as [Hc Hs]. rewrite decide_False by congruence.
    rewrite (IH _ s) by (done || (simpl in Hf; lia)). done.
Qed.

Lemma cstring_no_nul fuel m p s : cstring fuel m p = Some s → NUL ∉ s ∧ (length s < fuel)%nat ∧ at_ m p (s ++ [NUL]).
Proof.
  revert p s. induction fuel as [|fuel IH]; intros p s; simpl; [done|]. case_decide as Hc.
  - intros [= <-]. split_and!; [apply not_elem_of_nil|simpl; lia|]. simpl. apply at_cons. split; [done|]. intros i c Hi.
    by rewrite lookup_nil in Hi.
  - intros (s' & Hs & ->)%fmap_Some. apply IH in Hs as (H1 & H2 & H3). split_and!.
    + apply not_elem_of_cons. split; [congruence|done].
    + simpl. lia.
    + simpl. by apply at_cons.
Qed.

Lemma pointers_at fuel m p ps : (length ps < fuel)%nat → Forall (λ q, 0 < q < 2 ^ 64) ps →
  at_ m p (concat (map (le 8) ps) ++ le 8 0) → pointers fuel m p = Some ps ∧ array_end fuel m p = Some (p + 8 * Z.of_nat (length ps)).
Proof.
  intros Hf Hps. revert fuel p Hf. induction Hps as [|q ps Hq Hps IH]; intros [|fuel] p Hf H; simpl in Hf; try lia; cbn [pointers array_end map concat app] in *.
  - rewrite (load_at 8 m p 0) by (done || lia). simpl. by rewrite Z.add_0_r.
  - rewrite <- app_assoc in H. apply at_app in H as [H1 H2]. rewrite size_le in H2.
    rewrite (load_at 8 m p q); [|change (256 ^ Z.of_nat 8) with (2 ^ 64); lia|done]. rewrite (proj2 (Z.eqb_neq q 0)) by lia.
    destruct (IH fuel (p + 8) ltac:(lia) H2) as [-> ->]. split; [done|]. f_equal. simpl. lia.
Qed.

Lemma pointers_load fuel m p ps : pointers fuel m p = Some ps →
  (∀ i q, ps !! i = Some q → load 8 m (p + 8 * Z.of_nat i) = q ∧ q ≠ 0) ∧ load 8 m (p + 8 * Z.of_nat (length ps)) = 0 ∧ (length ps < fuel)%nat.
Proof.
  revert p ps. induction fuel as [|fuel IH]; intros p ps; simpl; [done|]. destruct (Z.eqb_spec (load 8 m p) 0) as [E|E].
  - intros [= <-]. split_and!; [intros i q; by rewrite lookup_nil|by rewrite Z.add_0_r|simpl; lia].
  - intros (ps' & Hps & ->)%fmap_Some. apply IH in Hps as (H1 & H2 & H3). split_and!.
    + intros [|i] q; [intros [= <-]; by rewrite Z.add_0_r|]. intros Hi. specialize (H1 i q Hi).
      by replace (p + 8 * Z.of_nat (S i)) with (p + 8 + 8 * Z.of_nat i) by lia.
    + simpl length. by replace (p + 8 * Z.of_nat (S (length ps'))) with (p + 8 + 8 * Z.of_nat (length ps')) by lia.
    + simpl. lia.
Qed.

(** Where strings come to lie that are put one behind another. *)
Fixpoint places (buf : Z) (ss : list str) : list Z :=
  match ss with [] => [] | s :: ss => buf :: places (buf + (size s + 1)) ss end.
Definition terminated (ss : list str) : str := concat (map (λ s, s ++ [NUL]) ss).

Lemma size_terminated ss : size (terminated ss) = lengths ss.
Proof.
  induction ss as [|s ss IH]; [done|]. unfold terminated in *. cbn [map concat lengths foldr]. rewrite !size_app, IH.
  change (size [NUL]) with 1. done.
Qed.
Lemma lengths_nonneg ss : 0 <= lengths ss.
Proof. rewrite <- size_terminated. apply size_nonneg. Qed.

Lemma places_length buf ss : length (places buf ss) = length ss.
Proof. revert buf. induction ss as [|s ss IH]; intros buf; simpl; [done|]. by rewrite IH. Qed.

Lemma places_range buf ss : Forall (λ q, buf <= q < buf + lengths ss) (places buf ss).
Proof.
  revert buf. induction ss as [|s ss IH]; intros buf; simpl; constructor.
  - pose proof (lengths_nonneg ss). pose proof (size_nonneg s). unfold lengths in *. lia.
  - eapply Forall_impl; [apply IH|]. simpl. pose proof (size_nonneg s). unfold lengths. lia.
Qed.

Lemma strings_at fuel m buf ss : Forall (λ s, NUL ∉ s ∧ (length s < fuel)%nat) ss → at_ m buf (terminated ss) →
  mapM (cstring fuel m) (places buf ss) = Some ss.
Proof.
  intros Hss. revert buf. induction Hss as [|s ss [Hs Hf] Hss IH]; intros buf H; simpl; [done|].
  unfold terminated in H. cbn [map concat] in H. apply at_app in H as [H1 H2]. rewrite size_app in H2. change (size [NUL]) with 1 in H2.
  rewrite (cstring_at fuel m buf s) by done. simpl. by rewrite (IH _ H2).
Qed.
#[local] Arguments le : simpl never.
#[local] Arguments load : simpl never.

(** ** Copying *)
Section Copy.
Variable limit : nat.
(** The memory at the beginning, and the bounds of the buffer. *)
Variable m0 : mem.
Variables lo hi : Z.

Definition outside_same (m : mem) : Prop := ∀ a, ¬ (lo <= a < hi) → m a = m0 a.

Lemma outside_write m p s : outside_same m → lo <= p → p + size s <= hi → outside_same (write m p s).
Proof. intros H H1 H2 a Ha. rewrite write_out by lia. by apply H. Qed.

(** An array of pointers to strings that does not depend on what is in the buffer. *)
Definition source (p : Z) (ps : list Z) (ss : list str) : Prop :=
  length ps = length ss ∧
  ∀ m, outside_same m →
    (∀ i q, ps !! i = Some q → load 8 m (p + 8 * Z.of_nat i) = q ∧ q ≠ 0) ∧
    load 8 m (p + 8 * Z.of_nat (length ps)) = 0 ∧
    (∀ i q s, ps !! i = Some q → ss !! i = Some s → cstring limit m q = Some s).

Lemma source_tail p q ps s ss : source p (q :: ps) (s :: ss) → source (p + 8) ps ss.
Proof.
  intros [Hl H]. split; [simpl in Hl; lia|]. intros m Hm. destruct (H m Hm) as (H1 & H2 & H3). split_and!.
  - intros i r Hi. destruct (H1 (S i) r Hi) as [<- Hne]. split; [|done]. f_equal. lia.
  - rewrite <- H2. f_equal. simpl length. lia.
  - intros i r t Hr Ht. by apply (H3 (S i)).
Qed.

Lemma copy_spec fuel m p ps ss A B :
  (length ps < fuel)%nat → source p ps ss → outside_same m →
  lo <= A → A + 8 * (Z.of_nat (length ss) + 1) <= B → B + lengths ss <= hi → 0 < B → hi <= 2 ^ 64 →
  ∃ m', copy_strings limit fuel m p A B = Some (m', B + lengths ss) ∧ outside_same m' ∧
    at_ m' A (concat (map (le 8) (places B ss)) ++ le 8 0) ∧ at_ m' B (terminated ss) ∧
    ∀ a, ¬ (A <= a < A + 8 * (Z.of_nat (length ss) + 1)) → ¬ (B <= a < B + lengths ss) → m' a = m a.
Proof.
  revert m p ss A B fuel. induction ps as [|q ps IH]; intros m p ss A B [|fuel] Hf Hsrc Hm HA HAB HB Hpos Hhi; simpl in Hf; try lia.
  - pose proof Hsrc as [Hl H]. destruct ss; [|done]. destruct (H m Hm) as (_ & H0 & _). cbn [copy_strings]. simpl in H0. rewrite Z.add_0_r in H0.
    rewrite H0, Z.eqb_refl. exists (write m A (le 8 0)). unfold terminated.
    cbn [places map concat app lengths foldr length] in *. change (Z.of_nat 0) with 0 in *. split_and!.
    + by rewrite Z.add_0_r.
    + apply outside_write; [done|lia|rewrite size_le; lia].
    + apply at_write.
    + intros i c Hi. by rewrite lookup_nil in Hi.
    + intros a Ha _. apply write_out. rewrite size_le. lia.
  - pose proof Hsrc as [Hl H]. destruct ss as [|s ss]; [done|]. destruct (H m Hm) as (H1 & _ & _).
    destruct (H1 0%nat q eq_refl) as [Hq Hne]. simpl in Hq. rewrite Z.add_0_r in Hq. cbn [copy_strings].
    rewrite Hq, (proj2 (Z.eqb_neq q 0)) by done.
    pose proof (lengths_nonneg ss). pose proof (size_nonneg s). cbn [length lengths foldr] in *. fold (lengths ss) in *.
    assert (outside_same (write m A (le 8 B))) as Hm1 by (apply outside_write; [done|lia|rewrite size_le; lia]).
    destruct (H _ Hm1) as (H1' & _ & H3). destruct (H1' 0%nat q eq_refl) as [Hq' _]. simpl in Hq'. rewrite Z.add_0_r in Hq'.
    rewrite Hq'. rewrite (H3 0%nat q s eq_refl eq_refl). cbn [mbind option_bind].
    set (m2 := write (write m A (le 8 B)) B (s ++ [NUL])).
    assert (size (s ++ [NUL]) = size s + 1) as Hsz by (rewrite size_app; done).
    assert (outside_same m2) as Hm2 by (apply outside_write; [done|lia|rewrite Hsz; lia]).
    destruct (IH m2 (p + 8) ss (A + 8) (B + (size s + 1)) fuel) as (m' & E & Ho & Hat & Hst & Hrest); try done; try lia.
    { by eapply source_tail. }
    exists m'. split_and!.
    + rewrite E. do 2 f_equal. lia.
    + done.
    + cbn [places map concat]. rewrite <- app_assoc. apply at_app. rewrite size_le. split; [|exact Hat].
      eapply at_agree; [apply (at_write m A (le 8 B))|]. rewrite size_le. intros a Ha. rewrite Hrest by lia.
      unfold m2. apply write_out. rewrite Hsz. lia.
    + unfold terminated. cbn [map concat]. apply at_app. rewrite Hsz. split; [|exact Hst].
      eapply at_agree; [apply (at_write (write m A (le 8 B)) B (s ++ [NUL]))|]. rewrite Hsz. intros a Ha. apply Hrest; lia.
    + intros a Ha1 Ha2. rewrite Hrest by lia. unfold m2. rewrite write_out by (rewrite Hsz; lia). apply write_out. rewrite size_le. lia.
Qed.
End Copy.

(** ** What a host entry says *)
Record view := View { v_name : str; v_type : Z; v_length : Z; v_aliases : list str; v_addrs : list str }.

(** With the pointers of its two arrays. *)
Definition raw_of (limit : nat) (m : mem) (h : hostent) : option (view * list Z * list Z) :=
  name ← cstring limit m (h_name h);
  aps ← pointers limit m (h_aliases h);
  aliases ← mapM (cstring limit m) aps;
  dps ← pointers limit m (h_addr_list h);
  addrs ← mapM (cstring limit m) dps;
  Some (View name (h_addrtype h) (h_length h) aliases addrs, aps, dps).
Definition view_of (limit : nat) (m : mem) (h : hostent) : option view := (λ r, r.1.1) <$> raw_of limit m h.

(** The bytes a copy takes. *)
Definition view_bytes (v : view) : Z :=
  size (v_name v) + 1 + 8 + (lengths (v_aliases v) + 8 * (Z.of_nat (length (v_aliases v)) + 1)) +
  (lengths (v_addrs v) + 8 * (Z.of_nat (length (v_addrs v)) + 1)).

Lemma raw_of_Some limit m h v aps dps : raw_of limit m h = Some (v, aps, dps) →
  cstring limit m (h_name h) = Some (v_name v) ∧ h_addrtype h = v_type v ∧ h_length h = v_length v ∧
  pointers limit m (h_aliases h) = Some aps ∧ mapM (cstring limit m) aps = Some (v_aliases v) ∧
  pointers limit m (h_addr_list h) = Some dps ∧ mapM (cstring limit m) dps = Some (v_addrs v).
Proof.
  unfold raw_of. destruct (cstring limit m (h_name h)) as [name|]; [|done]. cbn [mbind option_bind].
  destruct (pointers limit m (h_aliases h)) as [aps'|]; [|done]. cbn [mbind option_bind].
  destruct (mapM (cstring limit m) aps') as [aliases|] eqn:Ea; [|done]. cbn [mbind option_bind].
  destruct (pointers limit m (h_addr_list h)) as [dps'|]; [|done]. cbn [mbind option_bind].
  destruct (mapM (cstring limit m) dps') as [addrs|] eqn:Ed; [|done]. cbn [mbind option_bind].
  intros [= <- <- <-]. done.
Qed.

(** An array that is read as it was, in all memories that agree outside the buffer. *)
Lemma source_of limit m0 lo hi p ps ss :
  (∀ m, outside_same m0 lo hi m → pointers limit m p = Some ps ∧ mapM (cstring limit m) ps = Some ss) →
  source limit m0 lo hi p ps ss.
Proof.
  intros H. split.
  - destruct (H m0 ltac:(by intros a _)) as [_ Hm]. by apply length_mapM in Hm.
  - intros m Hm. destruct (H m Hm) as [Hp Hs]. apply pointers_load in Hp as (H1 & H2 & _). split_and!; [done|done|].
    intros i q s Hq Ht. apply mapM_Some_1 in Hs. destruct (Forall2_lookup_lr _ _ _ _ _ _ Hs Hq Ht). done.
Qed.

(** The text a copy of the entry has before the strings. *)
Lemma lengths_long (ss : list str) limit : lengths ss <= Z.of_nat limit → Forall (λ s, NUL ∉ s) ss →
  Forall (λ s, NUL ∉ s ∧ (length s < limit)%nat) ss.
Proof.
  intros Hl Hs. induction Hs as [|s ss Hn Hs IH]; constructor; cbn [lengths foldr] in Hl; fold (lengths ss) in Hl.
  - split; [done|]. pose proof (lengths_nonneg ss). unfold size in Hl. lia.
  - apply IH. pose proof (size_nonneg s). lia.
Qed.

Lemma array_size buf ss : size (concat (map (le 8) (places buf ss)) ++ le 8 0) = 8 * (Z.of_nat (length ss) + 1).
Proof.
  rewrite size_app, size_le. enough (∀ ps : list Z, size (concat (map (le 8) ps)) = 8 * Z.of_nat (length ps)) as H
    by (rewrite H, places_length; lia).
  induction ps as [|q ps IH]; [done|]. cbn [map concat length]. rewrite size_app, size_le, IH. lia.
Qed.

Lemma lengths_count ss : Z.of_nat (length ss) <= lengths ss.
Proof. induction ss as [|s ss IH]; [done|]. cbn [length lengths foldr]. fold (lengths ss). pose proof (size_nonneg s). lia. Qed.

Lemma strings_no_nul limit m (ps : list Z) ss : mapM (cstring limit m) ps = Some ss → Forall (λ s, NUL ∉ s) ss.
Proof.
  intros H%mapM_Some_1. apply Forall_lookup_2. intros i s Hs. destruct (Forall2_lookup_r _ _ _ _ _ H Hs) as (q & _ & Hq).
  by apply cstring_no_nul in Hq as [? _].
Qed.

(** An array that was copied reads as its strings. *)
Lemma array_read limit m A B ss :
  at_ m A (concat (map (le 8) (places B ss)) ++ le 8 0) → at_ m B (terminated ss) →
  0 < B → B + lengths ss <= 2 ^ 64 → lengths ss + 1 <= Z.of_nat limit → Forall (λ s, NUL ∉ s) ss →
  pointers limit m A = Some (places B ss) ∧ array_end limit m A = Some (A + 8 * Z.of_nat (length ss)) ∧
  mapM (cstring limit m) (places B ss) = Some ss.
Proof.
  intros HA HB H0 H1 Hl Hs. pose proof (lengths_count ss). destruct (pointers_at limit m A (places B ss)) as [-> ->].
  - rewrite places_length. lia.
  - eapply Forall_impl; [apply places_range|]. simpl. lia.
  - done.
  - rewrite places_length. split_and!; [done|done|]. apply strings_at; [|done]. apply lengths_long; [lia|done].
Qed.

(** The name and the two ints in front. *)
Lemma head_size (name : str) ty ln : size (name ++ [NUL] ++ le 4 ty ++ le 4 ln) = size name + 1 + 8.
Proof. rewrite !size_app, !size_le. change (size [NUL]) with 1. lia. Qed.

Lemma head_at m buf name ty ln :
  let p := buf + (size name + 1) in
  let m' := write (write (write m buf (name ++ [NUL])) p (le 4 ty)) (p + 4) (le 4 ln) in
  at_ m' buf (name ++ [NUL] ++ le 4 ty ++ le 4 ln) ∧ ∀ a, ¬ (buf <= a < p + 8) → m' a = m a.
Proof.
  intros p m'. pose proof (size_nonneg name). assert (size (name ++ [NUL]) = size name + 1) as Hsn by (rewrite size_app; done). split.
  - rewrite (app_assoc name). apply at_app. rewrite Hsn. split; [|apply at_app; rewrite size_le; split].
    + eapply at_agree; [apply (at_write m buf (name ++ [NUL]))|]. rewrite Hsn. intros a Ha. unfold m'.
      by rewrite !write_out by (rewrite size_le; lia).
    + eapply at_agree; [apply (at_write (write m buf (name ++ [NUL])) p (le 4 ty))|]. rewrite size_le. intros a Ha. unfold m'.
      by rewrite write_out by (rewrite size_le; lia).
    + apply (at_write _ (p + 4) (le 4 ln)).
  - intros a Ha. unfold m'. by rewrite !write_out by (rewrite ?size_le, ?Hsn; lia).
Qed.

Lemma head_read limit m buf name ty ln : at_ m buf (name ++ [NUL] ++ le 4 ty ++ le 4 ln) →
  NUL ∉ name → (length name < limit)%nat → - 2 ^ 31 <= ty < 2 ^ 31 → - 2 ^ 31 <= ln < 2 ^ 31 →
  cstring limit m buf = Some name ∧
  buffer_to_hostent limit m buf =
    let p := buf + (size name + 1) in (λ q, Hostent buf ty ln (p + 8) (q + 8)) <$> array_end limit m (p + 8).
Proof.
  intros H Hn Hl Hty Hln. rewrite (app_assoc name) in H. apply at_app in H as [H1 H2]. rewrite size_app in H2. change (size [NUL]) with 1 in H2.
  apply at_app in H2 as [H2 H3]. rewrite size_le in H3. assert (cstring limit m buf = Some name) as Hc by (by apply cstring_at).
  split; [done|]. unfold buffer_to_hostent. rewrite Hc. cbn [mbind option_bind].
  rewrite (load_int m _ ty), (load_int m _ ln) by done. by destruct (array_end limit m _).
Qed.

(** A host entry is copied whole, into exactly the bytes it needs.  When the buffer is too short,
    nothing is written and the length that is needed is returned; otherwise the copy in the buffer
    has the same name, type, length, aliases and addresses as the original, each address as far as it
    is a C string, the bytes outside are what they were, and the original is intact. *)
Lemma hostent_dup_copies limit src dst buf buflen m v :
  view_of limit m src = Some v →
  (∀ m', (∀ a, ¬ (buf <= a < buf + buflen) → m' a = m a) → raw_of limit m' src = raw_of limit m src) →
  0 < buf → buf + buflen <= 2 ^ 64 → view_bytes v <= Z.of_nat limit →
  - 2 ^ 31 <= v_type v < 2 ^ 31 → - 2 ^ 31 <= v_length v < 2 ^ 31 →
  if buflen <? view_bytes v then hostent_dup limit src dst buf buflen m = Some (false, view_bytes v, dst, m)
  else ∃ dst' m', hostent_dup limit src dst buf buflen m = Some (true, buflen, dst', m') ∧
         view_of limit m' dst' = Some v ∧ view_of limit m' src = Some v ∧
         ∀ a, ¬ (buf <= a < buf + view_bytes v) → m' a = m a.
Proof.
  intros Hv Happart Hbuf Hhi Hlim Hty Hln. unfold view_of in Hv. destruct (raw_of limit m src) as [[[v' aps] dps]|] eqn:Er; [|done].
  injection Hv as ->. pose proof (raw_of_Some _ _ _ _ _ _ Er) as (E1 & E2 & E3 & E4 & E5 & E6 & E7).
  pose proof (length_mapM _ _ _ E5) as La. pose proof (length_mapM _ _ _ E7) as Ld.
  unfold hostent_dup. rewrite E1. cbn [mbind option_bind]. rewrite E4. cbn [mbind option_bind]. rewrite E5. cbn [mbind option_bind].
  rewrite E6. cbn [mbind option_bind]. rewrite E7. cbn [mbind option_bind]. rewrite La, Ld.
  replace (size (v_name v) + 1 + 8 + _ + _) with (view_bytes v) by done.
  destruct (Z.ltb_spec buflen (view_bytes v)) as [Hlt|Hge]; [done|].
  destruct v as [name ty ln aliases addrs]. unfold view_bytes in *. cbn [v_name v_type v_length v_aliases v_addrs] in *.
  set (na := Z.of_nat (length aliases)) in *. set (nd := Z.of_nat (length addrs)) in *.
  pose proof (lengths_nonneg aliases). pose proof (lengths_nonneg addrs). pose proof (size_nonneg name).
  assert (0 <= na ∧ 0 <= nd) as [Hna Hnd] by lia.
  set (hi := buf + (size name + 1 + 8 + (lengths aliases + 8 * (na + 1)) + (lengths addrs + 8 * (nd + 1)))).
  assert (Hsame : ∀ m', outside_same m buf hi m' → raw_of limit m' src = Some (View name ty ln aliases addrs, aps, dps)).
  { intros m' Hm'. rewrite Happart; [done|]. intros a Ha. apply Hm'. lia. }
  assert (Hsa : source limit m buf hi (h_aliases src) aps aliases).
  { apply source_of. intros m' Hm'. apply Hsame, raw_of_Some in Hm' as (_ & _ & _ & H4 & H5 & _). done. }
  assert (Hsd : source limit m buf hi (h_addr_list src) dps addrs).
  { apply source_of. intros m' Hm'. apply Hsame, raw_of_Some in Hm' as (_ & _ & _ & _ & _ & H6 & H7). done. }
  rewrite E2, E3. set (p1 := buf + (size name + 1)). set (m3 := write _ (p1 + 4) (le 4 ln)). set (A := p1 + 4 + 4).
  destruct (head_at m buf name ty ln) as [Hhd Hout]. fold p1 in Hhd, Hout. fold m3 in Hhd, Hout.
  assert (outside_same m buf hi m3) as Hm3 by (intros a Ha; apply Hout; lia).
  destruct (copy_spec limit m buf hi limit m3 (h_aliases src) aps aliases A (A + 8 * (na + 1) + 8 * (nd + 1)))
    as (m4 & Ec1 & Hm4 & Ha1 & Hs1 & Hr1); [by apply pointers_load in E4 as (_ & _ & ?)|done|done|lia..|].
  rewrite Ec1. cbn [mbind option_bind].
  destruct (copy_spec limit m buf hi limit m4 (h_addr_list src) dps addrs (A + 8 * (na + 1)) (A + 8 * (na + 1) + 8 * (nd + 1) + lengths aliases))
    as (m5 & Ec2 & Hm5 & Ha2 & Hs2 & Hr2); [by apply pointers_load in E6 as (_ & _ & ?)|done|done|lia..|].
  rewrite Ec2. cbn [mbind option_bind].
  assert (Hhead : at_ m5 buf (name ++ [NUL] ++ le 4 ty ++ le 4 ln)).
  { eapply at_agree; [exact Hhd|]. rewrite head_size. intros a Ha. rewrite Hr2, Hr1 by lia. done. }
  assert (Ha1' : at_ m5 A (concat (map (le 8) (places (A + 8 * (na + 1) + 8 * (nd + 1)) aliases)) ++ le 8 0)).
  { eapply at_agree; [exact Ha1|]. rewrite array_size. intros a Ha. apply Hr2; lia. }
  assert (Hs1' : at_ m5 (A + 8 * (na + 1) + 8 * (nd + 1)) (terminated aliases)).
  { eapply at_agree; [exact Hs1|]. rewrite size_terminated. intros a Ha. apply Hr2; lia. }
  pose proof (strings_no_nul _ _ _ _ E5). pose proof (strings_no_nul _ _ _ _ E7).
  destruct (array_read limit m5 A _ aliases Ha1' Hs1') as (Hp1 & He1 & Hq1); [lia..|done|].
  destruct (array_read limit m5 _ _ addrs Ha2 Hs2) as (Hp2 & He2 & Hq2); [lia..|done|].
  destruct (head_read limit m5 buf name ty ln Hhead) as [Hcn Hb]; [by apply cstring_no_nul in E1 as (? & ? & _)..|done|done|].
  rewrite Hb. cbv zeta. fold p1. replace (p1 + 8) with A by lia. rewrite He1. cbn [mbind option_bind fmap option_fmap option_map].
  eexists _, _. split; [done|]. split_and!.
  - unfold view_of, raw_of. cbn [h_name h_aliases h_addr_list h_addrtype h_length].
    rewrite Hcn. cbn [mbind option_bind]. rewrite Hp1. cbn [mbind option_bind]. rewrite Hq1. cbn [mbind option_bind].
    replace (A + 8 * Z.of_nat (length aliases) + 8) with (A + 8 * (na + 1)) by lia. rewrite Hp2. cbn [mbind option_bind]. by rewrite Hq2.
  - unfold view_of. by rewrite Hsame.
  - intros a Ha. by apply Hm5.
Qed.

(** ** The bytes of the addresses *)

(** The address of that number: as many bytes as the entry says, whatever they are. *)
Definition address (limit : nat) (m : mem) (h : hostent) (i : nat) : option str :=
  ps ← pointers limit m (h_addr_list h); p ← ps !! i; Some (read m p (Z.to_nat (h_length h))).

Lemma read_prefix m p s n : at_ m p s → (n <= length s)%nat → read m p n = take n s.
Proof.
  intros H Hn. rewrite <- (take_drop n s) in H. apply at_app in H as [H _]. apply read_at in H. by rewrite length_take_le in H.
Qed.

(** Where there is no zero byte among them they are part of the C string. *)
Lemma read_no_nul fuel m p s n : cstring fuel m p = Some s → NUL ∉ read m p n → (n <= length s)%nat ∧ read m p n = take n s.
Proof.
  intros (_ & _ & H)%cstring_no_nul Hn. destruct (decide (n <= length s)%nat) as [Hle|Hgt].
  { split; [done|]. apply read_prefix; [|done]. by apply at_app in H as [H _]. }
  exfalso. apply Hn. assert (∀ k q, (k < n)%nat → ∀ l, (l <= n)%nat → (k < l)%nat → m (q + Z.of_nat k) ∈ read m q l) as Hin.
  { intros k. induction k as [|k IH]; intros q Hk [|l] Hl Hkl; try lia; cbn [read].
    - rewrite Z.add_0_r. constructor.
    - apply list_elem_of_further. replace (q + Z.of_nat (S k)) with (q + 1 + Z.of_nat k) by lia. apply IH; lia. }
  rewrite <- (H (length s) NUL) at 1 by (by rewrite lookup_app_r, Nat.sub_diag). apply Hin; lia.
Qed.

(** Entries that say the same have the same addresses, as far as they have no zero byte. *)
Lemma same_addresses limit m m' h h' v i a : view_of limit m h = Some v → view_of limit m' h' = Some v →
  address limit m h i = Some a → NUL ∉ a → address limit m' h' i = Some a.
Proof.
  unfold view_of. intros ([[v1 aps] dps] & E & [= ->])%fmap_Some ([[v2 aps'] dps'] & E' & [= <-])%fmap_Some.
  apply raw_of_Some in E as (_ & _ & Hl & _ & _ & Hp & Hs). apply raw_of_Some in E' as (_ & _ & Hl' & _ & _ & Hp' & Hs'). simpl in *.
  unfold address. rewrite Hp, Hp', Hl, Hl'. cbn [mbind option_bind]. apply mapM_Some_1 in Hs, Hs'.
  intros (q & Hq & [= <-])%bind_Some Ha. destruct (Forall2_lookup_l _ _ _ _ _ Hs Hq) as (s & Hi & Hc).
  destruct (Forall2_lookup_r _ _ _ _ _ Hs' Hi) as (q' & -> & Hc'). cbn [mbind option_bind]. f_equal.
  destruct (read_no_nul _ _ _ _ _ Hc Ha) as [Hle ->]. apply read_prefix; [|done]. apply cstring_no_nul in Hc' as (_ & _ & H). by apply at_app in H as [H _].
Qed.

(** What [h_errno] says of an answer without an entry. *)
Definition error_of (a : answer) : Z := match a with NoData => NO_DATA | BadName => NO_RECOVERY | _ => HOST_NOT_FOUND end.

(** C37: [gethostbyname] answers with a copy of the entry that c-ares found.  Name, type, length and aliases are
    the original's, and the addresses are as C strings: each is the same up to its first zero byte, and is the same in
    all its bytes where none of them is zero; of an address with a zero byte the bytes behind it are not
    copied ([zero_byte]).  The copy lies in the first bytes of the static buffer and no other byte is written.
    When the buffer is too short, the buffer is enlarged and the question is asked again, and if that too finds an
    entry the assertion on the place of the result fails, whatever its length.  When c-ares finds none, the first time
    or the second, nothing is written and [h_errno] is what it says. *)
Theorem co_gethostbyname2_answers limit realloc ans1 ans2 h s_buffer s_buflen m :
  match ans1 with
  | Found src => ∀ v,
      view_of limit m src = Some v →
      (∀ m', (∀ a, ¬ (s_buffer <= a < s_buffer + s_buflen) → m' a = m a) → raw_of limit m' src = raw_of limit m src) →
      0 < s_buffer → s_buffer + s_buflen <= 2 ^ 64 → view_bytes v <= Z.of_nat limit →
      - 2 ^ 31 <= v_type v < 2 ^ 31 → - 2 ^ 31 <= v_length v < 2 ^ 31 →
      if s_buflen <? view_bytes v then
        let grown := (realloc s_buffer (view_bytes v), view_bytes v) in
        co_gethostbyname2 limit realloc ans1 ans2 h s_buffer s_buflen m =
          Some (match ans2 with Found _ => Abort | _ => Failed (error_of ans2) end, grown, m)
      else
        ∃ e m', co_gethostbyname2 limit realloc ans1 ans2 h s_buffer s_buflen m = Some (Entry e, (s_buffer, s_buflen), m') ∧
          view_of limit m' e = Some v ∧ (∀ i a, address limit m src i = Some a → NUL ∉ a → address limit m' e i = Some a) ∧
          ∀ a, ¬ (s_buffer <= a < s_buffer + view_bytes v) → m' a = m a
  | _ => co_gethostbyname2 limit realloc ans1 ans2 h s_buffer s_buflen m = Some (Failed (error_of ans1), (s_buffer, s_buflen), m)
  end.
Proof.
  destruct ans1 as [| | |src|]; try (unfold co_gethostbyname2, with_ares; cbn; by rewrite Z.ltb_irrefl).
  intros v Hv Hap H1 H2 H3 H4 H5. pose proof (hostent_dup_copies limit src h s_buffer s_buflen m v Hv Hap H1 H2 H3 H4 H5) as H.
  unfold co_gethostbyname2, with_ares. destruct (Z.ltb_spec s_buflen (view_bytes v)) as [Hlt|Hge].
  - rewrite H. cbn. rewrite (proj2 (Z.ltb_lt s_buflen (view_bytes v))) by done. by destruct ans2.
  - destruct H as (e & m' & -> & Hview & _ & Hout). exists e, m'. cbn. split_and!; [done|done| |done].
    intros i a. by apply same_addresses with v.
Qed.

(** The reentrant hooks write through what [*result] held before, and leave [ret_h] alone. *)
Lemma gethostbyname_r_wild limit src ret_h buf buflen m :
  gethostbyname_r limit (Found src) ret_h buf buflen Wild m = Some Undefined ∧
  gethostbyname_r limit (Found src) ret_h buf buflen Null m = Some Aborts.
Proof. done. Qed.

(** ** An entry *)
Section Laid.
Variables (limit : nat) (name : str) (ty ln : Z) (aliases addrs : list str) (A1 B1 A2 B2 : Z) (h : hostent).
Hypotheses (Hty : h_addrtype h = ty) (Hln : h_length h = ln) (HA1 : h_aliases h = A1) (HA2 : h_addr_list h = A2).
Hypotheses (Hn : NUL ∉ name) (Hnl : (length name < limit)%nat).
Hypotheses (Ha : Forall (λ s, NUL ∉ s) aliases) (Hd : Forall (λ s, NUL ∉ s) addrs).
Hypotheses (Hal : lengths aliases + 1 <= Z.of_nat limit) (Hdl : lengths addrs + 1 <= Z.of_nat limit).
Hypotheses (HB1 : 0 < B1) (HB1' : B1 + lengths aliases <= 2 ^ 64) (HB2 : 0 < B2) (HB2' : B2 + lengths addrs <= 2 ^ 64).

(** An entry laid out in memory reads as what it was made of. *)
Lemma raw_of_laid m :
  at_ m (h_name h) (name ++ [NUL]) → at_ m A1 (concat (map (le 8) (places B1 aliases)) ++ le 8 0) → at_ m B1 (terminated aliases) →
  at_ m A2 (concat (map (le 8) (places B2 addrs)) ++ le 8 0) → at_ m B2 (terminated addrs) →
  raw_of limit m h = Some (View name ty ln aliases addrs, places B1 aliases, places B2 addrs).
Proof.
  intros H0 H1 H2 H3 H4. unfold raw_of. rewrite (cstring_at limit m _ name) by done. cbn [mbind option_bind]. rewrite HA1, HA2.
  destruct (array_read limit m A1 B1 aliases H1 H2) as (-> & _ & E1); [done..|]. cbn [mbind option_bind]. rewrite E1. cbn [mbind option_bind].
  destruct (array_read limit m A2 B2 addrs H3 H4) as (-> & _ & E2); [done..|]. cbn [mbind option_bind]. rewrite E2. cbn [mbind option_bind].
  by rewrite Hty, Hln.
Qed.
End Laid.

Module Host.
Definition byte (n : nat) : ascii := ascii_of_nat n.
(** [h], also [x], at 10.1.2.3; and at 127.0.0.1. *)
Definition text (addr : str) : str :=
  lit "h" ++ [NUL] ++ le 8 1040 ++ le 8 0 ++ le 8 1050 ++ le 8 0 ++ lit "......" ++ lit "x" ++ [NUL] ++ lit "........" ++ addr ++ [NUL].
Definition start (addr : str) : mem := write (λ _, NUL) 1000 (text addr).
Definition e : hostent := Hostent 1000 2 4 1002 1018.
Definition ten : str := [byte 10; byte 1; byte 2; byte 3].
Definition local : str := [byte 127; byte 0; byte 0; byte 1].
Definition the_view (addr : str) : view := View (lit "h") 2 4 [lit "x"] [addr].
Definition grow (p n : Z) : Z := 9000.

Lemma e_raw m : at_ m 1000 (text ten) → raw_of 200 m e = Some (the_view ten, [1040], [1050]).
Proof.
  intros H. unfold text in H.
  apply at_app in H as [H1 H]. apply at_app in H as [H2 H]. apply at_app in H as [H3 H]. apply at_app in H as [H4 H].
  apply at_app in H as [H5 H]. apply at_app in H as [H6 H]. apply at_app in H as [_ H]. apply at_app in H as [H7 H].
  apply at_app in H as [H8 H]. apply at_app in H as [_ H]. apply at_app in H as [H9 H10].
  apply (raw_of_laid 200 (lit "h") 2 4 [lit "x"] [ten] 1002 1040 1018 1050 e); try done; try (vm_compute; set_solver); try (vm_compute; lia).
  all: try (repeat constructor; vm_compute; set_solver).
  - apply at_app. by split.
  - apply (at_app m 1002 (le 8 1040) (le 8 0)). by split.
  - apply (at_app m 1040 (lit "x") [NUL]). by split.
  - apply (at_app m 1018 (le 8 1050) (le 8 0)). by split.
  - apply (at_app m 1050 ten [NUL]). by split.
Qed.

(** A static buffer with room; the address has no zero byte. *)
Lemma co_gethostbyname2_answers_witness : ∃ r m',
  co_gethostbyname2 200 grow (Found e) (Found e) (Hostent 0 0 0 0 0) 5000 100 (start ten) = Some (Entry r, (5000, 100), m') ∧
  view_of 200 m' r = Some (the_view ten) ∧ address 200 m' r 0 = Some ten.
Proof.
  assert (raw_of 200 (start ten) e = Some (the_view ten, [1040], [1050])) as Hr by (apply e_raw, at_write).
  destruct (co_gethostbyname2_answers 200 grow (Found e) (Found e) (Hostent 0 0 0 0 0) 5000 100 (start ten) (the_view ten)) as (r & m' & E & Hv & Ha & _).
  - unfold view_of. by rewrite Hr.
  - intros m' Hm'. rewrite Hr. apply e_raw. eapply at_agree; [apply at_write|]. intros a Ha. apply Hm'.
    change (size (text ten)) with 55 in Ha. lia.
  - done.
  - done.
  - by vm_compute.
  - done.
  - done.
  - exists r, m'. split_and!; [done|done|]. apply Ha; [vm_compute; reflexivity|apply (bool_decide_unpack _); vm_compute; exact I].
Defined.

(** One byte less than the 49 the entry takes, and the second answer ends the program. *)
Example retry_aborts : ∃ b m, co_gethostbyname2 200 grow (Found e) (Found e) (Hostent 0 0 0 0 0) 5000 48 (start ten) = Some (Abort, b, m).
Proof. eexists _, _. reflexivity. Qed.

(** The address is cut at its first zero byte: the copy has one byte of 127.0.0.1 and three that are
    not written. *)
Example zero_byte : let r := co_gethostbyname2 200 grow (Found e) (Found e) (Hostent 0 0 0 0 0) 5000 100 (write (start local) 5000 (repeat (byte 9) 100)) in
  match r with
  | Some (Entry e, _, m) => read m (load 8 m (h_addr_list e)) 4 = [byte 127; byte 0; byte 9; byte 9]
  | _ => False
  end.
Proof. vm_compute. reflexivity. Qed.
End Host.
End HostEntSpec.
