(* ===== verification/Http.v ===== *)
(** * The HTTP server and client (common/server/server_http.hpp, client_http.hpp)

    A request is written by [ClientBase::request] and read by [ServerBase::parse_request]; the bytes
    of the connection are a string.  Sockets are not modelled beyond the bytes they deliver, the
    regular expressions of the resources are matched by a parameter. *)
From S2P Require Import Prelude CppString Decimal.

#[local] Open Scope Z_scope.

(** ** Streams *)
Module Stream.

(** [std::istream]: the bytes left and whether the state is good. *)
Record t := mk { input : str; good : bool }.

(** [getline(stream, line)]: the line is not touched when the stream is not good. *)
Definition getline (line : str) (s : t) : str * t :=
  if good s then
    match index_of LF (input s) with
    | Some i => (take i (input s), mk (drop (S i) (input s)) true)
    | None => (input s, mk [] false)
    end
  else (line, s).

Lemma getline_line l r line : LF ∉ l → getline line (mk (l ++ LF :: r) true) = (l, mk r true).
Proof.
  intros Hl. unfold getline. simpl. rewrite index_of_app by done. rewrite take_app_length.
  f_equal. f_equal. rewrite (cons_middle LF l r), app_assoc. rewrite <- (drop_app_length (l ++ [LF]) r) at 2.
  f_equal. rewrite length_app. simpl. lia.
Qed.
End Stream.

(** ** The server *)
Module Server.
Import Stream.

(** What is thrown: [std::out_of_range] by [substr], [std::invalid_argument] by [stoull]. *)
Inductive exn := out_of_range | invalid_argument.

(*@ common/server/server_http.hpp 118-134 Request *)
Record Request := mkRequest { method : str; path : str; http_version : str; header : gmap str str }.

Definition new_request : Request := mkRequest [] [] [] ∅.

Definition at_ (line : str) (i : Z) : ascii := default NUL (line !! Z.to_nat i).

(** [header[line.substr(0, param_end)] = line.substr(value_start, ..)] *)
Definition header_entry (line : str) (param_end : Z) : option (str * str) :=
  let value_start := param_end + 1 in
  let value_start := if bool_decide (at_ line value_start = " "%char) then value_start + 1 else value_start in
  match substr line 0 param_end, substr line value_start (u64 (size line - value_start - 1)) with
  | Some k, Some v => Some (k, v)
  | _, _ => None
  end.

(** The loop over the header lines, up to one without a colon. *)
(*@ common/server/server_http.hpp 320-331 parse_request *)
Fixpoint header_loop (fuel : nat) (line : str) (h : gmap str str) (s : Stream.t) : option (result exn (gmap str str) * Stream.t) :=
  match fuel with
  | O => None
  | S fuel =>
      let param_end := find_char line ":" 0 in
      if param_end =? npos then Some (Ok h, s)
      else match header_entry line param_end with
           | Some (k, v) =>
               let '(line, s) := getline line s in
               header_loop fuel line (<[k := v]> h) s
           | None => Some (Err out_of_range, s)
           end
  end.

(*@ common/server/server_http.hpp 305-334 parse_request *)
Definition parse_request (fuel : nat) (request : Request) (s : Stream.t) : option (result exn Request * Stream.t) :=
  let '(line, s) := getline [] s in
  let method_end := find_char line " " 0 in
  let path_end := find_char line " " (u64 (method_end + 1)) in
  if negb (method_end =? npos) && negb (path_end =? npos) then
    match substr line 0 method_end,
          substr line (method_end + 1) (u64 (path_end - method_end - 1)),
          substr line (path_end + 6) (u64 (size line - path_end - 7)) with
    | Some m, Some p, Some v =>
        let '(line, s) := getline line s in
        match header_loop fuel line (header request) s with
        | Some (Ok h, s) => Some (Ok (mkRequest m p v h), s)
        | Some (Err e, s) => Some (Err e, s)
        | None => None
        end
    | _, _, _ => Some (Err out_of_range, s)
    end
  else Some (Ok request, s).

(** The log line of [read_request_and_content] takes the first line out of the buffer and puts it
    back at the end. *)
(*@ common/server/server_http.hpp 262-268 read_request_and_content *)
Definition log_first_line (buffer : str) : str :=
  let '(myString, s) := getline [] (mk buffer true) in input s ++ myString.

(** How reading a request ends: it is handed to [find_resource] with its content, or the server
    waits for bytes that do not come, or an exception leaves the handler. *)
Inductive reading := Dispatch (r : Request) (content : str) | Waiting (missing : Z) | Throws (e : exn).

(** [stoull] of a header: an optional sign and digits after white space; too long a number throws
    [std::out_of_range]. *)
Definition stoull (s : str) : result exn Z :=
  match read_int (skip_ws s) with
  | Some (n, _) => if (2 ^ 64 <=? Z.abs n) then Err out_of_range else Ok (u64 n)
  | None => Err invalid_argument
  end.

(** [buffer] is what the stream buffer holds when [async_read_until] completes and [rest] what the
    socket delivers afterwards. *)
(*@ common/server/server_http.hpp 237-303 read_request_and_content *)
Definition read_request_and_content (fuel : nat) (buffer rest : str) : option reading :=
  match index_of_str (crlf ++ crlf) buffer with
  | None => Some (Waiting (size rest))
  | Some i =>
      let bytes_transferred := Z.of_nat i + 4 in
      let num_additional_bytes := size buffer - bytes_transferred in
      match parse_request fuel new_request (mk buffer true) with
      | None => None
      | Some (Err e, _) => Some (Throws e)
      | Some (Ok request, s) =>
          let content := log_first_line (input s) in
          match header request !! lit "Content-Length" with
          | Some l =>
              match stoull l with
              | Err e => Some (Throws e)
              | Ok n =>
                  let wanted := u64 (n - num_additional_bytes) in
                  if wanted <=? size rest then Some (Dispatch request (content ++ take (Z.to_nat wanted) rest))
                  else Some (Waiting (wanted - size rest))
              end
          | None => Some (Dispatch request content)
          end
      end
  end.

(** *** Resources *)
Section Resources.
Context {regex func : Type}.
Variable regex_match : str → regex → bool.

(** [resource], as the loops of [start] go through it: for a path expression, its methods. *)
Abbreviation resources := (list (regex * list (str * func))).
Abbreviation opt_resources := (list (str * list (regex * func))).

(** The entry of the method, made at the end if it is missing. *)
(*@ common/server/server_http.hpp 151-163 start *)
Fixpoint add_resource (method : str) (e : regex * func) (l : opt_resources) : opt_resources :=
  match l with
  | [] => [(method, [e])]
  | (m, es) :: l => if decide (method = m) then (m, es ++ [e]) :: l else (m, es) :: add_resource method e l
  end.

(*@ common/server/server_http.hpp 147-166 start *)
Definition start (resource : resources) : opt_resources :=
  foldl (λ opt '(re, methods), foldl (λ opt '(m, f), add_resource m (re, f) opt) opt methods) [] resource.

Fixpoint find_path (p : str) (es : list (regex * func)) : option func :=
  match es with
  | [] => None
  | (re, f) :: es => if regex_match p re then Some f else find_path p es
  end.

Fixpoint find_method (m p : str) (opt_resource : opt_resources) : option func :=
  match opt_resource with
  | [] => None
  | (m', es) :: opt_resource =>
      if decide (m = m') then match find_path p es with Some f => Some f | None => find_method m p opt_resource end
      else find_method m p opt_resource
  end.

(*@ common/server/server_http.hpp 336-354 find_resource *)
Definition find_resource (opt_resource : opt_resources) (default_resource : gmap str func) (m p : str) : option func :=
  match find_method m p opt_resource with
  | Some f => Some f
  | None => default_resource !! m
  end.
End Resources.
End Server.

(** ** The client *)
Module Client.
Import Stream.

(** The headers are the entries of a [std::map], in order. *)
(*@ common/server/client_http.hpp 36-57 request *)
Definition request_bytes (request_type path host : str) (header : list (str * str)) (content : str) : str :=
  let corrected_path := if decide (path = []) then lit "/" else path in
  let content_length := size content in
  request_type ++ lit " " ++ corrected_path ++ lit " HTTP/1.1" ++ crlf ++
  lit "Host: " ++ host ++ crlf ++
  concat (map (λ '(k, v), k ++ lit ": " ++ v ++ crlf) header) ++
  (if 0 <? content_length then lit "Content-Length: " ++ dec content_length ++ crlf else []) ++
  crlf ++ (if 0 <? content_length then content else []).

(*@ common/server/client_http.hpp 14-28 Response *)
Record Response := mkResponse { http_version : str; status_code : str; header : gmap str str }.

(** The loop over the header lines is the server's. *)
(*@ common/server/client_http.hpp 146-167 parse_response_header *)
Definition parse_response_header (fuel : nat) (s : Stream.t) : option (result Server.exn Response * Stream.t) :=
  let '(line, s) := getline [] s in
  let version_end := find_char line " " 0 in
  if negb (version_end =? npos) then
    match substr line 5 (u64 (version_end - 5)), substr line (version_end + 1) (u64 (size line - version_end - 2)) with
    | Some v, Some c =>
        let '(line, s) := getline line s in
        match Server.header_loop fuel line ∅ s with
        | Some (Ok h, s) => Some (Ok (mkResponse v c h), s)
        | Some (Err e, s) => Some (Err e, s)
        | None => None
        end
    | _, _ => Some (Err Server.out_of_range, s)
    end
  else Some (Ok (mkResponse [] [] ∅), s).

(** *** Reading the socket: the stream buffer and the segments still to come *)
Definition conn : Type := str * list str.

(** [read_until]: segments are appended until the delimiter is there; [None] when the connection
    ends first. *)
Fixpoint read_until (delim buffer : str) (segs : list str) : option (nat * conn) :=
  match index_of_str delim buffer with
  | Some i => Some ((i + length delim)%nat, (buffer, segs))
  | None => match segs with [] => None | x :: segs => read_until delim (buffer ++ x) segs end
  end.

(** [read] with [transfer_exactly(n)]. *)
Fixpoint read_exactly (n : nat) (buffer : str) (segs : list str) : option conn :=
  if decide (n = 0)%nat then Some (buffer, segs)
  else match segs with
       | [] => None
       | x :: segs => if decide (n < length x)%nat then Some (buffer ++ take n x, drop n x :: segs)
                      else read_exactly (n - length x) (buffer ++ x) segs
       end.

Definition hval (c : ascii) : option Z :=
  let n := Z.of_nat (nat_of_ascii c) in
  if (48 <=? n) && (n <=? 57) then Some (n - 48)
  else if (97 <=? n) && (n <=? 102) then Some (n - 87)
  else if (65 <=? n) && (n <=? 70) then Some (n - 55)
  else None.

Fixpoint hex_digits (acc : Z) (s : str) : Z :=
  match s with
  | c :: r => match hval c with Some d => hex_digits (16 * acc + d) r | None => acc end
  | [] => acc
  end.

(** A prefix 0x or 0X is skipped when a digit follows. *)
Definition skip_0x (s : str) : str :=
  match s with
  | "0"%char :: x :: c :: r =>
      if bool_decide (x = "x"%char ∨ x = "X"%char) && bool_decide (is_Some (hval c)) then c :: r else s
  | _ => s
  end.

(** [stoull(s, 0, 16)]; [None] throws. *)
Definition stoull16 (s : str) : option Z :=
  let s := skip_ws s in
  let '(neg, s) := match s with
                   | c :: r => if decide (c = "-"%char) then (true, r) else if decide (c = "+"%char) then (false, r) else (false, s)
                   | [] => (false, [])
                   end in
  match skip_0x s with
  | c :: r => match hval c with
              | Some _ => let n := hex_digits 0 (skip_0x s) in
                          if n <? 2 ^ 64 then Some (if neg : bool then u64 (- n) else n) else None
              | None => None
              end
  | [] => None
  end.

(** The loop over the chunks: the content that was decoded and what is left in the buffer.  [None]
    is an exception (the connection ended, or a bad length). *)
(*@ common/server/client_http.hpp 82-104 request *)
Fixpoint read_chunks (fuel : nat) (content : str) (c : conn) : option (str * conn) :=
  match fuel with
  | O => None
  | S fuel =>
      match read_until crlf c.1 c.2 with
      | None => None
      | Some (bytes_transferred, (buffer, segs)) =>
          let '(line, s) := getline [] (mk buffer true) in
          let bytes_transferred := u64 (Z.of_nat bytes_transferred - (size line + 1)) in
          match stoull16 (take (length line - 1) line) with
          | None => None
          | Some length =>
              let num_additional_bytes := u64 (size (input s) - bytes_transferred) in
              match (if num_additional_bytes <? u64 (2 + length)
                     then read_exactly (Z.to_nat (u64 (2 + length) - num_additional_bytes)) (input s) segs
                     else Some (input s, segs)) with
              | None => None
              | Some (buffer, segs) =>
                  let n := Z.to_nat length in
                  let content := content ++ take n buffer in
                  let buffer := drop (n + 2) buffer in
                  if 0 <? length then read_chunks fuel content (buffer, segs)
                  else Some (content, (buffer, segs))
              end
          end
      end
  end.

(** What [response->content] holds: the rest of the buffer, then what was decoded. *)
(*@ common/server/client_http.hpp 78-108 request *)
Definition chunked_content (fuel : nat) (c : conn) : option (str * list str) :=
  match read_chunks fuel [] c with
  | Some (content, (buffer, segs)) => Some (buffer ++ content, segs)
  | None => None
  end.

(** [host:port] of the constructor; the port is a [stoul] cut to 16 bits. *)
(*@ common/server/client_http.hpp 129-142 ClientBase *)
Definition parse_host_port (host_port : str) (default_port : Z) : result Server.exn (str * Z) :=
  let host_end := find_char host_port ":" 0 in
  if host_end =? npos then Ok (host_port, default_port)
  else match substr host_port 0 host_end, substr host_port (host_end + 1) npos with
       | Some host, Some p => match Server.stoull p with Ok n => Ok (host, u16 n) | Err e => Err e end
       | _, _ => Err Server.out_of_range
       end.
End Client.
