(* ===== verification/HttpSpec.v ===== *)
(** * HTTP: what the client writes the server reads (properties of Http.v) *)
From S2P Require Import Prelude CppString Decimal Http.
Import Stream.

#[local] Open Scope Z_scope.

Module HttpSpec.
#[local] Arguments lit : simpl never.

(** ** Lines *)
Abbreviation no c s := (c ∉ s) (only parsing).

Create Rewrite HintDb size.
#[local] Hint Rewrite size_app size_cons size_nil : size.

Lemma substr_prefix a b : substr (a ++ b) 0 (size a) = Some a.
Proof. exact (substr_mid [] a b). Qed.

Ltac size_solve := autorewrite with size in *; lia.

Lemma find_after a b c : no c b → ∀ d, find_char (a ++ b ++ c :: d) c (size a) = size a + size b.
Proof. intros Hb d. rewrite find_char_app, index_of_app by done. done. Qed.

Lemma find_none (s : str) c : no c s → find_char s c 0 = npos.
Proof. intros Hs. rewrite find_char_0. by rewrite (proj2 (index_of_None c s)). Qed.

(** Appends to the right. *)
Ltac app_norm := repeat first [rewrite <- app_assoc | progress cbn [app]].

(** A header line without its line feed. *)
Definition header_line (e : str * str) : str := e.1 ++ lit ": " ++ e.2 ++ [CR].
Definition header_ok (e : str * str) : Prop :=
  no ":"%char e.1 ∧ no LF e.1 ∧ no LF e.2 ∧ size (header_line e) < 2 ^ 63.

Lemma header_entry_line e : header_ok e → Server.header_entry (header_line e) (size e.1) = Some e.
Proof.
  destruct e as [k v]. intros (Hk & _ & _ & Hs). unfold Server.header_entry, header_line in *. cbn [fst snd] in *.
  change (lit ": " ++ v ++ [CR]) with (":"%char :: " "%char :: v ++ [CR]) in *.
  pose proof (size_nonneg k). pose proof (size_nonneg v).
  assert (Server.at_ (k ++ ":"%char :: " "%char :: v ++ [CR]) (size k + 1) = " "%char) as ->.
  { unfold Server.at_. rewrite lookup_app_r by (unfold size; lia).
    replace (Z.to_nat (size k + 1) - length k)%nat with 1%nat by (unfold size; lia). done. }
  rewrite bool_decide_true by done.
  rewrite substr_prefix.
  replace (k ++ ":"%char :: " "%char :: v ++ [CR]) with ((k ++ [":"%char; " "%char]) ++ v ++ [CR]) by by rewrite <- app_assoc.
  replace (size k + 1 + 1) with (size (k ++ [":"%char; " "%char])) by size_solve.
  replace (u64 _) with (size v); [by rewrite substr_mid|].
  rewrite u64_small; size_solve.
Qed.

Lemma find_colon e : header_ok e → find_char (header_line e) ":" 0 = size e.1.
Proof. intros (Hk & _). unfold header_line. pose proof (find_after [] e.1 ":" Hk (" "%char :: e.2 ++ [CR])) as H. exact H. Qed.

Lemma no_lf_line e : header_ok e → no LF (header_line e).
Proof.
  intros (_ & Hk & Hv & _). unfold header_line. change (lit ": ") with [":"%char; " "%char].
  rewrite !not_elem_of_app. repeat split; try done; by apply (bool_decide_unpack _).
Qed.

Definition headers_text (hs : list (str * str)) : str := concat (map (λ e, header_line e ++ [LF]) hs).
Definition add_header (h : gmap str str) (e : str * str) : gmap str str := <[e.1 := e.2]> h.

(** The loop reads the header lines up to the empty line. *)
Lemma header_loop_lines hs fuel h line r :
  Forall header_ok hs → (length hs < fuel)%nat →
  let '(line, s) := getline line (mk (headers_text hs ++ crlf ++ r) true) in
  Server.header_loop fuel line h s = Some (Ok (foldl add_header h hs), mk r true).
Proof.
  intros Hok. revert fuel h line. induction Hok as [|e hs He Hok IH]; intros [|fuel] h line Hf; simpl in Hf; try lia.
  - change (headers_text [] ++ crlf ++ r) with ([CR] ++ LF :: r). rewrite getline_line by by apply (bool_decide_unpack _).
    done.
  - replace (headers_text (e :: hs) ++ crlf ++ r) with (header_line e ++ LF :: headers_text hs ++ crlf ++ r)
      by (unfold headers_text; simpl; by rewrite <- !app_assoc).
    rewrite getline_line by by apply no_lf_line. cbn [Server.header_loop]. rewrite find_colon by done.
    rewrite (proj2 (Z.eqb_neq _ npos)).
    2: { destruct He as (_ & _ & _ & Hs). unfold header_line, npos in *. change (lit ": ") with [":"%char; " "%char] in *.
       pose proof (size_nonneg e.2). size_solve. }
    rewrite header_entry_line by done. destruct e as [k v].
    specialize (IH fuel (<[k := v]> h) (header_line (k, v)) ltac:(lia)).
    by destruct (getline _ _).
Qed.

(** The headers of a request, in the order they are written. *)
Definition request_headers (host : str) (header : list (str * str)) (content : str) : list (str * str) :=
  (lit "Host", host) :: header ++ (if 0 <? size content then [(lit "Content-Length", dec (size content))] else []).

(** The first line of a request without its line feed. *)
Definition request_line (request_type path : str) : str := request_type ++ " "%char :: path ++ " "%char :: lit "HTTP/1.1" ++ [CR].

Lemma request_text request_type path host header content r :
  Client.request_bytes request_type path host header content ++ r =
    request_line request_type (if decide (path = []) then lit "/" else path) ++
    LF :: headers_text (request_headers host header content) ++ crlf ++ content ++ r.
Proof.
  unfold Client.request_bytes, request_line, request_headers, headers_text.
  set (p := if decide (path = []) then lit "/" else path).
  assert (concat (map (λ '(k, v), k ++ lit ": " ++ v ++ crlf) header) =
          concat (map (λ e, header_line e ++ [LF]) header)) as ->.
  { f_equal. apply map_ext. intros [k v]. unfold header_line. cbn [fst snd]. change crlf with ([CR] ++ [LF]). by rewrite <- !app_assoc. }
  assert ((if 0 <? size content then content else []) = content) as ->.
  { destruct content; [done|]. rewrite (proj2 (Z.ltb_lt _ _)); [done|]. unfold size. simpl. lia. }
  cbn [map concat]. rewrite map_app, concat_app.
  assert ((if 0 <? size content then lit "Content-Length: " ++ dec (size content) ++ crlf else []) =
          concat (map (λ e, header_line e ++ [LF]) (if 0 <? size content then [(lit "Content-Length", dec (size content))] else []))) as ->.
  { destruct (0 <? size content); [|done]. cbn [map concat]. unfold header_line. cbn [fst snd].
    rewrite app_nil_r, <- !app_assoc. done. }
  change (header_line (lit "Host", host)) with (lit "Host" ++ lit ": " ++ host ++ [CR]).
  change (lit "Host: ") with (lit "Host" ++ lit ": "). change (lit " HTTP/1.1") with (" "%char :: lit "HTTP/1.1").
  change crlf with ([CR] ++ [LF]). change (lit " ") with [" "%char].
  by app_norm.
Qed.

(** The first line gives the method, the path and the version. *)
Lemma request_line_parts m p :
  no " "%char m → no " "%char p → size (request_line m p) < 2 ^ 63 →
  let line := request_line m p in
  find_char line " " 0 = size m ∧ find_char line " " (u64 (size m + 1)) = size m + 1 + size p ∧
  substr line 0 (size m) = Some m ∧ substr line (size m + 1) (u64 (size m + 1 + size p - size m - 1)) = Some p ∧
  substr line (size m + 1 + size p + 6) (u64 (size line - (size m + 1 + size p) - 7)) = Some (lit "1.1").
Proof.
  intros Hm Hp Hs line. pose proof (size_nonneg m). pose proof (size_nonneg p).
  assert (size line = size m + size p + 11) as Hl.
  { unfold line, request_line. change (lit "HTTP/1.1" ++ [CR]) with (lit "HTTP/" ++ lit "1.1" ++ [CR]).
    autorewrite with size. change (size (lit "HTTP/")) with 5. change (size (lit "1.1")) with 3. change (size [CR]) with 1. lia. }
  fold line in Hs.
  assert (line = (m ++ [" "%char]) ++ p ++ " "%char :: lit "HTTP/1.1" ++ [CR]) as E1 by (unfold line, request_line; by rewrite <- app_assoc).
  assert (size (m ++ [" "%char]) = size m + 1) as Em by size_solve.
  split_and!.
  - exact (find_after [] m " " Hm _).
  - rewrite u64_small by lia. rewrite <- Em, E1. by apply find_after.
  - apply substr_prefix.
  - rewrite u64_small by lia. replace (size m + 1 + size p - size m - 1) with (size p) by lia. rewrite <- Em, E1. apply substr_mid.
  - rewrite u64_small by lia.
    assert (line = (m ++ [" "%char] ++ p ++ [" "%char] ++ lit "HTTP/") ++ lit "1.1" ++ [CR]) as E2.
    { rewrite E1. change (lit "HTTP/1.1") with (lit "HTTP/" ++ lit "1.1"). by app_norm. }
    replace (size line - (size m + 1 + size p) - 7) with (size (lit "1.1")) by (change (size (lit "1.1")) with 3; lia).
    replace (size m + 1 + size p + 6) with (size (m ++ [" "%char] ++ p ++ [" "%char] ++ lit "HTTP/")).
    2: { autorewrite with size. change (size (lit "HTTP/")) with 5. lia. }
    rewrite E2. apply substr_mid.
Qed.

Lemma digits_no_lf s : Forall (λ c, is_digit c = true) s → no LF s.
Proof. intros Hs Hin. rewrite Forall_forall in Hs. specialize (Hs _ Hin). done. Qed.

Lemma request_headers_ok host header content :
  no LF host → size host < 2 ^ 62 → size content < 10 ^ 18 → Forall header_ok header →
  Forall header_ok (request_headers host header content).
Proof.
  intros Hh Hs Hc Hok. unfold request_headers. pose proof (size_nonneg content). constructor.
  - split_and!; [by apply (bool_decide_unpack _)..|done|]. unfold header_line. cbn [fst snd].
    change (lit ": ") with [":"%char; " "%char]. autorewrite with size. change (size (lit "Host")) with 4. lia.
  - apply Forall_app. split; [done|]. destruct (0 <? size content); [|constructor]. constructor; [|constructor].
    assert (size (dec (size content)) <= 18) as Hl.
    { pose proof (dec_length (size content) 18 ltac:(lia) ltac:(lia) Hc) as Hl. set (n := dec (size content)) in *. unfold size. lia. }
    split_and!; [by apply (bool_decide_unpack _)..|by apply digits_no_lf, dec_digits; lia|]. unfold header_line. cbn [fst snd].
    change (lit ": ") with [":"%char; " "%char]. autorewrite with size. change (size (lit "Content-Length")) with 14. lia.
Qed.

(** A request line and header lines are parsed, whatever follows. *)
Lemma parse_text fuel m p hs r :
  no " "%char m → no LF m → no " "%char p → no LF p → size (request_line m p) < 2 ^ 63 → Forall header_ok hs → (length hs < fuel)%nat →
  Server.parse_request fuel Server.new_request (mk (request_line m p ++ LF :: headers_text hs ++ crlf ++ r) true) =
    Some (Ok (Server.mkRequest m p (lit "1.1") (foldl add_header ∅ hs)), mk r true).
Proof.
  intros Hm Hml Hp Hpl Hs1 Hok Hfuel. unfold Server.parse_request.
  assert (no LF (request_line m p)) as Hl.
  { unfold request_line. rewrite not_elem_of_app, not_elem_of_cons, not_elem_of_app.
    repeat split; try done; by apply (bool_decide_unpack _). }
  rewrite getline_line by done.
  destruct (request_line_parts m p Hm Hp Hs1) as (E1 & E2 & E3 & E4 & E5).
  rewrite E1, E2. pose proof (size_nonneg m). pose proof (size_nonneg p). pose proof (size_nonneg (lit "HTTP/1.1")).
  rewrite (proj2 (Z.eqb_neq _ npos)), (proj2 (Z.eqb_neq _ npos)) by (unfold npos; unfold request_line in Hs1; size_solve).
  cbn [negb andb]. rewrite E3, E4, E5.
  pose proof (header_loop_lines hs fuel ∅ (request_line m p) r Hok Hfuel) as Hloop.
  destruct (getline _ _) as [l s]. cbn [Server.header Server.new_request]. by rewrite Hloop.
Qed.

(** The sizes of the parts are bounded by the whole. *)
Lemma request_sizes m p host header content r :
  size (request_line m p ++ LF :: headers_text (request_headers host header content) ++ r) < 2 ^ 62 →
  size (request_line m p) < 2 ^ 63 ∧ size host < 2 ^ 62.
Proof.
  intros Hs.
  assert (∀ e hs, size e.2 <= size (headers_text (e :: hs))) as Hle.
  { intros e hs. unfold headers_text, header_line. cbn [map concat]. autorewrite with size.
    pose proof (size_nonneg e.1). pose proof (size_nonneg (lit ": ")).
    pose proof (size_nonneg (concat (map (λ e0, (e0.1 ++ lit ": " ++ e0.2 ++ [CR]) ++ [LF]) hs))). lia. }
  specialize (Hle (lit "Host", host) (header ++ (if 0 <? size content then [(lit "Content-Length", dec (size content))] else []))).
  cbn [snd] in Hle. fold (request_headers host header content) in Hle. autorewrite with size in Hs.
  pose proof (size_nonneg (request_line m p)). pose proof (size_nonneg (headers_text (request_headers host header content))).
  pose proof (size_nonneg r). lia.
Qed.

Lemma corrected_ok path : no " "%char path → no LF path →
  no " "%char (if decide (path = []) then lit "/" else path) ∧ no LF (if decide (path = []) then lit "/" else path).
Proof. intros H1 H2. destruct (decide (path = [])); [|done]. split; by apply (bool_decide_unpack _). Qed.

Lemma request_headers_length host header content : (length (request_headers host header content) <= length header + 2)%nat.
Proof. unfold request_headers. simpl. rewrite length_app. destruct (0 <? size content); simpl; lia. Qed.

(** A request is read as it was written.  What [request] of the client puts on the connection,
    [parse_request] of the server takes apart into the same method, path, version and headers (the
    client's own Host and Content-Length among them), and leaves the content and whatever follows it
    in the stream; the condition is that the names contain no separator and no line feed. *)
Theorem request_roundtrip fuel request_type path host header content r :
  no " "%char request_type → no LF request_type → no " "%char path → no LF path → no LF host →
  Forall header_ok header → size (Client.request_bytes request_type path host header content) < 2 ^ 62 →
  size content < 10 ^ 18 →
  (length header + 2 < fuel)%nat →
  Server.parse_request fuel Server.new_request (mk (Client.request_bytes request_type path host header content ++ r) true) =
    Some (Ok (Server.mkRequest request_type (if decide (path = []) then lit "/" else path) (lit "1.1")
                (foldl add_header ∅ (request_headers host header content))),
          mk (content ++ r) true).
Proof.
  intros Hm Hml Hp Hpl Hh Hok Hs Hc Hfuel. rewrite request_text.
  rewrite <- (app_nil_r (Client.request_bytes _ _ _ _ _)), request_text in Hs. apply request_sizes in Hs as [Hs1 Hs2].
  destruct (corrected_ok path Hp Hpl). apply parse_text; try done.
  - by apply request_headers_ok.
  - pose proof (request_headers_length host header content). lia.
Qed.
(** ** The end of the headers *)
Definition blank : str := crlf ++ crlf.
Definition line_ok (l : str) : Prop := no LF l ∧ (2 <= length l)%nat ∧ l !! (length l - 1)%nat = Some CR.

Lemma prefix_blank s : is_prefix blank s = true → s !! 0%nat = Some CR ∧ s !! 1%nat = Some LF ∧ s !! 2%nat = Some CR ∧ s !! 3%nat = Some LF.
Proof. intros [t ->]%is_prefix_spec. done. Qed.

(** The first blank line of a text of lines is the one that ends them. *)
Lemma index_of_first p a s : is_prefix p (a ++ s) = true → length a = 0%nat → index_of_str p (a ++ s) = Some 0%nat.
Proof. intros H Ha. destruct a; [|done]. simpl in *. destruct s; simpl; by rewrite H. Qed.

Lemma index_of_str_skip p a s i : (∀ j, (j < length a)%nat → is_prefix p (drop j (a ++ s)) = false) →
  index_of_str p s = Some i → index_of_str p (a ++ s) = Some (length a + i)%nat.
Proof.
  induction a as [|c a IH]; intros Ha Hs; simpl; [done|].
  pose proof (Ha 0%nat ltac:(simpl; lia)) as H0. simpl in H0. rewrite H0, IH; [done| |done].
  intros j Hj. apply (Ha (S j)). simpl. lia.
Qed.

Lemma index_of_blank l ls r : Forall line_ok (l :: ls) →
  index_of_str blank (concat (map (λ l, l ++ [LF]) (l :: ls)) ++ crlf ++ r) =
    Some (length (concat (map (λ l, l ++ [LF]) (l :: ls))) - 2)%nat.
Proof.
  revert l. induction ls as [|l' ls IH]; intros l [(Hl & Hlen & Hcr) Hls]%Forall_cons.
  - cbn [map concat]. rewrite app_nil_r.
    assert (∃ l0, l = l0 ++ [CR]) as [l0 ->].
    { destruct l as [|c l _] using rev_ind; [simpl in Hlen; lia|]. rewrite length_app in Hcr. simpl in Hcr.
      rewrite lookup_app_r in Hcr by lia. replace (length l + 1 - 1 - length l)%nat with 0%nat in Hcr by lia. injection Hcr as ->. by exists l. }
    replace (((l0 ++ [CR]) ++ [LF]) ++ crlf ++ r) with (l0 ++ blank ++ r) by by app_norm.
    rewrite !length_app. simpl. replace (length l0 + 1 + 1 - 2)%nat with (length l0 + 0)%nat by lia.
    apply index_of_str_skip.
    + intros j Hj. apply not_true_is_false. intros (_ & H1 & _)%prefix_blank. rewrite lookup_drop in H1.
      apply not_elem_of_app in Hl as [Hl _]. destruct (decide (j + 1 < length l0)%nat).
      * rewrite lookup_app_l in H1 by lia. apply Hl. by eapply list_elem_of_lookup_2.
      * replace (j + 1)%nat with (length l0 + 0)%nat in H1 by lia. rewrite lookup_app_r in H1 by lia.
        replace (length l0 + 0 - length l0)%nat with 0%nat in H1 by lia. done.
    + by destruct r.
  - change (concat (map (λ l, l ++ [LF]) (l :: l' :: ls))) with ((l ++ [LF]) ++ concat (map (λ l, l ++ [LF]) (l' :: ls))).
    rewrite <- app_assoc. rewrite (length_app (l ++ [LF])).
    pose proof Hls as Hls'. apply Forall_cons in Hls' as [(Hl' & Hlen' & Hcr') _].
    assert (2 <= length (concat (map (λ l, l ++ [LF]) (l' :: ls))))%nat.
    { cbn [map concat]. rewrite !length_app. lia. }
    replace (length (l ++ [LF]) + _ - 2)%nat with (length (l ++ [LF]) + (length (concat (map (λ l, l ++ [LF]) (l' :: ls))) - 2))%nat by lia.
    apply index_of_str_skip; [|by apply IH].
    intros j Hj. apply not_true_is_false. intros (H0 & H1 & H2 & H3)%prefix_blank. rewrite lookup_drop in H0, H1, H2, H3.
    rewrite length_app in Hj. simpl in Hj.
    assert (∀ k, (k < length l)%nat → ((l ++ [LF]) ++ concat (map (λ l, l ++ [LF]) (l' :: ls)) ++ crlf ++ r) !! k ≠ Some LF) as Hno.
    { intros k Hk E. rewrite <- app_assoc, lookup_app_l in E by done. apply Hl. by eapply list_elem_of_lookup_2. }
    destruct (decide (j + 1 < length l)%nat); [by apply (Hno (j + 1)%nat)|].
    assert (∀ k, (length l + 1 + k < length l + 1 + length l')%nat →
              ((l ++ [LF]) ++ concat (map (λ l, l ++ [LF]) (l' :: ls)) ++ crlf ++ r) !! (length l + 1 + k)%nat ≠ Some LF) as Hno'.
    { intros k Hk E. rewrite lookup_app_r in E by (rewrite length_app; simpl; lia). rewrite length_app in E. simpl in E.
      replace (length l + 1 + k - (length l + 1))%nat with k in E by lia. rewrite <- !app_assoc, lookup_app_l in E by lia.
      apply Hl'. by eapply list_elem_of_lookup_2. }
    destruct (decide (j = length l)) as [->|].
    + rewrite <- app_assoc, lookup_app_r in H0 by lia. replace (length l + 0 - length l)%nat with 0%nat in H0 by lia. done.
    + apply (Hno' 1%nat); [lia|]. replace (length l + 1 + 1)%nat with (j + 3)%nat by lia. done.
Qed.

Lemma line_ok_snoc a : no LF a → a ≠ [] → line_ok (a ++ [CR]).
Proof.
  intros Ha Hne. split; [|split].
  - rewrite not_elem_of_app. split; [done|by apply (bool_decide_unpack _)].
  - rewrite length_app. destruct a; [done|]. simpl. lia.
  - rewrite length_app, lookup_app_r by (simpl; lia). simpl. by replace (length a + 1 - 1 - length a)%nat with 0%nat by lia.
Qed.

Lemma header_line_ok e : header_ok e → line_ok (header_line e).
Proof.
  intros He. pose proof (no_lf_line e He) as Hl. unfold header_line in *.
  assert (e.1 ++ lit ": " ++ e.2 ++ [CR] = (e.1 ++ lit ": " ++ e.2) ++ [CR]) as E by by app_norm.
  rewrite E in *. apply not_elem_of_app in Hl as [Hl _]. apply line_ok_snoc; [done|]. by destruct (e.1).
Qed.

Lemma stoull_dec n : 0 <= n < 10 ^ 18 → Server.stoull (dec n) = Ok n.
Proof.
  intros Hn. unfold Server.stoull.
  assert (Hd : dec n = dec_int n ++ []) by (unfold dec_int; destruct (Z.ltb_spec n 0); [lia|by rewrite app_nil_r]).
  destruct (dec_int_head n [] ltac:(lia)) as (c & d & E & Hc).
  rewrite Hd, E. cbn [skip_ws]. rewrite Hc, <- E, read_int_dec by (done || lia).
  destruct (Z.leb_spec (2 ^ 64) (Z.abs n)); [lia|]. by rewrite u64_small by lia.
Qed.

(** The line that is taken out for the log comes back at the end, without its line feed. *)
Lemma log_first_line_cases c :
  (no LF c → Server.log_first_line c = c) ∧ (∀ a b, c = a ++ LF :: b → no LF a → Server.log_first_line c = b ++ a).
Proof.
  unfold Server.log_first_line. split.
  - intros Hc. unfold getline. simpl. by rewrite (proj2 (index_of_None LF c) Hc).
  - intros a b -> Ha. by rewrite getline_line.
Qed.

(** The parts of a request whose headers have arrived with [c1] of its content: where they end, and
    what [parse_request] makes of them. *)
Lemma parse_parts fuel request_type path host header c1 c2 buffer :
  no " "%char request_type → no LF request_type → no " "%char path → no LF path → no LF host →
  Forall header_ok header → size (c1 ++ c2) < 10 ^ 18 → (length header + 2 < fuel)%nat →
  size (Client.request_bytes request_type path host header (c1 ++ c2)) < 2 ^ 62 →
  Client.request_bytes request_type path host header (c1 ++ c2) = buffer ++ c2 →
  ∃ i, index_of_str blank buffer = Some i ∧ length buffer = (i + 4 + length c1)%nat ∧
    Server.parse_request fuel Server.new_request (mk buffer true) =
      Some (Ok (Server.mkRequest request_type (if decide (path = []) then lit "/" else path) (lit "1.1")
                  (foldl add_header ∅ (request_headers host header (c1 ++ c2)))), mk c1 true).
Proof.
  intros Hm Hml Hp Hpl Hh Hok Hc Hfuel Hs Hb. set (content := c1 ++ c2) in *.
  set (hs := request_headers host header content). set (p := if decide (path = []) then lit "/" else path).
  set (X := concat (map (λ l, l ++ [LF]) (request_line request_type p :: map header_line hs))).
  assert (Hhs : headers_text hs = concat (map (λ l, l ++ [LF]) (map header_line hs))) by (unfold headers_text; by rewrite map_map).
  assert (Hx : ∀ r, X ++ crlf ++ r = request_line request_type p ++ LF :: headers_text hs ++ crlf ++ r).
  { intros r. unfold X. cbn [map concat]. rewrite <- Hhs. by app_norm. }
  pose proof (request_text request_type path host header content []) as Ht. rewrite app_nil_r in Ht. fold hs p in Ht.
  rewrite Hb, app_nil_r, <- Hx in Ht. unfold content in Ht. rewrite !app_assoc in Ht. apply app_inv_tail in Ht.
  rewrite <- app_assoc in Ht. rewrite Hb in Hs. rewrite Ht, Hx in Hs. rewrite <- app_assoc in Hs. cbn [app] in Hs. rewrite <- app_assoc in Hs.
  apply request_sizes in Hs as [Hs1 Hs2].
  assert (Forall header_ok hs) as Hhok by by apply request_headers_ok.
  destruct (corrected_ok path Hp Hpl) as [Hp' Hpl']. fold p in Hp', Hpl'.
  assert (line_ok (request_line request_type p)) as Hlok.
  { unfold request_line.
    replace (request_type ++ " "%char :: p ++ " "%char :: lit "HTTP/1.1" ++ [CR]) with
      ((request_type ++ " "%char :: p ++ " "%char :: lit "HTTP/1.1") ++ [CR]) by by app_norm.
    apply line_ok_snoc; [|by destruct request_type]. rewrite not_elem_of_app, not_elem_of_cons, not_elem_of_app.
    repeat split; try done; by apply (bool_decide_unpack _). }
  assert (2 <= length X)%nat as HX by (unfold X; cbn [map concat]; rewrite !length_app; unfold request_line; rewrite length_app; simpl; lia).
  exists (length X - 2)%nat. rewrite Ht. split_and!.
  - apply index_of_blank. constructor; [done|]. apply Forall_map. eapply Forall_impl; [exact Hhok|]. apply header_line_ok.
  - rewrite !length_app. change (length crlf) with 2%nat. lia.
  - rewrite Hx. apply parse_text; try done. pose proof (request_headers_length host header content). unfold hs. lia.
Qed.

(** The client announces the length of the content exactly when there is some. *)
Lemma request_length host header content : content ≠ [] →
  foldl add_header ∅ (request_headers host header content) !! lit "Content-Length" = Some (dec (size content)).
Proof.
  intros Hc. unfold request_headers. assert (0 < size content) as Hpos by (destruct content; [done|]; unfold size; simpl; lia).
  rewrite (proj2 (Z.ltb_lt _ _) Hpos), app_comm_cons, foldl_app. cbn [foldl]. unfold add_header at 1. cbn [fst snd].
  by rewrite lookup_insert_eq.
Qed.

Lemma foldl_add_header_ne hs h k : Forall (λ e, e.1 ≠ k) hs → foldl add_header h hs !! k = h !! k.
Proof.
  intros Hne. revert h. induction Hne as [|e hs He Hne IH]; intros h; simpl; [done|].
  rewrite IH. unfold add_header. by rewrite lookup_insert_ne.
Qed.

Lemma request_no_length host header : Forall (λ e, e.1 ≠ lit "Content-Length") header →
  foldl add_header ∅ (request_headers host header []) !! lit "Content-Length" = None.
Proof.
  intros Hne. unfold request_headers. change (0 <? size []) with false. cbn [app]. rewrite app_nil_r, foldl_add_header_ne; [done|].
  constructor; [by apply (bool_decide_unpack _)|done].
Qed.

(** The content a handler is given.  The server hands a complete request over as soon as the
    bytes Content-Length announces have arrived, with the parts the client wrote; but of the content
    only what comes after the read that completed the headers is kept in order.  If the part [c1]
    that arrived with the headers has no line feed, the content is what was sent; if it has one, the
    first line is moved behind the rest of [c1] and its line feed is lost. *)
Theorem content_read_back fuel request_type path host header c1 c2 buffer extra :
  no " "%char request_type → no LF request_type → no " "%char path → no LF path → no LF host →
  Forall header_ok header → c1 ++ c2 ≠ [] →
  size (Client.request_bytes request_type path host header (c1 ++ c2)) < 2 ^ 62 → size (c1 ++ c2) < 10 ^ 18 →
  (length header + 2 < fuel)%nat →
  Client.request_bytes request_type path host header (c1 ++ c2) = buffer ++ c2 →
  ∃ request content,
    Server.read_request_and_content fuel buffer (c2 ++ extra) = Some (Server.Dispatch request content) ∧
    Server.method request = request_type ∧
    (no LF c1 → content = c1 ++ c2) ∧
    (∀ a b, c1 = a ++ LF :: b → no LF a → content = b ++ a ++ c2).
Proof.
  intros Hm Hml Hp Hpl Hh Hok Hne Hs Hc Hfuel Hb. pose proof (size_nonneg c1). pose proof (size_nonneg c2).
  destruct (parse_parts fuel request_type path host header c1 c2 buffer) as (i & Hi & Hlen & Hparse); [done..|].
  eexists _, (Server.log_first_line c1 ++ c2). split; [|split].
  - unfold Server.read_request_and_content. fold blank. rewrite Hi, Hparse. cbn [Server.header input].
    rewrite request_length by done. rewrite stoull_dec by (pose proof (size_nonneg (c1 ++ c2)); lia).
    assert (size buffer - (Z.of_nat i + 4) = size c1) as -> by (unfold size; lia).
    rewrite size_app in Hc |- *. replace (size c1 + size c2 - size c1) with (size c2) by lia. rewrite u64_small by lia.
    rewrite (proj2 (Z.leb_le _ _)) by (rewrite size_app; pose proof (size_nonneg extra); lia).
    do 3 f_equal. unfold size. by rewrite Nat2Z.id, take_app_length.
  - done.
  - destruct (log_first_line_cases c1) as [H1 H2]. split.
    + intros Hn. by rewrite H1.
    + intros a b E Ha. rewrite (H2 a b E Ha). by app_norm.
Qed.

(** ** Resources *)
Section Resources.
Context {regex func : Type}.
Variable regex_match : str → regex → bool.

(** The first entry of the method whose expression matches, in the order of the table. *)
Definition lookup_in (m p : str) (es : list (regex * str * func)) : option func :=
  match list_find (λ '(re, m', f), m' = m ∧ regex_match p re = true) es with Some (_, (_, _, f)) => Some f | None => None end.
Definition flatten (resource : list (regex * list (str * func))) : list (regex * str * func) :=
  concat (map (λ '(re, ms), map (λ '(m, f), (re, m, f)) ms) resource).

Definition or_else {A} (a b : option A) : option A := match a with Some x => Some x | None => b end.

Lemma or_else_None {A} (a : option A) : or_else a None = a.
Proof. by destruct a. Qed.
Lemma or_else_assoc {A} (a b c : option A) : or_else (or_else a b) c = or_else a (or_else b c).
Proof. by destruct a. Qed.

Lemma find_path_app p es1 es2 : Server.find_path regex_match p (es1 ++ es2) =
  or_else (Server.find_path regex_match p es1) (Server.find_path (func:=func) regex_match p es2).
Proof. induction es1 as [|[re f] es1 IH]; simpl; [done|]. by destruct (regex_match p re). Qed.

Lemma find_method_none m p (l : list (str * list (regex * func))) : m ∉ l.*1 → Server.find_method regex_match m p l = None.
Proof. induction l as [|[m' es] l IH]; simpl; [done|]. intros [H1 H2]%not_elem_of_cons. rewrite decide_False by done. by apply IH. Qed.

Lemma add_resource_spec m p m' re f (l : list (str * list (regex * func))) :
  NoDup l.*1 →
  NoDup (Server.add_resource m' (re, f) l).*1 ∧ (∀ x, x ∈ (Server.add_resource m' (re, f) l).*1 ↔ x = m' ∨ x ∈ l.*1) ∧
  Server.find_method regex_match m p (Server.add_resource m' (re, f) l) =
    or_else (Server.find_method regex_match m p l) (lookup_in m p [(re, m', f)]).
Proof.
  assert (∀ es, or_else (Server.find_path regex_match p es) (if regex_match p re then Some f else None) =
                Server.find_path regex_match p (es ++ [(re, f)])) as Hp.
  { intros es. by rewrite find_path_app. }
  assert (lookup_in m p [(re, m', f)] = if decide (m' = m) then if regex_match p re then Some f else None else None) as Hl.
  { unfold lookup_in. simpl. destruct (decide (m' = m)), (regex_match p re) eqn:E; destruct (decide (_ ∧ _)) as [?|?]; first [reflexivity | exfalso; intuition congruence]. }
  induction l as [|[m0 es] l IH]; simpl.
  - intros _. split_and!; [repeat constructor; set_solver|set_solver|]. rewrite Hl.
    destruct (decide (m = m')) as [->|]; [rewrite decide_True by done; by destruct (regex_match p re)|by rewrite decide_False by done].
  - intros [Hn Hnd]%NoDup_cons. destruct (decide (m' = m0)) as [->|Hne]; simpl.
    + split_and!; [by constructor|set_solver|]. rewrite Hl. destruct (decide (m = m0)) as [->|Hm].
      * rewrite decide_True by done. rewrite <- Hp, find_method_none by done. by destruct (Server.find_path _ _ _), (regex_match p re).
      * rewrite !decide_False by congruence. by rewrite or_else_None.
    + destruct (IH Hnd) as (H1 & H2 & H3). split_and!.
      * constructor; [|done]. rewrite H2. intros [?|?]; by subst.
      * intros x. rewrite !elem_of_cons, H2. naive_solver.
      * rewrite H3. destruct (decide (m = m0)); [|done]. by destruct (Server.find_path _ _ _).
Qed.

Lemma lookup_in_cons m p e es : lookup_in m p (e :: es) = or_else (lookup_in m p [e]) (lookup_in m p es).
Proof.
  destruct e as [[re m'] f]. unfold lookup_in. simpl. destruct (decide _); [done|].
  destruct (list_find _ es) as [[i [[re' m''] f']]|]; done.
Qed.

(** What [start] has done after some entries of the table. *)
Lemma add_all m p es (l : list (str * list (regex * func))) : NoDup l.*1 →
  let l' := foldl (λ opt '(re, m', f), Server.add_resource m' (re, f) opt) l es in
  NoDup l'.*1 ∧ Server.find_method regex_match m p l' = or_else (Server.find_method regex_match m p l) (lookup_in m p es).
Proof.
  revert l. induction es as [|[[re m'] f] es IH]; intros l Hl; simpl.
  - split; [done|]. symmetry. apply or_else_None.
  - destruct (add_resource_spec m p m' re f l Hl) as (H1 & _ & H3). destruct (IH _ H1) as [H4 H5]. split; [done|].
    rewrite H5, H3, (lookup_in_cons m p (re, m', f) es). apply or_else_assoc.
Qed.

Lemma start_flatten (resource : list (regex * list (str * func))) :
  Server.start resource = foldl (λ opt '(re, m', f), Server.add_resource m' (re, f) opt) [] (flatten resource).
Proof.
  unfold Server.start, flatten. generalize (@nil (str * list (regex * func))) as l.
  induction resource as [|[re ms] resource IH]; intros l; simpl; [done|]. rewrite foldl_app, IH. f_equal.
  clear. revert l. induction ms as [|[m f] ms IH]; intros l; simpl; [done|]. by rewrite IH.
Qed.

(** A request reaches the handler the application registered for it: the tables [start] builds,
    regrouped by method, give for every method and path the function of the first entry, in the order
    of the application's table, whose method is the request's and whose expression matches the path,
    and the default function of the method when there is none. *)
Theorem find_resource_spec (resource : list (regex * list (str * func))) (default_resource : gmap str func) m p :
  Server.find_resource regex_match (Server.start resource) default_resource m p =
    or_else (lookup_in m p (flatten resource)) (default_resource !! m).
Proof.
  unfold Server.find_resource. rewrite start_flatten.
  destruct (add_all m p (flatten resource) [] ltac:(constructor)) as [_ ->]. done.
Qed.
End Resources.

(** ** Chunked content *)
Definition hexd (d : Z) : ascii := ascii_of_nat (Z.to_nat (if d <? 10 then 48 + d else 87 + d)).
Fixpoint hex_aux (fuel : nat) (n : Z) : str :=
  match fuel with
  | O => []
  | S fuel => (if n <? 16 then [] else hex_aux fuel (n / 16)) ++ [hexd (n mod 16)]
  end.
(** A number below 2^64 in hexadecimal. *)
Definition hex (n : Z) : str := hex_aux 16 n.

(** The chunked coding of RFC 7230: each chunk after its length, then a chunk of length 0. *)
Definition encode (cs : list str) : str :=
  concat (map (λ c, hex (size c) ++ crlf ++ c ++ crlf) cs) ++ lit "0" ++ crlf ++ crlf.

Lemma hexd_val d : 0 <= d < 16 → Client.hval (hexd d) = Some d.
Proof.
  intros Hd. assert (Hall : Forall (λ d, Client.hval (hexd d) = Some d) (seqZ 0 16)) by by repeat constructor.
  rewrite Forall_forall in Hall. apply Hall, elem_of_seqZ. lia.
Qed.

Lemma hex_digits_app acc s d : Forall (λ c, is_Some (Client.hval c)) s → 0 <= d < 16 →
  Client.hex_digits acc (s ++ [hexd d]) = 16 * Client.hex_digits acc s + d.
Proof.
  intros Hs Hd. revert acc. induction Hs as [|c s [x Hx] Hs IH]; intros acc; simpl.
  - by rewrite hexd_val.
  - by rewrite Hx, IH.
Qed.

Lemma hex_aux_spec fuel n : 0 <= n < 16 ^ Z.of_nat fuel →
  Forall (λ c, is_Some (Client.hval c)) (hex_aux fuel n) ∧ Client.hex_digits 0 (hex_aux fuel n) = n ∧ (fuel ≠ 0%nat → hex_aux fuel n ≠ []).
Proof.
  revert n. induction fuel as [|fuel IH]; intros n Hn; simpl hex_aux.
  - simpl in Hn. split_and!; [constructor|simpl; lia|done].
  - rewrite Nat2Z.inj_succ, Z.pow_succ_r in Hn by lia. pose proof (Z.mod_pos_bound n 16 ltac:(lia)) as Hm.
    destruct (Z.ltb_spec n 16) as [Hlt|Hge].
    + simpl. rewrite hexd_val by done. rewrite Z.mod_small by lia. split_and!; [|lia|done]. repeat constructor.
      rewrite hexd_val by lia. by eexists.
    + destruct (IH (n / 16)) as (H1 & H2 & _); [split; [apply Z.div_pos; lia|apply Z.div_lt_upper_bound; lia]|].
      split_and!.
      * apply Forall_app. split; [done|]. repeat constructor. rewrite hexd_val by done. by eexists.
      * rewrite hex_digits_app, H2 by done. pose proof (Z.div_mod n 16 ltac:(lia)). lia.
      * intros _. by destruct (hex_aux fuel (n / 16)).
Qed.

(** No hexadecimal digit is white space, a sign, an x or a line end. *)
Lemma hval_class c : is_Some (Client.hval c) →
  is_ws c = false ∧ c ≠ "-"%char ∧ c ≠ "+"%char ∧ c ≠ "x"%char ∧ c ≠ "X"%char ∧ c ≠ CR ∧ c ≠ LF.
Proof.
  intros [d Hd]. split_and!; [|intros ->; vm_compute in Hd; done..].
  unfold Client.hval in Hd. unfold is_ws. set (n := nat_of_ascii c) in *.
  assert (48 <= n)%nat as Hn by (repeat case_match; done || lia). rewrite bool_decide_false by lia.
  apply andb_false_iff. right. apply Nat.leb_gt. lia.
Qed.

Lemma skip_0x_digits s : Forall (λ c, is_Some (Client.hval c)) s → Client.skip_0x s = s.
Proof.
  intros Hs. unfold Client.skip_0x. destruct s as [|a [|x [|c r]]]; try by (repeat case_match).
  apply Forall_cons in Hs as [_ [Hx _]%Forall_cons]. destruct (hval_class x Hx) as (_ & _ & _ & H1 & H2 & _).
  rewrite bool_decide_false by naive_solver. by repeat case_match.
Qed.

Lemma stoull16_hex n : 0 <= n < 2 ^ 64 → Client.stoull16 (hex n) = Some n.
Proof.
  intros Hn. destruct (hex_aux_spec 16 n ltac:(exact Hn)) as (H1 & H2 & H3). specialize (H3 ltac:(done)). fold (hex n) in *.
  unfold Client.stoull16. destruct (hex n) as [|c r] eqn:E; [done|]. pose proof H1 as H1'.
  apply Forall_cons in H1' as [Hc _]. destruct (hval_class c Hc) as (Hw & Hm & Hp & _). cbn [skip_ws]. rewrite Hw.
  rewrite !decide_False by done. rewrite skip_0x_digits by done. destruct Hc as [d ->].
  rewrite H2. destruct (Z.ltb_spec n (2 ^ 64)); [done|lia].
Qed.

(** *** Segments *)
Lemma is_prefix_app_r p s x : is_prefix p s = true → is_prefix p (s ++ x) = true.
Proof. intros [t ->]%is_prefix_spec. rewrite <- app_assoc. apply is_prefix_app. Qed.

Lemma is_prefix_app_l p s x : is_prefix p (s ++ x) = true → (length p <= length s)%nat → is_prefix p s = true.
Proof.
  revert s. induction p as [|a p IH]; intros [|c s]; simpl; try done; [lia|].
  intros [-> Hp]%andb_true_iff Hl. simpl. apply IH; [done|lia].
Qed.

Lemma index_of_str_length p s i : index_of_str p s = Some i → (i + length p <= length s)%nat.
Proof.
  revert i. induction s as [|c s IH]; intros i; simpl.
  - destruct (is_prefix p []) eqn:Hp; [|done]. intros [= <-]. apply is_prefix_spec in Hp as [t Ht]. by destruct p.
  - destruct (is_prefix p (c :: s)) eqn:Hp.
    + intros [= <-]. apply is_prefix_spec in Hp as [t Ht]. apply (f_equal length) in Ht. rewrite length_app in Ht. simpl in *. lia.
    + intros (k & Hk & ->)%fmap_Some. specialize (IH _ Hk). lia.
Qed.

Lemma index_of_str_app p s x i : index_of_str p s = Some i → index_of_str p (s ++ x) = Some i.
Proof.
  revert i. induction s as [|c s IH]; intros i; simpl.
  - destruct (is_prefix p []) eqn:Hp; [|done]. intros [= <-]. pose proof (is_prefix_app_r p [] x Hp) as H. simpl in H.
    destruct x; simpl in *; by rewrite H.
  - destruct (is_prefix p (c :: s)) eqn:Hp.
    + intros [= <-]. apply (is_prefix_app_r _ _ x) in Hp. simpl in Hp. by rewrite Hp.
    + intros (k & Hk & ->)%fmap_Some. destruct (is_prefix p (c :: s ++ x)) eqn:Hp'; [|by rewrite (IH _ Hk)].
      apply (is_prefix_app_l p (c :: s)) in Hp'; [congruence|]. apply index_of_str_length in Hk. simpl. lia.
Qed.

(** [read_until] stops at the first delimiter, wherever the segments are cut. *)
Lemma read_until_spec d buffer segs i : index_of_str d (buffer ++ concat segs) = Some i →
  ∃ b s, Client.read_until d buffer segs = Some ((i + length d)%nat, (b, s)) ∧ b ++ concat s = buffer ++ concat segs ∧
         (i + length d <= length b)%nat.
Proof.
  revert buffer. induction segs as [|x segs IH]; intros buffer Hi; simpl in *.
  - rewrite app_nil_r in *. rewrite Hi. exists buffer, []. simpl. rewrite app_nil_r. split_and!; try done.
    by apply index_of_str_length.
  - destruct (index_of_str d buffer) as [j|] eqn:Hj.
    + rewrite (index_of_str_app _ _ _ _ Hj) in Hi. injection Hi as <-. exists buffer, (x :: segs). split_and!; try done.
      by apply index_of_str_length.
    + rewrite app_assoc in Hi. destruct (IH _ Hi) as (b & s & E & Hb & Hl). exists b, s. by rewrite E, Hb, <- app_assoc.
Qed.

Lemma read_exactly_spec n buffer segs : (n <= length (concat segs))%nat →
  ∃ b s, Client.read_exactly n buffer segs = Some (b, s) ∧ b ++ concat s = buffer ++ concat segs ∧ length b = (length buffer + n)%nat.
Proof.
  revert n buffer. induction segs as [|x segs IH]; intros n buffer Hn; simpl in *.
  - assert (n = 0)%nat as -> by lia. exists buffer, []. rewrite decide_True by done. split_and!; done || lia.
  - destruct (decide (n = 0)%nat) as [->|]; [exists buffer, (x :: segs); split_and!; done || lia|].
    rewrite length_app in Hn. destruct (decide (n < length x)%nat).
    + exists (buffer ++ take n x), (drop n x :: segs). split_and!; [done| |].
      * simpl. rewrite <- app_assoc, (app_assoc (take n x)). by rewrite take_drop.
      * rewrite length_app, length_take. lia.
    + destruct (IH (n - length x)%nat (buffer ++ x) ltac:(lia)) as (b & s & E & Hb & Hl). exists b, s. rewrite E, Hb, <- app_assoc.
      split_and!; try done. rewrite Hl, length_app. lia.
Qed.

Lemma hex_no_crlf n : 0 <= n < 2 ^ 64 → no CR (hex n) ∧ no LF (hex n).
Proof.
  intros Hn. destruct (hex_aux_spec 16 n ltac:(exact Hn)) as (H & _). rewrite Forall_forall in H.
  split; intros Hin; apply H, hval_class in Hin; naive_solver.
Qed.

Lemma hex_length n : 0 <= n < 2 ^ 64 → (length (hex n) <= 16)%nat.
Proof.
  intros _. unfold hex. generalize 16%nat as fuel. revert n.
  assert (∀ fuel n, length (hex_aux fuel n) <= fuel)%nat as H; [|intros; apply H].
  induction fuel as [|fuel IH]; intros n; simpl; [done|]. rewrite length_app. simpl. specialize (IH (n / 16)).
  destruct (n <? 16); simpl; lia.
Qed.

Lemma first_crlf h r : no CR h → index_of_str crlf (h ++ crlf ++ r) = Some (length h).
Proof.
  intros Hh. rewrite <- (Nat.add_0_r (length h)). apply index_of_str_skip; [|by destruct r].
  intros j Hj. apply not_true_is_false. intros [t Ht]%is_prefix_spec. apply Hh.
  assert ((h ++ crlf ++ r) !! j = Some CR) as E.
  { pose proof (lookup_drop (h ++ crlf ++ r) j 0) as El. rewrite Ht, Nat.add_0_r in El. by rewrite <- El. }
  rewrite lookup_app_l in E by done. by eapply list_elem_of_lookup_2.
Qed.

(** One turn of the loop takes one chunk off the connection. *)
Lemma read_chunk fuel acc buffer segs c r : size (buffer ++ concat segs) < 2 ^ 63 →
  buffer ++ concat segs = hex (size c) ++ crlf ++ c ++ crlf ++ r →
  ∃ b s, b ++ concat s = r ∧
    Client.read_chunks (S fuel) acc (buffer, segs) =
      if 0 <? size c then Client.read_chunks fuel (acc ++ c) (b, s) else Some (acc ++ c, (b, s)).
Proof.
  intros Hsz E. pose proof (size_nonneg c). set (h := hex (size c)) in *.
  assert (size c + size r + 2 < 2 ^ 63) as Hc.
  { rewrite E in Hsz. pose proof (size_nonneg h). autorewrite with size in Hsz. change (size crlf) with 2 in Hsz. lia. }
  pose proof (size_nonneg r).
  destruct (hex_no_crlf (size c) ltac:(lia)) as [Hcr Hlf]. pose proof (hex_length (size c) ltac:(lia)) as Hhl. fold h in Hcr, Hlf, Hhl.
  destruct (read_until_spec crlf buffer segs (length h)) as (b1 & s1 & E1 & Hb1 & Hl1); [rewrite E; by apply first_crlf|].
  rewrite E in Hb1.
  assert (∃ b2, b1 = (h ++ [CR]) ++ LF :: b2 ∧ b2 ++ concat s1 = c ++ crlf ++ r) as (b2 & -> & Hb2).
  { exists (drop (length h + 2) b1).
    assert (take (length h + 2) b1 = h ++ crlf) as Ht.
    { rewrite <- (take_app_le b1 (concat s1)) by exact Hl1. rewrite Hb1, (app_assoc h).
      change 2%nat with (length crlf). by rewrite <- length_app, take_app_length. }
    split.
    - rewrite <- (take_drop (length h + 2) b1) at 1. rewrite Ht. by app_norm.
    - rewrite <- (drop_app_le b1 (concat s1)) by exact Hl1. rewrite Hb1, (app_assoc h).
      change 2%nat with (length crlf). by rewrite <- length_app, drop_app_length. }
  cbn [Client.read_chunks fst snd]. rewrite E1.
  rewrite getline_line. 2: { rewrite not_elem_of_app. split; [done|by apply (bool_decide_unpack _)]. }
  rewrite size_app. change (size [CR]) with 1. change (length crlf) with 2%nat.
  replace (Z.of_nat (length h + 2) - (size h + 1 + 1)) with 0 by (unfold size; lia). change (u64 0) with 0.
  replace (take (length (h ++ [CR]) - 1) (h ++ [CR])) with h.
  2: { rewrite length_app. simpl. replace (length h + 1 - 1)%nat with (length h) by lia. by rewrite take_app_length. }
  unfold h at 1. rewrite stoull16_hex by lia. cbn [input]. rewrite Z.sub_0_r. rewrite (u64_small (2 + size c)) by lia.
  assert (∃ b3 s3, (if u64 (size b2) <? 2 + size c
                    then Client.read_exactly (Z.to_nat (2 + size c - u64 (size b2))) b2 s1 else Some (b2, s1)) = Some (b3, s3) ∧
            b3 ++ concat s3 = c ++ crlf ++ r ∧ (length c + 2 <= length b3)%nat) as (b3 & s3 & E3 & Hb3 & Hl3).
  { pose proof (size_nonneg b2). assert (size b2 + size (concat s1) = size c + 2 + size r) as Hsum.
    { apply (f_equal size) in Hb2. autorewrite with size in Hb2. change (size crlf) with 2 in Hb2. lia. }
    pose proof (size_nonneg (concat s1)). rewrite u64_small by lia. unfold size in *. destruct (Z.ltb_spec (Z.of_nat (length b2)) (2 + Z.of_nat (length c))).
    - destruct (read_exactly_spec (Z.to_nat (2 + Z.of_nat (length c) - Z.of_nat (length b2))) b2 s1) as (b & s & Eb & Hb & Hl); [lia|].
      exists b, s. rewrite Eb, Hb. split_and!; [done|done|lia].
    - exists b2, s1. split_and!; [done|done|lia]. }
  rewrite E3. replace (Z.to_nat (size c)) with (length c) by (unfold size; lia).
  assert (take (length c) b3 = c ∧ drop (length c + 2) b3 ++ concat s3 = r) as [-> Hr].
  { split.
    - rewrite <- (take_app_le b3 (concat s3)) by lia. by rewrite Hb3, take_app_length.
    - rewrite <- (drop_app_le b3 (concat s3)) by exact Hl3. rewrite Hb3, (app_assoc c).
      change 2%nat with (length crlf). by rewrite <- length_app, drop_app_length. }
  exists (drop (length c + 2) b3), s3. split; [done|]. by destruct (0 <? size c).
Qed.

Lemma read_chunks_encode cs fuel acc buffer segs r : Forall (λ c, c ≠ []) cs → (length cs < fuel)%nat →
  size (buffer ++ concat segs) < 2 ^ 63 → buffer ++ concat segs = encode cs ++ r →
  ∃ b s, b ++ concat s = r ∧ Client.read_chunks fuel acc (buffer, segs) = Some (acc ++ concat cs, (b, s)).
Proof.
  intros Hcs. revert fuel acc buffer segs. induction Hcs as [|c cs Hc Hcs IH]; intros [|fuel] acc buffer segs Hf Hsz E; simpl in Hf; try lia.
  - destruct (read_chunk fuel acc buffer segs [] r Hsz) as (b & s & Hr & Er).
    { rewrite E. change (hex (size [])) with (lit "0"). unfold encode. by app_norm. }
    exists b, s. split; [done|]. exact Er.
  - destruct (read_chunk fuel acc buffer segs c (encode cs ++ r) Hsz) as (b & s & Hr & Er).
    { rewrite E. unfold encode. cbn [map concat]. by app_norm. }
    rewrite (proj2 (Z.ltb_lt _ _)) in Er by (destruct c; [done|unfold size; simpl; lia]).
    destruct (IH fuel (acc ++ c) b s) as (b' & s' & Hr' & Er'); [lia| |done|].
    { rewrite Hr. rewrite E in Hsz. unfold encode in *. cbn [map concat] in Hsz. autorewrite with size in Hsz |- *.
      pose proof (size_nonneg (hex (size c))). pose proof (size_nonneg crlf). pose proof (size_nonneg c). lia. }
    exists b', s'. split; [done|]. rewrite Er, Er'. cbn [concat]. by rewrite app_assoc.
Qed.

(** A chunked answer is put together again, wherever the network cuts it: for any chunks, any
    split of the encoded bytes between what is already buffered and the segments still to come, and
    one turn of the loop for each chunk and one for the end, the content is the concatenation of the
    chunks and everything has been consumed. *)
Theorem chunked_roundtrip cs fuel buffer segs : Forall (λ c, c ≠ []) cs → (length cs < fuel)%nat →
  size (encode cs) < 2 ^ 63 → buffer ++ concat segs = encode cs →
  ∃ s, Client.chunked_content fuel (buffer, segs) = Some (concat cs, s) ∧ concat s = [].
Proof.
  intros Hcs Hf Hsz E. destruct (read_chunks_encode cs fuel [] buffer segs [] Hcs Hf) as (b & s & Hr & Er).
  - by rewrite E.
  - by rewrite app_nil_r.
  - apply app_nil in Hr as [-> Hs]. exists s. unfold Client.chunked_content. by rewrite Er.
Qed.

(** ** Concrete runs *)
Module Examples.
Definition get_headers : list (str * str) := [(lit "Accept", lit "*/*")].
Definition post (content : str) : str := Client.request_bytes (lit "POST") (lit "/string") (lit "localhost") get_headers content.

Ltac text := first [apply (bool_decide_unpack _); vm_compute; exact I | apply Z.ltb_lt; vm_compute; reflexivity | simpl; lia].

Lemma headers_ok : Forall header_ok get_headers.
Proof. constructor; [|constructor]. split_and!; text. Qed.

Lemma request_roundtrip_witness :
  ∃ h, Server.parse_request 10 Server.new_request (mk (post (lit "hello") ++ lit "GET") true) =
    Some (Ok (Server.mkRequest (lit "POST") (lit "/string") (lit "1.1") h), mk (lit "hello" ++ lit "GET") true).
Proof.
  eexists. apply (request_roundtrip 10 (lit "POST") (lit "/string") (lit "localhost") get_headers (lit "hello") (lit "GET")).
  all: try exact headers_ok; text.
Defined.

(** The content arrives with the headers, and its first line ends up last. *)
Lemma content_read_back_witness :
  ∃ request, Server.read_request_and_content 10 (post (lit "a" ++ LF :: lit "b")) [] =
    Some (Server.Dispatch request (lit "ba")).
Proof.
  destruct (content_read_back 10 (lit "POST") (lit "/string") (lit "localhost") get_headers (lit "a" ++ LF :: lit "b") []
    (post (lit "a" ++ LF :: lit "b")) []) as (request & content & E & _ & _ & H).
  all: try exact headers_ok; try done; try text.
  exists request. rewrite (H (lit "a") (lit "b") eq_refl) in E; [exact E|text].
Defined.

Definition chunks : list str := [lit "Wiki"; lit "pedia in chunks"].
Lemma chunked_roundtrip_witness :
  ∃ s, Client.chunked_content 3 (take 7 (encode chunks), [take 3 (drop 7 (encode chunks)); drop 10 (encode chunks)]) =
         Some (lit "Wikipedia in chunks", s).
Proof.
  destruct (chunked_roundtrip chunks 3 (take 7 (encode chunks)) [take 3 (drop 7 (encode chunks)); drop 10 (encode chunks)]) as (s & E & _).
  - repeat constructor; done.
  - simpl. lia.
  - text.
  - vm_compute. reflexivity.
  - exists s. exact E.
Defined.

(** A request line without a version: [substr] throws. *)
Example short_request_line : Server.read_request_and_content 10 (lit "GET / " ++ crlf ++ crlf) [] = Some (Server.Throws Server.out_of_range).
Proof. by vm_compute. Qed.

(** More bytes have arrived than Content-Length announces: the subtraction wraps around and the
    server waits for almost 2^64 bytes. *)
Example pipelined_waits :
  Server.read_request_and_content 10 (post (lit "hello") ++ lit "GET / HTTP/1.1") [] = Some (Server.Waiting (2 ^ 64 - 14)).
Proof. by vm_compute. Qed.
End Examples.
End HttpSpec.
