(* ===== verification/HttpServe.v ===== *)
(** * The connection of an HTTP client (common/server/server_http.hpp, client_http.hpp)

    What happens on one connection between accepting and closing it: the server reads a request,
    runs its resource on a [Response], writes what the resource left in the stream buffer and reads
    the next request if the version of the last one asks for it.  A socket delivers segments; a
    connection that ends, or that a time-out shuts down, is a list of segments that ends.  The other
    side of the connection is [Peer], the client's [request]. *)
From S2P Require Import Prelude CppString Decimal Http.

#[local] Open Scope Z_scope.

(** ** [std::stof] *)
Module Stof.

(** The number a text denotes, before it is rounded to a float: a fraction, an infinity or a NaN. *)
Inductive number := Finite (n d : Z) | Infinite (negative : bool) | NotANumber.

Definition lower (c : ascii) : ascii :=
  let n := nat_of_ascii c in if (65 <=? n)%nat && (n <=? 90)%nat then ascii_of_nat (n + 32) else c.

Definition decimal_digit (c : ascii) : option Z := if is_digit c then Some (dval c) else None.

(** Digits in a radix: their value, how many there are, and the rest. *)
Fixpoint digits (dig : ascii → option Z) (radix acc : Z) (s : str) : Z * Z * str :=
  match s with
  | c :: r => match dig c with
              | Some d => let '(v, n, t) := digits dig radix (radix * acc + d) r in (v, n + 1, t)
              | None => (acc, 0, s)
              end
  | [] => (acc, 0, [])
  end.

(** Digits with an optional point: the value of all of them and how many follow the point. *)
Definition mantissa (dig : ascii → option Z) (radix : Z) (s : str) : option (Z * Z * str) :=
  let '(v, n, r) := digits dig radix 0 s in
  match r with
  | "."%char :: r' => let '(v', f, t) := digits dig radix v r' in if n + f =? 0 then None else Some (v', f, t)
  | _ => if n =? 0 then None else Some (v, 0, r)
  end.

(** An exponent, if one is there. *)
Definition exponent (marker : ascii) (s : str) : Z :=
  match s with
  | c :: r => if decide (lower c = marker) then match read_int r with Some (e, _) => e | None => 0 end else 0
  | [] => 0
  end.

Definition scaled (v f base_f e base_e : Z) : number :=
  Finite (v * (if 0 <=? e then base_e ^ e else 1)) (base_f ^ f * (if 0 <=? e then 1 else base_e ^ (- e))).

Definition negate (n : number) : number :=
  match n with Finite n d => Finite (- n) d | Infinite b => Infinite (negb b) | NotANumber => NotANumber end.

Definition unsigned_number (s : str) : option number :=
  let l := map lower s in
  if is_prefix (lit "inf") l then Some (Infinite false)
  else if is_prefix (lit "nan") l then Some NotANumber
  else
    match (if is_prefix (lit "0x") l then mantissa Client.hval 16 (drop 2 s) else None) with
    | Some (v, f, r) => Some (scaled v f 16 (exponent "p" r) 2)
    | None => match mantissa decimal_digit 10 s with
              | Some (v, f, r) => Some (scaled v f 10 (exponent "e" r) 10)
              | None => None
              end
    end.

(** The longest number at the start of the text, after white space and a sign. *)
Definition strtof (s : str) : option number :=
  match skip_ws s with
  | c :: r => if decide (c = "-"%char) then negate <$> unsigned_number r
              else if decide (c = "+"%char) then unsigned_number r
              else unsigned_number (c :: r)
  | [] => None
  end.

(** [ERANGE]: the rounded number is not a finite float, or it is below the normal floats and not one
    of the others. *)
Definition out_of_float (x : number) : bool :=
  match x with
  | Finite n d =>
      (d * (2 ^ 128 - 2 ^ 103) <=? Z.abs n) ||
      (negb (n =? 0) && (Z.abs n * 2 ^ 151 <? d * (2 ^ 25 - 1)) && negb ((n * 2 ^ 149) mod d =? 0))
  | _ => false
  end.

Definition stof (s : str) : result Server.exn number :=
  match strtof s with
  | None => Err Server.invalid_argument
  | Some x => if out_of_float x then Err Server.out_of_range else Ok x
  end.

(** [stof(..) > 1.05]: the least float above the double 1.05 is 8808039 / 2^23, and a number is
    rounded to it, or to a greater one, above the middle between it and the float before. *)
Definition gt_1_05 (x : number) : bool :=
  match x with
  | Finite n d => d * 17616077 <? n * 2 ^ 24
  | Infinite negative => negb negative
  | NotANumber => false
  end.

Example version_1_1 : (gt_1_05 <$> strtof (lit "1.1"), gt_1_05 <$> strtof (lit "1.0"), gt_1_05 <$> strtof (lit "2")) =
  (Some true, Some false, Some true).
Proof. by vm_compute. Qed.
Example versions : map stof [lit "abc"; []; lit " +0x1.8p1z"; lit "1e39"; lit "1e-46"; lit ".5e1"] =
  [Err Server.invalid_argument; Err Server.invalid_argument; Ok (Finite 48 16); Err Server.out_of_range; Err Server.out_of_range; Ok (Finite 50 10)].
Proof. by vm_compute. Qed.
End Stof.

(** ** The server's side *)
Module Serve.
Import Stream Server.

(** The answer under construction: what is in the stream buffer, whether the stream has failed, and
    what each completed write has put on the socket. *)
(*@ common/server/server_http.hpp 17-37 Response *)
Record Response := mkResponse { streambuf : str; failed : bool; writes : list str }.

Definition new_response : Response := mkResponse [] false [].

(** What a resource throws is known by the text [std::exception::what] gives.  [Crash] is where its
    behaviour is undefined, [Diverges] where it does not end. *)
Inductive failure := Exception (what : str) | Crash | Diverges.

(** A resource works on the answer and on what the program shares between requests, [W]. *)
Section Serving.
Context {W : Type}.

Abbreviation resource_function := (Request → str → M (Response * W) failure unit).

(** [stream << s] and [stream.write]: nothing once the stream has failed. *)
(*@ common/server/server_http.hpp 92-96 operator<< *)
Definition put {E} (s : str) : M (Response * W) E unit := λ '(r, w),
  (Ok tt, (if failed r then r else mkResponse (streambuf r ++ s) false (writes r), w)).

(** [stream << buffer]: inserting nothing fails the stream. *)
Definition put_rdbuf {E} (s : str) : M (Response * W) E unit := λ '(r, w),
  (Ok tt, (if failed r then r else if decide (s = []) then mkResponse (streambuf r) true (writes r)
           else mkResponse (streambuf r ++ s) false (writes r), w)).

(** The outcome of a write, after the writes already done. *)
Variable write_ok : list str → str → bool.

(** The buffer is moved to another one and written; an error is thrown. *)
(*@ common/server/server_http.hpp 81-87 Response::flush *)
Definition flush : M (Response * W) failure unit := λ '(r, w),
  let write_buffer := streambuf r in
  if write_ok (writes r) write_buffer
  then (Ok tt, (mkResponse [] (failed r) (writes r ++ [write_buffer]), w))
  else (Err (Exception (lit "Broken pipe")), (mkResponse [] (failed r) (writes r), w)).

(** The answer is taken out of the buffer for the log and put back. *)
(*@ common/server/server_http.hpp 376-390 write_response *)
Definition log_response (r : Response) : Response :=
  let '(myString, rest) := (streambuf r, []) in mkResponse (rest ++ myString) (failed r) (writes r).

(** How a connection comes to its end: while it is read; no resource for a request; a resource
    threw; a write failed; the version of the request does not ask for more; an exception leaves the
    completion handler, and with it [io_service.run]; the behaviour of a resource is undefined, or it
    does not end. *)
Inductive ending := Closed | NoResource | ResourceThrew | WriteFailed | NotKeptAlive | Escapes (e : exn) | Crashed | Hangs.

(** What was written for the request, how the connection ends if it does, and what is shared. *)
(*@ common/server/server_http.hpp 356-401 write_response *)
Definition write_response (f : resource_function) (request : Request) (content : str) (w : W) : list str * option ending * W :=
  match f request content (new_response, w) with
  | (Err e, (r, w)) =>
      (writes r, Some match e with Exception _ => ResourceThrew | Crash => Crashed | Diverges => Hangs end, w)
  | (Ok _, (r, w)) =>
      let r := log_response r in
      if write_ok (writes r) (streambuf r) then
        (writes r ++ [streambuf r],
         match Stof.stof (http_version request) with
         | Err e => Some (Escapes e)
         | Ok v => if Stof.gt_1_05 v then None else Some NotKeptAlive
         end, w)
      else (writes r, Some WriteFailed, w)
  end.

(** *** Reading from the socket *)
Inductive received := Received (request : Request) (content : str) (segs : list str) | Gone | Thrown (e : exn).

(** The stream buffer belongs to the request: what it holds beyond the request is lost with it. *)
(*@ common/server/server_http.hpp 237-303 read_request_and_content *)
Definition read_request (fuel : nat) (segs : list str) : option received :=
  match Client.read_until (crlf ++ crlf) [] segs with
  | None => Some Gone
  | Some (bytes_transferred, (buffer, segs)) =>
      let num_additional_bytes := u64 (size buffer - Z.of_nat bytes_transferred) in
      match parse_request fuel new_request (mk buffer true) with
      | None => None
      | Some (Err e, _) => Some (Thrown e)
      | Some (Ok request, s) =>
          let content := log_first_line (input s) in
          match header request !! lit "Content-Length" with
          | None => Some (Received request content segs)
          | Some l =>
              match stoull l with
              | Err e => Some (Thrown e)
              | Ok n =>
                  let wanted := u64 (n - num_additional_bytes) in
                  if size (concat segs) <? wanted then Some Gone
                  else match Client.read_exactly (Z.to_nat wanted) content segs with
                       | Some (content, segs) => Some (Received request content segs)
                       | None => Some Gone
                       end
              end
          end
      end
  end.

Section Resources.
Context {regex : Type}.
Variable regex_match : str → regex → bool.
Variable opt_resource : list (str * list (regex * resource_function)).
Variable default_resource : gmap str resource_function.

(** What is written for each request in turn, and how the connection ends. *)
(*@ common/server/server_http.hpp 336-354 find_resource *)
Fixpoint connection (fuel hfuel : nat) (segs : list str) (w : W) : option (list (list str) * ending * W) :=
  match fuel with
  | O => None
  | S fuel =>
      match read_request hfuel segs with
      | None => None
      | Some Gone => Some ([], Closed, w)
      | Some (Thrown e) => Some ([], Escapes e, w)
      | Some (Received request content segs) =>
          match find_resource regex_match opt_resource default_resource (method request) (path request) with
          | None => Some ([], NoResource, w)
          | Some f =>
              match write_response f request content w with
              | (ws, Some e, w) => Some ([ws], e, w)
              | (ws, None, w) => '(wss, e, w) ← connection fuel hfuel segs w; Some (ws :: wss, e, w)
              end
          end
      end
  end.
End Resources.
End Serving.
End Serve.

(** ** The client's side *)
Module Peer.
Import Stream.

(** What [request] reads after it has written: the answer and its content, and the segments left;
    [None] is an exception. *)
(*@ common/server/client_http.hpp 66-108 request *)
Definition receive (fuel : nat) (segs : list str) : option (Client.Response * str * list str) :=
  match Client.read_until (crlf ++ crlf) [] segs with
  | None => None
  | Some (bytes_transferred, (buffer, segs)) =>
      let num_additional_bytes := u64 (size buffer - Z.of_nat bytes_transferred) in
      match Client.parse_response_header fuel (mk buffer true) with
      | Some (Ok response, s) =>
          match Client.header response !! lit "Content-Length" with
          | Some l =>
              match Server.stoull l with
              | Ok n =>
                  let wanted := u64 (n - num_additional_bytes) in
                  if size (concat segs) <? wanted then None
                  else '(content, segs) ← Client.read_exactly (Z.to_nat wanted) (input s) segs;
                       Some (response, content, segs)
              | Err _ => None
              end
          | None =>
              if decide (Client.header response !! lit "Transfer-Encoding" = Some (lit "chunked")) then
                '(content, segs) ← Client.chunked_content fuel (input s, segs); Some (response, content, segs)
              else Some (response, input s, segs)
          end
      | _ => None
      end
  end.

(** The socket of a client: connected or not, and whether an exchange on it has failed.  The
    connections to the host are given by what each delivers. *)
Record socket := Socket { socket_error : bool; is_open : bool }.

(*@ common/server/client_http.hpp 183-193 connect *)
Definition connect (resolves : bool) (s : socket) : result unit unit * socket :=
  if socket_error s || negb (is_open s) then
    if resolves then (Ok tt, Socket false true) else (Err tt, s)
  else (Ok tt, s).

(** Any exception marks the socket, and the next request connects again. *)
(*@ common/server/client_http.hpp 61-115 request *)
Definition request (fuel : nat) (resolves written : bool) (segs : list str) (s : socket)
    : result unit (Client.Response * str * list str) * socket :=
  match connect resolves s with
  | (Err _, s) => (Err tt, Socket true (is_open s))
  | (Ok _, s) =>
      if written then
        match receive fuel segs with
        | Some r => (Ok r, s)
        | None => (Err tt, Socket true (is_open s))
        end
      else (Err tt, Socket true (is_open s))
  end.
End Peer.
