(* ===== verification/HttpServeSpec.v ===== *)
(** * A connection serves its requests in order and comes to an end (properties of HttpServe.v) *)
From S2P Require Import Prelude CppString Decimal Http HttpSpec HttpServe.
Import Stream HttpSpec Serve.

#[local] Open Scope Z_scope.

Module HttpServeSpec.
#[local] Arguments lit : simpl never.

(** ** Every loop ends *)
Definition text_of (ls : list str) : str := concat (map (λ l, l ++ [LF]) ls).

Lemma lines_of t : ∃ l ls, t ++ [LF] = text_of (l :: ls) ∧ Forall (λ l, LF ∉ l) (l :: ls) ∧ (length ls <= length t)%nat.
Proof.
  induction t as [|c t (l & ls & E & Hl & Hlen)]; simpl.
  - exists [], []. split_and!; [done| |done]. constructor; [apply not_elem_of_nil|constructor].
  - rewrite E. destruct (decide (c = LF)) as [->|Hc].
    + exists [], (l :: ls). split_and!; [done| |simpl; lia]. constructor; [set_solver|done].
    + exists (c :: l), ls. split_and!; [done| |lia]. apply Forall_cons in Hl as [H1 H2]. constructor; [|done].
      apply not_elem_of_cons. split; [congruence|done].
Qed.

(** The loop over the header lines stops at an empty line, if not before. *)
Lemma header_loop_ends ls fuel h line r :
  Forall (λ l, LF ∉ l) ls → (length ls + 1 < fuel)%nat →
  ∃ a inp, Server.header_loop fuel line h (mk (text_of ls ++ crlf ++ r) true) = Some (a, inp).
Proof.
  intros Hls. revert fuel h line. induction Hls as [|l ls Hl Hls IH]; intros [|fuel] h line Hf; simpl in Hf; try lia.
  - cbn [Server.header_loop]. case_match; [eauto|]. case_match; [|eauto]. destruct p as [k v].
    change (text_of [] ++ crlf ++ r) with ([CR] ++ LF :: r). rewrite getline_line by by apply (bool_decide_unpack _).
    destruct fuel as [|fuel]; [lia|]. cbn [Server.header_loop]. change (find_char [CR] ":" 0) with npos. rewrite Z.eqb_refl. eauto.
  - cbn [Server.header_loop]. case_match; [eauto|]. case_match; [|eauto]. destruct p as [k v].
    replace (text_of (l :: ls) ++ crlf ++ r) with (l ++ LF :: text_of ls ++ crlf ++ r) by (unfold text_of; simpl; by rewrite <- !app_assoc).
    rewrite getline_line by done. apply IH. lia.
Qed.

Lemma parse_request_ends fuel buffer i : index_of_str blank buffer = Some i → (i + 3 < fuel)%nat →
  ∃ a s, Server.parse_request fuel Server.new_request (mk buffer true) = Some (a, s).
Proof.
  intros Hi Hf. pose proof (index_of_str_length _ _ _ Hi) as Hlen. apply index_of_str_Some in Hi as [[t Ht]%is_prefix_spec _].
  destruct (lines_of (take i buffer ++ [CR])) as (l & ls & E & Hl & Hls). apply Forall_cons in Hl as [Hl Hno].
  assert (buffer = l ++ LF :: text_of ls ++ crlf ++ t) as ->.
  { rewrite <- (take_drop i buffer), Ht. unfold blank. change crlf with ([CR] ++ [LF]) at 1. rewrite <- !app_assoc, !(app_assoc (take i buffer)), (app_assoc _ [LF]), E.
    unfold text_of. cbn [map concat]. by app_norm. }
  assert (∃ l2 ls2 r2, text_of ls ++ crlf ++ t = l2 ++ LF :: text_of ls2 ++ r2 ∧ LF ∉ l2 ∧ (length ls2 <= length ls)%nat ∧
            Forall (λ l, LF ∉ l) ls2 ∧ (l2 = [CR] ∨ r2 = crlf ++ t)) as (l2 & ls2 & r2 & -> & Hl2 & Hls2 & Hno2 & Hor).
  { destruct ls as [|l2 ls2].
    - exists [CR], [], t. split_and!; [done|by apply (bool_decide_unpack _)|done|done|by left].
    - apply Forall_cons in Hno as [H1' H2']. exists l2, ls2, (crlf ++ t).
      split_and!; [unfold text_of; cbn [map concat]; by app_norm|done|simpl; lia|done|by right]. }
  unfold Server.parse_request. rewrite getline_line by done. case_match; [|eauto].
  repeat (case_match; [|eauto]).
  rewrite getline_line by done. rewrite length_app in Hls. simpl in Hls.
  rewrite length_take in Hls. destruct Hor as [->|Hor].
  - destruct fuel as [|fuel]; [lia|]. cbn [Server.header_loop]. change (find_char [CR] ":" 0) with npos. rewrite Z.eqb_refl. eauto.
  - subst r2. destruct (header_loop_ends ls2 fuel (Server.header Server.new_request) l2 t Hno2) as (a & s & ->).
    { lia. }
    destruct a; eauto.
Qed.

Lemma read_until_Some d buffer segs n b s : Client.read_until d buffer segs = Some (n, (b, s)) →
  ∃ i, index_of_str d b = Some i ∧ n = (i + length d)%nat ∧ b ++ concat s = buffer ++ concat segs.
Proof.
  revert buffer. induction segs as [|x segs IH]; intros buffer; simpl.
  - destruct (index_of_str d buffer) as [i|] eqn:E; [|done]. intros [= <- <- <-]. eauto.
  - destruct (index_of_str d buffer) as [i|] eqn:E; [intros [= <- <- <-]; eauto|].
    intros (i & H1 & H2 & H3)%IH. exists i. split_and!; try done. by rewrite H3, <- app_assoc.
Qed.

Lemma read_exactly_Some n buffer segs b s : Client.read_exactly n buffer segs = Some (b, s) →
  b ++ concat s = buffer ++ concat segs ∧ (length (concat s) <= length (concat segs))%nat.
Proof.
  revert n buffer. induction segs as [|x segs IH]; intros n buffer; simpl.
  - case_decide; [|done]. by intros [= <- <-].
  - case_decide; [by intros [= <- <-]|]. case_decide.
    + intros [= <- <-]. simpl. rewrite <- app_assoc, (app_assoc (take n x)), take_drop. split; [done|].
      rewrite !length_app, length_drop. lia.
    + intros [H1 H2]%IH. rewrite H1, <- app_assoc. split; [done|]. rewrite length_app. lia.
Qed.

(** Reading one request ends, and takes at least the end of its headers off the connection. *)
Lemma read_request_ends fuel segs : (length (concat segs) < fuel)%nat →
  ∃ x, read_request fuel segs = Some x ∧
    ∀ request content segs', x = Received request content segs' → (length (concat segs') < length (concat segs))%nat.
Proof.
  intros Hf. unfold read_request. destruct (Client.read_until (crlf ++ crlf) [] segs) as [[n [buffer segs1]]|] eqn:E; [|by exists Gone].
  apply read_until_Some in E as (i & Hi & -> & Hb). pose proof (index_of_str_length _ _ _ Hi) as Hl.
  apply (f_equal length) in Hb. rewrite length_app in Hb. simpl in Hb, Hl.
  destruct (parse_request_ends fuel buffer i Hi) as (a & s & ->); [lia|].
  destruct a as [request|e]; [|by eexists].
  destruct (Server.header request !! lit "Content-Length") as [l|].
  2: { eexists. split; [reflexivity|]. intros ? ? ? [= <- <- <-]. lia. }
  destruct (Server.stoull l); [|by eexists]. case_match; [by eexists|].
  destruct (Client.read_exactly _ _ segs1) as [[c2 segs2]|] eqn:E2; [|by eexists].
  apply read_exactly_Some in E2 as [_ H2]. eexists. split; [reflexivity|]. intros ? ? ? [= <- <- <-]. lia.
Qed.

Section Connection.
Context {W regex : Type}.
Abbreviation resource_function := (Server.Request → str → M (Response * W) failure unit).
Variable write_ok : list str → str → bool.
Variable regex_match : str → regex → bool.
Variable opt_resource : list (str * list (regex * resource_function)).
Variable default_resource : gmap str resource_function.

Abbreviation connection := (connection write_ok regex_match opt_resource default_resource).

(** The server is done with every connection: whatever bytes arrive on it, in whatever segments,
    and whatever the resources answer, reading requests, parsing their headers and going round for
    the next request ends, after at most one turn for each byte received. *)
Theorem connection_ends segs fuel hfuel w : (length (concat segs) < fuel)%nat → (length (concat segs) < hfuel)%nat →
  ∃ wss e w', connection fuel hfuel segs w = Some (wss, e, w').
Proof.
  revert segs w. induction fuel as [|fuel IH]; intros segs w Hf Hh; [lia|]. cbn [Serve.connection].
  destruct (read_request_ends hfuel segs Hh) as (x & -> & Hx).
  destruct x as [request content segs'| |e]; [|eauto..]. specialize (Hx _ _ _ eq_refl).
  destruct (Server.find_resource _ _ _ _ _) as [f|]; [|eauto].
  destruct (write_response _ f request content w) as [[ws [e|]] w1]; [eauto|].
  destruct (IH segs' w1) as (wss & e & w2 & ->); [lia..|]. simpl. eauto.
Qed.

(** ** A request the client of this repository makes *)
Record exchange := Exchange { x_method : str; x_path : str; x_host : str; x_header : list (str * str); x_content : str }.

Definition exchange_bytes (x : exchange) : str :=
  Client.request_bytes (x_method x) (x_path x) (x_host x) (x_header x) (x_content x).

Definition exchange_ok (x : exchange) : Prop :=
  " "%char ∉ x_method x ∧ LF ∉ x_method x ∧ " "%char ∉ x_path x ∧ LF ∉ x_path x ∧ LF ∉ x_host x ∧
  Forall header_ok (x_header x) ∧ Forall (λ e, e.1 ≠ lit "Content-Length") (x_header x) ∧
  size (exchange_bytes x) < 2 ^ 62 ∧ size (x_content x) < 10 ^ 18.

(** What the server makes of it. *)
Definition exchange_request (x : exchange) : Server.Request :=
  Server.mkRequest (x_method x) (if decide (x_path x = []) then lit "/" else x_path x) (lit "1.1")
    (foldl add_header ∅ (request_headers (x_host x) (x_header x) (x_content x))).

Lemma exchange_blank x : exchange_ok x →
  ∃ i, index_of_str blank (exchange_bytes x) = Some i ∧ length (exchange_bytes x) = (i + 4 + length (x_content x))%nat.
Proof.
  intros (Hm & Hml & Hp & Hpl & Hh & Hok & Hncl & Hs & Hc).
  destruct (parse_parts (length (x_header x) + 3) (x_method x) (x_path x) (x_host x) (x_header x) (x_content x) [] (exchange_bytes x))
    as (j & Hj & Hlen & _); rewrite ?app_nil_r; try done; [lia|by exists j].
Qed.

(** The first blank line is the end of the headers, so the part of the request that has been read
    when it is found is the headers and a part of the content. *)
Lemma exchange_cut x b rest i : exchange_ok x → index_of_str blank b = Some i → b ++ rest = exchange_bytes x →
  ∃ pre c1, b = pre ++ c1 ∧ x_content x = c1 ++ rest.
Proof.
  intros Hx Hi Hb. destruct (exchange_blank x Hx) as (j & Hj & Hlen).
  rewrite <- Hb in Hj. rewrite (index_of_str_app _ _ rest _ Hi) in Hj. injection Hj as <-.
  apply index_of_str_length in Hi. change (length blank) with 4%nat in Hi.
  assert (length rest <= length (x_content x))%nat as Hr.
  { rewrite <- Hb, length_app in Hlen. lia. }
  assert (∃ pre, exchange_bytes x = pre ++ x_content x) as [pre Hpre].
  { unfold exchange_bytes. rewrite <- (app_nil_r (Client.request_bytes _ _ _ _ _)), request_text, app_nil_r.
    eexists. rewrite app_comm_cons, !app_assoc. reflexivity. }
  exists pre, (take (length (x_content x) - length rest) (x_content x)).
  rewrite Hpre in Hb. rewrite <- (take_drop (length (x_content x) - length rest) (x_content x)), app_assoc in Hb.
  apply app_inj_2 in Hb as [-> Hb]; [|rewrite length_drop; lia]. split; [done|]. rewrite Hb at 2. by rewrite take_drop.
Qed.

Lemma read_until_more d buffer segs n b s more :
  Client.read_until d buffer segs = Some (n, (b, s)) → Client.read_until d buffer (segs ++ more) = Some (n, (b, s ++ more)).
Proof.
  revert buffer. induction segs as [|x segs IH]; intros buffer; simpl.
  - destruct (index_of_str d buffer) eqn:E; [|done]. intros [= <- <- <-]. destruct more; simpl; by rewrite E.
  - destruct (index_of_str d buffer) as [i|] eqn:E; [by intros [= <- <- <-]|]. apply IH.
Qed.

Lemma read_until_suffix d buffer segs n b s : Client.read_until d buffer segs = Some (n, (b, s)) → suffix s segs.
Proof.
  revert buffer. induction segs as [|x segs IH]; intros buffer; simpl.
  - destruct (index_of_str d buffer) eqn:E; [|done]. by intros [= <- <- <-].
  - destruct (index_of_str d buffer) as [i|] eqn:E; [by intros [= <- <- <-]|]. intros H%IH. by apply suffix_cons_r.
Qed.

Lemma read_exactly_all buffer segs more : Forall (λ s, s ≠ []) segs →
  Client.read_exactly (length (concat segs)) buffer (segs ++ more) = Some (buffer ++ concat segs, more).
Proof.
  intros Hne. revert buffer. induction Hne as [|x segs Hx Hne IH]; intros buffer; simpl.
  - rewrite app_nil_r. by destruct more.
  - rewrite length_app, decide_False by (destruct x; [done|]; simpl; lia). rewrite decide_False by lia.
    rewrite Nat.add_comm, Nat.add_sub, IH. by rewrite <- app_assoc.
Qed.

(** The content as it comes to the resource: the part that was read together with the headers has been through
    the log, which moves its first line to its end; the rest is as it was sent. *)
Definition arrives (x : exchange) (segs : list str) : str :=
  match Client.read_until (crlf ++ crlf) [] segs with
  | Some (n, (b, _)) => Server.log_first_line (drop n b) ++ drop (length b - n) (x_content x)
  | None => x_content x
  end.

(** The segments of one request, however the network cuts them, are read up to the last one. *)
Lemma read_request_exchange x fuel segs more : exchange_ok x → (length (x_header x) + 2 < fuel)%nat →
  concat segs = exchange_bytes x → Forall (λ s, s ≠ []) segs → size (concat more) < 2 ^ 62 →
  read_request fuel (segs ++ more) = Some (Received (exchange_request x) (arrives x segs) more) ∧ (LF ∉ x_content x → arrives x segs = x_content x).
Proof.
  intros Hx Hf Hsegs Hne Hmore. pose proof Hx as (Hm & Hml & Hp & Hpl & Hh & Hok & Hncl & Hs & Hc).
  destruct (exchange_blank x Hx) as (i & Hi & _).
  destruct (read_until_spec (crlf ++ crlf) [] segs i) as (b & s & E & Hb & Hl); [by rewrite Hsegs|].
  pose proof (read_until_suffix _ _ _ _ _ _ E) as [pre Hsuf]. unfold read_request, arrives.
  rewrite E, (read_until_more _ _ _ _ _ _ more E). clear E. simpl in Hb, Hl.
  assert (Forall (λ s, s ≠ []) s) as Hnes by (subst segs; by apply Forall_app in Hne as [_ ?]). rewrite Hsegs in Hb.
  assert (index_of_str blank b = Some i) as Hib.
  { destruct (index_of_str blank b) as [j|] eqn:Ej.
    - by rewrite <- Hb, (index_of_str_app _ _ _ _ Ej) in Hi.
    - exfalso. apply (index_of_str_Some blank) in Hi as [Hi _]. pose proof (index_of_str_None _ _ Ej i ltac:(lia)) as Hn.
      rewrite <- Hb, drop_app_le in Hi by lia. apply is_prefix_app_l in Hi; [congruence|]. rewrite length_drop. simpl. lia. }
  destruct (exchange_cut x b (concat s) i Hx Hib Hb) as (pre' & c1 & Hpre & Hc1).
  destruct (parse_parts fuel (x_method x) (x_path x) (x_host x) (x_header x) c1 (concat s) b)
    as (j & Hj & Hlen & Hparse); rewrite <- ?Hc1; try done.
  rewrite Hib in Hj. injection Hj as <-. rewrite <- Hc1 in Hparse.
  assert (size b < 2 ^ 62 ∧ size (concat s) < 2 ^ 62) as [Hsb Hss].
  { rewrite <- Hb, size_app in Hs. pose proof (size_nonneg b). pose proof (size_nonneg (concat s)). lia. }
  change (length (crlf ++ crlf)) with 4%nat.
  assert (length pre' = i + 4)%nat as Hlp by (rewrite Hpre, length_app in Hlen; lia).
  assert (drop (i + 4) b = c1) as -> by (by rewrite Hpre, <- Hlp, drop_app_length).
  assert (drop (length b - (i + 4)) (x_content x) = concat s) as -> by (rewrite Hc1, Hlen; replace (i + 4 + length c1 - (i + 4))%nat with (length c1) by lia; apply drop_app_length).
  split.
  2: { intros Hlf. rewrite Hc1 in Hlf. apply not_elem_of_app in Hlf as [Hlf _]. by rewrite (proj1 (log_first_line_cases c1) Hlf). }
  replace (u64 (size b - Z.of_nat (i + 4))) with (size c1).
  2: { pose proof (size_nonneg c1). rewrite u64_small; unfold size in *; lia. }
  rewrite Hparse. cbn [Server.header input]. pose proof (size_nonneg c1). pose proof (size_nonneg (concat s)).
  destruct (decide (x_content x = [])) as [He|He].
  - rewrite He, request_no_length by done. rewrite Hc1 in He. apply app_nil in He as [-> He].
    destruct s as [|y s]; [|apply app_nil in He as [-> _]; by apply Forall_cons in Hnes as [? _]].
    unfold exchange_request. simpl. by rewrite Hc1.
  - rewrite request_length, stoull_dec by (done || (pose proof (size_nonneg (x_content x)); lia)).
    replace (size (x_content x) - size c1) with (size (concat s)) by (rewrite Hc1, size_app; lia).
    rewrite u64_small by lia. rewrite concat_app, size_app. pose proof (size_nonneg (concat more)).
    destruct (Z.ltb_spec (size (concat s) + size (concat more)) (size (concat s))); [lia|].
    replace (Z.to_nat (size (concat s))) with (length (concat s)) by (unfold size; lia).
    by rewrite read_exactly_all.
Qed.

(** What the server writes for a request when its resource succeeds and the writes do, and what the
    resource does to what requests share; [content] is what the resource is given. *)
Definition serves (x : exchange) (content : str) (w : W) (ws : list str) (w' : W) : Prop :=
  ∃ f r, Server.find_resource regex_match opt_resource default_resource (x_method x) (Server.path (exchange_request x)) = Some f ∧
    f (exchange_request x) content (new_response, w) = (Ok tt, (r, w')) ∧
    write_ok (writes r) (streambuf r) = true ∧ ws = writes r ++ [streambuf r].

Inductive serves_all : list (exchange * str) → W → list (list str) → W → Prop :=
| serves_nil w : serves_all [] w [] w
| serves_cons x content xs w ws w1 wss w2 :
    serves x content w ws w1 → serves_all xs w1 wss w2 → serves_all ((x, content) :: xs) w (ws :: wss) w2.

(** One request of a connection that goes on. *)
Lemma connection_step x segs more fuel hfuel w ws w' :
  exchange_ok x → (length (x_header x) + 2 < hfuel)%nat → concat segs = exchange_bytes x → Forall (λ s, s ≠ []) segs →
  serves x (arrives x segs) w ws w' → size (concat more) < 2 ^ 62 →
  connection (S fuel) hfuel (segs ++ more) w =
    match connection fuel hfuel more w' with Some (wss', e, w'') => Some (ws :: wss', e, w'') | None => None end.
Proof.
  intros Hx Hf Hsegs Hne (f & r & Hfind & Hrun & Hwr & ->) Hsz. cbn [Serve.connection].
  rewrite (proj1 (read_request_exchange x hfuel segs more Hx Hf Hsegs Hne Hsz)).
  change (Server.method (exchange_request x)) with (x_method x). rewrite Hfind.
  unfold write_response. rewrite Hrun. cbn [log_response app writes streambuf]. rewrite Hwr.
  change (Stof.stof (Server.http_version (exchange_request x))) with (Ok (E:=Server.exn) (Stof.Finite 11 10)).
  change (Stof.gt_1_05 (Stof.Finite 11 10)) with true. cbn [mbind option_bind].
  destruct (connection fuel hfuel more w') as [[[wss' e] w'']|]; by simpl.
Qed.

(** C28: on a connection that is kept alive every request is answered, in order.  Requests made by the
    client of this repository with any content ([exchange_ok]: no space or line feed where the request line would break, header
    fields that are lines, no Content-Length of the caller's own, sizes below 2^62), each sent when the one before has been answered, so that no segment
    holds bytes of two of them, but otherwise cut in any way: the answers written are those of their
    resources, request by request, and the connection then goes on with what follows.  A resource is given the
    content as it [arrives]: what was sent if that has no line feed, and otherwise with the first line of the part that
    came with the headers moved behind the rest of that part, so that it depends on the cut (see [line_moved]). *)
Theorem keep_alive_serves xs wss segss more fuel hfuel w w' :
  Forall2 (λ x segs, exchange_ok x ∧ (length (x_header x) + 2 < hfuel)%nat ∧ concat segs = exchange_bytes x ∧
                     Forall (λ s, s ≠ []) segs) xs segss →
  serves_all (zip_with (λ x segs, (x, arrives x segs)) xs segss) w wss w' → size (concat (concat segss ++ more)) < 2 ^ 62 →
  connection (length xs + fuel) hfuel (concat segss ++ more) w =
    match connection fuel hfuel more w' with Some (wss', e, w'') => Some (wss ++ wss', e, w'') | None => None end ∧
  Forall2 (λ x segs, LF ∉ x_content x → arrives x segs = x_content x) xs segss.
Proof.
  intros Hxs Hw Hsz. split.
  2: { eapply Forall2_impl; [exact Hxs|]. intros x segs (Hx & Hf & Hsegs & Hne). simpl.
       by apply (proj2 (read_request_exchange x hfuel segs [] Hx Hf Hsegs Hne ltac:(done))). }
  revert wss w Hw Hsz. induction Hxs as [|x segs xs segss (Hx & Hf & Hsegs & Hne) Hxs IH]; intros wss w Hw Hsz.
  - inversion_clear Hw. simpl. by destruct (connection fuel hfuel more w') as [[[]]|].
  - inversion Hw as [|? ? ? ? ws w1 wss0 ? Hserve Hw']; subst. cbn [concat length Nat.add].
    cbn [concat] in Hsz. rewrite <- app_assoc, (concat_app segs), size_app in Hsz. pose proof (size_nonneg (concat segs)).
    rewrite <- app_assoc, (connection_step x _ _ _ _ _ ws w1), (IH wss0 w1) by (done || lia).
    by destruct (connection fuel hfuel more w') as [[[wss' e] w'']|].
Qed.
End Connection.

(** ** The client reads the answer *)
Definition answer_bytes (status : str) (content : str) : str :=
  lit "HTTP/1.1 " ++ status ++ crlf ++ lit "Content-Length: " ++ dec (size content) ++ crlf ++ crlf ++ content.

Definition status_line (status : str) : str := (lit "HTTP/1.1" ++ [" "%char]) ++ status ++ [CR].
Definition length_header (content : str) : list (str * str) := [(lit "Content-Length", dec (size content))].

Lemma answer_text status content r :
  answer_bytes status content ++ r = status_line status ++ LF :: headers_text (length_header content) ++ crlf ++ content ++ r.
Proof.
  unfold answer_bytes, status_line, length_header, headers_text, header_line. cbn [map concat fst snd].
  change (lit "HTTP/1.1 ") with (lit "HTTP/1.1" ++ [" "%char]). change (lit "Content-Length: ") with (lit "Content-Length" ++ lit ": ").
  change crlf with ([CR] ++ [LF]). by app_norm.
Qed.

Lemma length_header_ok content : size content < 10 ^ 18 → Forall header_ok (length_header content).
Proof.
  intros Hc. pose proof (size_nonneg content). constructor; [|constructor].
  pose proof (dec_length (size content) 18 ltac:(lia) ltac:(lia) Hc) as Hl. set (n := dec (size content)) in *.
  split_and!; [by apply (bool_decide_unpack _)..|by apply digits_no_lf, dec_digits; lia|]. unfold header_line. cbn [fst snd].
  change (lit ": ") with [":"%char; " "%char]. rewrite !size_app. change (size (lit "Content-Length")) with 14.
  change (size [":"%char; " "%char]) with 2. change (size [CR]) with 1. unfold size. lia.
Qed.

Lemma parse_response_text fuel status hs r : LF ∉ status → size status < 2 ^ 62 → Forall header_ok hs → (length hs < fuel)%nat →
  Client.parse_response_header fuel (mk (status_line status ++ LF :: headers_text hs ++ crlf ++ r) true) =
    Some (Ok (Client.mkResponse (lit "1.1") status (foldl add_header ∅ hs)), mk r true).
Proof.
  intros Hl Hs Hc Hf. unfold Client.parse_response_header. pose proof (size_nonneg status).
  rewrite getline_line.
  2: { unfold status_line. rewrite !not_elem_of_app. split_and!; try done; by apply (bool_decide_unpack _). }
  assert (find_char (status_line status) " " 0 = 8) as ->.
  { unfold status_line. rewrite <- app_assoc. exact (find_after [] (lit "HTTP/1.1") " " ltac:(by apply (bool_decide_unpack _)) (status ++ [CR])). }
  cbn [negb]. change (8 =? npos) with false. cbn [negb].
  assert (substr (status_line status) 5 (u64 (8 - 5)) = Some (lit "1.1")) as ->.
  { exact (substr_mid (lit "HTTP/") (lit "1.1") (" "%char :: status ++ [CR])). }
  assert (substr (status_line status) (8 + 1) (u64 (size (status_line status) - 8 - 2)) = Some status) as ->.
  { unfold status_line. rewrite !size_app. change (size (lit "HTTP/1.1")) with 8. change (size [" "%char]) with 1. change (size [CR]) with 1.
    replace (8 + 1 + (size status + 1) - 8 - 2) with (size status) by lia. rewrite u64_small by lia.
    exact (substr_mid (lit "HTTP/1.1" ++ [" "%char]) status [CR]). }
  pose proof (header_loop_lines hs fuel ∅ (status_line status) r Hc Hf) as Hloop.
  destruct (getline _ _) as [l s]. rewrite Hloop. done.
Qed.

(** The client reads an answer of known length back, however the network cuts it: the status, and
    exactly the content. *)
Lemma receive_answer fuel status content segs : LF ∉ status → size status < 2 ^ 62 → size content < 10 ^ 18 → (1 < fuel)%nat →
  concat segs = answer_bytes status content →
  ∃ s, Peer.receive fuel segs =
         Some (Client.mkResponse (lit "1.1") status {[lit "Content-Length" := dec (size content)]}, content, s) ∧ concat s = [].
Proof.
  intros Hl Hs Hc Hf Hsegs. pose proof (size_nonneg content). unfold Peer.receive.
  set (X := concat (map (λ l, l ++ [LF]) (status_line status :: map header_line (length_header content)))).
  assert (Hx : ∀ r, X ++ crlf ++ r = status_line status ++ LF :: headers_text (length_header content) ++ crlf ++ r).
  { intros r. unfold X, headers_text. cbn [map concat]. rewrite map_map. by app_norm. }
  assert (Hi : index_of_str blank (answer_bytes status content) = Some (length X - 2)%nat).
  { rewrite <- (app_nil_r (answer_bytes _ _)), answer_text, app_nil_r, <- Hx. apply index_of_blank. constructor.
    - unfold status_line. rewrite app_assoc. apply line_ok_snoc; [|done]. rewrite !not_elem_of_app.
      split_and!; try done; by apply (bool_decide_unpack _).
    - apply Forall_map. eapply Forall_impl; [by apply length_header_ok|]. apply header_line_ok. }
  assert (2 <= length X)%nat as HX by (unfold X, status_line; cbn [map concat]; rewrite !length_app; simpl; lia).
  assert (answer_bytes status content = X ++ crlf ++ content) as Ha.
  { rewrite <- (app_nil_r (answer_bytes _ _)), answer_text, app_nil_r. by rewrite Hx. }
  destruct (read_until_spec (crlf ++ crlf) [] segs (length X - 2)) as (b & s & E & Hb & Hlen); [by rewrite Hsegs|].
  rewrite E. change (length (crlf ++ crlf)) with 4%nat in *. cbn [app] in Hb. rewrite Hsegs in Hb.
  assert (∃ c1, b = X ++ crlf ++ c1 ∧ c1 ++ concat s = content) as (c1 & -> & Hc1).
  { exists (drop (length X + 2) b). assert (take (length X + 2) b = X ++ crlf) as Ht.
    { rewrite <- (take_app_le b (concat s)) by lia. rewrite Hb, Ha, app_assoc.
      change 2%nat with (length crlf). by rewrite <- length_app, take_app_length. }
    split; [by rewrite app_assoc, <- Ht, take_drop|].
    rewrite <- (drop_app_le b (concat s)) by lia. rewrite Hb, Ha, app_assoc.
    change 2%nat with (length crlf). by rewrite <- length_app, drop_app_length. }
  rewrite Hx, parse_response_text by (done || by apply length_header_ok). rewrite <- Hx. cbn [Client.header foldl length_header input].
  unfold add_header at 1. cbn [fst snd]. rewrite lookup_insert_eq, stoull_dec by lia.
  assert (size content = size c1 + size (concat s)) as Esz by (rewrite <- Hc1; apply size_app).
  pose proof (size_nonneg c1). pose proof (size_nonneg (concat s)).
  replace (u64 (size (X ++ crlf ++ c1) - Z.of_nat (length X - 2 + 4))) with (size c1).
  2: { rewrite u64_small; rewrite !size_app; change (size crlf) with 2; unfold size in *; lia. }
  rewrite u64_small by lia. destruct (Z.ltb_spec (size (concat s)) (size content - size c1)); [lia|].
  destruct (read_exactly_spec (Z.to_nat (size content - size c1)) c1 s) as (b' & s' & E' & Hb' & Hl'); [unfold size in *; lia|].
  rewrite E'. cbn [mbind option_bind]. rewrite Hc1 in Hb'.
  assert (length b' = length content) as Hl2 by (unfold size in *; lia).
  rewrite <- (app_nil_r content) in Hb'. apply app_inj_1 in Hb' as [-> Hs']; [|done]. by exists s'.
Qed.

(** ** Concrete runs *)
Module Runs.
(** A resource that answers with the path of the request; writes succeed. *)
(** What requests share is how many there were. *)
Definition echo : Server.Request → str → M (Response * nat) failure unit := λ request content '(r, n),
  put (answer_bytes (lit "200 OK") (Server.path request)) (r, S n).
Definition run (segs : list str) :=
  connection (λ _ _, true) (λ (_ : str) (_ : unit), false) [] {[lit "GET" := echo]} 1000 1000 segs 0%nat.

Definition get (path : str) : exchange := Exchange (lit "GET") path (lit "localhost") [] [].
Definition old_get (path version : str) : str := lit "GET " ++ path ++ lit " HTTP/" ++ version ++ crlf ++ crlf.

Ltac text := first [apply (bool_decide_unpack _); vm_compute; exact I | apply Z.ltb_lt; vm_compute; reflexivity | simpl; lia].

Lemma connection_ends_witness : ∃ wss e w,
  connection (λ _ _, true) (λ (_ : str) (_ : unit), false) [] {[lit "GET" := echo]} 20 20 [lit "GET / HTTP"; lit "/1.0"] 0%nat = Some (wss, e, w).
Proof. apply connection_ends; apply Nat.ltb_lt; vm_compute; reflexivity. Defined.

(** A resource that answers with the content, and requests with one. *)
Definition echo_content : Server.Request → str → M (Response * nat) failure unit := λ request content '(r, n),
  put (answer_bytes (lit "200 OK") content) (r, S n).
Definition post (content : str) : exchange := Exchange (lit "POST") (lit "/") (lit "localhost") [] content.
Definition run_post (segs : list str) :=
  connection (λ _ _, true) (λ (_ : str) (_ : unit), false) [] {[lit "POST" := echo_content]} 1000 1000 segs 0%nat.

Lemma post_ok content : content = [] ∨ content = lit "two words" → exchange_ok (post content).
Proof. intros [->| ->]; unfold exchange_ok; split_and!; first [exact (Forall_nil_2 _)|text]. Qed.

(** Two requests cut in odd places, the second with a content, then one for HTTP/1.0, after which nothing more is read. *)
Lemma keep_alive_serves_witness :
  let b := exchange_bytes (post []) in
  let c := exchange_bytes (post (lit "two words")) in
  let segs := concat [[take 5 b; drop 5 b]; [take 60 c; drop 60 c]] in
  run_post (segs ++ [lit "POST /b HTTP/1.0" ++ crlf ++ crlf]) =
    Some ([[answer_bytes (lit "200 OK") []]; [answer_bytes (lit "200 OK") (lit "two words")]; [answer_bytes (lit "200 OK") []]],
          NotKeptAlive, 3%nat).
Proof.
  intros b c segs. unfold run_post.
  destruct (keep_alive_serves (λ _ _, true) (λ (_ : str) (_ : unit), false) [] {[lit "POST" := echo_content]}
    [post []; post (lit "two words")] [[answer_bytes (lit "200 OK") []]; [answer_bytes (lit "200 OK") (lit "two words")]]
    [[take 5 b; drop 5 b]; [take 60 c; drop 60 c]] [lit "POST /b HTTP/1.0" ++ crlf ++ crlf] 998 1000 0%nat 2%nat) as [E _].
  - apply Forall2_cons_2; [|apply Forall2_cons_2; [|apply Forall2_nil_2]]; (split_and!; [apply post_ok; auto|simpl; lia|vm_compute; reflexivity|]);
      (constructor; [|constructor; [|constructor]]); vm_compute; discriminate.
  - econstructor; [|econstructor; [|constructor]]; exists echo_content; eexists; split_and!; try (vm_compute; reflexivity).
  - apply Z.ltb_lt. vm_compute. reflexivity.
  - exact (eq_trans E ltac:(vm_compute; reflexivity)).
Defined.

(** A content of two lines that comes with its headers, and one that comes after them. *)
Example line_moved :
  let b := exchange_bytes (post (lit "one" ++ LF :: lit "two")) in
  let n := (length b - 7)%nat in
  run_post [b] = Some ([[answer_bytes (lit "200 OK") (lit "twoone")]], Closed, 1%nat) ∧
  run_post [take n b; drop n b] = Some ([[answer_bytes (lit "200 OK") (lit "one" ++ LF :: lit "two")]], Closed, 1%nat).
Proof. by vm_compute. Qed.

(** A request without a version, or with one that is no number: the answer is written, and then the
    exception of [stof] leaves the completion handler, which nobody catches. *)
Example bad_version_escapes :
  run [old_get (lit "/a") (lit "abc")] = Some ([[answer_bytes (lit "200 OK") (lit "/a")]], Escapes Server.invalid_argument, 1%nat) ∧
  run [old_get (lit "/a") []] = Some ([[answer_bytes (lit "200 OK") (lit "/a")]], Escapes Server.invalid_argument, 1%nat).
Proof. by vm_compute. Qed.

(** Two requests that arrive together: the second one is in the buffer of the first, and is not answered. *)
Example pipelined_lost :
  run [old_get (lit "/a") (lit "1.1") ++ old_get (lit "/b") (lit "1.1")] = Some ([[answer_bytes (lit "200 OK") (lit "/a")]], Closed, 1%nat).
Proof. by vm_compute. Qed.
End Runs.
End HttpServeSpec.
