(* ===== verification/WebResource.v ===== *)
(** * The resources of the web service (serverResource.hpp)

    [defaultindex] serves the files under web/ and hands paths under /flowNo/ to
    [deal_with_flow_number], which takes a number from a counter in Redis.  The file also holds two
    functions that replace text. *)
From S2P Require Import Prelude CppString Decimal Cluster Http HttpServe.
Import Serve.

#[local] Open Scope Z_scope.

(** ** Replacing text *)
Module Text.

(** [s.replace(pos, n, value)] and [s.erase(pos, n)], for a position in the string. *)
Definition replace_at (s : str) (pos n : Z) (value : str) : str :=
  take (Z.to_nat pos) s ++ value ++ drop (Z.to_nat (pos + n)) s.
Definition erase_at (s : str) (pos n : Z) : str := replace_at s pos n [].

(** Every turn starts again from the beginning; [None] is a loop that has not ended. *)
(*@ serverResource.hpp 376-385 replace_all *)
Fixpoint replace_all (fuel : nat) (s old_value new_value : str) : option str :=
  match fuel with
  | O => None
  | S fuel =>
      let pos := find_str s old_value 0 in
      if negb (pos =? npos) then replace_all fuel (replace_at s pos (size old_value) new_value) old_value new_value
      else Some s
  end.

(** The loop from a position on; it goes on behind the text it has put in. *)
Fixpoint replace_from (fuel : nat) (s old_value new_value : str) (pos : Z) : option str :=
  match fuel with
  | O => None
  | S fuel =>
      if pos =? npos then Some s
      else
        let pos := find_str s old_value pos in
        if negb (pos =? npos)
        then replace_from fuel (replace_at s pos (size old_value) new_value) old_value new_value (u64 (pos + size new_value))
        else Some s
  end.

(*@ serverResource.hpp 386-394 replace_all_distinct *)
Definition replace_all_distinct (fuel : nat) (s old_value new_value : str) : option str :=
  replace_from fuel s old_value new_value 0.

(** [boost::split] on one character: the pieces between its occurrences, one of them at least. *)
Fixpoint split (c : ascii) (s : str) : list str :=
  match s with
  | [] => [[]]
  | x :: s =>
      if decide (x = c) then [] :: split c s
      else match split c s with p :: ps => (x :: p) :: ps | [] => [[x]] end
  end.
End Text.

(** ** A client of Redis

    What the resources need of it: sending a command that is given by the key it is about and a
    format, and freeing the reply.  A reply is a pointer. *)
Class RedisClient (CS : Type) := {
  Command : str → str → M CS exn (option redisReply);
  freeReply : option redisReply → M CS exn unit
}.

(** *** The cluster client of this repository is one *)
Section Instance.
Context {conn World : Type}.
Variable connect : str → Z → World → result exn (option conn) * World.
Variable err : conn → World → bool.
Variable errstr : conn → World → str.
Variable redisGetReply : conn → str → World → option (option redisReply) * World.
Variable redisCommand : conn → str → World → option redisReply * World.
Variable callback : nat → Cluster.t (conn:=conn) → World → Cluster.t (conn:=conn) * World.
(** hiredis' formatting with no arguments after the format; [None] where the format asks for some. *)
Variable redisvFormatCommand : str → option str.

(*@ common/hirediscommand.h 97-107 HiredisCommand::Command *)
Definition HiredisCommand_Command (key format : str) : M (Cluster.state (conn:=conn) (World:=World)) exn (option redisReply) :=
  match redisvFormatCommand format with
  | Some cmd_ => Cluster.process connect err errstr redisGetReply redisCommand callback key cmd_
  | None => throw Undefined
  end.

Definition ClusterClient : RedisClient (Cluster.state (conn:=conn) (World:=World)) := {|
  Command := HiredisCommand_Command;
  freeReply reply := match reply with Some _ => Cluster.freeReplyObject | None => mret tt end
|}.
End Instance.

(** ** The resources *)
Module Resources.
Section Resource.
Context {CS : Type} {redis : RedisClient CS}.

(** The text of an exception, of the cluster client or of the standard library: [errno] and the
    library's own texts are not the program's. *)
Variable strerror_errno : str.
Variable std_what : exn → str.

(*@ common/clusterexception.h 41-118 ClusterException *)
Definition what (e : exn) : str :=
  match e with
  | AskingFailedException | MovedFailedException => lit "error while processing asking command"
  | ConnectionFailedException => lit "cluster connect failed: " ++ strerror_errno
  | DisconnectedException => lit "cluster host disconnected"
  | NodeSearchException => lit "node not found in cluster"
  | NotInitializedException => lit "cluster have not been properly initialized"
  | ClusterDownException => lit "cluster is going down"
  | LogicError reason => reason
  | InvalidArgument => lit "cluster invalid argument"
  | e => std_what e
  end.

(** [second_clock::local_time] in the two formats, and the files there are. *)
Variable local_time : str.
Variable open_file : str → option str.
Variable write_ok : list str → str → bool.

Abbreviation H := (M (Response * CS) failure).

(** [response << head << length << "\r\n\r\n" << content] *)
Definition answer {E} (head content : str) : M (Response * CS) E unit :=
  put head ;; put (dec (size content)) ;; put (crlf ++ crlf) ;; put content.
Definition ok_head : str := lit "HTTP/1.1 200 OK" ++ crlf ++ lit "Content-Length: ".
Definition bad_head : str := lit "HTTP/1.1 400 Bad Request" ++ crlf ++ lit "Content-Length: ".

(** A step on the state of the Redis client, inside the [try] of the resource. *)
Definition on_redis {A} (m : M CS exn A) : M (Response * CS) exn A := λ '(r, cs),
  let '(a, cs) := m cs in (a, (r, cs)).

(** The key of the counter of a company and a type, from the path; [Undefined] when there is no
    second part. *)
(*@ serverResource.hpp 229-239 deal_with_flow_number *)
Definition flow_key (path : str) : result exn str :=
  match substr path (size (lit "/flowNo/")) (size path) with
  | None => Err std_out_of_range
  | Some left_path =>
      match Text.split "/" left_path with
      | company :: type :: _ => Ok (lit "{" ++ company ++ lit "_" ++ type ++ lit "_" ++ lit "flow_number}:id")
      | _ => Err Undefined
      end
  end.

(** The text of a reply, as [reply->str] has it; a null pointer is not looked at. *)
Definition reply_str (reply : redisReply) : option str :=
  match reply with
  | REDIS_REPLY_STRING s | REDIS_REPLY_STATUS s | REDIS_REPLY_ERROR s => Some (c_str s)
  | _ => None
  end.

(** The counter is increased by one command and read by another. *)
(*@ serverResource.hpp 246-247 deal_with_flow_number *)
Definition flow_incr (id_name : str) : M CS exn unit :=
  incr ← Command id_name (lit "incr " ++ id_name); freeReply incr.

(*@ serverResource.hpp 249-258 deal_with_flow_number *)
Definition flow_get (id_name : str) : M CS exn str :=
  reply ← Command id_name (lit "get " ++ id_name);
  match reply with
  | None => throw Undefined
  | Some r => let value := default [] (reply_str r) in freeReply reply ;; mret value
  end.

Definition flow_json (value : str) : str :=
  let q := [ascii_of_nat 34] in
  lit "{" ++ q ++ lit "flowNo" ++ q ++ lit ":" ++ q ++ value ++ q ++ lit "," ++ q ++ lit "replyTime" ++ q ++ lit " : " ++ q ++
  local_time ++ q ++ lit "}".

(** No exception the body throws is one of the JSON parser or unknown. *)
(*@ serverResource.hpp 225-281 deal_with_flow_number *)
Definition deal_with_flow_number (path : str) : H unit :=
  catch (id_name ← (λ s, (flow_key path, s));
         on_redis (flow_incr id_name) ;;
         value ← on_redis (flow_get id_name);
         answer ok_head (flow_json value))
        (λ e, match e with Undefined => throw Crash | _ => answer bad_head (c_str (what e)) end).

(** *** Files *)

(** The loop that takes one dot of two. *)
(*@ serverResource.hpp 298-302 defaultindex *)
Fixpoint squeeze (fuel : nat) (path : str) : option str :=
  match fuel with
  | O => None
  | S fuel =>
      let pos := find_str path (lit "..") 0 in
      if negb (pos =? npos) then squeeze fuel (Text.erase_at path pos 1) else Some path
  end.

(** A name without a dot is taken for a directory. *)
(*@ serverResource.hpp 287-311 defaultindex *)
Definition web_filename (path : str) : str :=
  let filename := lit "web" ++ path in
  if find_char filename "." 0 =? npos then
    (if decide (last filename = Some "/"%char) then filename else filename ++ lit "/") ++ lit "index.html"
  else filename.

(** [ifs.read] into the buffer until nothing more is read, and a flush after each. *)
(*@ serverResource.hpp 327-333 defaultindex *)
Fixpoint send_chunks (fuel : nat) (buffer_size : Z) (rest : str) : H unit :=
  match fuel with
  | O => throw Diverges
  | S fuel =>
      let chunk := take (Z.to_nat buffer_size) rest in
      if 0 <? size chunk then
        put chunk ;; flush write_ok ;; send_chunks fuel buffer_size (drop (Z.to_nat buffer_size) rest)
      else mret tt
  end.

(*@ serverResource.hpp 314-339 defaultindex *)
Definition send_file (buffer_size : Z) (contents : str) : H unit :=
  let length_ := size contents in
  put ok_head ;; put (dec length_) ;; put (crlf ++ crlf) ;;
  if buffer_size <? length_ then send_chunks (S (length contents)) buffer_size contents
  else put_rdbuf contents.

(** The resource for GET of any path no other resource has. *)
(*@ serverResource.hpp 282-345 defaultindex *)
Definition defaultindex (request : Server.Request) (content : str) : H unit :=
  let path := Server.path request in
  if is_prefix (lit "/flowNo/") path then deal_with_flow_number path
  else
    match squeeze (S (length path)) path with
    | None => throw Diverges
    | Some path =>
        let filename := web_filename path in
        match open_file filename with
        | Some contents => send_file 131072 contents
        | None => answer bad_head (lit "Could not open file " ++ filename)
        end
    end.
End Resource.
End Resources.
