(* ===== verification/WebResourceSpec.v ===== *)
(** * Properties of the web service's resources (WebResource.v) *)
From S2P Require Import Prelude CppString Decimal SlotHash Cluster Http HttpSpec HttpServe HttpServeSpec WebResource.
Import HttpSpec Serve.

#[local] Open Scope Z_scope.
#[local] Arguments lit : simpl never.

(** ** Replacing text *)
Module TextSpec.
Import Text.

Section Replace.
Variables old new : str.

(** The occurrences of [old], found from left to right, none of them overlapping, give way to [new];
    [skip] characters belong to the occurrence before. *)
Fixpoint subst (skip : nat) (s : str) : str :=
  match s with
  | [] => []
  | c :: r => match skip with
              | S k => subst k r
              | O => if is_prefix old s then new ++ subst (length old - 1) r else c :: subst 0 r
              end
  end.

Lemma subst_skip x t : subst (length x) (x ++ t) = subst 0 t.
Proof. induction x as [|c x IH]; simpl; [done|exact IH]. Qed.

Lemma subst_none s : index_of_str old s = None → subst 0 s = s.
Proof.
  induction s as [|c s IH]; [done|]. cbn [index_of_str subst]. destruct (is_prefix old (c :: s)); [done|].
  intros H%fmap_None. by rewrite IH.
Qed.

Lemma subst_first s i : old ≠ [] → index_of_str old s = Some i →
  subst 0 s = take i s ++ new ++ subst 0 (drop (i + length old) s).
Proof.
  intros Hne. revert i. induction s as [|c s IH]; intros i.
  - simpl. destruct old; [done|]. done.
  - cbn [index_of_str subst]. destruct (is_prefix old (c :: s)) eqn:Hp.
    + intros [= <-]. apply is_prefix_spec in Hp as [t Ht]. rewrite Ht. cbn [Nat.add take app]. rewrite drop_app_length. apply (f_equal (app new)).
      destruct old as [|o x]; [done|]. simpl in Ht. injection Ht as -> ->. simpl. rewrite Nat.sub_0_r. apply subst_skip.
    + intros (k & Hk & ->)%fmap_Some. cbn [take drop Nat.add app]. by rewrite (IH _ Hk).
Qed.

Lemma find_str_tail a b : find_str (a ++ b) old (size a) = at_pos (size a) (index_of_str old b).
Proof.
  unfold find_str. rewrite size_app. pose proof (size_nonneg b). destruct (Z.ltb_spec (size a + size b) (size a)); [lia|].
  unfold size. by rewrite Nat2Z.id, drop_app_length.
Qed.

(** The string after one replacement behind [a]. *)
Lemma replace_first a b i : index_of_str old b = Some i →
  replace_at (a ++ b) (size a + Z.of_nat i) (size old) new = (a ++ take i b ++ new) ++ drop (i + length old) b.
Proof.
  intros Hi%index_of_str_length. unfold replace_at, size. rewrite <- !Nat2Z.inj_add, !Nat2Z.id.
  rewrite take_app_ge, drop_app_ge by lia. replace (length a + i - length a)%nat with i by lia.
  replace (length a + i + length old - length a)%nat with (i + length old)%nat by lia. by rewrite <- !app_assoc.
Qed.

Lemma at_pos_found p i : (p + Z.of_nat i < npos) → (at_pos p (Some i) =? npos) = false.
Proof. intros H. simpl. apply Z.eqb_neq. lia. Qed.

Lemma replace_from_subst fuel a b : old ≠ [] → (length b < fuel)%nat → size a + size b * (size new + 1) < 2 ^ 63 →
  replace_from fuel (a ++ b) old new (size a) = Some (a ++ subst 0 b).
Proof.
  intros Hne. revert a b. induction fuel as [|fuel IH]; intros a b Hf Hs; [lia|]. cbn [replace_from].
  pose proof (size_nonneg a). pose proof (size_nonneg b). pose proof (size_nonneg new).
  rewrite (proj2 (Z.eqb_neq _ _)) by (unfold npos; nia). rewrite find_str_tail.
  destruct (index_of_str old b) as [i|] eqn:Hi.
  - pose proof (index_of_str_length _ _ _ Hi) as Hl.
    assert (Z.of_nat i + size old + size (drop (i + length old) b) = size b) as Hsb.
    { unfold size. rewrite length_drop. lia. }
    pose proof (size_nonneg (drop (i + length old) b)). assert (1 <= size old) by (destruct old; [done|]; rewrite size_cons; pose proof (size_nonneg l); lia).
    rewrite at_pos_found by (unfold npos; nia). cbn [negb at_pos]. rewrite replace_first by done.
    assert (size (take i b) = Z.of_nat i) as Ht by (unfold size; rewrite length_take; lia).
    replace (u64 (size a + Z.of_nat i + size new)) with (size (a ++ take i b ++ new)).
    2: { rewrite !size_app, Ht, u64_small; nia. }
    rewrite IH.
    + rewrite (subst_first b i Hne Hi). by rewrite <- !app_assoc.
    + rewrite length_drop. destruct old; [done|]. simpl in *. lia.
    + rewrite !size_app, Ht. nia.
  - cbn [at_pos]. rewrite Z.eqb_refl. cbn [negb]. by rewrite subst_none.
Qed.

(** [replace_all_distinct] replaces the occurrences found from left to right, once each, and does
    not look at what it has put in: for a text to look for that is not empty the loop ends, after at
    most one turn for each character, with the simultaneous substitution. *)
Theorem replace_all_distinct_subst fuel s : old ≠ [] → (length s < fuel)%nat → size s * (size new + 1) < 2 ^ 63 →
  replace_all_distinct fuel s old new = Some (subst 0 s).
Proof. intros Hne Hf Hs. apply (replace_from_subst fuel [] s Hne Hf). rewrite size_nil. lia. Qed.

(** *** [replace_all] *)
Lemma replace_all_step fuel s i : index_of_str old s = Some i → Z.of_nat i < npos →
  replace_all (S fuel) s old new = replace_all fuel (take i s ++ new ++ drop (i + length old) s) old new.
Proof.
  intros Hi Hn. cbn [replace_all]. pose proof (find_str_tail [] s) as Hf. cbn [app] in Hf. rewrite size_nil in Hf. rewrite Hf, Hi.
  rewrite at_pos_found by lia. cbn [negb at_pos]. pose proof (replace_first [] s i Hi) as Hr. cbn [app] in Hr.
  rewrite size_nil in Hr. by rewrite Hr, <- app_assoc.
Qed.

Lemma replace_all_done fuel s : index_of_str old s = None → replace_all (S fuel) s old new = Some s.
Proof.
  intros Hi. cbn [replace_all]. pose proof (find_str_tail [] s) as Hf. cbn [app] in Hf. rewrite size_nil in Hf.
  by rewrite Hf, Hi.
Qed.

Lemma index_of_str_in p a b : is_Some (index_of_str p (a ++ p ++ b)).
Proof.
  destruct (index_of_str p (a ++ p ++ b)) as [i|] eqn:E; [done|].
  pose proof (index_of_str_None _ _ E (length a)) as H. rewrite drop_app_length, is_prefix_app in H.
  rewrite length_app in H. specialize (H ltac:(lia)). done.
Qed.

(** What [replace_all] does, and when it ends.  When it ends, nothing is left to replace.  It ends
    when the new text is shorter than the old one, after at most one turn for each character.  When
    the new text contains the old one it does not end, unless there was nothing to replace: each
    turn puts back what it takes out. *)
Theorem replace_all_ends s :
  (∀ fuel s', replace_all fuel s old new = Some s' → size s' < npos → index_of_str old s' = None) ∧
  ((length new < length old)%nat → ∀ fuel, (length s < fuel)%nat → is_Some (replace_all fuel s old new)) ∧
  (is_Some (index_of_str old new) → is_Some (index_of_str old s) →
   ∀ fuel, size s + Z.of_nat fuel * size new < npos → replace_all fuel s old new = None).
Proof.
  split_and!.
  - intros fuel. revert s. induction fuel as [|fuel IH]; intros s s' E Hs; [done|].
    destruct (index_of_str old s) as [i|] eqn:Hi; [|rewrite replace_all_done in E by done; congruence].
    destruct (Z.ltb_spec (Z.of_nat i) npos).
    + rewrite (replace_all_step fuel s i) in E by done. eauto.
    + cbn [replace_all] in E. pose proof (find_str_tail [] s) as Hf. cbn [app] in Hf. rewrite size_nil in Hf. rewrite Hf, Hi in E.
      cbn [at_pos] in E. destruct (Z.eqb_spec (0 + Z.of_nat i) npos); cbn [negb] in E.
      * injection E as <-. apply index_of_str_length in Hi. unfold size in Hs. lia.
      * apply IH in E; done.
  - intros Hlen fuel. revert s. induction fuel as [|fuel IH]; intros s Hf; [lia|].
    destruct (index_of_str old s) as [i|] eqn:Hi; [|by rewrite replace_all_done].
    pose proof (index_of_str_length _ _ _ Hi) as Hl. cbn [replace_all]. pose proof (find_str_tail [] s) as Hfs. cbn [app] in Hfs.
    rewrite size_nil in Hfs. rewrite Hfs, Hi. destruct (negb _); [|done]. cbn [at_pos].
    pose proof (replace_first [] s i Hi) as Hr. cbn [app] in Hr. rewrite size_nil in Hr. rewrite Hr. apply IH.
    rewrite !length_app, length_take, length_drop. lia.
  - intros [k Hk] Hin fuel. apply index_of_str_Some in Hk as [[t Ht]%is_prefix_spec _].
    assert (new = take k new ++ old ++ t) as Hnew by (by rewrite <- Ht, take_drop). clear Ht.
    revert s Hin. induction fuel as [|fuel IH]; intros s [i Hi] Hs; [done|].
    pose proof (index_of_str_length _ _ _ Hi) as Hl. pose proof (size_nonneg new).
    rewrite (replace_all_step fuel s i) by (done || (unfold size in Hs; nia)). apply IH.
    + rewrite Hnew. rewrite <- !app_assoc, (app_assoc (take i s)). apply index_of_str_in.
    + rewrite !size_app. unfold size in *. rewrite length_take, length_drop. lia.
Qed.
(** *** When both agree *)
(** No occurrence starts in [a]. *)
Definition settled (a b : str) : Prop := ∀ j, (j < length a)%nat → is_prefix old (drop j (a ++ b)) = false.

Lemma settled_index a b : settled a b → index_of_str old (a ++ b) = (λ i, length a + i)%nat <$> index_of_str old b.
Proof.
  intros Ha. destruct (index_of_str old b) as [i|] eqn:Hi; [by apply index_of_str_skip|].
  destruct (index_of_str old (a ++ b)) as [k|] eqn:Hk; [|done]. exfalso.
  pose proof (index_of_str_length _ _ _ Hk) as Hl. apply index_of_str_Some in Hk as [Hk _].
  destruct (decide (k < length a)%nat) as [Hka|]; [rewrite (Ha k Hka) in Hk; done|].
  pose proof (index_of_str_None _ _ Hi (k - length a)) as Hn. rewrite drop_app_ge in Hk by lia.
  rewrite length_app in Hl. rewrite Hn in Hk by lia. done.
Qed.

(** Replacing the first occurrence settles everything up to the end of what was put in. *)
Lemma settled_step a b i : Forall (λ c, c ∉ old) new → new ≠ [] → old ≠ [] → settled a b → index_of_str old b = Some i →
  settled (a ++ take i b ++ new) (drop (i + length old) b).
Proof.
  intros Hdis Hnew Hne Ha Hi j Hj. assert (1 <= length old ∧ 1 <= length new)%nat as [Ho1 Hn1] by (destruct old, new; try done; simpl; lia). pose proof (index_of_str_length _ _ _ Hi) as Hl. apply index_of_str_Some in Hi as [_ Hfirst].
  apply not_true_is_false. intros Hp. assert (length (take i b) = i) as Ht by (rewrite length_take; lia).
  rewrite !length_app, Ht in Hj. destruct (decide (j + length old <= length a + i)%nat) as [Hw|Hw].
  - rewrite (app_assoc a), <- (app_assoc _ new), drop_app_le in Hp by (rewrite length_app; lia).
    apply is_prefix_app_l in Hp; [|rewrite length_drop, length_app; lia].
    apply (is_prefix_app_r _ _ (drop i b)) in Hp. rewrite <- drop_app_le, <- app_assoc, take_drop in Hp by (rewrite length_app; lia).
    destruct (decide (j < length a)%nat) as [Hja|]; [rewrite (Ha j Hja) in Hp; done|].
    rewrite drop_app_ge in Hp by lia. destruct (decide (j - length a < i)%nat) as [Hji|]; [by rewrite (Hfirst _ Hji) in Hp|].
    lia.
  - apply is_prefix_spec in Hp as [t Ht'].
    assert (∃ m, m = Nat.max j (length a + i)) as [m Hm0] by eauto. assert (is_Some (new !! (m - length a - i)%nat)) as [c Hc] by (apply lookup_lt_is_Some; lia).
    assert (old !! (m - j)%nat = Some c) as Ho.
    { assert (((a ++ take i b ++ new) ++ drop (i + length old) b) !! m = Some c) as Hm.
      { apply lookup_lt_Some in Hc as Hlc. rewrite <- !app_assoc. rewrite lookup_app_r by lia. rewrite lookup_app_r by lia.
        rewrite Ht, lookup_app_l by lia. done. }
      replace m with (j + (m - j))%nat in Hm by lia. rewrite <- lookup_drop, Ht' in Hm.
      rewrite lookup_app_l in Hm by (apply lookup_lt_Some in Hc; lia). done. }
    rewrite Forall_forall in Hdis. apply (Hdis c); by eapply list_elem_of_lookup_2.
Qed.

Lemma replace_all_settled fuel a b : Forall (λ c, c ∉ old) new → new ≠ [] → old ≠ [] → settled a b →
  (length b < fuel)%nat → size a + size b * (size new + 1) < 2 ^ 63 →
  replace_all fuel (a ++ b) old new = Some (a ++ subst 0 b).
Proof.
  intros Hdis Hnew Hne. revert a b. induction fuel as [|fuel IH]; intros a b Ha Hf Hs; [lia|].
  pose proof (settled_index a b Ha) as Hab. destruct (index_of_str old b) as [i|] eqn:Hi; simpl in Hab.
  - pose proof (index_of_str_length _ _ _ Hi) as Hl. pose proof (size_nonneg new). pose proof (size_nonneg a).
    assert (Z.of_nat (length a + i) <= size a + size b) by (unfold size; lia). pose proof (size_nonneg b).
    rewrite (replace_all_step _ _ _ Hab) by (unfold npos; nia).
    rewrite take_app_ge, <- Nat.add_assoc, drop_app_ge by lia.
    replace (length a + i - length a)%nat with i by lia. replace (length a + (i + length old) - length a)%nat with (i + length old)%nat by lia.
    replace ((a ++ take i b) ++ new ++ drop (i + length old) b) with ((a ++ take i b ++ new) ++ drop (i + length old) b) by (by rewrite <- !app_assoc).
    assert (1 <= length old ∧ 1 <= length new)%nat as [Ho1 Hn1] by (destruct old, new; try done; simpl; lia).
    rewrite IH.
    + rewrite (subst_first b i Hne Hi). by rewrite <- !app_assoc.
    + by apply settled_step.
    + rewrite length_drop. lia.
    + unfold size in *. rewrite !length_app, length_take, length_drop. nia.
  - by rewrite (replace_all_done _ _ Hab), subst_none.
Qed.

(** The two functions agree when the new text shares no character with the old one and neither is
    empty: what is put in can then not become part of another occurrence. *)
Theorem replace_all_agrees fuel s : Forall (λ c, c ∉ old) new → new ≠ [] → old ≠ [] →
  (length s < fuel)%nat → size s * (size new + 1) < 2 ^ 63 →
  replace_all fuel s old new = replace_all_distinct fuel s old new.
Proof.
  intros Hdis Hnew Hne Hf Hs.
  assert (replace_all_distinct fuel s old new = Some (subst 0 s)) as ->.
  { apply (replace_from_subst fuel [] s Hne Hf). rewrite size_nil. lia. }
  apply (replace_all_settled fuel [] s Hdis Hnew Hne); [intros j Hj; simpl in Hj; lia|done|rewrite size_nil; lia].
Qed.
End Replace.

Lemma replace_all_distinct_subst_witness :
  replace_all_distinct 10 (lit "a.b.c") (lit ".") (lit "..") = Some (lit "a..b..c").
Proof. apply (replace_all_distinct_subst (lit ".") (lit "..") 10 (lit "a.b.c")); [done|simpl; lia|reflexivity]. Defined.

Lemma replace_all_agrees_witness :
  replace_all 20 (lit "aaxaaa") (lit "aa") (lit "b") = replace_all_distinct 20 (lit "aaxaaa") (lit "aa") (lit "b").
Proof.
  apply replace_all_agrees; [|done|done|simpl; lia|reflexivity]. constructor; [by apply (bool_decide_unpack _)|constructor].
Defined.

(** The two differ where a replacement makes a new occurrence. *)
Example replace_all_again :
  (replace_all 10 (lit "aabb") (lit "ab") [], replace_all_distinct 10 (lit "aabb") (lit "ab") []) = (Some [], Some (lit "ab")).
Proof. by vm_compute. Qed.
(** An empty text is found everywhere, and neither loop ends. *)
Example replace_nothing : (replace_all 100 (lit "a") [] (lit "b"), replace_all_distinct 100 (lit "a") [] (lit "b")) = (None, None).
Proof. by vm_compute. Qed.
End TextSpec.

(** ** The names of files *)
Module PathSpec.
Import Resources.

Definition two_dots (s : str) : Prop := ∃ a b, s = a ++ lit ".." ++ b.

Lemma two_dots_index s : two_dots s ↔ is_Some (index_of_str (lit "..") s).
Proof.
  split.
  - intros (a & b & ->). apply TextSpec.index_of_str_in.
  - intros [i Hi]. apply index_of_str_Some in Hi as [[t Ht]%is_prefix_spec _]. exists (take i s), t. by rewrite <- Ht, take_drop.
Qed.

Lemma two_dots_cons c s : two_dots (c :: s) ↔ (c = "."%char ∧ head s = Some "."%char) ∨ two_dots s.
Proof.
  split.
  - intros (a & b & E). destruct a as [|x a].
    + injection E as -> ->. left. done.
    + injection E as -> ->. right. by exists a, b.
  - intros [[-> Hs]|(a & b & ->)].
    + destruct s as [|d s]; [done|]. injection Hs as ->. by exists [], s.
    + by exists (c :: a), b.
Qed.

Lemma two_dots_app a b : "."%char ∉ a → two_dots (a ++ b) ↔ two_dots b.
Proof.
  induction a as [|c a IH]; simpl; [done|]. intros [Hc Ha]%not_elem_of_cons. rewrite two_dots_cons, IH by done. naive_solver.
Qed.

(** Every run of dots is one dot. *)
Fixpoint collapse (s : str) : str :=
  match s with
  | [] => []
  | c :: r => if decide (c = "."%char ∧ head r = Some "."%char) then collapse r else c :: collapse r
  end.

Lemma collapse_head s : head (collapse s) = head s.
Proof. induction s as [|c s IH]; simpl; [done|]. case_decide as H; [|done]. rewrite IH. naive_solver. Qed.

Lemma collapse_clean s : ¬ two_dots (collapse s).
Proof.
  induction s as [|c s IH]; simpl; [intros ([|? ?] & ? & ?); done|]. case_decide as H; [done|].
  rewrite two_dots_cons, collapse_head. naive_solver.
Qed.

Lemma collapse_id s : ¬ two_dots s → collapse s = s.
Proof.
  induction s as [|c s IH]; simpl; [done|]. rewrite two_dots_cons. intros H. rewrite decide_False by naive_solver.
  rewrite IH by naive_solver. done.
Qed.

Lemma collapse_step a b : collapse (a ++ lit ".." ++ b) = collapse (a ++ lit "." ++ b).
Proof.
  induction a as [|c a IH]; [done|]. cbn [app collapse]. rewrite IH.
  assert (head (a ++ lit ".." ++ b) = head (a ++ lit "." ++ b)) as ->; [by destruct a|done].
Qed.

(** The loop ends and leaves one dot of each run. *)
Lemma squeeze_collapse fuel s : (length s < fuel)%nat → size s < 2 ^ 63 → squeeze fuel s = Some (collapse s).
Proof.
  revert s. induction fuel as [|fuel IH]; intros s Hf Hs; [lia|]. cbn [squeeze].
  pose proof (TextSpec.find_str_tail (lit "..") [] s) as Hfs. cbn [app] in Hfs. rewrite size_nil in Hfs. rewrite Hfs.
  destruct (index_of_str (lit "..") s) as [i|] eqn:Hi.
  - pose proof (index_of_str_length _ _ _ Hi) as Hl. pose proof Hi as Hi'. apply index_of_str_Some in Hi' as [[t Ht]%is_prefix_spec _].
    rewrite TextSpec.at_pos_found by (unfold size, npos in *; lia). cbn [negb at_pos]. unfold Text.erase_at, Text.replace_at.
    assert (s = take i s ++ lit ".." ++ t) as E by (by rewrite <- Ht, take_drop).
    assert (drop (i + 1) s = lit "." ++ t) as Hd.
    { rewrite <- drop_drop, Ht. done. }
    replace (Z.to_nat (0 + Z.of_nat i)) with i by lia. replace (Z.to_nat (0 + Z.of_nat i + 1)) with (i + 1)%nat by lia.
    change (length (lit "..")) with 2%nat in Hl. cbn [app]. rewrite Hd, IH.
    + rewrite E at 2. by rewrite collapse_step.
    + apply (f_equal length) in Ht. rewrite length_drop in Ht. rewrite !length_app, length_take in *.
      change (length (lit "..")) with 2%nat in Ht. change (length (lit ".")) with 1%nat. lia.
    + apply (f_equal length) in Ht. rewrite length_drop in Ht. unfold size in *. rewrite !length_app, length_take in *.
      change (length (lit "..")) with 2%nat in Ht. change (length (lit ".")) with 1%nat. lia.
  - cbn [at_pos]. rewrite Z.eqb_refl. cbn [negb]. rewrite collapse_id; [done|]. rewrite two_dots_index, Hi. by intros [? ?].
Qed.

(** *** Where a name leads

    The directories, from the working directory on, that a relative name goes through; [None] when it
    leaves the working directory. *)
Fixpoint resolve (dir : list str) (cs : list str) : option (list str) :=
  match cs with
  | [] => Some dir
  | c :: cs =>
      if decide (c = [] ∨ c = lit ".") then resolve dir cs
      else if decide (c = lit "..") then match dir with [] => None | _ => resolve (removelast dir) cs end
      else resolve (dir ++ [c]) cs
  end.

Lemma resolve_down cs dir : Forall (λ c, c ≠ lit "..") cs → ∃ below, resolve dir cs = Some (dir ++ below).
Proof.
  intros Hcs. revert dir. induction Hcs as [|c cs Hc Hcs IH]; intros dir; simpl.
  - exists []. by rewrite app_nil_r.
  - case_decide; [apply IH|]. rewrite decide_False by done. destruct (IH (dir ++ [c])) as [below ->].
    exists (c :: below). by rewrite <- app_assoc.
Qed.

Lemma split_infix c s p : p ∈ Text.split c s → ∃ a b, s = a ++ p ++ b.
Proof.
  assert (∀ q ps, Text.split c s = q :: ps → (∃ b, s = q ++ b) ∧ ∀ p, p ∈ ps → ∃ a b, s = a ++ p ++ b) as H.
  { induction s as [|x s IH]; intros q ps; simpl.
    - intros [= <- <-]. split; [by exists []|]. intros p' Hp'. by apply not_elem_of_nil in Hp'.
    - case_decide as Hx.
      + intros [= <- <-]. split; [by exists (x :: s)|]. intros p' Hp'. destruct (Text.split c s) as [|q' ps']; [by apply not_elem_of_nil in Hp'|].
        destruct (IH q' ps' eq_refl) as [[b Hb] Hps]. apply elem_of_cons in Hp' as [->|Hp'].
        * exists [x], b. by rewrite Hb at 1.
        * destruct (Hps _ Hp') as (a & b' & ->). by exists (x :: a), b'.
      + destruct (Text.split c s) as [|q' ps'] eqn:E.
        * intros [= <- <-]. split; [by exists s|]. intros p' Hp'. by apply not_elem_of_nil in Hp'.
        * destruct (IH q' ps' eq_refl) as [[b Hb] Hps]. intros [= <- <-]. split; [exists b; by rewrite Hb at 1|].
          intros p' Hp'. destruct (Hps _ Hp') as (a & b' & ->). by exists (x :: a), b'. }
  intros Hp. destruct (Text.split c s) as [|q ps] eqn:E; [by apply not_elem_of_nil in Hp|].
  destruct (H q ps eq_refl) as [[b Hb] Hps]. apply elem_of_cons in Hp as [->|Hp]; [by exists [], b|eauto].
Qed.

Lemma split_clean s : ¬ two_dots s → Forall (λ c, c ≠ lit "..") (Text.split "/" s).
Proof. intros Hs. apply Forall_forall. intros p Hp ->. apply Hs. apply split_infix in Hp as (a & b & ->). by exists a, b. Qed.

Lemma web_filename_clean p : size p < 2 ^ 62 → ¬ two_dots p → ¬ two_dots (web_filename p).
Proof.
  intros Hs Hp. unfold web_filename. set (f := lit "web" ++ p).
  assert (¬ two_dots f) as Hf by (unfold f; rewrite two_dots_app by (apply (bool_decide_unpack _); by vm_compute); done).
  rewrite find_char_0. destruct (index_of "." f) as [i|] eqn:Hi; cbn [at_pos].
  - rewrite (proj2 (Z.eqb_neq _ _)); [done|]. apply index_of_lt in Hi. unfold f, size, npos in *. rewrite length_app in Hi.
    change (length (lit "web")) with 3%nat in Hi. lia.
  - rewrite Z.eqb_refl. apply index_of_None in Hi. rewrite two_dots_app.
    + rewrite two_dots_index. vm_compute. by intros [? ?].
    + case_decide; [done|]. rewrite not_elem_of_app. split; [done|by apply (bool_decide_unpack _)].
Qed.

Lemma web_filename_root p : ∃ t, web_filename ("/"%char :: p) = lit "web" ++ "/"%char :: t.
Proof.
  unfold web_filename. case_match; [|by eexists]. case_decide.
  - rewrite <- app_assoc, <- app_comm_cons. by eexists.
  - rewrite <- !app_assoc, <- app_comm_cons. by eexists.
Qed.

(** C30: a request cannot leave the directory of the files.  For any path that begins with a slash,
    whatever dots and slashes follow, the loop over the path ends, and the name of the file that is
    opened, followed component by component with ".." going up, leads to a place under web/ without
    ever leaving the working directory. *)
Theorem path_stays_in_web path : size path < 2 ^ 62 → head path = Some "/"%char →
  ∃ path', squeeze (S (length path)) path = Some path' ∧
    ∃ below, resolve [] (Text.split "/" (web_filename path')) = Some (lit "web" :: below).
Proof.
  intros Hs Hh. exists (collapse path). split; [apply squeeze_collapse; lia|].
  destruct path as [|c p]; [done|]. injection Hh as ->.
  assert (collapse ("/"%char :: p) = "/"%char :: collapse p) as E by (cbn [collapse]; rewrite decide_False by naive_solver; done).
  assert (length (collapse p) <= length p)%nat as Hlen by (clear; induction p; simpl; [lia|]; case_decide; simpl; lia).
  assert (¬ two_dots (web_filename (collapse ("/"%char :: p)))) as Hc.
  { apply web_filename_clean; [|apply collapse_clean]. rewrite E. unfold size in *. simpl in *. lia. }
  rewrite E in *. destruct (web_filename_root (collapse p)) as [t Et]. rewrite Et in *.
  apply split_clean in Hc.
  assert (Text.split "/" (lit "web" ++ "/"%char :: t) = lit "web" :: Text.split "/" t) as Esp by done.
  rewrite Esp in *. apply Forall_cons in Hc as [_ Hc].
  destruct (resolve_down (Text.split "/" t) [lit "web"] Hc) as [below Hb]. exists below. exact Hb.
Qed.

Lemma path_stays_in_web_witness :
  ∃ path', squeeze 32 (lit "/../../....//etc/./passwd.d/.../") = Some path' ∧
    ∃ below, resolve [] (Text.split "/" (web_filename path')) = Some (lit "web" :: below).
Proof. apply (path_stays_in_web (lit "/../../....//etc/./passwd.d/.../")); reflexivity. Defined.

(** The first character of a path is the client's choice; without a slash the name is that of a
    sibling of web. *)
Example path_without_slash : resolve [] (Text.split "/" (web_filename (lit "-private/key.pem"))) = Some [lit "web-private"; lit "key.pem"].
Proof. by vm_compute. Qed.
End PathSpec.

(** ** The files *)
Module FileSpec.
Import Resources PathSpec HttpServeSpec.

Section Files.
Context {CS regex : Type} {redis : RedisClient CS}.
Variable strerror_errno : str.
Variable std_what : exn → str.
Variable local_time : str.
Variable open_file : str → option str.
Variable write_ok : list str → str → bool.
Hypothesis writes_succeed : ∀ ws s, write_ok ws s = true.

(** What has been written and what is still in the buffer. *)
Definition output (r : Response) : str := concat (writes r) ++ streambuf r.

Lemma put_output {E} s (r : Response) (w : CS) : failed r = false →
  ∃ r', put (E:=E) s (r, w) = (Ok tt, (r', w)) ∧ output r' = output r ++ s ∧ failed r' = false.
Proof. intros Hf. unfold put. rewrite Hf. eexists. split_and!; [reflexivity| |done]. unfold output. simpl. by rewrite app_assoc. Qed.

Lemma flush_output (r : Response) (w : CS) :
  ∃ r', flush write_ok (r, w) = (Ok tt, (r', w)) ∧ output r' = output r ∧ failed r' = failed r.
Proof using writes_succeed.
  unfold flush. rewrite writes_succeed. eexists. split_and!; [reflexivity| |done]. unfold output. simpl.
  rewrite concat_app. simpl. by rewrite !app_nil_r.
Qed.

Lemma send_chunks_output fuel bs rest r (w : CS) : 0 < bs → (length rest < fuel)%nat → failed r = false →
  ∃ r', send_chunks write_ok fuel bs rest (r, w) = (Ok tt, (r', w)) ∧ output r' = output r ++ rest.
Proof using writes_succeed.
  intros Hbs. revert rest r. induction fuel as [|fuel IH]; intros rest r Hf Hr; [lia|]. cbn [send_chunks].
  destruct rest as [|c rest].
  - rewrite take_nil. eexists. split; [reflexivity|]. by rewrite app_nil_r.
  - set (n := Z.to_nat bs). assert (1 <= n)%nat as Hn by lia. clearbody n.
    rewrite (proj2 (Z.ltb_lt _ _)) by (destruct n; [lia|]; simpl; rewrite size_cons; pose proof (size_nonneg (take n rest)); lia).
    destruct (put_output (E:=failure) (take n (c :: rest)) r w Hr) as (r1 & E1 & O1 & F1). erewrite run_Ok by exact E1.
    destruct (flush_output r1 w) as (r2 & E2 & O2 & F2). erewrite run_Ok by exact E2.
    destruct (IH (drop n (c :: rest)) r2) as (r3 & E3 & O3); [rewrite length_drop; simpl in *; lia|congruence|].
    exists r3. split; [exact E3|]. rewrite O3, O2, O1, <- app_assoc, take_drop. done.
Qed.

Lemma answer_output {E} status content (w : CS) head : head = lit "HTTP/1.1 " ++ status ++ crlf ++ lit "Content-Length: " →
  ∃ r, answer (E:=E) head content (new_response, w) = (Ok tt, (r, w)) ∧ output r = answer_bytes status content.
Proof.
  intros ->. unfold answer.
  destruct (put_output (E:=E) (lit "HTTP/1.1 " ++ status ++ crlf ++ lit "Content-Length: ") new_response w eq_refl) as (r1 & E1 & O1 & F1). erewrite run_Ok by exact E1.
  destruct (put_output (E:=E) (dec (size content)) r1 w F1) as (r2 & E2 & O2 & F2). erewrite run_Ok by exact E2.
  destruct (put_output (E:=E) (crlf ++ crlf) r2 w F2) as (r3 & E3 & O3 & F3). erewrite run_Ok by exact E3.
  destruct (put_output (E:=E) content r3 w F3) as (r4 & E4 & O4 & F4). exists r4. split; [exact E4|].
  rewrite O4, O3, O2, O1. unfold output, answer_bytes. by rewrite <- !app_assoc.
Qed.

Lemma send_file_output bs contents (w : CS) : 0 < bs →
  ∃ r, send_file write_ok bs contents (new_response, w) = (Ok tt, (r, w)) ∧ output r = answer_bytes (lit "200 OK") contents.
Proof using writes_succeed.
  intros Hbs. unfold send_file.
  destruct (put_output (E:=failure) ok_head new_response w eq_refl) as (r1 & E1 & O1 & F1). erewrite run_Ok by exact E1.
  destruct (put_output (E:=failure) (dec (size contents)) r1 w F1) as (r2 & E2 & O2 & F2). erewrite run_Ok by exact E2.
  destruct (put_output (E:=failure) (crlf ++ crlf) r2 w F2) as (r3 & E3 & O3 & F3). erewrite run_Ok by exact E3.
  assert (output r3 ++ contents = answer_bytes (lit "200 OK") contents) as Hout.
  { rewrite O3, O2, O1. unfold output, answer_bytes. rewrite <- !app_assoc. reflexivity. }
  destruct (bs <? size contents).
  - destruct (send_chunks_output (S (length contents)) bs contents r3 w Hbs ltac:(lia) F3) as (r4 & E4 & O4).
    exists r4. split; [exact E4|]. by rewrite O4.
  - unfold put_rdbuf. rewrite F3. destruct (decide (contents = [])) as [->|].
    + eexists. split; [reflexivity|]. rewrite app_nil_r in Hout. exact Hout.
    + eexists. split; [reflexivity|]. rewrite <- Hout. unfold output. cbn [writes streambuf]. by rewrite app_assoc.
Qed.

(** What a browser is to see for a path: the file, or an error that names it. *)
Definition page (path : str) : str * str :=
  let filename := web_filename (collapse path) in
  match open_file filename with
  | Some contents => (lit "200 OK", contents)
  | None => (lit "400 Bad Request", lit "Could not open file " ++ filename)
  end.

Lemma defaultindex_output request content (w : CS) : is_prefix (lit "/flowNo/") (Server.path request) = false →
  size (Server.path request) < 2 ^ 62 →
  ∃ r, defaultindex strerror_errno std_what local_time open_file write_ok request content (new_response, w) = (Ok tt, (r, w)) ∧
       output r = answer_bytes (page (Server.path request)).1 (page (Server.path request)).2.
Proof using writes_succeed.
  intros Hp Hs. unfold defaultindex. rewrite Hp, squeeze_collapse by lia. unfold page.
  destruct (open_file (web_filename (collapse (Server.path request)))) as [contents|].
  - by apply send_file_output.
  - by apply answer_output.
Qed.

(** C29: a file reaches the client.  For every path that is not under /flowNo/, when the writes
    succeed, the server of this repository with its default resource answers the GET of the client
    of this repository, and the client reads the file the path names, byte for byte and whatever its
    length, with status 200, or the message that names a file that cannot be opened with status 400;
    however the network cuts the request and the answer; and the connection goes on. *)
Theorem file_reaches_client x segs more fuel hfuel cfuel (w : CS) (regex_match : str → regex → bool) :
  let path := if decide (x_path x = []) then lit "/" else x_path x in
  x_method x = lit "GET" → is_prefix (lit "/flowNo/") path = false →
  exchange_ok x → (length (x_header x) + 2 < hfuel)%nat → concat segs = exchange_bytes x → Forall (λ s, s ≠ []) segs →
  size (concat more) < 2 ^ 62 → size path < 2 ^ 62 → size (page path).2 < 10 ^ 18 → (1 < cfuel)%nat →
  let conn := connection write_ok regex_match []
                {[lit "GET" := defaultindex strerror_errno std_what local_time open_file write_ok]} in
  ∃ ws,
    conn (S fuel) hfuel (segs ++ more) w =
      match conn fuel hfuel more w with Some (wss, e, w') => Some (ws :: wss, e, w') | None => None end ∧
    ∀ received, concat received = concat ws →
      ∃ response rest, Peer.receive cfuel received = Some (response, (page path).2, rest) ∧ concat rest = [] ∧
        Client.status_code response = (page path).1.
Proof using writes_succeed.
  intros path Hm Hp Hx Hf Hsegs Hne Hmore Hs Hpage Hcf conn.
  destruct (defaultindex_output (exchange_request x) (arrives x segs) w Hp Hs) as (r & Hrun & Hout).
  change (Server.path (exchange_request x)) with path in Hout.
  exists (writes r ++ [streambuf r]). split.
  - apply (connection_step _ _ _ _ x); try done. eexists _, r. split_and!; [|exact Hrun|apply writes_succeed|done].
    unfold Server.find_resource. cbn [Server.find_method]. rewrite Hm. apply lookup_singleton_eq.
  - intros received Hrec. rewrite concat_app in Hrec. cbn [concat] in Hrec. rewrite app_nil_r in Hrec. fold (output r) in Hrec.
    rewrite Hout in Hrec.
    assert (LF ∉ (page path).1 ∧ size (page path).1 < 2 ^ 62) as [Hlf Hsz].
    { unfold page. destruct (open_file _); split; first [by apply (bool_decide_unpack _)|by vm_compute]. }
    destruct (receive_answer cfuel (page path).1 (page path).2 received Hlf Hsz Hpage Hcf Hrec) as (s & E & Hcs).
    eexists _, s. split_and!; [exact E|done|done].
Qed.
End Files.
End FileSpec.

(** ** Flow numbers *)
Module FlowSpec.
Import Resources FileSpec HttpServeSpec.

(** What is relied on of Redis: INCR adds one to the counter of its key and GET reads it, for the
    keys that are no format of their own. *)
Record counting {CS} (redis : RedisClient CS) (good : CS → Prop) (plain : str → Prop) (counter : CS → str → Z) : Prop := {
  incr_counts : ∀ key cs, good cs → plain key →
    ∃ r cs', Command key (lit "incr " ++ key) cs = (Ok (Some r), cs') ∧ good cs' ∧
             counter cs' key = counter cs key + 1 ∧ ∀ k, k ≠ key → counter cs' k = counter cs k;
  get_reads : ∀ key cs, good cs → plain key → 1 <= counter cs key →
    ∃ cs', Command key (lit "get " ++ key) cs = (Ok (Some (REDIS_REPLY_STRING (dec_int (counter cs key)))), cs') ∧ good cs' ∧
           ∀ k, counter cs' k = counter cs k;
  free_keeps : ∀ r cs, good cs → ∃ cs', freeReply r cs = (Ok tt, cs') ∧ good cs' ∧ ∀ k, counter cs' k = counter cs k
}.

Definition flow_path (company type : str) : str := lit "/flowNo/" ++ company ++ lit "/" ++ type.
Definition key_of (company type : str) : str := lit "{" ++ company ++ lit "_" ++ type ++ lit "_" ++ lit "flow_number}:id".

Lemma split_no c s : c ∉ s → Text.split c s = [s].
Proof. induction s as [|x s IH]; simpl; [done|]. intros [Hx Hs]%not_elem_of_cons. rewrite decide_False by done. by rewrite IH. Qed.

Lemma split_app c a b : c ∉ a → Text.split c (a ++ c :: b) = a :: Text.split c b.
Proof.
  induction a as [|x a IH]; simpl; [by rewrite decide_True|]. intros [Hx Ha]%not_elem_of_cons.
  rewrite decide_False by done. by rewrite IH.
Qed.

Lemma flow_key_path company type : "/"%char ∉ company → "/"%char ∉ type → flow_key (flow_path company type) = Ok (key_of company type).
Proof.
  intros Hc Ht. unfold flow_key, flow_path. rewrite substr_app_tail by (rewrite !size_app; change (size (lit "/flowNo/")) with 8; change (size (lit "/")) with 1; lia).
  change (lit "/" ++ type) with ("/"%char :: type). rewrite split_app, split_no by done. done.
Qed.

Lemma c_str_digits s : Forall (λ c, is_digit c = true) s → c_str s = s.
Proof. induction 1 as [|c s Hc Hs IH]; simpl; [done|]. rewrite decide_False by (intros ->; done). by rewrite IH. Qed.

Section Flow.
Context {CS : Type} (redis : RedisClient CS).
Variable good : CS → Prop.
Variable plain : str → Prop.
Variable counter : CS → str → Z.
Hypothesis Hcount : counting redis good plain counter.
Variable strerror_errno : str.
Variable std_what : exn → str.
Variable local_time : str.

Abbreviation flow := (deal_with_flow_number strerror_errno std_what local_time).

Lemma flow_incr_spec key cs : good cs → plain key →
  ∃ cs', flow_incr key cs = (Ok tt, cs') ∧ good cs' ∧ counter cs' key = counter cs key + 1 ∧
         ∀ k, k ≠ key → counter cs' k = counter cs k.
Proof using Hcount.
  intros Hg Hp. destruct (incr_counts _ _ _ _ Hcount key cs Hg Hp) as (r & cs1 & E1 & Hg1 & Hk & Ho).
  destruct (free_keeps _ _ _ _ Hcount (Some r) cs1 Hg1) as (cs2 & E2 & Hg2 & Hs).
  exists cs2. unfold flow_incr. erewrite run_Ok by exact E1. split_and!; [exact E2|done|by rewrite Hs|].
  intros k Hne. by rewrite Hs, Ho.
Qed.

Lemma flow_get_spec key cs : good cs → plain key → 1 <= counter cs key < 10 ^ 18 →
  ∃ cs', flow_get key cs = (Ok (dec (counter cs key)), cs') ∧ good cs' ∧ ∀ k, counter cs' k = counter cs k.
Proof using Hcount.
  intros Hg Hp Hb. destruct (get_reads _ _ _ _ Hcount key cs Hg Hp ltac:(lia)) as (cs1 & E1 & Hg1 & Hs1).
  set (v := REDIS_REPLY_STRING (dec_int (counter cs key))) in *.
  destruct (free_keeps _ _ _ _ Hcount (Some v) cs1 Hg1) as (cs2 & E2 & Hg2 & Hs).
  exists cs2. unfold flow_get. erewrite run_Ok by exact E1. cbn [default reply_str v].
  erewrite run_Ok by exact E2. split_and!; [|done|intros k; by rewrite Hs, Hs1].
  unfold dec_int. destruct (Z.ltb_spec (counter cs key) 0); [lia|]. by rewrite c_str_digits by (apply dec_digits; lia).
Qed.

(** One request for a number. *)
Lemma flow_one company type cs : "/"%char ∉ company → "/"%char ∉ type → good cs → plain (key_of company type) →
  0 <= counter cs (key_of company type) < 10 ^ 18 - 1 →
  ∃ r cs', flow (flow_path company type) (new_response, cs) = (Ok tt, (r, cs')) ∧ good cs' ∧
    output r = answer_bytes (lit "200 OK") (flow_json local_time (dec (counter cs (key_of company type) + 1))) ∧
    counter cs' (key_of company type) = counter cs (key_of company type) + 1 ∧
    ∀ k, k ≠ key_of company type → counter cs' k = counter cs k.
Proof using Hcount.
  intros Hc Ht Hg Hp Hb. set (key := key_of company type) in *.
  destruct (flow_incr_spec key cs Hg Hp) as (cs1 & E1 & Hg1 & Hk1 & Ho1).
  destruct (flow_get_spec key cs1 Hg1 Hp ltac:(simpl; rewrite Hk1; lia)) as (cs2 & E2 & Hg2 & Hs2). rewrite Hk1 in E2.
  destruct (answer_output (E:=exn) (lit "200 OK") (flow_json local_time (dec (counter cs key + 1))) cs2 ok_head eq_refl) as (r & Er & Or).
  exists r, cs2. split_and!; [|done|exact Or|by rewrite Hs2|intros k Hne; rewrite Hs2; by apply Ho1].
  unfold deal_with_flow_number, catch. erewrite run_Ok by (rewrite flow_key_path by done; reflexivity).
  erewrite run_Ok by (unfold on_redis; fold key; rewrite E1; reflexivity).
  erewrite run_Ok by (unfold on_redis; fold key; rewrite E2; reflexivity). by rewrite Er.
Qed.

(** Requests one after the other: what each is answered. *)
Inductive flows : list (str * str) → CS → list str → CS → Prop :=
| flows_nil cs : flows [] cs [] cs
| flows_cons c t l cs r cs1 outs cs2 :
    flow (flow_path c t) (new_response, cs) = (Ok tt, (r, cs1)) → flows l cs1 outs cs2 →
    flows ((c, t) :: l) cs (output r :: outs) cs2.

(** How many of the requests are for a key. *)
Definition asked (k : str) (l : list (str * str)) : Z := Z.of_nat (length (filter (λ p, key_of p.1 p.2 = k) l)).

Lemma asked_cons k p l : asked k (p :: l) = (if decide (key_of p.1 p.2 = k) then 1 else 0) + asked k l.
Proof. unfold asked. rewrite filter_cons. case_decide; simpl; lia. Qed.
Lemma asked_nonneg k l : 0 <= asked k l.
Proof. unfold asked. lia. Qed.

(** C31: requests for numbers that come one after the other count.  Each is answered 200 with the
    number after the one the last request for the same company and type was given, whatever requests
    for other keys come between them; so no number is given twice and none is left out. *)
Theorem flow_numbers_count l cs : good cs →
  Forall (λ p, "/"%char ∉ p.1 ∧ "/"%char ∉ p.2 ∧ plain (key_of p.1 p.2) ∧ 0 <= counter cs (key_of p.1 p.2) ∧
               counter cs (key_of p.1 p.2) + Z.of_nat (length l) < 10 ^ 18) l →
  ∃ outs cs', flows l cs outs cs' ∧ good cs' ∧ (∀ k, counter cs' k = counter cs k + asked k l) ∧
    ∀ i c t, l !! i = Some (c, t) →
      outs !! i = Some (answer_bytes (lit "200 OK")
        (flow_json local_time (dec (counter cs (key_of c t) + asked (key_of c t) (take (S i) l))))).
Proof using Hcount.
  revert cs. induction l as [|[c t] l IH]; intros cs Hg Hl.
  - exists [], cs. split_and!; [constructor|done| |done]. intros k. unfold asked. simpl. lia.
  - apply Forall_cons in Hl as [(Hc & Ht & Hp & Hlo & Hhi) Hl]. cbn [fst snd length] in *.
    destruct (flow_one c t cs Hc Ht Hg Hp ltac:(lia)) as (r & cs1 & E & Hg1 & Or & Hk & Ho).
    assert (∀ k, counter cs1 k = counter cs k + if decide (key_of c t = k) then 1 else 0) as Hk1.
    { intros k. case_decide; [subst; lia|]. rewrite Ho by congruence. lia. }
    destruct (IH cs1 Hg1) as (outs & cs2 & Hf & Hg2 & Hk2 & Hout).
    { eapply Forall_impl; [exact Hl|]. intros [c' t'] (H1 & H2 & H3 & H4 & H5). cbn [fst snd] in *. split_and!; try done.
      all: rewrite Hk1; case_decide; lia. }
    exists (output r :: outs), cs2. split_and!; [by econstructor|done| |].
    + intros k. rewrite Hk2, Hk1, asked_cons. cbn [fst snd]. lia.
    + intros [|i] c' t'.
      * intros [= <- <-]. rewrite Or. cbn [take]. rewrite asked_cons. cbn [fst snd]. rewrite decide_True by done.
        unfold asked. simpl. by rewrite Z.add_0_r.
      * intros Hi. change (outs !! i = Some (answer_bytes (lit "200 OK") (flow_json local_time (dec (counter cs (key_of c' t') +
          asked (key_of c' t') (take (S (S i)) ((c, t) :: l))))))). change (l !! i = Some (c', t')) in Hi. rewrite (Hout i c' t' Hi). do 4 f_equal. rewrite firstn_cons, asked_cons, Hk1. cbn [fst snd]. lia.
Qed.

(** Requests that run at the same time may be given the same number: the counter is increased by
    one command and read by another, and when both of two requests increase it before either reads
    it, both are given the second number and nobody the first. *)
Theorem flow_numbers_race key cs : good cs → plain key → 0 <= counter cs key < 10 ^ 18 - 2 →
  ∃ cs1 cs2 cs3 cs4, flow_incr key cs = (Ok tt, cs1) ∧ flow_incr key cs1 = (Ok tt, cs2) ∧
    flow_get key cs2 = (Ok (dec (counter cs key + 2)), cs3) ∧ flow_get key cs3 = (Ok (dec (counter cs key + 2)), cs4).
Proof using Hcount.
  intros Hg Hp Hb. destruct (flow_incr_spec key cs Hg Hp) as (cs1 & E1 & Hg1 & Hk1 & _).
  destruct (flow_incr_spec key cs1 Hg1 Hp) as (cs2 & E2 & Hg2 & Hk2 & _).
  destruct (flow_get_spec key cs2 Hg2 Hp ltac:(simpl; rewrite Hk2, Hk1; lia)) as (cs3 & E3 & Hg3 & Hs3).
  destruct (flow_get_spec key cs3 Hg3 Hp ltac:(simpl; rewrite Hs3, Hk2, Hk1; lia)) as (cs4 & E4 & _ & _).
  exists cs1, cs2, cs3, cs4. replace (counter cs key + 2) with (counter cs2 key) by lia. rewrite Hs3 in E4. done.
Qed.
End Flow.

(** *** The cluster client with a Redis of one node *)
Module OneNode.
(** The world is the counters there are. *)
Definition World : Type := gmap str Z.
Definition connect (host : str) (port : Z) (w : World) : result exn (option unit) * World := (Ok (Some tt), w).
Definition err (c : unit) (w : World) : bool := false.
Definition errstr (c : unit) (w : World) : str := [].
Definition exchange (c : unit) (cmd : str) (w : World) : option (option redisReply) * World :=
  if is_prefix (lit "incr ") cmd then
    let n := default 0 (w !! drop 5 cmd) + 1 in (Some (Some (REDIS_REPLY_INTEGER n)), <[drop 5 cmd := n]> w)
  else if is_prefix (lit "get ") cmd then
    (Some (Some match w !! drop 4 cmd with Some n => REDIS_REPLY_STRING (dec_int n) | None => REDIS_REPLY_NIL end), w)
  else (Some (Some (REDIS_REPLY_ERROR (lit "ERR unknown command"))), w).
Definition command (c : unit) (cmd : str) (w : World) : option redisReply * World := (Some (REDIS_REPLY_STATUS (lit "OK")), w).
Definition callback (n : nat) (c : Cluster.t (conn:=unit)) (w : World) : Cluster.t (conn:=unit) * World := (c, w).
(** A format with a directive asks for arguments that are not there. *)
Definition format (f : str) : option str := if decide ("%"%char ∈ f) then None else Some f.

Definition CS : Type := Cluster.state (conn:=unit) (World:=World).
Definition client : RedisClient CS := ClusterClient connect err errstr exchange command callback format.
Definition good (s : CS) : Prop :=
  Cluster.readytouse_ (Cluster.cluster_ s) = true ∧
  Cluster.nodes_ (Cluster.container (Cluster.cluster_ s)) = [((0, 16383), tt)].
Definition counter (s : CS) (k : str) : Z := default 0 (Cluster.world s !! k).
Definition start : CS := Cluster.St (Cluster.Mk (Cluster.Container [((0, 16383), tt)] ∅) None true false) ∅ 0.

Lemma node_of_key key s : good s → Cluster.getConnection key s = (Ok ((0, 16383), tt), s).
Proof.
  intros [Hr Hn]. rewrite Cluster.getConnection_ready, Hn by done. pose proof (SlotByKey_bound key) as Hb.
  unfold Slots.searchBySlots. cbn [Slots.lower_bound]. unfold Slots.SlotComparator. cbn [fst].
  rewrite u32_small by lia. rewrite (proj2 (Z.ltb_lt 0 _)) by lia. cbn.
  destruct (Z.ltb_spec (SlotByKey key) 0); [lia|]. destruct (Z.ltb_spec 16383 (SlotByKey key)); [lia|]. done.
Qed.

(** A command that is answered with no error is answered once, by its node. *)
Lemma command_once key f s r w : good s → "%"%char ∉ f → exchange tt f (Cluster.world s) = (Some (Some r), w) →
  (∀ e, r ≠ REDIS_REPLY_ERROR e) →
  @Command CS client key f s = (Ok (Some r), Cluster.St (Cluster.cluster_ s) w (Cluster.live s + 1)).
Proof.
  intros Hg Hf He Hr. cbn [Command client ClusterClient]. unfold HiredisCommand_Command, format. rewrite decide_False by done.
  unfold Cluster.process. erewrite run_Ok by by apply node_of_key.
  assert (Cluster.processHiredisCommand exchange f tt s = (Ok (Some r), Cluster.St (Cluster.cluster_ s) w (Cluster.live s + 1))) as Hp.
  { unfold Cluster.processHiredisCommand. erewrite (run_Ok (Cluster.call _)) by (unfold Cluster.call; rewrite He; reflexivity). done. }
  erewrite run_Ok by exact Hp. destruct r; try done. by destruct (Hr s0).
Qed.

Lemma client_counts : counting client good (λ key, "%"%char ∉ key) counter.
Proof.
  split.
  - intros key cs Hg Hp.
    exists (REDIS_REPLY_INTEGER (counter cs key + 1)),
      (Cluster.St (Cluster.cluster_ cs) (<[key := counter cs key + 1]> (Cluster.world cs)) (Cluster.live cs + 1)). split_and!.
    + apply command_once; [done| |reflexivity|done]. apply not_elem_of_app. split; [by apply (bool_decide_unpack _)|done].
    + exact Hg.
    + change (default 0 (<[key := counter cs key + 1]> (Cluster.world cs : gmap str Z) !! key) = counter cs key + 1). by rewrite lookup_insert_eq.
    + intros k Hk. change (default 0 (<[key := counter cs key + 1]> (Cluster.world cs : gmap str Z) !! k) = counter cs k).
      by rewrite lookup_insert_ne.
  - intros key cs Hg Hp Hc. unfold counter in Hc. destruct (Cluster.world cs !! key) as [n|] eqn:E; [|simpl in Hc; lia].
    eexists. split_and!.
    + apply command_once; [done| | |done].
      * apply not_elem_of_app. split; [by apply (bool_decide_unpack _)|done].
      * unfold exchange. change (drop 4 (lit "get " ++ key)) with key. change (is_prefix (lit "incr ") (lit "get " ++ key)) with false.
        change (is_prefix (lit "get ") (lit "get " ++ key)) with true. cbn. unfold counter. by rewrite E.
    + exact Hg.
    + done.
  - intros r cs Hg. destruct r as [r|]; eexists; (split; [reflexivity|]); done.
Qed.

Lemma flow_numbers_count_witness :
  ∃ outs cs', flows client [] (λ _, []) (lit "now") [(lit "acme", lit "order"); (lit "acme", lit "bill"); (lit "acme", lit "order")] start outs cs' ∧
    outs !! 2%nat = Some (answer_bytes (lit "200 OK") (flow_json (lit "now") (lit "2"))).
Proof.
  destruct (flow_numbers_count client good _ counter client_counts [] (λ _, []) (lit "now")
    [(lit "acme", lit "order"); (lit "acme", lit "bill"); (lit "acme", lit "order")] start) as (outs & cs' & H & _ & _ & Ho).
  - by split.
  - repeat constructor; try (by apply (bool_decide_unpack _)); vm_compute; done.
  - exists outs, cs'. split; [exact H|]. exact (Ho 2%nat (lit "acme") (lit "order") eq_refl).
Defined.

Lemma flow_numbers_race_witness :
  ∃ cs1 cs2 cs3 cs4, @flow_incr CS client (lit "k") start = (Ok tt, cs1) ∧ @flow_incr CS client (lit "k") cs1 = (Ok tt, cs2) ∧
    @flow_get CS client (lit "k") cs2 = (Ok (lit "2"), cs3) ∧ @flow_get CS client (lit "k") cs3 = (Ok (lit "2"), cs4).
Proof.
  apply (flow_numbers_race client good _ counter client_counts (lit "k") start).
  - by split.
  - by apply (bool_decide_unpack _).
  - by vm_compute.
Defined.

Abbreviation run path := (@deal_with_flow_number CS client (lit "errno") (λ _, []) (lit "now") path (new_response, start)).

(** A path with only one part: the second element of a vector of one is read. *)
Example one_part : fst (run (lit "/flowNo/acme")) = Err Crash.
Proof. by vm_compute. Qed.

(** The path of a request is part of the format of a printf-like function. *)
Example format_string : fst (run (lit "/flowNo/%s/order")) = Err Crash.
Proof. by vm_compute. Qed.

(** Different companies may share a counter. *)
Example shared_counter : flow_key (lit "/flowNo/a_b/c") = flow_key (lit "/flowNo/a/b_c").
Proof. by vm_compute. Qed.
End OneNode.
End FlowSpec.

(** ** A site *)
Module Site.
Import Resources FileSpec HttpServeSpec FlowSpec.OneNode.

Definition open_file (filename : str) : option str :=
  if decide (filename = lit "web/index.html") then Some (lit "hello") else None.
Definition get (path : str) : HttpServeSpec.exchange := Exchange (lit "GET") path (lit "localhost") [] [].

Lemma file_reaches_client_witness :
  let b := exchange_bytes (get []) in
  ∃ ws, connection (λ _ _, true) (λ (_ : str) (_ : unit), false) []
          {[lit "GET" := @defaultindex CS client [] (λ _, []) [] open_file (λ _ _, true)]} 2 10 [take 9 b; drop 9 b] start =
        Some ([ws], Closed, start) ∧
    ∀ received, concat received = concat ws →
      ∃ response rest, Peer.receive 5 received = Some (response, lit "hello", rest) ∧ concat rest = [] ∧
        Client.status_code response = lit "200 OK".
Proof.
  intros b.
  destruct (@file_reaches_client CS unit client [] (λ _, []) [] open_file (λ _ _, true) (λ _ _, eq_refl)
              (get []) [take 9 b; drop 9 b] [] 1 10 5 start (λ _ _, false)) as (ws & E & H).
  - reflexivity.
  - reflexivity.
  - unfold exchange_ok. split_and!; first [exact (Forall_nil_2 _)|apply (bool_decide_unpack _); vm_compute; exact I|
      apply Z.ltb_lt; vm_compute; reflexivity].
  - simpl. lia.
  - vm_compute. reflexivity.
  - constructor; [|constructor; [|constructor]]; vm_compute; discriminate.
  - reflexivity.
  - reflexivity.
  - reflexivity.
  - lia.
  - exists ws. split; [|exact H]. rewrite app_nil_r in E. exact E.
Defined.

Lemma replace_all_ends_witness :
  TextSpec.subst (lit "..") (lit ".") 0 (lit "a...b") = lit "a..b" ∧ is_Some (Text.replace_all 6 (lit "a...b") (lit "..") (lit ".")).
Proof. split; [by vm_compute|]. apply (TextSpec.replace_all_ends (lit "..") (lit ".") (lit "a...b")); simpl; lia. Defined.
End Site.
