(* ===== verification/Pool.v ===== *)
(** * The pool of connections of a cluster shared by threads (serverResource.hpp, fastcgi/redis_cluster.hpp)

    [ThreadedPool] takes the place of [DefaultContainer] (Cluster.v) in a cluster that several
    threads use.  It keeps ten connections for each range of slots and for each endpoint it was
    redirected to; a thread takes one out for an exchange and puts it back.  One mutex guards
    everything and each pool has a condition variable for the threads that find it empty.  The same
    class is in both files.

    A pool is a location of the heap.  A step is one critical section, from where the mutex is taken
    to where it is given up, by the end of the scope or by waiting; a thread between two of them is at
    a program point [pc] of [HiredisCommand::process]. *)
From S2P Require Import Prelude CppString Cluster Block Waiters.
Import Waiters.

Module Pool.

(** What a connection was taken for: a range of slots, or an endpoint ("host:port"). *)
Inductive key := Slots (range : Z * Z) | Host (hostport : str).

(** A thread inside [process]: [Wait] and [Woken] are in [pullConnection], before and after the
    condition variable was signalled; [Hold] has a connection; [Notify] has pushed it and will notify;
    [Replied] has put its first connection back and looks at the reply. *)
Inductive pc :=
| Idle
| Wait (k : key) (p : nat) | Woken (k : key) (p : nat)
| Hold (k : key) (p : nat) (con : nat)
| Notify (k : key) (p : nat)
| Replied.

(** The queues by location, the two maps, and the threads.  [made] and [lost] are not in the program:
    the connections each pool was made with, and those that were taken and never put back. *)
(*@ serverResource.hpp 41-56 ThreadedPool *)
Record state := State {
  heap : gmap nat (list nat);
  nodes_ : list ((Z * Z) * nat);
  connections_ : gmap str nat;
  threads : list pc;
  made : gmap nat (list nat);
  lost : list (nat * nat)
}.

(*@ serverResource.hpp 43-43 poolSize_ *)
Definition poolSize_ : nat := 10.

Definition set_thread (t : nat) (x : pc) (s : state) : state :=
  State (heap s) (nodes_ s) (connections_ s) (<[t := x]> (threads s)) (made s) (lost s).
Definition set_queue (p : nat) (q : list nat) (s : state) : state :=
  State (<[p := q]> (heap s)) (nodes_ s) (connections_ s) (threads s) (made s) (lost s).
Definition lose (p con : nat) (s : state) : state :=
  State (heap s) (nodes_ s) (connections_ s) (threads s) (made s) ((p, con) :: lost s).

(** [nodes_[slots] = p]: ranges are compared by their first slot. *)
Fixpoint set_node (r : Z * Z) (p : nat) (l : list ((Z * Z) * nat)) : list ((Z * Z) * nat) :=
  match l with
  | [] => [(r, p)]
  | (r', p') :: l' =>
      if Slots.SlotComparator r r' then (r, p) :: l
      else if Slots.SlotComparator r' r then (r', p') :: set_node r p l'
      else (r', p) :: l'
  end.

Fixpoint node_of (r : Z * Z) (l : list ((Z * Z) * nat)) : option nat :=
  match l with
  | [] => None
  | (r', p) :: l => if (r'.1 =? r.1)%Z then Some p else node_of r l
  end.

(** The pool a connection goes back to. *)
Definition pool_of (k : key) (s : state) : option nat :=
  match k with Slots r => node_of r (nodes_ s) | Host h => connections_ s !! h end.

(** A new pool at [p] with the connections [cs]: [fillPool] stops at the first one that fails, and
    the pool is installed before it is filled. *)
(*@ serverResource.hpp 74-88 ThreadedPool::fillPool *)
Definition fillPool (p : nat) (cs : list nat) (s : state) : state :=
  State (<[p := cs]> (heap s)) (nodes_ s) (connections_ s) (threads s) (<[p := cs]> (made s)) (lost s).

(*@ serverResource.hpp 117-124 ThreadedPool::insert *)
Definition insert_slots (r : Z * Z) (p : nat) (cs : list nat) (s : state) : state :=
  let s := fillPool p cs s in
  State (heap s) (set_node r p (nodes_ s)) (connections_ s) (threads s) (made s) (lost s).

(*@ serverResource.hpp 127-150 ThreadedPool::insert *)
Definition install_host (h : str) (p : nat) (cs : list nat) (s : state) : state :=
  let s := fillPool p cs s in
  State (heap s) (nodes_ s) (<[h := p]> (connections_ s)) (threads s) (made s) (lost s).

(** [pullConnection] with the mutex held, on entry or after a wake-up: the thread goes on with a
    connection, or waits. *)
(*@ serverResource.hpp 91-105 ThreadedPool::pullConnection *)
Definition pullConnection (t : nat) (k : key) (p : nat) (q : list nat) (s : state) : state :=
  match q with
  | con :: q => set_thread t (Hold k p con) (set_queue p q s)
  | [] => set_thread t (Wait k p) s
  end.

(** Connections that were not there before. *)
Definition fresh (cs : list nat) (s : state) : Prop :=
  NoDup cs ∧ ∀ p m c, made s !! p = Some m → c ∈ m → c ∉ cs.

Inductive label := LTau | LThrow (t : nat) | LLost (t : nat) | LDone (t : nat).
#[export] Instance label_eq_dec : EqDecision label.
Proof. solve_decision. Defined.

(** [process] takes a connection by the key's slot, exchanges the command for a reply, and puts the
    connection back; when the reply redirects it takes another one by its endpoint.  Between taking
    the second one and putting it back it throws when the connection has an error, when the answer to
    ASKING is an error, or when the cluster is down: the connection is then lost. *)
(*@ serverResource.hpp 107-175 ThreadedPool *)
Inductive step : state → label → state → Prop :=
(* getConnection *)
| get s t index r p q :
    threads s !! t = Some Idle → Slots.searchBySlots index (nodes_ s) = Ok (r, p) → heap s !! p = Some q →
    step s LTau (pullConnection t (Slots r) p q s)
| get_throws s t index e :
    threads s !! t = Some Idle → Slots.searchBySlots index (nodes_ s) = Err e →
    step s (LThrow t) s
(* the loop of pullConnection; a wait may end without a reason *)
| woken s t k p q :
    threads s !! t = Some (Woken k p) → heap s !! p = Some q →
    step s LTau (pullConnection t k p q s)
| spurious s t k p :
    threads s !! t = Some (Wait k p) →
    step s LTau (set_thread t (Woken k p) s)
(* releaseConnection: pushConnection under the mutex, then notify_one *)
| release s t k p con p' q :
    threads s !! t = Some (Hold k p con) → pool_of k s = Some p' → heap s !! p' = Some q →
    step s LTau (set_thread t (Notify k p') (set_queue p' (q ++ [con]) s))
| notify_waiter s t k p u k' :
    threads s !! t = Some (Notify k p) → threads s !! u = Some (Wait k' p) →
    step s LTau (set_thread t (match k with Slots _ => Replied | Host _ => Idle end) (set_thread u (Woken k' p) s))
| notify_nobody s t k p :
    threads s !! t = Some (Notify k p) → (∀ u k', threads s !! u ≠ Some (Wait k' p)) →
    step s LTau (set_thread t (match k with Slots _ => Replied | Host _ => Idle end) s)
(* the reply: an answer or an exception, or a redirection *)
| ready s t :
    threads s !! t = Some Replied → step s (LDone t) (set_thread t Idle s)
| reply_throws s t :
    threads s !! t = Some Replied → step s (LThrow t) (set_thread t Idle s)
| redirect_known s t h p q :
    threads s !! t = Some Replied → connections_ s !! h = Some p → heap s !! p = Some q →
    step s LTau (pullConnection t (Host h) p q s)
| redirect_new s t h p con cs :
    threads s !! t = Some Replied → connections_ s !! h = None → heap s !! p = None → fresh (con :: cs) s →
    length (con :: cs) = poolSize_ →
    step s LTau (pullConnection t (Host h) p (con :: cs) (install_host h p (con :: cs) s))
| redirect_throws s t h p cs :
    threads s !! t = Some Replied → connections_ s !! h = None → heap s !! p = None → fresh cs s →
    length cs < poolSize_ →
    step s (LThrow t) (set_thread t Idle (install_host h p cs s))
| redirect_lost s t h p con :
    threads s !! t = Some (Hold (Host h) p con) →
    step s (LLost t) (set_thread t Idle (lose p con s)).

(** [disconnect] takes [poolSize_] connections out of every pool, waiting for them, and closes them;
    [None] when it waits for ever, because one of the queues is short and no thread will add to it. *)
Definition disconnect_pool (q : list nat) : option (list nat) :=
  if decide (length q < poolSize_) then None else Some (take poolSize_ q).

(*@ serverResource.hpp 185-208 ThreadedPool::disconnect *)
Definition disconnect (s : state) : option (list nat) :=
  (λ qs, concat qs) <$> mapM (λ p, heap s !! p ≫= disconnect_pool) ((nodes_ s).*2 ++ (map_to_list (connections_ s)).*2).

(** The cluster when it is ready: a pool for each entry of the table of slots, and [n] threads. *)
Definition empty_pool (n : nat) : state := State ∅ [] ∅ (replicate n Idle) ∅ [].
Fixpoint start (entries : list ((Z * Z) * list nat)) (p n : nat) : state :=
  match entries with
  | [] => empty_pool n
  | (r, cs) :: entries => insert_slots r p cs (start entries (S p) n)
  end.

Definition entries_ok (entries : list ((Z * Z) * list nat)) : Prop :=
  NoDup (map (λ e, e.1.1) entries) ∧ NoDup (concat (map snd entries)) ∧ Forall (λ e, length e.2 = poolSize_) entries.

Definition init (s : state) : Prop := ∃ entries n, entries_ok entries ∧ s = start entries 0 n.
End Pool.
