(* ===== verification/PoolSpec.v ===== *)
(** * The connection pool keeps its connections (properties of Pool.v) *)
From S2P Require Import Prelude CppString Cluster Block Waiters Pool.
Import Waiters Pool.

Module PoolSpec.

(** ** Lists of threads *)
Definition o2l {A} (o : option A) : list A := match o with Some a => [a] | None => [] end.

Lemma omap_insert_perm {A B} (f : A → option B) l t x y : l !! t = Some x →
  o2l (f x) ++ omap f (<[t := y]> l) ≡ₚ o2l (f y) ++ omap f l.
Proof.
  revert t. induction l as [|z l IH]; intros [|t] H; simpl in *; try done.
  - injection H as ->. destruct (f x), (f y); simpl; try done. apply perm_swap.
  - specialize (IH t H). destruct (f z) as [b|]; [|done].
    rewrite <- (Permutation_middle (o2l (f x))), <- (Permutation_middle (o2l (f y))). by constructor.
Qed.

Lemma omap_none {A B} (f : A → option B) l : (∀ x, x ∈ l → f x = None) → omap f l = [].
Proof. induction l as [|x l IH]; intros H; simpl; [done|]. rewrite (H x) by left. apply IH. intros y Hy. apply H. by right. Qed.

Definition at_pool (x : pc) : option (key * nat) :=
  match x with Wait k p | Woken k p | Hold k p _ | Notify k p => Some (k, p) | _ => None end.
Definition held_of (p : nat) (x : pc) : option nat :=
  match x with Hold _ p' c => if decide (p' = p) then Some c else None | _ => None end.
Definition held (p : nat) (ts : list pc) : list nat := omap (held_of p) ts.
Definition lost_at (p : nat) (l : list (nat * nat)) : list nat := omap (λ '(p', c), if decide (p' = p) then Some c else None) l.

Definition waits (p : nat) (x : pc) : bool := match x with Wait _ p' => bool_decide (p' = p) | _ => false end.
Definition comes (p : nat) (x : pc) : bool :=
  match x with Woken _ p' | Notify _ p' => bool_decide (p' = p) | _ => false end.

(** ** The two maps *)
Abbreviation slots_of l := (map (λ n : (Z * Z) * nat, n.1.1) l).

Lemma set_node_new r p l : r.1 ∉ slots_of l → set_node r p l ≡ₚ (r, p) :: l.
Proof.
  induction l as [|[r' p'] l IH]; simpl; [done|]. intros [Hr Hl]%not_elem_of_cons. unfold Slots.SlotComparator in *.
  destruct (Z.ltb_spec r.1 r'.1); [done|]. destruct (Z.ltb_spec r'.1 r.1); [|lia]. rewrite IH by done. apply perm_swap.
Qed.

Lemma node_of_in r p l : NoDup (slots_of l) → (r, p) ∈ l → node_of r l = Some p.
Proof.
  induction l as [|[r' p'] l IH]; simpl; [by intros ? ?%not_elem_of_nil|].
  intros [Hn Hl]%NoDup_cons [[= <- <-]|Hin]%elem_of_cons; [by rewrite Z.eqb_refl|].
  destruct (Z.eqb_spec r'.1 r.1) as [E|]; [|by apply IH]. destruct Hn. rewrite E.
  apply list_elem_of_fmap. by exists (r, p).
Qed.

Lemma node_of_elem r p l : node_of r l = Some p → ∃ r', (r', p) ∈ l.
Proof.
  induction l as [|[r' p'] l IH]; simpl; [done|]. destruct (r'.1 =? r.1)%Z; [intros [= ->]; exists r'; left|].
  intros (r2 & H)%IH. exists r2. by right.
Qed.

Lemma search_node index l r p : NoDup (slots_of l) → Slots.searchBySlots index l = Ok (r, p) → node_of r l = Some p.
Proof.
  intros Hn H. apply node_of_in; [done|]. unfold Slots.searchBySlots in H. destruct (Slots.lower_bound _ _) as [|n]; [done|].
  destruct (l !! n) as [[r' p']|] eqn:E; [|done]. case_match; [done|]. injection H as <- <-. by eapply list_elem_of_lookup_2.
Qed.

(** ** Where things are *)
Record placed (s : state) : Prop := Placed {
  nodes_nodup : NoDup (slots_of (nodes_ s));
  nodes_full : ∀ r p, node_of r (nodes_ s) = Some p → ∃ m, made s !! p = Some m ∧ length m = poolSize_;
  hosts_made : ∀ h p, connections_ s !! h = Some p → is_Some (made s !! p);
  nodes_hosts : ∀ r h p, node_of r (nodes_ s) = Some p → connections_ s !! h ≠ Some p;
  at_ok : ∀ t x k p, threads s !! t = Some x → at_pool x = Some (k, p) → pool_of k s = Some p;
  heap_made : ∀ p, is_Some (heap s !! p) ↔ is_Some (made s !! p);
  lost_host : ∀ p c, (p, c) ∈ lost s → ∃ h, connections_ s !! h = Some p
}.

Lemma placed_thread t y s : placed s → (∀ k p, at_pool y = Some (k, p) → pool_of k s = Some p) → placed (set_thread t y s).
Proof.
  intros [H1 H2 H3 H4 H5 H6 H7] Hy. split; try done. simpl. intros u x k p.
  destruct (decide (t = u)) as [<-|Hne].
  - intros Hx Hk. destruct (decide (t < length (threads s))).
    + rewrite list_lookup_insert_eq in Hx by done. injection Hx as <-. by apply Hy.
    + rewrite list_insert_ge in Hx by lia. by apply (H5 t x k p).
  - rewrite list_lookup_insert_ne by done. apply H5.
Qed.

Lemma placed_queue p q s : placed s → is_Some (heap s !! p) → placed (set_queue p q s).
Proof.
  intros [H1 H2 H3 H4 H5 H6 H7] Hp. split; try done. simpl. intros p'. rewrite <- H6.
  destruct (decide (p' = p)) as [->|]; [by rewrite lookup_insert_eq|by rewrite lookup_insert_ne].
Qed.

Lemma placed_lose p c h s : placed s → connections_ s !! h = Some p → placed (lose p c s).
Proof.
  intros [H1 H2 H3 H4 H5 H6 H7] Hp. split; try done. simpl. intros p' c' [[= -> ->]|Hin]%elem_of_cons; [eauto|by eapply H7].
Qed.

Lemma placed_pool_made k p s : placed s → pool_of k s = Some p → is_Some (made s !! p).
Proof. intros [H1 H2 H3 H4 H5 H6 H7]. destruct k; simpl; [|by apply H3]. intros H%H2. naive_solver. Qed.

Lemma placed_host h p cs s : placed s → connections_ s !! h = None → heap s !! p = None → placed (install_host h p cs s).
Proof.
  intros [H1 H2 H3 H4 H5 H6 H7] Hh Hp.
  assert (made s !! p = None) as Hm by (apply eq_None_not_Some; intros Hs%H6; by rewrite Hp in Hs; destruct Hs).
  assert (∀ p', is_Some (made s !! p') → p' ≠ p) as Hne by (intros p' Hs ->; by rewrite Hm in Hs; destruct Hs).
  assert (∀ p', is_Some (made s !! p') → <[p := cs]> (made s) !! p' = made s !! p') as Hins.
  { intros p' Hs. apply lookup_insert_ne. by apply not_eq_sym, Hne. }
  split; simpl.
  - done.
  - intros r p' Hr. destruct (H2 r p' Hr) as (m & Em & Hl). exists m. rewrite Hins; eauto.
  - intros h' p' [[-> ->]|[? Hc]]%lookup_insert_Some; [by rewrite lookup_insert_eq|]. rewrite Hins; eauto.
  - intros r h' p' Hr [[-> ->]|[? Hc]]%lookup_insert_Some; [|by apply (H4 r h' p')].
    destruct (H2 r p' Hr) as (m & Em & _). congruence.
  - intros t x k p' Hx Hk. specialize (H5 t x k p' Hx Hk). destruct k as [r|h']; simpl in *; [done|].
    rewrite lookup_insert_ne; [done|]. intros ->. congruence.
  - intros p'. destruct (decide (p' = p)) as [->|]; [rewrite !lookup_insert_eq; done|]. rewrite !lookup_insert_ne by done. apply H6.
  - intros p' c (h' & Hc)%H7. exists h'. rewrite lookup_insert_ne; [done|]. intros ->. congruence.
Qed.

Lemma placed_pull t k p q s : placed s → heap s !! p = Some (q) → pool_of k s = Some p → placed (pullConnection t k p q s).
Proof.
  intros Hs Hp Hk. unfold pullConnection. destruct q as [|c q].
  - apply placed_thread; [done|]. by intros ? ? [= <- <-].
  - apply placed_thread; [apply placed_queue; [done|by eexists]|]. by intros ? ? [= <- <-].
Qed.

Lemma placed_step s l s' : placed s → step s l s' → placed s'.
Proof.
  intros Hs Hst. destruct Hst.
  - apply placed_pull; [done..|]. eapply search_node; [apply Hs|done].
  - done.
  - apply placed_pull; [done..|]. by eapply at_ok.
  - apply placed_thread; [done|]. intros ? ? [= <- <-]. by eapply at_ok.
  - apply placed_thread; [apply placed_queue; [done|by eexists]|]. by intros ? ? [= <- <-].
  - apply placed_thread; [apply placed_thread; [done|]|by destruct k].
    intros ? ? [= <- <-]. by eapply at_ok.
  - apply placed_thread; [done|]. by destruct k.
  - by apply placed_thread.
  - by apply placed_thread.
  - by apply placed_pull.
  - apply placed_pull; [by apply placed_host|exact (lookup_insert_eq (heap s) p _)|exact (lookup_insert_eq (connections_ s) h p)].
  - apply placed_thread; [by apply placed_host|done].
  - apply placed_thread; [|done]. eapply placed_lose; [done|]. by apply (at_ok s Hs t (Hold (Host h) p con) (Host h) p).
Qed.

(** ** The connections of a pool *)
Record owned (s : state) : Prop := Owned {
  own : ∀ p q m, heap s !! p = Some q → made s !! p = Some m → q ++ held p (threads s) ++ lost_at p (lost s) ≡ₚ m;
  made_nodup : ∀ p m, made s !! p = Some m → NoDup m;
  made_disjoint : ∀ p p' m m' c, made s !! p = Some m → made s !! p' = Some m' → c ∈ m → c ∈ m' → p = p'
}.

Lemma held_thread p t x y s : threads s !! t = Some x →
  o2l (held_of p x) ++ held p (<[t := y]> (threads s)) ≡ₚ o2l (held_of p y) ++ held p (threads s).
Proof. apply omap_insert_perm. Qed.

Lemma owned_same t x y s : threads s !! t = Some x → (∀ p, held_of p x = None) → (∀ p, held_of p y = None) →
  owned s → owned (set_thread t y s).
Proof.
  intros Hx H1 H2 [Ho Hn Hd]. split; try done. simpl. intros p q m Hq Hm.
  pose proof (held_thread p t x y s Hx) as Hp. rewrite H1, H2 in Hp. simpl in Hp. rewrite Hp. by apply Ho.
Qed.

Lemma owned_pull t k p q x s : threads s !! t = Some x → (∀ p, held_of p x = None) → heap s !! p = Some q →
  owned s → owned (pullConnection t k p q s).
Proof.
  intros Hx Hh Hq Hs. unfold pullConnection. destruct q as [|c q]; [by eapply owned_same|].
  destruct Hs as [Ho Hn Hd]. split; try done. simpl. intros p' q' m Hq' Hm.
  pose proof (held_thread p' t x (Hold k p c) s Hx) as Hp. rewrite Hh in Hp. simpl in Hp. rewrite Hp. clear Hp.
  destruct (decide (p = p')) as [<-|].
  - rewrite lookup_insert_eq in Hq'. injection Hq' as <-. rewrite <- (Ho p (c :: q) m Hq Hm). simpl. symmetry. apply Permutation_middle.
  - rewrite lookup_insert_ne in Hq' by done. simpl. by apply Ho.
Qed.

Lemma owned_host h p cs s : placed s → owned s → heap s !! p = None → fresh cs s → owned (install_host h p cs s).
Proof.
  intros Hpl [Ho Hn Hd] Hp [Hnd Hfr].
  assert (made s !! p = None) as Hm0.
  { apply eq_None_not_Some. intros Hs%(heap_made s Hpl). rewrite Hp in Hs. by destruct Hs. }
  assert (held p (threads s) = [] ∧ lost_at p (lost s) = []) as [Hh Hl].
  { split; apply omap_none; intros x Hx.
    - destruct x as [| | |k p' c| |]; try done. simpl. case_decide; [|done]. subst. exfalso.
      apply list_elem_of_lookup in Hx as [t Ht]. pose proof (at_ok s Hpl t _ k p Ht eq_refl) as Hk.
      apply placed_pool_made in Hk as [m Hm]; [congruence|done].
    - destruct x as [p' c]. case_decide; [|done]. subst. exfalso. destruct (lost_host s Hpl p c Hx) as [h' Hc].
      destruct (hosts_made s Hpl h' p Hc) as [m Hm]. congruence. }
  split; simpl.
  - intros p' q m. destruct (decide (p' = p)) as [->|].
    + rewrite !lookup_insert_eq. intros [= <-] [= <-]. by rewrite Hh, Hl, app_nil_r.
    + rewrite !lookup_insert_ne by done. apply Ho.
  - intros p' m [[-> ->]|[? Hm]]%lookup_insert_Some; [done|by eapply Hn].
  - intros p1 p2 m1 m2 c [[<- <-]|[? H1]]%lookup_insert_Some [[<- <-]|[? H2]]%lookup_insert_Some Hc1 Hc2; try done.
    + by destruct (Hfr p2 m2 c H2 Hc2).
    + by destruct (Hfr p1 m1 c H1 Hc1).
    + by eapply Hd.
Qed.

Lemma threads_host h p cs s : threads (install_host h p cs s) = threads s.
Proof. done. Qed.

Lemma owned_release t k p p' c q s : threads s !! t = Some (Hold k p c) → p' = p → heap s !! p = Some q →
  owned s → owned (set_thread t (Notify k p') (set_queue p' (q ++ [c]) s)).
Proof.
  intros Hx -> Hq [Ho Hn Hd]. split; try done. simpl. intros p1 q1 m Hq1 Hm.
  pose proof (held_thread p1 t _ (Notify k p) s Hx) as Hp. simpl in Hp. destruct (decide (p = p1)) as [<-|].
  - rewrite lookup_insert_eq in Hq1. injection Hq1 as <-. rewrite <- (Ho p q m Hq Hm), <- Hp, <- !app_assoc. done.
  - rewrite lookup_insert_ne in Hq1 by done. simpl in Hp. rewrite Hp. by apply Ho.
Qed.

Lemma owned_lose t h p c s : threads s !! t = Some (Hold (Host h) p c) → owned s → owned (set_thread t Idle (lose p c s)).
Proof.
  intros Hx [Ho Hn Hd]. split; try done. simpl. intros p1 q m Hq Hm.
  pose proof (held_thread p1 t _ Idle s Hx) as Hp. simpl in Hp. rewrite <- (Ho p1 q m Hq Hm). destruct (decide (p = p1)) as [<-|].
  - rewrite <- Hp. simpl. apply Permutation_app_head. symmetry. apply Permutation_middle.
  - simpl in Hp. by rewrite Hp.
Qed.

Lemma notify_other s t u k p k' : threads s !! t = Some (Notify k p) → threads s !! u = Some (Wait k' p) →
  <[u := Woken k' p]> (threads s) !! t = Some (Notify k p).
Proof. intros Ht Hu. rewrite list_lookup_insert_ne; [done|]. intros ->. congruence. Qed.

Lemma owned_step s l s' : placed s → owned s → step s l s' → owned s'.
Proof.
  intros Hpl Hs Hst. destruct Hst.
  - by eapply owned_pull.
  - done.
  - by eapply owned_pull.
  - by eapply owned_same.
  - assert (p' = p) as E by (pose proof (at_ok s Hpl t _ k p H eq_refl); congruence). subst p'. by eapply owned_release.
  - eapply (owned_same t (Notify k p)); [by apply notify_other|done|by destruct k|]. by eapply owned_same.
  - eapply owned_same; [done|done|by destruct k|done].
  - by eapply owned_same.
  - by eapply owned_same.
  - by eapply owned_pull.
  - eapply owned_pull; [done|done|exact (lookup_insert_eq (heap s) p _)|]. by apply owned_host.
  - eapply owned_same; [done|done|done|]. by apply owned_host.
  - by eapply owned_lose.
Qed.

(** ** Signals *)
Definition signalled (s : state) : Prop :=
  ∀ p q, heap s !! p = Some q → 0 < count (waits p) (threads s) → length q ≤ count (comes p) (threads s).

Ltac counts t x y p s Hx :=
  pose proof (count_insert (waits p) (threads s) t x y Hx); pose proof (count_insert (comes p) (threads s) t x y Hx).

Lemma signalled_pull t k p q x s : threads s !! t = Some x → (∀ p, waits p x = false) →
  (∀ p', comes p' x = true → p' = p) → heap s !! p = Some q → signalled s → signalled (pullConnection t k p q s).
Proof.
  intros Hx Hw Hc Hq Hs p' q' Hq' Hpos. unfold pullConnection in *.
  assert (∀ y, count (waits p') (<[t := y]> (threads s)) + b2n (waits p' x) = count (waits p') (threads s) + b2n (waits p' y)) as W
    by (intros y; by apply count_insert).
  assert (∀ y, count (comes p') (<[t := y]> (threads s)) + b2n (comes p' x) = count (comes p') (threads s) + b2n (comes p' y)) as C
    by (intros y; by apply count_insert).
  destruct q as [|c q]; simpl in *.
  - specialize (W (Wait k p)). specialize (C (Wait k p)). rewrite Hw in W. simpl in W, C.
    destruct (decide (p' = p)) as [->|Hne].
    + rewrite Hq in Hq'. injection Hq' as <-. simpl. lia.
    + rewrite bool_decide_false in W by done. assert (comes p' x = false) as E.
      { apply not_true_is_false. intros E%Hc. done. }
      rewrite E in C. simpl in *. specialize (Hs p' q' Hq'). lia.
  - specialize (W (Hold k p c)). specialize (C (Hold k p c)). rewrite Hw in W. simpl in W, C.
    destruct (decide (p' = p)) as [->|Hne].
    + rewrite lookup_insert_eq in Hq'. injection Hq' as <-. specialize (Hs p (c :: q) Hq). simpl in Hs.
      unfold b2n in C. destruct (comes p x); lia.
    + rewrite lookup_insert_ne in Hq' by done. assert (comes p' x = false) as E.
      { apply not_true_is_false. intros E%Hc. done. }
      rewrite E in C. simpl in *. specialize (Hs p' q' Hq'). lia.
Qed.

Lemma signalled_same t x y s : threads s !! t = Some x →
  (∀ p, b2n (waits p y) ≤ b2n (waits p x)) → (∀ p, b2n (comes p x) ≤ b2n (comes p y)) → signalled s → signalled (set_thread t y s).
Proof.
  intros Hx Hw Hc Hs p q Hq Hpos. simpl in *. counts t x y p s Hx. specialize (Hs p q Hq). specialize (Hw p). specialize (Hc p). lia.
Qed.

Lemma signalled_host h p cs s : placed s → heap s !! p = None → signalled s → signalled (install_host h p cs s).
Proof.
  intros Hpl Hp Hs p' q. simpl. destruct (decide (p' = p)) as [->|].
  - intros _ Hpos. exfalso. assert (count (waits p) (threads s) = 0) as E; [|lia]. apply count_zero. intros x Hx.
    destruct x as [|k p'| | | |]; try done. simpl. apply bool_decide_eq_false. intros ->.
    apply list_elem_of_lookup in Hx as [t Ht]. pose proof (at_ok s Hpl t _ k p Ht eq_refl) as Hk.
    apply placed_pool_made in Hk as Hm; [|done]. apply (heap_made s Hpl) in Hm as [q' Hq']. congruence.
  - rewrite lookup_insert_ne by done. apply Hs.
Qed.

Lemma signalled_step s l s' : placed s → signalled s → step s l s' → signalled s'.
Proof.
  intros Hpl Hs Hst. destruct Hst.
  - by eapply signalled_pull.
  - done.
  - eapply signalled_pull; try done. simpl. intros p' ?%bool_decide_eq_true. done.
  - eapply signalled_same; try done; intros p'; simpl; lia.
  - assert (p' = p) as E by (pose proof (at_ok s Hpl t _ k p H eq_refl); congruence). subst p'.
    intros p1 q1 Hq1 Hpos. simpl in *. counts t (Hold k p con) (Notify k p) p1 s H. simpl in *. destruct (decide (p1 = p)) as [->|].
    + rewrite lookup_insert_eq in Hq1. injection Hq1 as <-. rewrite length_app. simpl. specialize (Hs p q H1).
      rewrite bool_decide_true in * by done. simpl in *. lia.
    + rewrite lookup_insert_ne in Hq1 by done. specialize (Hs p1 q1 Hq1). lia.
  - intros p1 q1 Hq1 Hpos. simpl in *. specialize (Hs p1 q1 Hq1). counts u (Wait k' p) (Woken k' p) p1 s H0.
    set (y := match k with Slots _ => Replied | Host _ => Idle end) in *.
    pose proof (count_insert (waits p1) _ t _ y (notify_other _ _ _ _ _ _ H H0)) as W.
    pose proof (count_insert (comes p1) _ t _ y (notify_other _ _ _ _ _ _ H H0)) as C.
    assert (waits p1 y = false ∧ comes p1 y = false) as [Ey1 Ey2] by by destruct k.
    rewrite Ey1 in W. rewrite Ey2 in C. simpl in *. unfold b2n in *. destruct (bool_decide (p = p1)); lia.
  - intros p1 q1 Hq1 Hpos. simpl in *. specialize (Hs p1 q1 Hq1).
    set (y := match k with Slots _ => Replied | Host _ => Idle end) in *. counts t (Notify k p) y p1 s H.
    assert (waits p1 y = false ∧ comes p1 y = false) as [Ey1 Ey2] by by destruct k. rewrite Ey1, Ey2 in *. simpl in *.
    destruct (decide (p = p1)) as [->|]; [|rewrite bool_decide_false in * by done; simpl in *; lia].
    exfalso. assert (count (waits p1) (threads s) = 0) as E; [|lia]. apply count_zero. intros x Hx.
    destruct x as [|k0 p0| | | |]; try done. simpl. apply bool_decide_eq_false. intros ->.
    apply list_elem_of_lookup in Hx as [u Hu]. by apply (H0 u k0).
  - eapply signalled_same; try done; intros p'; simpl; lia.
  - eapply signalled_same; try done; intros p'; simpl; lia.
  - by eapply signalled_pull.
  - eapply signalled_pull; [done|done|done|exact (lookup_insert_eq (heap s) p _)|]. by apply signalled_host.
  - eapply signalled_same; [done|intros p'; simpl; lia..|]. by apply signalled_host.
  - eapply signalled_same; [done|intros p'; simpl; lia..|]. exact Hs.
Qed.
(** ** The start *)
Lemma elem_of_conns entries i (e : (Z * Z) * list nat) c : entries !! i = Some e → c ∈ e.2 → c ∈ concat (map snd entries).
Proof.
  revert i. induction entries as [|e0 entries IH]; intros [|i] He Hc; simpl in *; try done; apply elem_of_app.
  - injection He as ->. by left.
  - right. by apply (IH i).
Qed.

Lemma start_made entries p n p' : made (start entries p n) !! p' = if decide (p ≤ p') then snd <$> entries !! (p' - p) else None.
Proof.
  revert p. induction entries as [|[r cs] entries IH]; intros p; simpl.
  - rewrite lookup_empty. by case_decide.
  - destruct (decide (p' = p)) as [->|].
    + rewrite lookup_insert_eq, decide_True, Nat.sub_diag by lia. done.
    + rewrite lookup_insert_ne by done. rewrite IH. case_decide.
      * rewrite decide_True by lia. by replace (p' - p) with (S (p' - S p)) by lia.
      * destruct (decide (p ≤ p')); [lia|done].
Qed.

Lemma start_heap entries p n : heap (start entries p n) = made (start entries p n).
Proof. revert p. induction entries as [|[r cs] entries IH]; intros p; simpl; [done|]. by rewrite IH. Qed.

Lemma start_rest entries p n : threads (start entries p n) = replicate n Idle ∧ connections_ (start entries p n) = ∅ ∧ lost (start entries p n) = [].
Proof. revert p. induction entries as [|[r cs] entries IH]; intros p; simpl; [done|]. apply IH. Qed.

Lemma start_nodes entries p n : NoDup (map (λ e, e.1.1) entries) →
  nodes_ (start entries p n) ≡ₚ zip (map fst entries) (seq p (length entries)).
Proof.
  revert p. induction entries as [|[r cs] entries IH]; intros p; simpl; [done|]. intros [Hr Hn]%NoDup_cons.
  rewrite set_node_new; [by rewrite IH|]. rewrite (IH (S p) Hn). intros ([r' p'] & E & Hin)%list_elem_of_fmap.
  apply elem_of_zip_l in Hin. apply Hr. simpl in E. apply list_elem_of_fmap in Hin as (e & -> & He).
  apply list_elem_of_fmap. exists e. by rewrite E.
Qed.

Lemma start_ok entries n : entries_ok entries → placed (start entries 0 n) ∧ owned (start entries 0 n) ∧ signalled (start entries 0 n).
Proof.
  intros (Hn & Hc & Hl). destruct (start_rest entries 0 n) as (Ht & Hh & Hlo). pose proof (start_nodes entries 0 n Hn) as Hno.
  assert (∀ p m, made (start entries 0 n) !! p = Some m → ∃ e, entries !! p = Some e ∧ m = e.2) as Hm.
  { intros p m. rewrite start_made, decide_True, Nat.sub_0_r by lia. destruct (entries !! p) as [e|]; [|done]. intros [= <-]. by exists e. }
  assert (∀ x, x ∈ replicate n Idle → x = Idle) as Hidle by (intros x ?%elem_of_replicate; naive_solver).
  split_and!; [split|split|].
  - rewrite Hno. replace (map _ _) with (map (λ e, e.1.1) entries); [done|].
    generalize 0. clear. induction entries as [|[r cs] entries IH]; intros p; simpl; [done|]. by rewrite <- IH.
  - intros r p (r' & Hin)%node_of_elem. rewrite Hno in Hin. apply list_elem_of_lookup in Hin as [i Hi].
    apply lookup_zip_with_Some in Hi as (r1 & p1 & [= -> ->] & H1 & H2). apply lookup_seq in H2 as [-> Hi].
    destruct (lookup_lt_is_Some_2 entries i Hi) as [e He]. exists e.2. rewrite start_made, decide_True by lia. simpl.
    rewrite Nat.sub_0_r, He. split; [done|]. rewrite Forall_forall in Hl. apply (Hl e). by eapply list_elem_of_lookup_2.
  - intros h p. by rewrite Hh, lookup_empty.
  - intros r h p _. by rewrite Hh, lookup_empty.
  - intros t x k p. rewrite Ht. intros Hx%list_elem_of_lookup_2%Hidle. by subst.
  - intros p. by rewrite start_heap.
  - intros p c. rewrite Hlo. by intros ?%not_elem_of_nil.
  - intros p q m. rewrite start_heap, Ht, Hlo. intros -> [= ->]. simpl. rewrite app_nil_r. unfold held. rewrite omap_none; [by rewrite app_nil_r|].
    intros x Hx%Hidle. by subst.
  - intros p m (e & He & ->)%Hm. clear -He Hc. revert p He. induction entries as [|e' entries IH]; intros [|p] He; simpl in *; try done.
    + injection He as ->. by apply NoDup_app in Hc as (? & _).
    + apply NoDup_app in Hc as (_ & _ & Hc). by apply (IH Hc p).
  - intros p p' m m' c (e & He & ->)%Hm (e' & He' & ->)%Hm Hc1 Hc2. clear -Hc He He' Hc1 Hc2.
    revert p p' He He'. induction entries as [|e0 entries IH]; intros [|p] [|p'] He He'; simpl in *; try done.
    + injection He as ->. apply NoDup_app in Hc as (_ & Hd & _). destruct (Hd c Hc1). by eapply elem_of_conns.
    + injection He' as ->. apply NoDup_app in Hc as (_ & Hd & _). destruct (Hd c Hc2). by eapply elem_of_conns.
    + f_equal. apply NoDup_app in Hc as (_ & _ & Hc). by apply IH.
  - intros p q Hq. rewrite Ht. rewrite count_zero; [lia|]. intros x Hx%Hidle. by subst.
Qed.

Lemma reachable_ok s : reachable init step s → placed s ∧ owned s ∧ signalled s.
Proof.
  intros Hr. apply (invariant_reachable init step (λ s, placed s ∧ owned s ∧ signalled s)); [| |done].
  - intros s0 (entries & n & He & ->). by apply start_ok.
  - intros s0 l s1 (H1 & H2 & H3) Hst. split_and!; [by eapply placed_step|by eapply owned_step|by eapply signalled_step].
Qed.

Lemma held_in t k p c s : threads s !! t = Some (Hold k p c) → c ∈ held p (threads s).
Proof. intros Ht. apply list_elem_of_omap. exists (Hold k p c). split; [by eapply list_elem_of_lookup_2|]. simpl. by rewrite decide_True. Qed.

Lemma held_twice p c t u k k' ts : t ≠ u → ts !! t = Some (Hold k p c) → ts !! u = Some (Hold k' p c) → ¬ NoDup (held p ts).
Proof.
  intros Hne Ht Hu Hn. pose proof (omap_insert_perm (held_of p) ts t _ Idle Ht) as H1. simpl in H1. rewrite decide_True in H1 by done.
  simpl in H1. unfold held in Hn. rewrite <- H1 in Hn. apply NoDup_cons in Hn as [Hn _]. apply Hn.
  apply list_elem_of_omap. exists (Hold k' p c). split; [|simpl; by rewrite decide_True].
  apply list_elem_of_lookup. exists u. by rewrite list_lookup_insert_ne.
Qed.

(** C34: the pool gives every connection to one thread at a time and keeps all those of the slots.  In
    every state that the threads can reach, in any interleaving, with any redirections, failures to
    connect and exceptions: two threads never hold the same connection; a connection that a thread
    holds is not in a queue; and the queue of a range of slots together with what threads hold of it
    are the ten connections it was made with. *)
Theorem Pool_exclusive s : reachable init step s →
  (∀ t u k k' p p' con, threads s !! t = Some (Hold k p con) → threads s !! u = Some (Hold k' p' con) → t = u) ∧
  (∀ t k p con p' q, threads s !! t = Some (Hold k p con) → heap s !! p' = Some q → con ∉ q) ∧
  (∀ r p, node_of r (nodes_ s) = Some p →
    ∃ q m, heap s !! p = Some q ∧ made s !! p = Some m ∧ length m = poolSize_ ∧ q ++ held p (threads s) ≡ₚ m).
Proof.
  intros Hr. destruct (reachable_ok s Hr) as (Hpl & [Ho Hn Hd] & _).
  assert (∀ t k p con, threads s !! t = Some (Hold k p con) →
            ∃ q m, heap s !! p = Some q ∧ made s !! p = Some m ∧ con ∈ m ∧ q ++ held p (threads s) ++ lost_at p (lost s) ≡ₚ m) as Hin.
  { intros t k p con Ht. pose proof (at_ok s Hpl t _ k p Ht eq_refl) as Hk. apply placed_pool_made in Hk as [m Hm]; [|done].
    destruct (proj2 (heap_made s Hpl p) ltac:(by eexists)) as [q Hq]. exists q, m. pose proof (Ho p q m Hq Hm) as Hp.
    split_and!; try done. rewrite <- Hp, !elem_of_app. right. left. by eapply held_in. }
  split_and!.
  - intros t u k k' p p' con Ht Hu. destruct (Hin _ _ _ _ Ht) as (q & m & _ & Hm & Hc & Hp), (Hin _ _ _ _ Hu) as (q' & m' & _ & Hm' & Hc' & _).
    assert (p = p') as <- by by eapply Hd. destruct (decide (t = u)) as [|Hne]; [done|exfalso].
    apply (held_twice p con t u k k' (threads s) Hne Ht Hu). pose proof (Hn p m Hm) as Hnd. rewrite <- Hp in Hnd.
    apply NoDup_app in Hnd as (_ & _ & Hnd). by apply NoDup_app in Hnd as (? & _).
  - intros t k p con p' q' Ht Hq' Hc. destruct (Hin _ _ _ _ Ht) as (q & m & Hq & Hm & Hcm & Hp).
    destruct (proj1 (heap_made s Hpl p') ltac:(by eexists)) as [m' Hm'].
    assert (con ∈ m') as Hcm' by (rewrite <- (Ho p' q' m' Hq' Hm'), !elem_of_app; by left).
    assert (p = p') as <- by by eapply Hd. rewrite Hq in Hq'. injection Hq' as <-.
    pose proof (Hn p m Hm) as Hnd. rewrite <- Hp in Hnd. apply NoDup_app in Hnd as (_ & Hnd & _).
    apply (Hnd con Hc). apply elem_of_app. left. by eapply held_in.
  - intros r p Hp. destruct (nodes_full s Hpl r p Hp) as (m & Hm & Hl).
    destruct (proj2 (heap_made s Hpl p) ltac:(by eexists)) as [q Hq]. exists q, m. split_and!; try done.
    rewrite <- (Ho p q m Hq Hm). assert (lost_at p (lost s) = []) as ->; [|by rewrite app_nil_r].
    apply omap_none. intros [p' c] Hc. case_decide; [|done]. subst. destruct (lost_host s Hpl p c Hc) as [h Hh].
    by destruct (nodes_hosts s Hpl r h p Hp).
Qed.

Lemma count_0_no {A} (f : A → bool) l : count f l = 0 → ∀ x, x ∈ l → f x = false.
Proof. intros H x Hx. apply not_true_is_false. intros Hf. pose proof (count_pos f l x Hx Hf). lia. Qed.

Lemma count_pos_elem {A} (f : A → bool) l : 0 < count f l → ∃ i x, l !! i = Some x ∧ f x = true.
Proof.
  induction l as [|x l IH]; simpl; [lia|]. destruct (f x) eqn:E; [intros _; by exists 0, x|].
  intros (i & y & Hi & Hy)%IH. by exists (S i), y.
Qed.

(** C35: no wake-up is lost.  When a thread waits for a connection of a pool, in any reachable state,
    then another thread has been woken up for that pool or is about to notify it, or another thread
    holds one of its connections and can put it back, or every connection of the pool has been lost;
    for the pool of a range of slots the last is impossible, so there is always a thread that can go
    on. *)
Theorem Pool_no_lost_wakeup s t k p : reachable init step s → threads s !! t = Some (Wait k p) →
  (∃ u x, threads s !! u = Some x ∧ comes p x = true ∧ ∃ l s', step s l s') ∨
  (∃ u k' con, threads s !! u = Some (Hold k' p con) ∧ ∃ l s', step s l s') ∨
  (∃ h m, k = Host h ∧ made s !! p = Some m ∧ lost_at p (lost s) ≡ₚ m).
Proof.
  intros Hr Ht. destruct (reachable_ok s Hr) as (Hpl & [Ho Hn Hd] & Hsig).
  pose proof (at_ok s Hpl t _ k p Ht eq_refl) as Hk. pose proof Hk as Hk'. apply placed_pool_made in Hk' as [m Hm]; [|done].
  destruct (proj2 (heap_made s Hpl p) ltac:(by eexists)) as [q Hq].
  pose proof (Ho p q m Hq Hm) as Hp.
  assert (0 < count (waits p) (threads s)) as Hw.
  { apply (count_pos (waits p) _ (Wait k p)); [by eapply list_elem_of_lookup_2|]. simpl. by apply bool_decide_eq_true. }
  specialize (Hsig p q Hq Hw).
  destruct (decide (0 < count (comes p) (threads s))) as [Hc|Hc].
  { left. apply count_pos_elem in Hc as (u & x & Hu & Hx). exists u, x. split_and!; [done|done|].
    destruct x as [| |k' p'| |k' p'|]; try done; simpl in Hx; apply bool_decide_eq_true in Hx as ->.
    - eexists _, _. by apply woken.
    - eexists _, _. eapply notify_waiter; [exact Hu|exact Ht]. }
  destruct q as [|c q]; [|simpl in Hsig; lia]. simpl in Hp. right.
  destruct (held p (threads s)) as [|c l] eqn:Eh.
  - right. simpl in Hp. destruct k as [r|h]; [|by exists h, m]. exfalso.
    destruct (nodes_full s Hpl r p Hk) as (m' & Hm' & Hl).
    assert (lost_at p (lost s) = []) as El.
    { apply omap_none. intros [p' c] Hc'. case_decide; [|done]. subst. destruct (lost_host s Hpl p c Hc') as [h Hh].
      by destruct (nodes_hosts s Hpl r h p Hk). }
    rewrite El in Hp. apply Permutation_nil in Hp. assert (m' = m) by congruence. subst. simpl in Hl. unfold poolSize_ in Hl. lia.
  - left. assert (c ∈ held p (threads s)) as Hin by (rewrite Eh; left). apply list_elem_of_omap in Hin as (x & Hx & Hc').
    apply list_elem_of_lookup in Hx as [u Hu]. destruct x as [| | |k' p' c'| |]; try done. simpl in Hc'. case_decide; [|done]. subst.
    injection Hc' as ->. pose proof (at_ok s Hpl u _ k' p Hu eq_refl) as Hk2.
    exists u, k', c. split; [done|]. eexists _, _. by eapply release.
Qed.

(** ** How the pool of an endpoint is drained *)
Definition drained (p : nat) (s : state) : Prop := heap s !! p = Some [] ∧ ∀ u k con, threads s !! u ≠ Some (Hold k p con).

Lemma drained_set_thread p t y s : (∀ k con, y ≠ Hold k p con) → drained p s → drained p (set_thread t y s).
Proof.
  intros Hy [Hq Hh]. split; [done|]. simpl. intros u k con Hu. destruct (decide (t = u)) as [<-|Hne].
  - destruct (decide (t < length (threads s))).
    + rewrite list_lookup_insert_eq in Hu by done. injection Hu as ->. by apply (Hy k con).
    + rewrite list_insert_ge in Hu by lia. by apply (Hh t k con).
  - rewrite list_lookup_insert_ne in Hu by done. by apply (Hh u k con).
Qed.

Lemma drained_set_queue p p' q s : p' ≠ p → drained p s → drained p (set_queue p' q s).
Proof. intros Hne [Hq Hh]. split; [|done]. simpl. by rewrite lookup_insert_ne. Qed.

Lemma drained_pull p t k p' q s : heap s !! p' = Some q → drained p s → drained p (pullConnection t k p' q s).
Proof.
  intros Hq Hd. pose proof Hd as [Hp _]. unfold pullConnection. destruct q as [|c q]; [by apply drained_set_thread|].
  assert (p' ≠ p) as Hne by congruence. apply drained_set_thread; [intros ? ? [= _ E _]; congruence|by apply drained_set_queue].
Qed.

Lemma drained_host p h p' cs s : heap s !! p' = None → drained p s → drained p (install_host h p' cs s).
Proof. intros Hp' [Hq Hh]. split; [|done]. simpl. rewrite lookup_insert_ne; [done|]. congruence. Qed.

Lemma drained_step p s l s' : placed s → drained p s → step s l s' → drained p s'.
Proof.
  intros Hpl Hd Hst. pose proof Hd as [Hq Hh]. destruct Hst.
  - by apply drained_pull.
  - done.
  - by apply drained_pull.
  - by apply drained_set_thread.
  - assert (p' = p0) as E by (pose proof (at_ok s Hpl t _ k p0 H eq_refl); congruence). subst p0.
    assert (p' ≠ p) as Hne by (intros ->; by apply (Hh t k con)). apply drained_set_thread; [done|by apply drained_set_queue].
  - apply drained_set_thread; [by destruct k|by apply drained_set_thread].
  - apply drained_set_thread; [by destruct k|done].
  - by apply drained_set_thread.
  - by apply drained_set_thread.
  - by apply drained_pull.
  - apply drained_pull; [exact (lookup_insert_eq (heap s) p0 _)|by apply drained_host].
  - apply drained_set_thread; [done|by apply drained_host].
  - by apply drained_set_thread.
Qed.

Lemma drained_run p s ls s' : placed s → drained p s → run step s ls s' → drained p s'.
Proof. intros Hpl Hd Hr. revert Hpl Hd. induction Hr; [done|]. intros Hpl Hd. eauto using placed_step, drained_step. Qed.

(** One request of thread [t] that is redirected to [h] and fails there, nobody waiting. *)
Lemma failed_redirect s t index r ps c0 q0 h p c q :
  threads s !! t = Some Idle → (∀ u k p, threads s !! u ≠ Some (Wait k p)) →
  Slots.searchBySlots index (nodes_ s) = Ok (r, ps) → node_of r (nodes_ s) = Some ps → heap s !! ps = Some (c0 :: q0) →
  connections_ s !! h = Some p → p ≠ ps → heap s !! p = Some (c :: q) →
  ∃ ls s', run step s ls s' ∧ heap s' = <[p := q]> (<[ps := q0 ++ [c0]]> (heap s)) ∧ nodes_ s' = nodes_ s ∧
    connections_ s' = connections_ s ∧ threads s' = threads s ∧ count (λ l, bool_decide (l = LLost t)) ls = 1.
Proof.
  intros Ht Hnw Hsearch Hnode Hps Hh Hne Hp.
  assert (t < length (threads s)) as Hlt by by eapply lookup_lt_Some.
  assert (∀ x, <[t := x]> (threads s) !! t = Some x) as Hself by (intros x; by apply list_lookup_insert_eq).
  assert (∀ x y, <[t := y]> (<[t := x]> (threads s)) = <[t := y]> (threads s)) as Htwice by (intros; apply list_insert_insert_eq).
  eexists _, _. split; [|split; [|split; [|split; [|split]]]].
  - eapply run_cons; [by eapply get|]. cbn [pullConnection].
    eapply run_cons; [eapply release; [apply Hself|exact Hnode|exact (lookup_insert_eq (heap s) ps q0)]|].
    eapply run_cons.
    { eapply notify_nobody; [simpl; rewrite Htwice; apply Hself|]. simpl. intros u k'. rewrite Htwice.
      destruct (decide (u = t)) as [->|]; [by rewrite Hself|]. rewrite list_lookup_insert_ne by done. apply Hnw. }
    eapply run_cons.
    { eapply (redirect_known _ t h p (c :: q)); [simpl; rewrite !Htwice; apply Hself|exact Hh|].
      simpl. by rewrite !lookup_insert_ne. }
    cbn [pullConnection]. eapply run_cons; [eapply redirect_lost; simpl; rewrite !Htwice; apply Hself|]. apply run_nil.
  - simpl. by rewrite insert_insert_eq.
  - done.
  - done.
  - simpl. rewrite !Htwice. by apply list_insert_id.
  - simpl. by rewrite bool_decide_true.
Qed.

(** Failed redirections drain the pool of an endpoint for good.  [process] does not put back a
    connection to a redirection's endpoint when an exception leaves it.  From any reachable state in
    which nobody waits, a thread whose requests are redirected to an endpoint with [n] connections
    left in its pool and fail there can make as many requests as that; after them, whatever any
    thread does, the pool stays empty and no thread ever holds one of its connections again: every
    request that is redirected there waits without end. *)
Theorem Pool_drains s t index r ps c0 q0 h p q :
  reachable init step s → threads s !! t = Some Idle → (∀ u k p, threads s !! u ≠ Some (Wait k p)) →
  (∀ u k con, threads s !! u ≠ Some (Hold k p con)) →
  Slots.searchBySlots index (nodes_ s) = Ok (r, ps) → heap s !! ps = Some (c0 :: q0) →
  connections_ s !! h = Some p → heap s !! p = Some q →
  ∃ ls s1, run step s ls s1 ∧ threads s1 = threads s ∧ connections_ s1 !! h = Some p ∧
    count (λ l, bool_decide (l = LLost t)) ls = length q ∧
    ∀ ls' s2, run step s1 ls' s2 → heap s2 !! p = Some [] ∧ ∀ u k con, threads s2 !! u ≠ Some (Hold k p con).
Proof.
  intros Hr Ht Hnw Hnh Hsearch Hps Hh Hp. destruct (reachable_ok s Hr) as (Hpl & _).
  pose proof (search_node index (nodes_ s) r ps (nodes_nodup s Hpl) Hsearch) as Hnode.
  assert (p ≠ ps) as Hne by (intros ->; by destruct (nodes_hosts s Hpl r h ps Hnode)).
  assert (∃ ls s1, run step s ls s1 ∧ heap s1 !! p = Some [] ∧ nodes_ s1 = nodes_ s ∧ connections_ s1 = connections_ s ∧
            threads s1 = threads s ∧ count (λ l, bool_decide (l = LLost t)) ls = length q) as (ls & s1 & Hrun & Hp1 & _ & Hc1 & Ht1 & Hcount).
  { clear Hr Hpl. revert s c0 q0 Ht Hnw Hnh Hsearch Hps Hh Hp Hnode. induction q as [|c q IH]; intros s c0 q0 Ht Hnw Hnh Hsearch Hps Hh Hp Hnode.
    - exists [], s. split_and!; try done. apply run_nil.
    - destruct (failed_redirect s t index r ps c0 q0 h p c q) as (ls & s1 & Hrun & Hheap & Hn1 & Hc1 & Ht1 & Hcount); [done..|].
      assert (∃ c1 q1, q0 ++ [c0] = c1 :: q1) as (c1 & q1 & Eq) by (destruct q0; simpl; eauto).
      destruct (IH s1 c1 q1) as (ls' & s2 & Hrun' & Hp2 & Hn2 & Hc2 & Ht2 & Hcount').
      1-8: rewrite ?Ht1, ?Hn1, ?Hc1, ?Hheap; try done.
      + rewrite lookup_insert_ne by done. by rewrite lookup_insert_eq, Eq.
      + by rewrite lookup_insert_eq.
      + exists (ls ++ ls'), s2. split_and!; [by eapply run_app|done|congruence|congruence|congruence|].
        rewrite count_app, Hcount, Hcount'. done. }
  exists ls, s1. split_and!; [done|done|by rewrite Hc1|done|].
  intros ls' s2 Hrun'. apply (drained_run p s1 ls' s2); [|split; [done|by rewrite Ht1]|done].
  destruct (reachable_ok s1) as (? & _); [by eapply reachable_run|done].
Qed.

(** A cluster whose pool of an endpoint is short of a connection is never taken down: its destructor
    waits for all of them. *)
Lemma drained_disconnect s h p : connections_ s !! h = Some p → heap s !! p = Some [] → disconnect s = None.
Proof.
  intros Hh Hp. unfold disconnect. assert (p ∈ (nodes_ s).*2 ++ (map_to_list (connections_ s)).*2) as Hin.
  { apply elem_of_app. right. apply list_elem_of_fmap. exists (h, p). split; [done|]. by apply elem_of_map_to_list. }
  apply fmap_None. apply list_elem_of_lookup in Hin as [i Hi]. revert i Hi.
  generalize ((nodes_ s).*2 ++ (map_to_list (connections_ s)).*2). intros l. induction l as [|p' l IH]; intros [|i] Hi; simpl in *; try done.
  - injection Hi as ->. by rewrite Hp.
  - rewrite (IH i Hi). by destruct (heap s !! p' ≫= disconnect_pool).
Qed.

(** ** Concrete runs *)
Module Run.
Definition entries : list ((Z * Z) * list nat) := [((0, 8191)%Z, seq 0 10); ((8192, 16383)%Z, seq 10 10)].
Definition s0 : state := start entries 0 3.

Lemma s0_init : reachable init step s0.
Proof.
  apply reach_init. exists entries, 3. split; [|done]. split_and!.
  - apply (bool_decide_unpack _). by vm_compute.
  - apply (bool_decide_unpack _). by vm_compute.
  - by repeat constructor.
Qed.

(** The first thread holds connection 0. *)
Definition s1 : state := pullConnection 0 (Slots (0, 8191)%Z) 0 (seq 0 10) s0.
Lemma s1_reachable : reachable init step s1.
Proof. apply (reach_step init step s0 LTau s1 s0_init). exact (get s0 0 100 (0, 8191)%Z 0 (seq 0 10) eq_refl eq_refl eq_refl). Qed.

Lemma Pool_exclusive_witness : threads s1 !! 0 = Some (Hold (Slots (0, 8191)%Z) 0 0) ∧ 0 ∉ seq 1 9 ∧
  ∃ q m, heap s1 !! 0 = Some q ∧ made s1 !! 0 = Some m ∧ length m = poolSize_ ∧ q ++ held 0 (threads s1) ≡ₚ m.
Proof.
  destruct (Pool_exclusive s1 s1_reachable) as (_ & Hq & Hm). split; [reflexivity|]. split.
  - exact (Hq 0 (Slots (0, 8191)%Z) 0 0 0 (seq 1 9) eq_refl eq_refl).
  - exact (Hm (0, 8191)%Z 0 eq_refl).
Defined.

(** Twelve threads ask for the ten connections of a range: two of them wait. *)
Definition many : state := start entries 0 12.
Definition ask (t : nat) (s : state) : state := pullConnection t (Slots (0, 8191)%Z) 0 (default [] (heap s !! 0)) s.

Lemma ask_reachable t s : reachable init step s → threads s !! t = Some Idle → nodes_ s = nodes_ many → is_Some (heap s !! 0) →
  reachable init step (ask t s).
Proof.
  intros Hr Ht Hn [q Hq]. eapply reach_step; [exact Hr|]. unfold ask. rewrite Hq. apply (get s t 100); [done| |done].
  rewrite Hn. reflexivity.
Qed.

Definition full : state := foldr ask many (rev (seq 0 12)).
Lemma full_reachable : reachable init step full.
Proof.
  unfold full. simpl. repeat (apply ask_reachable; [|reflexivity|reflexivity|vm_compute; by eexists]).
  apply reach_init. exists entries, 12. split; [|done]. split_and!.
  - apply (bool_decide_unpack _). by vm_compute.
  - apply (bool_decide_unpack _). by vm_compute.
  - by repeat constructor.
Qed.

Lemma Pool_no_lost_wakeup_witness : threads full !! 11 = Some (Wait (Slots (0, 8191)%Z) 0) ∧
  ((∃ u x, threads full !! u = Some x ∧ comes 0 x = true ∧ ∃ l s', step full l s') ∨
   (∃ u k' con, threads full !! u = Some (Hold k' 0 con) ∧ ∃ l s', step full l s')).
Proof.
  split; [vm_compute; reflexivity|].
  destruct (Pool_no_lost_wakeup full 11 (Slots (0, 8191)%Z) 0 full_reachable ltac:(vm_compute; reflexivity)) as [H|[H|(h & m & E & _)]].
  - left. exact H.
  - right. exact H.
  - discriminate E.
Defined.

(** A state in which the pool of an endpoint was made by a redirection of the first thread. *)
Definition host : str := lit "10.0.0.2:7001".
Definition made_host : state := pullConnection 0 (Host host) 2 (seq 20 10) (install_host host 2 (seq 20 10)
  (set_thread 0 Replied (set_thread 0 (Notify (Slots (0, 8191)%Z) 0) (set_queue 0 (seq 1 9 ++ [0]) s1)))).
Definition put_back : state := set_thread 0 Idle (set_thread 0 (Notify (Host host) 2) (set_queue 2 (seq 21 9 ++ [20]) made_host)).

Ltac nobody := intros u k'; destruct u as [|[|[|u]]]; vm_compute; done.

Lemma put_back_reachable : reachable init step put_back.
Proof.
  eapply reach_step; [|eapply (notify_nobody _ 0 (Host host) 2); [reflexivity|nobody]].
  eapply reach_step; [|eapply (release made_host 0 (Host host) 2 20 2 (seq 21 9)); reflexivity].
  eapply reach_step; [|eapply (redirect_new _ 0 host 2 20 (seq 21 9)); try reflexivity].
  - eapply reach_step; [|eapply (notify_nobody _ 0 (Slots (0, 8191)%Z) 0); [reflexivity|nobody]].
    eapply reach_step; [exact s1_reachable|eapply (release s1 0 (Slots (0, 8191)%Z) 0 0 0 (seq 1 9)); reflexivity].
  - split; [apply (bool_decide_unpack _); by vm_compute|]. intros p m c Hm Hc.
    change (<[0 := seq 0 10]> (<[1 := seq 10 10]> (∅ : gmap nat (list nat))) !! p = Some m) in Hm. change (20 :: seq 21 9) with (seq 20 10).
    rewrite elem_of_seq. apply lookup_insert_Some in Hm as [[_ <-]|[_ Hm]]; [apply elem_of_seq in Hc; lia|].
    apply lookup_insert_Some in Hm as [[_ <-]|[_ Hm]]; [apply elem_of_seq in Hc; lia|]. by rewrite lookup_empty in Hm.
Qed.

Lemma Pool_drains_witness :
  ∃ ls s1, run step put_back ls s1 ∧ threads s1 = threads put_back ∧ connections_ s1 !! host = Some 2 ∧
    count (λ l, bool_decide (l = LLost 0)) ls = 10 ∧
    ∀ ls' s2, run step s1 ls' s2 → heap s2 !! 2 = Some [] ∧ ∀ u k con, threads s2 !! u ≠ Some (Hold k 2 con).
Proof.
  apply (Pool_drains put_back 0 100 (0, 8191)%Z 0 1 (seq 2 8 ++ [0]) host 2 (seq 21 9 ++ [20]) put_back_reachable).
  all: try reflexivity.
  - nobody.
  - intros u k con. destruct u as [|[|[|u]]]; vm_compute; done.
Defined.
End Run.
End PoolSpec.
