(* ===== verification/ClientSocket.v ===== *)
(** * The socket of the Redis client and its stream buffer (common/redispp.cpp)

    [ClientSocket] sends and receives bytes with [send] and [recv]; its [StreamBuf] puts a buffer of
    1400 bytes in front of each direction, under the [iostream] that RedisCommand.v and RedisReply.v
    write to and read from.  The two system calls are parameters. *)
From S2P Require Import Prelude CppString.

#[local] Open Scope Z_scope.

Module ClientSocket.

(** An exception of [write] or [read]; [Diverges] is a loop that has not ended. *)
Inductive error := write_error | read_error | Diverges.

(** The bytes between [pbase] and [pptr], and those between [gptr] and [egptr]. *)
(*@ common/redispp.cpp 167-174 StreamBuf *)
Record StreamBuf := SB { outBuffer : str; inBuffer : str }.

(*@ common/redispp.cpp 251-252 StreamBuf *)
Definition buffer_size : Z := 1400.

Section Socket.
Context {W : Type}.
(** The result of the call, the bytes [recv] has stored, and the world after it. *)
Variable send : str → W → Z * W.
Variable recv : Z → W → Z * str * W.

Abbreviation S := (StreamBuf * W)%type.
Abbreviation IO := (M S error).

(** The loop sends what is left until nothing is. *)
(*@ common/redispp.cpp 130-142 ClientSocket::write *)
Fixpoint write_loop (fuel : nat) (data : str) : IO unit :=
  if 0 <? size data then
    match fuel with
    | O => throw Diverges
    | Datatypes.S fuel => λ '(b, w),
        let '(ret, w) := send data w in
        if ret <=? 0 then (Err write_error, (b, w))
        else write_loop fuel (drop (Z.to_nat ret) data) (b, w)
    end
  else mret tt.

Definition write (data : str) : IO unit := write_loop (length data) data.

(*@ common/redispp.cpp 144-152 ClientSocket::read *)
Definition read (len : Z) : IO str := λ '(b, w),
  let '(ret, data, w) := recv len w in
  if ret <=? 0 then (Err read_error, (b, w)) else (Ok data, (b, w)).

Definition set_out (o : str) : IO unit := λ '(b, w), (Ok tt, (SB o (inBuffer b), w)).
Definition set_in (i : str) : IO unit := λ '(b, w), (Ok tt, (SB (outBuffer b) i, w)).

(** [sync] returns 1, not 0. *)
(*@ common/redispp.cpp 193-201 StreamBuf::sync *)
Definition sync : IO Z :=
  o ← (λ s, (Ok (outBuffer s.1), s));
  (if 0 <? size o then write o ;; set_out [] else mret tt) ;;
  mret 1.

(*@ common/redispp.cpp 176-184 StreamBuf::overflow *)
Definition overflow (c : option ascii) : IO (option ascii) :=
  o ← (λ s, (Ok (outBuffer s.1), s));
  set_out (o ++ match c with Some c => [c] | None => [] end) ;;
  r ← sync;
  mret (if r =? 0 then Some (default NUL c) else None).

(*@ common/redispp.cpp 186-191 StreamBuf::xsputn *)
Definition xsputn (buf : str) : IO Z :=
  sync ;; write buf ;; mret (size buf).

(*@ common/redispp.cpp 203-208 StreamBuf::underflow *)
Definition underflow : IO ascii :=
  got ← read buffer_size;
  set_in got ;;
  mret (default NUL (head got)).

(** The inner loop of [xsgetn]: a large rest is read past the buffer. *)
(*@ common/redispp.cpp 234-240 StreamBuf::xsgetn *)
Fixpoint read_direct (fuel : nat) (dest : str) (size_ : Z) : IO str :=
  if size dest <? size_ then
    match fuel with
    | O => throw Diverges
    | Datatypes.S fuel => got ← read (size_ - size dest); read_direct fuel (dest ++ got) size_
    end
  else mret dest.

(** [dest] is what has been copied so far. *)
(*@ common/redispp.cpp 210-248 StreamBuf::xsgetn *)
Fixpoint xsgetn (fuel : nat) (dest : str) (size_ : Z) : IO str :=
  if size dest <? size_ then
    match fuel with
    | O => throw Diverges
    | Datatypes.S fuel =>
        i ← (λ s, (Ok (inBuffer s.1), s));
        let avail := size i in
        let toRead := Z.min (size_ - size dest) avail in
        let dest := dest ++ take (Z.to_nat toRead) i in
        if (0 <? avail) && negb (toRead =? avail) then
          set_in (drop (Z.to_nat toRead) i) ;; mret dest
        else
          set_in [] ;;
          let remaining := size_ - size dest in
          (if 0 <? remaining then
             if buffer_size <? remaining then read_direct (Z.to_nat size_) dest size_
             else underflow ;; mret dest
           else mret dest) ≫= λ dest, xsgetn fuel dest size_
    end
  else mret dest.

(** The members of [std::streambuf] that call them: [sputc] stores while there is room before
    [epptr], one byte before the end of the buffer. *)
Definition sputc (c : ascii) : IO (option ascii) :=
  o ← (λ s, (Ok (outBuffer s.1), s));
  if size o <? buffer_size - 1 then set_out (o ++ [c]) ;; mret (Some c) else overflow (Some c).

Definition sgetc : IO ascii :=
  i ← (λ s, (Ok (inBuffer s.1), s));
  match i with c :: _ => mret c | [] => underflow end.

Definition sbumpc : IO ascii :=
  c ← sgetc;
  i ← (λ s, (Ok (inBuffer s.1), s));
  set_in (tail i) ;; mret c.

Definition sgetn (n : Z) : IO str := xsgetn (Datatypes.S (Datatypes.S (Z.to_nat n))) [] n.

(** *** What the stream does *)
Inductive op := Sputc (c : ascii) | Sputn (s : str) | Pubsync | Sgetc | Sbumpc | Sgetn (n : Z).
Inductive ret := RChar (c : option ascii) | RInt (n : Z) | RStr (s : str).

Definition exec (o : op) : IO ret :=
  match o with
  | Sputc c => r ← sputc c; mret (RChar r)
  | Sputn s => n ← xsputn s; mret (RInt n)
  | Pubsync => n ← sync; mret (RInt n)
  | Sgetc => c ← sgetc; mret (RChar (Some c))
  | Sbumpc => c ← sbumpc; mret (RChar (Some c))
  | Sgetn n => s ← sgetn n; mret (RStr s)
  end.

Fixpoint exec_all (l : list op) : IO (list ret) :=
  match l with
  | [] => mret []
  | o :: l => r ← exec o; rs ← exec_all l; mret (r :: rs)
  end.

(** ** The specification: two byte streams *)

(** What the system calls are relied on for: [send] takes some bytes from the front of what it is
    given, [recv] hands over the next bytes of the input, neither touches the other direction, and a
    failing call changes nothing that is seen here. *)
Record socket_laws (sent input : W → str) : Prop := {
  send_ok : ∀ d w r w', send d w = (r, w') → 0 < r →
    r <= size d ∧ sent w' = sent w ++ take (Z.to_nat r) d ∧ input w' = input w;
  send_fails : ∀ d w r w', send d w = (r, w') → r <= 0 → sent w' = sent w ∧ input w' = input w;
  recv_ok : ∀ n w r d w', recv n w = (r, d, w') → 0 < r →
    size d = r ∧ r <= n ∧ input w = d ++ input w' ∧ sent w' = sent w;
  recv_fails : ∀ n w r d w', recv n w = (r, d, w') → r <= 0 → sent w' = sent w ∧ input w' = input w
}.

(** Bytes given to the stream and bytes still to be taken from it. *)
Inductive spec : op → str * str → ret → str * str → Prop :=
| spec_sputc c r o i : r = Some c ∨ r = None → spec (Sputc c) (o, i) (RChar r) (o ++ [c], i)
| spec_sputn s o i : spec (Sputn s) (o, i) (RInt (size s)) (o ++ s, i)
| spec_sync o i : spec Pubsync (o, i) (RInt 1) (o, i)
| spec_sgetc c o i : spec Sgetc (o, c :: i) (RChar (Some c)) (o, c :: i)
| spec_sbumpc c o i : spec Sbumpc (o, c :: i) (RChar (Some c)) (o, i)
| spec_sgetn n s o i : size s = Z.max 0 n → spec (Sgetn n) (o, s ++ i) (RStr s) (o, i).

Inductive specs : list op → str * str → list ret → str * str → Prop :=
| specs_nil a : specs [] a [] a
| specs_cons o l a r a1 rs a2 : spec o a r a1 → specs l a1 rs a2 → specs (o :: l) a (r :: rs) a2.
End Socket.
End ClientSocket.
