(* ===== verification/ClientSocketSpec.v ===== *)
(** * The stream buffer of the Redis client is two byte streams (properties of ClientSocket.v) *)
From S2P Require Import Prelude CppString ClientSocket.
Import ClientSocket.

#[local] Open Scope Z_scope.

Module SocketSpec.

Section Spec.
Context {W : Type}.
Variable send : str → W → Z * W.
Variable recv : Z → W → Z * str * W.
Variable sent input : W → str.
Hypothesis laws : socket_laws send recv sent input.

Abbreviation IO := (M (StreamBuf * W) error).

(** What the program has given to the stream, and what it can still take. *)
Definition abs (s : StreamBuf * W) : str * str := (sent s.2 ++ outBuffer s.1, inBuffer s.1 ++ input s.2).
Definition bounded (s : StreamBuf * W) : Prop := size (outBuffer s.1) < buffer_size.

(** Only the exceptions of the system calls come out. *)
Definition real (e : error) : Prop := e ≠ Diverges.

Lemma size_pos (d : str) : 0 < size d ↔ d ≠ [].
Proof. unfold size. destruct d; simpl; split; done || lia. Qed.

(** [write] sends everything, in order; if a call fails, some of it. *)
Lemma write_loop_spec fuel data o i (b : StreamBuf) : (length data <= fuel)%nat →
  triple (λ s : StreamBuf * W, s.1 = b ∧ sent s.2 = o ∧ input s.2 = i) (write_loop send fuel data)
    (λ _ s, s.1 = b ∧ sent s.2 = o ++ data ∧ input s.2 = i)
    (λ e s, real e ∧ s.1 = b ∧ input s.2 = i ∧ ∃ k, sent s.2 = o ++ take k data).
Proof using laws.
  revert data o. induction fuel as [|fuel IH]; intros data o Hf [b' w] (Hb & Ho & Hi); simpl in *.
  - destruct data; [|simpl in Hf; lia]. simpl. by rewrite app_nil_r.
  - destruct (Z.ltb_spec 0 (size data)) as [Hd|Hd].
    + destruct (send data w) as [r w'] eqn:E. destruct (Z.leb_spec r 0) as [Hr|Hr].
      * destruct (send_fails _ _ _ _ laws _ _ _ _ E Hr) as [H1 H2]. simpl. split_and!; try done; [congruence|].
        exists 0%nat. rewrite take_0, app_nil_r. congruence.
      * destruct (send_ok _ _ _ _ laws _ _ _ _ E Hr) as (H1 & H2 & H3).
        specialize (IH (drop (Z.to_nat r) data) (o ++ take (Z.to_nat r) data)).
        assert (length (drop (Z.to_nat r) data) <= fuel)%nat as Hl by (rewrite length_drop; unfold size in *; lia).
        assert (sent w' = o ++ take (Z.to_nat r) data) as Hw1 by (by rewrite H2, Ho).
        assert (input w' = i) as Hw2 by congruence.
        specialize (IH Hl (b', w') (conj Hb (conj Hw1 Hw2))).
        destruct (write_loop send fuel _ (b', w')) as [[a|e] s'].
        -- destruct IH as (A1 & A2 & A3). split_and!; try done. by rewrite A2, <- app_assoc, take_drop.
        -- destruct IH as (A1 & A2 & A3 & k & A4). split_and!; try done.
           exists (Z.to_nat r + k)%nat. rewrite A4, <- app_assoc. by rewrite <- take_take_drop.
    + assert (data = []) as -> by (destruct data; [done|]; unfold size in Hd; simpl in Hd; lia). simpl. by rewrite app_nil_r.
Qed.

Lemma socket_write_spec data o i b :
  triple (λ s : StreamBuf * W, s.1 = b ∧ sent s.2 = o ∧ input s.2 = i) (write send data)
    (λ _ s, s.1 = b ∧ sent s.2 = o ++ data ∧ input s.2 = i) (λ e _, real e).
Proof using laws.
  eapply triple_weaken; [by apply (write_loop_spec (length data) data o i b)|done|done|]. simpl. by intros ? ? (? & _).
Qed.

(** Reading the buffers. *)
Lemma triple_look {A B} (f : StreamBuf * W → A) (k : A → IO B) P Q R :
  (∀ a, triple (λ s, P s ∧ f s = a) (k a) Q R) → triple P ((λ s, (Ok (f s), s)) ≫= k) Q R.
Proof. intros H s Hs. exact (H (f s) s (conj Hs eq_refl)). Qed.

(** [sync] empties the buffer into the socket. *)
Lemma sync_spec o i inb :
  triple (λ s : StreamBuf * W, sent s.2 ++ outBuffer s.1 = o ∧ inBuffer s.1 = inb ∧ input s.2 = i) (sync send)
    (λ r s, r = 1 ∧ sent s.2 = o ∧ outBuffer s.1 = [] ∧ inBuffer s.1 = inb ∧ input s.2 = i) (λ e _, real e).
Proof using laws.
  unfold sync. apply (triple_look (λ s, outBuffer s.1)). intros out.
  eapply triple_bind with (Q' := λ _ s, sent s.2 = o ∧ outBuffer s.1 = [] ∧ inBuffer s.1 = inb ∧ input s.2 = i).
  - destruct (Z.ltb_spec 0 (size out)) as [Hp|Hp].
    + intros [b w] ((Ho & Hi & Hin) & Hout). simpl in *.
      pose proof (socket_write_spec out (sent w) i b (b, w) (conj eq_refl (conj eq_refl Hin))) as Hw.
      unfold mbind, M_bind. destruct (write send out (b, w)) as [[a|e] [b1 w1]]; [|done]. simpl in Hw.
      destruct Hw as (-> & Hs & Hi'). simpl. split_and!; try done. rewrite Hs. subst. done.
    + apply triple_ret. intros s ((Ho & Hi & Hin) & Hout).
      assert (out = []) as -> by (destruct out; [done|]; unfold size in Hp; simpl in Hp; lia).
      rewrite Hout, app_nil_r in Ho. done.
  - intros _. apply triple_ret. intros s (H1 & H2 & H3 & H4). done.
Qed.

Lemma read_spec n o outb inb i :
  triple (λ s : StreamBuf * W, sent s.2 = o ∧ s.1 = SB outb inb ∧ input s.2 = i) (read recv n)
    (λ d s, d ≠ [] ∧ size d <= n ∧ sent s.2 = o ∧ s.1 = SB outb inb ∧ i = d ++ input s.2) (λ e _, real e).
Proof using laws.
  intros [b w] (Ho & Hb & Hi). simpl in *. unfold read. destruct (recv n w) as [[r d] w'] eqn:E.
  destruct (Z.leb_spec r 0) as [Hr|Hr]; [done|].
  destruct (recv_ok _ _ _ _ laws _ _ _ _ _ E Hr) as (H1 & H2 & H3 & H4). simpl. assert (d ≠ []) by (apply size_pos; lia).
  split_and!; try done; try congruence; lia.
Qed.

Lemma underflow_spec o outb i :
  triple (λ s : StreamBuf * W, sent s.2 = o ∧ s.1 = SB outb [] ∧ input s.2 = i) (underflow recv)
    (λ c s, sent s.2 = o ∧ outBuffer s.1 = outb ∧ inBuffer s.1 ++ input s.2 = i ∧ head (inBuffer s.1) = Some c) (λ e _, real e).
Proof using laws.
  unfold underflow. eapply triple_bind; [apply read_spec|]. intros d [b w] (Hd & _ & Ho & Hb & Hi). simpl in *. subst b. simpl.
  split_and!; try done. by destruct d.
Qed.

Lemma read_direct_spec fuel dest n o outb inb i : (Z.to_nat n <= fuel + length dest)%nat →
  triple (λ s : StreamBuf * W, sent s.2 = o ∧ s.1 = SB outb inb ∧ dest ++ input s.2 = i) (read_direct recv fuel dest n)
    (λ d s, n <= size d ∧ (size d <= n ∨ d = dest) ∧ sent s.2 = o ∧ s.1 = SB outb inb ∧ d ++ input s.2 = i) (λ e _, real e).
Proof using laws.
  revert dest. induction fuel as [|fuel IH]; intros dest Hf; cbn [read_direct].
  - destruct (Z.ltb_spec (size dest) n); [unfold size in *; lia|]. apply triple_ret. intros s (H1 & H2 & H3).
    split_and!; try done. by right.
  - destruct (Z.ltb_spec (size dest) n) as [Hlt|Hlt].
    + intros s (H1 & H2 & H3). eapply (triple_bind _ _ _ _ _ _ (read_spec (n - size dest) o outb inb (input s.2))); [|done].
      intros d s1 (Hd & Hn & Ho & Hb & Hi).
      assert (1 <= length d)%nat by (destruct d; [done|simpl; lia]).
      pose proof (IH (dest ++ d) ltac:(rewrite length_app; lia) s1) as Hr.
      assert ((dest ++ d) ++ input s1.2 = i) as Hpre by (by rewrite <- app_assoc, <- Hi).
      specialize (Hr (conj Ho (conj Hb Hpre))).
      destruct (read_direct recv fuel (dest ++ d) n s1) as [[d'|e] s2]; [|done].
      destruct Hr as (R1 & R2 & R3 & R4 & R5). split_and!; try done. left. destruct R2 as [| ->]; [done|].
      unfold size in *. rewrite length_app in *. lia.
    + apply triple_ret. intros s (H1 & H2 & H3). split_and!; try done. by right.
Qed.
(** [xsgetn] hands over the next bytes of the input, through the buffer or past it. *)
Lemma xsgetn_spec fuel dest n o outb total : size dest <= n →
  triple (λ s : StreamBuf * W, sent s.2 = o ∧ outBuffer s.1 = outb ∧ dest ++ inBuffer s.1 ++ input s.2 = total ∧
            (size dest < n → (Z.to_nat n - length dest + (if decide (inBuffer s.1 = []) then 1 else 0) <= fuel)%nat))
    (xsgetn recv fuel dest n)
    (λ d s, size d = n ∧ sent s.2 = o ∧ outBuffer s.1 = outb ∧ d ++ inBuffer s.1 ++ input s.2 = total) (λ e _, real e).
Proof using laws.
  revert dest. induction fuel as [|fuel IH]; intros dest Hdn; cbn [xsgetn].
  - destruct (Z.ltb_spec (size dest) n).
    + intros s (_ & _ & _ & Hf). specialize (Hf H). unfold size in *. lia.
    + apply triple_ret. intros s (H1 & H2 & H3 & _). split_and!; try done. lia.
  - destruct (Z.ltb_spec (size dest) n) as [Hlt|Hlt]; [|apply triple_ret; intros s (H1 & H2 & H3 & _); split_and!; try done; lia].
    intros [[out inb] w] (Ho & Hout & Htot & Hf). simpl in Ho, Hout, Htot, Hf. specialize (Hf Hlt). unfold mbind at 1, M_bind. cbn [fst inBuffer].
    set (toRead := Z.min (n - size dest) (size inb)). assert (0 <= size inb) as Hinb by (unfold size; lia).
    set (dest' := dest ++ take (Z.to_nat toRead) inb).
    assert (size dest' = size dest + toRead) as Hd' by (unfold dest', size in *; rewrite length_app, length_take; lia).
    destruct ((0 <? size inb) && negb (toRead =? size inb)) eqn:Ec.
    + apply andb_true_iff in Ec as [Hp Hne%negb_true_iff%Z.eqb_neq]. unfold mbind, M_bind. simpl. split_and!; try done; [lia|].
      unfold dest'. rewrite <- Htot, <- !app_assoc, (app_assoc (take _ inb)), take_drop. done.
    + unfold mbind at 1, M_bind. cbn [set_in outBuffer].
      assert (toRead = size inb) as Hall.
      { apply andb_false_iff in Ec as [Ec%Z.ltb_ge|Ec%negb_false_iff%Z.eqb_eq]; lia. }
      assert (dest' = dest ++ inb) as Ed.
      { unfold dest'. rewrite Hall. unfold size. by rewrite Nat2Z.id, firstn_all. }
      assert (dest' ++ input w = total) as Htot' by (by rewrite Ed, <- app_assoc).
      assert (size dest' <= n) as Hdn' by lia.
      destruct (Z.ltb_spec 0 (n - size dest')) as [Hrem|Hrem].
      * destruct (buffer_size <? n - size dest').
        -- unfold mbind at 1, M_bind.
           pose proof (read_direct_spec (Z.to_nat n) dest' n o out [] total ltac:(lia) (SB out [], w)) as Hr.
           specialize (Hr (conj Ho (conj eq_refl Htot'))).
           destruct (read_direct recv (Z.to_nat n) dest' n (SB out [], w)) as [[d|e] [b1 w1]]; [|done].
           simpl in Hr. destruct Hr as (R1 & R2 & R3 & -> & R5).
           assert (size d = n) as Hsd by (destruct R2 as [| ->]; lia).
           pose proof (IH d ltac:(lia) (SB out [], w1)) as Hi. simpl in Hi. apply Hi. split_and!; try done.
           lia.
        -- unfold mbind at 1, M_bind. unfold mbind at 1, M_bind.
           pose proof (underflow_spec o out (input w) (SB out [], w) (conj Ho (conj eq_refl eq_refl))) as Hu.
           destruct (underflow recv (SB out [], w)) as [[c|e] [b1 w1]]; [|done]. simpl in Hu. destruct Hu as (U1 & U2 & U3 & U4).
           cbn [mret M_ret]. pose proof (IH dest' Hdn' (b1, w1)) as Hi. simpl in Hi. apply Hi. split_and!; try done.
           ++ congruence.
           ++ by rewrite U3.
           ++ intros _. rewrite decide_False by (intros E; by rewrite E in U4). rewrite Ed, length_app. unfold size in *.
              rewrite Ed, length_app in Hrem. clear Hi IH.
              destruct (decide (inb = [])) as [->|]; simpl in *; [lia|]. destruct inb; [done|]. simpl in *. lia.
      * unfold mbind at 1, M_bind. cbn [mret M_ret]. pose proof (IH dest' Hdn' (SB out [], w)) as Hi. simpl in Hi. apply Hi.
        split_and!; try done. lia.
Qed.

Lemma sgetc_spec o outb total :
  triple (λ s : StreamBuf * W, sent s.2 = o ∧ outBuffer s.1 = outb ∧ inBuffer s.1 ++ input s.2 = total) (sgetc recv)
    (λ c s, sent s.2 = o ∧ outBuffer s.1 = outb ∧ inBuffer s.1 ++ input s.2 = total ∧ head (inBuffer s.1) = Some c) (λ e _, real e).
Proof using laws.
  unfold sgetc. apply (triple_look (λ s, inBuffer s.1)). intros inb [b w] ((Ho & Hout & Ht) & Hi). simpl in *.
  destruct inb as [|c inb].
  - destruct b as [out inb]. simpl in *. subst inb.
    pose proof (underflow_spec o out (input w) (SB out [], w) (conj Ho (conj eq_refl eq_refl))) as Hu.
    destruct (underflow recv (SB out [], w)) as [[c|e] [b1 w1]]; [|done]. simpl in *. destruct Hu as (U1 & U2 & U3 & U4).
    split_and!; try done; congruence.
  - cbn. rewrite Hi in *. done.
Qed.

(** One operation. *)
Lemma socket_exec_spec op a :
  triple (λ s : StreamBuf * W, abs s = a ∧ bounded s) (exec send recv op) (λ r s, spec op a r (abs s) ∧ bounded s) (λ e _, real e).
Proof using laws.
  destruct a as [o i]. unfold abs, bounded. destruct op as [c|d| | | |n]; cbn [exec].
  - eapply (triple_bind _ _ _ (λ r s, sent s.2 ++ outBuffer s.1 = o ++ [c] ∧ inBuffer s.1 ++ input s.2 = i ∧
              size (outBuffer s.1) < buffer_size ∧ (r = Some c ∨ r = None))).
    + unfold sputc. apply (triple_look (λ s, outBuffer s.1)). intros out.
      destruct (Z.ltb_spec (size out) (buffer_size - 1)) as [Hlt|Hge].
      * intros [b w] (([= Ho Hi] & Hb) & Hout). simpl in *. subst out. split_and!; try done; [by rewrite app_assoc, Ho| |by left].
        unfold size in *. rewrite length_app. simpl. lia.
      * unfold overflow. intros [b w] (([= Ho Hi] & Hb) & Hout). simpl in *. subst out. unfold mbind at 1, M_bind. simpl.
        unfold mbind at 1, M_bind. simpl. unfold mbind at 1, M_bind.
        pose proof (sync_spec (o ++ [c]) (input w) (inBuffer b) (SB (outBuffer b ++ [c]) (inBuffer b), w)) as Hs.
        simpl in Hs. rewrite app_assoc, Ho in Hs. specialize (Hs (conj eq_refl (conj eq_refl eq_refl))).
        destruct (sync send _) as [[r|e] [b1 w1]]; [|done]. simpl in *. destruct Hs as (-> & S2 & S3 & S4 & S5).
        split_and!; [by rewrite S3, app_nil_r|congruence|by rewrite S3|by right].
    + intros r. apply triple_ret. intros s (H1 & H2 & H3 & H4). split; [|done]. rewrite H1, H2. by constructor.
  - eapply (triple_bind _ _ _ (λ r s, r = size d ∧ sent s.2 ++ outBuffer s.1 = o ++ d ∧ inBuffer s.1 ++ input s.2 = i ∧
              size (outBuffer s.1) < buffer_size)).
    + unfold xsputn. intros [b w] ([= Ho Hi] & Hb). simpl in *. unfold mbind at 1, M_bind.
      pose proof (sync_spec o (input w) (inBuffer b) (b, w) (conj Ho (conj eq_refl eq_refl))) as Hs.
      destruct (sync send (b, w)) as [[r|e] [b1 w1]]; [|done]. simpl in Hs. destruct Hs as (-> & S2 & S3 & S4 & S5).
      unfold mbind at 1, M_bind.
      pose proof (socket_write_spec d o (input w) b1 (b1, w1) (conj eq_refl (conj S2 S5))) as Hw.
      destruct (write send d (b1, w1)) as [[r|e] [b2 w2]]; [|done]. simpl in *. destruct Hw as (-> & W2 & W3).
      split_and!; [done|by rewrite W2, S3, app_nil_r|congruence|by rewrite S3].
    + intros r. apply triple_ret. intros s (-> & H2 & H3 & H4). split; [|done]. rewrite H2, H3. by constructor.
  - eapply (triple_bind _ _ _ (λ r s, r = 1 ∧ sent s.2 ++ outBuffer s.1 = o ∧ inBuffer s.1 ++ input s.2 = i ∧ size (outBuffer s.1) < buffer_size)).
    + intros [b w] ([= Ho Hi] & Hb). simpl in *.
      pose proof (sync_spec o (input w) (inBuffer b) (b, w) (conj Ho (conj eq_refl eq_refl))) as Hs.
      destruct (sync send (b, w)) as [[r|e] [b1 w1]]; [|done]. simpl in *. destruct Hs as (-> & S2 & S3 & S4 & S5).
      split_and!; [done|by rewrite S3, app_nil_r|congruence|by rewrite S3].
    + intros r. apply triple_ret. intros s (-> & H2 & H3 & H4). split; [|done]. rewrite H2, H3. by constructor.
  - intros [b w] ([= Ho Hi] & Hb). simpl in *. unfold mbind at 1, M_bind.
    pose proof (sgetc_spec (sent w) (outBuffer b) i (b, w) (conj eq_refl (conj eq_refl Hi))) as Hs.
    destruct (sgetc recv (b, w)) as [[c|e] [b1 w1]]; [|done]. simpl in *. destruct Hs as (S1 & S2 & S3 & S4).
    split; [|by rewrite S2]. rewrite S1, S2, S3, Ho. destruct (inBuffer b1) as [|c' r]; [done|]. injection S4 as ->.
    rewrite <- S3. constructor.
  - intros [b w] ([= Ho Hi] & Hb). simpl in *. unfold sbumpc, mbind, M_bind.
    pose proof (sgetc_spec (sent w) (outBuffer b) i (b, w) (conj eq_refl (conj eq_refl Hi))) as Hs.
    destruct (sgetc recv (b, w)) as [[c|e] [b1 w1]]; [|done]. simpl in *. destruct Hs as (S1 & S2 & S3 & S4).
    split; [|by rewrite S2]. rewrite S1, S2, Ho. destruct (inBuffer b1) as [|c' r]; [done|]. injection S4 as ->.
    rewrite <- S3. constructor.
  - intros [b w] ([= Ho Hi] & Hb). simpl in *. unfold mbind at 1, M_bind, sgetn.
    assert (n <= 0 ∨ 0 < n) as [Hn|Hn] by lia.
    + cbn [xsgetn]. change (size []) with 0. destruct (Z.ltb_spec 0 n); [lia|]. simpl. split; [|done].
      rewrite Ho, Hi. apply (spec_sgetn n [] o i). unfold size. simpl. lia.
    + pose proof (xsgetn_spec (Datatypes.S (Datatypes.S (Z.to_nat n))) [] n (sent w) (outBuffer b) i ltac:(unfold size; simpl; lia) (b, w)) as Hx.
      assert (size [] < n → (Z.to_nat n - @length ascii [] + (if decide (inBuffer b = []) then 1 else 0) <= Datatypes.S (Datatypes.S (Z.to_nat n)))%nat) as Hf.
      { intros _. simpl. case_decide; lia. }
      specialize (Hx (conj eq_refl (conj eq_refl (conj Hi Hf)))). cbn [fst snd] in Hx.
      destruct (xsgetn recv _ [] n (b, w)) as [[d|e] [b1 w1]]; [|done]. destruct Hx as (X1 & X2 & X3 & X4). simpl in *.
      split; [|by rewrite X3]. rewrite X2, X3, Ho, <- X4. constructor. lia.
Qed.

(** C36: the stream buffer is two byte streams, whatever the system calls do.  For any sequence of
    single characters, blocks and flushes written and of characters and blocks read, however [send]
    and [recv] cut the bytes: when no call fails, what has been sent and what waits in the buffer is
    what was written, in order and without a gap; what is read is the input, in order and without a
    gap; a read of [n] bytes gives [n] bytes; the loops end, and no write comes to lie outside the
    buffer.  When a call fails its exception is what comes out, and nothing is said of what is done with the stream
    behind it; nor of the value that [sputc] returns. *)
Theorem StreamBuf_refines_streams ops s : bounded s →
  match exec_all send recv ops s with
  | (Ok rets, s') => specs ops (abs s) rets (abs s') ∧ bounded s'
  | (Err e, _) => e ≠ Diverges
  end.
Proof using laws.
  revert s. induction ops as [|op ops IH]; intros s Hb; cbn [exec_all]; [split; [constructor|done]|].
  unfold mbind at 1, M_bind. pose proof (socket_exec_spec op (abs s) s (conj eq_refl Hb)) as Ho.
  destruct (exec send recv op s) as [[r|e] s1]; [|done]. destruct Ho as [Ho Hb1].
  unfold mbind at 1, M_bind. specialize (IH s1 Hb1). destruct (exec_all send recv ops s1) as [[rs|e] s2]; [|done].
  destruct IH as [IH Hb2]. split; [|done]. by econstructor.
Qed.
End Spec.

(** ** A socket that cuts what it sends and receives into small pieces *)
Module Pieces.
Definition World : Type := str * list str.
Definition send (d : str) (w : World) : Z * World := let n := Z.min 3 (size d) in (n, (w.1 ++ take (Z.to_nat n) d, w.2)).
Definition recv (n : Z) (w : World) : Z * str * World :=
  match w.2 with
  | [] => (0, [], w)
  | x :: r => let d := take (Z.to_nat n) x in
              if size d <=? 0 then (0, [], w) else (size d, d, (w.1, match drop (Z.to_nat n) x with [] => r | x' => x' :: r end))
  end.

Lemma pieces_laws : socket_laws send recv fst (λ w, concat w.2).
Proof.
  split.
  - intros d w r w' [= <- <-] Hr. simpl. split_and!; [lia|done|done].
  - intros d w r w' [= <- <-] Hr. simpl. split; [|done]. replace (Z.to_nat (Z.min 3 (size d))) with 0%nat by lia.
    by rewrite take_0, app_nil_r.
  - intros n [o l] r d w'. unfold recv. cbn [snd fst]. destruct l as [|x l]; [intros [= <- <- <-]; lia|].
    destruct (Z.leb_spec (size (take (Z.to_nat n) x)) 0) as [Hl|Hl]; [intros [= <- <- <-]; lia|]. intros [= <- <- <-] _. cbn [snd fst concat].
    split_and!; [done| | |done].
    + unfold size in *. rewrite length_take in *. lia.
    + rewrite <- (take_drop (Z.to_nat n) x) at 1. rewrite <- app_assoc. f_equal. by destruct (drop (Z.to_nat n) x).
  - intros n [o l] r d w'. unfold recv. cbn [snd fst]. destruct l as [|x l]; [by intros [= <- <- <-]|].
    destruct (Z.leb_spec (size (take (Z.to_nat n) x)) 0) as [Hl|Hl]; [by intros [= <- <- <-]|]. intros [= <- <- <-]. lia.
Qed.

Definition w0 : World := ([], [lit "+OK"; [CR; LF]]).
Definition request : list op := [Sputn (lit "PING"); Sputc CR; Sputc LF; Pubsync; Sgetc; Sgetn 3; Sbumpc].

Lemma StreamBuf_refines_streams_witness :
  ∃ rets s', exec_all send recv request (SB [] [], w0) = (Ok rets, s') ∧
    specs request ([], lit "+OK" ++ crlf) rets (lit "PING" ++ crlf, [LF]).
Proof.
  pose proof (StreamBuf_refines_streams send recv fst (λ w, concat w.2) pieces_laws request (SB [] [], w0)) as H.
  eexists _, _. split; [vm_compute; reflexivity|].
  assert (bounded (SB [] [], w0)) as Hb by reflexivity. exact (proj1 (H Hb)).
Defined.

(** [sync] never returns 0, so [overflow] reports a failure for a character that it has sent: an
    [ostream] goes bad after as many single characters as the buffer holds. *)
Example overflow_reports_failure :
  let b := SB (replicate 1399 "a"%char) [] in
  fst (sputc send "b" (b, w0)) = Ok None ∧ last (snd (snd (sputc send "b" (b, w0)))).1 = Some "b"%char.
Proof. by vm_compute. Qed.
End Pieces.
End SocketSpec.
