(* ===== verification/RedisCommand.v ===== *)
(** * Redis commands (common/redispp.cpp, redispp.h)

    The output buffer of a connection, the command objects and the methods of [Connection]
    that send a command.  A method is a constructor of [request]; [wire] gives the command
    object and the arguments that the method passes to it, and [EXECUTE_COMMAND] is the macro
    that fills the buffer and writes it to the stream. *)
From S2P Require Import Prelude CppString Decimal.

#[local] Open Scope Z_scope.

(** [std::runtime_error] of the client, by message. *)
Inductive exn := buffer_is_full.

(** ** The buffer

    [buffer_] is what lies between [buffer] and [spot]; [end - buffer] is [capacity]. *)
Module Buffer.

(*@ common/redispp.cpp 402-405 Buffer *)
Record t := mk { capacity : Z; buffer_ : str; marked : nat }.

(*@ common/redispp.cpp 264-266 Buffer::Buffer *)
Definition new (bufferSize : Z) : t := mk bufferSize [] 0.

(*@ common/redispp.cpp 364-370 Buffer::checkSpace *)
Definition checkSpace (needed : Z) : M t exn unit := λ b,
  if capacity b <=? size (buffer_ b) + needed then (Err buffer_is_full, b) else (Ok tt, b).

(** [*spot++ = c] / [memcpy(spot, s, len); spot += len] *)
Definition put_raw (s : str) : M t exn unit := λ b, (Ok tt, mk (capacity b) (buffer_ b ++ s) (marked b)).

(*@ common/redispp.cpp 280-298 Buffer::write *)
Definition write (s : str) : M t exn unit := checkSpace (size s) ≫= λ _, put_raw s.

(*@ common/redispp.cpp 388-400 Buffer::writeArgLen *)
Definition writeArgLen (len : Z) : M t exn unit :=
  put_raw ["$"%char] ≫= λ _, put_raw (dec (u32 len)) ≫= λ _, put_raw [CR] ≫= λ _, put_raw [LF].

(** [writeArg(std::string const&)]; the [const char*] overload passes the bytes before the
    first NUL. *)
(*@ common/redispp.cpp 311-331 Buffer::writeArg *)
Definition writeArg (arg : str) : M t exn unit :=
  checkSpace (size arg + 1 + 11 + 4) ≫= λ _, writeArgLen (size arg) ≫= λ _,
  put_raw arg ≫= λ _, put_raw [CR] ≫= λ _, put_raw [LF].

(*@ common/redispp.cpp 333-346 Buffer::writeArg *)
Definition writeArg_int (arg : Z) : M t exn unit := writeArg (dec_int arg).

(*@ common/redispp.cpp 348-362 Buffer::mark, reset, resetToMark *)
Definition mark (b : t) : t := mk (capacity b) (buffer_ b) (length (buffer_ b)).
Definition reset (b : t) : t := mk (capacity b) [] 0.
Definition resetToMark (b : t) : t := mk (capacity b) (take (marked b) (buffer_ b)) (marked b).

End Buffer.

(** ** Commands *)
Module Command.

(*@ common/redispp.cpp 441-451 Command::Command *)
Definition header (cmdName : str) (numArgs : Z) : str :=
  "*"%char :: dec (numArgs + 1) ++ crlf ++ "$"%char :: dec (size cmdName) ++ crlf ++ cmdName ++ crlf.

(** The argument types of [execute]: [const char*], [std::string] and [int]. *)
Inductive arg := ACStr (s : str) | AStr (s : str) | AInt (z : Z).

Definition arg_text (a : arg) : str :=
  match a with ACStr s => c_str s | AStr s => s | AInt z => dec_int z end.

Definition write_arg (a : arg) : M Buffer.t exn unit :=
  match a with
  | ACStr s => Buffer.writeArg (c_str s)
  | AStr s => Buffer.writeArg s
  | AInt z => Buffer.writeArg_int z
  end.

Fixpoint write_args (args : list arg) : M Buffer.t exn unit :=
  match args with
  | [] => mret tt
  | a :: r => write_arg a ≫= λ _, write_args r
  end.

(*@ common/redispp.h 27-55 Command::execute *)
Definition execute (hdr : str) (args : list arg) : M Buffer.t exn unit :=
  Buffer.write hdr ≫= λ _, write_args args.

End Command.

(** ** The methods of [Connection] *)
Module Requests.
Import Command.

(** What a method returns: nothing, one of the reply objects, or a [Type] read at once. *)
Inductive kind := KNone | KVoid | KBool | KInt | KString | KMulti | KType.

(** The command objects: name and declared number of arguments. *)
(*@ common/redispp.h 525-632 DEFINE_COMMAND *)
Definition commands : list (string * Z) :=
  [("Quit"%string, 0); ("Auth"%string, 1); ("Exists"%string, 1); ("Del"%string, 1);
   ("Type"%string, 1); ("Keys"%string, 1); ("RandomKey"%string, 0); ("Rename"%string, 2);
   ("RenameNX"%string, 2); ("DbSize"%string, 0); ("Expire"%string, 2); ("ExpireAt"%string, 2);
   ("Persist"%string, 1); ("Ttl"%string, 1); ("Select"%string, 1); ("Move"%string, 2);
   ("FlushDb"%string, 0); ("FlushAll"%string, 0); ("Set"%string, 2); ("Get"%string, 1);
   ("GetSet"%string, 2); ("SetNX"%string, 2); ("SetEx"%string, 3); ("Incr"%string, 1);
   ("IncrBy"%string, 2); ("Decr"%string, 1); ("DecrBy"%string, 2); ("Append"%string, 2);
   ("SubStr"%string, 3); ("RPush"%string, 2); ("LPush"%string, 2); ("LLen"%string, 1);
   ("LRange"%string, 3); ("LTrim"%string, 3); ("LIndex"%string, 2); ("LSet"%string, 3);
   ("LRem"%string, 3); ("LPop"%string, 1); ("RPop"%string, 1); ("RPopLPush"%string, 2);
   ("SAdd"%string, 2); ("SRem"%string, 2); ("SPop"%string, 1); ("SMove"%string, 3);
   ("SCard"%string, 1); ("SIsMember"%string, 2); ("SMembers"%string, 1); ("SRandMember"%string, 1);
   ("ZAdd"%string, 2); ("ZRem"%string, 2); ("ZIncrBy"%string, 3); ("ZRank"%string, 2);
   ("ZRevRank"%string, 2); ("ZRange"%string, 3); ("ZRevRange"%string, 3); ("ZRangeByScore"%string, 3);
   ("ZCount"%string, 3); ("ZRemRangeByRank"%string, 3); ("ZRemRangeByScore"%string, 3); ("ZCard"%string, 1);
   ("ZScore"%string, 2); ("HSet"%string, 3); ("HSetNX"%string, 3); ("HGet"%string, 2);
   ("HIncrBy"%string, 3); ("HExists"%string, 2); ("HDel"%string, 2); ("HLen"%string, 1);
   ("HKeys"%string, 1); ("HVals"%string, 1); ("HGetAll"%string, 1); ("Save"%string, 0);
   ("BgSave"%string, 0); ("LastSave"%string, 0); ("Shutdown"%string, 0); ("BgReWriteAOF"%string, 0);
   ("Info"%string, 0); ("Subscribe"%string, 1); ("Unsubscribe"%string, 1); ("PSubscribe"%string, 1);
   ("PUnsubscribe"%string, 1); ("Publish"%string, 2); ("Multi"%string, 0); ("Exec"%string, 0);
   ("Discard"%string, 0)].

(** Methods on keys, connection and databases. *)
(*@ common/redispp.cpp 782-904 Connection *)
Inductive key_request :=
| quit
| authenticate (password : str)
| exists_ (name : str)
| del (name : str)
| type_ (name : str)
| keys (pattern : str)
| randomKey
| rename (oldName : str) (newName : str)
| renameNX (oldName : str) (newName : str)
| dbSize
| expire (name : str) (seconds : Z)
| expireAt (name : str) (timestamp : Z)
| ttl (name : str)
| select (db : Z)
| move (name : str) (db : Z)
| flushDb
| flushAll.

(*@ common/redispp.cpp 782-904 Connection *)
Definition key_request_wire (r : key_request) : string * list arg * kind :=
  match r with
  | quit => ("Quit"%string, [], KNone)
  | authenticate password => ("Auth"%string, [ACStr password], KVoid)
  | exists_ name => ("Exists"%string, [AStr name], KBool)
  | del name => ("Del"%string, [AStr name], KBool)
  | type_ name => ("Type"%string, [AStr name], KType)
  | keys pattern => ("Keys"%string, [AStr pattern], KMulti)
  | randomKey => ("RandomKey"%string, [], KString)
  | rename oldName newName => ("Rename"%string, [AStr oldName; AStr newName], KVoid)
  | renameNX oldName newName => ("RenameNX"%string, [AStr oldName; AStr newName], KBool)
  | dbSize => ("DbSize"%string, [], KInt)
  | expire name seconds => ("Expire"%string, [AStr name; AInt seconds], KBool)
  | expireAt name timestamp => ("ExpireAt"%string, [AStr name; AInt timestamp], KBool)
  | ttl name => ("Ttl"%string, [AStr name], KInt)
  | select db => ("Select"%string, [AInt db], KVoid)
  | move name db => ("Move"%string, [AStr name; AInt db], KBool)
  | flushDb => ("FlushDb"%string, [], KVoid)
  | flushAll => ("FlushAll"%string, [], KVoid)
  end.

(** Methods on string values. *)
(*@ common/redispp.cpp 906-972 Connection *)
Inductive string_request :=
| set (name : str) (value : str)
| get (name : str)
| getSet (name : str) (value : str)
| setNX (name : str) (value : str)
| setEx (name : str) (time : Z) (value : str)
| incr (name : str)
| incrBy (name : str) (value : Z)
| decr (name : str)
| decrBy (name : str) (value : Z)
| append (name : str) (value : str)
| subStr (name : str) (start : Z) (end_ : Z).

(*@ common/redispp.cpp 906-972 Connection *)
Definition string_request_wire (r : string_request) : string * list arg * kind :=
  match r with
  | set name value => ("Set"%string, [AStr name; AStr value], KVoid)
  | get name => ("Get"%string, [AStr name], KString)
  | getSet name value => ("GetSet"%string, [AStr name; AStr value], KString)
  | setNX name value => ("SetNX"%string, [AStr name; AStr value], KBool)
  | setEx name time value => ("SetEx"%string, [AStr name; AInt time; AStr value], KVoid)
  | incr name => ("Incr"%string, [AStr name], KInt)
  | incrBy name value => ("IncrBy"%string, [AStr name; AInt value], KInt)
  | decr name => ("Decr"%string, [AStr name], KInt)
  | decrBy name value => ("DecrBy"%string, [AStr name; AInt value], KInt)
  | append name value => ("Append"%string, [AStr name; AStr value], KInt)
  | subStr name start end_ => ("SubStr"%string, [AStr name; AInt start; AInt end_], KString)
  end.

(** Methods on lists. *)
(*@ common/redispp.cpp 974-1041 Connection *)
Inductive list_request :=
| rpush (key : str) (value : str)
| lpush (key : str) (value : str)
| llen (key : str)
| lrange (key : str) (start : Z) (end_ : Z)
| ltrim (key : str) (start : Z) (end_ : Z)
| lindex (key : str) (index : Z)
| lset (key : str) (index : Z) (value : str)
| lrem (key : str) (count : Z) (value : str)
| lpop (key : str)
| rpop (key : str)
| rpopLpush (src : str) (dest : str).

(*@ common/redispp.cpp 974-1041 Connection *)
Definition list_request_wire (r : list_request) : string * list arg * kind :=
  match r with
  | rpush key value => ("RPush"%string, [AStr key; AStr value], KInt)
  | lpush key value => ("LPush"%string, [AStr key; AStr value], KInt)
  | llen key => ("LLen"%string, [AStr key], KInt)
  | lrange key start end_ => ("LRange"%string, [AStr key; AInt start; AInt end_], KMulti)
  | ltrim key start end_ => ("LTrim"%string, [AStr key; AInt start; AInt end_], KVoid)
  | lindex key index => ("LIndex"%string, [AStr key; AInt index], KString)
  | lset key index value => ("LSet"%string, [AStr key; AInt index; AStr value], KVoid)
  | lrem key count value => ("LRem"%string, [AStr key; AInt count; AStr value], KInt)
  | lpop key => ("LPop"%string, [AStr key], KString)
  | rpop key => ("RPop"%string, [AStr key], KString)
  | rpopLpush src dest => ("RPopLPush"%string, [AStr src; AStr dest], KString)
  end.

(** Methods on sets. *)
(*@ common/redispp.cpp 1043-1096 Connection *)
Inductive set_request :=
| sadd (key : str) (member : str)
| srem (key : str) (member : str)
| spop (key : str)
| smove (src : str) (dest : str) (member : str)
| scard (key : str)
| sisMember (key : str) (member : str)
| smembers (key : str)
| srandMember (key : str).

(*@ common/redispp.cpp 1043-1096 Connection *)
Definition set_request_wire (r : set_request) : string * list arg * kind :=
  match r with
  | sadd key member => ("SAdd"%string, [AStr key; AStr member], KBool)
  | srem key member => ("SRem"%string, [AStr key; AStr member], KBool)
  | spop key => ("SPop"%string, [AStr key], KString)
  | smove src dest member => ("SMove"%string, [AStr src; AStr dest; AStr member], KBool)
  | scard key => ("SCard"%string, [AStr key], KInt)
  | sisMember key member => ("SIsMember"%string, [AStr key; AStr member], KBool)
  | smembers key => ("SMembers"%string, [AStr key], KMulti)
  | srandMember key => ("SRandMember"%string, [AStr key], KString)
  end.

(** Methods on hashes. *)
(*@ common/redispp.cpp 1100-1158 Connection *)
Inductive hash_request :=
| hset (key : str) (field : str) (value : str)
| hget (key : str) (field : str)
| hsetNX (key : str) (field : str) (value : str)
| hincrBy (key : str) (field : str) (value : Z)
| hexists (key : str) (field : str)
| hdel (key : str) (field : str)
| hlen (key : str)
| hkeys (key : str)
| hvals (key : str)
| hgetAll (key : str).

(*@ common/redispp.cpp 1100-1158 Connection *)
Definition hash_request_wire (r : hash_request) : string * list arg * kind :=
  match r with
  | hset key field value => ("HSet"%string, [AStr key; AStr field; AStr value], KBool)
  | hget key field => ("HGet"%string, [AStr key; AStr field], KString)
  | hsetNX key field value => ("HSetNX"%string, [AStr key; AStr field; AStr value], KBool)
  | hincrBy key field value => ("HIncrBy"%string, [AStr key; AStr field; AInt value], KInt)
  | hexists key field => ("HExists"%string, [AStr key; AStr field], KBool)
  | hdel key field => ("HDel"%string, [AStr key; AStr field], KBool)
  | hlen key => ("HLen"%string, [AStr key], KInt)
  | hkeys key => ("HKeys"%string, [AStr key], KMulti)
  | hvals key => ("HVals"%string, [AStr key], KMulti)
  | hgetAll key => ("HGetAll"%string, [AStr key], KMulti)
  end.

(** Methods on server, publish/subscribe and transactions. *)
(*@ common/redispp.cpp 1160-1234 Connection *)
Inductive server_request :=
| save
| bgSave
| bgReWriteAOF
| lastSave
| shutdown
| info
| subscribe (channel : str)
| unsubscribe (channel : str)
| psubscribe (channel : str)
| punsubscribe (channel : str)
| publish (channel : str) (message : str)
| multi
| exec
| discard.

(*@ common/redispp.cpp 1160-1234 Connection *)
Definition server_request_wire (r : server_request) : string * list arg * kind :=
  match r with
  | save => ("Save"%string, [], KVoid)
  | bgSave => ("BgSave"%string, [], KVoid)
  | bgReWriteAOF => ("BgReWriteAOF"%string, [], KVoid)
  | lastSave => ("LastSave"%string, [], KInt)
  | shutdown => ("Shutdown"%string, [], KNone)
  | info => ("Info"%string, [], KString)
  | subscribe channel => ("Subscribe"%string, [AStr channel], KNone)
  | unsubscribe channel => ("Unsubscribe"%string, [AStr channel], KNone)
  | psubscribe channel => ("PSubscribe"%string, [AStr channel], KNone)
  | punsubscribe channel => ("PUnsubscribe"%string, [AStr channel], KNone)
  | publish channel message => ("Publish"%string, [AStr channel; AStr message], KInt)
  | multi => ("Multi"%string, [], KNone)
  | exec => ("Exec"%string, [], KNone)
  | discard => ("Discard"%string, [], KNone)
  end.

Inductive request :=
| KeyR (r : key_request)
| StringR (r : string_request)
| ListR (r : list_request)
| SetR (r : set_request)
| HashR (r : hash_request)
| ServerR (r : server_request).

Definition wire (r : request) : string * list arg * kind :=
  match r with
  | KeyR r => key_request_wire r
  | StringR r => string_request_wire r
  | ListR r => list_request_wire r
  | SetR r => set_request_wire r
  | HashR r => hash_request_wire r
  | ServerR r => server_request_wire r
  end.


End Requests.

Module Connection.
Import Command Requests.

Fixpoint lookup_command (name : string) (l : list (string * Z)) : option Z :=
  match l with
  | [] => None
  | (n, a) :: r => if String.eqb n name then Some a else lookup_command name r
  end.

(** The output side of a connection: its buffer and the bytes given to the socket. *)
Record out := Out { buffer : Buffer.t; sent : str }.

(** [resetToMark]; [execute]; [ioStream->write]. *)
(*@ common/redispp.cpp 408-434 EXECUTE_COMMAND_SYNC *)
Definition EXECUTE_COMMAND (hdr : str) (args : list arg) : M out exn unit := λ c,
  match execute hdr args (Buffer.resetToMark (buffer c)) with
  | (Ok _, b) => (Ok tt, Out b (sent c ++ Buffer.buffer_ b))
  | (Err e, b) => (Err e, Out b (sent c))
  end.

(** A method of [Connection], up to the construction of its reply object. *)
Definition send (r : request) : M out exn unit :=
  let '(name, args, _) := wire r in
  match lookup_command name commands with
  | Some n => EXECUTE_COMMAND (header (lit name) n) args
  | None => EXECUTE_COMMAND [] []
  end.

(** ** Reference: the array of bulk strings of the Redis protocol *)
Definition bulk (s : str) : str := "$"%char :: dec (size s) ++ crlf ++ s ++ crlf.
#[global] Arguments bulk : simpl never.
Definition resp_array (items : list str) : str :=
  "*"%char :: dec (Z.of_nat (length items)) ++ crlf ++ concat (map bulk items).

(** The server's parser. *)
Definition expect (c : ascii) (s : str) : option str :=
  match s with x :: r => if decide (x = c) then Some r else None | [] => None end.
Definition expect_crlf (s : str) : option str := r ← expect CR s; expect LF r.

Definition parse_bulk (s : str) : option (str * str) :=
  s ← expect "$"%char s; '(n, s) ← read_uint s; s ← expect_crlf s;
  if decide (Z.to_nat n ≤ length s)%nat
  then r ← expect_crlf (drop (Z.to_nat n) s); Some (take (Z.to_nat n) s, r)
  else None.

Fixpoint parse_bulks (n : nat) (s : str) : option (list str * str) :=
  match n with
  | O => Some ([], s)
  | S n => '(b, s) ← parse_bulk s; '(l, s) ← parse_bulks n s; Some (b :: l, s)
  end.

Definition parse_request (s : str) : option (list str * str) :=
  s ← expect "*"%char s; '(n, s) ← read_uint s; s ← expect_crlf s; parse_bulks (Z.to_nat n) s.

(** The command line that a method call stands for. *)
Definition command_line (r : request) : list str :=
  let '(name, args, _) := wire r in lit name :: map arg_text args.

(** ** Lemmas *)
Lemma expect_cons c s : expect c (c :: s) = Some s.
Proof. unfold expect. by rewrite decide_True. Qed.

Lemma expect_crlf_app s : expect_crlf (crlf ++ s) = Some s.
Proof. done. Qed.

Lemma crlf_not_digit s : ∀ c r', crlf ++ s = c :: r' → is_digit c = false.
Proof. intros c r' [= <- _]. done. Qed.

Lemma parse_bulk_app s r : size s < 10 ^ 20 → parse_bulk (bulk s ++ r) = Some (s, r).
Proof.
  intros Hs. unfold parse_bulk, bulk. rewrite <- app_comm_cons, expect_cons. cbn [mbind option_bind].
  rewrite <- !app_assoc. rewrite read_uint_dec by (unfold size in *; lia || apply crlf_not_digit).
  cbn [mbind option_bind]. rewrite expect_crlf_app. cbn [mbind option_bind].
  unfold size. rewrite Nat2Z.id. rewrite decide_True by (rewrite length_app; lia).
  rewrite drop_app_length, take_app_length, expect_crlf_app. done.
Qed.

Lemma parse_bulks_app items r :
  Forall (λ s, size s < 10 ^ 20) items →
  parse_bulks (length items) (concat (map bulk items) ++ r) = Some (items, r).
Proof.
  induction 1 as [|s items Hs Hi IH]; [done|]. cbn [length parse_bulks map concat].
  rewrite <- app_assoc, parse_bulk_app by done. cbn [mbind option_bind]. by rewrite IH.
Qed.

Lemma parse_request_app items r :
  Forall (λ s, size s < 10 ^ 20) items → Z.of_nat (length items) < 10 ^ 20 →
  parse_request (resp_array items ++ r) = Some (items, r).
Proof.
  intros Hi Hl. unfold parse_request, resp_array. rewrite <- app_comm_cons, expect_cons. cbn [mbind option_bind].
  rewrite <- !app_assoc, read_uint_dec by (lia || apply crlf_not_digit). cbn [mbind option_bind].
  rewrite expect_crlf_app. cbn [mbind option_bind]. rewrite Nat2Z.id. by apply parse_bulks_app.
Qed.

(** The number of arguments of every command object is what its method passes. *)
Lemma arity_ok r : let '(name, args, _) := wire r in
  lookup_command name commands = Some (Z.of_nat (length args)).
Proof. destruct r as [[]|[]|[]|[]|[]|[]]; reflexivity. Qed.

(** The buffer never holds more than its capacity. *)
Definition fits (b : Buffer.t) : Prop := size (Buffer.buffer_ b) < Buffer.capacity b.

Lemma writeArg_spec a b :
  fits b →
  (∃ b', Buffer.writeArg a b = (Ok tt, b') ∧ fits b' ∧ Buffer.capacity b' = Buffer.capacity b ∧
     Buffer.marked b' = Buffer.marked b ∧
     Buffer.buffer_ b' = Buffer.buffer_ b ++ "$"%char :: dec (u32 (size a)) ++ crlf ++ a ++ crlf) ∨
  (Buffer.writeArg a b = (Err buffer_is_full, b) ∧
   Buffer.capacity b <= size (Buffer.buffer_ b) + size a + 16).
Proof.
  intros Hf. unfold Buffer.writeArg, Buffer.checkSpace, mbind, M_bind.
  destruct (Z.leb_spec (Buffer.capacity b) (size (Buffer.buffer_ b) + (size a + 1 + 11 + 4))).
  - right. split; [done|lia].
  - left. unfold Buffer.writeArgLen, Buffer.put_raw, mbind, M_bind. simpl.
    eexists. split; [reflexivity|]. simpl. rewrite <- !app_assoc. simpl. split_and!; try done.
    unfold fits. simpl. unfold size. repeat (rewrite ?length_app; simpl).
    pose proof (dec_length (u32 (size a)) 10) as Hd. unfold u32 in Hd.
    pose proof (Z.mod_pos_bound (size a) (2 ^ 32) ltac:(lia)).
    specialize (Hd ltac:(lia) ltac:(lia) ltac:(lia)). unfold size, u32 in *. lia.
Qed.

Lemma write_spec s b :
  (∃ b', Buffer.write s b = (Ok tt, b') ∧ fits b' ∧ Buffer.capacity b' = Buffer.capacity b ∧
     Buffer.marked b' = Buffer.marked b ∧ Buffer.buffer_ b' = Buffer.buffer_ b ++ s) ∨
  (Buffer.write s b = (Err buffer_is_full, b) ∧ Buffer.capacity b <= size (Buffer.buffer_ b) + size s).
Proof.
  unfold Buffer.write, Buffer.checkSpace, mbind, M_bind.
  destruct (Z.leb_spec (Buffer.capacity b) (size (Buffer.buffer_ b) + size s)).
  - right. by split.
  - left. eexists. split; [reflexivity|]. simpl. split_and!; try done.
    unfold fits, size in *. simpl. rewrite length_app. lia.
Qed.

Lemma write_arg_text a : write_arg a = Buffer.writeArg (arg_text a).
Proof. by destruct a. Qed.

Lemma write_args_spec args b :
  fits b → Forall (λ a, size (arg_text a) < 2 ^ 32) args →
  (∃ b', write_args args b = (Ok tt, b') ∧ fits b' ∧ Buffer.capacity b' = Buffer.capacity b ∧
     Buffer.marked b' = Buffer.marked b ∧
     Buffer.buffer_ b' = Buffer.buffer_ b ++ concat (map bulk (map arg_text args))) ∨
  (∃ b', write_args args b = (Err buffer_is_full, b') ∧ fits b' ∧ Buffer.capacity b' = Buffer.capacity b ∧
     Buffer.marked b' = Buffer.marked b ∧
     Buffer.capacity b <= size (Buffer.buffer_ b) + size (concat (map bulk (map arg_text args))) + 16).
Proof.
  intros Hf Ha. revert b Hf. induction Ha as [|a args Ha Hargs IH]; intros b Hf; cbn [write_args].
  - left. exists b. split_and!; try done. simpl. by rewrite app_nil_r.
  - rewrite write_arg_text. unfold mbind, M_bind. simpl.
    assert (Hu : u32 (size (arg_text a)) = size (arg_text a)) by (apply u32_small; unfold size in *; lia).
    destruct (writeArg_spec (arg_text a) b Hf) as [(b1 & -> & Hf1 & Hc1 & Hm1 & E1)|[-> Hle]].
    + rewrite Hu in E1.
      destruct (IH b1 Hf1) as [(b2 & -> & Hf2 & Hc2 & Hm2 & E2)|(b2 & -> & Hf2 & Hc2 & Hm2 & Hle2)].
      * left. exists b2. split_and!; try done; [congruence|congruence|].
        rewrite E2, E1, <- app_assoc. unfold bulk. simpl. rewrite <- !app_assoc. done.
      * right. exists b2. split_and!; try done; [congruence|congruence|].
        rewrite E1 in Hle2. rewrite Hc1 in Hle2. unfold bulk, size in *. simpl in *.
        repeat (rewrite ?length_app in *; simpl in * ). lia.
    + right. exists b. split_and!; try done. unfold bulk, size in *. simpl.
      repeat (rewrite ?length_app; simpl). lia.
Qed.

Lemma header_resp name args :
  header name (Z.of_nat (length args)) ++ concat (map bulk (map arg_text args))
  = resp_array (name :: map arg_text args).
Proof.
  unfold header, resp_array. cbn [map concat]. generalize (concat (map bulk (map arg_text args))) as X. intros X.
  rewrite (length_cons name), length_map, Nat2Z.inj_succ, <- Z.add_1_r. unfold bulk.
  rewrite <- !app_comm_cons, <- !app_assoc. rewrite <- !app_comm_cons, <- !app_assoc. done.
Qed.

(** ** Properties *)

(** The sizes that C++ types impose: an argument's length fits [unsigned int]. *)
Definition args_ok (r : request) : Prop :=
  let '(_, args, _) := wire r in Forall (λ a, size (arg_text a) < 2 ^ 32) args.

Lemma send_spec r c :
  args_ok r → 0 < Buffer.capacity (buffer c) → Buffer.marked (buffer c) = 0%nat →
  (∃ c', send r c = (Ok tt, c') ∧ sent c' = sent c ++ resp_array (command_line r) ∧ fits (buffer c') ∧
     Buffer.capacity (buffer c') = Buffer.capacity (buffer c) ∧ Buffer.marked (buffer c') = 0%nat) ∨
  (∃ c', send r c = (Err buffer_is_full, c') ∧ sent c' = sent c ∧ fits (buffer c') ∧
     Buffer.capacity (buffer c') = Buffer.capacity (buffer c) ∧ Buffer.marked (buffer c') = 0%nat ∧
     Buffer.capacity (buffer c) <= size (resp_array (command_line r)) + 16).
Proof.
  intros Ha Hc Hm. unfold send, args_ok, command_line in *. pose proof (arity_ok r) as Hr.
  destruct (wire r) as [[name args] k]. rewrite Hr. unfold EXECUTE_COMMAND.
  set (b0 := Buffer.resetToMark (buffer c)).
  assert (Hb0 : b0 = Buffer.mk (Buffer.capacity (buffer c)) [] 0).
  { unfold b0, Buffer.resetToMark. by rewrite Hm. }
  rewrite <- header_resp. unfold execute, mbind, M_bind.
  pose proof (λ b, write_args_spec args b) as Hw.
  set (H := header (lit name) (Z.of_nat (length args))) in *.
  set (A := concat (map bulk (map arg_text args))) in *. clearbody H A.
  destruct (write_spec H b0) as [(b1 & -> & Hf1 & Hc1 & Hm1 & E1)|[-> Hle]].
  - destruct (Hw b1 Hf1 Ha) as [(b2 & -> & Hf2 & Hc2 & Hm2 & E2)|(b2 & -> & Hf2 & Hc2 & Hm2 & Hle2)].
    + left. eexists. split; [reflexivity|]. simpl. rewrite E2, E1, Hb0. simpl.
      split_and!; try done; [rewrite Hc2, Hc1, Hb0; done|rewrite Hm2, Hm1, Hb0; done].
    + right. eexists. split; [reflexivity|]. simpl. split_and!; try done.
      * by rewrite Hc2, Hc1, Hb0.
      * by rewrite Hm2, Hm1, Hb0.
      * rewrite E1, Hc1, Hb0 in Hle2. simpl in Hle2. unfold size in *. rewrite length_app. lia.
  - right. eexists. split; [reflexivity|]. simpl. rewrite Hb0 in *. simpl in *. split_and!; try done.
    unfold size in *. rewrite length_app. simpl in *. lia.
Qed.

Lemma args_ok_items r : args_ok r →
  Forall (λ s, size s < 10 ^ 20) (command_line r) ∧ Z.of_nat (length (command_line r)) < 10 ^ 20.
Proof.
  intros Ha. pose proof (arity_ok r) as Hr. unfold args_ok, command_line in *.
  assert (Hn : ∀ n k, lookup_command n commands = Some k → size (lit n) < 10 ^ 20 ∧ k <= 3).
  { intros n k Hk. assert (Hall : forallb (λ '(n, k), (size (lit n) <? 1000) && (k <=? 3)) commands = true) by done.
    revert Hall Hk. generalize commands as l. induction l as [|[n' k'] l IH]; simpl; [done|].
    intros [Hh Hl]%andb_true_iff. destruct (String.eqb_spec n' n) as [->|]; [|by apply IH].
    intros [= ->]. apply andb_true_iff in Hh as [H1%Z.ltb_lt H2%Z.leb_le]. lia. }
  destruct (wire r) as [[name args] kd]. destruct (Hn _ _ Hr) as [Hs Hk]. split.
  - constructor; [done|]. apply Forall_map. eapply Forall_impl; [exact Ha|]. simpl. lia.
  - simpl. rewrite length_map. lia.
Qed.

(** C6: every method of the client that sends a command (all 71 of them, whatever strings and
    integers it is given, including strings with spaces, line breaks or NUL bytes) either
    throws "buffer is full" without sending a byte, which happens only when the encoded
    command does not fit the buffer, or sends exactly one command, which the server's parser
    reads back as the command name and the arguments of the call, leaving what follows
    untouched.  (The stream has not failed before.) *)
Theorem Connection_send_roundtrip r c rest :
  args_ok r → 0 < Buffer.capacity (buffer c) → Buffer.marked (buffer c) = 0%nat →
  (∃ c' bytes, send r c = (Ok tt, c') ∧ sent c' = sent c ++ bytes ∧
     parse_request (bytes ++ rest) = Some (command_line r, rest)) ∨
  (∃ c', send r c = (Err buffer_is_full, c') ∧ sent c' = sent c ∧
     Buffer.capacity (buffer c) <= size (resp_array (command_line r)) + 16).
Proof.
  intros Ha Hc Hm. destruct (send_spec r c Ha Hc Hm) as [(c' & E & Es & _)|(c' & E & Es & _ & _ & _ & Hle)].
  - left. exists c', (resp_array (command_line r)). split_and!; try done.
    apply parse_request_app; by apply args_ok_items.
  - right. by exists c'.
Qed.

Definition conn0 : out := Out (Buffer.new 4096) [].

Lemma Connection_send_roundtrip_witness :
  ∃ c' bytes, send (StringR (setEx (lit "a key") (-5) [CR; LF; NUL])) conn0 = (Ok tt, c') ∧
    sent c' = bytes ∧ parse_request (bytes ++ lit "next") = Some ([lit "SetEx"; lit "a key"; lit "-5"; [CR; LF; NUL]], lit "next").
Proof.
  destruct (Connection_send_roundtrip (StringR (setEx (lit "a key") (-5) [CR; LF; NUL])) conn0 (lit "next"))
    as [(c' & bytes & E & Es & Ep)|(c' & E & _)].
  - repeat constructor.
  - vm_compute. done.
  - done.
  - exists c', bytes. split; [exact E|]. split; [exact Es|exact Ep].
  - vm_compute in E. discriminate.
Defined.

(** C7: a connection's buffer is never written past its end: whatever commands are sent, in any
    order and with any arguments, its contents stay below the capacity after each of them,
    failed ones included, and a command that fails has no effect on the bytes of the next. *)
Theorem Buffer_never_overflows rs c :
  Forall args_ok rs → fits (buffer c) → 0 < Buffer.capacity (buffer c) → Buffer.marked (buffer c) = 0%nat →
  let c' := foldl (λ c r, snd (send r c)) c rs in
  fits (buffer c') ∧ Buffer.capacity (buffer c') = Buffer.capacity (buffer c) ∧
  ∃ done_, sent c' = sent c ++ concat (map (λ r, resp_array (command_line r)) done_) ∧
           sublist done_ rs.
Proof.
  intros Hrs. revert c. induction Hrs as [|r rs Hr Hrs IH]; intros c Hf Hc Hm; simpl.
  - split_and!; [done|done|]. exists []. split; [by rewrite app_nil_r|constructor].
  - destruct (send_spec r c Hr Hc Hm) as [(c1 & E & Es & Hf1 & Hc1 & Hm1)|(c1 & E & Es & Hf1 & Hc1 & Hm1 & _)];
      rewrite E; simpl; destruct (IH c1 Hf1 ltac:(by rewrite Hc1) Hm1) as (H1 & H2 & d & H3 & H4).
    + split_and!; [done|congruence|]. exists (r :: d). split; [|by constructor].
      rewrite H3, Es, <- app_assoc. done.
    + split_and!; [done|congruence|]. exists d. split; [by rewrite H3, Es|by constructor].
Qed.

Lemma Buffer_never_overflows_witness :
  let c' := foldl (λ c r, snd (send r c)) (Out (Buffer.new 40) [])
              [StringR (get (lit "k")); StringR (get (lit "a key that does not fit"))] in
  fits (buffer c') ∧ sent c' = resp_array [lit "Get"; lit "k"].
Proof.
  set (c' := foldl _ _ _).
  destruct (Buffer_never_overflows [StringR (get (lit "k")); StringR (get (lit "a key that does not fit"))]
              (Out (Buffer.new 40) [])) as [H _].
  - repeat constructor.
  - vm_compute. done.
  - vm_compute. done.
  - done.
  - split; [exact H|]. vm_compute. reflexivity.
Defined.

(** A command that would exactly fill the buffer is refused: [checkSpace] rejects
    [spot + needed == end]. *)
Example exact_fit_refused :
  fst (Buffer.write (lit "abcd") (Buffer.new 4)) = Err buffer_is_full.
Proof. reflexivity. Qed.

End Connection.
