(* ===== verification/RedisReply.v ===== *)
(** * Redis replies (common/redispp.cpp, redispp.h)

    A connection keeps the reply objects whose answer has not been read yet in
    [outstandingReplies], in the order of the commands; the answers come through one stream.
    Reading a reply first reads the ones before it ([clearPendingResults]), so that the client
    may ask for the results in any order.  The stream is the bytes received and the failbit; a
    reply object is identified by a number. *)
From S2P Require Import Prelude CppString Decimal RedisCommand.
Import Requests.

#[local] Open Scope Z_scope.

(** ** The input stream *)
Module Stream.

Record t := mk { input : str; failbit : bool }.

(** [is >> c] *)
Definition get_code : t → option ascii * t := λ s,
  if failbit s then (None, s)
  else match skip_ws (input s) with
       | c :: r => (Some c, mk r false)
       | [] => (None, mk [] true)
       end.

(** [is >> n] for an integer type with values in [lo, hi]: the value written to [n], if any (0 when
    there is no number, the nearest bound when it does not fit), and the stream; the extraction
    succeeded when the failbit is not set. *)
Definition get_int (lo hi : Z) : t → option Z * t := λ s,
  if failbit s then (None, s)
  else match read_int (skip_ws (input s)) with
       | Some (n, r) => (Some (Z.max lo (Z.min hi n)), mk r (negb ((lo <=? n) && (n <=? hi))))
       | None => (Some 0, mk (skip_ws (input s)) true)
       end.

(** [std::getline(is, str, '\r')] *)
Definition getlineRN : t → option str * t := λ s,
  if failbit s then (None, s)
  else match index_of CR (input s) with
       | Some i => (Some (take i (input s)), mk (drop (S i) (input s)) false)
       | None => (None, mk [] true)
       end.

(** [is.get()], the character thrown away *)
Definition skip_char : t → t := λ s,
  if failbit s then s else match input s with _ :: r => mk r false | [] => mk [] true end.

(** [is.read(p, n)] into a zeroed buffer of [n] bytes *)
Definition read (n : nat) : t → str * t := λ s,
  if failbit s then (replicate n NUL, s)
  else if decide (n ≤ length (input s))%nat then (take n (input s), mk (drop n (input s)) false)
  else (input s ++ replicate (n - length (input s)) NUL, mk [] true).

End Stream.

Inductive rexn :=
| null_reply | in_transaction | count_mismatch
| error_reading_status | read_error_response (msg : str) | error_reading_integer
| error_reading_bulk_header | bad_bulk_header (code : ascii) | multi_bulk_minus1 | no_reply.

(** ** Reading one answer *)
Module Read.
Import Stream.

Definition imin32 : Z := - 2 ^ 31.
Definition imax32 : Z := 2 ^ 31 - 1.
Definition imin64 : Z := - 2 ^ 63.
Definition imax64 : Z := 2 ^ 63 - 1.

(*@ common/redispp.cpp 726-737 Connection::readStatusCodeReply *)
Definition readStatusCodeReply : M t rexn str := λ s,
  match get_code s with
  | (None, s) => (Err error_reading_status, s)
  | (Some code, s) =>
      match getlineRN s with
      | (None, s) => (Err error_reading_status, s)
      | (Some out, s) => if decide (code = "+"%char) then (Ok out, s) else (Err (read_error_response out), s)
      end
  end.

(*@ common/redispp.cpp 739-748 Connection::readIntegerReply *)
Definition readIntegerReply : M t rexn Z := λ s,
  let '(code, s) := get_code s in
  let '(ret, s) := get_int imin64 imax64 s in
  if failbit s then (Err error_reading_integer, s) else (Ok (default 0 ret), s).

(** [ioStream >> code >> count], with [code] 0 and [count] as given before it. *)
Definition read_header (count : Z) : t → ascii * Z * t := λ s,
  let '(code, s) := get_code s in
  let '(n, s) := get_int imin32 imax32 s in
  (default NUL code, default count n, s).

(*@ common/redispp.cpp 757-780 Connection::readBulkReply *)
Definition readBulkReply : M t rexn (option str) := λ s,
  let '(code, count, s) := read_header 0 s in
  if failbit s then (Err error_reading_bulk_header, s)
  else if decide (code ≠ "$"%char) then (Err (bad_bulk_header code), s)
  else if count <? 0 then (Ok None, s)
  else let '(out, s) := read (Z.to_nat count) (skip_char (skip_char s)) in (Ok (Some out), s).

End Read.

(** ** Reference: the answers of the server *)
Inductive resp := RStatus (s : str) | RError (s : str) | RInt (z : Z) | RBulk (o : option str) | RMulti (l : list (option str)).

Definition encode_bulk (o : option str) : str :=
  match o with Some s => "$"%char :: dec_int (size s) ++ crlf ++ s ++ crlf | None => lit "$-1" ++ crlf end.
Definition encode (r : resp) : str :=
  match r with
  | RStatus s => "+"%char :: s ++ crlf
  | RError s => "-"%char :: s ++ crlf
  | RInt z => ":"%char :: dec_int z ++ crlf
  | RBulk o => encode_bulk o
  | RMulti l => "*"%char :: dec_int (Z.of_nat (length l)) ++ crlf ++ concat (map encode_bulk l)
  end.

Definition bulk_ok (o : option str) : Prop := match o with Some s => size s <= Read.imax32 | None => True end.

Module ReadLemmas.
Import Stream Read.

Lemma get_code_app w c r : ws w → is_ws c = false → get_code (mk (w ++ c :: r) false) = (Some c, mk r false).
Proof. intros Hw Hc. unfold get_code. simpl. by rewrite skip_ws_app. Qed.

Lemma get_int_app lo hi z r :
  lo <= z <= hi → - 10 ^ 20 < z < 10 ^ 20 → get_int lo hi (mk (dec_int z ++ crlf ++ r) false) = (Some z, mk (crlf ++ r) false).
Proof.
  intros Hr Hz. unfold get_int. cbn [failbit input].
  destruct (dec_int_head z (crlf ++ r) Hz) as (c & d & E & Hc).
  assert (Hs : skip_ws (dec_int z ++ crlf ++ r) = dec_int z ++ crlf ++ r).
  { rewrite E. cbn [skip_ws]. by rewrite Hc. }
  rewrite Hs, read_int_dec; [|done|by intros ? ? [= <- _]].
  rewrite Z.min_r, Z.max_r by lia. destruct (Z.leb_spec lo z), (Z.leb_spec z hi); try lia. done.
Qed.

Lemma ws_crlf : ws crlf.
Proof. by repeat constructor. Qed.
Lemma ws_LF : ws [LF].
Proof. by repeat constructor. Qed.

Lemma status_ok w s r : ws w → CR ∉ s →
  readStatusCodeReply (mk (w ++ encode (RStatus s) ++ r) false) = (Ok s, mk ([LF] ++ r) false).
Proof.
  intros Hw Hs. unfold readStatusCodeReply. cbn [encode]. rewrite <- app_comm_cons, get_code_app by done.
  unfold getlineRN. cbn [failbit input]. rewrite <- app_assoc. change (crlf ++ r) with (CR :: LF :: r).
  rewrite index_of_app by done. rewrite take_app_length.
  replace (s ++ CR :: LF :: r) with ((s ++ [CR]) ++ LF :: r) by by rewrite <- app_assoc.
  rewrite drop_app_length' by (rewrite length_app; simpl; lia). done.
Qed.

Lemma status_error w s r : ws w → CR ∉ s →
  readStatusCodeReply (mk (w ++ encode (RError s) ++ r) false) = (Err (read_error_response s), mk ([LF] ++ r) false).
Proof.
  intros Hw Hs. unfold readStatusCodeReply. cbn [encode]. rewrite <- app_comm_cons, get_code_app by done.
  unfold getlineRN. cbn [failbit input]. rewrite <- app_assoc. change (crlf ++ r) with (CR :: LF :: r).
  rewrite index_of_app by done. rewrite take_app_length.
  replace (s ++ CR :: LF :: r) with ((s ++ [CR]) ++ LF :: r) by by rewrite <- app_assoc.
  rewrite drop_app_length' by (rewrite length_app; simpl; lia). done.
Qed.

Lemma integer_ok w z r : ws w → imin64 <= z <= imax64 →
  readIntegerReply (mk (w ++ encode (RInt z) ++ r) false) = (Ok z, mk (crlf ++ r) false).
Proof.
  intros Hw Hz. unfold readIntegerReply. cbn [encode]. rewrite <- app_comm_cons, get_code_app by done.
  rewrite <- app_assoc, get_int_app; [done|done|]. unfold imin64, imax64 in Hz. lia.
Qed.

Lemma header_ok w c n z r : ws w → is_ws c = false → imin32 <= z <= imax32 →
  read_header n (mk (w ++ c :: dec_int z ++ crlf ++ r) false) = (c, z, mk (crlf ++ r) false).
Proof.
  intros Hw Hc Hz. unfold read_header. rewrite get_code_app by done.
  rewrite get_int_app; [done|done|]. unfold imin32, imax32 in Hz. lia.
Qed.

Lemma bulk_read w o r : ws w → bulk_ok o →
  readBulkReply (mk (w ++ encode_bulk o ++ r) false) = (Ok o, mk (crlf ++ r) false).
Proof.
  intros Hw Ho. unfold readBulkReply. destruct o as [s|].
  - cbn [encode_bulk]. rewrite <- app_comm_cons, <- !app_assoc. cbn [bulk_ok] in Ho.
    rewrite header_ok; [|done|done|unfold imin32, size in *; lia]. cbn [failbit].
    rewrite decide_False by naive_solver. destruct (Z.ltb_spec (size s) 0); [unfold size in *; lia|].
    change (crlf ++ s ++ crlf ++ r) with (CR :: LF :: s ++ crlf ++ r). unfold skip_char. cbn [failbit input].
    unfold read, size. cbn [failbit input]. rewrite Nat2Z.id, decide_True by (rewrite length_app; lia).
    by rewrite take_app_length, drop_app_length.
  - change (encode_bulk None ++ r) with ("$"%char :: dec_int (-1) ++ crlf ++ r).
    rewrite header_ok; [done|done|done|]. unfold imin32, imax32. lia.
Qed.

Lemma multi_header_ok w n l r : ws w → Z.of_nat (length l) <= imax32 →
  read_header n (mk (w ++ encode (RMulti l) ++ r) false) =
    ("*"%char, Z.of_nat (length l), mk (crlf ++ concat (map encode_bulk l) ++ r) false).
Proof.
  intros Hw Hl. cbn [encode]. rewrite <- app_comm_cons, <- !app_assoc.
  apply header_ok; [done|done|]. unfold imin32. lia.
Qed.

Lemma encode_bulk_length o : (0 < length (encode_bulk o))%nat.
Proof. destruct o; simpl; lia. Qed.
End ReadLemmas.

(** ** The connection's outstanding replies *)
Module Replies.
Import Stream Read.

(** The classes derived from [BaseReply]. *)
(*@ common/redispp.h 122-186 QueuedReply, VoidReply and the other reply classes *)
Inductive kind := Void | Bool_ | Int_ | String_ | MultiBulk | Queued.
#[export] Instance kind_eq_dec : EqDecision kind.
Proof. solve_decision. Defined.

(*@ common/redispp.h 114-120 TransactionState *)
Inductive tstate := Blank | Dirty | Aborted | Committed.
#[export] Instance tstate_eq_dec : EqDecision tstate.
Proof. solve_decision. Defined.

Inductive value := VBool (b : bool) | VInt (z : Z) | VStr (o : option str).

(** A reply object: [conn] is whether its pointer to the connection is set; the fields after it
    are those of [VoidReply] to [StringReply] ([storedResult]), [MultiBulkEnumerator] and
    [QueuedReply] (whose [count] is [qcount] here). *)
(*@ common/redispp.h 314-371 MultiBulkEnumerator *)
Record reply := Reply { knd : kind; conn : bool; storedResult : value;
                        headerDone : bool; count_ : Z; pending : list (option str);
                        qcount : nat; qstate : tstate }.
(** The connection, and the reply objects of the program. *)
Record t := St { ioStream : Stream.t; outstandingReplies : list nat; transaction : option nat; obj : nat → reply }.

Definition set_obj (r : nat) (o : reply) (s : t) : t :=
  St (ioStream s) (outstandingReplies s) (transaction s) (fupd (obj s) r o).
Definition upd (r : nat) (f : reply → reply) : M t rexn unit := λ s, (Ok tt, set_obj r (f (obj s r)) s).
Definition set_conn b (o : reply) :=
  Reply (knd o) b (storedResult o) (headerDone o) (count_ o) (pending o) (qcount o) (qstate o).
Definition set_stored v (o : reply) :=
  Reply (knd o) (conn o) v (headerDone o) (count_ o) (pending o) (qcount o) (qstate o).
Definition set_header h c (o : reply) :=
  Reply (knd o) (conn o) (storedResult o) h c (pending o) (qcount o) (qstate o).
Definition set_pending p (o : reply) :=
  Reply (knd o) (conn o) (storedResult o) (headerDone o) (count_ o) p (qcount o) (qstate o).
Definition set_queued n q (o : reply) :=
  Reply (knd o) (conn o) (storedResult o) (headerDone o) (count_ o) (pending o) n q.
Definition on_stream {A} (m : M Stream.t rexn A) : M t rexn A := λ s,
  let '(a, i) := m (ioStream s) in (a, St i (outstandingReplies s) (transaction s) (obj s)).
Definition get_obj (r : nat) : M t rexn reply := λ s, (Ok (obj s r), s).
Definition set_transaction (q : option nat) : M t rexn unit := λ s,
  (Ok tt, St (ioStream s) (outstandingReplies s) q (obj s)).

(** The hook's [unlink]. *)
Definition unlink (r : nat) : M t rexn unit := λ s,
  (Ok tt, St (ioStream s) (filter (λ x, x ≠ r) (outstandingReplies s)) (transaction s) (obj s)).

Definition default_value (k : kind) : value :=
  match k with Void | Bool_ => VBool false | Int_ => VInt 0 | String_ | MultiBulk | Queued => VStr None end.

(*@ common/redispp.cpp 457-465 BaseReply::BaseReply *)
Definition new_reply (k : kind) (r : nat) : M t rexn unit := λ s,
  let s := St (ioStream s) (outstandingReplies s ++ [r]) (transaction s)
              (fupd (obj s) r (Reply k true (default_value k) false 0 [] 0 Blank)) in
  match transaction s with
  | Some q => upd q (λ o, set_queued (S (qcount o)) (qstate o) o) s
  | None => (Ok tt, s)
  end.

(** The elements of the list before [r]. *)
Fixpoint before (r : nat) (l : list nat) : list nat :=
  match l with x :: l => if decide (x = r) then [] else x :: before r l | [] => [] end.

Definition insert_before (new old : nat) (l : list nat) : list nat :=
  x ← l; if decide (x = old) then [new; old] else [x].

(*@ common/redispp.cpp 467-474 BaseReply::BaseReply(const BaseReply&) *)
Definition copy_reply (new old : nat) : M t rexn unit := λ s,
  let o := obj s old in
  let l := if conn o then insert_before new old (outstandingReplies s) else outstandingReplies s in
  let s := St (ioStream s) l (transaction s) (fupd (fupd (obj s) old (set_pending [] (set_conn false o))) new o) in
  unlink old s.

(** Each derived class's [readResult], open in the call for the replies before this one. *)
Section Open.
Variable readResult : nat → M t rexn unit.

Fixpoint read_all (l : list nat) : M t rexn unit :=
  match l with [] => mret tt | x :: l => readResult x ;; read_all l end.

(*@ common/redispp.cpp 487-497 BaseReply::clearPendingResults *)
Definition clearPendingResults (r : nat) : M t rexn unit := λ s,
  read_all (before r (outstandingReplies s)) s.

(** What [result] reads, by class. *)
Definition read_value (k : kind) : M t rexn value :=
  match k with
  | Void => on_stream readStatusCodeReply ;; mret (VBool true)
  | Bool_ => n ← on_stream readIntegerReply; mret (VBool (0 <? n))
  | Int_ => n ← on_stream readIntegerReply; mret (VInt n)
  | String_ | MultiBulk | Queued => o ← on_stream readBulkReply; mret (VStr o)
  end.

(*@ common/redispp.cpp 499-606 VoidReply::result, BoolReply::result, IntReply::result, StringReply::result *)
Definition result (r : nat) : M t rexn value :=
  o ← get_obj r;
  if conn o then
    clearPendingResults r ;;
    upd r (set_conn false) ;;
    v ← read_value (knd o);
    upd r (set_stored v) ;;
    unlink r ;;
    mret v
  else mret (storedResult o).

(** [ioStream >> code >> count] into the enumerator's own [count]. *)
Definition read_count (r : nat) : M t rexn unit := λ s,
  let '(code, n, i) := read_header (count_ (obj s r)) (ioStream s) in
  let s := set_obj r (set_header true n (obj s r)) (St i (outstandingReplies s) (transaction s) (obj s)) in
  if failbit i then (Err error_reading_bulk_header, s)
  else if decide (code ≠ "*"%char) then (Err (bad_bulk_header code), s)
  else if n <? 0 then (Err multi_bulk_minus1, s)
  else (Ok tt, s).

(*@ common/redispp.cpp 626-666 MultiBulkEnumerator::nextOptional *)
Definition nextOptional (r : nat) : M t rexn (option (option str)) :=
  o ← get_obj r;
  match pending o with
  | x :: p => upd r (set_pending p) ;; mret (Some x)
  | [] =>
      if conn o then
        (if headerDone o then mret tt
         else clearPendingResults r ;; upd r (set_header true (count_ o)) ;; read_count r) ;;
        o ← get_obj r;
        if count_ o <=? 0 then upd r (set_conn false) ;; unlink r ;; mret None
        else upd r (set_header true (count_ o - 1)) ;; x ← on_stream readBulkReply; mret (Some x)
      else mret None
  end.

(** [while(nextOptional(tmp)) readPending.push_back(tmp);] *)
Fixpoint drain (n : nat) (r : nat) : M t rexn (list (option str)) :=
  match n with
  | O => throw no_reply
  | S n => x ← nextOptional r;
           match x with Some x => l ← drain n r; mret (x :: l) | None => mret [] end
  end.

(** Enough rounds for [drain]: an element is pending already or takes a byte of the input. *)
Definition rounds (r : nat) (s : t) : nat := S (length (pending (obj s r)) + length (input (ioStream s))).

(*@ common/redispp.h 350-362 MultiBulkEnumerator::readResult *)
Definition multi_readResult (r : nat) : M t rexn unit := λ s,
  let o := obj s r in
  if conn o && (negb (headerDone o) || (0 <? count_ o)) then
    (l ← drain (rounds r s) r;
     upd r (λ o, set_pending (pending o ++ l) o)) s
  else (Ok tt, s).
End Open.

(** *** QueuedReply *)
Fixpoint read_statuses (n : nat) : M t rexn unit :=
  match n with O => mret tt | S n => on_stream readStatusCodeReply ;; read_statuses n end.

(*@ common/redispp.cpp 1279-1303 QueuedReply::readResult *)
Definition queued_readResult (r : nat) : M t rexn unit :=
  o ← get_obj r;
  if conn o then
    upd r (set_conn false) ;;
    on_stream readStatusCodeReply ;;
    read_statuses (qcount o) ;;
    if decide (qstate o = Committed) then
      expectedCount ← on_stream readIntegerReply;
      if Z.of_nat (qcount o) =? expectedCount then mret tt else throw count_mismatch
    else if decide (qstate o = Aborted) then on_stream readStatusCodeReply ;; mret tt
    else mret tt
  else mret tt.

(** [readResult] of a reply reads the replies before it, which do the same: the depth is bounded
    by the length of the list. *)
(*@ common/redispp.h 177-180 readResult, by class *)
Fixpoint readResult (fuel : nat) (r : nat) : M t rexn unit :=
  match fuel with
  | O => throw no_reply
  | S fuel => λ s,
      match knd (obj s r) with
      | MultiBulk => multi_readResult (readResult fuel) r s
      | Queued => queued_readResult r s
      | _ => (result (readResult fuel) r ;; mret tt) s
      end
  end.

Definition depth (s : t) : nat := S (S (length (outstandingReplies s))).
Definition do_result (r : nat) : M t rexn value := λ s, result (readResult (depth s)) r s.
Definition do_next (r : nat) : M t rexn (option (option str)) := λ s, nextOptional (readResult (depth s)) r s.

(*@ common/redispp.cpp 668-680 MultiBulkEnumerator::next *)
Definition next (r : nat) : M t rexn (option str) :=
  x ← do_next r;
  match x with None => mret None | Some None => throw null_reply | Some (Some s) => mret (Some s) end.

(** [while(next(&tmp));] *)
Fixpoint discard (n : nat) (r : nat) : M t rexn unit :=
  match n with
  | O => throw no_reply
  | S n => x ← next r; match x with Some _ => discard n r | None => mret tt end
  end.

(*@ common/redispp.cpp 612-624 ~MultiBulkEnumerator, and ~VoidReply to ~StringReply *)
Definition destroy (r : nat) : M t rexn unit := λ s,
  let body : M t rexn unit :=
    match knd (obj s r) with
    | MultiBulk => λ s, if conn (obj s r) && (0 <? count_ (obj s r)) then discard (rounds r s) r s else (Ok tt, s)
    | Queued => mret tt
    | _ => do_result r ;; mret tt
    end in
  (catch body (λ _, mret tt) ;; unlink r) s.

(** [operator=].  The object gives up its place in the list and takes that of the other one, as a copy
    does: an object of these classes has no other members than those that are copied. *)
(*@ common/redispp.cpp 476-485 BaseReply::operator= *)
Definition base_assign (r old : nat) : M t rexn unit := unlink r ;; copy_reply r old.
(** Of VoidReply, BoolReply, IntReply and StringReply. *)
(*@ common/redispp.h 283-289 operator= *)
Definition assign_reply (r old : nat) : M t rexn unit := do_result r ;; base_assign r old.
(** Of an enumerator: what it has not read is read, but only behind its header, and the elements that
    are pending in the other one are not moved. *)
(*@ common/redispp.h 330-343 MultiBulkEnumerator::operator= *)
Definition assign_enumerator (r old : nat) : M t rexn unit := λ s,
  ((if conn (obj s r) && (0 <? count_ (obj s r)) then discard (rounds r s) r else mret tt) ;;
   s ← Prelude.get;
   let kept := pending (obj s old) in
   base_assign r old ;;
   upd old (set_pending kept) ;;
   upd r (set_pending [])) s.

(** A new connection, as far as it reads: the reply [r] of AUTH is a temporary object. *)
(*@ common/redispp.cpp 682-695 Connection::Connection *)
Definition Connection_new (password : str) (r : nat) : M t rexn unit :=
  if decide (password = []) then mret tt else new_reply Void r ;; destroy r.

(** *** Transaction: its [replies] is the reply object [q] *)

(*@ common/redispp.cpp 1236-1246 Transaction::Transaction *)
Definition Transaction_new (q : nat) : M t rexn unit :=
  new_reply Queued q ;;
  s ← Prelude.get;
  match transaction s with
  | Some _ => unlink q ;; throw in_transaction
  | None => set_transaction (Some q) ;; upd q (λ o, set_queued (qcount o) Dirty o)
  end.

(*@ common/redispp.cpp 1259-1267 Transaction::commit *)
Definition commit (q : nat) : M t rexn unit :=
  o ← get_obj q;
  if decide (qstate o = Dirty) then
    upd q (λ o, set_queued (qcount o) Committed o) ;; queued_readResult q
  else mret tt.

(*@ common/redispp.cpp 1269-1277 Transaction::abort *)
Definition abort (q : nat) : M t rexn unit :=
  o ← get_obj q;
  if decide (qstate o = Dirty) then
    upd q (λ o, set_queued (qcount o) Aborted o) ;; queued_readResult q
  else mret tt.

(*@ common/redispp.cpp 1248-1257 Transaction::~Transaction *)
Definition Transaction_delete (q : nat) : M t rexn unit :=
  catch (abort q) (λ _, mret tt) ;; set_transaction None ;; unlink q.

End Replies.
