(* ===== verification/RedisReplySpec.v ===== *)
(** * Redis replies: what the client sees

    A client may ask for the results of its commands in any order, may copy and drop reply
    objects, and each reply still yields the answer of its own command: the connection refines a
    set of independent futures ([fut]).  The invariant [rel_at] splits the list of outstanding
    replies into those with nothing left to read ([dead]) and those whose answers are the unread
    input ([live]). *)
From S2P Require Import Prelude CppString Decimal RedisCommand RedisReply.

#[local] Open Scope Z_scope.
Import Stream Read ReadLemmas Replies.

Module Pipeline.

(** ** Futures: what is left to return of each reply *)
Inductive fut := Value (v : value) | Elements (started : bool) (l : list (option str)) | Nothing.

(** The answer [a] of the server to a command of reply class [k], and the value of its result. *)
Inductive answers : kind → value → resp → Prop :=
| ans_void s : CR ∉ s → answers Void (VBool true) (RStatus s)
| ans_bool z : imin64 <= z <= imax64 → answers Bool_ (VBool (0 <? z)) (RInt z)
| ans_int z : imin64 <= z <= imax64 → answers Int_ (VInt z) (RInt z)
| ans_string o : bulk_ok o → answers String_ (VStr o) (RBulk o).

Definition multi_ok (l : list (option str)) : Prop := Forall bulk_ok l ∧ Z.of_nat (length l) <= imax32.

Definition bulks (l : list (option str)) : str := concat (map encode_bulk l).

(** Reply object [o] is attached, [u] is the part of the input it will read, [f] what it returns. *)
Definition holds (o : reply) (u : str) (f : fut) : Prop :=
  conn o = true ∧ pending o = [] ∧
  match f with
  | Value v => ∃ a, answers (knd o) v a ∧ u = encode a ∧ headerDone o = false
  | Elements b l => knd o = MultiBulk ∧ multi_ok l ∧
      (headerDone o = false ∧ b = false ∧ count_ o = 0 ∧ u = encode (RMulti l) ∨
       headerDone o = true ∧ count_ o = Z.of_nat (length l) ∧ u = bulks l)
  | Nothing => False
  end.

(** [o] has nothing left to read. *)
Definition settled (o : reply) (f : fut) : Prop :=
  match f with
  | Value v => knd o ≠ MultiBulk ∧ knd o ≠ Queued ∧ conn o = false ∧ storedResult o = v
  | Elements _ l => knd o = MultiBulk ∧ pending o = l ∧ (conn o = false ∨ headerDone o = true ∧ count_ o = 0)
  | Nothing => knd o = Queued ∧ conn o = false
  end.

Record rel_at (s : t) (A : gmap nat fut) (w : str) (dead live : list nat) (U : nat → str) : Prop := {
  r_ws : Forall (λ c, is_ws c = true) w;
  r_list : outstandingReplies s = dead ++ live;
  r_nodup : NoDup (dead ++ live);
  r_input : ioStream s = mk (w ++ concat (map U live)) false;
  r_dead : Forall (λ r, is_Some (A !! r)) dead;
  r_settled r f : A !! r = Some f → r ∉ live → settled (obj s r) f;
  r_live r : r ∈ live → ∃ f, A !! r = Some f ∧ holds (obj s r) (U r) f;
  r_first r l : live = r :: l → Forall (λ x, headerDone (obj s x) = false) l }.

Definition rel (s : t) (A : gmap nat fut) : Prop := transaction s = None ∧ ∃ w dead live U, rel_at s A w dead live U.

(** The objects other than [r] are the same. *)
Definition only (r : nat) (s s' : t) : Prop := transaction s' = transaction s ∧ ∀ x, x ≠ r → obj s' x = obj s x.

(** ** Replies with nothing left to read *)
Definition idle (o : reply) : Prop := ∃ f, settled o f.

Lemma idle_noop n s r : idle (obj s r) → readResult (S n) r s = (Ok tt, s).
Proof.
  intros [f Hf]. simpl. destruct f as [v|b l|]; simpl in Hf.
  - destruct Hf as (Hk1 & Hk2 & Hc & _).
    assert (result (readResult n) r s = (Ok (storedResult (obj s r)), s)) as E.
    { unfold result, get_obj, mbind, M_bind. rewrite Hc. done. }
    unfold mbind, M_bind. rewrite E. by destruct (knd (obj s r)).
  - destruct Hf as (-> & Hp & Hc). unfold multi_readResult. destruct Hc as [->|[-> ->]]; [done|].
    simpl. by rewrite andb_false_r.
  - destruct Hf as (-> & Hc). unfold queued_readResult, get_obj, mbind, M_bind. by rewrite Hc.
Qed.

Lemma read_all_idle n s l : Forall (λ r, idle (obj s r)) l → read_all (readResult (S n)) l s = (Ok tt, s).
Proof.
  induction 1 as [|r l Hr Hl IH]; [done|]. cbn [read_all]. unfold mbind, M_bind. by rewrite idle_noop.
Qed.

Lemma before_app r l1 l2 : r ∉ l1 → before r (l1 ++ r :: l2) = l1.
Proof.
  induction l1 as [|x l1 IH]; simpl; intros Hn; [by rewrite decide_True|].
  rewrite decide_False by set_solver. by rewrite IH by set_solver.
Qed.

Lemma rel_dead_idle s A w dead live U : rel_at s A w dead live U → Forall (λ r, idle (obj s r)) dead.
Proof.
  intros H. pose proof (r_dead _ _ _ _ _ _ H) as Hd. apply Forall_forall. intros r Hr.
  rewrite Forall_forall in Hd. destruct (Hd r Hr) as [f Hf]. exists f. eapply r_settled; eauto.
  pose proof (r_nodup _ _ _ _ _ _ H) as Hn. apply NoDup_app in Hn as (_ & Hn & _). eauto.
Qed.

(** With nothing to read before it, [clearPendingResults] does nothing. *)
Lemma clear_first n s A w dead r live U :
  rel_at s A w dead (r :: live) U → clearPendingResults (readResult (S n)) r s = (Ok tt, s).
Proof.
  intros H. unfold clearPendingResults. rewrite (r_list _ _ _ _ _ _ H), before_app.
  - by apply read_all_idle, (rel_dead_idle s A w dead (r :: live) U).
  - pose proof (r_nodup _ _ _ _ _ _ H) as Hn. apply NoDup_app in Hn as (_ & Hn & _). set_solver.
Qed.

Lemma filter_ne_all r (l : list nat) : r ∉ l → filter (λ x, x ≠ r) l = l.
Proof.
  induction l as [|x l IH]; intros Hr; [done|]. rewrite filter_cons_True by set_solver. f_equal. apply IH. set_solver.
Qed.

(** Reading of the first live reply is over: it leaves the list, or stays there with nothing to
    read. *)
Lemma rel_pop s s' A w w' dead r live U f (keep : bool) :
  rel_at s A w dead (r :: live) U → Forall (λ c, is_ws c = true) w' →
  outstandingReplies s' = (if keep then outstandingReplies s else filter (λ x, x ≠ r) (outstandingReplies s)) →
  ioStream s' = mk (w' ++ concat (map U live)) false → only r s s' → settled (obj s' r) f →
  rel_at s' (<[r:=f]> A) w' (if keep then dead ++ [r] else dead) live U.
Proof.
  intros [H1 H2 H3 H4 H5 H6 H7 H8] Hw Hl Hi [Ht Ho] Hf.
  assert (Hn := H3). apply NoDup_app in Hn as (Hn1 & Hn2 & Hn3). apply NoDup_cons in Hn3 as [Hr Hn3].
  assert (Hrd : r ∉ dead) by set_solver.
  assert (Ho' : ∀ x, x ∈ live → obj s' x = obj s x) by (intros x Hx; apply Ho; set_solver).
  split; [done| | |done| | | |].
  - rewrite Hl, H2. destruct keep; [by rewrite <- app_assoc|].
    rewrite filter_app, filter_cons_False by naive_solver.
    by rewrite !filter_ne_all.
  - destruct keep; [by rewrite <- app_assoc|]. apply NoDup_app. split_and!; [done|set_solver|done].
  - assert (Forall (λ x, is_Some (<[r:=f]> A !! x)) dead) as Hd.
    { eapply Forall_impl; [exact H5|]. intros x Hx. simpl in *. destruct (decide (x = r)) as [->|].
      - rewrite lookup_insert_eq. eauto.
      - by rewrite lookup_insert_ne. }
    destruct keep; [|done]. apply Forall_app. split; [done|]. constructor; [|by constructor].
    rewrite lookup_insert_eq. eauto.
  - intros x g Hx Hnx. destruct (decide (x = r)) as [->|Hne].
    + rewrite lookup_insert_eq in Hx. by injection Hx as <-.
    + rewrite lookup_insert_ne in Hx by done. rewrite Ho by done. apply H6; set_solver.
  - intros x Hx. assert (x ≠ r) by set_solver. rewrite lookup_insert_ne, Ho by done. apply H7. set_solver.
  - intros x l ->. specialize (H8 r (x :: l) eq_refl). apply Forall_cons in H8 as [_ H8].
    rewrite Forall_forall in H8 |- *. intros y Hy. rewrite Ho' by set_solver. by apply H8.
Qed.

(** ** Reading the first live reply *)
Lemma read_value_ok k v a s w rest :
  answers k v a → Forall (λ c, is_ws c = true) w → ioStream s = mk (w ++ encode a ++ rest) false →
  ∃ w', Forall (λ c, is_ws c = true) w' ∧
    read_value k s = (Ok v, St (mk (w' ++ rest) false) (outstandingReplies s) (transaction s) (obj s)).
Proof.
  intros Ha Hw Hi. destruct Ha as [z Hz|z Hz|z Hz|o Ho]; unfold read_value, on_stream, mbind, M_bind, mret, M_ret; rewrite Hi.
  - exists [LF]. split; [apply ws_LF|]. by rewrite status_ok.
  - exists crlf. split; [apply ws_crlf|]. by rewrite integer_ok.
  - exists crlf. split; [apply ws_crlf|]. by rewrite integer_ok.
  - exists crlf. split; [apply ws_crlf|]. cbn [encode]. by rewrite bulk_read.
Qed.

Lemma answers_kind k v a : answers k v a → k ≠ MultiBulk ∧ k ≠ Queued.
Proof. by destruct 1. Qed.

(** [result] of the first live reply. *)
Lemma result_first n s A w dead r live U v :
  rel_at s A w dead (r :: live) U → A !! r = Some (Value v) →
  ∃ s' w', result (readResult (S n)) r s = (Ok v, s') ∧ rel_at s' A w' dead live U ∧ only r s s'.
Proof.
  intros H HA. destruct (r_live _ _ _ _ _ _ H r) as (f & Hf & Hc & Hp & Hh); [set_solver|]. simplify_eq.
  destruct Hh as (a & Ha & HU & Hhd). pose proof (r_input _ _ _ _ _ _ H) as Hi.
  unfold result. erewrite run_Ok by done. rewrite Hc. erewrite run_Ok by eapply clear_first, H.
  erewrite run_Ok by done. set (s1 := set_obj r _ s).
  cbn [map concat] in Hi. rewrite HU, <- ?app_assoc in Hi.
  destruct (read_value_ok _ _ _ s1 w (concat (map U live)) Ha (r_ws _ _ _ _ _ _ H)) as (w' & Hw' & E); [done|].
  erewrite run_Ok by exact E. erewrite run_Ok by done. erewrite run_Ok by done.
  eexists _, w'. split; [reflexivity|].
  match goal with |- rel_at ?x _ _ _ _ _ ∧ _ => set (s' := x) end.
  assert (only r s s') as Ho by (split; [done|]; intros x Hx; simpl; by rewrite !fupd_ne).
  split; [|exact Ho]. rewrite <- (insert_id A r (Value v)) by done.
  eapply (rel_pop s _ A w w' dead r live U (Value v) false); try done.
  destruct (answers_kind _ _ _ Ha). simpl. rewrite !fupd_eq. done.
Qed.

(** ** Reading the first live reply, a multi bulk *)

(** Enumerator [r] has read its header and has the elements [l] to read. *)
Record active (s : t) (r : nat) (l : list (option str)) (rest : str) : Prop := {
  ac_knd : knd (obj s r) = MultiBulk;
  ac_conn : conn (obj s r) = true;
  ac_pending : pending (obj s r) = [];
  ac_header : headerDone (obj s r) = true;
  ac_count : count_ (obj s r) = Z.of_nat (length l);
  ac_ok : Forall bulk_ok l;
  ac_input : ∃ w, Forall (λ c, is_ws c = true) w ∧ ioStream s = mk (w ++ bulks l ++ rest) false }.

Lemma next_element rr s r x l rest :
  active s r (x :: l) rest →
  ∃ s', nextOptional rr r s = (Ok (Some x), s') ∧ active s' r l rest ∧
        outstandingReplies s' = outstandingReplies s ∧ only r s s'.
Proof.
  intros [Hk Hc Hp Hh Hn Hok (w & Hw & Hi)]. apply Forall_cons in Hok as [Hx Hok]. simpl length in Hn.
  unfold nextOptional. erewrite run_Ok by done. rewrite Hp, Hc, Hh. erewrite run_Ok by done.
  erewrite run_Ok by done. rewrite Hn, Nat2Z.inj_succ.
  destruct (Z.leb_spec (Z.succ (Z.of_nat (length l))) 0); [lia|]. erewrite run_Ok by done.
  set (s1 := set_obj r _ s). assert (ioStream s1 = mk (w ++ encode_bulk x ++ bulks l ++ rest) false) as Hi1.
  { simpl. rewrite Hi. unfold bulks. simpl. by rewrite <- app_assoc. }
  unfold on_stream. unfold mbind, M_bind. rewrite Hi1, bulk_read by done. eexists. split; [reflexivity|].
  split_and!; [|done|split; [done|]; intros y Hy; simpl; by rewrite !fupd_ne].
  split; simpl; rewrite ?fupd_eq; simpl; try done; [lia|]. exists crlf. split; [apply ws_crlf|done].
Qed.

Lemma next_end rr s r rest :
  active s r [] rest →
  ∃ s', nextOptional rr r s = (Ok None, s') ∧ ioStream s' = ioStream s ∧
        outstandingReplies s' = filter (λ x, x ≠ r) (outstandingReplies s) ∧ only r s s' ∧
        knd (obj s' r) = MultiBulk ∧ pending (obj s' r) = [] ∧ conn (obj s' r) = false.
Proof.
  intros [Hk Hc Hp Hh Hn _ _]. unfold nextOptional. erewrite run_Ok by done. rewrite Hp, Hc, Hh.
  erewrite run_Ok by done. erewrite run_Ok by done. rewrite Hn.
  change (Z.of_nat (length (@nil (option str))) <=? 0) with true. cbv iota.
  erewrite run_Ok by done. erewrite run_Ok by done. eexists. split; [reflexivity|].
  split_and!; try done; [split; [done|]; intros y Hy|..]; simpl; rewrite ?fupd_eq, ?fupd_ne; done.
Qed.

(** The whole enumeration: its elements in order, and the enumerator leaves the list. *)
Lemma drain_active rr n s r l rest :
  active s r l rest → (length l < n)%nat →
  ∃ s' w', drain rr n r s = (Ok l, s') ∧ Forall (λ c, is_ws c = true) w' ∧ ioStream s' = mk (w' ++ rest) false ∧
    outstandingReplies s' = filter (λ x, x ≠ r) (outstandingReplies s) ∧ only r s s' ∧
    knd (obj s' r) = MultiBulk ∧ pending (obj s' r) = [] ∧ conn (obj s' r) = false.
Proof.
  revert n s. induction l as [|x l IH]; intros [|n] s Ha Hn; simpl in Hn; try lia.
  - destruct (next_end rr s r rest Ha) as (s' & E & Hi & Hl & Ho & H1 & H2 & H3).
    destruct (ac_input _ _ _ _ Ha) as (w & Hw & Hw'). exists s', w. cbn [drain]. erewrite run_Ok by exact E.
    split_and!; try done. by rewrite Hi.
  - destruct (next_element rr s r x l rest Ha) as (s1 & E & Ha1 & Hl1 & [Ht1 Ho1]).
    destruct (IH n s1 Ha1 ltac:(lia)) as (s' & w' & E' & Hw' & Hi & Hl & [Ht Ho] & H123).
    exists s', w'. cbn [drain]. erewrite run_Ok by exact E. cbv beta iota. erewrite run_Ok by exact E'.
    split_and!; try done; [by rewrite Hl, Hl1| |by apply H123..]. split; [congruence|]. intros y Hy. by rewrite Ho, Ho1.
Qed.

(** A first live enumerator becomes active when it is first asked for an element. *)
Lemma next_header n s A w dead r live U b l :
  rel_at s A w dead (r :: live) U → A !! r = Some (Elements b l) →
  ∃ s1, active s1 r l (concat (map U live)) ∧ nextOptional (readResult (S n)) r s = nextOptional (readResult (S n)) r s1 ∧
        outstandingReplies s1 = outstandingReplies s ∧ only r s s1.
Proof.
  intros H HA. destruct (r_live _ _ _ _ _ _ H r) as (f & Hf & Hc & Hp & Hh); [set_solver|]. simplify_eq.
  destruct Hh as (Hk & [Hok Hlen] & Hh). pose proof (r_input _ _ _ _ _ _ H) as Hi. pose proof (r_ws _ _ _ _ _ _ H) as Hw.
  cbn [map concat] in Hi. destruct Hh as [(Hhd & _ & Hn & HU)|(Hhd & Hn & HU)].
  - set (s1 := St (mk (crlf ++ bulks l ++ concat (map U live)) false) (outstandingReplies s) (transaction s)
                  (fupd (fupd (obj s) r (set_header true 0 (obj s r))) r (set_header true (Z.of_nat (length l)) (obj s r)))).
    assert (active s1 r l (concat (map U live))) as Ha.
    { split; simpl; rewrite ?fupd_eq; try done. exists crlf. split; [apply ws_crlf|done]. }
    exists s1. split_and!; [done| |done|split; [done|]; intros y Hy; simpl; by rewrite !fupd_ne].
    assert (nextOptional (readResult (S n)) r s =
      (o ← get_obj r;
       if count_ o <=? 0 then upd r (set_conn false) ;; unlink r ;; mret None
       else upd r (set_header true (count_ o - 1)) ;; x ← on_stream readBulkReply; mret (Some x)) s1) as ->.
    { unfold nextOptional. erewrite run_Ok by done. rewrite Hp, Hc, Hhd. erewrite run_Ok; [reflexivity|].
      erewrite run_Ok by eapply clear_first, H. erewrite run_Ok by done. rewrite Hn.
      unfold read_count. simpl ioStream. simpl obj. rewrite fupd_eq. cbn [count_ set_header]. rewrite Hi, HU.
      rewrite multi_header_ok by done. cbn [failbit]. rewrite decide_False by naive_solver.
      destruct (Z.ltb_spec (Z.of_nat (length l)) 0); [lia|]. done. }
    unfold nextOptional. symmetry. erewrite run_Ok by done. destruct Ha as [_ -> -> -> _ _ _]. by erewrite run_Ok by done.
  - exists s. split_and!; [|done|done|by split]. split; try done. exists w. split; [done|]. by rewrite Hi, HU.
Qed.

Lemma bulks_length l : (length l <= length (bulks l))%nat.
Proof.
  induction l as [|o l IH]; [done|]. unfold bulks. simpl. rewrite length_app. pose proof (encode_bulk_length o).
  unfold bulks in IH. simpl. lia.
Qed.

Lemma readResult_first n s A w dead r live U :
  rel_at s A w dead (r :: live) U →
  ∃ s' w' dead', readResult (S (S n)) r s = (Ok tt, s') ∧ rel_at s' A w' dead' live U ∧ only r s s'.
Proof.
  intros H. destruct (r_live _ _ _ _ _ _ H r) as (f & Hf & Hc & Hp & Hh); [set_solver|]. destruct f as [v|b l|]; [| |done].
  - destruct Hh as (a & Ha & _). destruct (answers_kind _ _ _ Ha) as [Hk1 Hk2].
    destruct (result_first n s A w dead r live U v H Hf) as (s' & w' & E & H' & Ho). exists s', w', dead.
    split_and!; [|done|done]. cbn [readResult].
    destruct (knd (obj s r)) eqn:Hk; try done; by erewrite run_Ok by exact E.
  - destruct Hh as (Hk & [Hok Hlen] & Hh). cbn [readResult]. rewrite Hk. unfold multi_readResult. rewrite Hc. simpl andb.
    destruct (negb (headerDone (obj s r)) || (0 <? count_ (obj s r))) eqn:Hb.
    + destruct (next_header n s A w dead r live U b l H Hf) as (s1 & Ha & E & Hl1 & [Ht1 Ho1]).
      assert (length l < rounds r s)%nat as Hr.
      { unfold rounds. pose proof (bulks_length l). rewrite (r_input _ _ _ _ _ _ H). simpl. rewrite !length_app.
        destruct Hh as [(_ & _ & _ & ->)|(_ & _ & ->)]; [|lia]. cbn [encode]. rewrite length_cons, !length_app.
        fold (bulks l). lia. }
      assert (drain (readResult (S n)) (rounds r s) r s = drain (readResult (S n)) (rounds r s) r s1) as Ed.
      { destruct (rounds r s) as [|m]; [lia|]. cbn [drain]. unfold mbind at 1 3, M_bind at 1 2. by rewrite E. }
      destruct (drain_active (readResult (S n)) (rounds r s) s1 r l _ Ha Hr)
        as (s' & w' & E' & Hw' & Hi & Hl & [Ht Ho] & Hk' & Hp' & Hc').
      rewrite <- Ed in E'. erewrite run_Ok by exact E'. eexists _, w', dead. split; [reflexivity|].
      assert (only r s (set_obj r (set_pending (pending (obj s' r) ++ l) (obj s' r)) s')) as Hon.
      { split; [simpl; congruence|]. intros x Hx. simpl. rewrite fupd_ne by done. by rewrite Ho, Ho1. }
      split; [|exact Hon]. rewrite <- (insert_id A r (Elements b l)) by done.
      eapply (rel_pop s _ A w w' dead r live U (Elements b l) false); try done.
      * simpl. by rewrite Hl, Hl1.
      * simpl. rewrite !fupd_eq. simpl. rewrite Hp'. auto.
    + exists s, w, (dead ++ [r]). split; [done|]. split; [|by split].
      apply orb_false_iff in Hb as [Hhd%negb_false_iff Hb%Z.ltb_ge].
      destruct Hh as [(Hn & _)|(_ & Hn & HU)]; [congruence|]. assert (l = []) as -> by (destruct l; [done|simpl in *; lia]).
      rewrite <- (insert_id A r (Elements b [])) by done.
      eapply (rel_pop s s A w w dead r live U (Elements b []) true); try done.
      * apply (r_ws _ _ _ _ _ _ H).
      * rewrite (r_input _ _ _ _ _ _ H). cbn [map concat]. by rewrite HU.
      * simpl. auto.
Qed.

(** [clearPendingResults] of a live reply reads the answers before its own. *)
Lemma read_all_app n s l1 l2 s' :
  read_all (readResult n) l1 s = (Ok tt, s') → read_all (readResult n) (l1 ++ l2) s = read_all (readResult n) l2 s'.
Proof.
  revert s. induction l1 as [|x l1 IH]; intros s; simpl; [by intros [= <-]|].
  intros (a & s1 & E1 & E2)%bind_Ok. erewrite run_Ok by exact E1. by apply IH.
Qed.

Lemma read_all_live n A l s w dead r live U :
  rel_at s A w dead (l ++ r :: live) U →
  ∃ s' w' dead', read_all (readResult (S (S n))) l s = (Ok tt, s') ∧ rel_at s' A w' dead' (r :: live) U ∧
    transaction s' = transaction s ∧ obj s' r = obj s r.
Proof.
  revert s w dead. induction l as [|x l IH]; intros s w dead H; [by exists s, w, dead|].
  destruct (readResult_first n s A w dead x (l ++ r :: live) U H) as (s1 & w1 & d1 & E & H1 & [Ht Ho]).
  destruct (IH s1 w1 d1 H1) as (s' & w' & d' & E' & H' & Ht' & Ho'). exists s', w', d'. cbn [read_all].
  erewrite run_Ok by exact E. split_and!; try done; [congruence|]. rewrite Ho'. apply Ho. intros ->.
  pose proof (r_nodup _ _ _ _ _ _ H) as Hn. apply NoDup_app in Hn as (_ & _ & Hn). apply NoDup_cons in Hn. set_solver.
Qed.

Lemma clear_live n s A w dead l r live U :
  rel_at s A w dead (l ++ r :: live) U →
  ∃ s' w' dead', clearPendingResults (readResult (S (S n))) r s = (Ok tt, s') ∧ rel_at s' A w' dead' (r :: live) U ∧
    transaction s' = transaction s ∧ obj s' r = obj s r.
Proof.
  intros H. unfold clearPendingResults. rewrite (r_list _ _ _ _ _ _ H), app_assoc, before_app.
  - destruct (read_all_live n A l s w dead r live U H) as (s' & w' & d' & E & H' & Ht & Ho).
    exists s', w', d'. split_and!; try done. rewrite <- E. apply read_all_app.
    apply read_all_idle. by apply (rel_dead_idle s A w dead (l ++ r :: live) U).
  - pose proof (r_nodup _ _ _ _ _ _ H) as Hn. rewrite app_assoc in Hn. apply NoDup_app in Hn as (_ & Hn & _). set_solver.
Qed.

(** ** The operations of the program on reply objects *)
Lemma result_reach rr r s s1 :
  conn (obj s r) = true → obj s1 r = obj s r →
  clearPendingResults rr r s = (Ok tt, s1) → clearPendingResults rr r s1 = (Ok tt, s1) →
  result rr r s = result rr r s1.
Proof.
  intros Hc Ho E E1. unfold result. erewrite run_Ok by done. symmetry. erewrite run_Ok by done. rewrite Ho, Hc.
  erewrite run_Ok by exact E1. symmetry. by erewrite run_Ok by exact E.
Qed.

Lemma next_reach rr r s s1 :
  conn (obj s r) = true → pending (obj s r) = [] → headerDone (obj s r) = false → obj s1 r = obj s r →
  clearPendingResults rr r s = (Ok tt, s1) → clearPendingResults rr r s1 = (Ok tt, s1) →
  nextOptional rr r s = nextOptional rr r s1.
Proof.
  intros Hc Hp Hh Ho E E1. unfold nextOptional. erewrite run_Ok by done. symmetry. erewrite run_Ok by done.
  rewrite Ho, Hp, Hc, Hh, !bind_assoc. erewrite run_Ok by exact E1. symmetry. by erewrite run_Ok by exact E.
Qed.

(** A live reply comes first once the ones before it are read. *)
Lemma live_first n s A w dead live U r :
  rel_at s A w dead live U → r ∈ live →
  ∃ s1 w1 d1 l1, rel_at s1 A w1 d1 (r :: l1) U ∧ transaction s1 = transaction s ∧ obj s1 r = obj s r ∧
    result (readResult (S (S n))) r s = result (readResult (S (S n))) r s1 ∧
    nextOptional (readResult (S (S n))) r s = nextOptional (readResult (S (S n))) r s1.
Proof.
  intros H Hr. destruct (r_live _ _ _ _ _ _ H r Hr) as (f & Hf & Hc & Hp & Hh).
  apply list_elem_of_split in Hr as (l & l' & ->).
  destruct (clear_live n s A w dead l r l' U H) as (s1 & w1 & d1 & E & H1 & Ht & Ho).
  pose proof (clear_first (S n) s1 A w1 d1 r l' U H1) as E1.
  destruct (headerDone (obj s r)) eqn:Hhd.
  - destruct l as [|x l].
    + exists s, w, dead, l'. by split_and!.
    + exfalso. pose proof (r_first _ _ _ _ _ _ H x _ eq_refl) as Hx. rewrite Forall_forall in Hx.
      rewrite Hx in Hhd; [done|set_solver].
  - exists s1, w1, d1, l'. split_and!; try done; [by apply result_reach|by apply next_reach].
Qed.

(** A change to a reply that is not live. *)
Lemma rel_upd s s' A w dead live U r f :
  rel_at s A w dead live U → r ∉ live → only r s s' → ioStream s' = ioStream s → settled (obj s' r) f →
  (outstandingReplies s' = outstandingReplies s ∨ outstandingReplies s' = filter (λ x, x ≠ r) (outstandingReplies s)) →
  ∃ dead', rel_at s' (<[r:=f]> A) w dead' live U.
Proof.
  intros [H1 H2 H3 H4 H5 H6 H7 H8] Hr [Ht Ho] Hi Hf Hl.
  assert (∀ x, x ∈ live → obj s' x = obj s x) as Ho' by (intros x Hx; apply Ho; congruence).
  assert (∃ dead', outstandingReplies s' = dead' ++ live ∧ NoDup (dead' ++ live) ∧ ∀ x, x ∈ dead' → x ∈ dead) as (dead' & Hl' & Hn & Hd).
  { destruct Hl as [->| ->]; [by exists dead|]. exists (filter (λ x, x ≠ r) dead). rewrite H2, filter_app, (filter_ne_all r live) by done.
    split; [done|]. split; [|by intros x [_ Hx]%list_elem_of_filter]. apply NoDup_app in H3 as (Ha & Hb & Hc). apply NoDup_app. split_and!; [by apply NoDup_filter| |done]. intros x [_ Hx]%list_elem_of_filter. auto. }
  exists dead'. split; [done|done|done|by rewrite Hi| | | |].
  - apply Forall_forall. intros x Hx. rewrite Forall_forall in H5. destruct (decide (x = r)) as [->|].
    + rewrite lookup_insert_eq. eauto.
    + rewrite lookup_insert_ne by done. auto.
  - intros x g Hx Hnx. destruct (decide (x = r)) as [->|].
    + rewrite lookup_insert_eq in Hx. by injection Hx as <-.
    + rewrite lookup_insert_ne in Hx by done. rewrite Ho by done. auto.
  - intros x Hx. rewrite lookup_insert_ne, Ho' by (done || by intros ->). auto.
  - intros x l ->. rewrite Forall_forall. intros y Hy. rewrite Ho' by set_solver.
    pose proof (H8 _ _ eq_refl) as Hf8. rewrite Forall_forall in Hf8. auto.
Qed.

(** The first live enumerator has read its header or an element. *)
Lemma rel_active s s' A w dead r live U b l :
  rel_at s A w dead (r :: live) U → only r s s' → outstandingReplies s' = outstandingReplies s →
  active s' r l (concat (map U live)) → Z.of_nat (length l) <= imax32 →
  ∃ w', rel_at s' (<[r:=Elements b l]> A) w' dead (r :: live) (fupd U r (bulks l)).
Proof.
  intros [H1 H2 H3 H4 H5 H6 H7 H8] [Ht Ho] Hl [K1 K2 K3 K4 K5 K6 (w' & Hw & Hi)] Hlen.
  assert (Hn := H3). apply NoDup_app in Hn as (_ & Hn2 & Hn3). apply NoDup_cons in Hn3 as [Hr _].
  assert (∀ x, x ∈ live → x ≠ r) as Hne by (intros x Hx ->; done).
  exists w'. split; [done|by rewrite Hl|done| | | | |].
  - rewrite Hi. cbn [map concat]. rewrite fupd_eq. do 3 f_equal. f_equal. apply map_ext_in. intros x Hx%list_elem_of_In.
    by rewrite fupd_ne by auto.
  - eapply Forall_impl; [exact H5|]. intros x Hx. simpl. destruct (decide (x = r)) as [->|].
    + rewrite lookup_insert_eq. eauto.
    + by rewrite lookup_insert_ne.
  - intros x g Hx Hnx. rewrite lookup_insert_ne in Hx by set_solver. rewrite Ho by set_solver. auto.
  - intros x Hx. destruct (decide (x = r)) as [->|Hxr].
    + rewrite lookup_insert_eq, fupd_eq. eexists. split; [done|].
      split; [done|]. split; [done|]. split; [done|]. split; [by split|right; done].
    + rewrite lookup_insert_ne, fupd_ne, Ho by done. auto.
  - intros x l' [= <- <-]. specialize (H8 _ _ eq_refl). rewrite Forall_forall in H8 |- *. intros y Hy. rewrite Ho by auto. auto.
Qed.

Lemma settled_fut s A w dead live U r f :
  rel_at s A w dead live U → A !! r = Some f → r ∉ live → settled (obj s r) f.
Proof. intros H. apply (r_settled _ _ _ _ _ _ H). Qed.

(** [result]: the value of the answer, and the reply is read. *)
Lemma do_result_at s A w dead live U r v :
  rel_at s A w dead live U → A !! r = Some (Value v) →
  ∃ s' w' dead' live', do_result r s = (Ok v, s') ∧ rel_at s' A w' dead' live' U ∧ r ∉ live' ∧ transaction s' = transaction s.
Proof.
  intros H Hf. unfold do_result, depth. destruct (decide (r ∈ live)) as [Hr|Hr].
  - destruct (live_first (length (outstandingReplies s)) s A w dead live U r H Hr) as (s1 & w1 & d1 & l1 & H1 & Ht & _ & E & _).
    destruct (result_first (S (length (outstandingReplies s))) s1 A w1 d1 r l1 U v H1 Hf) as (s' & w' & E' & H' & [Ht' _]).
    exists s', w', d1, l1. rewrite E. split_and!; [exact E'|done| |congruence].
    pose proof (r_nodup _ _ _ _ _ _ H1) as Hn. apply NoDup_app in Hn as (_ & _ & Hn). by apply NoDup_cons in Hn as [? _].
  - exists s, w, dead, live. split_and!; try done. destruct (settled_fut _ _ _ _ _ _ _ _ H Hf Hr) as (_ & _ & Hc & <-).
    unfold result. erewrite run_Ok by done. by rewrite Hc.
Qed.

(** [nextOptional]: the next element. *)
Lemma do_next_at s A w dead live U r b l :
  rel_at s A w dead live U → A !! r = Some (Elements b l) →
  ∃ s' w' dead' live' U', do_next r s = (Ok (head l), s') ∧
    rel_at s' (<[r := Elements true (tail l)]> A) w' dead' live' U' ∧ transaction s' = transaction s.
Proof.
  intros H Hf. unfold do_next, depth. destruct (decide (r ∈ live)) as [Hr|Hr].
  - destruct (live_first (length (outstandingReplies s)) s A w dead live U r H Hr) as (s1 & w1 & d1 & l1 & H1 & Ht1 & _ & _ & E).
    destruct (next_header (S (length (outstandingReplies s))) s1 A w1 d1 r l1 U b l H1 Hf) as (s2 & Ha & E2 & Hl2 & [Ht2 Ho2]).
    rewrite E, E2. assert (multi_ok l) as [Hok Hlen].
    { destruct (r_live _ _ _ _ _ _ H1 r) as (f & Hf' & _ & _ & Hh); [set_solver|]. simplify_eq. by destruct Hh as (_ & ? & _). }
    destruct l as [|x l].
    + destruct (next_end (readResult (S (S (length (outstandingReplies s))))) s2 r _ Ha)
        as (s' & E' & Hi & Hl & [Ht' Ho'] & Hk & Hp & Hc).
      destruct (ac_input _ _ _ _ Ha) as (w' & Hw' & Hi'). exists s', w', d1, l1, U. split; [exact E'|]. split; [|congruence].
      eapply (rel_pop s1 s' A w1 w' d1 r l1 U (Elements true []) false); try done.
      * by rewrite Hl, Hl2.
      * by rewrite Hi, Hi'.
      * split; [congruence|]. intros y Hy. by rewrite Ho', Ho2.
      * simpl. auto.
    + destruct (next_element (readResult (S (S (length (outstandingReplies s))))) s2 r x l _ Ha) as (s' & E' & Ha' & Hl & [Ht' Ho']).
      destruct (rel_active s1 s' A w1 d1 r l1 U true l H1) as (w' & H'); [|by rewrite Hl, Hl2|done|simpl in Hlen; lia|].
      { split; [congruence|]. intros y Hy. by rewrite Ho', Ho2. }
      exists s', w', d1, (r :: l1), (fupd U r (bulks l)). split; [exact E'|]. split; [exact H'|congruence].
  - destruct (settled_fut _ _ _ _ _ _ _ _ H Hf Hr) as (Hk & Hp & Hc).
    assert (∃ s', nextOptional (readResult (S (S (length (outstandingReplies s))))) r s = (Ok (head l), s') ∧ only r s s' ∧
      ioStream s' = ioStream s ∧ settled (obj s' r) (Elements true (tail l)) ∧
      (outstandingReplies s' = outstandingReplies s ∨ outstandingReplies s' = filter (λ x, x ≠ r) (outstandingReplies s)))
      as (s' & E & Ho & Hi & Hs & Hl).
    { unfold nextOptional. erewrite run_Ok by done. rewrite Hp. destruct l as [|x l].
      - destruct Hc as [Hc|[Hh Hn]]; [rewrite Hc; exists s; split_and!; try done; [simpl; auto|by left]|].
        destruct (conn (obj s r)) eqn:Hc; [|exists s; split_and!; try done; [simpl; auto|by left]].
        rewrite Hh. erewrite run_Ok by done. erewrite run_Ok by done. rewrite Hn. change (0 <=? 0) with true. cbv iota.
        erewrite run_Ok by done. erewrite run_Ok by done. eexists. split; [reflexivity|].
        split_and!; try done; [split; [done|]; intros y Hy; simpl; by rewrite fupd_ne|simpl; rewrite fupd_eq; auto|by right].
      - erewrite run_Ok by done. eexists. split; [reflexivity|].
        split_and!; try done; [split; [done|]; intros y Hy; simpl; by rewrite fupd_ne|simpl; rewrite fupd_eq; simpl|by left].
        split_and!; try done. }
    destruct (rel_upd s s' A w dead live U r (Elements true (tail l)) H Hr Ho Hi Hs Hl) as (dead' & H').
    exists s', w, dead', live, U. split_and!; [exact E|exact H'|by destruct Ho].
Qed.

(** A new command: its answer comes after those of the commands before it. *)
Definition receive (bytes : str) : M t rexn unit := λ s,
  (Ok tt, St (mk (input (ioStream s) ++ bytes) (failbit (ioStream s))) (outstandingReplies s) (transaction s) (obj s)).

Lemma issue_at s A w dead live U r k f u :
  rel_at s A w dead live U → A !! r = None → transaction s = None →
  holds (Reply k true (default_value k) false 0 [] 0 Blank) u f →
  ∃ s', (receive u ;; new_reply k r) s = (Ok tt, s') ∧ rel_at s' (<[r:=f]> A) w dead (live ++ [r]) (fupd U r u) ∧ transaction s' = None.
Proof.
  intros [H1 H2 H3 H4 H5 H6 H7 H8] HA Ht Hh. erewrite run_Ok by done. unfold new_reply. simpl transaction. rewrite Ht.
  eexists. split; [reflexivity|]. split; [|done].
  assert (r ∉ dead) as Hd by (rewrite Forall_forall in H5; intros Hr; destruct (H5 r Hr); congruence).
  assert (r ∉ live) as Hl by (intros Hr; destruct (H7 r Hr) as (? & ? & _); congruence).
  assert (∀ x, x ∈ live → x ≠ r) as Hne by (intros x Hx ->; done).
  split; simpl; [done|by rewrite H2, <- app_assoc| | | | | |].
  - rewrite app_assoc. apply NoDup_app. split_and!; [done|set_solver|apply NoDup_singleton].
  - rewrite H4. simpl. rewrite map_app, concat_app. simpl. rewrite fupd_eq, app_nil_r, <- app_assoc. do 4 f_equal.
    apply map_ext_in. intros x Hx%list_elem_of_In. by rewrite fupd_ne by auto.
  - eapply Forall_impl; [exact H5|]. intros x Hx. simpl in *. destruct (decide (x = r)) as [->|].
    + rewrite lookup_insert_eq. eauto.
    + by rewrite lookup_insert_ne.
  - intros x g Hx Hnx. rewrite lookup_insert_ne in Hx by set_solver. rewrite fupd_ne by set_solver. apply H6; set_solver.
  - intros x [Hx|Hx]%elem_of_app.
    + rewrite lookup_insert_ne, !fupd_ne by (auto || (intros ->; done)). auto.
    + apply list_elem_of_singleton in Hx as ->. rewrite lookup_insert_eq, !fupd_eq. eauto.
  - intros x l Hx. destruct live as [|y live]; simpl in Hx; [by injection Hx as <- <-|].
    injection Hx as <- <-. specialize (H8 _ _ eq_refl). apply Forall_app. split.
    + rewrite Forall_forall in H8 |- *. intros z Hz. rewrite fupd_ne by set_solver. auto.
    + constructor; [|constructor]. by rewrite fupd_eq.
Qed.

(** Dropping a reply that is not live. *)
Lemma rel_unlink s A w dead live U r :
  rel_at s A w dead live U → r ∉ live →
  ∃ s', unlink r s = (Ok tt, s') ∧ rel_at s' (delete r A) w (filter (λ x, x ≠ r) dead) live U ∧ transaction s' = transaction s.
Proof.
  intros [H1 H2 H3 H4 H5 H6 H7 H8] Hr. eexists. split; [reflexivity|]. split; [|done].
  apply NoDup_app in H3 as (Ha & Hb & Hc). split; simpl; try done.
  - by rewrite H2, filter_app, (filter_ne_all r live).
  - apply NoDup_app. split_and!; [by apply NoDup_filter| |done]. intros x [_ Hx]%list_elem_of_filter. auto.
  - apply Forall_forall. intros x [Hx Hd]%list_elem_of_filter. rewrite Forall_forall in H5. rewrite lookup_delete_ne by done. auto.
  - intros x f [Hx Hf]%lookup_delete_Some. auto.
  - intros x Hx. rewrite lookup_delete_ne; [auto|]. by intros ->.
Qed.

(** Dropping an enumerator reads the rest of its elements, when none is null. *)
Lemma discard_active n s r l rest :
  active s r l rest → Forall is_Some l → (length l < n)%nat →
  ∃ s' w', discard n r s = (Ok tt, s') ∧ Forall (λ c, is_ws c = true) w' ∧ ioStream s' = mk (w' ++ rest) false ∧
    outstandingReplies s' = filter (λ x, x ≠ r) (outstandingReplies s) ∧ only r s s' ∧
    knd (obj s' r) = MultiBulk ∧ pending (obj s' r) = [] ∧ conn (obj s' r) = false.
Proof.
  revert n s. induction l as [|x l IH]; intros [|n] s Ha Hs Hn; simpl in Hn; try lia.
  - destruct (next_end (readResult (depth s)) s r rest Ha) as (s' & E & Hi & Hl & Ho & H1 & H2 & H3).
    destruct (ac_input _ _ _ _ Ha) as (w & Hw & Hw'). exists s', w. cbn [discard]. unfold next. rewrite bind_assoc.
    erewrite run_Ok by exact E. cbv beta iota. erewrite run_Ok by done. split_and!; try done. by rewrite Hi.
  - destruct (next_element (readResult (depth s)) s r x l rest Ha) as (s1 & E & Ha1 & Hl1 & [Ht1 Ho1]).
    apply Forall_cons in Hs as [[e ->] Hs].
    destruct (IH n s1 Ha1 Hs ltac:(lia)) as (s' & w' & E' & Hw' & Hi & Hl & [Ht Ho] & H123).
    exists s', w'. cbn [discard]. unfold next. rewrite bind_assoc. erewrite run_Ok by exact E. cbv beta iota.
    erewrite run_Ok by done. cbv beta iota. rewrite E'.
    split_and!; try done; [by rewrite Hl, Hl1| |by apply H123..]. split; [congruence|]. intros y Hy. by rewrite Ho, Ho1.
Qed.

(** What a program may drop without a further look at the connection. *)
Definition droppable (f : fut) : Prop :=
  match f with Value _ | Nothing => True | Elements started l => started = true ∧ Forall is_Some l end.

(** It is enough that the body of the destructor reads the reply. *)
Lemma drop_rest s A r s1 w1 d1 l1 U A1 (body : M t rexn unit) :
  body s = (Ok tt, s1) → rel_at s1 A1 w1 d1 l1 U → delete r A1 = delete r A → r ∉ l1 → transaction s1 = transaction s →
  ∃ s' w' dead' live', (catch body (λ _ : rexn, mret tt : M t rexn unit) ;; unlink r) s = (Ok tt, s') ∧
    rel_at s' (delete r A) w' dead' live' U ∧ transaction s' = transaction s.
Proof.
  intros E H1 HA Hr Ht. destruct (rel_unlink s1 A1 w1 d1 l1 U r H1 Hr) as (s' & E' & H' & Ht').
  exists s', w1, (filter (λ x, x ≠ r) d1), l1. rewrite <- HA. split_and!; [|done|congruence].
  erewrite run_Ok; [exact E'|]. unfold catch. by rewrite E.
Qed.

Lemma live_head s A w dead live U r :
  rel_at s A w dead live U → r ∈ live → headerDone (obj s r) = true → ∃ l1, live = r :: l1 ∧ r ∉ l1.
Proof.
  intros H Hr Hhd. pose proof (r_nodup _ _ _ _ _ _ H) as Hn. apply NoDup_app in Hn as (_ & _ & Hn).
  destruct live as [|x l1]; [set_solver|]. destruct (decide (x = r)) as [->|].
  - exists l1. by apply NoDup_cons in Hn as [? _].
  - pose proof (r_first _ _ _ _ _ _ H x l1 eq_refl) as Hx. rewrite Forall_forall in Hx. rewrite Hx in Hhd by set_solver. done.
Qed.

(** The body of [~MultiBulkEnumerator] for one that has read its header. *)
Lemma drop_elements s A w dead live U r l :
  rel_at s A w dead live U → A !! r = Some (Elements true l) → Forall is_Some l →
  ∃ s1 w1 d1 l1 A1, rel_at s1 A1 w1 d1 l1 U ∧ delete r A1 = delete r A ∧ r ∉ l1 ∧ transaction s1 = transaction s ∧
    knd (obj s r) = MultiBulk ∧
    (if conn (obj s r) && (0 <? count_ (obj s r)) then discard (rounds r s) r s else (Ok tt, s)) = (Ok tt, s1).
Proof.
  intros H Hf Hs. destruct (decide (r ∈ live)) as [Hr|Hr].
  - destruct (r_live _ _ _ _ _ _ H r Hr) as (f & Hf' & Hc & Hp & Hh). simplify_eq.
    destruct Hh as (Hk & [Hok Hlen] & [(_ & ? & _)|(Hhd & Hn & HU)]); [done|].
    destruct (live_head s A w dead live U r H Hr Hhd) as (l1 & -> & Hr1). rewrite Hc, Hn. destruct l as [|x l].
    + exists s, w, (dead ++ [r]), l1, (<[r:=Elements true []]> A). split_and!; try done; [|by rewrite delete_insert_eq].
      eapply (rel_pop s s A w w dead r l1 U (Elements true []) true); try done.
      * apply (r_ws _ _ _ _ _ _ H).
      * rewrite (r_input _ _ _ _ _ _ H). cbn [map concat]. by rewrite HU.
      * simpl. auto.
    + assert (active s r (x :: l) (concat (map U l1))) as Ha.
      { split; try done. exists w. split; [apply (r_ws _ _ _ _ _ _ H)|]. rewrite (r_input _ _ _ _ _ _ H). cbn [map concat]. by rewrite HU. }
      destruct (discard_active (rounds r s) s r (x :: l) _ Ha Hs) as (s1 & w1 & E & Hw1 & Hi & Hl & Ho & Hk' & Hp' & Hc').
      { unfold rounds. rewrite (r_input _ _ _ _ _ _ H). cbn [map concat]. rewrite HU. simpl input. rewrite !length_app.
        pose proof (bulks_length (x :: l)). lia. }
      exists s1, w1, dead, l1, (<[r:=Elements true []]> A). split_and!; try done; [|by rewrite delete_insert_eq|by destruct Ho].
      eapply (rel_pop s s1 A w w1 dead r l1 U (Elements true []) false); try done. simpl. auto.
  - destruct (settled_fut _ _ _ _ _ _ _ _ H Hf Hr) as (Hk & _ & Hc). exists s, w, dead, live, A. split_and!; try done.
    destruct Hc as [->|[_ ->]]; [done|]. by destruct (conn (obj s r)).
Qed.

Lemma destroy_at s A w dead live U r f :
  rel_at s A w dead live U → A !! r = Some f → droppable f →
  ∃ s' w' dead' live', destroy r s = (Ok tt, s') ∧ rel_at s' (delete r A) w' dead' live' U ∧ transaction s' = transaction s.
Proof.
  intros H Hf Hd. unfold destroy. destruct f as [v|b l|].
  - destruct (do_result_at s A w dead live U r v H Hf) as (s1 & w1 & d1 & l1 & E & H1 & Hr1 & Ht1).
    eapply (drop_rest s A r s1 w1 d1 l1 U A); try done.
    assert (knd (obj s r) ≠ MultiBulk ∧ knd (obj s r) ≠ Queued) as [Hk1 Hk2].
    { destruct (decide (r ∈ live)) as [Hr|Hr].
      - destruct (r_live _ _ _ _ _ _ H r Hr) as (f & Hf' & _ & _ & Hh). simplify_eq. destruct Hh as (a & Ha & _). by eapply answers_kind.
      - destruct (settled_fut _ _ _ _ _ _ _ _ H Hf Hr) as (? & ? & _). done. }
    destruct (knd (obj s r)); try done; by erewrite run_Ok by exact E.
  - destruct Hd as [-> Hs].
    destruct (drop_elements s A w dead live U r l H Hf Hs) as (s1 & w1 & d1 & l1 & A1 & H1 & HA & Hr & Ht & Hk & E).
    eapply (drop_rest s A r s1 w1 d1 l1 U A1); try done. by rewrite Hk.
  - assert (r ∉ live) as Hr.
    { intros Hr. destruct (r_live _ _ _ _ _ _ H r Hr) as (f & Hf' & _ & _ & Hh). by simplify_eq. }
    destruct (settled_fut _ _ _ _ _ _ _ _ H Hf Hr) as (Hk & _).
    eapply (drop_rest s A r s w dead live U A); try done. by rewrite Hk.
Qed.

(** Copying a reply object: the copy takes the place of the other. *)
Definition replace_id (o n x : nat) : nat := if decide (x = o) then n else x.

Lemma copy_list n o l :
  n ∉ l → n ≠ o → filter (λ x, x ≠ o) (insert_before n o l) = map (replace_id o n) l.
Proof.
  intros Hn Hno. induction l as [|x l IH]; [done|]. unfold insert_before, mbind in *. simpl. rewrite filter_app.
  rewrite IH by set_solver. unfold replace_id. destruct (decide (x = o)) as [->|].
  - rewrite filter_cons_True, filter_cons_False by naive_solver. done.
  - by rewrite filter_cons_True.
Qed.

Lemma map_replace_notin n o l : o ∉ l → map (replace_id o n) l = l.
Proof.
  intros Hl. induction l as [|x l IH]; [done|]. simpl. unfold replace_id at 1.
  rewrite decide_False by set_solver. rewrite IH by set_solver. done.
Qed.

Lemma elem_of_replace n o x l : x ∈ map (replace_id o n) l → x = n ∧ o ∈ l ∨ x ≠ o ∧ x ∈ l.
Proof.
  intros (y & -> & Hy)%list_elem_of_fmap. unfold replace_id. destruct (decide (y = o)) as [->|]; auto.
Qed.

Lemma NoDup_replace n o l : NoDup l → n ∉ l → NoDup (map (replace_id o n) l).
Proof.
  intros Hd Hn. induction Hd as [|x l Hx Hd IH]; simpl; [constructor|]. constructor; [|apply IH; set_solver].
  intros (y & Hy & Hyl)%list_elem_of_fmap. unfold replace_id in Hy.
  destruct (decide (x = o)), (decide (y = o)); subst; set_solver.
Qed.

(** The list after a copy: either the copy takes [o]'s place, or [o], detached, leaves it. *)
Lemma copy_lists s A w dead live U n o :
  rel_at s A w dead live U → A !! n = None → is_Some (A !! o) →
  ∃ s' dead', copy_reply n o s = (Ok tt, s') ∧ outstandingReplies s' = dead' ++ map (replace_id o n) live ∧
    NoDup (dead' ++ map (replace_id o n) live) ∧ (∀ x, x ∈ dead' → x = n ∨ x ≠ o ∧ x ∈ dead) ∧ n ∉ live ∧
    ioStream s' = ioStream s ∧ transaction s' = transaction s ∧ obj s' n = obj s o ∧
    (∀ x, x ≠ n → x ≠ o → obj s' x = obj s x).
Proof.
  intros [H1 H2 H3 H4 H5 H6 H7 H8] Hn [f Hf]. assert (n ≠ o) as Hno by congruence.
  assert (n ∉ dead) as Hnd by (rewrite Forall_forall in H5; intros Hr; destruct (H5 n Hr); congruence).
  assert (n ∉ live) as Hnl by (intros Hr; destruct (H7 n Hr) as (? & ? & _); congruence).
  unfold copy_reply. destruct (conn (obj s o)) eqn:Hc.
  - eexists _, (map (replace_id o n) dead). split; [reflexivity|]. simpl.
    rewrite copy_list, H2, map_app; [|by rewrite H2, elem_of_app; intros []|done]. split_and!; try done.
    + rewrite <- map_app. apply NoDup_replace; [done|set_solver].
    + intros x Hx. apply elem_of_replace in Hx as [[-> _]|]; auto.
    + by rewrite fupd_eq.
    + intros x Hx1 Hx2. by rewrite !fupd_ne.
  - assert (o ∉ live) as Hol by (intros Hr; destruct (H7 o Hr) as (g & ? & ? & _); congruence).
    eexists _, (filter (λ x, x ≠ o) dead). split; [reflexivity|]. simpl.
    rewrite map_replace_notin by done. rewrite H2, filter_app, (filter_ne_all o live) by done.
    apply NoDup_app in H3 as (Ha & Hb & Hd). split_and!; try done.
    + apply NoDup_app. split_and!; [by apply NoDup_filter| |done]. intros x [_ Hx]%list_elem_of_filter. auto.
    + intros x Hx%list_elem_of_filter. auto.
    + by rewrite fupd_eq.
    + intros x Hx1 Hx2. by rewrite !fupd_ne.
Qed.

Lemma copy_at s A w dead live U n o f :
  rel_at s A w dead live U → A !! n = None → A !! o = Some f →
  ∃ s' dead' live' U', copy_reply n o s = (Ok tt, s') ∧ rel_at s' (<[n:=f]> (delete o A)) w dead' live' U' ∧
    transaction s' = transaction s.
Proof.
  intros H Hn Hf. destruct (copy_lists s A w dead live U n o H Hn ltac:(eauto)) as (s' & dead' & E & Hl & Hnd & Hd & Hnl & Hi & Ht & Hon & Ho).
  exists s', dead', (map (replace_id o n) live), (fupd U n (U o)). split; [done|]. split; [|done].
  destruct H as [H1 H2 H3 H4 H5 H6 H7 H8]. assert (n ≠ o) as Hno by congruence.
  assert (∀ x, x ≠ n → x ≠ o → <[n:=f]> (delete o A) !! x = A !! x) as HA.
  { intros x Hx1 Hx2. by rewrite lookup_insert_ne, lookup_delete_ne. }
  assert (∀ x, x ∈ live → o ≠ x → x ≠ n ∧ obj s' x = obj s x ∧ fupd U n (U o) x = U x) as Hlive.
  { intros x Hx Hxo. assert (x ≠ n) by (by intros ->). split_and!; [done|by apply Ho|by rewrite fupd_ne]. }
  split; [done..|done| | | | |].
  - assert (map (fupd U n (U o)) (map (replace_id o n) live) = map U live) as HU; [|by rewrite Hi, H4, HU].
    rewrite map_map. apply map_ext_in. intros x Hx%list_elem_of_In.
    unfold replace_id. destruct (decide (x = o)) as [->|]; [by rewrite fupd_eq|]. rewrite fupd_ne; [done|]. by intros ->.
  - apply Forall_forall. intros x [->|[Hx Hxd]]%Hd; [rewrite lookup_insert_eq; eauto|]. destruct (decide (x = n)) as [->|].
    + rewrite lookup_insert_eq. eauto.
    + rewrite HA by done. rewrite Forall_forall in H5. auto.
  - intros x g Hx Hnx. destruct (decide (x = n)) as [->|Hxn].
    + rewrite lookup_insert_eq in Hx. injection Hx as <-. rewrite Hon. apply H6; [done|]. intros Hol. apply Hnx.
      apply list_elem_of_fmap. exists o. unfold replace_id. by rewrite decide_True.
    + rewrite lookup_insert_ne in Hx by done. apply lookup_delete_Some in Hx as [Hxo Hx]. rewrite Ho by done.
      apply H6; [done|]. intros Hxl. apply Hnx. apply list_elem_of_fmap. exists x. unfold replace_id. by rewrite decide_False.
  - intros x Hx. apply elem_of_replace in Hx as [[-> Hol]|[Hxo Hx]].
    + destruct (H7 o Hol) as (g & Hg & Hh). simplify_eq. rewrite lookup_insert_eq, fupd_eq, Hon. eauto.
    + destruct (Hlive x Hx ltac:(done)) as (Hxn & -> & ->). rewrite HA by done. auto.
  - intros r l Hr. destruct live as [|y live]; [done|]. simpl in Hr. injection Hr as <- <-.
    specialize (H8 _ _ eq_refl). rewrite Forall_forall in H8 |- *. intros x Hx.
    apply elem_of_replace in Hx as [[-> Hol]|[Hxo Hx]].
    + rewrite Hon. by apply H8.
    + destruct (Hlive x) as (_ & -> & _); [set_solver|done|]. by apply H8.
Qed.

(** An assignment reads the old answer and takes the other object's place. *)
Lemma assign_at s A w dead live U r o v f :
  rel_at s A w dead live U → A !! r = Some (Value v) → A !! o = Some f → r ≠ o →
  ∃ s' w' dead' live' U', assign_reply r o s = (Ok tt, s') ∧ rel_at s' (<[r:=f]> (delete o (delete r A))) w' dead' live' U' ∧
    transaction s' = transaction s.
Proof.
  intros H Hr Ho Hne. destruct (do_result_at s A w dead live U r v H Hr) as (s1 & w1 & d1 & l1 & E1 & H1 & Hr1 & Ht1).
  destruct (rel_unlink s1 A w1 d1 l1 U r H1 Hr1) as (s2 & E2 & H2 & Ht2).
  destruct (copy_at s2 (delete r A) w1 _ l1 U r o f H2) as (s3 & d3 & l3 & U3 & E3 & H3 & Ht3).
  - apply lookup_delete_eq.
  - by rewrite lookup_delete_ne.
  - exists s3, w1, d3, l3, U3. split_and!; [|done|congruence]. unfold assign_reply, base_assign.
    erewrite run_Ok by exact E1. by erewrite run_Ok by exact E2.
Qed.

(** ** Programs on one connection *)
Inductive op :=
| Issue (r : nat) (k : kind) (a : resp)   (* send a command that the server will answer with [a] *)
| Result (r : nat) | Next (r : nat) | Copy (n o : nat) | Assign (r o : nat) | Destroy (r : nat).
Inductive out := ONone | OValue (v : value) | ONext (x : option (option str)).

Definition exec (o : op) : M t rexn out :=
  match o with
  | Issue r k a => receive (encode a) ;; new_reply k r ;; mret ONone
  | Result r => v ← do_result r; mret (OValue v)
  | Next r => x ← do_next r; mret (ONext x)
  | Copy n o => copy_reply n o ;; mret ONone
  | Assign r o => assign_reply r o ;; mret ONone
  | Destroy r => destroy r ;; mret ONone
  end.

Fixpoint exec_all (os : list op) : M t rexn (list out) :=
  match os with [] => mret [] | o :: os => x ← exec o; l ← exec_all os; mret (x :: l) end.

#[export] Instance bulk_ok_dec o : Decision (bulk_ok o).
Proof. destruct o; simpl; apply _. Defined.

(** What a command of class [k] answered with [a] returns; [None] when the server would not
    answer such a command so. *)
Definition fut_of (k : kind) (a : resp) : option fut :=
  match k, a with
  | Void, RStatus s => if decide (CR ∈ s) then None else Some (Value (VBool true))
  | Bool_, RInt z => if decide (imin64 <= z <= imax64) then Some (Value (VBool (0 <? z))) else None
  | Int_, RInt z => if decide (imin64 <= z <= imax64) then Some (Value (VInt z)) else None
  | String_, RBulk o => if decide (bulk_ok o) then Some (Value (VStr o)) else None
  | MultiBulk, RMulti l => if decide (Forall bulk_ok l ∧ Z.of_nat (length l) <= imax32) then Some (Elements false l) else None
  | _, _ => None
  end.

#[export] Instance droppable_dec f : Decision (droppable f).
Proof. destruct f; simpl; apply _. Defined.

(** The reference: every reply object is a future of its own.  It is not defined where the program
    uses an object that is not there, or assigns an enumerator, or drops one that is not [droppable], or where the
    server's answer is not one for the class of reply. *)
Definition spec (A : gmap nat fut) (o : op) : option (out * gmap nat fut) :=
  match o with
  | Issue r k a => match A !! r with Some _ => None | None => f ← fut_of k a; Some (ONone, <[r:=f]> A) end
  | Result r => match A !! r with Some (Value v) => Some (OValue v, A) | _ => None end
  | Next r => match A !! r with Some (Elements b l) => Some (ONext (head l), <[r:=Elements true (tail l)]> A) | _ => None end
  | Copy n o => match A !! n with Some _ => None | None => f ← A !! o; Some (ONone, <[n:=f]> (delete o A)) end
  | Assign r o =>
      match A !! r, A !! o with
      | Some (Value _), Some (Value v) => if decide (r = o) then None else Some (ONone, <[r:=Value v]> (delete o (delete r A)))
      | _, _ => None
      end
  | Destroy r => f ← A !! r; if decide (droppable f) then Some (ONone, delete r A) else None
  end.

Fixpoint spec_all (A : gmap nat fut) (os : list op) : option (list out * gmap nat fut) :=
  match os with
  | [] => Some ([], A)
  | o :: os => '(x, A) ← spec A o; '(l, A) ← spec_all A os; Some (x :: l, A)
  end.

Lemma fut_of_holds k a f :
  fut_of k a = Some f → holds (Reply k true (default_value k) false 0 [] 0 Blank) (encode a) f.
Proof.
  destruct k, a; simpl; try done; case_decide; intros [= <-]; (split; [done|]); (split; [done|]); simpl;
    try (eexists; split; [by constructor|done]). split; [done|]. split; [done|]. by left.
Qed.

Lemma rel_intro s A w dead live U : rel_at s A w dead live U → transaction s = None → rel s A.
Proof. intros H Ht. split; [done|]. eauto. Qed.

Lemma exec_spec o s A x A' :
  rel s A → spec A o = Some (x, A') → ∃ s', exec o s = (Ok x, s') ∧ rel s' A'.
Proof.
  intros [Ht (w & dead & live & U & H)] Hs. destruct o as [r k a|r|r|n o|r o|r]; simpl in Hs; unfold exec.
  - destruct (A !! r) eqn:HA; [done|]. destruct (fut_of k a) as [f|] eqn:Hf; [|done]. simplify_eq/=.
    destruct (issue_at s A w dead live U r k f (encode a) H HA Ht (fut_of_holds _ _ _ Hf)) as (s' & E & H' & Ht').
    exists s'. split; [|by eapply rel_intro]. rewrite <- bind_assoc. by erewrite run_Ok by exact E.
  - destruct (A !! r) as [[v| |]|] eqn:HA; simplify_eq.
    destruct (do_result_at s A' w dead live U r v H HA) as (s' & w' & d' & l' & E & H' & _ & Ht'). exists s'.
    erewrite run_Ok by exact E. split; [done|]. eapply rel_intro; [done|congruence].
  - destruct (A !! r) as [[|b l|]|] eqn:HA; simplify_eq.
    destruct (do_next_at s A w dead live U r b l H HA) as (s' & w' & d' & l' & U' & E & H' & Ht'). exists s'.
    erewrite run_Ok by exact E. split; [done|]. eapply rel_intro; [done|congruence].
  - destruct (A !! n) eqn:HA; [done|]. destruct (A !! o) as [f|] eqn:Hf; [|done]. simplify_eq/=.
    destruct (copy_at s A w dead live U n o f H HA Hf) as (s' & d' & l' & U' & E & H' & Ht'). exists s'.
    erewrite run_Ok by exact E. split; [done|]. eapply rel_intro; [done|congruence].
  - destruct (A !! r) as [[v| |]|] eqn:Hr; try done. destruct (A !! o) as [[v'| |]|] eqn:Ho; try done. case_decide as Hne; [done|]. simplify_eq/=.
    destruct (assign_at s A w dead live U r o v _ H Hr Ho Hne) as (s' & w' & d' & l' & U' & E & H' & Ht'). exists s'.
    erewrite run_Ok by exact E. split; [done|]. eapply rel_intro; [done|congruence].
  - destruct (A !! r) as [f|] eqn:Hf; [|done]. simpl in Hs. case_decide as Hd; simplify_eq.
    destruct (destroy_at s A w dead live U r f H Hf Hd) as (s' & w' & d' & l' & E & H' & Ht'). exists s'.
    erewrite run_Ok by exact E. split; [done|]. eapply rel_intro; [done|congruence].
Qed.

(** C4: pipelined commands on one connection behave as independent futures, for the programs for which
    [spec] is defined: in any order the program sends commands, each answered in the form that its own
    class of reply reads; asks for results and for next elements; copies a reply object, or assigns one of a single value to
    another, and does not use the old object again; and drops replies of a single value, read or not, and enumerators that have
    been started and have no null element left.  Then every [result] returns the answer of its own command, every enumerator
    its own elements in order, nothing throws, and the connection stays in step with the server.  Other programs are left
    out: after an enumerator is dropped before it has been started or with a null element left
    ([Desync.dropped_enumerator], [Desync.dropped_null]), after an enumerator is assigned ([Desync.assigned_unread],
    [Desync.assigned_pending]), and after an answer that is an error ([Desync.error_reply_poisons]), the
    connection can be out of step. *)
Theorem Replies_refine_futures os s A outs A' :
  rel s A → spec_all A os = Some (outs, A') → ∃ s', exec_all os s = (Ok outs, s') ∧ rel s' A'.
Proof.
  revert s A outs A'. induction os as [|o os IH]; intros s A outs A' H Hs; simpl in Hs.
  - simplify_eq. by exists s.
  - destruct (spec A o) as [[x A1]|] eqn:H1; [|done]. simpl in Hs.
    destruct (spec_all A1 os) as [[l A2]|] eqn:H2; [|done]. simplify_eq/=.
    destruct (exec_spec o s A x A1 H H1) as (s1 & E1 & Hr1). destruct (IH s1 A1 l A' Hr1 H2) as (s2 & E2 & Hr2).
    exists s2. split; [|done]. cbn [exec_all]. erewrite run_Ok by exact E1. by erewrite run_Ok by exact E2.
Qed.

Definition blank : reply := Reply Void false (VBool false) false 0 [] 0 Blank.
Definition connection0 : t := St (mk [] false) [] None (λ _, blank).

Lemma rel0 : rel connection0 ∅.
Proof.
  split; [done|]. exists [], [], [], (λ _, []). split; try done; try apply Forall_nil_2; try apply NoDup_nil_2.
  intros r Hr. by apply elem_of_nil in Hr.
Qed.

Definition program : list op :=
  [Issue 1 Int_ (RInt (-7)); Issue 2 MultiBulk (RMulti [Some (lit "a"); None; Some crlf]);
   Issue 3 String_ (RBulk None); Issue 4 Void (RStatus (lit "OK")); Result 4; Next 2; Copy 5 2; Next 5;
   Issue 6 MultiBulk (RMulti [Some (lit "x"); Some (lit "y")]); Next 6; Destroy 6; Result 3;
   Issue 7 Int_ (RInt 8); Assign 1 7; Result 1; Next 5; Next 5]%nat.

Lemma Replies_refine_futures_witness :
  ∃ s', exec_all program connection0 =
    (Ok [ONone; ONone; ONone; ONone; OValue (VBool true); ONext (Some (Some (lit "a"))); ONone; ONext (Some None);
         ONone; ONext (Some (Some (lit "x"))); ONone; OValue (VStr None); ONone; ONone; OValue (VInt 8);
         ONext (Some (Some crlf)); ONext None], s') ∧
    outstandingReplies s' = [].
Proof.
  assert (∃ A', spec_all ∅ program = Some ([ONone; ONone; ONone; ONone; OValue (VBool true); ONext (Some (Some (lit "a"))); ONone;
    ONext (Some None); ONone; ONext (Some (Some (lit "x"))); ONone; OValue (VStr None); ONone; ONone; OValue (VInt 8);
    ONext (Some (Some crlf)); ONext None], A')) as [A' E] by (eexists; vm_compute; reflexivity).
  destruct (Replies_refine_futures program connection0 ∅ _ A' rel0 E) as (s' & E' & _). exists s'. split; [exact E'|].
  assert (outstandingReplies (snd (exec_all program connection0)) = []) as Ho by (vm_compute; reflexivity).
  rewrite E' in Ho. exact Ho.
Defined.

End Pipeline.
