(* ===== verification/RedisTransaction.v ===== *)
(** * Redis transactions (common/redispp.cpp, [Transaction] and [QueuedReply])

    A transaction's own reply object takes the MULTI, QUEUED and EXEC lines out of the stream, so
    that the replies of its commands, sent in between, find their answers when it is committed. *)
From S2P Require Import Prelude CppString Decimal RedisCommand RedisReply RedisReplySpec.

#[local] Open Scope Z_scope.
Import Stream Read ReadLemmas Replies Pipeline.

Module Tx.

Definition ok_line : str := encode (RStatus (lit "OK")).
Definition queued_line : str := encode (RStatus (lit "QUEUED")).
Definition exec_header (n : nat) : str := "*"%char :: dec_int (Z.of_nat n) ++ crlf.

(** The state of the replies without the transaction's own object. *)
Definition shadow (s : t) (w : str) (dead live : list nat) (U : nat → str) : t :=
  St (mk (w ++ concat (map U live)) false) (dead ++ live) None (obj s).

Record in_tx (q n : nat) (s : t) (A : gmap nat fut) (w : str) (dead live : list nat) (U : nat → str) : Prop := {
  tx_rel : rel_at (shadow s w dead live U) A w dead live U;
  tx_list : outstandingReplies s = dead ++ q :: live;
  tx_tx : transaction s = Some q;
  tx_q : A !! q = None;
  tx_knd : knd (obj s q) = Queued ∧ conn (obj s q) = true ∧ qcount (obj s q) = n ∧ qstate (obj s q) = Dirty;
  tx_input : ioStream s = mk (w ++ ok_line ++ concat (replicate n queued_line)) false }.

Lemma concat_replicate_app n (x : str) : concat (replicate n x) ++ x = concat (replicate (S n) x).
Proof. induction n as [|n IH]; simpl in *; [by rewrite app_nil_r|]. by rewrite <- app_assoc, IH. Qed.

(** The reply objects without a future do not matter. *)
Lemma rel_irrelevant s s' A w dead live U :
  rel_at s A w dead live U → outstandingReplies s' = outstandingReplies s → ioStream s' = ioStream s →
  (∀ x, is_Some (A !! x) → obj s' x = obj s x) → rel_at s' A w dead live U.
Proof.
  intros [H1 H2 H3 H4 H5 H6 H7 H8] Hl Hi Ho.
  assert (∀ x, x ∈ live → obj s' x = obj s x) as Ho'.
  { intros x Hx. apply Ho. destruct (H7 x Hx) as (? & ? & _). eauto. }
  split; try done; [congruence|congruence| | |].
  - intros r f Hr. rewrite Ho by eauto. auto.
  - intros r Hr. rewrite Ho' by done. auto.
  - intros r l ->. specialize (H8 _ _ eq_refl). rewrite Forall_forall in H8 |- *. intros x Hx. rewrite Ho' by set_solver. auto.
Qed.

(** A connection on which everything has been read. *)
Definition quiet (s : t) (A : gmap nat fut) (w : str) (dead : list nat) : Prop :=
  rel_at s A w dead [] (λ _, []) ∧ transaction s = None.

Lemma begin_ok s A w dead q :
  quiet s A w dead → A !! q = None →
  ∃ s', (receive ok_line ;; Transaction_new q) s = (Ok tt, s') ∧ in_tx q 0 s' A w dead [] (λ _, []).
Proof.
  intros [H Ht] Hq. erewrite run_Ok by done. unfold Transaction_new.
  erewrite run_Ok; [|unfold new_reply; simpl transaction; rewrite Ht; reflexivity].
  erewrite run_Ok by done. cbn [transaction].
    erewrite run_Ok by done. eexists. split; [reflexivity|].
  split; simpl; rewrite ?fupd_eq; try done.
  - eapply rel_irrelevant; [exact H|..].
    + simpl. by rewrite (r_list _ _ _ _ _ _ H).
    + simpl. by rewrite (r_input _ _ _ _ _ _ H).
    + intros x [f Hx]. simpl. rewrite !fupd_ne; [done|congruence..].
  - by rewrite (r_list _ _ _ _ _ _ H), app_nil_r.
  - rewrite (r_input _ _ _ _ _ _ H). simpl. by rewrite !app_nil_r.
Qed.

Lemma queued_ok q n s A w dead live U r k a f :
  in_tx q n s A w dead live U → A !! r = None → r ≠ q → fut_of k a = Some f →
  ∃ s', (receive queued_line ;; new_reply k r) s = (Ok tt, s') ∧
        in_tx q (S n) s' (<[r:=f]> A) w dead (live ++ [r]) (fupd U r (encode a)).
Proof.
  intros [H1 H2 H3 H4 (K1 & K2 & K3 & K4) H6] Hr Hrq Hf. erewrite run_Ok by done. unfold new_reply. simpl transaction. rewrite H3.
  eexists. split; [reflexivity|].
  destruct (issue_at _ A w dead live U r k f (encode a) H1 Hr eq_refl (fut_of_holds _ _ _ Hf)) as (s1 & E & H1' & _).
  split; simpl; try rewrite !fupd_eq; try rewrite (fupd_ne _ r) by done; try done.
  - eapply rel_irrelevant; [exact H1'|..].
    + simpl. by rewrite (r_list _ _ _ _ _ _ H1').
    + simpl. by rewrite (r_input _ _ _ _ _ _ H1').
    + intros x [g Hx]. simpl. erewrite run_Ok in E by done. injection E as <-. simpl.
      rewrite fupd_ne; [done|]. intros ->. rewrite lookup_insert_ne in Hx by done. congruence.
  - rewrite H2. by rewrite <- app_assoc.
  - by rewrite lookup_insert_ne.
  - simpl. rewrite K3. done.
  - rewrite H6. cbn [input failbit]. rewrite <- !app_assoc, concat_replicate_app. done.
Qed.

(** The commands of a transaction: reply object, class, and the answer EXEC gives. *)
Definition cmd : Type := nat * kind * resp.
Definition answer_bytes (l : list cmd) : str := concat (map (λ '(_, _, a), encode a) l).

Fixpoint queue_all (l : list cmd) : M t rexn unit :=
  match l with
  | [] => mret tt
  | (r, k, _) :: l => receive queued_line ;; new_reply k r ;; queue_all l
  end.

(** The futures of the commands, if they are well-formed commands on fresh objects. *)
Fixpoint futures (q : nat) (A : gmap nat fut) (l : list cmd) : option (gmap nat fut) :=
  match l with
  | [] => Some A
  | (r, k, a) :: l =>
      match A !! r with
      | Some _ => None
      | None => if decide (r = q) then None else f ← fut_of k a; futures q (<[r:=f]> A) l
      end
  end.

Lemma queue_all_ok q l : ∀ n s A w dead live U A',
  in_tx q n s A w dead live U → futures q A l = Some A' →
  ∃ s' live' U', queue_all l s = (Ok tt, s') ∧ in_tx q (n + length l) s' A' w dead live' U' ∧
    concat (map U' live') = concat (map U live) ++ answer_bytes l.
Proof.
  induction l as [|[[r k] a] l IH]; intros n s A w dead live U A' H Hf; simpl in Hf.
  - simplify_eq. exists s, live, U. rewrite Nat.add_0_r. unfold answer_bytes. simpl. by rewrite app_nil_r.
  - destruct (A !! r) eqn:HA; [done|]. case_decide as Hrq; [done|]. destruct (fut_of k a) as [f|] eqn:Ha; [|done].
    simpl in Hf. destruct (queued_ok q n s A w dead live U r k a f H HA Hrq Ha) as (s1 & E & H1).
    destruct (IH _ _ _ _ _ _ _ _ H1 Hf) as (s' & live' & U' & E' & H' & Hc). exists s', live', U'. cbn [queue_all].
    split_and!.
    + rewrite <- bind_assoc. by erewrite run_Ok by exact E.
    + rewrite Nat.add_succ_comm in H'. exact H'.
    + rewrite Hc, map_app, concat_app. simpl. rewrite fupd_eq, app_nil_r, <- app_assoc. unfold answer_bytes. simpl.
      f_equal. f_equal. apply map_ext_in. intros x Hx%list_elem_of_In. rewrite fupd_ne; [done|]. intros ->.
      destruct (r_live _ _ _ _ _ _ (tx_rel _ _ _ _ _ _ _ _ H) r Hx) as (? & ? & _). congruence.
Qed.

Lemma read_statuses_ok n : ∀ s w rest,
  Forall (λ c, is_ws c = true) w → ioStream s = mk (w ++ concat (replicate n queued_line) ++ rest) false →
  ∃ w', Forall (λ c, is_ws c = true) w' ∧
    read_statuses n s = (Ok tt, St (mk (w' ++ rest) false) (outstandingReplies s) (transaction s) (obj s)).
Proof.
  induction n as [|n IH]; intros s w rest Hw Hi; simpl.
  - exists w. split; [done|]. simpl in Hi. rewrite <- Hi. by destruct s.
  - cbn [replicate concat] in Hi. rewrite <- app_assoc in Hi.
    destruct (IH (St (mk ([LF] ++ concat (replicate n queued_line) ++ rest) false) (outstandingReplies s) (transaction s) (obj s)) [LF] rest)
      as (w' & Hw' & E); [apply ws_LF|done|]. exists w'. split; [done|].
    erewrite run_Ok; [exact E|]. unfold on_stream. rewrite Hi. unfold queued_line. rewrite status_ok; [done|done|by apply (bool_decide_unpack _)].
Qed.

Lemma exec_header_ok w n rest :
  Forall (λ c, is_ws c = true) w → Z.of_nat n <= imax32 →
  readIntegerReply (mk (w ++ exec_header n ++ rest) false) = (Ok (Z.of_nat n), mk (crlf ++ rest) false).
Proof.
  intros Hw Hn. unfold readIntegerReply, exec_header. rewrite <- app_comm_cons, get_code_app by done.
  unfold imax32 in Hn. rewrite <- app_assoc, get_int_app; [done|unfold imin64, imax64; lia|lia].
Qed.

(** A transaction of the commands [l], from its constructor to its destructor; the server answers
    MULTI, queues the commands and answers EXEC with their answers. *)
Definition transaction_of (q : nat) (l : list cmd) : M t rexn unit :=
  receive ok_line ;; Transaction_new q ;;
  queue_all l ;;
  receive (exec_header (length l) ++ answer_bytes l) ;; commit q ;;
  Transaction_delete q.

Lemma commit_ok q n s A w dead live U :
  in_tx q n s A w dead live U → Z.of_nat n <= imax32 →
  ∃ s', (receive (exec_header n ++ concat (map U live)) ;; commit q ;; Transaction_delete q) s = (Ok tt, s') ∧ rel s' A.
Proof.
  intros [H1 H2 H3 H4 (K1 & K2 & K3 & K4) H6] Hn. erewrite run_Ok by done.
  set (s0 := St _ _ _ _). unfold commit. rewrite bind_assoc. erewrite run_Ok by done. cbv beta.
  change (obj s0 q) with (obj s q). rewrite K4, decide_True by done. rewrite bind_assoc. erewrite run_Ok by done.
  set (s1 := set_obj q _ s0). unfold queued_readResult. rewrite bind_assoc. erewrite run_Ok by done. cbv beta.
  assert (obj s1 q = set_queued n Committed (obj s q)) as Hq1 by (simpl; rewrite fupd_eq, K3; done).
  rewrite Hq1. cbn [conn set_queued qcount qstate]. rewrite K2. rewrite bind_assoc. erewrite run_Ok by done.
  set (s2 := set_obj q _ s1).
  assert (ioStream s2 = mk (w ++ ok_line ++ concat (replicate n queued_line) ++ exec_header n ++ concat (map U live)) false) as Hi2.
  { simpl. rewrite H6. simpl. by rewrite <- !app_assoc. }
  pose proof (r_ws _ _ _ _ _ _ H1) as Hw.
  rewrite bind_assoc. erewrite run_Ok; [|unfold on_stream; rewrite Hi2; unfold ok_line; rewrite status_ok; [reflexivity|done|by apply (bool_decide_unpack _)]].
  set (s3 := St _ _ _ _). destruct (read_statuses_ok n s3 [LF] (exec_header n ++ concat (map U live)) ws_LF eq_refl) as (w' & Hw' & E3).
  rewrite bind_assoc. erewrite run_Ok by exact E3. rewrite decide_True by done.
  set (s4 := St _ _ _ _). rewrite bind_assoc. erewrite run_Ok; [|unfold on_stream, s4; cbn [ioStream]; rewrite exec_header_ok by done; reflexivity].
  rewrite Z.eqb_refl. erewrite run_Ok by done. set (s5 := St _ _ _ _).
  assert (obj s5 q = set_conn false (set_queued n Committed (obj s q))) as Hq5 by (simpl; rewrite !fupd_eq, K3; done).
  unfold Transaction_delete. erewrite run_Ok; [|unfold catch, abort; erewrite run_Ok by done; rewrite Hq5; reflexivity].
  erewrite run_Ok by done. eexists. split; [reflexivity|].
  assert (q ∉ dead ++ live) as Hnq.
  { intros [Hq|Hq]%elem_of_app.
    - pose proof (r_dead _ _ _ _ _ _ H1) as Hd. rewrite Forall_forall in Hd. destruct (Hd q Hq). congruence.
    - destruct (r_live _ _ _ _ _ _ H1 q Hq) as (? & ? & _). congruence. }
  eapply (rel_intro _ A crlf dead live U); [|done].
  destruct H1 as [J1 J2 J3 J4 J5 J6 J7 J8].
  eapply (rel_irrelevant (St (mk (crlf ++ concat (map U live)) false) (dead ++ live) None (obj s))).
  - split; [exact ws_crlf|reflexivity|exact J3|reflexivity|exact J5|exact J6|exact J7|exact J8].
  - simpl. rewrite H2, filter_app, filter_cons_False, <- filter_app by naive_solver. by rewrite filter_ne_all.
  - done.
  - intros x [g Hx]. simpl. rewrite !fupd_ne; [done|congruence..].
Qed.

(** C5: a transaction on a connection whose earlier replies have been read: constructor, queued
    commands, commit and destructor succeed, and afterwards every command's reply object yields
    that command's answer, as if the commands had been sent one by one. *)
Theorem Transaction_commit q l s A w dead A' :
  quiet s A w dead → A !! q = None → futures q A l = Some A' → Z.of_nat (length l) <= imax32 →
  ∃ s', transaction_of q l s = (Ok tt, s') ∧ rel s' A'.
Proof.
  intros H Hq Hf Hn. destruct (begin_ok s A w dead q H Hq) as (s1 & E1 & H1).
  destruct (queue_all_ok q l 0 s1 A w dead [] (λ _, []) A' H1 Hf) as (s2 & live & U & E2 & H2 & Hc).
  destruct (commit_ok q _ s2 A' w dead live U H2 Hn) as (s' & E & Hr). exists s'. split; [|done].
  unfold transaction_of. rewrite <- bind_assoc. erewrite run_Ok by exact E1. erewrite run_Ok by exact E2.
  simpl in Hc. rewrite <- Hc. exact E.
Qed.

Lemma quiet0 : quiet connection0 ∅ [] [].
Proof.
  split; [|done]. split; try done; try apply Forall_nil_2; try apply NoDup_nil_2.
  intros r Hr. by apply elem_of_nil in Hr.
Qed.

Lemma Transaction_commit_witness :
  ∃ s', transaction_of 0 [(1%nat, Int_, RInt 5); (2%nat, String_, RBulk (Some (lit "v")))] connection0 = (Ok tt, s') ∧
    fst (do_result 2 s') = Ok (VStr (Some (lit "v"))).
Proof.
  destruct (Transaction_commit 0 [(1%nat, Int_, RInt 5); (2%nat, String_, RBulk (Some (lit "v")))] connection0 ∅ [] []
    (<[2%nat:=Value (VStr (Some (lit "v")))]> (<[1%nat:=Value (VInt 5)]> ∅)) quiet0) as (s' & E & _).
  - done.
  - vm_compute. reflexivity.
  - vm_compute. discriminate.
  - exists s'. split; [exact E|].
    assert (fst (do_result 2 (snd (transaction_of 0 [(1%nat, Int_, RInt 5); (2%nat, String_, RBulk (Some (lit "v")))] connection0)))
      = Ok (VStr (Some (lit "v")))) as Hr by (vm_compute; reflexivity).
    rewrite E in Hr. exact Hr.
Defined.

End Tx.

(** ** Answers the replies do not expect *)
Module Desync.
Import Tx.

(** An error answer to an integer command sets the stream's failbit, so that every later reply of
    the connection fails too, although its own answer is in the stream. *)
Example error_reply_poisons :
  let s := snd ((receive (encode (RError (lit "ERR wrong type"))) ;; new_reply Int_ 1 ;;
                 receive (encode (RInt 7)) ;; new_reply Int_ 2) connection0) in
  fst (do_result 1 s) = Err error_reading_integer ∧
  fst (do_result 2 (snd (do_result 1 s))) = Err error_reading_integer.
Proof. vm_compute. done. Qed.

(** An enumerator dropped before its first element is asked for leaves its answer in the stream:
    the next integer reply takes the header of the multi bulk for its own answer. *)
Example dropped_enumerator :
  fst ((exec (Issue 1 MultiBulk (RMulti [Some (lit "a")])) ;; exec (Issue 2 Int_ (RInt 7)) ;;
        exec (Destroy 1) ;; exec (Result 2)) connection0) = Ok (OValue (VInt 1)).
Proof. vm_compute. done. Qed.

(** The same with a null element: [next] throws on it and the destructor gives up. *)
Example dropped_null :
  fst ((exec (Issue 1 MultiBulk (RMulti [Some (lit "a"); None; Some (lit "b")])) ;; exec (Issue 2 String_ (RBulk (Some (lit "mine")))) ;;
        exec (Next 1) ;; exec (Destroy 1) ;; exec (Result 2)) connection0) = Ok (OValue (VStr (Some (lit "b")))).
Proof. vm_compute. done. Qed.

(** An assignment to an enumerator that has not been read leaves its answer in the stream, too: it is
    taken for the one of the enumerator that was assigned. *)
Example assigned_unread :
  fst ((exec (Issue 1 MultiBulk (RMulti [Some (lit "a")])) ;; exec (Issue 2 MultiBulk (RMulti [Some (lit "b")])) ;;
        assign_enumerator 1 2 ;; exec (Next 1)) connection0) = Ok (ONext (Some (Some (lit "a")))).
Proof. vm_compute. done. Qed.

(** The elements that an enumerator has read because of a later reply are lost when it is assigned. *)
Example assigned_pending :
  fst ((exec (Issue 1 MultiBulk (RMulti [Some (lit "a")])) ;; exec (Issue 2 Int_ (RInt 7)) ;; exec (Result 2) ;;
        exec (Issue 3 MultiBulk (RMulti [])) ;; exec (Next 3) ;; assign_enumerator 3 1 ;; exec (Next 3)) connection0) = Ok (ONext None).
Proof. vm_compute. done. Qed.

(** The answer to AUTH is read by a destructor, which drops what is thrown: a connection with a wrong
    password is made like any other, and the next command is refused. *)
Example wrong_password : let error := RError (lit "NOAUTH Authentication required.") in
  fst ((receive (encode (RError (lit "ERR invalid password"))) ;; Connection_new (lit "secret") 1) connection0) = Ok tt ∧
  fst ((receive (encode (RError (lit "ERR invalid password"))) ;; Connection_new (lit "secret") 1 ;;
        receive (encode error) ;; new_reply Void 2 ;; do_result 2) connection0) = Err (read_error_response (lit "NOAUTH Authentication required.")).
Proof. vm_compute. done. Qed.

(** [commit] does not read the replies before the transaction: an unread one makes it fail. *)
Example commit_with_unread_reply :
  fst ((exec (Issue 1 Int_ (RInt 7)) ;; transaction_of 0 [(2%nat, Int_, RInt 5)]) connection0)
    = Err (read_error_response (lit "7")).
Proof. vm_compute. done. Qed.

End Desync.
