(* ===== verification/WinHook.v ===== *)
(** * The hooked calls of Winsock (libgo/windows/win_vc_hook.cpp)

    On Windows a blocking call on a socket is made as a non-blocking one: the socket is switched to
    non-blocking, the call is tried, the coroutine waits in [select], and the call is tried again.
    Winsock cannot be asked for a socket's mode, so the library notes it in an option of the socket
    that is otherwise unused, [SO_GROUP_PRIORITY]. *)
From S2P Require Import Prelude.

#[local] Open Scope Z_scope.

Module WinHook.

(** [fd_set]: the sockets in it, 64 at most. *)
Definition fd_set : Type := list Z.
Definition FD_SET (s : Z) (f : fd_set) : fd_set := if decide (s ∈ f) then f else if Z.of_nat (length f) <? 64 then f ++ [s] else f.
Definition sets : Type := option fd_set * option fd_set * option fd_set.

Definition FIONBIO : Z := -2147195266.
Definition WSAENOTSOCK : Z := 10038.
Definition WSAEWOULDBLOCK : Z := 10035.
Definition WSAEINPROGRESS : Z := 10036.
Definition SOCKET_ERROR : Z := -1.

(** Winsock and the scheduler.  [SleepSwitch] is where other coroutines run.  The getters of options
    are their result and the value, which is zero where they fail.  The functions that are hooked are
    given with [A], their arguments but the socket, and whether there is an [lpOverlapped]. *)
Class Winsock := {
  world : Type;
  A : Type;
  has_task : world → bool;
  ioctlsocket_f : Z → Z → Z → world → Z * world;
  set_priority : Z → Z → world → world;
  get_priority : Z → world → (Z * Z) * world;
  get_error : Z → world → Z * world;
  get_rcvtimeo : Z → world → Z * world;
  get_sndtimeo : Z → world → Z * world;
  WSAGetLastError : world → Z;
  WSASetLastError : Z → world → world;
  select_f : Z → sets → option (Z * Z) → world → Z * sets * world;
  GetTickCount64 : world → Z;
  SleepSwitch : Z → world → world;
  connect_f : A → Z → world → Z * world;
  WSAConnect_f : A → Z → world → Z * world;
  accept_f : A → Z → world → Z * world;
  WSAAccept_f : A → Z → world → Z * world;
  WSARecv_f : bool → A → Z → world → Z * world;
  recv_f : A → Z → world → Z * world;
  recvfrom_f : A → Z → world → Z * world;
  WSARecvFrom_f : bool → A → Z → world → Z * world;
  WSARecvMsg_f : bool → A → Z → world → Z * world;
  WSASend_f : bool → A → Z → world → Z * world;
  send_f : A → Z → world → Z * world;
  sendto_f : A → Z → world → Z * world;
  WSASendTo_f : bool → A → Z → world → Z * world;
  WSASendMsg_f : bool → A → Z → world → Z * world;
}.

Section Hooks.
Context {W : Winsock}.

(*@ libgo/libgo/windows/win_vc_hook.cpp 15-29 hook_ioctlsocket *)
Definition hook_ioctlsocket (s cmd arg : Z) (w : world) : Z * world :=
  let '(ret, w) := ioctlsocket_f s cmd arg w in
  let err := WSAGetLastError w in
  let w := if (ret =? 0) && (cmd =? FIONBIO) then set_priority s arg w else w in
  (ret, WSASetLastError err w).

(*@ libgo/libgo/windows/win_vc_hook.cpp 66-70 SetNonblocking *)
Definition SetNonblocking (s : Z) (is_nonblocking : bool) (w : world) : bool * world :=
  let v := if is_nonblocking then 1 else 0 in
  let '(ret, w) := hook_ioctlsocket s FIONBIO v w in
  (ret =? 0, w).

(*@ libgo/libgo/windows/win_vc_hook.cpp 72-81 IsNonblocking *)
Definition IsNonblocking (s : Z) (w : world) : bool * world :=
  let '((ret, v), w) := get_priority s w in
  if negb (ret =? 0) && (WSAGetLastError w =? WSAENOTSOCK) then (true, w) else (negb (v =? 0), w).

(** Copies of the sets are given to [select], which are copied back when some socket is ready. *)
(*@ libgo/libgo/windows/win_vc_hook.cpp 92-119 safe_select *)
Definition safe_select (nfds : Z) (fds : sets) (w : world) : Z * sets * world :=
  let '(ret, fds', w) := select_f nfds fds (Some (0, 0)) w in
  if ret <=? 0 then (ret, fds, w) else (ret, fds', w).

(** The sockets of a set that have an error, with [e_result] so far. *)
(*@ libgo/libgo/windows/win_vc_hook.cpp 151-162 hook_select *)
Fixpoint failed_sockets (fds e_result : fd_set) (w : world) : fd_set * world :=
  match fds with
  | [] => (e_result, w)
  | fd :: fds =>
      let '(err, w) := get_error fd w in
      failed_sockets fds (if negb (err =? 0) then FD_SET fd e_result else e_result) w
  end.

Definition FD_ZERO (f : option fd_set) : option fd_set := match f with Some _ => Some [] | None => None end.

(** [None] is a loop that has not ended. *)
(*@ libgo/libgo/windows/win_vc_hook.cpp 142-181 hook_select *)
Fixpoint select_loop (fuel : nat) (nfds timeout_ms start_time delta_time : Z) (fds : sets) (w : world) : option (Z * sets * world) :=
  match fuel with
  | O => None
  | S fuel =>
      let '(readfds, writefds, exceptfds) := fds in
      if (timeout_ms =? -1) || (u64 (GetTickCount64 w - start_time) <? u64 timeout_ms) then
        let '(ret, fds', w) := safe_select nfds fds w in
        if 0 <? ret then Some (ret, fds', w)
        else
          let '(e_result, w) := match exceptfds with Some e => failed_sockets e [] w | None => ([], w) end in
          if 0 <? Z.of_nat (length e_result) then Some (Z.of_nat (length e_result), (FD_ZERO readfds, FD_ZERO writefds, Some e_result), w)
          else
            let w := SleepSwitch delta_time w in
            let delta_time := if delta_time <? 16 then Z.shiftl delta_time 2 else delta_time in
            select_loop fuel nfds timeout_ms start_time delta_time fds w
      else Some (0, (FD_ZERO readfds, FD_ZERO writefds, FD_ZERO exceptfds), w)
  end.

(** The time-out in milliseconds, an [int]. *)
(*@ libgo/libgo/windows/win_vc_hook.cpp 130-130 hook_select *)
Definition timeout_of (timeout : option (Z * Z)) : Z :=
  match timeout with
  | Some (sec, usec) => (sec * 1000 + Z.quot usec 1000 + 2 ^ 31) mod 2 ^ 32 - 2 ^ 31
  | None => -1
  end.

(*@ libgo/libgo/windows/win_vc_hook.cpp 121-182 hook_select *)
Definition hook_select (fuel : nat) (nfds : Z) (fds : sets) (timeout : option (Z * Z)) (w : world) : option (Z * sets * world) :=
  let timeout_ms := timeout_of timeout in
  if negb (has_task w) || (timeout_ms =? 0) then Some (select_f nfds fds timeout w)
  else
    let '(ret, fds, w) := safe_select nfds fds w in
    if negb (ret =? 0) then Some (ret, fds, w)
    else select_loop fuel nfds timeout_ms (GetTickCount64 w) 1 fds w.

(** ** Connecting *)

(** [fn] is the original function with its arguments. *)
(*@ libgo/libgo/windows/win_vc_hook.cpp 184-227 connect_mode_hook *)
Definition connect_mode_hook (fuel : nat) (fn : Z → world → Z * world) (s : Z) (w : world) : option (Z * world) :=
  let tk := has_task w in
  let '(is_nonblocking, w) := IsNonblocking s w in
  if negb tk || is_nonblocking then Some (fn s w)
  else
    let '(ok, w) := SetNonblocking s true w in
    if negb ok then Some (fn s w)
    else
      let '(ret, w) := fn s w in
      if ret =? 0 then Some (0, w)
      else
        let err := WSAGetLastError w in
        if negb (WSAEWOULDBLOCK =? err) && negb (WSAEINPROGRESS =? err) then Some (ret, w)
        else
          '(_, fds, w) ← hook_select fuel 1 (None, Some [s], Some [s]) None w;
          let '(_, wfds, efds) := fds in
          if bool_decide (s ∉ default [] efds) && bool_decide (s ∈ default [] wfds) then
            let '(_, w) := SetNonblocking s false w in Some (0, w)
          else
            let '(err, w) := get_error s w in
            if negb (err =? 0) then
              let '(_, w) := SetNonblocking s false w in
              Some (SOCKET_ERROR, WSASetLastError err w)
            else let '(_, w) := SetNonblocking s false w in Some (0, w).

(** ** Reading and writing *)

(** The time-out option in milliseconds as a [timeval]; none when it is zero. *)
Definition timeval_of (timeout : Z) : option (Z * Z) :=
  if timeout =? 0 then None else Some (Z.quot timeout 1000, Z.rem timeout 1000 * 1000).

(** [e_nonblocking_op] and [e_no_timeout] of the flags. *)
(*@ libgo/libgo/windows/win_vc_hook.cpp 275-321 read_mode_hook *)
Definition read_mode_hook (fuel : nat) (fn : Z → world → Z * world) (nonblocking_op no_timeout : bool) (s : Z) (w : world) : option (Z * world) :=
  let tk := has_task w in
  let '(is_nonblocking, w) := IsNonblocking s w in
  if negb tk || is_nonblocking || nonblocking_op then Some (fn s w)
  else
    let '(ok, w) := SetNonblocking s true w in
    if negb ok then Some (fn s w)
    else
      let '(ret, w) := fn s w in
      if negb (ret =? -1) then let '(_, w) := SetNonblocking s false w in Some (ret, w)
      else
        let err := WSAGetLastError w in
        if negb (WSAEWOULDBLOCK =? err) && negb (WSAEINPROGRESS =? err) then
          let '(_, w) := SetNonblocking s false w in Some (ret, WSASetLastError err w)
        else
          let '(timeout, w) := if no_timeout then (0, w) else get_rcvtimeo s w in
          '(_, _, w) ← hook_select fuel 1 (Some [s], None, None) (timeval_of timeout) w;
          let '(ret, w) := fn s w in
          let err := WSAGetLastError w in
          let '(_, w) := SetNonblocking s false w in
          Some (ret, WSASetLastError err w).

(*@ libgo/libgo/windows/win_vc_hook.cpp 474-520 write_mode_hook *)
Definition write_mode_hook (fuel : nat) (fn : Z → world → Z * world) (nonblocking_op no_timeout : bool) (s : Z) (w : world) : option (Z * world) :=
  let tk := has_task w in
  let '(is_nonblocking, w) := IsNonblocking s w in
  if negb tk || is_nonblocking || nonblocking_op then Some (fn s w)
  else
    let '(ok, w) := SetNonblocking s true w in
    if negb ok then Some (fn s w)
    else
      let '(ret, w) := fn s w in
      if negb (ret =? -1) then let '(_, w) := SetNonblocking s false w in Some (ret, w)
      else
        let err := WSAGetLastError w in
        if negb (WSAEWOULDBLOCK =? err) && negb (WSAEINPROGRESS =? err) then
          let '(_, w) := SetNonblocking s false w in Some (ret, WSASetLastError err w)
        else
          let '(timeout, w) := if no_timeout then (0, w) else get_sndtimeo s w in
          '(_, _, w) ← hook_select fuel 1 (None, Some [s], None) (timeval_of timeout) w;
          let '(ret, w) := fn s w in
          let err := WSAGetLastError w in
          let '(_, w) := SetNonblocking s false w in
          Some (ret, WSASetLastError err w).

(** ** The functions that are hooked *)
Section Functions.
Variable fuel : nat.

(*@ libgo/libgo/windows/win_vc_hook.cpp 236-243 hook_connect *)
Definition hook_connect (a : A) (s : Z) : world → option (Z * world) := connect_mode_hook fuel (connect_f a) s.

(*@ libgo/libgo/windows/win_vc_hook.cpp 256-267 hook_WSAConnect *)
Definition hook_WSAConnect (a : A) (s : Z) : world → option (Z * world) := connect_mode_hook fuel (WSAConnect_f a) s.

(*@ libgo/libgo/windows/win_vc_hook.cpp 330-337 hook_accept *)
Definition hook_accept (a : A) (s : Z) : world → option (Z * world) := read_mode_hook fuel (accept_f a) false true s.

(*@ libgo/libgo/windows/win_vc_hook.cpp 348-357 hook_WSAAccept *)
Definition hook_WSAAccept (a : A) (s : Z) : world → option (Z * world) := read_mode_hook fuel (WSAAccept_f a) false true s.

(*@ libgo/libgo/windows/win_vc_hook.cpp 370-382 hook_WSARecv *)
Definition hook_WSARecv (lpOverlapped : bool) (a : A) (s : Z) : world → option (Z * world) := read_mode_hook fuel (WSARecv_f lpOverlapped a) lpOverlapped false s.

(*@ libgo/libgo/windows/win_vc_hook.cpp 392-400 hook_recv *)
Definition hook_recv (a : A) (s : Z) : world → option (Z * world) := read_mode_hook fuel (recv_f a) false false s.

(*@ libgo/libgo/windows/win_vc_hook.cpp 412-422 hook_recvfrom *)
Definition hook_recvfrom (a : A) (s : Z) : world → option (Z * world) := read_mode_hook fuel (recvfrom_f a) false false s.

(*@ libgo/libgo/windows/win_vc_hook.cpp 437-451 hook_WSARecvFrom *)
Definition hook_WSARecvFrom (lpOverlapped : bool) (a : A) (s : Z) : world → option (Z * world) := read_mode_hook fuel (WSARecvFrom_f lpOverlapped a) lpOverlapped false s.

(*@ libgo/libgo/windows/win_vc_hook.cpp 462-472 hook_WSARecvMsg *)
Definition hook_WSARecvMsg (lpOverlapped : bool) (a : A) (s : Z) : world → option (Z * world) := read_mode_hook fuel (WSARecvMsg_f lpOverlapped a) lpOverlapped false s.

(*@ libgo/libgo/windows/win_vc_hook.cpp 533-545 hook_WSASend *)
Definition hook_WSASend (lpOverlapped : bool) (a : A) (s : Z) : world → option (Z * world) := write_mode_hook fuel (WSASend_f lpOverlapped a) lpOverlapped false s.

(*@ libgo/libgo/windows/win_vc_hook.cpp 555-563 hook_send *)
Definition hook_send (a : A) (s : Z) : world → option (Z * world) := write_mode_hook fuel (send_f a) false false s.

(*@ libgo/libgo/windows/win_vc_hook.cpp 575-585 hook_sendto *)
Definition hook_sendto (a : A) (s : Z) : world → option (Z * world) := write_mode_hook fuel (sendto_f a) false false s.

(*@ libgo/libgo/windows/win_vc_hook.cpp 600-614 hook_WSASendTo *)
Definition hook_WSASendTo (lpOverlapped : bool) (a : A) (s : Z) : world → option (Z * world) := write_mode_hook fuel (WSASendTo_f lpOverlapped a) lpOverlapped false s.

(*@ libgo/libgo/windows/win_vc_hook.cpp 626-637 hook_WSASendMsg *)
Definition hook_WSASendMsg (lpOverlapped : bool) (a : A) (s : Z) : world → option (Z * world) := write_mode_hook fuel (WSASendMsg_f lpOverlapped a) lpOverlapped false s.

End Functions.
End Hooks.
End WinHook.
