(* ===== verification/WinHookSpec.v ===== *)
(** * What the program sees of a hooked Winsock call (properties of WinHook.v) *)
From S2P Require Import Prelude WinHook.
Import WinHook.

#[local] Open Scope Z_scope.

Module WinHookSpec.

(** What is assumed of Winsock and of sleeping, as far as one socket [s] is concerned: only
    [ioctlsocket] and the option change its mode and the note of it, a call on it does not, and
    neither does the rest of the program meanwhile.  [ioctlsocket] may refuse to make it non-blocking
    ([refused]), but not to make it blocking again.  The option is one that Winsock reserves: it may keep what it
    is set to, or not ([keeps_note]), and then reading it may fail.  The time [now] is in milliseconds and does not run
    backwards, the clock shows it at 64 bits, who sleeps wakes no earlier than asked, and no call
    takes longer than [long], some thirty years. *)
Definition long : Z := 2 ^ 40.

Class WinsockLaws (W : Winsock) (s : Z) := {
  nonblocking : world → bool;
  now : world → Z;
  note : world → Z;
  rcvtimeo : Z;
  sndtimeo : Z;
  view w := (nonblocking w, note w, has_task w);
  refused : world → bool;
  keeps_note : bool;
  ioctl_mode : ∀ v w, ∃ r w', ioctlsocket_f s FIONBIO v w = (r, w') ∧ (r =? 0) = negb (negb (v =? 0) && refused w) ∧
    view w' = (if r =? 0 then negb (v =? 0) else nonblocking w, note w, has_task w);
  set_priority_note : ∀ v w, view (set_priority s v w) = (nonblocking w, if keeps_note then v else note w, has_task w);
  get_priority_note : ∀ w, ∃ r w', get_priority s w = ((r, note w), w') ∧ view w' = view w ∧ (r ≠ 0 → WSAGetLastError w' ≠ WSAENOTSOCK);
  set_last_error : ∀ e w, WSAGetLastError (WSASetLastError e w) = e ∧ view (WSASetLastError e w) = view w;
  get_error_view : ∀ s' w, view (get_error s' w).2 = view w ∧ now w <= now (get_error s' w).2 <= now w + long;
  get_rcvtimeo_view : ∀ w, (get_rcvtimeo s w).1 = rcvtimeo ∧ view (get_rcvtimeo s w).2 = view w;
  get_sndtimeo_view : ∀ w, (get_sndtimeo s w).1 = sndtimeo ∧ view (get_sndtimeo s w).2 = view w;
  select_view : ∀ n fds t w, view (select_f n fds t w).2 = view w;
  select_now : ∀ n fds w, now w <= now (select_f n fds (Some (0, 0)) w).2 <= now w + long;
  sleep_view : ∀ d w, view (SleepSwitch d w) = view w ∧ now w + d <= now (SleepSwitch d w) <= now w + d + long;
  clock : ∀ w, GetTickCount64 w = u64 (now w);
  timeo_range : 0 <= rcvtimeo < 2 ^ 31 ∧ 0 <= sndtimeo < 2 ^ 31;
}.

Section Spec.
Context {W : Winsock} {s : Z} {L : WinsockLaws W s}.

(** ** Time-outs *)
Lemma timeout_of_timeval t : 0 <= t < 2 ^ 31 → timeout_of (timeval_of t) = if t =? 0 then -1 else t.
Proof.
  intros Ht. unfold timeval_of. destruct (Z.eqb_spec t 0) as [->|Hn]; [done|]. unfold timeout_of.
  rewrite Z.quot_mul by lia. pose proof (Z.quot_rem t 1000 ltac:(lia)).
  replace (Z.quot t 1000 * 1000 + Z.rem t 1000) with t by lia. rewrite Z.mod_small by lia. lia.
Qed.

Lemma timeout_range timeout : timeout_of timeout < 2 ^ 31.
Proof.
  unfold timeout_of. destruct timeout as [[sec usec]|]; [|lia].
  pose proof (Z.mod_pos_bound (sec * 1000 + Z.quot usec 1000 + 2 ^ 31) (2 ^ 32) ltac:(lia)). lia.
Qed.

(** ** The mode of the socket *)
(** What is noted of a mode, where [n] was. *)
Definition noted (b : bool) (n : Z) : Z := if keeps_note then if b then 1 else 0 else n.
Lemma SetNonblocking_spec b w : ∃ w', let ok := negb (b && refused w) in
  SetNonblocking s b w = (ok, w') ∧ view w' = if ok then (b, noted b (note w), has_task w) else view w.
Proof.
  unfold SetNonblocking, hook_ioctlsocket. destruct (ioctl_mode (if b then 1 else 0) w) as (r & w1 & -> & Hr & H1).
  replace (negb ((if b then 1 else 0) =? 0)) with b in * by (by destruct b). rewrite Hr in *. rewrite Z.eqb_refl, andb_true_r. eexists. cbv zeta.
  split; [done|]. rewrite (proj2 (set_last_error _ _)). unfold view in H1. destruct (negb (b && refused w)); [|exact H1].
  rewrite set_priority_note. by injection H1 as -> -> ->.
Qed.

Lemma IsNonblocking_spec w : ∃ w', IsNonblocking s w = (negb (note w =? 0), w') ∧ view w' = view w.
Proof.
  unfold IsNonblocking. destruct (get_priority_note w) as (r & w1 & -> & H1 & He). exists w1. split; [|done].
  destruct (Z.eqb_spec r 0) as [->|Hr]; [done|]. by rewrite (proj2 (Z.eqb_neq (WSAGetLastError w1) WSAENOTSOCK)) by auto.
Qed.

(** ** Waiting *)
Lemma safe_select_spec n fds w : let '(ret, fds', w') := safe_select n fds w in
  view w' = view w ∧ now w <= now w' <= now w + long ∧ (ret <= 0 → fds' = fds).
Proof.
  unfold safe_select. pose proof (select_view n fds (Some (0, 0)) w) as H1. pose proof (select_now n fds w) as H2. destruct (select_f n fds _ w) as [[ret fds'] w'].
  simpl in *. destruct (Z.leb_spec ret 0); split_and!; done || lia.
Qed.

Lemma failed_sockets_spec fds e w : let '(e', w') := failed_sockets fds e w in
  view w' = view w ∧ now w <= now w' <= now w + Z.of_nat (length fds) * long.
Proof.
  revert e w. induction fds as [|fd fds IH]; intros e w; cbn [failed_sockets]; [split; [done|simpl; lia]|].
  pose proof (get_error_view fd w) as [H1 H2]. destruct (get_error fd w) as [err w1]. simpl in H1, H2.
  specialize (IH (if negb (err =? 0) then FD_SET fd e else e) w1). destruct (failed_sockets fds _ w1) as [e' w2].
  destruct IH as [H3 H4]. split; [congruence|]. cbn [length]. lia.
Qed.

(** The errors of the sockets in the third set, which holds [FD_SETSIZE] at most. *)
Definition fits (fds : sets) : Prop := (length (default [] fds.2) <= 64)%nat.
Lemma errors_spec (e : option fd_set) w :
  let x := match e with Some e => failed_sockets e [] w | None => ([], w) end in
  view x.2 = view w ∧ now w <= now x.2 <= now w + Z.of_nat (length (default [] e)) * long.
Proof.
  destruct e as [e|]; [|split; [done|simpl; lia]]. pose proof (failed_sockets_spec e [] w) as H. cbv zeta.
  by destruct (failed_sockets e [] w).
Qed.

Lemma elapsed w start : 0 <= now w - start < 2 ^ 64 → u64 (GetTickCount64 w - u64 start) = now w - start.
Proof. intros H. rewrite clock. unfold u64. rewrite <- Zminus_mod. by apply u64_small. Qed.

(** How a wait ends: some socket is ready or has an error, or it is time, and then no set has a
    socket any more. *)
Definition cleared (fds : sets) : sets := let '(r, w, e) := fds in (FD_ZERO r, FD_ZERO w, FD_ZERO e).
Definition wait_ends (start_time timeout_ms : Z) (fds : sets) (x : Z * sets * world) : Prop :=
  let '(ret, fds', w') := x in
  0 < ret ∨ (ret = 0 ∧ fds' = cleared fds ∧ timeout_ms <= now w' - start_time).

Lemma shift_grows d : 1 <= d <= 64 → 1 <= (if d <? 16 then Z.shiftl d 2 else d) <= 64.
Proof. intros H. destruct (Z.ltb_spec d 16); [|done]. rewrite Z.shiftl_mul_pow2 by lia. lia. Qed.

Lemma select_loop_view fuel n t st d fds w x : select_loop fuel n t st d fds w = Some x → view x.2 = view w.
Proof.
  revert d fds w. induction fuel as [|fuel IH]; intros d fds w; cbn [select_loop]; [done|]. destruct fds as [[r wr] e].
  destruct (_ || _); [|by intros [= <-]]. pose proof (safe_select_spec n (r, wr, e) w) as Hs.
  destruct (safe_select n (r, wr, e) w) as [[ret fds'] w1]. destruct Hs as (Hv1 & _ & _).
  destruct (0 <? ret); [by intros [= <-]|].
  destruct (errors_spec e w1) as [Hv2 _]. destruct (match e with Some _ => _ | None => _ end) as [er w2]. simpl in Hv2.
  destruct (0 <? _); [intros [= <-]; simpl; congruence|]. intros H. apply IH in H.
  rewrite H, (proj1 (sleep_view _ _)). congruence.
Qed.

Lemma select_loop_ends fuel n t st d fds w : 0 < t < 2 ^ 31 → 1 <= d <= 64 → fits fds → st <= now w <= st + 2 ^ 62 →
  (Z.to_nat (t - (now w - st)) < fuel)%nat →
  ∃ x, select_loop fuel n t (u64 st) d fds w = Some x ∧ wait_ends st t fds x.
Proof.
  intros Ht Hd Hfit. revert d w Hd. induction fuel as [|fuel IH]; intros d w Hd Hst Hf; [lia|]. cbn [select_loop]. destruct fds as [[r wr] e].
  rewrite (proj2 (Z.eqb_neq t (-1))) by lia. rewrite (u64_small t), elapsed by lia. simpl orb.
  destruct (Z.ltb_spec (now w - st) t) as [Hlt|Hge]; [|eexists; split; [done|]; right; split_and!; done || lia].
  pose proof (safe_select_spec n (r, wr, e) w) as Hs. destruct (safe_select n (r, wr, e) w) as [[ret fds'] w1].
  destruct Hs as (_ & Ht1 & _). destruct (Z.ltb_spec 0 ret); [by eexists; split; [done|]; left|].
  destruct (errors_spec e w1) as [_ Ht2]. destruct (match e with Some _ => _ | None => _ end) as [er w2]. simpl in Ht2.
  destruct (Z.ltb_spec 0 (Z.of_nat (length er))); [by eexists; split; [done|]; left|].
  pose proof (proj2 (sleep_view d w2)) as Ht3. unfold fits in Hfit. simpl in Hfit. unfold long in *.
  apply IH; [by apply shift_grows|lia|lia].
Qed.

(** A wait that has ended ends the same with more fuel. *)
Lemma select_loop_more fuel fuel' n t st d fds w x : select_loop fuel n t st d fds w = Some x → (fuel <= fuel')%nat → select_loop fuel' n t st d fds w = Some x.
Proof.
  revert fuel' d fds w. induction fuel as [|fuel IH]; intros [|fuel'] d fds w H Hle; try done; [lia|]. revert H. cbn [select_loop]. destruct fds as [[r wr] e].
  destruct (_ || _); [|done]. destruct (safe_select n (r, wr, e) w) as [[ret fds'] w1]. destruct (0 <? ret); [done|].
  destruct (match e with Some _ => _ | None => _ end) as [er w2]. destruct (0 <? _); [done|]. intros H. apply IH; [done|lia].
Qed.

(** It has not ended before something is ready or it is time. *)
Lemma select_loop_waits fuel n t st d fds w x : t = -1 ∨ 0 < t < 2 ^ 31 → 1 <= d <= 64 → fits fds → st <= now w <= st + 2 ^ 62 →
  select_loop fuel n t (u64 st) d fds w = Some x → 0 < x.1.1 ∨ (0 < t ∧ t <= now x.2 - st).
Proof.
  intros Ht Hd Hfit Hst H. destruct Ht as [->|Ht].
  - left. clear Hd Hfit Hst. revert d w H. induction fuel as [|fuel IH]; intros d w; cbn [select_loop]; [done|]. destruct fds as [[r wr] e]. simpl orb.
    cbv beta iota. destruct (safe_select n (r, wr, e) w) as [[ret fds'] w1]. destruct (Z.ltb_spec 0 ret) as [|_]; [by intros [= <-]|].
    destruct (match e with Some _ => _ | None => _ end) as [er w2]. destruct (Z.ltb_spec 0 (Z.of_nat (length er))); [by intros [= <-]|]. apply IH.
  - destruct (select_loop_ends (fuel + S (Z.to_nat t)) n t st d fds w) as (y & Hy & He); [done..|lia|].
    rewrite (select_loop_more fuel (fuel + S (Z.to_nat t)) _ _ _ _ _ _ _ H) in Hy by lia. injection Hy as ->.
    destruct y as [[ret fds'] w']. destruct He as [?|(_ & _ & ?)]; [by left|right; simpl; lia].
Qed.

(** From the time [T] on [select] reports that some of the sockets are ready. *)
Definition ready_from (T n : Z) (fds : sets) : Prop := ∀ w, T <= now w → 0 < (select_f n fds (Some (0, 0)) w).1.1.
Lemma select_loop_ready fuel T n st d fds w : 1 <= d <= 64 → ready_from T n fds → (Z.to_nat (T - now w) < fuel)%nat →
  is_Some (select_loop fuel n (-1) st d fds w).
Proof.
  intros Hd Hr. revert d w Hd. induction fuel as [|fuel IH]; intros d w Hd Hf; [lia|]. cbn [select_loop]. destruct fds as [[r wr] e]. simpl orb. cbv beta iota.
  pose proof (safe_select_spec n (r, wr, e) w) as Hs. assert (T <= now w → 0 < (safe_select n (r, wr, e) w).1.1) as Hrw.
  { intros HT. specialize (Hr w HT). unfold safe_select. destruct (select_f n (r, wr, e) _ w) as [[ret fds'] w1]. simpl in Hr. by rewrite (proj2 (Z.leb_gt ret 0)). }
  destruct (safe_select n (r, wr, e) w) as [[ret fds'] w1]. destruct Hs as (_ & Hs & _). simpl in Hrw. destruct (Z.ltb_spec 0 ret); [by eexists|].
  destruct (errors_spec e w1) as [_ Ht2]. destruct (match e with Some _ => _ | None => _ end) as [er w2]. simpl in Ht2. destruct (0 <? _); [by eexists|].
  pose proof (proj2 (sleep_view d w2)) as Ht3. apply IH; [by apply shift_grows|]. lia.
Qed.

(** ** [select] *)
Lemma hook_select_more fuel fuel' n fds t w x : hook_select fuel n fds t w = Some x → (fuel <= fuel')%nat → hook_select fuel' n fds t w = Some x.
Proof.
  unfold hook_select. destruct (_ || _); [done|]. destruct (safe_select n fds w) as [[ret fds'] w']. destruct (negb _); [done|]. apply select_loop_more.
Qed.

Lemma hook_select_waits fuel n fds timeout w x : has_task w = true → fits fds → timeout = None ∨ 0 < timeout_of timeout →
  hook_select fuel n fds timeout w = Some x → x.1.1 ≠ 0 ∨ (0 < timeout_of timeout ∧ timeout_of timeout <= now x.2 - now w).
Proof.
  intros Htk Hfit Ht. unfold hook_select. rewrite Htk. assert (timeout_of timeout =? 0 = false) as -> by (apply Z.eqb_neq; destruct Ht as [->|]; [done|lia]).
  cbn [negb orb]. pose proof (safe_select_spec n fds w) as Hs. destruct (safe_select n fds w) as [[ret fds'] w']. destruct Hs as (_ & Hs & Hsame).
  destruct (Z.eqb_spec ret 0) as [->|Hn]; cbn [negb]; [|intros [= <-]; by left]. rewrite Hsame, clock by lia. intros H.
  apply select_loop_waits in H as [|[? ?]]; [left; lia|right; lia| |lia|done|lia]. pose proof (timeout_range timeout). destruct Ht as [->|]; [by left|right; lia].
Qed.

Lemma hook_select_ready T n fds w : ready_from T n fds → ∃ fuel, is_Some (hook_select fuel n fds None w).
Proof.
  intros Hr. unfold hook_select. change (timeout_of None) with (-1). destruct (_ || _); [by exists 0%nat|]. pose proof (safe_select_spec n fds w) as Hs.
  destruct (safe_select n fds w) as [[ret fds'] w']. destruct Hs as (_ & _ & Hs). destruct (Z.eqb_spec ret 0) as [->|Hn]; cbn [negb]; [|by exists 0%nat].
  rewrite Hs by lia. exists (S (Z.to_nat (T - now w'))). apply (select_loop_ready _ T); [lia|done|lia].
Qed.

Lemma hook_select_view fuel n fds timeout w x : hook_select fuel n fds timeout w = Some x → view x.2 = view w.
Proof.
  unfold hook_select. destruct (_ || _); [intros [= <-]; apply select_view|]. pose proof (safe_select_spec n fds w) as Hs.
  destruct (safe_select n fds w) as [[ret fds'] w']. destruct Hs as (Hv & _ & _).
  destruct (negb (ret =? 0)); [by intros [= <-]|]. intros H. apply select_loop_view in H. congruence.
Qed.

Lemma hook_select_total fuel n fds timeout w : fits fds → 0 < timeout_of timeout → (Z.to_nat (timeout_of timeout) < fuel)%nat →
  is_Some (hook_select fuel n fds timeout w).
Proof.
  intros Hfit Ht Hf. unfold hook_select. destruct (_ || _); [done|]. pose proof (safe_select_spec n fds w) as Hs.
  destruct (safe_select n fds w) as [[ret fds'] w']. destruct Hs as (_ & _ & Hs). destruct (Z.eqb_spec ret 0) as [->|Hn]; simpl negb; [|done].
  rewrite Hs by lia. pose proof (timeout_range timeout). rewrite clock.
  destruct (select_loop_ends fuel n (timeout_of timeout) (now w') 1 fds w') as (x & -> & _); done || lia.
Qed.

(** [select] with a time-out ends.  In a coroutine it answers as soon as the system does, and with
    the system's answer; or with the sockets of the third set that have an error; or, not before the
    time is over, with zero and with every set cleared. *)
Theorem hook_select_ends fuel n fds timeout w : fits fds → 0 < timeout_of timeout → (Z.to_nat (timeout_of timeout) < fuel)%nat →
  ∃ x, hook_select fuel n fds timeout w = Some x ∧
    (if has_task w then
       let '(ret, fds', w') := safe_select n fds w in
       if ret =? 0 then wait_ends (now w') (timeout_of timeout) fds x else x = (ret, fds', w')
     else x = select_f n fds timeout w).
Proof.
  intros Hfit Ht Hf. unfold hook_select. rewrite (proj2 (Z.eqb_neq (timeout_of timeout) 0)) by lia. rewrite orb_false_r.
  destruct (has_task w); simpl negb; [|by eexists]. pose proof (safe_select_spec n fds w) as Hs.
  destruct (safe_select n fds w) as [[ret fds'] w']. destruct Hs as (_ & _ & Hs). destruct (Z.eqb_spec ret 0) as [->|Hn]; simpl negb; [|by eexists].
  rewrite Hs by lia. rewrite clock. pose proof (timeout_range timeout). apply select_loop_ends; done || lia.
Qed.

(** A wait without an end goes on for as long as [select] finds nothing ready, also when it fails. *)
Lemma select_loop_forever n r wr st : (∀ w, (select_f n (r, wr, None) (Some (0, 0)) w).1.1 <= 0) →
  ∀ fuel d w, select_loop fuel n (-1) st d (r, wr, None) w = None.
Proof.
  intros H. induction fuel as [|fuel IH]; intros d w; [done|]. cbn [select_loop]. simpl orb. cbv beta iota. unfold safe_select.
  specialize (H w). destruct (select_f n (r, wr, None) _ w) as [[ret fds'] w1]. simpl in H.
  rewrite (proj2 (Z.leb_le ret 0)) by lia. rewrite (proj2 (Z.ltb_ge 0 ret)) by lia. simpl. apply IH.
Qed.

(** ** Reading and writing *)

(** The two templates differ in the option of the time-out and in the set. *)
Definition mode_hook (timeo : world → Z * world) (fds : sets) (fuel : nat) (fn : Z → world → Z * world) (nonblocking_op no_timeout : bool) (w : world) : option (Z * world) :=
  let tk := has_task w in
  let '(is_nonblocking, w) := IsNonblocking s w in
  if negb tk || is_nonblocking || nonblocking_op then Some (fn s w)
  else
    let '(ok, w) := SetNonblocking s true w in
    if negb ok then Some (fn s w)
    else
      let '(ret, w) := fn s w in
      if negb (ret =? -1) then let '(_, w) := SetNonblocking s false w in Some (ret, w)
      else
        let err := WSAGetLastError w in
        if negb (WSAEWOULDBLOCK =? err) && negb (WSAEINPROGRESS =? err) then
          let '(_, w) := SetNonblocking s false w in Some (ret, WSASetLastError err w)
        else
          let '(timeout, w) := if no_timeout then (0, w) else timeo w in
          '(_, _, w) ← hook_select fuel 1 fds (timeval_of timeout) w;
          let '(ret, w) := fn s w in
          let err := WSAGetLastError w in
          let '(_, w) := SetNonblocking s false w in
          Some (ret, WSASetLastError err w).

(** The program has a blocking socket, before and after. *)
Definition blocking (w : world) : Prop := view w = (false, 0, true).

(** A call that could not do its work without waiting. *)
Definition would_block (x : Z * world) : Prop := x.1 = -1 ∧ (WSAGetLastError x.2 = WSAEWOULDBLOCK ∨ WSAGetLastError x.2 = WSAEINPROGRESS).

(** The result is that of a call, with its error, and the socket is as before.  It is a call that did not
    block; and if it would have blocked then there has been a wait before it, which ended with an answer of [select] or
    with the time-out [t]; or the socket could not be made non-blocking, and it is a blocking call. *)
Definition as_if_blocking (fn : Z → world → Z * world) (t : Z) (fds : sets) (x : Z * world) : Prop :=
  blocking x.2 ∧ ∃ w1 w2, fn s w1 = (x.1, w2) ∧ (x.1 = -1 → WSAGetLastError x.2 = WSAGetLastError w2) ∧
    if nonblocking w1 then
      would_block (x.1, w2) → ∃ fuel w0 r fds', hook_select fuel 1 fds (timeval_of t) w0 = Some (r, fds', w1) ∧ (r ≠ 0 ∨ (0 < t ∧ t <= now w1 - now w0))
    else x.2 = w2.

(** It is so whenever the call ends, however long it takes; with a time-out it ends, after no more polls than
    there are milliseconds; and without one it ends where the socket becomes ready. *)
Definition looks_blocking (fn : Z → world → Z * world) (t : Z) (fds : sets) (call : nat → option (Z * world)) : Prop :=
  (∀ fuel x, call fuel = Some x → as_if_blocking fn t fds x ∧ ∀ fuel', (fuel <= fuel')%nat → call fuel' = Some x) ∧
  (0 < t → is_Some (call (S (Z.to_nat t)))) ∧
  (∀ T, t = 0 → ready_from T 1 fds → ∃ fuel, is_Some (call fuel)).

(** Inside of a call: the socket is non-blocking, and noted as such where it can be. *)
Definition switched (w : world) : Prop := view w = (true, noted true 0, true).

Lemma switched_mode w : switched w → nonblocking w = true ∧ has_task w = true.
Proof. intros H. unfold switched in H. by injection H as -> _ ->. Qed.

Lemma restore_spec w : switched w → ∃ w', SetNonblocking s false w = (true, w') ∧ blocking w'.
Proof.
  intros H. destruct (SetNonblocking_spec false w) as (w' & E & Hv). exists w'. split; [done|]. unfold blocking. rewrite Hv. unfold switched in H. injection H as _ -> ->.
  cbn [andb negb]. unfold noted. by destruct keeps_note.
Qed.

Lemma last_error_kept w err : switched w →
  ∃ w', SetNonblocking s false w = (true, w') ∧ blocking (WSASetLastError err w') ∧ WSAGetLastError (WSASetLastError err w') = err.
Proof.
  intros H. destruct (restore_spec w H) as (w' & E & Hv). exists w'. destruct (set_last_error err w') as [H1 H2]. unfold blocking. by rewrite H2, Hv.
Qed.

Lemma not_would_block ret w : negb (WSAEWOULDBLOCK =? WSAGetLastError w) && negb (WSAEINPROGRESS =? WSAGetLastError w) = true → ¬ would_block (ret, w).
Proof. intros [H1 H2]%andb_true_iff (_ & H). apply negb_true_iff, Z.eqb_neq in H1, H2. simpl in H. destruct H; congruence. Qed.

(** What a hook does up to the point where it waits: it is done, or it waits and tries again. *)
Lemma mode_hook_cases (timeo : world → Z * world) t fds (fn : Z → world → Z * world) (nt : bool) w :
  (∀ w, (timeo w).1 = t ∧ view (timeo w).2 = view w) → (∀ w, view (fn s w).2 = view w) → blocking w → let d := if nt then 0 else t in
  (∃ x, as_if_blocking fn d fds x ∧ ∀ fuel, mode_hook timeo fds fuel fn false nt w = Some x) ∨
  ∃ w3, switched w3 ∧ ∀ fuel, mode_hook timeo fds fuel fn false nt w =
    ('(_, _, w) ← hook_select fuel 1 fds (timeval_of d) w3;
     let '(ret, w) := fn s w in let err := WSAGetLastError w in let '(_, w) := SetNonblocking s false w in Some (ret, WSASetLastError err w)).
Proof.
  intros Htimeo Hfn Hw d. unfold mode_hook. destruct (IsNonblocking_spec w) as (w0 & -> & H0). unfold blocking in Hw. rewrite Hw in H0.
  injection Hw as _ -> ->. destruct (SetNonblocking_spec true w0) as (w1 & E1 & H1). cbn [Z.eqb negb orb]. rewrite E1. rewrite negb_involutive.
  cbn [andb] in *. destruct (refused w0); cbn [negb] in H1.
  { left. exists (fn s w1). split; [|done]. pose proof (Hfn w1) as H2. rewrite H1, H0 in H2. split; [done|]. exists w1, (fn s w1).2. split; [by destruct (fn s w1)|].
    split; [done|]. rewrite H0 in H1. by injection H1 as -> _ _. }
  assert (switched w1) as Hs1 by (unfold switched; rewrite H1; by injection H0 as _ -> ->).
  assert (nonblocking w1 = true) as Hnb by (by apply switched_mode).
  pose proof (Hfn w1) as H2. destruct (fn s w1) as [ret w2] eqn:Ef. simpl in H2. assert (switched w2) as Hs2 by (unfold switched; by rewrite H2).
  destruct (Z.eqb_spec ret (-1)) as [->|Hret]; cbn [negb].
  2: { left. destruct (restore_spec w2 Hs2) as (w3 & E3 & H3). exists (ret, w3). split; [|intros fuel; by rewrite E3]. split; [done|]. exists w1, w2. rewrite Hnb.
    split_and!; [done|done|]. by intros [? _]. }
  destruct (negb (WSAEWOULDBLOCK =? WSAGetLastError w2) && _) eqn:Ewb.
  { left. destruct (last_error_kept w2 (WSAGetLastError w2) Hs2) as (w3 & E3 & H3 & He). eexists. split; [|intros fuel; rewrite E3; reflexivity].
    split; [done|]. exists w1, w2. rewrite Hnb. split_and!; [done|done|]. by intros ?%(not_would_block (-1)). }
  right. assert (∃ w3, (if nt then (0, w2) else timeo w2) = (d, w3) ∧ view w3 = view w2) as (w3 & -> & H3).
  { unfold d. destruct nt; [by exists w2|]. destruct (Htimeo w2) as [Ha Hb]. destruct (timeo w2) as [t' w3]. simpl in *. exists w3. by rewrite Ha. }
  exists w3. split; [unfold switched; by rewrite H3|done].
Qed.

Lemma mode_hook_spec (timeo : world → Z * world) t fds (fn : Z → world → Z * world) (nt : bool) w : fits fds → (∀ w, (timeo w).1 = t ∧ view (timeo w).2 = view w) → 0 <= t < 2 ^ 31 →
  (∀ w, view (fn s w).2 = view w) → blocking w →
  looks_blocking fn (if nt then 0 else t) fds (λ fuel, mode_hook timeo fds fuel fn false nt w).
Proof.
  intros Hfit Htimeo Ht Hfn Hw. set (d := if nt then 0 else t). assert (0 <= d < 2 ^ 31) as Hd by (unfold d; destruct nt; lia).
  pose proof (timeout_of_timeval d Hd) as Hms.
  destruct (mode_hook_cases timeo t fds fn nt w Htimeo Hfn Hw) as [(x & Hx & E)|(w3 & H3 & E)]; fold d in E; [|].
  { split; [intros fuel y; rewrite E; intros [= <-]; split; [done|]; intros; apply E|]. split; [by rewrite E|]. exists 0%nat. by rewrite E. }
  assert (∀ fuel, is_Some (hook_select fuel 1 fds (timeval_of d) w3) → is_Some (mode_hook timeo fds fuel fn false nt w)) as Hdone.
  { intros fuel [[[r f] w4] Es]. rewrite E, Es. cbn [mbind option_bind]. destruct (fn s w4) as [ret w5]. by destruct (SetNonblocking s false w5). }
  split; [|split].
  - intros fuel x. rewrite E. destruct (hook_select fuel 1 fds (timeval_of d) w3) as [[[r f] w4]|] eqn:Es; [|done]. cbn [mbind option_bind].
    pose proof (hook_select_view _ _ _ _ _ _ Es) as H4. cbn [snd] in H4. assert (switched w4) as Hs4 by (unfold switched; by rewrite H4).
    pose proof (Hfn w4) as H5. destruct (fn s w4) as [ret w5] eqn:Ef. cbn [snd] in H5. assert (switched w5) as Hs5 by (unfold switched; by rewrite H5).
    destruct (last_error_kept w5 (WSAGetLastError w5) Hs5) as (w6 & E6 & H6 & He). rewrite E6. intros [= <-]. split.
    + split; [done|]. exists w4, w5. assert (nonblocking w4 = true) as -> by (by apply switched_mode). split_and!; [done|done|]. intros _. exists fuel, w3, r, f. split; [done|].
      apply hook_select_waits in Es; [|by apply switched_mode|done|].
      * rewrite Hms in Es. simpl in Es. destruct (Z.eqb_spec d 0); [left; lia|exact Es].
      * rewrite Hms. unfold timeval_of. destruct (Z.eqb_spec d 0); [by left|right; lia].
    + intros fuel' Hle. rewrite E, (hook_select_more _ _ _ _ _ _ _ Es Hle). cbn [mbind option_bind]. by rewrite Ef, E6.
  - intros Hpos. apply Hdone, hook_select_total; [done|..]; rewrite Hms, (proj2 (Z.eqb_neq d 0)) by lia; lia.
  - intros T Hz Hr. destruct (hook_select_ready T 1 fds w3 Hr) as [fuel Hf]. exists fuel. apply Hdone. by rewrite Hz.
Qed.

(** C38: in a coroutine, on a socket that the program uses as a blocking one, the hooked calls for
    reading and writing look like blocking ones.  What they return is what one call of the original function returned,
    with its error, and the socket is a blocking one again; where that call found that it would have to wait, the
    hook had waited before it, until [select] answered or the time-out was over, so that behind a time-out the error is that of a non-blocking call.
    The hook ends, always in the same way, when a time-out is set, and without
    one when [select] finds the socket ready from some time on; it goes on for as long as it does
    not ([select_loop_forever]).  This is for a socket that [ioctlsocket] does not refuse to make blocking again, whether it
    refuses to make it non-blocking or not, and whether or not the option that notes the mode keeps what is noted. *)
Theorem calls_look_blocking (fn : Z → world → Z * world) (nt : bool) w : (∀ w, view (fn s w).2 = view w) → blocking w →
  looks_blocking fn (if nt then 0 else rcvtimeo) (Some [s], None, None) (λ fuel, read_mode_hook fuel fn false nt s w) ∧
  looks_blocking fn (if nt then 0 else sndtimeo) (None, Some [s], None) (λ fuel, write_mode_hook fuel fn false nt s w).
Proof.
  intros Hfn Hw. destruct timeo_range. split.
  - apply (mode_hook_spec (get_rcvtimeo s)); try done; [unfold fits; simpl; lia|]. intros w'. apply get_rcvtimeo_view.
  - apply (mode_hook_spec (get_sndtimeo s)); try done; [unfold fits; simpl; lia|]. intros w'. apply get_sndtimeo_view.
Qed.

(** ** Connecting *)

(** A hooked connect that has to wait leaves a blocking socket blocking and returns zero or
    [SOCKET_ERROR]; but when the first attempt is decided at once, with success or with another error,
    its result is returned and the socket stays non-blocking, and noted as such, so that the hooked
    calls that follow on it do not wait.  (The socket can be switched, and the option keeps the note.) *)
Theorem connect_may_leave_nonblocking fuel (fn : Z → world → Z * world) w ret w' : (∀ w, refused w = false) → keeps_note = true →
  (∀ w, view (fn s w).2 = view w) → blocking w →
  connect_mode_hook fuel fn s w = Some (ret, w') →
  ∃ w1 r1 w2, nonblocking w1 = true ∧ fn s w1 = (r1, w2) ∧
    if (r1 =? 0) || (negb (WSAEWOULDBLOCK =? WSAGetLastError w2) && negb (WSAEINPROGRESS =? WSAGetLastError w2))
    then ret = r1 ∧ view w' = (true, 1, true) ∧
         ∀ fn' op nt, ∃ w0, view w0 = view w' ∧ read_mode_hook fuel fn' op nt s w' = Some (fn' s w0) ∧ write_mode_hook fuel fn' op nt s w' = Some (fn' s w0)
    else blocking w' ∧ (ret = 0 ∨ ret = SOCKET_ERROR).
Proof.
  intros Hnr Hkeep Hfn Hw. unfold connect_mode_hook. destruct (IsNonblocking_spec w) as (w0 & -> & H0). unfold blocking in Hw. rewrite Hw in H0.
  injection Hw as _ -> ->. destruct (SetNonblocking_spec true w0) as (w1 & E1 & H1). cbn [Z.eqb negb orb]. rewrite E1. rewrite Hnr in *. cbn [andb negb] in *.
  injection H0 as _ _ Htk. pose proof (Hfn w1) as H2. destruct (fn s w1) as [r1 w2] eqn:Ef. simpl in H2.
  assert (view w2 = (true, 1, true)) as Hv2 by (rewrite H2, H1, Htk; unfold noted; by rewrite Hkeep). clear H2. rename Hv2 into H2.
  assert (∀ w, view w = (true, 1, true) → switched w) as Hsw by (intros w4 Hw4; unfold switched, noted; by rewrite Hkeep).
  intros H. exists w1, r1, w2. split; [by injection H1|]. split; [done|].
  assert (∀ fn' op nt, ∃ w0, view w0 = view w2 ∧ read_mode_hook fuel fn' op nt s w2 = Some (fn' s w0) ∧ write_mode_hook fuel fn' op nt s w2 = Some (fn' s w0)) as Hpass.
  { intros fn' op nt. destruct (IsNonblocking_spec w2) as (w3 & E3 & H3). exists w3. unfold read_mode_hook, write_mode_hook. rewrite E3.
    injection H2 as _ -> ->. done. }
  revert H. destruct (Z.eqb_spec r1 0) as [->|Hr1]; cbn [orb]; intros H.
  { injection H as <- <-. split_and!; [done|exact H2|exact Hpass]. }
  destruct (negb (WSAEWOULDBLOCK =? WSAGetLastError w2) && _).
  { injection H as <- <-. split_and!; [done|exact H2|exact Hpass]. }
  destruct (hook_select fuel 1 (None, Some [s], Some [s]) None w2) as [[[ret' [[r wfds] efds]] w3]|] eqn:Es; [|done]. cbn [mbind option_bind] in H.
  apply hook_select_view in Es. rewrite H2 in Es. simpl in Es. destruct (_ && _).
  { destruct (restore_spec w3 (Hsw _ Es)) as (w4 & E4 & H4). rewrite E4 in H. injection H as <- <-. split; [done|by left]. }
  pose proof (get_error_view s w3) as [Hg _]. destruct (get_error s w3) as [err w4]. simpl in Hg. rewrite Es in Hg.
  destruct (negb (err =? 0)).
  - destruct (last_error_kept w4 err (Hsw _ Hg)) as (w5 & E5 & H5 & _). rewrite E5 in H. injection H as <- <-. split; [done|by right].
  - destruct (restore_spec w4 (Hsw _ Hg)) as (w5 & E5 & H5). rewrite E5 in H. injection H as <- <-. split; [done|by left].
Qed.
End Spec.

(** ** A socket *)
Module Loopback.

(** Its peer accepts at once; the data come at the time [ready], and there is room to write then. *)
Definition ready : Z := 1040.
Record peer := Peer { time : Z; mode : bool; noted : Z; last : Z }.
Definition io (w : peer) : Z * peer :=
  if ready <=? time w then (5, w)
  else if mode w then (-1, Peer (time w) (mode w) (noted w) WSAEWOULDBLOCK)
  else (5, Peer ready (mode w) (noted w) (last w)).

#[local] Instance winsock : Winsock := {|
  world := peer; A := unit; has_task _ := true;
  ioctlsocket_f _ cmd v w := (0, Peer (time w) (if cmd =? FIONBIO then negb (v =? 0) else mode w) (noted w) (last w));
  set_priority _ v w := Peer (time w) (mode w) v (last w);
  get_priority _ w := ((0, noted w), w); get_error _ w := (0, w); get_rcvtimeo _ w := (100, w); get_sndtimeo _ w := (100, w);
  WSAGetLastError := last; WSASetLastError e w := Peer (time w) (mode w) (noted w) e;
  select_f _ fds _ w := if ready <=? time w then (1, fds, w) else (0, (None, None, None), w);
  GetTickCount64 w := u64 (time w); SleepSwitch d w := Peer (time w + d) (mode w) (noted w) (last w);
  connect_f _ _ w := (0, w); WSAConnect_f _ _ w := (0, w); accept_f _ _ := io; WSAAccept_f _ _ := io; WSARecv_f _ _ _ := io;
  recv_f _ _ := io; recvfrom_f _ _ := io; WSARecvFrom_f _ _ _ := io; WSARecvMsg_f _ _ _ := io; WSASend_f _ _ _ := io;
  send_f _ _ := io; sendto_f _ _ := io; WSASendTo_f _ _ _ := io; WSASendMsg_f _ _ _ := io |}.

#[local] Instance laws : WinsockLaws winsock 7.
Proof.
  refine {| nonblocking := mode : world → bool; note := noted : world → Z; now := time : world → Z; rcvtimeo := 100; sndtimeo := 100;
            refused _ := false; keeps_note := true |}.
  - intros v w. eexists 0, _. split; [done|]. by rewrite andb_false_r.
  - done.
  - intros w. by exists 0, w.
  - done.
  - intros s w. simpl. unfold long. split; [done|lia].
  - done.
  - done.
  - intros n fds t w. simpl. by destruct (ready <=? time w).
  - intros n fds w. simpl. unfold long. destruct (ready <=? time w); simpl; lia.
  - intros d w. simpl. unfold long. split; [done|lia].
  - done.
  - lia.
Defined.

Lemma io_view w : view (io w).2 = view w.
Proof. unfold io. destruct (ready <=? time w); [done|]. by destruct (mode w) eqn:E; simpl; unfold view; simpl; rewrite ?E. Qed.

Definition none : @A winsock := tt.
(** Data that come after 40 ms, before the time-out of 100. *)
Definition slow : @world winsock := Peer 1000 false 0 0.

(** It is received once it is there, and there is no end before. *)
Lemma calls_look_blocking_witness : hook_recv 101 none 7 slow = Some (5, Peer 1053 false 0 WSAEWOULDBLOCK) ∧
  as_if_blocking (recv_f none) 100 (Some [7], None, None) (5, Peer 1053 false 0 WSAEWOULDBLOCK) ∧
  ∀ fuel, (101 <= fuel)%nat → hook_recv fuel none 7 slow = Some (5, Peer 1053 false 0 WSAEWOULDBLOCK).
Proof.
  destruct (calls_look_blocking (s := 7) (recv_f none) false slow) as [[H1 [H2 _]] _]; [intros w; apply io_view|vm_compute; reflexivity|].
  assert (hook_recv 101 none 7 slow = Some (5, Peer 1053 false 0 WSAEWOULDBLOCK)) as E by (vm_compute; reflexivity).
  split; [exact E|]. exact (H1 101%nat _ E).
Defined.

(** [accept] has no time-out. *)
Example accept_waits : ready_from 1040 1 (Some [7], None, None) ∧ ∃ fuel, fst <$> hook_accept fuel none 7 slow = Some 5.
Proof.
  split; [|exists 20%nat; vm_compute; reflexivity]. intros w Hw. change (1040 <= time w) in Hw. simpl. unfold ready. by rewrite (proj2 (Z.leb_le _ _)).
Qed.

Lemma hook_select_ends_witness : ∃ x, hook_select 31 1 (Some [7], None, None) (Some (0, 30000)) slow = Some x ∧ wait_ends 1000 30 (Some [7], None, None) x.
Proof.
  destruct (hook_select_ends 31 1 (Some [7], None, None) (Some (0, 30000)) slow) as (x & Hx & He).
  - unfold fits. simpl. lia.
  - vm_compute. reflexivity.
  - vm_compute. lia.
  - exists x. split; [exact Hx|exact He].
Defined.

Definition connected : @world winsock := Peer 1000 true 1 0.

(** The connection is there at once; reading from the blocking socket then fails instead of waiting. *)
Lemma connect_may_leave_nonblocking_witness : ∃ w1 r1 w2, nonblocking w1 = true ∧ connect_f none 7 w1 = (r1, w2) ∧
  if (r1 =? 0) || (negb (WSAEWOULDBLOCK =? WSAGetLastError w2) && negb (WSAEINPROGRESS =? WSAGetLastError w2))
  then 0 = r1 ∧ view connected = (true, 1, true) ∧
       ∀ fn' op nt, ∃ w0, view w0 = view connected ∧ read_mode_hook 9 fn' op nt 7 connected = Some (fn' 7 w0) ∧
         write_mode_hook 9 fn' op nt 7 connected = Some (fn' 7 w0)
  else blocking connected ∧ (0 = 0 ∨ 0 = SOCKET_ERROR).
Proof.
  apply (connect_may_leave_nonblocking (s := 7) 9 (connect_f none) slow 0 connected); [done|done|done|vm_compute; reflexivity|vm_compute; reflexivity].
Defined.
Example read_after_connect : ('(_, w) ← hook_connect 9 none 7 slow; '(ret, w) ← hook_recv 9 none 7 w; Some (ret, WSAGetLastError w)) = Some (-1, WSAEWOULDBLOCK).
Proof. vm_compute. reflexivity. Qed.
End Loopback.
End WinHookSpec.
