(* ===== verification/Report.v ===== *)
(** * The monthly report (tools/all_report/all_month_report.cpp)

    [month_report] reads the quotations of a year from MySQL, completes each by further queries, one
    stage after another, and writes a workbook.  All queries share one result, [m_res]; a query that
    fails leaves it as it was.  A stage catches what is thrown in it, outside its loop. *)
From Stdlib Require Import Floats.SpecFloat.
From coqutil Require Import Datatypes.RecordSetters.
From S2P Require Import Prelude CppString.
Import OCamlLikeNotations.

Module Report.

(** ** The database library *)

(** MySQL Connector/C++: [executeQuery] prepares and executes, [None] if either throws; the getters
    are [None] where they throw.  The database does not change while the report is made. *)
Class Connector := {
  ResultSet : Type;
  executeQuery : str → option ResultSet;
  rowsCount : ResultSet → nat;
  next : ResultSet → bool * ResultSet;
  isNull : ResultSet → str → option bool;
  getString : ResultSet → str → option str;
  getStringAt : ResultSet → nat → option str;
  getDouble : ResultSet → str → option spec_float;
}.

(** [double]: IEEE binary64, rounding to nearest. *)
Definition dmul (x y : spec_float) : spec_float := SFmul 53 1024 x y.
Definition zero : spec_float := S754_zero false.

(*@ tools/all_report/all_month_report.hpp 13-45 report_data *)
Record report_data := ReportData {
  quotation_id : str; quotation_detail_id : str; quotation_no : str; country_id : str;
  owner_sales_sys_account_id : str; sales_employee_id : str; sales_company_name : str;
  account_name : str; approval_status : str; sales_full_name : str; receiving_countries : str;
  customer_countries : str; country_region : str; product_name_id : str; product_name : str;
  product_qty_pc : spec_float; product_qty_w : spec_float; price_condition : str; currency : str;
  unit_price : spec_float; guided_currency : str; price_total_currency : str;
  price_total : spec_float; pi_no : str; buyers_po : str; contract_no : str;
  payment_term_desc : str; creat_at : str; guidance_price : spec_float;
  total_guidance_price : spec_float; import_area : str;
}.

(** [new report_data()] sets everything to zero. *)
Definition new_data : report_data :=
  ReportData [] [] [] [] [] [] [] [] [] [] [] [] [] [] [] zero zero [] [] zero [] [] zero [] [] [] [] [] zero zero [].

(** ** The SQL texts *)
Definition TAB : ascii := ascii_of_nat 9.
Definition quoted (select id : str) : str := select ++ id ++ lit "'".

(*@ tools/all_report/all_month_report.cpp 15-15 deal_with_pi *)
Definition of_pi := lit "select pi_no,buyer_po,contract_no from t_proforma_invoice where quotation_id='".
(*@ tools/all_report/all_month_report.cpp 57-57 deal_with_sales_country *)
Definition of_delivery := lit "select delivery_country_id from t_quotation where quotation_id='".
(*@ tools/all_report/all_month_report.cpp 64-64 deal_with_sales_country *)
Definition of_country_name := lit "select full_name from t_country where country_id='".
(*@ tools/all_report/all_month_report.cpp 80-80 deal_with_sales_country *)
Definition of_sales := lit "select sales_id from t_quotation where quotation_id='".
(*@ tools/all_report/all_month_report.cpp 91-91 deal_with_sales_country *)
Definition of_account := lit "select employee_no from t_system_account where system_account_id='".
(*@ tools/all_report/all_month_report.cpp 104-108 deal_with_sales_country *)
Definition of_role :=
  [TAB; TAB] ++ lit "select master_file_obj_id " ++ [TAB; TAB] ++ lit "from t_wf_role_resolve " ++
  [TAB; TAB] ++ lit "where master_file_type='COMPANY' " ++ [TAB; TAB] ++ lit "and employee_id='".
(*@ tools/all_report/all_month_report.cpp 118-118 deal_with_sales_country *)
Definition of_company := lit "select short_name from t_company where company_id='".
(*@ tools/all_report/all_month_report.cpp 157-157 deal_with_approved_status *)
Definition of_approval := lit "select approval_status from t_quotation where quotation_id='".
(*@ tools/all_report/all_month_report.cpp 195-195 deal_with_trade_term_info *)
Definition of_trade_term_id := lit "select trade_term_id from t_quotation where quotation_id='".
(*@ tools/all_report/all_month_report.cpp 204-204 deal_with_trade_term_info *)
Definition of_trade_term := lit "select short_name from t_trade_term where trade_term_id='".
(*@ tools/all_report/all_month_report.cpp 236-236 deal_with_product_info *)
Definition of_item := lit "select item_master_id from t_quotation_detail where quotation_detail_id='".
(*@ tools/all_report/all_month_report.cpp 245-245 deal_with_product_info *)
Definition of_item_master := lit "select item_basic_id,product_code,product_name from t_item_master where item_master_id='".
(*@ tools/all_report/all_month_report.cpp 253-253 deal_with_product_info *)
Definition of_item_basic := lit "select item_category_id from t_item_basic where item_basic_id='".
(*@ tools/all_report/all_month_report.cpp 258-258 deal_with_product_info *)
Definition of_category_link := lit "select product_category_id from t_product_category_item_category_link where item_category_id='".
(*@ tools/all_report/all_month_report.cpp 263-263 deal_with_product_info *)
Definition of_category := lit "select parent_product_category_id from t_product_category where product_category_id='".
(*@ tools/all_report/all_month_report.cpp 298-298 deal_with_payment_method_info *)
Definition of_payment := lit "select payment_method_id from t_payment_term where quotation_id='".
(*@ tools/all_report/all_month_report.cpp 308-308 deal_with_payment_method_info *)
Definition of_payment_method := lit "select name from t_payment_method where payment_method_id='".
(*@ tools/all_report/all_month_report.cpp 340-340 deal_with_currency_info *)
Definition of_currency_id := lit "select currency_id from t_quotation where quotation_id='".
(*@ tools/all_report/all_month_report.cpp 345-345 deal_with_currency_info *)
Definition of_currency := lit "select code from t_currency where currency_id='".
(*@ tools/all_report/all_month_report.cpp 383-383 deal_with_customer_info *)
Definition of_country := lit "select full_name,area_id from t_country where country_id='".
(*@ tools/all_report/all_month_report.cpp 391-391 deal_with_customer_info *)
Definition of_area_short := lit "select short_name from t_area where area_id='".
(*@ tools/all_report/all_month_report.cpp 425-425 deal_with_customer_info *)
Definition of_area := lit "select full_name from t_area where area_id='".
(*@ tools/all_report/all_month_report.cpp 399-399 deal_with_customer_info *)
Definition of_customer_id := lit "select customer_basic_id from t_quotation where quotation_id='".
(*@ tools/all_report/all_month_report.cpp 404-404 deal_with_customer_info *)
Definition of_customer := lit "select country_id,trade_name from t_customer_basic where customer_basic_id='".
(*@ tools/all_report/all_month_report.cpp 467-467 deal_with_sales_info *)
Definition of_employee := lit "select full_name,position_id  from t_employee where employee_id='".

(*@ tools/all_report/all_month_report.cpp 628-644 start *)
Definition of_report : str :=
  lit "SELECT" ++ [TAB] ++ lit "t_quotation.quotation_id as quotation_id," ++
  [TAB] ++ lit "t_quotation_detail.quotation_detail_id as quotation_detail_id," ++
  [TAB] ++ lit "t_quotation.quotation_no as quotation_no," ++
  [TAB] ++ lit "t_quotation_detail.quantity as product_qty_pc," ++
  [TAB] ++ lit "t_quotation_detail.ss_guidance_price as guidance_price," ++
  [TAB] ++ lit "t_quotation_detail.module_extend_prop as module_extend_prop," ++
  [TAB] ++ lit "t_quotation_detail.applied_unit_price as unit_price," ++
  [TAB] ++ lit "t_quotation.createAt as creat_at" ++ [TAB] ++ lit "FROM" ++
  [TAB] ++ lit "t_quotation INNER JOIN" ++ [TAB] ++ lit "t_quotation_detail" ++ [TAB] ++ lit "on" ++
  [TAB] ++ lit "t_quotation_detail.quotation_id = t_quotation.quotation_id" ++
  [TAB] ++ lit "and t_quotation_detail.dr=0 and t_quotation.createAt >'2016-01-01 00:00:01' and t_quotation.createAt <'2016-12-31 23:59:59'" ++
  [TAB] ++ lit "ORDER BY t_quotation.createAt".

(** ** One row of a stage

    The body of a loop changes the row in place and the shared result, which may be a null pointer.
    It ends early by [continue], by an exception, or by dereferencing the null pointer. *)
Inductive leave := Continue | Thrown | Crash.

Section Stages.
Context {C : Connector}.

Definition state : Type := report_data * option ResultSet.
Definition body (A : Type) : Type := M state leave A.

(*@ tools/all_report/all_month_report.cpp 680-699 query *)
Definition query (sql : str) : body unit := λ '(i, res),
  match executeQuery sql with
  | Some r => (Ok tt, (i, Some r))
  | None => (Ok tt, (i, res))
  end.

Definition on_result {A} (f : ResultSet → option (A * ResultSet)) : body A := λ '(i, res),
  match res with
  | None => (Err Crash, (i, res))
  | Some r => match f r with Some (a, r) => (Ok a, (i, Some r)) | None => (Err Thrown, (i, Some r)) end
  end.
Definition next_row : body bool := on_result (λ r, Some (next r)).
Definition rows_count : body nat := on_result (λ r, Some (rowsCount r, r)).
Definition is_null (c : str) : body bool := on_result (λ r, (λ b, (b, r)) <$> isNull r c).
Definition get_string (c : str) : body str := on_result (λ r, (λ s, (s, r)) <$> getString r c).
Definition get_at (k : nat) : body str := on_result (λ r, (λ s, (s, r)) <$> getStringAt r k).
Definition get_double (c : str) : body spec_float := on_result (λ r, (λ d, (d, r)) <$> getDouble r c).

Definition row : body report_data := λ '(i, res), (Ok i, (i, res)).
Definition change (f : report_data → report_data) : body unit := λ '(i, res), (Ok tt, (f i, res)).
Definition when (b : bool) (m : body unit) : body unit := if b then m else mret tt.

(** [m_res->isNull(c) || m_res->getString(k) == ""], and with [m_res->rowsCount() < 1 ||] in front. *)
Definition null_or_empty (c : str) (k : nat) : body bool :=
  b ← is_null c;
  if b : bool then mret true else s ← get_at k; mret (bool_decide (s = [])).
Definition lacks (c : str) : body bool :=
  n ← rows_count;
  if n <? 1 then mret true else null_or_empty c 1.

(*@ tools/all_report/all_month_report.cpp 13-32 deal_with_pi *)
Definition pi_row : body unit :=
  i ← row;
  query (quoted of_pi (quotation_id i));;
  next_row;;
  b ← lacks (lit "pi_no");
  when (negb b) (s ← get_string (lit "pi_no"); change (λ i, {i with pi_no := s}));;
  b ← is_null (lit "buyer_po");
  when (negb b) (s ← get_string (lit "buyer_po"); change (λ i, {i with buyers_po := s}));;
  b ← is_null (lit "contract_no");
  when (negb b) (s ← get_string (lit "contract_no"); change (λ i, {i with contract_no := s})).

(*@ tools/all_report/all_month_report.cpp 55-132 deal_with_sales_country *)
Definition sales_country_row : body unit :=
  i ← row;
  query (quoted of_delivery (quotation_id i));;
  next_row;;
  b ← lacks (lit "delivery_country_id");
  when (negb b) (
    s ← get_at 1;
    query (quoted of_country_name s);;
    next_row;;
    b ← lacks (lit "full_name");
    when (negb b) (s ← get_string (lit "full_name"); change (λ i, {i with receiving_countries := s})));;
  query (quoted of_sales (quotation_id i));;
  next_row;;
  b ← lacks (lit "sales_id");
  when (negb b) (s ← get_string (lit "sales_id"); change (λ i, {i with owner_sales_sys_account_id := s}));;
  i ← row;
  query (quoted of_account (owner_sales_sys_account_id i));;
  next_row;;
  b ← lacks (lit "employee_no");
  when (negb b) (s ← get_string (lit "employee_no"); change (λ i, {i with sales_employee_id := s}));;
  i ← row;
  query (quoted of_role (sales_employee_id i));;
  next_row;;
  b ← lacks (lit "master_file_obj_id");
  when (negb b) (
    s ← get_at 1;
    query (quoted of_company s);;
    next_row;;
    b ← lacks (lit "short_name");
    when (negb b) (s ← get_string (lit "short_name"); change (λ i, {i with sales_company_name := s}))).

(** [std::map::operator[]] of a local map: an unknown status gives an empty name. *)
(*@ tools/all_report/all_month_report.cpp 167-168 deal_with_approved_status *)
Definition status_names : gmap str str := list_to_map (map (λ '(k, v), (lit k, lit v))
  [("0", "Pending"); ("1", "Draft"); ("2", "Submitted"); ("3", "Approved"); ("4", "Accepted"); ("5", "Canceled");
   ("6", "Expired"); ("7", "Rejected"); ("8", "QU_Generated"); ("9", "Refused"); ("10", "PI_Generated");
   ("11", "Paying"); ("12", "AR_Confirmed"); ("13", "SO_Generated")]%string).

(*@ tools/all_report/all_month_report.cpp 155-170 deal_with_approved_status *)
Definition approved_status_row : body unit :=
  i ← row;
  query (quoted of_approval (quotation_id i));;
  next_row;;
  b ← lacks (lit "approval_status");
  if b : bool then throw Continue
  else
    status ← get_at 1;
    change (λ i, {i with approval_status := default [] (status_names !! status)}).

(*@ tools/all_report/all_month_report.cpp 193-211 deal_with_trade_term_info *)
Definition trade_term_row : body unit :=
  i ← row;
  query (quoted of_trade_term_id (quotation_id i));;
  next_row;;
  b ← lacks (lit "trade_term_id");
  if b : bool then throw Continue
  else
    s ← get_at 1;
    query (quoted of_trade_term s);;
    next_row;;
    b ← lacks (lit "short_name");
    if b : bool then throw Continue
    else s ← get_string (lit "short_name"); change (λ i, {i with price_condition := s}).

(*@ tools/all_report/all_month_report.cpp 234-273 deal_with_product_info *)
Definition product_row : body unit :=
  i ← row;
  query (quoted of_item (quotation_detail_id i));;
  next_row;;
  b ← lacks (lit "item_master_id");
  if b : bool then throw Continue
  else
    s ← get_at 1;
    query (quoted of_item_master s);;
    next_row;;
    b ← lacks (lit "item_basic_id");
    if b : bool then throw Continue
    else
      s ← get_string (lit "product_code"); change (λ i, {i with product_name_id := s});;
      s ← get_string (lit "product_name"); change (λ i, {i with product_name := s});;
      s ← get_at 1;
      query (quoted of_item_basic s);;
      next_row;;
      b ← lacks (lit "item_category_id");
      if b : bool then throw Continue
      else
        s ← get_at 1;
        query (quoted of_category_link s);;
        next_row;;
        b ← lacks (lit "product_category_id");
        if b : bool then throw Continue
        else
          s ← get_at 1;
          query (quoted of_category s);;
          next_row;;
          b ← lacks (lit "parent_product_category_id");
          if b : bool then throw Continue else mret tt.

(*@ tools/all_report/all_month_report.cpp 296-315 deal_with_payment_method_info *)
Definition payment_method_row : body unit :=
  i ← row;
  query (quoted of_payment (quotation_id i));;
  next_row;;
  b ← lacks (lit "payment_method_id");
  if b : bool then throw Continue
  else
    s ← get_at 1;
    query (quoted of_payment_method s);;
    next_row;;
    b ← null_or_empty (lit "name") 1;
    if b : bool then throw Continue
    else s ← get_string (lit "name"); change (λ i, {i with payment_term_desc := s}).

(*@ tools/all_report/all_month_report.cpp 338-353 deal_with_currency_info *)
Definition currency_row : body unit :=
  i ← row;
  query (quoted of_currency_id (quotation_id i));;
  next_row;;
  b ← null_or_empty (lit "currency_id") 1;
  if b : bool then throw Continue
  else
    s ← get_at 1;
    query (quoted of_currency s);;
    next_row;;
    b ← null_or_empty (lit "code") 1;
    if b : bool then throw Continue
    else
      s ← get_string (lit "code"); change (λ i, {i with currency := s});;
      s ← get_string (lit "code"); change (λ i, {i with price_total_currency := s});;
      s ← get_string (lit "code"); change (λ i, {i with guided_currency := s}).

(** The customer, in the second half of the body. *)
(*@ tools/all_report/all_month_report.cpp 399-431 deal_with_customer_info *)
Definition customer_basic_row : body unit :=
  i ← row;
  query (quoted of_customer_id (quotation_id i));;
  next_row;;
  b ← is_null (lit "customer_basic_id");
  if b : bool then throw Continue
  else
    s ← get_at 1;
    query (quoted of_customer s);;
    next_row;;
    b ← null_or_empty (lit "country_id") 1;
    if b : bool then throw Continue
    else
      s ← get_at 1; change (λ i, {i with country_id := s});;
      b ← null_or_empty (lit "trade_name") 2;
      when (negb b) (s ← get_at 2; change (λ i, {i with account_name := s}));;
      s ← get_at 1;
      query (quoted of_country s);;
      next_row;;
      b ← is_null (lit "full_name");
      if b : bool then throw Continue
      else
        s ← get_at 1; change (λ i, {i with customer_countries := s});;
        b ← is_null (lit "area_id");
        if b : bool then throw Continue
        else
          s ← get_at 2;
          query (quoted of_area s);;
          next_row;;
          b ← is_null (lit "full_name");
          if b : bool then throw Continue
          else s ← get_at 1; change (λ i, {i with country_region := s}).

(*@ tools/all_report/all_month_report.cpp 377-432 deal_with_customer_info *)
Definition customer_row : body unit :=
  i ← row;
  query (quoted of_delivery (quotation_id i));;
  next_row;;
  s ← get_at 1;
  query (quoted of_country s);;
  next_row;;
  b ← is_null (lit "full_name");
  when (negb b) (s ← get_string (lit "full_name"); change (λ i, {i with receiving_countries := s}));;
  b ← is_null (lit "area_id");
  when (negb b) (
    s ← get_string (lit "area_id");
    query (quoted of_area_short s);;
    next_row;;
    b ← is_null (lit "short_name");
    when (negb b) (s ← get_string (lit "short_name"); change (λ i, {i with import_area := s})));;
  customer_basic_row.

(*@ tools/all_report/all_month_report.cpp 456-485 deal_with_sales_info *)
Definition sales_row : body unit :=
  i ← row;
  query (quoted of_sales (quotation_id i));;
  next_row;;
  s ← get_at 1;
  query (quoted of_account s);;
  next_row;;
  s ← get_string (lit "employee_no");
  query (quoted of_employee s);;
  next_row;;
  s ← get_string (lit "full_name"); change (λ i, {i with sales_full_name := s}).

(** ** Stages *)

(** The loop over the rows: they and [m_res] at the end, with what is thrown caught; [None] when the
    null pointer is dereferenced. *)
(*@ tools/all_report/all_month_report.cpp 9-50 deal_with_pi *)
Fixpoint for_each (f : body unit) (todo : list report_data) (res : option ResultSet) : option (list report_data * option ResultSet) :=
  match todo with
  | [] => Some ([], res)
  | i :: todo =>
      match f (i, res) with
      | (Err Crash, _) => None
      | (Err Thrown, (i, res)) => Some (i :: todo, res)
      | (_, (i, res)) => '(todo, res) ← for_each f todo res; Some (i :: todo, res)
      end
  end.

(*@ tools/all_report/all_month_report.cpp 9-50 deal_with_pi *)
Definition deal_with_pi := for_each pi_row.
(*@ tools/all_report/all_month_report.cpp 51-150 deal_with_sales_country *)
Definition deal_with_sales_country := for_each sales_country_row.
(*@ tools/all_report/all_month_report.cpp 151-188 deal_with_approved_status *)
Definition deal_with_approved_status := for_each approved_status_row.
(*@ tools/all_report/all_month_report.cpp 189-229 deal_with_trade_term_info *)
Definition deal_with_trade_term_info := for_each trade_term_row.
(*@ tools/all_report/all_month_report.cpp 230-291 deal_with_product_info *)
Definition deal_with_product_info := for_each product_row.
(*@ tools/all_report/all_month_report.cpp 292-333 deal_with_payment_method_info *)
Definition deal_with_payment_method_info := for_each payment_method_row.
(*@ tools/all_report/all_month_report.cpp 334-371 deal_with_currency_info *)
Definition deal_with_currency_info := for_each currency_row.
(*@ tools/all_report/all_month_report.cpp 372-450 deal_with_customer_info *)
Definition deal_with_customer_info := for_each customer_row.
(*@ tools/all_report/all_month_report.cpp 451-504 deal_with_sales_info *)
Definition deal_with_sales_info := for_each sales_row.

(** ** The first query *)

(** One row of the first result, into a new [report_data]. *)
(*@ tools/all_report/all_month_report.cpp 513-540 insert_data *)
Definition detail_row : body unit :=
  s ← get_string (lit "quotation_id"); change (λ i, {i with quotation_id := s});;
  s ← get_string (lit "quotation_detail_id"); change (λ i, {i with quotation_detail_id := s});;
  s ← get_string (lit "quotation_no"); change (λ i, {i with quotation_no := s});;
  d ← get_double (lit "product_qty_pc"); change (λ i, {i with product_qty_pc := d});;
  b ← is_null (lit "module_extend_prop");
  (if negb b then
     p ← get_double (lit "product_qty_pc");
     e ← get_double (lit "module_extend_prop");
     change (λ i, {i with product_qty_w := dmul p e})
   else change (λ i, {i with product_qty_w := zero}));;
  b ← is_null (lit "guidance_price");
  when (negb b) (
    d ← get_double (lit "guidance_price"); change (λ i, {i with guidance_price := d});;
    i ← row;
    d ← get_double (lit "guidance_price"); change (λ j, {j with total_guidance_price := dmul (product_qty_w i) d}));;
  b ← is_null (lit "unit_price");
  when (negb b) (
    d ← get_double (lit "unit_price"); change (λ i, {i with unit_price := d});;
    change (λ i, {i with price_total := dmul (unit_price i) (product_qty_w i)}));;
  s ← get_string (lit "creat_at"); change (λ i, {i with creat_at := s}).

(** The loop over the first result; [None] when the fuel runs out. *)
(*@ tools/all_report/all_month_report.cpp 507-543 insert_data *)
Fixpoint insert_rows (fuel : nat) (r : ResultSet) (datas : list report_data) : option (list report_data * ResultSet) :=
  match fuel with
  | O => None
  | S fuel =>
      let '(b, r) := next r in
      if b then
        match detail_row (new_data, Some r) with
        | (Ok _, (i, _)) => insert_rows fuel r (datas ++ [i])
        | (Err _, _) => Some (datas, r)
        end
      else Some (datas, r)
  end.

(** ** The workbook *)

(** What is written to a cell: a text goes by [c_str]. *)
Inductive cell := Text (s : str) | Number (d : spec_float).

(*@ tools/all_report/all_month_report.cpp 587-590 write_to_excel *)
Definition titles : list str := map lit
  ["Quotation_NO."; "Sales"; "Sales_Company"; "Customer"; "Country"; "Destination_Country"; "Import_Area";
   "Approval_Status"; "Trade_Term"; "Product_Classification"; "Product_Code"; "Qty(PCS)"; "Power(Wp)";
   "Unit_price_Currency"; "Unit_price"; "Guidance_Price_Currency"; "Guidance_Price"; "Total_Price";
   "Guided_Total_Price"; "Payment_Terms"; "Quotation_Date"]%string.

(*@ tools/all_report/all_month_report.cpp 598-622 write_to_excel *)
Definition excel_row (x : report_data) : list cell :=
  let text s := Text (c_str s) in
  [text (quotation_no x); text (sales_full_name x); text (sales_company_name x); text (account_name x);
   text (customer_countries x); text (receiving_countries x); text (import_area x); text (approval_status x);
   text (price_condition x); text (product_name x); text (product_name_id x); Number (product_qty_pc x);
   Number (product_qty_w x); text (currency x); Number (unit_price x); text (guided_currency x);
   Number (guidance_price x); Number (price_total x); Number (total_guidance_price x);
   text (payment_term_desc x); text (creat_at x)].

(*@ tools/all_report/all_month_report.cpp 574-623 write_to_excel *)
Definition write_to_excel (datas : list report_data) : list str * list (list cell) := (titles, map excel_row datas).

(** ** The report *)
Inductive ending := Workbook (titles : list str) (rows : list (list cell)) | Crashed | OutOfFuel.

(*@ tools/all_report/all_month_report.cpp 505-562 insert_data *)
Definition insert_data (fuel : nat) (res : option ResultSet) : option (option (list report_data * ResultSet)) :=
  match res with None => None | Some r => Some (insert_rows fuel r []) end.

(** The stages in their order. *)
(*@ tools/all_report/all_month_report.cpp 649-657 start *)
Definition stages : list (list report_data → option ResultSet → option (list report_data * option ResultSet)) :=
  [deal_with_sales_info; deal_with_customer_info; deal_with_currency_info; deal_with_payment_method_info;
   deal_with_product_info; deal_with_trade_term_info; deal_with_sales_country; deal_with_approved_status; deal_with_pi].

Fixpoint run_stages (ss : list (list report_data → option ResultSet → option (list report_data * option ResultSet)))
    (datas : list report_data) (res : option ResultSet) : option (list report_data) :=
  match ss with
  | [] => Some datas
  | s :: ss => '(datas, res) ← s datas res; run_stages ss datas res
  end.

(*@ tools/all_report/all_month_report.cpp 624-679 start *)
Definition start (fuel : nat) : ending :=
  match insert_data fuel (executeQuery of_report) with
  | None => Crashed
  | Some None => OutOfFuel
  | Some (Some (datas, r)) =>
      match run_stages stages datas (Some r) with
      | None => Crashed
      | Some datas => let '(t, rows) := write_to_excel datas in Workbook t rows
      end
  end.
End Stages.
End Report.
