(* ===== verification/ReportSpec.v ===== *)
(** * The report has a line for each detail, and a stage stops at the first gap (properties of Report.v) *)
From Stdlib Require Import Floats.SpecFloat.
From coqutil Require Import Datatypes.RecordSetters.
From S2P Require Import Prelude CppString Report.
Import OCamlLikeNotations Report.

Module ReportSpec.

(** ** What the stages leave alone *)
Section Frame.
Context {C : Connector}.

(** The columns that come from the first query. *)
Definition basis (i : report_data) :=
  (quotation_id i, quotation_detail_id i, quotation_no i,
   (product_qty_pc i, product_qty_w i, unit_price i, price_total i, guidance_price i, total_guidance_price i), creat_at i).

(** A body keeps the basis and the result; where there is a result it does not dereference null. *)
Definition keeps {A} (m : body A) : Prop := ∀ b,
  triple (λ s, basis s.1 = b ∧ s.2 ≠ None) m (λ _ s, basis s.1 = b ∧ s.2 ≠ None) (λ e s, e ≠ Crash ∧ basis s.1 = b ∧ s.2 ≠ None).

Lemma keeps_bind {A B} (m : body A) (f : A → body B) : keeps m → (∀ a, keeps (f a)) → keeps (m ≫= f).
Proof. intros Hm Hf b. eapply triple_bind; [apply Hm|]. intros a. apply Hf. Qed.
Lemma keeps_ret {A} (a : A) : keeps (mret a).
Proof. intros b. by apply triple_ret. Qed.
Lemma keeps_continue {A} : keeps (throw (A := A) Continue).
Proof. intros b. by apply triple_throw. Qed.
Lemma keeps_on_result {A} (f : ResultSet → option (A * ResultSet)) : keeps (on_result f).
Proof. intros b [i [r|]] [Hb Hr]; [|done]. unfold on_result. by destruct (f r) as [[a r']|]. Qed.
Lemma keeps_query sql : keeps (query sql).
Proof. intros b [i r] H. unfold query. destruct (executeQuery sql); simpl; [split; [apply H|discriminate]|exact H]. Qed.
Lemma keeps_row : keeps row.
Proof. by intros b [i r] H. Qed.
Lemma keeps_change f : (∀ i, basis (f i) = basis i) → keeps (change f).
Proof. intros Hf b [i r] [<- Hr]. simpl in *. by rewrite Hf. Qed.
Lemma keeps_when b (m : body unit) : keeps m → keeps (when b m).
Proof. intros H. destruct b; [done|apply keeps_ret]. Qed.
Lemma keeps_if {A} (b : bool) (m n : body A) : keeps m → keeps n → keeps (if b then m else n).
Proof. by destruct b. Qed.
End Frame.

Section Lines.
Context {C : Connector}.

Ltac keeps_tac := intros; repeat first
  [ apply keeps_bind; [|intros ?] | apply keeps_when | apply keeps_if | apply keeps_ret | apply keeps_continue
  | apply keeps_query | apply keeps_row | apply keeps_on_result | apply keeps_change; done ].

Lemma row_keeps : Forall (λ f : body unit, keeps f)
  [sales_row; customer_row; currency_row; payment_method_row; product_row; trade_term_row; sales_country_row; approved_status_row; pi_row].
Proof. repeat constructor; keeps_tac. Qed.

Lemma for_each_keeps f todo r : keeps f →
  ∃ todo' r', for_each f todo (Some r) = Some (todo', Some r') ∧ map basis todo' = map basis todo.
Proof.
  intros Hf. revert r. induction todo as [|i todo IH]; intros r; [by exists [], r|]. cbn [for_each].
  specialize (Hf (basis i) (i, Some r) ltac:(done)). destruct (f (i, Some r)) as [[u|e] [i' res']]; simpl in Hf.
  - destruct Hf as [Hb Hr]. destruct res' as [r'|]; [|done]. destruct (IH r') as (t & r'' & -> & Ht). exists (i' :: t), r''. simpl. by rewrite Hb, Ht.
  - destruct Hf as (He & Hb & Hr). destruct res' as [r'|]; [|done]. destruct e; [|exists (i' :: todo), r'; simpl; by rewrite Hb|done].
    destruct (IH r') as (t & r'' & -> & Ht). exists (i' :: t), r''. simpl. by rewrite Hb, Ht.
Qed.

Lemma stages_keep datas r : ∃ datas', run_stages stages datas (Some r) = Some datas' ∧ map basis datas' = map basis datas.
Proof.
  assert (stages = map for_each [sales_row; customer_row; currency_row; payment_method_row; product_row; trade_term_row; sales_country_row; approved_status_row; pi_row]) as -> by done.
  pose proof row_keeps as H. revert datas r. induction H as [|f fs Hf Hfs IH]; intros datas r; [by exists datas|]. cbn [map run_stages].
  destruct (for_each_keeps f datas r Hf) as (d' & r' & -> & Hd). destruct (IH d' r') as (d'' & E & Hd''). exists d''. simpl. by rewrite E, Hd''.
Qed.
End Lines.

(** ** What the library documents *)

(** The columns of each query. *)
Definition selects : list (str * list string) :=
  [(of_pi, ["pi_no"; "buyer_po"; "contract_no"]); (of_delivery, ["delivery_country_id"]); (of_country_name, ["full_name"]);
   (of_sales, ["sales_id"]); (of_account, ["employee_no"]); (of_role, ["master_file_obj_id"]); (of_company, ["short_name"]);
   (of_approval, ["approval_status"]); (of_trade_term_id, ["trade_term_id"]); (of_trade_term, ["short_name"]);
   (of_item, ["item_master_id"]); (of_item_master, ["item_basic_id"; "product_code"; "product_name"]);
   (of_item_basic, ["item_category_id"]); (of_category_link, ["product_category_id"]);
   (of_category, ["parent_product_category_id"]); (of_payment, ["payment_method_id"]); (of_payment_method, ["name"]);
   (of_currency_id, ["currency_id"]); (of_currency, ["code"]); (of_country, ["full_name"; "area_id"]);
   (of_area_short, ["short_name"]); (of_area, ["full_name"]); (of_customer_id, ["customer_basic_id"]);
   (of_customer, ["country_id"; "trade_name"]); (of_employee, ["full_name"; "position_id"])]%string.
Definition report_labels : list str := map lit
  ["quotation_id"; "quotation_detail_id"; "quotation_no"; "product_qty_pc"; "guidance_price"; "module_extend_prop"; "unit_price"; "creat_at"]%string.

Definition column (c : str) (labels : list str) : option nat := fst <$> list_find (λ l, l = c) labels.

(** A result is a table with a cursor that stands before the first row, on a row or behind the last;
    a getter throws unless it stands on a row that has the column; NULL reads as an empty text and as
    the number [number None]. *)
Class ConnectorLaws (C : Connector) := {
  labels : ResultSet → list str;
  rows : ResultSet → list (list (option str));
  passed : ResultSet → nat;
  number : option str → spec_float;
  current r := match passed r with O => None | S n => rows r !! n end;
  field r c := x ← current r; k ← column c (labels r); x !! k;
  rows_width : ∀ r x, x ∈ rows r → length x = length (labels r);
  execute_start : ∀ sql r, executeQuery sql = Some r → passed r = 0;
  execute_labels : ∀ p ls id r, (p, ls) ∈ selects → executeQuery (quoted p id) = Some r → labels r = map lit ls;
  execute_report : ∀ r, executeQuery of_report = Some r → labels r = report_labels;
  next_passed : ∀ r, passed (next r).2 = Nat.min (S (passed r)) (S (length (rows r)));
  next_row_left : ∀ r, (next r).1 = bool_decide (passed r < length (rows r));
  next_same : ∀ r, labels (next r).2 = labels r ∧ rows (next r).2 = rows r;
  rowsCount_rows : ∀ r, rowsCount r = length (rows r);
  isNull_field : ∀ r c, isNull r c = (λ v : option str, bool_decide (v = None)) <$> field r c;
  getString_field : ∀ r c, getString r c = default [] <$> field r c;
  getStringAt_field : ∀ r k, getStringAt r (S k) = default [] <$> (x ← current r; x !! k);
  getDouble_field : ∀ r c, getDouble r c = number <$> field r c;
}.

(** ** The first query *)
Section Details.
Context {C : Connector} {L : ConnectorLaws C}.

(** The line of a row of the first result. *)
Definition detail (x : list (option str)) : report_data :=
  let v k := default None (x !! k) in
  let text k := default [] (v k) in
  let num k := number (v k) in
  let w := match v 5 with Some _ => dmul (num 3) (num 5) | None => zero end in
  {new_data with
    quotation_id := text 0; quotation_detail_id := text 1; quotation_no := text 2; product_qty_pc := num 3; product_qty_w := w;
    guidance_price := match v 4 with Some _ => num 4 | None => zero end;
    total_guidance_price := match v 4 with Some _ => dmul w (num 4) | None => zero end;
    unit_price := match v 6 with Some _ => num 6 | None => zero end;
    price_total := match v 6 with Some _ => dmul (num 6) w | None => zero end;
    creat_at := text 7}.

(** Running the steps of a body. *)
Lemma run_row {A} (f : report_data → body A) i res : (row ≫= f) (i, res) = f i (i, res).
Proof. done. Qed.
Lemma run_change {A} g (f : unit → body A) i res : (change g ≫= f) (i, res) = f tt (g i, res).
Proof. done. Qed.
Lemma run_ret {A B} (a : A) (f : A → body B) s : (mret a ≫= f) s = f a s.
Proof. done. Qed.
Lemma run_assoc {A B D} (m : body A) (f : A → body B) (g : B → body D) s : ((m ≫= f) ≫= g) s = (m ≫= λ a, f a ≫= g) s.
Proof. apply bind_assoc. Qed.
Lemma run_get_string {A} r c v (f : str → body A) i : field r c = Some v →
  (get_string c ≫= f) (i, Some r) = f (default [] v) (i, Some r).
Proof. intros H. unfold get_string, on_result, mbind, M_bind. by rewrite getString_field, H. Qed.
Lemma run_get_double {A} r c v (f : spec_float → body A) i : field r c = Some v →
  (get_double c ≫= f) (i, Some r) = f (number v) (i, Some r).
Proof. intros H. unfold get_double, on_result, mbind, M_bind. by rewrite getDouble_field, H. Qed.
Lemma run_is_null {A} r c v (f : bool → body A) i : field r c = Some v →
  (is_null c ≫= f) (i, Some r) = f (bool_decide (v = None)) (i, Some r).
Proof. intros H. unfold is_null, on_result, mbind, M_bind. by rewrite isNull_field, H. Qed.

Lemma null_is (v : option str) : bool_decide (v = None) = match v with Some _ => false | None => true end.
Proof. by destruct v. Qed.

Ltac read_fields Hf := repeat first
  [ rewrite run_change | rewrite run_row | rewrite run_ret | rewrite run_assoc | progress cbn [when negb]
  | rewrite null_is
  | erewrite run_get_string by (eapply Hf; [vm_compute; reflexivity|reflexivity])
  | erewrite run_get_double by (eapply Hf; [vm_compute; reflexivity|reflexivity])
  | erewrite run_is_null by (eapply Hf; [vm_compute; reflexivity|reflexivity]) ].

Lemma detail_row_spec r x : labels r = report_labels → current r = Some x → x ∈ rows r →
  detail_row (new_data, Some r) = (Ok tt, (detail x, Some r)).
Proof.
  intros Hl Hc Hx. apply rows_width in Hx. rewrite Hl in Hx.
  destruct x as [|v0 [|v1 [|v2 [|v3 [|v4 [|v5 [|v6 [|v7 [|? ?]]]]]]]]]; try discriminate Hx.
  assert (∀ c k v, column c report_labels = Some k → [v0; v1; v2; v3; v4; v5; v6; v7] !! k = Some v → field r c = Some v) as Hf.
  { intros c k v Hk Hv. unfold field. rewrite Hc, Hl. simpl. rewrite Hk. done. }
  unfold detail_row. destruct v4, v5, v6; read_fields Hf; reflexivity.
Qed.

Lemma insert_rows_spec r fuel : labels r = report_labels → passed r ≤ length (rows r) → length (rows r) - passed r < fuel →
  ∀ datas, ∃ r', insert_rows fuel r datas = Some (datas ++ map detail (drop (passed r) (rows r)), r').
Proof.
  revert r. induction fuel as [|fuel IH]; intros r Hl Hp Hf datas; [lia|]. cbn [insert_rows].
  pose proof (next_passed r) as H1. pose proof (next_row_left r) as H2. destruct (next_same r) as [H3 H4].
  destruct (next r) as [b r'] eqn:E. simpl in *.
  assert (passed r `min` length (rows r) = passed r) as Hmin by lia. rewrite Hmin in H1. case_bool_decide as Hlt; subst b.
  - destruct (lookup_lt_is_Some_2 (rows r) (passed r) Hlt) as [x Hx].
    rewrite (detail_row_spec r' x); [|congruence| |rewrite H4; by eapply list_elem_of_lookup_2].
    + destruct (IH r') with (datas := datas ++ [detail x]) as [r'' Hr]; [congruence|rewrite H4; lia..|].
      exists r''. rewrite Hr, H4, H1.
      rewrite (drop_S _ _ _ Hx). cbn [map app]. by rewrite <- app_assoc.
    + unfold current. by rewrite H1, H4.
  - exists r'. rewrite drop_ge by lia. by rewrite app_nil_r.
Qed.

Lemma insert_data_spec r fuel : executeQuery of_report = Some r → length (rows r) < fuel →
  ∃ r', insert_data fuel (executeQuery of_report) = Some (Some (map detail (rows r), r')).
Proof.
  intros E Hf. pose proof (execute_start _ _ E) as Hp. rewrite E. unfold insert_data.
  destruct (insert_rows_spec r fuel) with (datas := @nil report_data) as [r' Hr]; [by apply execute_report|lia..|].
  exists r'. rewrite Hr, Hp. done.
Qed.

(** When the first query is answered, the report ends in a workbook with one line for each row of
    the result, in the order of the result, and the columns that come from it (the numbers, power as
    quantity times power per piece, the two totals as power times price, and the date) are those of
    its row, whatever the later queries answer, fail at or throw. *)
Theorem report_has_every_line r fuel : executeQuery of_report = Some r → length (rows r) < fuel →
  ∃ datas, start fuel = Workbook titles (map excel_row datas) ∧ map basis datas = map basis (map detail (rows r)).
Proof.
  intros E Hf. destruct (insert_data_spec r fuel E Hf) as [r' Hi]. unfold start. rewrite Hi.
  destruct (stages_keep (map detail (rows r)) r') as (datas & -> & Hd). by exists datas.
Qed.
End Details.

(** ** What a stage is to do *)
Section Joins.
Context {C : Connector} {L : ConnectorLaws C}.

(** The rows that answer a query; a column of the first of them, and as a text. *)
Definition answer (sql : str) : list (list (option str)) := from_option rows [] (executeQuery sql).
Definition found (sql : str) : bool := bool_decide (answer sql ≠ []).
Definition given (sql : str) (k : nat) : option str := x ← head (answer sql); v ← x !! k; v.
Definition value (sql : str) (k : nat) : str := default [] (given sql k).
(** From a key to the first column of the row it names; nothing from nothing. *)
Definition hop (select key : str) : str := if decide (key = []) then [] else value (quoted select key) 0.

Definition unless_empty (s : str) (f : str → report_data → report_data) (i : report_data) : report_data :=
  if decide (s = []) then i else f s i.
Definition if_given (v : option str) (f : str → report_data → report_data) (i : report_data) : report_data :=
  match v with Some s => f s i | None => i end.

(** A row as a stage leaves it, and whether the stage goes on: it stops at a row for which a query
    that must be answered is not. *)
Definition outcome : Type := report_data * bool.
Definition need (sql : str) (i : report_data) (k : outcome) : outcome := if found sql then k else (i, false).

Definition sales_spec i : outcome :=
  let q1 := quoted of_sales (quotation_id i) in
  need q1 i (let q2 := quoted of_account (value q1 0) in
  need q2 i (let q3 := quoted of_employee (value q2 0) in
  need q3 i ({i with sales_full_name := value q3 0}, true))).

Definition currency_spec i : outcome :=
  let q1 := quoted of_currency_id (quotation_id i) in
  need q1 i (if decide (value q1 0 = []) then (i, true) else
  let q2 := quoted of_currency (value q1 0) in
  need q2 i (unless_empty (value q2 0) (λ s i, {i with currency := s; price_total_currency := s; guided_currency := s}) i, true)).

Definition payment_spec i : outcome :=
  let p := value (quoted of_payment (quotation_id i)) 0 in
  if decide (p = []) then (i, true) else
  let q := quoted of_payment_method p in
  need q i (unless_empty (value q 0) (λ s i, {i with payment_term_desc := s}) i, true).

Definition product_spec i : outcome :=
  let m := value (quoted of_item (quotation_detail_id i)) 0 in
  let q := quoted of_item_master m in
  (if decide (hop of_item_master m = []) then i else {i with product_name_id := value q 1; product_name := value q 2}, true).

Definition trade_spec i : outcome :=
  (unless_empty (hop of_trade_term (value (quoted of_trade_term_id (quotation_id i)) 0)) (λ s i, {i with price_condition := s}) i, true).

Definition country_spec i : outcome :=
  let q := quotation_id i in
  let i := unless_empty (hop of_country_name (value (quoted of_delivery q) 0)) (λ s i, {i with receiving_countries := s}) i in
  let i := unless_empty (value (quoted of_sales q) 0) (λ s i, {i with owner_sales_sys_account_id := s}) i in
  let i := unless_empty (value (quoted of_account (owner_sales_sys_account_id i)) 0) (λ s i, {i with sales_employee_id := s}) i in
  (unless_empty (hop of_company (value (quoted of_role (sales_employee_id i)) 0)) (λ s i, {i with sales_company_name := s}) i, true).

Definition approved_spec i : outcome :=
  (unless_empty (value (quoted of_approval (quotation_id i)) 0) (λ s i, {i with approval_status := default [] (status_names !! s)}) i, true).

Definition pi_spec i : outcome :=
  let q := quoted of_pi (quotation_id i) in
  need q i
    (if_given (given q 2) (λ s i, {i with contract_no := s})
      (if_given (given q 1) (λ s i, {i with buyers_po := s})
        (unless_empty (value q 0) (λ s i, {i with pi_no := s}) i)), true).

Definition customer_basic_spec i : outcome :=
  let q3 := quoted of_customer_id (quotation_id i) in
  need q3 i (match given q3 0 with None => (i, true) | Some c =>
  let q4 := quoted of_customer c in
  need q4 i (if decide (value q4 0 = []) then (i, true) else
  let i := unless_empty (value q4 1) (λ s i, {i with account_name := s}) {i with country_id := value q4 0} in
  let q5 := quoted of_country (value q4 0) in
  need q5 i (match given q5 0 with None => (i, true) | Some n =>
  let i := {i with customer_countries := n} in
  match given q5 1 with None => (i, true) | Some a =>
  let q6 := quoted of_area a in
  need q6 i (if_given (given q6 0) (λ s i, {i with country_region := s}) i, true) end end)) end).

Definition customer_spec i : outcome :=
  let q1 := quoted of_delivery (quotation_id i) in
  need q1 i (let q2 := quoted of_country (value q1 0) in
  need q2 i (
    let i := if_given (given q2 0) (λ s i, {i with receiving_countries := s}) i in
    match given q2 1 with
    | None => customer_basic_spec i
    | Some a =>
        let q := quoted of_area_short a in
        need q i (customer_basic_spec (if_given (given q 0) (λ s i, {i with import_area := s}) i))
    end)).

(** A stage over the rows: those behind one that stops it stay as they are. *)
Fixpoint settle (spec : report_data → outcome) (todo : list report_data) : list report_data :=
  match todo with
  | [] => []
  | i :: todo => let '(i, ok) := spec i in i :: (if ok then settle spec todo else todo)
  end.

Definition specs : list (report_data → outcome) :=
  [sales_spec; customer_spec; currency_spec; payment_spec; product_spec; trade_spec; country_spec; approved_spec; pi_spec].

(** ** The stages do it *)

(** A result that stands on the first row of its answer, if there is one. *)
Definition showing (r : ResultSet) (sql : str) (ls : list string) : Prop :=
  rows r = answer sql ∧ labels r = map lit ls ∧ passed r = 1.

Definition ends (o : outcome) (x : result leave unit * state) : Prop :=
  ∃ r, x.2 = (o.1, Some r) ∧ match x.1 with Err Crash => False | Err Thrown => o.2 = false | _ => o.2 = true end.

Definition answered : Prop := ∀ sql, is_Some (executeQuery sql).

Lemma ends_done o r : o.2 = true → ends o (Ok tt, (o.1, Some r)).
Proof. intros H. by exists r. Qed.
Lemma ends_continue o r : o.2 = true → ends o (throw (A := unit) (E := leave) Continue (o.1, Some r)).
Proof. intros H. by exists r. Qed.

Lemma ends_ask (Hup : answered) p ls id (k : body unit) i r0 o : (p, ls) ∈ selects →
  (∀ r, showing r (quoted p id) ls → ends o (k (i, Some r))) →
  ends o ((query (quoted p id);; next_row;; k) (i, Some r0)).
Proof.
  intros Hp H. unfold mbind, M_bind, query. destruct (Hup (quoted p id)) as [r Hr]. rewrite Hr.
  unfold next_row, on_result. pose proof (next_passed r) as H1. destruct (next_same r) as [H2 H3]. destruct (next r) as [b r'] eqn:E.
  simpl in *. apply H. pose proof (execute_start _ _ Hr). split_and!.
  - unfold answer. by rewrite Hr.
  - rewrite H2. by eapply execute_labels.
  - lia.
Qed.

Section Reading.
Context {r : ResultSet} {sql : str} {ls : list string}.
Hypothesis Hr : showing r sql ls.

Lemma showing_current : current r = head (answer sql).
Proof. destruct Hr as (H1 & _ & H3). unfold current. rewrite H3, H1. by destruct (answer sql). Qed.

Lemma showing_width x : head (answer sql) = Some x → length x = length ls.
Proof.
  destruct Hr as (H1 & H2 & _). intros Hx. rewrite <- (length_map lit ls), <- H2. apply rows_width. rewrite H1.
  destruct (answer sql); [done|]. injection Hx as ->. left.
Qed.

(** A column of the first row, where there is one. *)
Lemma showing_at k : k < length ls → (x ← current r; x !! k) = if found sql then Some (given sql k) else None.
Proof.
  intros Hk. rewrite showing_current. unfold found, given. destruct (head (answer sql)) as [x|] eqn:E; simpl.
  - apply showing_width in E as Hw. destruct (answer sql); [done|]. simpl.
    destruct (lookup_lt_is_Some_2 x k) as [v Hv]; [lia|]. by rewrite Hv.
  - by destruct (answer sql).
Qed.

Lemma showing_field c k : column c (map lit ls) = Some k → k < length ls → field r c = if found sql then Some (given sql k) else None.
Proof.
  intros Hc Hk. rewrite <- (showing_at k Hk). unfold field. destruct Hr as (_ & -> & _). destruct (current r) as [x|]; [|done].
  simpl. by rewrite Hc.
Qed.
End Reading.

Lemma not_found sql k : found sql = false → given sql k = None ∧ value sql k = [].
Proof.
  unfold found, value, given. intros H%bool_decide_eq_false. destruct (answer sql); [done|]. destruct H. done.
Qed.

(** One step of a body, on a result that shows the answer to [sql]. *)
Section Steps.
Context {r : ResultSet} {sql : str} {ls : list string}.
Hypothesis Hr : showing r sql ls.
Context (o : outcome) (i : report_data).

Lemma ends_get_string c k (f : str → body unit) : column c (map lit ls) = Some k → k < length ls →
  (found sql = true → ends o (f (value sql k) (i, Some r))) → (found sql = false → o = (i, false)) →
  ends o ((get_string c ≫= f) (i, Some r)).
Proof.
  intros Hc Hk H1 H2. unfold get_string, on_result, mbind, M_bind. rewrite getString_field, (showing_field Hr c k) by done.
  destruct (found sql); simpl; [by apply H1|]. rewrite H2 by done. by exists r.
Qed.

Lemma ends_get_at k (f : str → body unit) : k < length ls →
  (found sql = true → ends o (f (value sql k) (i, Some r))) → (found sql = false → o = (i, false)) →
  ends o ((get_at (S k) ≫= f) (i, Some r)).
Proof.
  intros Hk H1 H2. unfold get_at, on_result, mbind, M_bind. rewrite getStringAt_field, (showing_at Hr k) by done.
  destruct (found sql); simpl; [by apply H1|]. rewrite H2 by done. by exists r.
Qed.

Lemma ends_is_null c k (f : bool → body unit) : column c (map lit ls) = Some k → k < length ls →
  (found sql = true → ends o (f (bool_decide (given sql k = None)) (i, Some r))) → (found sql = false → o = (i, false)) →
  ends o ((is_null c ≫= f) (i, Some r)).
Proof.
  intros Hc Hk H1 H2. unfold is_null, on_result, mbind, M_bind. rewrite isNull_field, (showing_field Hr c k) by done.
  destruct (found sql); simpl; [by apply H1|]. rewrite H2 by done. by exists r.
Qed.

Lemma ends_is_given c k (f : bool → body unit) : column c (map lit ls) = Some k → k < length ls →
  (∀ v, found sql = true → given sql k = Some v → value sql k = v → ends o (f false (i, Some r))) →
  (found sql = true → given sql k = None → ends o (f true (i, Some r))) →
  (found sql = false → o = (i, false)) → ends o ((is_null c ≫= f) (i, Some r)).
Proof.
  intros Hc Hk H1 H2 H3. apply (ends_is_null c k); [done|done| |done]. intros Hf. rewrite null_is.
  destruct (given sql k) as [v|] eqn:Hg; [|by apply H2]. eapply H1; [done|done|]. unfold value. by rewrite Hg.
Qed.

Lemma ends_null_or_empty c k (f : bool → body unit) : column c (map lit ls) = Some k → k < length ls →
  (found sql = true → ends o (f (bool_decide (value sql k = [])) (i, Some r))) → (found sql = false → o = (i, false)) →
  ends o ((null_or_empty c (S k) ≫= f) (i, Some r)).
Proof.
  intros Hc Hk H1 H2. unfold null_or_empty. rewrite run_assoc. apply (ends_is_null c k); [done|done| |done]. intros Hf.
  unfold value in H1. rewrite null_is. destruct (given sql k) as [v|] eqn:Hg; [|rewrite run_ret; by apply H1].
  rewrite run_assoc. apply ends_get_at; [done| |by rewrite Hf]. intros _. unfold value. rewrite Hg, run_ret. by apply H1.
Qed.

Lemma ends_lacks c (f : bool → body unit) : column c (map lit ls) = Some 0 → 0 < length ls →
  ends o (f (bool_decide (value sql 0 = [])) (i, Some r)) → ends o ((lacks c ≫= f) (i, Some r)).
Proof.
  intros Hc Hl H. unfold lacks. rewrite run_assoc. unfold rows_count at 1, on_result at 1. unfold mbind at 1, M_bind at 1.
  rewrite rowsCount_rows. destruct Hr as (Hrows & _). rewrite Hrows. destruct (found sql) eqn:Hf.
  - replace (length (answer sql) <? 1) with false; [apply (ends_null_or_empty c 0); by rewrite ?Hf|].
    symmetry. apply Nat.ltb_ge. unfold found in Hf. apply bool_decide_eq_true in Hf. destruct (answer sql); [done|simpl; lia].
  - destruct (not_found sql 0 Hf) as [_ Hv]. rewrite Hv in H. replace (length (answer sql) <? 1) with true; [exact H|].
    unfold found in Hf. apply bool_decide_eq_false in Hf. destruct (answer sql); [done|]. destruct Hf. done.
Qed.
End Steps.

Lemma ends_change o g i r : o = (g i, true) → ends o (change g (i, Some r)).
Proof. intros ->. by exists r. Qed.
Lemma ends_ret o i r : o = (i, true) → ends o ((mret tt : body unit) (i, Some r)).
Proof. intros ->. by exists r. Qed.
Lemma ends_leave o i r : o = (i, true) → ends o ((throw Continue : body unit) (i, Some r)).
Proof. intros ->. by exists r. Qed.

(** Filling in a column: both branches go on in the same way. *)
Lemma ends_fill r sql ls o i c c' f (k : body unit) : showing r sql ls →
  column c (map lit ls) = Some 0 → column c' (map lit ls) = Some 0 → 0 < length ls →
  ends o (k (unless_empty (value sql 0) f i, Some r)) →
  ends o ((lacks c ≫= λ b, when (negb b) (get_string c' ≫= λ s, change (f s));; k) (i, Some r)).
Proof.
  intros Hr Hc Hc' Hl H. eapply ends_lacks; [done..|]. unfold unless_empty in H. case_bool_decide as Hv; cbn [when negb].
  - by rewrite decide_True in H.
  - rewrite decide_False in H by done. rewrite run_assoc. eapply ends_get_string; [done..| |].
    + intros _. by rewrite run_change.
    + intros Hf. by destruct (not_found sql 0 Hf).
Qed.

Lemma ends_fill_given r sql ls o i c n f (k : body unit) : showing r sql ls →
  column c (map lit ls) = Some n → n < length ls →
  (found sql = true → ends o (k (if_given (given sql n) f i, Some r))) → (found sql = false → o = (i, false)) →
  ends o ((is_null c ≫= λ b, when (negb b) (get_string c ≫= λ s, change (f s));; k) (i, Some r)).
Proof.
  intros Hr Hc Hl H H'. eapply ends_is_given; [done..| | |done].
  - intros v Hf Hg Hv. rewrite Hg in H. cbn [when negb]. rewrite run_assoc. eapply ends_get_string; [done..| |].
    + intros _. rewrite run_change, Hv. by apply H.
    + congruence.
  - intros Hf Hg. rewrite Hg in H. by apply H.
Qed.

Lemma run_ask_assoc {A B} q (m : body A) (k : A → body B) s : ((query q;; next_row;; m) ≫= k) s = (query q;; next_row;; m ≫= k) s.
Proof. unfold mbind, M_bind. destruct (query q s) as [[u|e] s1]; [|done]. by destruct (next_row s1) as [[u'|e] s2]. Qed.

Lemma ends_fill_hop (Hup : answered) r sql ls o i c p ls' c' f (k : body unit) : showing r sql ls →
  column c (map lit ls) = Some 0 → 0 < length ls → (p, ls') ∈ selects → column c' (map lit ls') = Some 0 → 0 < length ls' →
  (∀ r, ends o (k (unless_empty (hop p (value sql 0)) f i, Some r))) →
  ends o ((lacks c ≫= λ b, when (negb b)
    (get_at 1 ≫= λ s, query (quoted p s);; next_row;; lacks c' ≫= λ b, when (negb b) (get_string c' ≫= λ s, change (f s)));; k) (i, Some r)).
Proof.
  intros Hr Hc Hl Hp Hc' Hl' H. eapply ends_lacks; [done..|]. unfold hop in H. case_bool_decide as Hv; cbn [when negb].
  - specialize (H r). rewrite decide_True in H by done. exact H.
  - rewrite run_assoc. eapply ends_get_at; [done|done| |intros Hf; by destruct (not_found sql 0 Hf)]. intros _.
    rewrite run_ask_assoc. eapply ends_ask; [done|done|]. intros r' Hr'. rewrite run_assoc. eapply ends_fill; [done..|].
    specialize (H r'). by rewrite decide_False in H.
Qed.

Lemma ends_assoc {A B} o (m : body A) (f : A → body B) (g : B → body unit) s : ends o ((m ≫= λ a, f a ≫= g) s) → ends o (((m ≫= f) ≫= g) s).
Proof. by rewrite run_assoc. Qed.
Lemma ends_row o i res (f : report_data → body unit) : ends o (f i (i, res)) → ends o ((row ≫= f) (i, res)).
Proof. done. Qed.
Lemma ends_then o i res g (f : unit → body unit) : ends o (f tt (g i, res)) → ends o ((change g ≫= f) (i, res)).
Proof. done. Qed.
Lemma ends_mret {A} o (a : A) (f : A → body unit) s : ends o (f a s) → ends o (((mret a : body A) ≫= f) s).
Proof. done. Qed.
Lemma ends_ask_assoc {A} o q (m : body A) (k : A → body unit) s :
  ends o ((query q;; next_row;; m ≫= k) s) → ends o (((query q;; next_row;; m) ≫= k) s).
Proof. by rewrite run_ask_assoc. Qed.
Lemma ends_is o o' x : o = o' → ends o' x → ends o x.
Proof. by intros ->. Qed.
Lemma ends_tail o (m : body unit) s : ends o ((m;; mret tt) s) → ends o (m s).
Proof. unfold mbind, M_bind. by destruct (m s) as [[[]|e] s']. Qed.

Section Rows.
Hypothesis Hup : answered.

Ltac selected := unfold selects; repeat first [ apply list_elem_of_here | apply list_elem_of_further ].
Ltac finish :=
  intros; try (exfalso; congruence);
  unfold need; repeat match goal with H : found _ = _ |- _ => rewrite H | H : given _ _ = _ |- _ => rewrite H end; try reflexivity;
  unfold hop, unless_empty, if_given;
  repeat match goal with
  | H : found ?q = false, H' : value ?q 0 ≠ [] |- _ => destruct (not_found q 0 H); congruence
  | H : found _ = _ |- _ => rewrite H
  | H : value _ _ = _ |- _ => rewrite H
  | H : given _ _ = _ |- _ => rewrite H
  | |- context [decide (?x = [])] => lazymatch x with context [decide _] => fail | _ => destruct (decide (x = [])); try congruence end
  end; try done.
Ltac step := lazymatch goal with
  | |- ends _ (@mbind _ _ _ _ _ row _) => refine (ends_row _ _ _ _ _)
  | |- ends _ (@mbind _ _ _ _ _ (change _) _) => refine (ends_then _ _ _ _ _ _)
  | |- ends _ (@mbind _ _ _ _ _ (mret _) _) => refine (ends_mret _ _ _ _ _)
  | |- ends _ (@mbind _ _ _ _ _ (query _) _) => eapply ends_ask; [exact Hup|selected|intros ? ?]
  | |- ends _ (@mbind _ _ _ _ _ (lacks _) _) => first
      [ eapply ends_fill; [eassumption|vm_compute; reflexivity|vm_compute; reflexivity|simpl; lia|]
      | eapply ends_fill_hop; [exact Hup|eassumption|vm_compute; reflexivity|simpl; lia|selected|vm_compute; reflexivity|simpl; lia|intros ?]
      | eapply ends_lacks; [eassumption|vm_compute; reflexivity|simpl; lia|case_bool_decide; cbn [when negb]] ]
  | |- ends _ (@mbind _ _ _ _ _ (null_or_empty _ _) _) =>
      eapply ends_null_or_empty; [eassumption|vm_compute; reflexivity|simpl; lia|intros ?; case_bool_decide; cbn [when negb]|]
  | |- ends _ (@mbind _ _ _ _ _ (is_null _) _) => first
      [ eapply ends_fill_given; [eassumption|vm_compute; reflexivity|simpl; lia|intros ?|]
      | eapply ends_is_given; [eassumption|vm_compute; reflexivity|simpl; lia|intros ? ? ? <-; cbn [when negb]|intros ? ?; cbn [when negb]|] ]
  | |- ends _ (@mbind _ _ _ _ _ (get_string _) _) => eapply ends_get_string; [eassumption|vm_compute; reflexivity|simpl; lia|intros ?|]
  | |- ends _ (@mbind _ _ _ _ _ (get_at _) _) => eapply ends_get_at; [eassumption|simpl; lia|intros ?|]
  | |- ends _ (change _ _) => apply ends_change
  | |- ends _ (mret _ _) => apply ends_ret
  | |- ends _ (throw _ _) => apply ends_leave
  | |- ends _ (@mbind _ _ _ _ _ (@mbind _ _ _ _ _ (query _)) _) => apply ends_ask_assoc
  | |- ends _ (@mbind _ _ _ _ _ (@mbind _ _ _ _ _ _) _) => apply ends_assoc
  end.

Lemma sales_ends i r : ends (sales_spec i) (sales_row (i, Some r)).
Proof. unfold sales_row. repeat step; unfold sales_spec; finish. Qed.
Lemma currency_ends i r : ends (currency_spec i) (currency_row (i, Some r)).
Proof. unfold currency_row. repeat step; unfold currency_spec; finish. Qed.
Lemma payment_ends i r : ends (payment_spec i) (payment_method_row (i, Some r)).
Proof. unfold payment_method_row. repeat step; unfold payment_spec; finish. Qed.
Lemma product_ends i r : ends (product_spec i) (product_row (i, Some r)).
Proof. unfold product_row. repeat step; unfold product_spec; finish. Qed.
Lemma trade_ends i r : ends (trade_spec i) (trade_term_row (i, Some r)).
Proof. unfold trade_term_row. repeat step; unfold trade_spec; finish. Qed.
Lemma approved_ends i r : ends (approved_spec i) (approved_status_row (i, Some r)).
Proof. unfold approved_status_row. repeat step; unfold approved_spec; finish. Qed.
Lemma pi_ends i r : ends (pi_spec i) (pi_row (i, Some r)).
Proof. unfold pi_row. repeat step; unfold pi_spec; finish. Qed.
Lemma country_ends i r : ends (country_spec i) (sales_country_row (i, Some r)).
Proof. unfold sales_country_row. do 10 step. apply ends_tail. rewrite run_assoc. do 2 step. reflexivity. Qed.
Lemma customer_basic_ends i r : ends (customer_basic_spec i) (customer_basic_row (i, Some r)).
Proof. unfold customer_basic_row. repeat step; unfold customer_basic_spec; finish. Qed.
Lemma customer_ends i r : ends (customer_spec i) (customer_row (i, Some r)).
Proof.
  unfold customer_row. repeat step;
    try (eapply ends_is; [|apply customer_basic_ends]); unfold customer_spec; finish.
Qed.

Lemma rows_end : Forall2 (λ (spec : report_data → outcome) (f : body unit), ∀ i r, ends (spec i) (f (i, Some r))) specs
  [sales_row; customer_row; currency_row; payment_method_row; product_row; trade_term_row; sales_country_row; approved_status_row; pi_row].
Proof.
  repeat apply Forall2_cons_2; [exact sales_ends|exact customer_ends|exact currency_ends|exact payment_ends|exact product_ends|
    exact trade_ends|exact country_ends|exact approved_ends|exact pi_ends|constructor].
Qed.
End Rows.

Lemma for_each_settles (spec : report_data → outcome) (f : body unit) : (∀ i r, ends (spec i) (f (i, Some r))) →
  ∀ todo r, ∃ r', for_each f todo (Some r) = Some (settle spec todo, Some r').
Proof.
  intros H. induction todo as [|i todo IH]; intros r; [by exists r|]. cbn [for_each settle].
  destruct (H i r) as (r1 & E & Ho). destruct (f (i, Some r)) as [x s]. simpl in E, Ho. subst s. destruct (spec i) as [i' ok].
  simpl in Ho. destruct x as [u|e]; [|destruct e]; [|  |by exists r1; subst ok|done].
  all: simpl; destruct (IH r1) as [r2 ->]; exists r2; by subst ok.
Qed.

Lemma stages_settle : answered → ∀ datas r, run_stages stages datas (Some r) = Some (foldl (λ d spec, settle spec d) datas specs).
Proof.
  intros Hup. change stages with (map for_each [sales_row; customer_row; currency_row; payment_method_row; product_row; trade_term_row; sales_country_row; approved_status_row; pi_row]).
  pose proof (rows_end Hup) as H. induction H as [|spec f specs fs Hf Hfs IH]; intros datas r; [done|]. cbn [map run_stages foldl].
  destruct (for_each_settles spec f Hf datas r) as [r' ->]. apply IH.
Qed.

(** C39: while the database answers, the report is its specification: the rows of the first query, each
    completed by the nine stages, where a stage fills a row from the rows its keys name, and stops at
    the first row for which a row it cannot do without is missing; the rows behind that one keep what
    they had. *)
Theorem report_is_joins r fuel : answered → executeQuery of_report = Some r → length (rows r) < fuel →
  start fuel = Workbook titles (map excel_row (foldl (λ d spec, settle spec d) (map detail (rows r)) specs)).
Proof.
  intros Hup E Hf. destruct (insert_data_spec r fuel E Hf) as [r' Hi]. unfold start. rewrite Hi.
  by rewrite (stages_settle Hup).
Qed.

(** When the first query fails, there is no result to read from. *)
Lemma start_without_result fuel : executeQuery of_report = None → start fuel = Crashed.
Proof. intros E. unfold start. by rewrite E. Qed.

(** A stage without a gap reaches every row. *)
Lemma settle_all (spec : report_data → outcome) todo : Forall (λ i, (spec i).2 = true) todo → settle spec todo = map (fst ∘ spec) todo.
Proof.
  induction 1 as [|i todo Hi H IH]; [done|]. cbn [settle map]. unfold compose at 1. destruct (spec i) as [i' ok]. simpl in *. subst. by rewrite IH.
Qed.
End Joins.

(** ** A database *)
Module Office.

(** A result is its columns, its rows and the cursor. *)
Record table := Table { columns : list str; lines : list (list (option str)); place : nat }.
Definition lines_of (t : table) : list (list (option str)) := filter (λ x, length x = length (columns t)) (lines t).
Definition here (t : table) (c : str) : option (option str) :=
  x ← (match place t with O => None | S n => lines_of t !! n end); k ← column c (columns t); x !! k.
Definition digits (s : str) : Z := fold_left (λ n c, 10 * n + (Z.of_nat (nat_of_ascii c) - 48))%Z s 0%Z.
Definition to_double (v : option str) : spec_float := binary_normalize 53 1024 (digits (default [] v)) 0 false.

Definition columns_of (sql : str) : list str :=
  match list_find (λ p : str * list string, is_prefix p.1 sql = true) selects with
  | Some (_, (_, ls)) => map lit ls
  | None => report_labels
  end.

Section Data.
Variable data : list (str * list (list (option str))).

Definition query_table (sql : str) : option table :=
  Some (Table (columns_of sql) (from_option snd [] (snd <$> list_find (λ p, p.1 = sql) data)) 0).

Local Instance office : Connector := {|
  ResultSet := table; executeQuery := query_table; rowsCount t := length (lines_of t);
  next t := (bool_decide (place t < length (lines_of t)), Table (columns t) (lines t) (Nat.min (S (place t)) (S (length (lines_of t)))));
  isNull t c := (λ v : option str, bool_decide (v = None)) <$> here t c;
  getString t c := default [] <$> here t c;
  getStringAt t k := default [] <$> (x ← (match place t with O => None | S n => lines_of t !! n end); x !! (k - 1));
  getDouble t c := to_double <$> here t c |}.

Lemma columns_of_select p ls id : (p, ls) ∈ selects → columns_of (quoted p id) = map lit ls.
Proof.
  unfold selects. intros H. repeat (apply elem_of_cons in H as [[= -> ->]|H]; [vm_compute; reflexivity|]). by apply elem_of_nil in H.
Qed.

Local Instance office_laws : ConnectorLaws office.
Proof.
  refine {| labels := columns : ResultSet → _; rows := lines_of : ResultSet → _; passed := place : ResultSet → _; number := to_double |}.
  - intros r x Hx. by apply list_elem_of_filter in Hx as [? _].
  - by intros sql r [= <-].
  - intros p ls id r H [= <-]. by apply columns_of_select.
  - intros r [= <-]. vm_compute. reflexivity.
  - done.
  - done.
  - done.
  - done.
  - done.
  - done.
  - intros r k. simpl. by rewrite Nat.sub_0_r.
  - done.
Defined.
End Data.

(** Quotations 1 and 2; only the second has a currency. *)
Definition cells (ss : list string) : list (option str) := map (λ s, Some (lit s)) ss.
Definition line1 := cells ["1"; "11"; "Q-1"; "300"; "2"; "250"; "3"; "2016-02-01"]%string.
Definition line2 := cells ["2"; "12"; "Q-2"; "100"; "2"; "260"; "3"; "2016-02-02"]%string.
Definition currencies : list (str * list (list (option str))) :=
  [(quoted of_currency_id (lit "2"), [cells ["7"%string]]); (quoted of_currency (lit "7"), [cells ["EUR"%string]])].
Definition both : list (str * list (list (option str))) := (of_report, [line1; line2]) :: currencies.
Definition swapped : list (str * list (list (option str))) := (of_report, [line2; line1]) :: currencies.

Definition column_of (n : nat) (e : ending) : list (option cell) :=
  match e with Workbook _ rows => map (λ row, row !! n) rows | _ => [] end.

Lemma report_has_every_line_witness : ∃ datas,
  start (C := office both) 3 = Workbook titles (map excel_row datas) ∧ map quotation_no datas = [lit "Q-1"; lit "Q-2"].
Proof.
  destruct (report_has_every_line (C := office both) (L := office_laws both) (Table report_labels [line1; line2] 0) 3) as (datas & H & Hb).
  - vm_compute. reflexivity.
  - vm_compute. lia.
  - exists datas. split; [exact H|]. apply (f_equal (map (λ b : _ * _ * _ * _ * _, b.1.1.2))) in Hb. rewrite !map_map in Hb.
    etrans; [exact Hb|]. vm_compute. reflexivity.
Defined.

Lemma report_is_joins_witness : start (C := office both) 3 =
  Workbook titles (map excel_row (foldl (λ d spec, settle spec d) (map (detail (L := office_laws both)) [line1; line2]) (specs (L := office_laws both)))).
Proof.
  apply (report_is_joins (C := office both) (L := office_laws both) (Table report_labels [line1; line2] 0) 3).
  - intros sql. by eexists.
  - vm_compute. reflexivity.
  - vm_compute. lia.
Defined.

(** The currency of the second quotation is missing in the report because the first has none. *)
Example gap_stops : column_of 13 (start (C := office both) 3) = [Some (Text []); Some (Text [])].
Proof. vm_compute. reflexivity. Qed.
Example no_gap_before : column_of 13 (start (C := office swapped) 3) = [Some (Text (lit "EUR")); Some (Text [])].
Proof. vm_compute. reflexivity. Qed.
End Office.
End ReportSpec.
