(* ===== verification/XlsxRead.v ===== *)
(** * Reading a worksheet (tools/xlsxio/lib/xlsxio_read.c)

    A workbook is a zip archive of XML parts.  The reader finds the part of a sheet by following
    content types and relationships, reads the table of shared strings, and walks over the sheet with
    expat: what an element means depends on the handlers that are set, and each handler sets the next
    ones.  Cells and rows are reported to two callbacks.  zip and expat are given by the parts of the
    archive: for a file name the events that expat reports, or nothing when it cannot be opened. *)
From coqutil Require Import Datatypes.RecordSetters.
From S2P Require Import Prelude CppString Decimal.
Import OCamlLikeNotations.

#[local] Open Scope Z_scope.

Module XlsxRead.

Definition attrs : Type := list (str * str).
Inductive event := Start (name : str) (atts : attrs) | End_ (name : str) | Data (buf : str).

(** ** Names *)
Definition lower (c : ascii) : ascii :=
  let n := nat_of_ascii c in if (65 <=? n)%nat && (n <=? 90)%nat then ascii_of_nat (n + 32) else c.
(** [stricmp(a, b) == 0] *)
Definition same_name (a b : str) : bool := bool_decide (map lower a = map lower b).

(*@ tools/xlsxio/lib/xlsxio_read.c 107-118 get_expat_attr_by_name *)
Fixpoint get_expat_attr_by_name (atts : attrs) (name : str) : option str :=
  match atts with
  | [] => None
  | (n, v) :: atts => if same_name n name then Some v else get_expat_attr_by_name atts name
  end.

(** ** Coordinates *)
Definition upper_letter (c : ascii) : bool := let n := nat_of_ascii c in (65 <=? n)%nat && (n <=? 90)%nat.
Definition lower_letter (c : ascii) : bool := let n := nat_of_ascii c in (97 <=? n)%nat && (n <=? 122)%nat.
Definition code (c : ascii) : Z := Z.of_nat (nat_of_ascii c).

(** The loop of [get_col_nr]; [first] is the test that [p] is still [A1col]. *)
Fixpoint col_loop (p : str) (first : bool) (result : Z) : Z :=
  match p with
  | [] => 0
  | c :: p =>
      if upper_letter c then col_loop p false (u64 (result * 26 + (code c - 65) + 1))
      else if lower_letter c then col_loop p false (u64 (result * 26 + (code c - 97) + 1))
      else if is_digit c && negb first then result
      else 0
  end.
(*@ tools/xlsxio/lib/xlsxio_read.c 158-176 get_col_nr *)
Definition get_col_nr (A1col : option str) : Z :=
  match A1col with Some p => col_loop (c_str p) true 0 | None => 0 end.

Fixpoint row_loop (p : str) (first : bool) (result : Z) : Z :=
  match p with
  | [] => result
  | c :: p =>
      if upper_letter c || lower_letter c then row_loop p false result
      else if is_digit c && negb first then row_loop p false (u64 (result * 10 + dval c))
      else 0
  end.
(*@ tools/xlsxio/lib/xlsxio_read.c 179-195 get_row_nr *)
Definition get_row_nr (A1col : option str) : Z :=
  match A1col with Some p => row_loop (c_str p) true 0 | None => 0 end.

(** ** The parts of the archive *)

(** The directory of a file name, with its slash. *)
Fixpoint dir_length (filename : str) (i : nat) : nat :=
  match i with
  | O => O
  | S j => if decide (filename !! j = Some "/"%char) then S j else dir_length filename j
  end.
(*@ tools/xlsxio/lib/xlsxio_read.c 121-138 get_relationship_filename *)
Definition get_relationship_filename (filename : str) : str :=
  let i := dir_length filename (length filename) in
  take i filename ++ lit "_rels/" ++ drop i filename ++ lit ".rels".

(*@ tools/xlsxio/lib/xlsxio_read.c 141-155 join_basepath_filename *)
Definition join_basepath_filename (basepath : str) (filename : str) : option str :=
  if decide (filename = []) then None else Some (basepath ++ filename).

Section Archive.
(** What expat reports of a part, and the names in the archive. *)
Variable part : str → option (list event).
Variable names : list str.

Definition ends_with_extension (filename extension : str) : bool :=
  let n := length filename in let e := length extension in
  (e <? n)%nat && bool_decide (filename !! (n - e - 1)%nat = Some "."%char) && same_name (drop (n - e) filename) extension.

(** The files an element of the content types names. *)
(*@ tools/xlsxio/lib/xlsxio_read.c 458-493 list_files_by_contenttype_expat_callback_element_start *)
Definition files_of_element (contenttype : str) (e : event) : list str :=
  match e with
  | Start name atts =>
      let type_matches := match get_expat_attr_by_name atts (lit "ContentType") with Some t => same_name t contenttype | None => false end in
      if same_name name (lit "Override") then
        if type_matches then
          match get_expat_attr_by_name atts (lit "PartName") with
          | Some partname => [match partname with c :: p => if decide (c = "/"%char) then p else partname | [] => [] end]
          | None => []
          end
        else []
      else if same_name name (lit "Default") then
        if type_matches then
          match get_expat_attr_by_name atts (lit "Extension") with
          | Some extension => filter (λ f, ends_with_extension f extension) names
          | None => []
          end
        else []
      else []
  | _ => []
  end.
(*@ tools/xlsxio/lib/xlsxio_read.c 496-505 list_files_by_contenttype *)
Definition list_files_by_contenttype (contenttype : str) : list str :=
  match part (lit "[Content_Types].xml") with
  | Some events => concat (map (files_of_element contenttype) events)
  | None => []
  end.

Definition main_type : str := lit "application/vnd.openxmlformats-officedocument.spreadsheetml.sheet.main+xml".
Definition worksheet_type : str := lit "http://schemas.openxmlformats.org/officeDocument/2006/relationships/worksheet".
Definition strings_type : str := lit "http://schemas.openxmlformats.org/officeDocument/2006/relationships/sharedStrings".

(** The names of the sheets. *)
(*@ tools/xlsxio/lib/xlsxio_read.c 517-539 main_sheet_list_expat_callback_element_start *)
Definition sheet_name (e : event) : list str :=
  match e with
  | Start name atts =>
      if same_name name (lit "sheet") then match get_expat_attr_by_name atts (lit "name") with Some n => [n] | None => [] end else []
  | _ => []
  end.
(** With a callback that returns zero. *)
(*@ tools/xlsxio/lib/xlsxio_read.c 542-560 xlsxioread_list_sheets *)
Definition xlsxioread_list_sheets : list str :=
  concat (map (λ filename, concat (map sheet_name (default [] (part filename)))) (list_files_by_contenttype main_type)).

(** [stricmp] with a null pointer is undefined: the outer [None]. *)
(*@ tools/xlsxio/lib/xlsxio_read.c 575-589 main_sheet_get_relid_expat_callback_element_start *)
Fixpoint find_relid (sheetname : option str) (events : list event) : option (option str) :=
  match events with
  | [] => Some None
  | Start name atts :: events =>
      if same_name name (lit "sheet") then
        matches ← match sheetname, get_expat_attr_by_name atts (lit "name") with
                  | None, _ => Some true
                  | Some s, Some n => Some (same_name n s)
                  | Some _, None => None
                  end;
        match get_expat_attr_by_name atts (lit "r:id") with
        | Some (c :: r) => if matches : bool then Some (Some (c :: r)) else find_relid sheetname events
        | _ => find_relid sheetname events
        end
      else find_relid sheetname events
  | _ :: events => find_relid sheetname events
  end.

Record rels := Rels { sheetrelid : option str; sheetfile : option str; sharedstringsfile : option str }.

(*@ tools/xlsxio/lib/xlsxio_read.c 592-614 main_sheet_get_sheetfile_expat_callback_element_start *)
Fixpoint find_files (basepath : str) (relid : str) (events : list event) (d : rels) : option rels :=
  match events with
  | [] => Some d
  | Start name atts :: events =>
      if same_name name (lit "Relationship") then
        let target := match get_expat_attr_by_name atts (lit "Target") with Some f => join_basepath_filename basepath f | None => None end in
        match get_expat_attr_by_name atts (lit "Type") with
        | Some t =>
            if same_name t worksheet_type then
              match get_expat_attr_by_name atts (lit "Id") with
              | None => None
              | Some id =>
                  find_files basepath relid events
                    (match target with Some f => if same_name id relid then {d with sheetfile := Some f} else d | None => d end)
              end
            else if same_name t strings_type then
              find_files basepath relid events (match target with Some f => {d with sharedstringsfile := Some f} | None => d end)
            else find_files basepath relid events d
        | None => find_files basepath relid events d
        end
      else find_files basepath relid events d
  | _ :: events => find_files basepath relid events d
  end.

(*@ tools/xlsxio/lib/xlsxio_read.c 617-647 main_sheet_get_sheetfile_callback *)
Definition main_sheet_get_sheetfile_callback (sheetname : option str) (d : rels) (filename : str) : option rels :=
  relid ← match sheetrelid d with Some r => Some (Some r) | None => find_relid sheetname (default [] (part filename)) end;
  let d := {d with sheetrelid := relid} in
  match relid with
  | None => Some d
  | Some relid =>
      let basepath := take (dir_length filename (length filename)) filename in
      find_files basepath relid (default [] (part (get_relationship_filename filename))) d
  end.
End Archive.

(** ** Shared strings

    A handler may be unset.  While a phonetic run is skipped the handlers to set afterwards are kept. *)
Module Strings.
Inductive start_handler := FindTable | FindItem | FindString | SkipStart.
Inductive end_handler := TableEnd | ItemEnd | StringEnd | SkipEnd.

Record data := StringsData {
  sharedstrings : list (option str);
  text : option str;
  skiptag : str; skiptagcount : Z;
  h_start : option start_handler; h_end : option end_handler; h_data : bool;
}.
(*@ tools/xlsxio/lib/xlsxio_read.c 282-297 shared_strings_callback_data_initialize *)
Definition initial : data := StringsData [] None [] 0 (Some FindTable) None false.

Definition set_handlers (d : data) (s : option start_handler) (e : option end_handler) : data := {d with h_start := s; h_end := e}.

(*@ tools/xlsxio/lib/xlsxio_read.c 231-250 sharedstringlist_add_buffer *)
Definition add_buffer (d : data) : data := {d with sharedstrings := sharedstrings d ++ [text d] }.

(*@ tools/xlsxio/lib/xlsxio_read.c 305-312 shared_strings_callback_skip_tag_start *)
Definition skip_start (d : data) (name : str) : data :=
  if same_name name (skiptag d) then {d with skiptagcount := skiptagcount d + 1} else d.
(*@ tools/xlsxio/lib/xlsxio_read.c 314-326 shared_strings_callback_skip_tag_end *)
Definition skip_end (d : data) (name : str) : data :=
  if same_name name (skiptag d) then
    let d := {d with skiptagcount := skiptagcount d - 1} in
    if skiptagcount d =? 0 then {d with h_start := Some FindString; h_end := Some ItemEnd; h_data := false} else d
  else d.

(*@ tools/xlsxio/lib/xlsxio_read.c 336-342 shared_strings_callback_find_sharedstringtable_start *)
Definition find_table_start (d : data) (name : str) : data :=
  if same_name name (lit "sst") then set_handlers d (Some FindItem) None else d.
(*@ tools/xlsxio/lib/xlsxio_read.c 344-350 shared_strings_callback_find_sharedstringtable_end *)
Definition find_table_end (d : data) (name : str) : data :=
  if same_name name (lit "sst") then set_handlers d (Some FindTable) None else d.
(*@ tools/xlsxio/lib/xlsxio_read.c 352-362 shared_strings_callback_find_shared_stringitem_start *)
Definition find_item_start (d : data) (name : str) : data :=
  if same_name name (lit "si") then set_handlers {d with text := None} (Some FindString) (Some TableEnd) else d.
(*@ tools/xlsxio/lib/xlsxio_read.c 364-377 shared_strings_callback_find_shared_stringitem_end *)
Definition find_item_end (d : data) (name : str) : data :=
  if same_name name (lit "si") then set_handlers {add_buffer d with text := None} (Some FindItem) (Some TableEnd)
  else find_table_end d name.
(*@ tools/xlsxio/lib/xlsxio_read.c 379-394 shared_strings_callback_find_shared_string_start *)
Definition find_string_start (d : data) (name : str) : data :=
  if same_name name (lit "t") then {d with h_start := None; h_end := Some StringEnd; h_data := true}
  else if same_name name (lit "rPh") then
    {d with skiptag := name; skiptagcount := 1; h_start := Some SkipStart; h_end := Some SkipEnd; h_data := false}
  else d.
(*@ tools/xlsxio/lib/xlsxio_read.c 396-405 shared_strings_callback_find_shared_string_end *)
Definition find_string_end (d : data) (name : str) : data :=
  if same_name name (lit "t") then {d with h_start := Some FindString; h_end := Some ItemEnd; h_data := false}
  else find_item_end d name.
(*@ tools/xlsxio/lib/xlsxio_read.c 407-417 shared_strings_callback_string_data *)
Definition string_data (d : data) (buf : str) : data := {d with text := Some (default [] (text d) ++ buf)}.

Definition on_event (d : data) (e : event) : data :=
  match e with
  | Start name _ =>
      match h_start d with
      | Some FindTable => find_table_start d name
      | Some FindItem => find_item_start d name
      | Some FindString => find_string_start d name
      | Some SkipStart => skip_start d name
      | None => d
      end
  | End_ name =>
      match h_end d with
      | Some TableEnd => find_table_end d name
      | Some ItemEnd => find_item_end d name
      | Some StringEnd => find_string_end d name
      | Some SkipEnd => skip_end d name
      | None => d
      end
  | Data buf => if h_data d then string_data d buf else d
  end.

Definition read (events : list event) : list (option str) := sharedstrings (foldl on_event initial events).
End Strings.

(** [sharedstringlist_get]: a text up to its first zero byte. *)
(*@ tools/xlsxio/lib/xlsxio_read.c 257-262 sharedstringlist_get *)
Definition sharedstringlist_get (sharedstrings : option (list (option str))) (index : Z) : option str :=
  match sharedstrings with
  | Some l => if u64 index <? Z.of_nat (length l) then c_str <$> mjoin (l !! Z.to_nat (u64 index)) else None
  | None => None
  end.

(** ** The sheet *)

(** What is reported; the callbacks may ask to stop. *)
Inductive call := Cell (row col : Z) (value : option str) | Row (row maxcol : Z).

Module Sheet.
Inductive string_type := none | value_string | inline_string | shared_string.
Inductive start_handler := FindWorksheet | FindSheetdata | FindRow | FindCell | FindValue | SkipStart.
Inductive end_handler := WorksheetEnd | SheetdataEnd | RowEnd | CellEnd | ValueEnd | SkipEnd.

(** [celldata] is the text so far; the calls made come last first. *)
(*@ tools/xlsxio/lib/xlsxio_read.c 660-678 data_sheet_callback_data *)
Record data := SheetData {
  sharedstrings : option (list (option str));
  rownr : Z; colnr : Z; cols : Z;
  celldata : option str; cell_string_type : string_type;
  skiptag : str; skiptagcount : Z;
  h_start : option start_handler; h_end : option end_handler; h_data : bool;
  stopped : bool; calls : list call;
}.

(*@ tools/xlsxio/lib/xlsxio_read.c 680-699 data_sheet_callback_data_initialize *)
Definition initial (sharedstrings : option (list (option str))) : data :=
  SheetData sharedstrings 0 0 0 None none [] 0 (Some FindWorksheet) None false false [].

Section Callbacks.
(** The flags, and whether a callback returns non-zero.  With [NO_CALLBACK] nothing is called and the
    parser is suspended instead, at the beginning and the end of a row and behind each cell. *)
Variables NO_CALLBACK SKIP_EMPTY_ROWS SKIP_EMPTY_CELLS SKIP_EXTRA_CELLS : bool.
Variable stop : call → bool.

(** A call; the parser is stopped when the callback asks for it. *)
Definition report (d : data) (c : call) : data := {d with calls := c :: calls d; stopped := stop c}.
Definition suspend (d : data) : data := {d with stopped := true}.
Definition set_handlers (d : data) (s : option start_handler) (e : option end_handler) : data := {d with h_start := s; h_end := e}.

(** Empty cells up to a column. *)
Fixpoint pad_cells (n : nat) (d : data) : data :=
  match n with
  | O => d
  | S n =>
      let d := report d (Cell (rownr d) (colnr d + 1) None) in
      if stopped d then d else pad_cells n {d with colnr := colnr d + 1}
  end.
Definition pad_to (col : Z) (d : data) : data := pad_cells (Z.to_nat (col - colnr d)) d.

(*@ tools/xlsxio/lib/xlsxio_read.c 708-715 data_sheet_expat_callback_skip_tag_start *)
Definition skip_start (d : data) (name : str) : data :=
  if same_name name (skiptag d) then {d with skiptagcount := skiptagcount d + 1} else d.
(*@ tools/xlsxio/lib/xlsxio_read.c 717-729 data_sheet_expat_callback_skip_tag_end *)
Definition skip_end (d : data) (name : str) : data :=
  if same_name name (skiptag d) then
    let d := {d with skiptagcount := skiptagcount d - 1} in
    if skiptagcount d =? 0 then {d with h_start := Some FindValue; h_end := Some CellEnd; h_data := false} else d
  else d.

(*@ tools/xlsxio/lib/xlsxio_read.c 742-748 data_sheet_expat_callback_find_worksheet_start *)
Definition find_worksheet_start (d : data) (name : str) : data :=
  if same_name name (lit "worksheet") then set_handlers d (Some FindSheetdata) None else d.
(*@ tools/xlsxio/lib/xlsxio_read.c 750-756 data_sheet_expat_callback_find_worksheet_end *)
Definition find_worksheet_end (d : data) (name : str) : data :=
  if same_name name (lit "worksheet") then set_handlers d (Some FindWorksheet) None else d.
(*@ tools/xlsxio/lib/xlsxio_read.c 758-764 data_sheet_expat_callback_find_sheetdata_start *)
Definition find_sheetdata_start (d : data) (name : str) : data :=
  if same_name name (lit "sheetData") then set_handlers d (Some FindRow) (Some SheetdataEnd) else d.
(*@ tools/xlsxio/lib/xlsxio_read.c 766-774 data_sheet_expat_callback_find_sheetdata_end *)
Definition find_sheetdata_end (d : data) (name : str) : data :=
  if same_name name (lit "sheetData") then set_handlers d (Some FindSheetdata) (Some WorksheetEnd)
  else find_worksheet_end d name.

(** [atoi] *)
Definition atoi (s : str) : Z := match read_int (skip_ws (c_str s)) with Some (n, _) => n | None => 0 end.

(*@ tools/xlsxio/lib/xlsxio_read.c 776-798 data_sheet_expat_callback_find_row_start *)
Definition find_row_start (d : data) (name : str) (atts : attrs) : data :=
  if same_name name (lit "row") then
    let hidden := match get_expat_attr_by_name atts (lit "hidden") with Some h => negb (atoi h =? 0) | None => false end in
    if negb hidden then
      let d := set_handlers {d with rownr := u64 (rownr d + 1); colnr := 0} (Some FindCell) (Some RowEnd) in
      if NO_CALLBACK then suspend d else d
    else set_handlers d None (Some RowEnd)
  else d.

(*@ tools/xlsxio/lib/xlsxio_read.c 800-837 data_sheet_expat_callback_find_row_end *)
Definition find_row_end (d : data) (name : str) : data :=
  if same_name name (lit "row") then
    let d := if (rownr d =? 1) && (cols d =? 0) then {d with cols := colnr d} else d in
    let d := if negb NO_CALLBACK && negb SKIP_EMPTY_CELLS then pad_to (cols d) d else d in
    if negb NO_CALLBACK && stopped d then d
    else
      let d := set_handlers {d with celldata := None} (Some FindRow) (Some SheetdataEnd) in
      if negb NO_CALLBACK then report d (Row (rownr d) (colnr d)) else suspend d
  else find_sheetdata_end d name.

(** Rows that are not in the sheet, up to the row of a cell. *)
Fixpoint pad_rows (n : nat) (d : data) : data :=
  match n with
  | O => d
  | S n =>
      let d := if negb SKIP_EMPTY_CELLS then pad_to (cols d) d else d in
      if stopped d then d
      else
        let d := report d (Row (rownr d) (cols d)) in
        if stopped d then d else pad_rows n {d with rownr := rownr d + 1; colnr := 0}
  end.

(*@ tools/xlsxio/lib/xlsxio_read.c 839-909 data_sheet_expat_callback_find_cell_start *)
Definition find_cell_start (d : data) (name : str) (atts : attrs) : data :=
  if same_name name (lit "c") then
    let t := get_expat_attr_by_name atts (lit "r") in
    let cellcolnr := get_col_nr t in
    if negb (cellcolnr =? 0) && negb (cols d =? 0) && SKIP_EXTRA_CELLS && (cols d <? cellcolnr) then {d with colnr := cellcolnr - 1}
    else
      let cellrownr := get_row_nr t in
      let d :=
        if (colnr d =? 0) && negb (cellrownr =? 0) then
          if negb SKIP_EMPTY_ROWS && negb NO_CALLBACK then pad_rows (Z.to_nat (cellrownr - rownr d)) d else {d with rownr := cellrownr}
        else d in
      if stopped d then d
      else
        let d :=
          if negb (cellcolnr =? 0) then
            if SKIP_EMPTY_CELLS || NO_CALLBACK then {d with colnr := cellcolnr - 1} else pad_to (cellcolnr - 1) d
          else d in
        if stopped d then d
        else
          let type := match get_expat_attr_by_name atts (lit "t") with
                      | Some t => if same_name t (lit "s") then shared_string else value_string
                      | None => value_string
                      end in
          set_handlers {d with cell_string_type := type; celldata := None} (Some FindValue) (Some CellEnd)
  else d.

(** [strtol(celldata, &p, 10)]: a number, where all of the text is one. *)
Definition strtol_all (s : str) : option Z :=
  match read_int (skip_ws s) with
  | Some (n, r) => if decide (r = []) then Some (Z.max (- 2 ^ 63) (Z.min (2 ^ 63 - 1) n)) else None
  | None => None
  end.

(** The value of a cell. *)
Definition cell_value (d : data) : option str :=
  match celldata d with
  | None => None
  | Some s =>
      match cell_string_type d with
      | shared_string =>
          match strtol_all (c_str s) with
          | Some num => sharedstringlist_get (sharedstrings d) num
          | None => Some (c_str s)
          end
      | none => None
      | _ => Some (c_str s)
      end
  end.

(*@ tools/xlsxio/lib/xlsxio_read.c 911-960 data_sheet_expat_callback_find_cell_end *)
Definition find_cell_end (d : data) (name : str) : data :=
  if same_name name (lit "c") then
    let value := cell_value d in
    let d := {d with celldata := value; colnr := colnr d + 1; cell_string_type := none;
                     h_start := Some FindCell; h_end := Some RowEnd; h_data := false} in
    if negb (negb (cols d =? 0) && SKIP_EXTRA_CELLS && (cols d <? colnr d)) then
      if negb NO_CALLBACK then report d (Cell (rownr d) (colnr d) value) else suspend {d with celldata := Some (default [] value)}
    else d
  else find_row_end d name.

(*@ tools/xlsxio/lib/xlsxio_read.c 962-979 data_sheet_expat_callback_find_value_start *)
Definition find_value_start (d : data) (name : str) : data :=
  if same_name name (lit "v") || same_name name (lit "t") then {d with h_start := None; h_end := Some ValueEnd; h_data := true}
  else if same_name name (lit "is") then {d with cell_string_type := inline_string}
  else if same_name name (lit "rPh") then
    {d with skiptag := name; skiptagcount := 1; h_start := Some SkipStart; h_end := Some SkipEnd; h_data := false}
  else d.
(*@ tools/xlsxio/lib/xlsxio_read.c 981-992 data_sheet_expat_callback_find_value_end *)
Definition find_value_end (d : data) (name : str) : data :=
  if same_name name (lit "v") || same_name name (lit "t") then {d with h_start := Some FindValue; h_end := Some CellEnd; h_data := false}
  else if same_name name (lit "is") then {d with cell_string_type := none}
  else find_row_end d name.
(*@ tools/xlsxio/lib/xlsxio_read.c 994-1007 data_sheet_expat_callback_value_data *)
Definition value_data (d : data) (buf : str) : data :=
  match cell_string_type d with
  | none => d
  | _ => {d with celldata := Some (default [] (celldata d) ++ buf)}
  end.

(** One event, for the handler that is set. *)
Definition dispatch (d : data) (e : event) : data :=
  match e with
  | Start name atts =>
      match h_start d with
      | Some FindWorksheet => find_worksheet_start d name
      | Some FindSheetdata => find_sheetdata_start d name
      | Some FindRow => find_row_start d name atts
      | Some FindCell => find_cell_start d name atts
      | Some FindValue => find_value_start d name
      | Some SkipStart => skip_start d name
      | None => d
      end
  | End_ name =>
      match h_end d with
      | Some WorksheetEnd => find_worksheet_end d name
      | Some SheetdataEnd => find_sheetdata_end d name
      | Some RowEnd => find_row_end d name
      | Some CellEnd => find_cell_end d name
      | Some ValueEnd => find_value_end d name
      | Some SkipEnd => skip_end d name
      | None => d
      end
  | Data buf => if h_data d then value_data d buf else d
  end.

(** A stopped parser reports no more. *)
Definition on_event (d : data) (e : event) : data := if stopped d then d else dispatch d e.
End Callbacks.

(** ** All together *)

(** The table of shared strings and the sheet; [None] where [stricmp] is given a null pointer. *)
(*@ tools/xlsxio/lib/xlsxio_read.c 1021-1043 xlsxioread_process *)
Definition process_parts (part : str → option (list event)) (names : list str) (sheetname : option str) :
    option (option (list (option str)) * option str) :=
  d ← foldl (λ d filename, d ← d; main_sheet_get_sheetfile_callback part sheetname d filename) (Some (Rels None None None))
        (list_files_by_contenttype part names main_type);
  let strings := events ← (f ← sharedstringsfile d; part f); Some (Strings.read events) in
  Some (strings, sheetfile d).

Section Process.
Variables SKIP_EMPTY_ROWS SKIP_EMPTY_CELLS SKIP_EXTRA_CELLS : bool.
Variable stop : call → bool.

Definition read (sharedstrings : option (list (option str))) (events : list event) : list call :=
  rev (calls (foldl (on_event false SKIP_EMPTY_ROWS SKIP_EMPTY_CELLS SKIP_EXTRA_CELLS stop) (initial sharedstrings) events)).

(** [XLSXIOREAD_NO_CALLBACK] not being set. *)
(*@ tools/xlsxio/lib/xlsxio_read.c 1021-1057 xlsxioread_process *)
Definition xlsxioread_process (part : str → option (list event)) (names : list str) (sheetname : option str) : option (list call) :=
  '(strings, sheet) ← process_parts part names sheetname;
  Some (match f ← sheet; part f with Some events => read strings events | None => [] end).
End Process.
End Sheet.
End XlsxRead.
