(* ===== verification/XlsxReadSpec.v ===== *)
(** * A worksheet is reported cell by cell (properties of XlsxRead.v) *)
From coqutil Require Import Datatypes.RecordSetters.
From S2P Require Import Prelude CppString Decimal XlsxRead.
Import OCamlLikeNotations XlsxRead.

#[local] Open Scope Z_scope.

Module XlsxReadSpec.

(** ** Coordinates

    A column is named by letters, with A to Z for 1 to 26; a coordinate is the name and the row. *)
Definition letter (n : Z) : ascii := ascii_of_nat (Z.to_nat (65 + n)).
Fixpoint col_name (fuel : nat) (n : Z) : str :=
  match fuel with
  | O => []
  | S fuel => if n =? 0 then [] else col_name fuel ((n - 1) / 26) ++ [letter ((n - 1) mod 26)]
  end.
Definition coordinate (col row : Z) : str := col_name 13 col ++ dec row.

Lemma letter_code n : 0 <= n < 26 → upper_letter (letter n) = true ∧ code (letter n) = 65 + n ∧ letter n ≠ NUL.
Proof.
  intros Hn. assert (code (letter n) = 65 + n) as Hc by (unfold code, letter; rewrite nat_ascii_embedding by lia; lia).
  unfold code in Hc. split_and!; [|done|].
  - unfold upper_letter; cbv zeta. apply andb_true_iff. split; apply Nat.leb_le; lia.
  - intros E. rewrite E in Hc. change (nat_of_ascii NUL) with 0%nat in Hc. lia.
Qed.

Lemma col_name_spec fuel n rest b : 0 <= n < 26 ^ Z.of_nat fuel → n < 2 ^ 62 → col_loop (col_name fuel n ++ rest) b 0 = col_loop rest (if n =? 0 then b else false) n.
Proof.
  revert n rest b. induction fuel as [|fuel IH]; intros n rest b Hn H62; [simpl in *; replace n with 0 by lia; done|].
  cbn [col_name]. destruct (Z.eqb_spec n 0) as [->|Hn0]; [done|]. rewrite Nat2Z.inj_succ, Z.pow_succ_r in Hn by lia.
  pose proof (Z.mod_pos_bound (n - 1) 26 ltac:(lia)) as Hm. pose proof (Z.div_mod (n - 1) 26 ltac:(lia)) as Hd.
  assert (0 <= (n - 1) / 26) by (apply Z.div_pos; lia). assert ((n - 1) / 26 < 26 ^ Z.of_nat fuel) by (apply Z.div_lt_upper_bound; lia).
  rewrite <- app_assoc, IH by lia. destruct (letter_code _ Hm) as (H1 & H2 & _). cbn [app col_loop]. rewrite H1, H2.
  rewrite u64_small by lia. f_equal. lia.
Qed.

Lemma col_name_letters fuel n : 0 <= n → Forall (λ c, upper_letter c = true ∧ c ≠ NUL) (col_name fuel n).
Proof.
  revert n. induction fuel as [|fuel IH]; intros n Hn; [constructor|]. cbn [col_name]. destruct (Z.eqb_spec n 0); [constructor|].
  apply Forall_app. split; [apply IH; apply Z.div_pos; lia|]. constructor; [|constructor].
  destruct (letter_code ((n - 1) mod 26) ltac:(apply Z.mod_pos_bound; lia)) as (H1 & _ & H2). done.
Qed.

Lemma digit_not_letter c : is_digit c = true → upper_letter c = false ∧ lower_letter c = false ∧ c ≠ NUL.
Proof.
  intros H. unfold is_digit, dval in H. apply andb_true_iff in H as [H1%Z.leb_le H2%Z.leb_le]. split_and!.
  - unfold upper_letter; cbv zeta. apply andb_false_iff. left. apply Nat.leb_gt. lia.
  - unfold lower_letter; cbv zeta. apply andb_false_iff. left. apply Nat.leb_gt. lia.
  - intros ->. change (nat_of_ascii NUL) with 0%nat in H1. lia.
Qed.

Lemma row_loop_letters name rest b n : Forall (λ c, upper_letter c = true ∧ c ≠ NUL) name →
  row_loop (name ++ rest) b n = row_loop rest (if decide (name = []) then b else false) n.
Proof.
  intros H. revert b. induction H as [|c name [Hc _] H IH]; intros b; [done|]. cbn [app row_loop]. rewrite Hc. cbn [orb]. rewrite IH.
  destruct (decide (name = [])); done.
Qed.

Lemma row_loop_digits ds n : Forall (λ c, is_digit c = true) ds → 0 <= n → foldl (λ a c, 10 * a + dval c) n ds < 2 ^ 64 →
  row_loop ds false n = foldl (λ a c, 10 * a + dval c) n ds.
Proof.
  intros H. revert n. induction H as [|c ds Hc H IH]; intros n Hn Hlt; [done|]. cbn [foldl row_loop] in *.
  destruct (digit_not_letter c Hc) as (-> & -> & _). rewrite Hc. cbn [orb andb negb].
  assert (0 <= dval c) as Hv by (unfold is_digit in Hc; lia).
  assert (∀ ds m, Forall (λ c, is_digit c = true) ds → 0 <= m → m <= foldl (λ a c, 10 * a + dval c) m ds) as Hmono.
  { clear. intros ds m H. revert m. induction H as [|c ds Hc H IH]; intros m Hm; [simpl; lia|]. cbn [foldl].
    assert (0 <= dval c) by (unfold is_digit in Hc; lia). specialize (IH (10 * m + dval c) ltac:(lia)). lia. }
  pose proof (Hmono ds (10 * n + dval c) H ltac:(lia)). rewrite u64_small by lia. rewrite (Z.mul_comm n). apply IH; [lia|done].
Qed.

Lemma c_str_no_nul s : NUL ∉ s → c_str s = s.
Proof.
  induction s as [|c s IH]; [done|]. intros [Hc Hs]%not_elem_of_cons. cbn [c_str]. rewrite decide_False by congruence. by rewrite IH.
Qed.

Lemma coordinate_no_nul col row : 0 <= col → 0 <= row < 10 ^ 19 → c_str (coordinate col row) = coordinate col row.
Proof.
  intros Hc Hr. apply c_str_no_nul. unfold coordinate. intros [H|H]%elem_of_app.
  - pose proof (col_name_letters 13 col Hc) as Hf. rewrite Forall_forall in Hf. by apply Hf in H as [_ ?].
  - pose proof (dec_digits row ltac:(lia)) as Hf. rewrite Forall_forall in Hf. apply Hf, digit_not_letter in H. naive_solver.
Qed.

(** A coordinate is read back: the letters give the column, the digits the row. *)
Lemma coordinate_read_back col row : 0 < col < 2 ^ 61 → 0 <= row < 10 ^ 19 →
  get_col_nr (Some (coordinate col row)) = col ∧ get_row_nr (Some (coordinate col row)) = row.
Proof.
  intros Hc Hr. unfold get_col_nr, get_row_nr. rewrite coordinate_no_nul by lia. unfold coordinate.
  pose proof (dec_digits row ltac:(lia)) as Hd. pose proof (dec_nonempty row ltac:(lia)) as Hne. pose proof (dec_value row ltac:(lia)) as Hv. split.
  - rewrite col_name_spec by (simpl; lia). rewrite (proj2 (Z.eqb_neq col 0)) by lia. destruct (dec row) as [|c ds]; [done|].
    apply Forall_cons in Hd as [Hd _]. cbn [col_loop]. destruct (digit_not_letter c Hd) as (-> & -> & _). by rewrite Hd.
  - rewrite row_loop_letters by (apply col_name_letters; lia). destruct (decide (col_name 13 col = [])) as [E|_].
    { exfalso. cbn [col_name] in E. rewrite (proj2 (Z.eqb_neq col 0)) in E by lia. by apply app_nil in E as [_ ?]. }
    rewrite row_loop_digits; [exact Hv|done|lia|]. fold (value (dec row)). rewrite Hv. lia.
Qed.


(** ** A sheet as XML

    What a parser reports of a worksheet: elements with any attributes, and others between them that mean
    nothing to the reader. *)

(** Inside a cell: elements other than values (a formula, say), and texts outside of values. *)
Definition aside (e : event) : Prop :=
  match e with
  | Start n _ => same_name n (lit "v") = false ∧ same_name n (lit "t") = false ∧ same_name n (lit "is") = false ∧ same_name n (lit "rPh") = false
  | End_ n => same_name n (lit "c") = false ∧ same_name n (lit "row") = false ∧ same_name n (lit "sheetData") = false ∧ same_name n (lit "worksheet") = false
  | Data _ => True
  end.

(** A cell: its column, its attributes behind that of its coordinate, what stands in front of its value, and the text of
    its value as expat delivers it, in pieces. *)
Record cell := MkCell { c_col : Z; c_atts : attrs; c_before : list event; c_value : option (list str) }.
Definition c_type (c : cell) : option str := get_expat_attr_by_name (c_atts c) (lit "t").
(** One without anything else. *)
Definition plain_cell (col : Z) (type : option str) (value : option (list str)) : cell :=
  MkCell col match type with Some t => [(lit "t", t)] | None => [] end [] value.

Definition cell_events (row : Z) (c : cell) : list event :=
  Start (lit "c") ((lit "r", coordinate (c_col c) row) :: c_atts c) ::
  c_before c ++ match c_value c with Some ps => Start (lit "v") [] :: map Data ps ++ [End_ (lit "v")] | None => [] end ++ [End_ (lit "c")].
(** A row: its number, its attributes, its cells. *)
Record xrow := MkRow { r_nr : Z; r_atts : attrs; r_cells : list cell }.
Definition row_events (r : xrow) : list event :=
  Start (lit "row") (r_atts r) :: concat (map (cell_events (r_nr r)) (r_cells r)) ++ [End_ (lit "row")].
(** With other elements in front of the rows and behind them. *)
Record surroundings := Surroundings { ws_atts : attrs; sd_before : list event; sd_atts : attrs; sd_after : list event }.
Definition sheet_events (x : surroundings) (rs : list xrow) : list event :=
  Start (lit "worksheet") (ws_atts x) :: sd_before x ++ Start (lit "sheetData") (sd_atts x) :: concat (map row_events rs) ++
  End_ (lit "sheetData") :: sd_after x ++ [End_ (lit "worksheet")].

(** ** What is to be reported of it *)

(** The value: a text, or the shared string of that number. *)
Definition value_of (strings : option (list (option str))) (c : cell) : option str :=
  match c_value c with
  | None | Some [] => None
  | Some ps =>
      let text := c_str (concat ps) in
      if match c_type c with Some t => same_name t (lit "s") | None => false end
      then match Sheet.strtol_all text with Some n => sharedstringlist_get strings n | None => Some text end
      else Some text
  end.

(** [n] empty cells after column [k]. *)
Definition blanks (row k : Z) (n : nat) : list call := map (λ i, Cell row (k + Z.of_nat i + 1) None) (seq 0 n).

(** The cells of a row after column [k], with empty ones between, and the last column. *)
Fixpoint cell_calls (strings : option (list (option str))) (row k : Z) (cs : list cell) : list call :=
  match cs with
  | [] => []
  | c :: cs => blanks row k (Z.to_nat (c_col c - 1 - k)) ++ [Cell row (c_col c) (value_of strings c)] ++ cell_calls strings row (c_col c) cs
  end.
Definition last_col (k : Z) (cs : list cell) : Z := foldl (λ _ c, c_col c) k cs.
(** A row: its cells, empty ones up to the width, and its end. *)
Definition row_calls (strings : option (list (option str))) (width : Z) (r : xrow) : list call :=
  let k := last_col 0 (r_cells r) in
  cell_calls strings (r_nr r) 0 (r_cells r) ++ blanks (r_nr r) k (Z.to_nat (width - k)) ++ [Row (r_nr r) (Z.max width k)].
(** The width is that of row 1. *)
Definition width_after (width : Z) (r : xrow) : Z := if (r_nr r =? 1) && (width =? 0) then last_col 0 (r_cells r) else width.
(** [n] rows from [row] on that the sheet leaves out. *)
Definition gap_calls (width row : Z) (n : nat) : list call :=
  concat (map (λ i, blanks (row + Z.of_nat i) 0 (Z.to_nat width) ++ [Row (row + Z.of_nat i) width]) (seq 0 n)).
(** [skip]: the flag that skips rows that are left out; [L] is the row before. *)
Fixpoint sheet_calls (skip : bool) (strings : option (list (option str))) (width L : Z) (rs : list xrow) : list call :=
  match rs with
  | [] => []
  | r :: rs => (if skip then [] else gap_calls width (L + 1) (Z.to_nat (r_nr r - (L + 1)))) ++
               row_calls strings (width_after width r) r ++ sheet_calls skip strings (width_after width r) (r_nr r) rs
  end.

(** Names of elements and attributes are compared. *)
Ltac names := repeat match goal with |- context [same_name ?a ?b] => let v := eval vm_compute in (same_name a b) in change (same_name a b) with v end; cbv iota.

(** ** It is *)
Section Read.
Import Sheet.
(** The flag that skips rows that are left out. *)
Context {R : bool}.
Abbreviation step := (on_event false R false false (λ _, false)).

Lemma pad_cells_spec n d : stopped d = false →
  pad_cells (λ _, false) n d = {d with colnr := colnr d + Z.of_nat n; calls := rev (blanks (rownr d) (colnr d) n) ++ calls d}.
Proof.
  revert d. induction n as [|n IH]; intros d Hd.
  - destruct d. simpl. by rewrite Z.add_0_r.
  - cbn [pad_cells]. unfold report at 1. destruct d as [ss rn cn co cd ty sk skc hs he hd st cs]. simpl in Hd. subst st. cbv zeta. simpl stopped. cbv iota.
    rewrite IH by done. cbn. cbv [constant]. f_equal; [lia|]. unfold blanks. cbn [seq map rev]. rewrite Z.add_0_r, <- app_assoc. f_equal. f_equal.
    rewrite <- seq_shift, map_map. apply map_ext. intros i. f_equal. lia.
Qed.

Lemma gap_calls_S width row n : gap_calls width row (S n) = blanks row 0 (Z.to_nat width) ++ Row row width :: gap_calls width (row + 1) n.
Proof.
  unfold gap_calls. cbn [seq map concat]. rewrite Z.add_0_r, <- app_assoc. do 3 f_equal. rewrite <- seq_shift, map_map.
  apply map_ext. intros i. by replace (row + Z.of_nat (S i)) with (row + 1 + Z.of_nat i) by lia.
Qed.

Lemma pad_rows_spec n d : stopped d = false → colnr d = 0 →
  pad_rows false (λ _, false) n d = {d with rownr := rownr d + Z.of_nat n; calls := rev (gap_calls (cols d) (rownr d) n) ++ calls d}.
Proof.
  revert d. induction n as [|n IH]; intros d Hd Hc.
  - destruct d. simpl. by rewrite Z.add_0_r.
  - cbn [pad_rows negb]. unfold pad_to. rewrite Hc, pad_cells_spec, gap_calls_S by done. destruct d as [ss rn cn co cd ty sk skc hs he hd st cs]. simpl in Hd, Hc. subst st cn.
    cbn [cols rownr colnr calls]. unfold report. cbv zeta.
    do 2 (match goal with |- (if stopped ?d then _ else _) = _ => change (stopped d) with false end; cbv iota).
    match goal with |- pad_rows _ _ _ ?d = _ => assert (d = SheetData ss (rn + 1) 0 co cd ty sk skc hs he hd false (Row rn co :: rev (blanks rn 0 (Z.to_nat (co - 0))) ++ cs)) as -> end.
    { cbn. by cbv [constant]. }
    rewrite IH by done. cbn. cbv [constant]. f_equal; [lia|]. rewrite Z.sub_0_r, rev_app_distr. cbn [rev]. by rewrite <- !app_assoc.
Qed.

(** Between two cells of a row. *)
Definition inrow ss row k width cd sk skc cs : data :=
  SheetData ss row k width cd none sk skc (Some FindCell) (Some RowEnd) false false cs.

Definition type_of (c : cell) : string_type :=
  match c_type c with Some t => if same_name t (lit "s") then shared_string else value_string | None => value_string end.

(** The calls for rows that are left out in front of a cell. *)
Definition gap_before (width row0 row : Z) : list call := if R then [] else gap_calls width row0 (Z.to_nat (row - row0)).
Lemma no_gap width row : gap_before width row row = [].
Proof. unfold gap_before. by rewrite Z.sub_diag; destruct R. Qed.

Lemma cell_start ss row0 k width cd sk skc cs row c : 0 <= k < c_col c → c_col c < 2 ^ 61 → 0 < row < 10 ^ 19 → row0 <= row → k = 0 ∨ row0 = row →
  step (inrow ss row0 k width cd sk skc cs) (Start (lit "c") ((lit "r", coordinate (c_col c) row) :: c_atts c)) =
  SheetData ss row (c_col c - 1) width None (type_of c) sk skc (Some FindValue) (Some CellEnd) false false
    (rev (blanks row k (Z.to_nat (c_col c - 1 - k))) ++ rev (gap_before width row0 row) ++ cs).
Proof.
  intros Hk Hc Hr Hle Hrow. destruct (coordinate_read_back (c_col c) row) as [Hcol Hrn]; [lia|lia|].
  unfold Sheet.on_event, Sheet.dispatch, inrow. cbn [stopped h_start]. unfold find_cell_start. names.
  cbn [get_expat_attr_by_name]. names. rewrite Hcol, Hrn. rewrite andb_false_r, (proj2 (Z.eqb_neq row 0)), (proj2 (Z.eqb_neq (c_col c) 0)) by lia.
  cbn [andb negb colnr].
  set (d := if (k =? 0) && true then _ else _).
  assert (d = SheetData ss row k width cd none sk skc (Some FindCell) (Some RowEnd) false false (rev (gap_before width row0 row) ++ cs)) as ->.
  { unfold d. destruct (Z.eqb_spec k 0) as [->|]; cbn [andb].
    - unfold gap_before. destruct R; cbn [negb andb]; [done|]. rewrite pad_rows_spec by done. cbn. cbv [constant]. f_equal. lia.
    - destruct Hrow as [|<-]; [done|]. by rewrite no_gap. }
  cbn [stopped]. unfold pad_to. cbn [colnr]. rewrite pad_cells_spec by done. cbn [rownr colnr calls].
  match goal with |- (if stopped ?d then _ else _) = _ => change (stopped d) with false end. cbv iota.
  change (same_name (lit "r") (lit "t")) with false. cbv iota. fold (c_type c). unfold set_handlers, type_of.
  cbn. cbv [constant]. f_equal. lia.
Qed.

(** What stands beside values changes nothing. *)
Lemma asides_read ss row k width cd ty sk skc cs l : Forall aside l →
  let d := SheetData ss row k width cd ty sk skc (Some FindValue) (Some CellEnd) false false cs in foldl step d l = d.
Proof.
  intros H d. induction H as [|e l He H IH]; [done|]. cbn [foldl]. enough (step d e = d) as -> by done.
  destruct e as [n a|n|buf]; [| |done].
  - destruct He as (H1 & H2 & H3 & H4). unfold Sheet.on_event, Sheet.dispatch, d. cbn [stopped h_start]. unfold find_value_start. by rewrite H1, H2, H3, H4.
  - destruct He as (H1 & H2 & H3 & H4). unfold Sheet.on_event, Sheet.dispatch, d. cbn [stopped h_end]. unfold find_cell_end, find_row_end, find_sheetdata_end, find_worksheet_end.
    by rewrite H1, H2, H3, H4.
Qed.

(** The text of a value comes in pieces. *)
Lemma value_pieces ps d : h_data d = true → stopped d = false → cell_string_type d ≠ none →
  foldl step d (map Data ps) = match ps with [] => d | _ => {d with celldata := Some (default [] (celldata d) ++ concat ps)} end.
Proof.
  revert d. induction ps as [|p ps IH]; intros d H1 H2 H3; [done|]. cbn [map foldl]. unfold Sheet.on_event, Sheet.dispatch at 2. rewrite H2, H1.
  unfold value_data. destruct d as [ss rn cn co cd ty sk skc hs he hd st cs]. simpl in H1, H2, H3. subst hd st.
  destruct ty; [done|..]; (rewrite IH by done; destruct ps as [|q ps]; cbn; cbv [constant]; cbn; by rewrite ?app_nil_r, <- ?app_assoc).
Qed.

(** A cell ends with the value that its text and type make. *)
Lemma cell_close ss row k width cd ty sk skc hd cs :
  let d := SheetData ss row k width cd ty sk skc (Some FindValue) (Some CellEnd) hd false cs in
  step d (End_ (lit "c")) = inrow ss row (k + 1) width (cell_value d) sk skc (Cell row (k + 1) (cell_value d) :: cs).
Proof.
  intros d. unfold Sheet.on_event, Sheet.dispatch, d. cbn [stopped h_end]. unfold find_cell_end. names. rewrite andb_false_r. cbn [andb negb].
  fold d. generalize (cell_value d) as v. intros v. unfold report, inrow. cbn. by cbv [constant].
Qed.

Lemma cell_end ss row k width cd c sk skc hd cs v : cd = match c_value c with None | Some [] => None | Some ps => Some (concat ps) end →
  v = value_of ss c →
  step (SheetData ss row k width cd (type_of c) sk skc (Some FindValue) (Some CellEnd) hd false cs) (End_ (lit "c")) =
  inrow ss row (k + 1) width v sk skc (Cell row (k + 1) v :: cs).
Proof.
  intros -> ->. rewrite cell_close. cbv zeta. set (v := cell_value _). assert (v = value_of ss c) as ->; [|done].
  unfold v, cell_value, value_of, type_of; cbn; destruct (c_value c) as [[|p ps]|]; cbn; try done; by destruct (c_type c) as [t|]; [destruct (same_name t _)|].
Qed.

Lemma cell_read ss row0 k width cd sk skc cs row c : 0 <= k < c_col c → c_col c < 2 ^ 61 → Forall aside (c_before c) → 0 < row < 10 ^ 19 → row0 <= row → k = 0 ∨ row0 = row →
  foldl step (inrow ss row0 k width cd sk skc cs) (cell_events row c) =
  inrow ss row (c_col c) width (value_of ss c) sk skc
    (Cell row (c_col c) (value_of ss c) :: rev (blanks row k (Z.to_nat (c_col c - 1 - k))) ++ rev (gap_before width row0 row) ++ cs).
Proof.
  intros Hk Hc Ha Hr Hle Hrow. unfold cell_events. cbn [foldl app]. rewrite cell_start by done. rewrite !foldl_app, asides_read by done.
  set (cs' := rev _ ++ rev _ ++ cs).
  assert (∃ hd, foldl step (SheetData ss row (c_col c - 1) width None (type_of c) sk skc (Some FindValue) (Some CellEnd) false false cs')
    match c_value c with Some ps => Start (lit "v") [] :: map Data ps ++ [End_ (lit "v")] | None => [] end =
    SheetData ss row (c_col c - 1) width match c_value c with None | Some [] => None | Some ps => Some (concat ps) end (type_of c) sk skc
      (Some FindValue) (Some CellEnd) hd false cs') as [hd ->].
  { exists false. destruct (c_value c) as [ps|]; [|done]. cbn [foldl]. rewrite foldl_app.
    unfold Sheet.on_event, Sheet.dispatch at 3. cbn [stopped h_start]. unfold find_value_start. names. cbn [orb].
    rewrite value_pieces; [|done|done|by unfold type_of; destruct (c_type c) as [t|]; [destruct (same_name t _)|]].
    destruct ps as [|p ps]; cbn [foldl]; unfold Sheet.on_event, Sheet.dispatch; cbn; by cbv [constant]. }
  cbn [foldl]. erewrite cell_end by done. replace (c_col c - 1 + 1) with (c_col c) by lia. done.
Qed.

(** Columns that increase. *)
Fixpoint increasing (k : Z) (cs : list cell) : Prop :=
  match cs with [] => True | c :: cs => k < c_col c < 2 ^ 61 ∧ Forall aside (c_before c) ∧ increasing (c_col c) cs end.

Lemma cells_read ss width sk skc row cs : 0 < row < 10 ^ 19 → ∀ row0 k cd calls, 0 <= k → increasing k cs → row0 <= row → k = 0 ∨ row0 = row →
  ∃ cd', foldl step (inrow ss row0 k width cd sk skc calls) (concat (map (cell_events row) cs)) =
    inrow ss (if decide (cs = []) then row0 else row) (last_col k cs) width cd' sk skc
      (rev ((if decide (cs = []) then [] else gap_before width row0 row) ++ cell_calls ss row k cs) ++ calls).
Proof.
  intros Hr. induction cs as [|c cs IH]; intros row0 k cd calls Hk Hinc Hle Hrow; [by exists cd|]. destruct Hinc as (Hc & Ha & Hinc).
  cbn [map concat]. rewrite foldl_app, cell_read by (done || lia).
  edestruct (IH row (c_col c) (value_of ss c)) as [cd' ->]; [lia|done|lia|by right|]. exists cd'. rewrite no_gap.
  assert ((if decide (cs = []) then [] else []) = ([] : list call)) as -> by (by destruct (decide (cs = []))).
  rewrite (decide_False (P := c :: cs = [])) by done. f_equal; [by destruct (decide (cs = []))|]. cbn [cell_calls app].
  generalize (gap_before width row0 row), (blanks row k (Z.to_nat (c_col c - 1 - k))), (cell_calls ss row (c_col c) cs). intros g b l.
  rewrite !rev_app_distr. cbn [rev app]. by rewrite <- !app_assoc.
Qed.

(** Between two rows. *)
Definition between ss row k width cd sk skc cs : data :=
  SheetData ss row k width cd none sk skc (Some FindRow) (Some SheetdataEnd) false false cs.

(** A row that is not hidden. *)
Definition shown (atts : attrs) : Prop := match get_expat_attr_by_name atts (lit "hidden") with Some h => atoi h = 0 | None => True end.

Lemma row_start ss row k width cd sk skc cs atts : shown atts →
  step (between ss row k width cd sk skc cs) (Start (lit "row") atts) = inrow ss (u64 (row + 1)) 0 width cd sk skc cs.
Proof.
  unfold shown. intros Ha. unfold Sheet.on_event, Sheet.dispatch, between. cbn [stopped h_start]. unfold find_row_start. names.
  destruct (get_expat_attr_by_name atts (lit "hidden")) as [h|]; [rewrite Ha, Z.eqb_refl|]; cbn [negb].
  all: unfold set_handlers; cbn; by cbv [constant].
Qed.

(** The end of a row: empty cells up to the width, which is that of row 1. *)
Lemma row_end ss row k width cd sk skc cs : let w := if (row =? 1) && (width =? 0) then k else width in
  ∃ k', step (inrow ss row k width cd sk skc cs) (End_ (lit "row")) =
    between ss row k' w None sk skc (Row row (Z.max w k) :: rev (blanks row k (Z.to_nat (w - k))) ++ cs).
Proof.
  intros w. unfold Sheet.on_event, Sheet.dispatch, inrow. cbn [stopped h_end]. unfold find_row_end. names. cbn [rownr cols negb andb].
  set (d := if (row =? 1) && (width =? 0) then _ else _).
  assert (d = SheetData ss row k w cd none sk skc (Some FindCell) (Some RowEnd) false false cs) as ->.
  { unfold d, w. destruct ((row =? 1) && (width =? 0)); [|done]. cbn. by cbv [constant]. }
  clearbody w. unfold pad_to. cbn [colnr cols]. rewrite pad_cells_spec by done. cbn [rownr colnr calls].
  match goal with |- ∃ _, (if stopped ?d then _ else _) = _ => change (stopped d) with false end. cbv iota.
  eexists. unfold report, set_handlers, between. cbn. cbv [constant]. do 3 f_equal. lia.
Qed.

(** A row behind row [L]: not hidden; with cells in a later row, or without cells in the next. *)
Definition good_row (L : Z) (r : xrow) : Prop :=
  shown (r_atts r) ∧ L < r_nr r < 2 ^ 62 ∧ increasing 0 (r_cells r) ∧ (r_cells r = [] → r_nr r = L + 1).
Fixpoint good_rows (L : Z) (rs : list xrow) : Prop :=
  match rs with [] => True | r :: rs => good_row L r ∧ good_rows (r_nr r) rs end.

Lemma row_read ss L k width cd sk skc cs r : 0 <= L → good_row L r →
  ∃ k', foldl step (between ss L k width cd sk skc cs) (row_events r) =
    between ss (r_nr r) k' (width_after width r) None sk skc
      (rev (gap_before width (L + 1) (r_nr r) ++ row_calls ss (width_after width r) r) ++ cs).
Proof.
  intros HL (Hs & Hr & Hinc & Hempty). destruct r as [row atts cells]. cbn [r_nr r_atts r_cells] in *. unfold row_events. cbn [foldl r_nr r_atts r_cells].
  rewrite row_start by done. rewrite u64_small by lia.
  rewrite foldl_app. destruct (cells_read ss width sk skc row cells ltac:(lia) (L + 1) 0 cd cs) as [cd' ->]; [lia|done|lia|by left|].
  assert ((if decide (cells = []) then L + 1 else row) = row) as -> by (case_decide; [by rewrite Hempty|done]).
  assert ((if decide (cells = []) then [] else gap_before width (L + 1) row) = gap_before width (L + 1) row) as ->.
  { case_decide; [|done]. by rewrite <- Hempty, no_gap. }
  cbn [foldl]. edestruct (row_end ss row (last_col 0 cells) width cd' sk skc) as [k' ->]. exists k'.
  unfold width_after, row_calls. cbn [r_nr r_cells]. f_equal. rewrite !rev_app_distr. cbn [rev app]. by rewrite <- !app_assoc.
Qed.

Lemma rows_read ss sk skc rs : ∀ L k width cd cs, 0 <= L → good_rows L rs →
  ∃ row k' width' cd', foldl step (between ss L k width cd sk skc cs) (concat (map row_events rs)) =
    between ss row k' width' cd' sk skc (rev (sheet_calls R ss width L rs) ++ cs).
Proof.
  induction rs as [|r rs IH]; intros L k width cd cs HL Hg; [by exists L, k, width, cd|]. destruct Hg as [Hr Hrs]. cbn [map concat]. rewrite foldl_app.
  destruct (row_read ss L k width cd sk skc cs r HL Hr) as [k1 ->].
  edestruct (IH (r_nr r) k1 (width_after width r) None) as (row & k' & width' & cd' & ->); [destruct Hr as (_ & Hr & _); lia|done|].
  exists row, k', width', cd'. f_equal. cbn [sheet_calls]. fold (gap_before width (L + 1) (r_nr r)).
  rewrite (app_assoc (gap_before width (L + 1) (r_nr r))), (rev_app_distr (gap_before width (L + 1) (r_nr r) ++ _)), <- app_assoc. done.
Qed.

(** Elements before and behind the rows, none of which is called sheetData or worksheet. *)
Definition other (e : event) : Prop :=
  match e with Start n _ => same_name n (lit "sheetData") = false | End_ n => same_name n (lit "worksheet") = false | Data _ => True end.
Definition good_surroundings (x : surroundings) : Prop := Forall other (sd_before x) ∧ Forall other (sd_after x).

Lemma others_read l d : Forall other l → h_start d = Some FindSheetdata → h_end d = None ∨ h_end d = Some WorksheetEnd → h_data d = false →
  foldl step d l = d.
Proof.
  intros H Hs He Hd. induction H as [|e l Ho H IH]; [done|]. cbn [foldl]. enough (step d e = d) as -> by done.
  unfold Sheet.on_event. destruct (stopped d); [done|]. destruct e as [n a|n|b]; unfold Sheet.dispatch.
  - rewrite Hs. unfold find_sheetdata_start. by rewrite Ho.
  - destruct He as [-> | ->]; [done|]. unfold find_worksheet_end. by rewrite Ho.
  - by rewrite Hd.
Qed.

(** A sheet is reported cell by cell: for each row in order its cells with their values, each in
    its column, with an empty cell for each column that is left out, up to the width of row 1; then
    the end of the row; and, without the flag that skips them, an empty row for each that is left out in front of it.
    The value is the text, whole however the parser cuts it, or the shared
    string it is the number of. *)
Lemma sheet_read ss x rs : good_surroundings x → good_rows 0 rs →
  read R false false (λ _, false) ss (sheet_events x rs) = sheet_calls R ss 0 0 rs.
Proof.
  intros [Hb Ha] Hrs. unfold read, sheet_events. cbn [foldl].
  change (step (initial ss) (Start (lit "worksheet") (ws_atts x))) with {initial ss with h_start := Some FindSheetdata}.
  rewrite foldl_app, (others_read (sd_before x)) by (done || by left). cbn [foldl].
  change (step {initial ss with h_start := Some FindSheetdata} (Start (lit "sheetData") (sd_atts x))) with (between ss 0 0 0 None [] 0 []).
  rewrite foldl_app. destruct (rows_read ss [] 0 rs 0 0 0 None []) as (row & k & width & cd & ->); [done|done|].
  cbn [foldl]. rewrite app_nil_r.
  change (step (between ss row k width cd [] 0 (rev (sheet_calls R ss 0 0 rs))) (End_ (lit "sheetData"))) with
    (SheetData ss row k width cd none [] 0 (Some FindSheetdata) (Some WorksheetEnd) false false (rev (sheet_calls R ss 0 0 rs))).
  rewrite foldl_app, (others_read (sd_after x)) by (done || by right). cbn [foldl].
  change (step _ (End_ (lit "worksheet"))) with
    (SheetData ss row k width cd none [] 0 (Some FindWorksheet) None false false (rev (sheet_calls R ss 0 0 rs))).
  cbn [calls]. apply rev_involutive.
Qed.
End Read.

(** ** Shared strings *)
Section Strings.
Import Strings.

(** Inside an item: other elements than texts, and phonetic runs are not considered. *)
Definition beside (e : event) : Prop :=
  match e with
  | Start n _ => same_name n (lit "t") = false ∧ same_name n (lit "rPh") = false
  | End_ n => same_name n (lit "si") = false ∧ same_name n (lit "sst") = false
  | Data _ => True
  end.
(** An item has texts, in elements of their own with their properties or not, which come in pieces. *)
Record text_run := MkRun { t_before : list event; t_atts : attrs; t_pieces : list str }.
Record item := MkItem { i_runs : list text_run; i_after : list event }.
Definition run_events (r : text_run) : list event := t_before r ++ Start (lit "t") (t_atts r) :: map Data (t_pieces r) ++ [End_ (lit "t")].
Definition item_events (i : item) : list event := Start (lit "si") [] :: concat (map run_events (i_runs i)) ++ i_after i ++ [End_ (lit "si")].
Definition strings_events (atts : attrs) (items : list item) : list event :=
  Start (lit "sst") atts :: concat (map item_events items) ++ [End_ (lit "sst")].
Definition good_item (i : item) : Prop := i_runs i ≠ [] ∧ Forall (λ r, Forall beside (t_before r)) (i_runs i) ∧ Forall beside (i_after i).

Definition append (t : option str) (pieces : list str) : option str :=
  match pieces with [] => t | _ => Some (default [] t ++ concat pieces) end.
(** The text of an item: that of all its runs; there is none when there are no pieces. *)
Definition item_text (i : item) : option str := foldl (λ t r, append t (t_pieces r)) None (i_runs i).

Lemma text_pieces ps d : h_data d = true → foldl on_event d (map Data ps) = {d with text := append (text d) ps}.
Proof.
  revert d. induction ps as [|p ps IH]; intros d H; [by destruct d|]. cbn [map foldl]. unfold on_event at 2. rewrite H, IH by done.
  unfold string_data. destruct d as [l t sk skc hs he hd]. cbn. cbv [constant]. f_equal. unfold append. destruct ps; cbn; by rewrite ?app_nil_r, <- ?app_assoc.
Qed.

Lemma besides_read l t sk skc he es : Forall beside es → he = Some TableEnd ∨ he = Some ItemEnd →
  let d := StringsData l t sk skc (Some FindString) he false in foldl on_event d es = d.
Proof.
  intros H Hhe d. induction H as [|e es He H IH]; [done|]. cbn [foldl]. enough (on_event d e = d) as -> by done.
  destruct e as [n a|n|buf]; [| |done]; destruct He as [H1 H2]; unfold on_event, d; cbn [h_start h_end].
  - unfold find_string_start. by rewrite H1, H2.
  - destruct Hhe as [-> | ->]; unfold find_item_end, find_table_end; by rewrite ?H1, H2.
Qed.

Lemma run_read l t sk skc he r : he = Some TableEnd ∨ he = Some ItemEnd → Forall beside (t_before r) →
  foldl on_event (StringsData l t sk skc (Some FindString) he false) (run_events r) =
  StringsData l (append t (t_pieces r)) sk skc (Some FindString) (Some ItemEnd) false.
Proof.
  intros Hhe Ha. destruct r as [before atts ps]. unfold run_events. cbn [t_before t_atts t_pieces] in *. rewrite foldl_app, besides_read by done.
  cbn [foldl]. change (on_event (StringsData l t sk skc (Some FindString) he false) (Start (lit "t") atts)) with (StringsData l t sk skc None (Some StringEnd) true).
  rewrite foldl_app, text_pieces by done. done.
Qed.

Lemma runs_read l sk skc runs : Forall (λ r, Forall beside (t_before r)) runs → ∀ t,
  foldl on_event (StringsData l t sk skc (Some FindString) (Some ItemEnd) false) (concat (map run_events runs)) =
  StringsData l (foldl (λ t r, append t (t_pieces r)) t runs) sk skc (Some FindString) (Some ItemEnd) false.
Proof.
  induction 1 as [|r runs Hr H IH]; intros t; [done|]. cbn [map concat foldl]. rewrite foldl_app, run_read by auto. apply IH.
Qed.

Lemma item_read l sk skc he i : good_item i →
  foldl on_event (StringsData l None sk skc (Some FindItem) he false) (item_events i) =
  StringsData (l ++ [item_text i]) None sk skc (Some FindItem) (Some TableEnd) false.
Proof.
  intros (Hne & Hr & Ha). destruct i as [runs after]. cbn [i_runs i_after] in *. unfold item_events. cbn [foldl i_runs i_after].
  change (on_event (StringsData l None sk skc (Some FindItem) he false) (Start (lit "si") [])) with (StringsData l None sk skc (Some FindString) (Some TableEnd) false).
  rewrite foldl_app. destruct runs as [|r runs]; [done|]. apply Forall_cons in Hr as [Hr Hrs]. cbn [map concat].
  rewrite !foldl_app, run_read, runs_read, besides_read by auto. done.
Qed.

(** The table of shared strings has the text of each item that has a run. *)
Lemma strings_read atts items : Forall good_item items → read (strings_events atts items) = map item_text items.
Proof.
  intros H. unfold read, strings_events. cbn [foldl].
  change (on_event initial (Start (lit "sst") atts)) with (StringsData [] None [] 0 (Some FindItem) None false).
  rewrite foldl_app. enough (∀ l he, ∃ he', foldl on_event (StringsData l None [] 0 (Some FindItem) he false) (concat (map item_events items)) =
    StringsData (l ++ map item_text items) None [] 0 (Some FindItem) he' false) as Hall.
  { destruct (Hall [] None) as [he' ->]. cbn [foldl app]. unfold on_event. cbn [h_end]. destruct he' as [[]|]; try done.
    all: cbn; by rewrite ?app_nil_r. }
  induction H as [|i items Hi H IH]; intros l he; [exists he; by rewrite app_nil_r|]. cbn [map concat]. rewrite foldl_app, item_read by done.
  destruct (IH (l ++ [item_text i]) (Some TableEnd)) as [he' ->]. exists he'. by rewrite <- app_assoc.
Qed.

(** An item without a run is left out, so that the numbers of those behind it are one too high. *)
Definition plain_item (text : str) : item := MkItem [MkRun [] [] [text]] [].
Example empty_item : read (strings_events [] [MkItem [] []; plain_item (lit "a"); plain_item (lit "b")]) =
  [Some (lit "a"); Some (lit "b")].
Proof. vm_compute. reflexivity. Qed.
End Strings.

(** ** A sheet *)
Module Small.
Import Sheet.
(** Two rows; B2 is left out, C2 is a shared string, and D2 a formula with its value. *)
Definition rows : list xrow :=
  [MkRow 1 [(lit "r", lit "1"); (lit "spans", lit "1:4")]
     [plain_cell 1 None (Some [lit "na"; lit "me"]); plain_cell 2 None (Some [lit "x"]); plain_cell 3 None (Some [lit "y"])];
   MkRow 3 [(lit "r", lit "3"); (lit "hidden", lit "0")]
     [plain_cell 1 None (Some [lit "n"]); MkCell 3 [(lit "s", lit "2"); (lit "t", lit "s")] [] (Some [lit "1"]);
      MkCell 4 [] [Start (lit "f") []; Data (lit "A1+1"); End_ (lit "f")] (Some [lit "7"])]].
Definition strings : option (list (option str)) := Some [Some (lit "zero"); Some (lit "one")].
Definition around : surroundings :=
  Surroundings [(lit "xmlns", lit "main")] [Start (lit "dimension") [(lit "ref", lit "A1:D3")]; End_ (lit "dimension")] []
    [Start (lit "pageMargins") []; End_ (lit "pageMargins")].

Example small_sheet : read false false false (λ _, false) strings (sheet_events around rows) =
  [Cell 1 1 (Some (lit "name")); Cell 1 2 (Some (lit "x")); Cell 1 3 (Some (lit "y")); Row 1 3;
   Cell 2 1 None; Cell 2 2 None; Cell 2 3 None; Row 2 3;
   Cell 3 1 (Some (lit "n")); Cell 3 2 None; Cell 3 3 (Some (lit "one")); Cell 3 4 (Some (lit "7")); Row 3 4].
Proof.
  etrans; [apply (sheet_read strings around rows)|vm_compute; reflexivity].
  - split; repeat constructor.
  - cbn. split_and!; repeat constructor; done.
Qed.

(** A hidden row ends like any other: the end of a row is reported for it, without its cells and with
    the number of the row before. *)
Definition hidden_row : list event :=
  Start (lit "row") [(lit "hidden", lit "1")] :: cell_events 2 (plain_cell 1 None (Some [lit "n"])) ++ [End_ (lit "row")].
Example hidden : read true false false (λ _, false) None
  (Start (lit "worksheet") [] :: Start (lit "sheetData") [] :: row_events (MkRow 1 [] [plain_cell 1 None (Some [lit "x"])]) ++ hidden_row) =
  [Cell 1 1 (Some (lit "x")); Row 1 1; Row 1 1].
Proof. vm_compute. reflexivity. Qed.
End Small.
End XlsxReadSpec.
