(* ===== verification/Attendance.v ===== *)
(** * The attendance tool (tools/work_attendance)

    [XLSXIOReader] collects the rows of a sheet through the callbacks of the spreadsheet reader, and
    [month_report] writes two lines for each: one for coming and one for leaving. *)
From coqutil Require Import Datatypes.RecordSetters.
From S2P Require Import Prelude CppString Decimal XlsxRead.
Import OCamlLikeNotations XlsxRead.

#[local] Open Scope Z_scope.

Module Attendance.

(*@ tools/work_attendance/reader_writer.hpp 8-23 report_data *)
Record report_data := ReportData {
  group : str; number : str; id : str; name : str; dates : str; on_duty : str; on_duty_desc : str;
  off_duty : str; off_duty_desc : str; come_late : str; leave_early : str; extra_work : str;
  away_from_work : str; without_clock_in : str;
}.
Definition new_data : report_data := ReportData [] [] [] [] [] [] [] [] [] [] [] [] [] [].

(** ** Reading *)

(** The static members: [m_row_data] is a null pointer or the row so far, [m_data] the rows. *)
Record reader := Reader { m_row_data : option report_data; m_data : list report_data }.
(*@ tools/work_attendance/reader_writer.cpp 123-124 m_row_data *)
Definition initial : reader := Reader (Some new_data) [].

(*@ tools/work_attendance/reader_writer.cpp 29-94 cell_callback *)
Definition cell_callback (s : reader) (col : Z) (value : option str) : reader :=
  match m_row_data s with
  | None => s
  | Some r =>
      let temp := default [] value in
      let r :=
        if col =? 1 then {r with group := temp}
        else if col =? 2 then {r with number := temp}
        else if col =? 3 then {r with id := temp}
        else if col =? 4 then {r with name := temp}
        else if col =? 5 then {r with dates := temp}
        else if col =? 6 then {r with on_duty := temp}
        else if col =? 7 then {r with on_duty_desc := temp}
        else if col =? 8 then {r with off_duty := temp}
        else if col =? 9 then {r with off_duty_desc := temp}
        else if col =? 10 then {r with come_late := temp}
        else if col =? 11 then {r with leave_early := temp}
        else if col =? 12 then {r with extra_work := temp}
        else if col =? 13 then {r with away_from_work := temp}
        else if col =? 14 then {r with without_clock_in := temp}
        else r in
      {s with m_row_data := Some r}
  end.

(*@ tools/work_attendance/reader_writer.cpp 95-109 row_callback *)
Definition row_callback (s : reader) : reader :=
  match m_row_data s with
  | Some r => Reader (Some new_data) (m_data s ++ [r])
  | None => {s with m_row_data := Some new_data}
  end.

Definition callback (s : reader) (c : call) : reader :=
  match c with Cell _ col value => cell_callback s col value | Row _ _ => row_callback s end.

(** The rows that the calls of the reader make, from the state at the start of the program; the
    callbacks return zero. *)
(*@ tools/work_attendance/reader_writer.cpp 110-115 process_data *)
Definition process_data (calls : list call) : list report_data := m_data (foldl callback initial calls).

(** The first sheet, if there is one. *)
(*@ tools/work_attendance/reader_writer.cpp 16-28 list_sheets *)
Definition list_sheets (part : str → option (list event)) (names : list str) : option str :=
  head (xlsxioread_list_sheets part names).

(** ** Dates *)

(** [sscanf(str, "%d-%d-%d", ...)]: [None] where not all three are read, and some are left as they
    were, which is not initialised. *)
Definition scan_int (s : str) : option (Z * str) :=
  '(n, r) ← read_int (skip_ws s);
  if (- 2 ^ 31 <=? n) && (n <? 2 ^ 31) then Some (n, r) else None.
Definition scan_dash (s : str) : option str :=
  match s with c :: r => if decide (c = "-"%char) then Some r else None | [] => None end.
Definition scan_date (s : str) : option (Z * Z * Z) :=
  '(year, s) ← scan_int s; s ← scan_dash s; '(month, s) ← scan_int s; s ← scan_dash s; '(day, _) ← scan_int s;
  Some (year, month, day).

(** The days from 1970-01-01 to a date of the Gregorian calendar; months and days may be out of range. *)
Definition days_from_civil (year month day : Z) : Z :=
  let year := year + (month - 1) / 12 in
  let month := (month - 1) mod 12 + 1 in
  let y := if month <=? 2 then year - 1 else year in
  let era := y / 400 in
  let yoe := y mod 400 in
  let mp := (month + 9) mod 12 in
  let doy := (153 * mp + 2) / 5 + day - 1 in
  era * 146097 + (yoe * 365 + yoe / 4 - yoe / 100 + doy) - 719468.

(** [mktime] in a zone [gmtoff] seconds east of Greenwich, without daylight saving. *)
Definition mktime (gmtoff year month day hour minute second : Z) : Z :=
  days_from_civil year month day * 86400 + hour * 3600 + minute * 60 + second - gmtoff.

Section Zone.
Variable gmtoff : Z.

(*@ tools/work_attendance/attendance.cpp 91-107 StringToDatetime *)
Definition StringToDatetime (s : str) : option Z :=
  '(year, month, day) ← scan_date (c_str s); Some (mktime gmtoff year month day 8 0 0).

(** ** Writing *)

(** A cell of the workbook; a date that is not initialised is [None]. *)
Inductive out := Text (s : str) | DateTime (t : option Z).

(** The titles are UTF-8. *)
(*@ tools/work_attendance/attendance.cpp 37-47 write_to_excel *)
Definition titles : list str := map lit ["部门班组"; "工号"; "姓名"; "日期"; "出勤时间"]%string.

(*@ tools/work_attendance/attendance.cpp 67-82 write_two_line *)
Definition write_two_line (group id name : str) (tt : option Z) (on_duty off_duty : str) : list (list out) :=
  [[Text (c_str group); Text (c_str id); Text (c_str name); DateTime tt; Text (c_str on_duty); Text (lit "0")];
   [Text (c_str group); Text (c_str id); Text (c_str name); DateTime tt; Text (c_str off_duty); Text (lit "1")]].

(** [substr(0, size() - 1)]: all but the last byte. *)
Definition temp_date (x : report_data) : option str := substr (dates x) 0 (u64 (size (dates x) - 1)).

(** One turn of the loop. *)
Definition two_lines (x : report_data) : list (list out) :=
  write_two_line (group x) (id x) (name x) (StringToDatetime (default [] (temp_date x))) (on_duty x) (off_duty x).

(** From the second row on, and an empty line at the end. *)
(*@ tools/work_attendance/attendance.cpp 34-66 write_to_excel *)
Definition write_to_excel (m_data : list report_data) : list str * list (list out) :=
  (titles, concat (map two_lines (drop 1 m_data)) ++ [[]]).

(*@ tools/work_attendance/attendance.cpp 10-15 start *)
Definition start (part : str → option (list event)) (names : list str) : option (list str * list (list out)) :=
  calls ← Sheet.xlsxioread_process true false false (λ _, false) part names (list_sheets part names);
  Some (write_to_excel (process_data calls)).
End Zone.
End Attendance.
