(* ===== verification/Fastcgi.v ===== *)
(** * The fastcgi service (fastcgi/router.cpp, redis_api.cpp, pdf_api.cpp)

    [router::run] accepts requests for ever and answers each by its URI; under /pdf it has a page
    converted by a shell command whose arguments are in the request's JSON text. *)
From S2P Require Import Prelude CppString.

#[local] Open Scope Z_scope.

Module Fastcgi.

(** ** Requests *)

(** What FCGX gives of a request: parameters, which may be missing, the bytes of the body, and what
    lies in memory behind those of them that are read into the buffer, which is not terminated. *)
Record request := Request { REQUEST_URI : option str; CONTENT_LENGTH : option str; body : str; behind : str }.

(** What the JSON library makes of a text: a member is looked up in a constant object. *)
Inductive member := Text (s : str) | OtherType | Missing.
Inductive json := Throws | NotObject | Object (src dst : member).

(** An exception that is caught; or the library's assertion on a missing member. *)
Inductive failure := Exception | Assertion.

Section Service.
Variable parse : str → json.
(** [boost::lexical_cast<int>]; and [system], the status of a command. *)
Variable lexical_cast : str → option Z.
Variable system : str → Z.

(*@ fastcgi/pdf_api.cpp 7-32 get_request_content *)
Definition get_request_content (r : request) : result failure str :=
  match CONTENT_LENGTH r with
  | None => Err Exception
  | Some content_length_str =>
      match (if decide (content_length_str ≠ []) then lexical_cast content_length_str else Some 0) with
      | None => Err Exception
      | Some content_length =>
          if content_length <? 0 then Err Exception
          else Ok (c_str (take (Z.to_nat content_length) (body r) ++ behind r))
      end
  end.

(** [WIFEXITED] *)
Definition exited (status : Z) : bool := Z.land status 127 =? 0.

Definition command (src dst : str) : str := lit "/usr/local/wkhtmltox/bin/wkhtmltopdf " ++ src ++ lit " " ++ dst.

(** The status is looked at for being that of a process that has ended by itself. *)
(*@ fastcgi/pdf_api.cpp 83-110 convert *)
Definition convert (src dst : str) : bool := exited (system (c_str (command src dst))).

(*@ fastcgi/pdf_api.cpp 65-76 do_convert *)
Definition do_convert (src dst : str) : str := if convert src dst then lit "ok" else lit "failed".

(*@ fastcgi/pdf_api.cpp 40-51 run *)
Definition pdf_response (r : request) : result failure str :=
  match get_request_content r with
  | Err e => Err e
  | Ok m_content =>
      match parse m_content with
      | Throws | NotObject => Err Exception
      | Object Missing _ | Object _ Missing => Err Assertion
      | Object (Text src) (Text dst) => Ok (do_convert src dst)
      | Object _ _ => Err Exception
      end
  end.

(** The body written; [None] where the assertion fails. *)
(*@ fastcgi/pdf_api.cpp 33-64 run *)
Definition pdf_api_run (r : request) : option str :=
  match pdf_response r with
  | Ok m_response => Some m_response
  | Err Exception => Some (lit "failed")
  | Err Assertion => None
  end.

(*@ fastcgi/redis_api.cpp 7-27 run *)
Definition redis_api_run (r : request) : str := lit "redis_api".

(** ** The loop *)
Definition header : str :=
  lit "Content-Type: application/xml; charset=UTF-8" ++ crlf ++ lit "Content-Encoding: gzip" ++ crlf ++ crlf.

(** How the loop is left: an exception goes to [main], which returns; or the process aborts. *)
Inductive ending := Running | Returned | Aborted.

(** Accepting fails, or there is a request; the text of each response. *)
Inductive accepted := Fails | Accepts (r : request).

(*@ fastcgi/router.cpp 9-64 run *)
Fixpoint run (es : list accepted) : list str * ending :=
  match es with
  | [] => ([], Running)
  | Fails :: es => run es
  | Accepts r :: es =>
      match REQUEST_URI r with
      | None => ([header], Returned)
      | Some uri =>
          let answer :=
            if decide (uri = lit "/redis") then Some (redis_api_run r)
            else if decide (uri = lit "/pdf") then pdf_api_run r
            else Some (lit "other fake") in
          match answer with
          | None => ([header], Aborted)
          | Some text => let '(texts, e) := run es in ((header ++ text) :: texts, e)
          end
      end
  end.
End Service.

(** ** What /pdf answers *)
Section Spec.
Context {parse : str → json} {lexical_cast : str → option Z} {system : str → Z}.

(** The status of a process that ended with an exit code. *)
Definition exit_status (code : Z) : Z := code * 256.

Lemma exited_any code : exited (exit_status code) = true.
Proof.
  unfold exited, exit_status. apply Z.eqb_eq. replace 127 with (Z.ones 7) by done. rewrite Z.land_ones by lia.
  replace (code * 256) with (code * 2 * 2 ^ 7) by lia. apply Z.mod_mul. lia.
Qed.

(** An answer that is not "ok", where one of the conditions below does not hold. *)
Lemma failed_is_not_ok : Some (lit "failed") ≠ Some (lit "ok").
Proof. by vm_compute. Qed.
Ltac not_ok :=
  split; [intros H; try discriminate H; by destruct (failed_is_not_ok H)|
          intros (? & ? & ? & ? & ? & ? & ? & ? & ?); simplify_eq; first [lia | congruence]].

(** The service says "ok" exactly when the text it sees has two texts src and dst and the command
    made of them ended by itself, with any exit code; the text it sees is the body, up to the length
    that is given, and then what lies behind it in memory, up to a zero byte. *)
Theorem pdf_says_ok r : pdf_api_run parse lexical_cast system r = Some (lit "ok") ↔
  ∃ n len src dst, CONTENT_LENGTH r = Some len ∧ (if decide (len ≠ []) then lexical_cast len else Some 0) = Some n ∧ 0 <= n ∧
    parse (c_str (take (Z.to_nat n) (body r) ++ behind r)) = Object (Text src) (Text dst) ∧
    exited (system (c_str (command src dst))) = true.
Proof.
  unfold pdf_api_run, pdf_response, get_request_content. destruct (CONTENT_LENGTH r) as [len|]; [|not_ok].
  destruct (if decide (len ≠ []) then lexical_cast len else Some 0) as [n|] eqn:En; [|not_ok].
  destruct (Z.ltb_spec n 0) as [Hn|Hn]; [not_ok|].
  destruct (parse _) as [| |[src| |] [dst| |]] eqn:Ep; try not_ok.
  unfold do_convert, convert. destruct (exited _) eqn:Ee; [|not_ok].
  split; [|done]. intros _. by exists n, len, src, dst.
Qed.

(** As long as the requests have a URI, and no member is missing, each is answered, in order. *)
Lemma run_answers rs : Forall (λ r, is_Some (REQUEST_URI r) ∧ is_Some (pdf_api_run parse lexical_cast system r)) rs →
  ∃ texts, run parse lexical_cast system (map Accepts rs) = (texts, Running) ∧ length texts = length rs.
Proof.
  induction 1 as [|r rs [[uri Hu] [t Ht]] H (texts & IH & Hl)]; [by exists []|]. cbn [map run]. rewrite Hu, Ht, IH.
  destruct (decide (uri = lit "/redis")); [|destruct (decide (uri = lit "/pdf"))]; eexists; (split; [done|]); simpl; by rewrite Hl.
Qed.
End Spec.

Module Example_.
Definition json_of (s : str) : json := if decide (s = lit "{}") then Object Missing Missing else Object (Text (lit "a.html")) (Text (lit "a.pdf")).
Definition cast (s : str) : option Z := Some 4.
Definition ask : request := Request (Some (lit "/pdf")) (Some (lit "4")) (lit "json") [NUL].

(** The command is not there, which the shell reports with exit code 127; the service says ok. *)
Example missing_command : run json_of cast (λ _, exit_status 127) [Accepts ask] = ([header ++ lit "ok"], Running).
Proof. vm_compute. reflexivity. Qed.
(** A request without a URI, or without a member, ends the service. *)
Example no_uri : run json_of cast (λ _, 0) [Accepts (Request None None [] []); Accepts ask] = ([header], Returned).
Proof. vm_compute. reflexivity. Qed.
Example no_member : run json_of cast (λ _, 0) [Accepts (Request (Some (lit "/pdf")) (Some (lit "4")) (lit "{}") [NUL]); Accepts ask] = ([header], Aborted).
Proof. vm_compute. reflexivity. Qed.
End Example_.
End Fastcgi.
