(* ===== verification/XlsxWrite.v ===== *)
(** * Writing a worksheet (tools/xlsxio/lib/xlsxio_write.c)

    The calls of the application are turned into the XML of one sheet.  The first rows are kept in a
    buffer, so that the widths of the columns, which come first in the file, can be taken from them;
    what follows goes into a pipe.  A thread puts the parts of the workbook into a zip archive, the
    last of which is all that comes through the pipe until it is closed. *)
From Stdlib Require Import Floats.SpecFloat.
From coqutil Require Import Datatypes.RecordSetters.
From S2P Require Import Prelude CppString Decimal.
Import OCamlLikeNotations.

#[local] Open Scope Z_scope.

Module XlsxWrite.

(** ** The parts of the workbook that are always the same *)

Definition QUOTE : ascii := ascii_of_nat 34.
(** A text with double quotes where single ones are written here. *)
Definition quotes (s : str) : str := map (λ c, if decide (c = "'"%char) then QUOTE else c) s.
Definition xml (s : string) : str := quotes (lit s).

Definition xml_declaration : str := xml "<?xml version='1.0' encoding='UTF-8' standalone='yes'?>" ++ crlf.

(*@ tools/xlsxio/lib/xlsxio_write.c 90-104 content_types_xml *)
Definition content_types_xml : str := xml_declaration ++
  xml "<Types xmlns='http://schemas.openxmlformats.org/package/2006/content-types'>" ++
  xml "<Default Extension='rels' ContentType='application/vnd.openxmlformats-package.relationships+xml'/>" ++
  xml "<Default Extension='xml' ContentType='application/xml'/>" ++
  xml "<Override PartName='/workbook.xml' ContentType='application/vnd.openxmlformats-officedocument.spreadsheetml.sheet.main+xml'/>" ++
  xml "<Override PartName='/core.xml' ContentType='application/vnd.openxmlformats-package.core-properties+xml'/>" ++
  xml "<Override PartName='/app.xml' ContentType='application/vnd.openxmlformats-officedocument.extended-properties+xml'/>" ++
  xml "<Override PartName='/styles.xml' ContentType='application/vnd.openxmlformats-officedocument.spreadsheetml.styles+xml'/>" ++
  xml "<Override PartName='/sheet1.xml' ContentType='application/vnd.openxmlformats-officedocument.spreadsheetml.worksheet+xml'/>" ++
  xml "</Types>".

(*@ tools/xlsxio/lib/xlsxio_write.c 106-112 docprops_core_xml *)
Definition docprops_core_xml : str := xml_declaration ++
  xml "<coreProperties xmlns='http://schemas.openxmlformats.org/package/2006/metadata/core-properties'>" ++
  xml "<lastModifiedBy>libxlsxio_write 0.2.8</lastModifiedBy></coreProperties>".

(*@ tools/xlsxio/lib/xlsxio_write.c 114-117 docprops_app_xml *)
Definition docprops_app_xml : str := xml_declaration ++
  xml "<Properties xmlns='http://schemas.openxmlformats.org/officeDocument/2006/extended-properties' xmlns:vt='http://schemas.openxmlformats.org/officeDocument/2006/docPropsVTypes'>" ++
  xml "</Properties>".

(*@ tools/xlsxio/lib/xlsxio_write.c 119-124 rels_xml *)
Definition rels_xml : str := xml_declaration ++
  xml "<Relationships xmlns='http://schemas.openxmlformats.org/package/2006/relationships'>" ++
  xml "<Relationship Id='rId1' Type='http://schemas.openxmlformats.org/package/2006/relationships/metadata/core-properties' Target='core.xml'/>" ++
  xml "<Relationship Id='rId2' Type='http://schemas.openxmlformats.org/officeDocument/2006/relationships/extended-properties' Target='app.xml'/>" ++
  xml "<Relationship Id='rId3' Type='http://schemas.openxmlformats.org/officeDocument/2006/relationships/officeDocument' Target='workbook.xml'/>" ++
  xml "</Relationships>".

(*@ tools/xlsxio/lib/xlsxio_write.c 128-182 styles_xml *)
Definition styles_xml : str := xml_declaration ++
  xml "<styleSheet xmlns='http://schemas.openxmlformats.org/spreadsheetml/2006/main'>" ++ crlf ++
  xml "<fonts count='2'>" ++ crlf ++
  xml "<font>" ++ crlf ++
  xml "<sz val='10'/>" ++ crlf ++
  xml "<name val='Consolas'/>" ++ crlf ++
  xml "<family val='2'/>" ++ crlf ++
  xml "</font>" ++ crlf ++
  xml "<font>" ++ crlf ++
  xml "<b/><u/>" ++
  xml "<sz val='10'/>" ++ crlf ++
  xml "<name val='Consolas'/>" ++ crlf ++
  xml "<family val='2'/>" ++ crlf ++
  xml "</font>" ++ crlf ++
  xml "</fonts>" ++ crlf ++
  xml "<fills count='1'>" ++ crlf ++
  xml "<fill/>" ++ crlf ++
  xml "</fills>" ++ crlf ++
  xml "<borders count='2'>" ++ crlf ++
  xml "<border>" ++ crlf ++
  xml "</border>" ++ crlf ++
  xml "<border><bottom style='thin'><color indexed='64'/></bottom></border>" ++ crlf ++
  xml "</borders>" ++ crlf ++
  xml "<cellXfs count='6'>" ++ crlf ++
  xml "<xf numFmtId='0' fontId='0' fillId='0' borderId='0' xfId='0'/>" ++ crlf ++
  xml "<xf numFmtId='0' fontId='1' fillId='0' borderId='1' xfId='0' applyFont='1' applyBorder='1' applyAlignment='1'><alignment vertical='top'/></xf>" ++ crlf ++
  xml "<xf numFmtId='0' fontId='0' fillId='0' borderId='0' xfId='0' applyAlignment='1'><alignment vertical='top'/></xf>" ++ crlf ++
  xml "<xf numFmtId='49' fontId='0' fillId='0' borderId='0' xfId='0' applyNumberFormat='1' applyAlignment='1'><alignment vertical='top' wrapText='1'/></xf>" ++ crlf ++
  xml "<xf numFmtId='1' fontId='0' fillId='0' borderId='0' xfId='0' applyNumberFormat='1' applyAlignment='1'><alignment vertical='top'/></xf>" ++ crlf ++
  xml "<xf numFmtId='22' fontId='0' fillId='0' borderId='0' xfId='0' applyNumberFormat='1' applyAlignment='1'><alignment horizontal='center' vertical='top'/></xf>" ++ crlf ++
  xml "</cellXfs>" ++ crlf ++
  xml "<dxfs count='0'/>" ++ crlf.

(*@ tools/xlsxio/lib/xlsxio_write.c 200-208 workbook_rels_xml *)
Definition workbook_rels_xml : str := xml_declaration ++
  xml "<Relationships xmlns='http://schemas.openxmlformats.org/package/2006/relationships'>" ++
  xml "<Relationship Id='rId2' Type='http://schemas.openxmlformats.org/officeDocument/2006/relationships/styles' Target='styles.xml'/>" ++
  xml "<Relationship Id='rId3' Type='http://schemas.openxmlformats.org/officeDocument/2006/relationships/worksheet' Target='sheet1.xml'/>" ++
  xml "</Relationships>".

(** With the name of the sheet. *)
(*@ tools/xlsxio/lib/xlsxio_write.c 211-221 workbook_xml *)
Definition workbook_xml (name : str) : str := xml_declaration ++
  xml "<workbook xmlns='http://schemas.openxmlformats.org/spreadsheetml/2006/main' xmlns:r='http://schemas.openxmlformats.org/officeDocument/2006/relationships'>" ++
  xml "<bookViews><workbookView/></bookViews><sheets><sheet name='" ++ name ++ xml "' sheetId='1' r:id='rId3'/></sheets></workbook>".

(*@ tools/xlsxio/lib/xlsxio_write.c 223-225 worksheet_xml_begin *)
Definition worksheet_xml_begin : str := xml_declaration ++
  xml "<worksheet xmlns='http://schemas.openxmlformats.org/spreadsheetml/2006/main' xmlns:r='http://schemas.openxmlformats.org/officeDocument/2006/relationships'>".

(*@ tools/xlsxio/lib/xlsxio_write.c 227-233 worksheet_xml_freeze_top_row *)
Definition worksheet_xml_freeze_top_row : str :=
  xml "<sheetViews><sheetView tabSelected='1' workbookViewId='0'>" ++
  xml "<pane ySplit='1' topLeftCell='A2' activePane='bottomLeft' state='frozen'/><selection pane='bottomLeft'/>" ++
  xml "</sheetView></sheetViews>".

(*@ tools/xlsxio/lib/xlsxio_write.c 235-236 worksheet_xml_start_data *)
Definition worksheet_xml_start_data : str := xml "<sheetData>".
(*@ tools/xlsxio/lib/xlsxio_write.c 238-241 worksheet_xml_end *)
Definition worksheet_xml_end : str := xml "</sheetData></worksheet>".

(** ** Texts *)

(** The text is made longer in place. *)
(*@ tools/xlsxio/lib/xlsxio_write.c 288-304 str_replace *)
Definition str_replace (s : str) (pos len : Z) (replacement : str) : str :=
  let totallen := size s in
  let pos := if totallen <? pos then totallen else pos in
  let len := if totallen <? u64 (pos + len) then totallen - pos else len in
  take (Z.to_nat pos) s ++ replacement ++ drop (Z.to_nat (pos + len)) s.

(** [pos] is an [int], which overflows where there is [None]. *)
Definition advance (pos n : Z) : option Z := if pos + n <? 2 ^ 31 then Some (pos + n) else None.

(** The loop with [pos]; it is made as long as what is left at [pos] is not empty. *)
Fixpoint fix_loop (fuel : nat) (s : str) (pos : Z) : option str :=
  match fuel with
  | O => None
  | S fuel =>
      match s !! Z.to_nat pos with
      | None => Some s
      | Some c =>
          if decide (c = "&"%char) then pos' ← advance pos 5; fix_loop fuel (str_replace s pos 1 (lit "&amp;")) pos'
          else if decide (c = QUOTE) then pos' ← advance pos 6; fix_loop fuel (str_replace s pos 1 (lit "&quot;")) pos'
          else if decide (c = "<"%char) then pos' ← advance pos 4; fix_loop fuel (str_replace s pos 1 (lit "&lt;")) pos'
          else if decide (c = ">"%char) then pos' ← advance pos 4; fix_loop fuel (str_replace s pos 1 (lit "&gt;")) pos'
          else if decide (c = CR) then fix_loop fuel (str_replace s pos 1 []) pos
          else pos' ← advance pos 1; fix_loop fuel s pos'
      end
  end.
(*@ tools/xlsxio/lib/xlsxio_write.c 307-337 fix_xml_special_chars *)
Definition fix_xml_special_chars (s : str) : option str := fix_loop (S (length s)) s 0.

(** ** Numbers in decimal

    [%.nG] of [printf]: the digits of the exact value, rounded to even, without trailing zeros, and
    with an exponent when that is below -4 or not below [n]. *)
Definition round_even (a b : Z) : Z :=
  let q := a / b in let r := a mod b in
  if 2 * r <? b then q else if b <? 2 * r then q + 1 else if Z.even q then q else q + 1.
Fixpoint log10 (fuel : nat) (n : Z) : Z :=
  match fuel with O => 0 | S fuel => if n <? 10 then 0 else 1 + log10 fuel (n / 10) end.
(** The least [k] from the given one on for which [a * 10^k] reaches [b]. *)
Fixpoint scale (fuel : nat) (a b k : Z) : Z :=
  match fuel with O => k | S fuel => if b <=? a * 10 ^ k then k else scale fuel a b (k + 1) end.
Definition exponent10 (a b : Z) : Z := if b <=? a then log10 400 (a / b) else - scale 400 a b 1.
Fixpoint digits (k : nat) (n : Z) : str :=
  match k with O => [] | S k => digits k (n / 10) ++ [digit (n mod 10)] end.
Fixpoint drop_zeros (s : str) : str :=
  match s with c :: r => if decide (c = "0"%char) then drop_zeros r else s | [] => [] end.
Definition strip_zeros (s : str) : str := rev (drop_zeros (rev s)).
Definition fraction (s : str) : str := match strip_zeros s with [] => [] | f => "."%char :: f end.

(** Of the quotient [a / b], which is positive. *)
Definition format_G (prec : nat) (a b : Z) : str :=
  let x := exponent10 a b in
  let e := Z.of_nat prec - 1 - x in
  let n := if 0 <=? e then round_even (a * 10 ^ e) b else round_even a (b * 10 ^ (- e)) in
  let '(n, x) := if n =? 10 ^ Z.of_nat prec then (n / 10, x + 1) else (n, x) in
  let ds := digits prec n in
  if (-4 <=? x) && (x <? Z.of_nat prec) then
    if 0 <=? x then take (Z.to_nat (x + 1)) ds ++ fraction (drop (Z.to_nat (x + 1)) ds)
    else lit "0." ++ replicate (Z.to_nat (- x - 1)) "0"%char ++ strip_zeros ds
  else take 1 ds ++ fraction (drop 1 ds) ++ lit "E" ++ (if x <? 0 then lit "-" else lit "+") ++
       (if Z.abs x <? 10 then lit "0" else []) ++ dec (Z.abs x).

Definition printf_G (prec : nat) (d : spec_float) : str :=
  match d with
  | S754_zero s => (if s then lit "-" else []) ++ lit "0"
  | S754_infinity s => (if s then lit "-" else []) ++ lit "INF"
  | S754_nan => lit "NAN"
  | S754_finite s m e =>
      (if s then lit "-" else []) ++
      (if 0 <=? e then format_G prec (Zpos m * 2 ^ e) 1 else format_G prec (Zpos m) (2 ^ (- e)))
  end.

(** [double]: IEEE binary64, rounding to nearest. *)
Definition of_Z (z : Z) : spec_float := binary_normalize 53 1024 z 0 false.
Definition dadd : spec_float → spec_float → spec_float := SFadd 53 1024.
Definition dmul : spec_float → spec_float → spec_float := SFmul 53 1024.
Definition ddiv : spec_float → spec_float → spec_float := SFdiv 53 1024.

(*@ tools/xlsxio/lib/xlsxio_write.c 51-51 CALCULATE_COLUMN_WIDTH *)
Definition CALCULATE_COLUMN_WIDTH (characters : Z) : spec_float :=
  ddiv (of_Z (Z.quot ((characters * 7 + 5) * 256) 7)) (of_Z 256).
(*@ tools/xlsxio/lib/xlsxio_write.c 52-52 CALCULATE_COLUMN_HEIGHT *)
Definition CALCULATE_COLUMN_HEIGHT (characters : Z) : spec_float := dmul (of_Z characters) (ddiv (of_Z 1275) (of_Z 100)).

(** ** The handle *)

(** [columninfo] holds the width and the greatest length of each column, and [pcurrentcolumn] points
    at the link behind so many of them; [buf] is empty where the code has a null pointer; what has
    been written to the pipe comes last. *)
(*@ tools/xlsxio/lib/xlsxio_write.c 341-367 xlsxio_write_struct *)
Record writer := Writer {
  sheetname : option str;
  columninfo : list (Z * Z); pcurrentcolumn : nat;
  buf : str; rowstobuffer : Z; rowheight : Z; freezetop : Z;
  sheetopen : bool; rowopen : bool;
  pipe_write : str;
}.

(** [fprintf] to the pipe; [append_data] to the buffer, which takes what [vsnprintf] can measure. *)
Definition fprintf (t : str) (s : writer) : writer := {s with pipe_write := pipe_write s ++ t}.
(*@ tools/xlsxio/lib/xlsxio_write.c 544-570 append_data *)
Definition append_data (t : str) (s : writer) : writer := if size t <? 2 ^ 31 then {s with buf := buf s ++ t} else s.
Definition put (t : str) (s : writer) : writer := if sheetopen s then fprintf t s else append_data t s.

(*@ tools/xlsxio/lib/xlsxio_write.c 446-490 xlsxiowrite_open *)
Definition xlsxiowrite_open (name : option str) : writer :=
  Writer name [] 0 [] 5 0 0 false false worksheet_xml_begin.

(** One [<col>] element, where the detected length counts when no width is set, or a negative one
    that is less. *)
Definition col_width (c : Z * Z) : Z :=
  let '(width, maxwidth) := c in
  if width =? 0 then if 0 <? maxwidth then maxwidth else 0
  else if width <? 0 then if - width <? maxwidth then maxwidth else - width
  else width.
Definition col_xml (col : Z) (c : Z * Z) : str :=
  let len := col_width c in
  xml "<col min='" ++ dec col ++ xml "' max='" ++ dec col ++
  if len =? 0 then xml "'/>" else xml "' width='" ++ printf_G 6 (CALCULATE_COLUMN_WIDTH len) ++ xml "' customWidth='1'/>".
Fixpoint cols_xml (col : Z) (cs : list (Z * Z)) : str :=
  match cs with [] => [] | c :: cs => col_xml (col + 1) c ++ cols_xml (col + 1) cs end.

(*@ tools/xlsxio/lib/xlsxio_write.c 660-706 flush_buffer *)
Definition flush_buffer (s : writer) : writer :=
  let s := if 0 <? freezetop s then fprintf worksheet_xml_freeze_top_row s else s in
  let s := match columninfo s with
           | [] => s
           | cs => fprintf (xml "</cols>") (fprintf (cols_xml 0 cs) (fprintf (xml "<cols>") s))
           end in
  let s := fprintf worksheet_xml_start_data s in
  let s := fprintf (buf s) s in
  {s with buf := []; sheetopen := true}.

(*@ tools/xlsxio/lib/xlsxio_write.c 573-587 write_row_start *)
Definition write_row_start (rowattr : str) (s : writer) : writer :=
  let tag := if rowheight s =? 0 then xml "<row" ++ rowattr ++ xml ">"
             else xml "<row ht='" ++ printf_G 6 (CALCULATE_COLUMN_HEIGHT (rowheight s)) ++ xml "' customHeight='1'" ++ rowattr ++ xml ">" in
  {put tag s with rowopen := true}.

(** The column's entry is made when it is not there; the length of the first line is remembered.
    [datalen] is the length before special characters are replaced. *)
Definition collect (data : option str) (datalen : Z) (s : writer) : writer :=
  let k := pcurrentcolumn s in
  let cs := if (k <? length (columninfo s))%nat then columninfo s else columninfo s ++ [(0, 0)] in
  let datalen := match data with
                 | Some d => match index_of LF d with Some p => Z.of_nat p | None => datalen end
                 | None => 0
                 end in
  let widen := λ '((width, maxwidth) : Z * Z), (width, if (0 <? datalen) && (maxwidth <? datalen) then datalen else maxwidth) in
  {s with columninfo := match data with Some _ => alter widen k cs | None => cs end; pcurrentcolumn := S k}.

(** [None] where the behaviour is undefined. *)
(*@ tools/xlsxio/lib/xlsxio_write.c 590-657 write_cell_data *)
Definition write_cell_data (rowattr prefix : str) (suffix : option str) (text : option str) (s : writer) : option writer :=
  let s := if rowopen s then s else write_row_start rowattr s in
  data ← match text with
         | Some t => if size t <? 2 ^ 31 then Some <$> fix_xml_special_chars t else Some None
         | None => Some None
         end;
  let opened := sheetopen s in
  let s := put prefix s in
  let s := match data with Some d => put d s | None => s end in
  let s := match suffix with Some x => put x s | None => s end in
  Some (if opened then s else collect data (match text with Some t => size t | None => 0 end) s).

Definition cell_of (style : string) : str := xml "<c t='inlineStr' s='" ++ lit style ++ xml "'><is><t>".
Definition empty_of (style : string) : str := xml "<c s='" ++ lit style ++ xml "'/>".
Definition number_of (style : string) : str := xml "<c s='" ++ lit style ++ xml "'><v>".
Definition string_cell (style : string) (rowattr : str) (value : option str) (s : writer) : option writer :=
  match value with
  | Some v => write_cell_data rowattr (cell_of style) (Some (xml "</t></is></c>")) (Some (c_str v)) s
  | None => write_cell_data rowattr (empty_of style) None None s
  end.

(*@ tools/xlsxio/lib/xlsxio_write.c 725-736 xlsxiowrite_add_column *)
Definition xlsxiowrite_add_column (value : option str) (width : Z) (s : writer) : option writer :=
  let k := pcurrentcolumn s in
  s ← string_cell "1" (xml " s='1'") value s;
  let s := {s with columninfo := alter (λ c, (width, c.2)) k (columninfo s)} in
  Some (if freezetop s =? 0 then {s with freezetop := 1} else s).

(*@ tools/xlsxio/lib/xlsxio_write.c 738-744 xlsxiowrite_add_cell_string *)
Definition xlsxiowrite_add_cell_string (value : option str) (s : writer) : option writer := string_cell "3" [] value s.

(*@ tools/xlsxio/lib/xlsxio_write.c 746-749 xlsxiowrite_add_cell_int *)
Definition xlsxiowrite_add_cell_int (value : Z) (s : writer) : option writer :=
  write_cell_data [] (number_of "4") (Some (xml "</v></c>")) (Some (dec_int value)) s.

(*@ tools/xlsxio/lib/xlsxio_write.c 751-754 xlsxiowrite_add_cell_float *)
Definition xlsxiowrite_add_cell_float (value : spec_float) (s : writer) : option writer :=
  write_cell_data [] (number_of "2") (Some (xml "</v></c>")) (Some (printf_G 32 value)) s.

(** A time in seconds since 1970 as days since 1900. *)
Definition excel_time (value : Z) : spec_float :=
  dadd (ddiv (dadd (of_Z value) (ddiv (of_Z 499) (of_Z 1000))) (of_Z 86400)) (of_Z 25569).
(*@ tools/xlsxio/lib/xlsxio_write.c 756-760 xlsxiowrite_add_cell_datetime *)
Definition xlsxiowrite_add_cell_datetime (value : Z) (s : writer) : option writer :=
  write_cell_data [] (number_of "5") (Some (xml "</v></c>")) (Some (printf_G 16 (excel_time value))) s.

(*@ tools/xlsxio/lib/xlsxio_write.c 708-718 xlsxiowrite_set_detection_rows *)
Definition xlsxiowrite_set_detection_rows (rows : Z) (s : writer) : writer :=
  if (rowstobuffer s =? 0) || sheetopen s then s
  else let s := {s with rowstobuffer := rows} in if rows =? 0 then flush_buffer s else s.

(*@ tools/xlsxio/lib/xlsxio_write.c 720-723 xlsxiowrite_set_row_height *)
Definition xlsxiowrite_set_row_height (height : Z) (s : writer) : writer := {s with rowheight := height}.

(*@ tools/xlsxio/lib/xlsxio_write.c 773-796 xlsxiowrite_next_row *)
Definition xlsxiowrite_next_row (s : writer) : writer :=
  let s := if negb (sheetopen s) && (0 <? rowstobuffer s) then
             let s := {s with rowstobuffer := rowstobuffer s - 1} in
             if rowstobuffer s =? 0 then flush_buffer s else s
           else s in
  let s := if rowopen s then s else write_row_start [] s in
  let s := if rowstobuffer s =? 0 then fprintf (xml "</row>") s else append_data (xml "</row>") s in
  {s with rowopen := false; pcurrentcolumn := 0%nat}.

(** What has gone through the pipe when it is closed. *)
(*@ tools/xlsxio/lib/xlsxio_write.c 494-534 xlsxiowrite_close *)
Definition xlsxiowrite_close (s : writer) : str :=
  let s := if sheetopen s then s else flush_buffer s in
  let s := if rowopen s then fprintf (xml "</row>") s else s in
  pipe_write (fprintf worksheet_xml_end s).

(** ** The archive *)

(** The parts in the order they are added, with what came through the pipe as the last; [None] where
    the name of the sheet is too long for [int]. *)
(*@ tools/xlsxio/lib/xlsxio_write.c 373-442 thread_proc *)
Definition thread_proc (name : option str) (piped : str) : option (list (str * str)) :=
  sheetname ← match name with
              | Some n => Some <$> fix_xml_special_chars (take 31 (c_str n))
              | None => Some None
              end;
  Some [(lit "[Content_Types].xml", content_types_xml); (lit "core.xml", docprops_core_xml); (lit "app.xml", docprops_app_xml);
        (lit "_rels/.rels", rels_xml); (lit "styles.xml", styles_xml); (lit "_rels/workbook.xml.rels", workbook_rels_xml);
        (lit "workbook.xml", workbook_xml (default (lit "Sheet1") sheetname)); (lit "sheet1.xml", piped)].

(** ** The calls of an application *)
Inductive op :=
| AddColumn (value : option str) (width : Z)
| AddString (value : option str)
| AddInt (value : Z)
| AddFloat (value : spec_float)
| AddDatetime (value : Z)
| NextRow
| SetRowHeight (height : Z)
| SetDetectionRows (rows : Z).

Definition exec (o : op) (s : writer) : option writer :=
  match o with
  | AddColumn v w => xlsxiowrite_add_column v w s
  | AddString v => xlsxiowrite_add_cell_string v s
  | AddInt z => xlsxiowrite_add_cell_int z s
  | AddFloat d => xlsxiowrite_add_cell_float d s
  | AddDatetime t => xlsxiowrite_add_cell_datetime t s
  | NextRow => Some (xlsxiowrite_next_row s)
  | SetRowHeight h => Some (xlsxiowrite_set_row_height h s)
  | SetDetectionRows n => Some (xlsxiowrite_set_detection_rows n s)
  end.
Fixpoint exec_all (os : list op) (s : writer) : option writer :=
  match os with [] => Some s | o :: os => s ← exec o s; exec_all os s end.

(** A workbook from its opening to its closing. *)
Definition save (name : option str) (os : list op) : option (list (str * str)) :=
  s ← exec_all os (xlsxiowrite_open name);
  thread_proc (sheetname s) (xlsxiowrite_close s).
End XlsxWrite.
