(* ===== verification/XmlDoc.v ===== *)
(** * XML documents

    The documents of a workbook as tags and texts: the text that stands for one, what a parser
    reports of it, and a small parser that does. *)
From S2P Require Import Prelude CppString Decimal XlsxRead XlsxWrite.
Import XlsxRead XlsxWrite.

#[local] Open Scope Z_scope.

Module XmlDoc.
#[local] Arguments xml : simpl never.
#[local] Arguments lit : simpl never.

(** ** XML documents

    A document as its tags and texts; the text of one is what the writer makes, and [report] what a
    parser has to say about it. *)
Inductive token := STag (name : str) (atts : attrs) | Empty (name : str) (atts : attrs) | ETag (name : str) | Chars (s : str).

Definition escape_char (c : ascii) : str :=
  if decide (c = "&"%char) then lit "&amp;"
  else if decide (c = QUOTE) then lit "&quot;"
  else if decide (c = "<"%char) then lit "&lt;"
  else if decide (c = ">"%char) then lit "&gt;"
  else if decide (c = CR) then []
  else [c].
Definition escape (s : str) : str := concat (map escape_char s).

Definition show_attr (a : str * str) : str := lit " " ++ a.1 ++ xml "='" ++ escape a.2 ++ xml "'".
Definition show (t : token) : str :=
  match t with
  | STag n a => lit "<" ++ n ++ concat (map show_attr a) ++ lit ">"
  | Empty n a => lit "<" ++ n ++ concat (map show_attr a) ++ lit "/>"
  | ETag n => lit "</" ++ n ++ lit ">"
  | Chars s => escape s
  end.
Definition tokens_text (ts : list token) : str := concat (map show ts).
Definition document (ts : list token) : str := xml_declaration ++ tokens_text ts.

Definition report (t : token) : list event :=
  match t with
  | STag n a => [Start n a]
  | Empty n a => [Start n a; End_ n]
  | ETag n => [End_ n]
  | Chars [] => []
  | Chars s => [Data s]
  end.
Definition events (ts : list token) : list event := concat (map report ts).

(** *** Well-formed documents *)

(** Characters of names; the parser's alphabet is larger. *)
Definition name_char (c : ascii) : bool := upper_letter c || lower_letter c || is_digit c || bool_decide (c = ":"%char).
Definition name_ok (n : str) : bool :=
  match n with [] => false | c :: r => (upper_letter c || lower_letter c) && forallb name_char r end.

(** UTF-8 of characters that XML has: no control characters but tab and line feed, no surrogates,
    not U+FFFE and U+FFFF.  A carriage return would be read as a line feed. *)
Definition cont (lo hi : nat) (c : ascii) : bool := let n := nat_of_ascii c in (lo <=? n)%nat && (n <=? hi)%nat.
Fixpoint text_ok (s : str) : bool :=
  match s with
  | [] => true
  | a :: r =>
      let n := nat_of_ascii a in
      if (n <? 128)%nat then ((32 <=? n)%nat || (n =? 9)%nat || (n =? 10)%nat) && text_ok r
      else match r with
      | b :: r =>
          if cont 194 223 a then cont 128 191 b && text_ok r
          else match r with
          | c :: r =>
              if cont 224 239 a then
                (if (n =? 224)%nat then cont 160 191 b else if (n =? 237)%nat then cont 128 159 b else cont 128 191 b) && cont 128 191 c &&
                negb ((n =? 239)%nat && cont 191 191 b && cont 190 191 c) && text_ok r
              else match r with
              | d :: r =>
                  cont 240 244 a && (if (n =? 240)%nat then cont 144 191 b else if (n =? 244)%nat then cont 128 143 b else cont 128 191 b) &&
                  cont 128 191 c && cont 128 191 d && text_ok r
              | [] => false
              end
          | [] => false
          end
      | [] => false
      end
  end.
(** Tabs and line feeds in attributes are read as blanks. *)
Definition value_ok (s : str) : bool := text_ok s && forallb (λ c, negb (bool_decide (c = LF) || bool_decide (c = ascii_of_nat 9))) s.
Definition atts_ok (a : attrs) : bool := forallb (λ p, name_ok p.1 && value_ok p.2) a && bool_decide (NoDup a.*1).

(** Inside the elements of [stack], innermost first, and behind a text or not. *)
Fixpoint inside (stack : list str) (text : bool) (ts : list token) : bool :=
  match stack with
  | [] => match ts with [] => true | _ => false end
  | m :: outer =>
      match ts with
      | [] => false
      | STag n a :: ts => name_ok n && atts_ok a && inside (n :: stack) false ts
      | Empty n a :: ts => name_ok n && atts_ok a && inside stack false ts
      | ETag n :: ts => bool_decide (n = m) && inside outer false ts
      | Chars s :: ts => negb text && text_ok s && inside stack true ts
      end
  end.
Definition well_formed (ts : list token) : bool :=
  match ts with STag n a :: ts => name_ok n && atts_ok a && inside [n] false ts | _ => false end.

(** *** The parser *)

(** Texts may be delivered in pieces. *)
Inductive cuts : list event → list event → Prop :=
| cuts_nil : cuts [] []
| cuts_start n a es es' : cuts es es' → cuts (Start n a :: es) (Start n a :: es')
| cuts_end n es es' : cuts es es' → cuts (End_ n :: es) (End_ n :: es')
| cuts_data ps s es es' : ps ≠ [] → concat ps = s → cuts es es' → cuts (Data s :: es) (map Data ps ++ es').

(** expat: the events of a well-formed document. *)
Class ParserLaws (expat : str → option (list event)) : Prop :=
  parser_reads ts : well_formed ts = true → ∃ es, expat (document ts) = Some es ∧ cuts (events ts) es.

Lemma events_app ts us : events (ts ++ us) = events ts ++ events us.
Proof. unfold events. by rewrite map_app, concat_app. Qed.
Lemma text_app ts us : tokens_text (ts ++ us) = tokens_text ts ++ tokens_text us.
Proof. unfold tokens_text. by rewrite map_app, concat_app. Qed.

Lemma cuts_self es : cuts es es.
Proof.
  induction es as [|[n a|n|s] es IH]; [constructor|by constructor|by constructor|].
  by apply (cuts_data [s] s es es); [|apply app_nil_r|].
Qed.
(** A document without texts is reported in one way. *)
Lemma cuts_no_data es es' : Forall (λ e, match e with Data _ => False | _ => True end) es → cuts es es' → es' = es.
Proof. intros H Hc. induction Hc; [done|apply Forall_cons in H as [? ?]..]; [f_equal; auto..|done]. Qed.

(** No control character but TAB and LF is in a text. *)
Lemma text_ok_controls x s : (nat_of_ascii x < 32)%nat → nat_of_ascii x ≠ 9%nat → nat_of_ascii x ≠ 10%nat → text_ok s = true → x ∉ s.
Proof.
  intros Hx Hx9 Hx10.
  assert (∀ lo hi c, cont lo hi c = true → (31 < lo)%nat → c ≠ x) as Hcont.
  { intros lo hi c H Hlo ->. apply andb_true_iff in H as [H%Nat.leb_le _]. lia. }
  remember (length s) as n eqn:Hn. assert (length s <= n)%nat as Hl by lia. clear Hn. revert s Hl.
  induction n as [|n IH]; intros [|a r] Hl H; simpl in Hl; try lia; try apply not_elem_of_nil. cbn [text_ok] in H.
  destruct (Nat.ltb_spec (nat_of_ascii a) 128) as [Ha|Ha].
  { apply andb_true_iff in H as [Hc H]. apply not_elem_of_cons. split.
    { intros <-. apply orb_true_iff in Hc as [[Hc%Nat.leb_le|Hc%Nat.eqb_eq]%orb_true_iff|Hc%Nat.eqb_eq]; lia. }
    apply (IH r); [lia|done]. }
  assert (x ≠ a) as Hca by (intros <-; lia). apply not_elem_of_cons. split; [done|]. clear Hca.
  destruct r as [|b r]; [done|]. simpl in Hl. destruct (cont 194 223 a).
  { apply andb_true_iff in H as [Hb H]. apply not_elem_of_cons. split; [symmetry; eapply Hcont; [exact Hb|lia]|]. apply (IH r); [lia|done]. }
  destruct r as [|c r]; [done|]. simpl in Hl. destruct (cont 224 239 a).
  { apply andb_true_iff in H as [[[Hb Hc]%andb_true_iff _]%andb_true_iff H]. rewrite !not_elem_of_cons. split_and!; [|symmetry; eapply Hcont; [exact Hc|lia]|apply (IH r); [lia|done]].
    symmetry. destruct (_ =? _)%nat; [eapply Hcont; [exact Hb|lia]|]. destruct (_ =? _)%nat; (eapply Hcont; [exact Hb|lia]). }
  destruct r as [|d r]; [done|]. simpl in Hl.
  apply andb_true_iff in H as [[[[_ Hb]%andb_true_iff Hc]%andb_true_iff Hd]%andb_true_iff H]. rewrite !not_elem_of_cons.
  split_and!; [|symmetry; eapply Hcont; [exact Hc|lia]|symmetry; eapply Hcont; [exact Hd|lia]|apply (IH r); [lia|done]].
  symmetry. destruct (_ =? _)%nat; [eapply Hcont; [exact Hb|lia]|]. destruct (_ =? _)%nat; (eapply Hcont; [exact Hb|lia]).
Qed.
Lemma text_ok_no_cr s : text_ok s = true → CR ∉ s.
Proof. apply text_ok_controls; [by apply Nat.ltb_lt|done..]. Qed.
Lemma text_ok_no_nul s : text_ok s = true → NUL ∉ s.
Proof. apply text_ok_controls; [by apply Nat.ltb_lt|done..]. Qed.

(** ** A parser

    It is made for the documents above, reports each text in one piece, and does not look for errors. *)
Module Small.

Fixpoint span (p : ascii → bool) (s : str) : str * str :=
  match s with
  | c :: r => if p c then let '(a, b) := span p r in (c :: a, b) else ([], s)
  | [] => ([], [])
  end.
(** What is behind a text that is expected. *)
Definition expect (p s : str) : option str := if is_prefix p s then Some (drop (length p) s) else None.

Definition entity (r : str) : option (ascii * str) :=
  match expect (lit "amp;") r with Some r => Some ("&"%char, r) | None =>
  match expect (lit "quot;") r with Some r => Some (QUOTE, r) | None =>
  match expect (lit "lt;") r with Some r => Some ("<"%char, r) | None =>
  match expect (lit "gt;") r with Some r => Some (">"%char, r) | None => None end end end end.
Fixpoint unescape (fuel : nat) (s : str) : option str :=
  match fuel with
  | O => None
  | S fuel =>
      match s with
      | [] => Some []
      | c :: r =>
          if decide (c = "&"%char) then '(c, r) ← entity r; cons c <$> unescape fuel r
          else cons c <$> unescape fuel r
      end
  end.

Definition not_quote (c : ascii) : bool := bool_decide (c ≠ QUOTE).
Definition not_tag (c : ascii) : bool := bool_decide (c ≠ "<"%char).

Fixpoint parse_atts (fuel : nat) (s : str) : option (attrs * str) :=
  match fuel with
  | O => None
  | S fuel =>
      match expect (lit " ") s with
      | None => Some ([], s)
      | Some r =>
          let '(n, r) := span name_char r in
          r ← expect (xml "='") r;
          let '(v, r) := span not_quote r in
          r ← expect (xml "'") r;
          v ← unescape (S (length v)) v;
          '(a, r) ← parse_atts fuel r;
          Some ((n, v) :: a, r)
      end
  end.

Fixpoint parse (fuel : nat) (s : str) : option (list event) :=
  match fuel with
  | O => None
  | S fuel =>
      match s with
      | [] => Some []
      | _ =>
          match expect (lit "</") s with
          | Some r => let '(n, r) := span name_char r in r ← expect (lit ">") r; cons (End_ n) <$> parse fuel r
          | None =>
              match expect (lit "<") s with
              | Some r =>
                  let '(n, r) := span name_char r in
                  '(a, r) ← parse_atts (S (length r)) r;
                  match expect (lit "/>") r with
                  | Some r => (λ es, Start n a :: End_ n :: es) <$> parse fuel r
                  | None => r ← expect (lit ">") r; cons (Start n a) <$> parse fuel r
                  end
              | None => let '(x, r) := span not_tag s in x ← unescape (S (length x)) x; cons (Data x) <$> parse fuel r
              end
          end
      end
  end.
Definition expat (s : str) : option (list event) := r ← expect xml_declaration s; parse (S (length r)) r.

Lemma span_app p a r : Forall (λ c, p c = true) a → (∀ c r', r = c :: r' → p c = false) → span p (a ++ r) = (a, r).
Proof.
  intros Ha Hr. induction Ha as [|c a Hc Ha IH]; cbn [app span].
  - destruct r as [|c r']; [done|]. cbn [span]. by rewrite (Hr c r' eq_refl).
  - by rewrite Hc, IH.
Qed.
Lemma expect_app p r : expect p (p ++ r) = Some r.
Proof. unfold expect. by rewrite is_prefix_app, drop_app_length. Qed.

Lemma escape_cons c s : escape (c :: s) = escape_char c ++ escape s.
Proof. done. Qed.
(** No quotes and no tags are in a text; and something is, when there was. *)
Lemma escape_safe s : Forall (λ c, not_quote c = true) (escape s) ∧ Forall (λ c, not_tag c = true) (escape s).
Proof.
  induction s as [|c s [IH1 IH2]]; [done|]. rewrite escape_cons.
  assert (Forall (λ c, not_quote c = true) (escape_char c) ∧ Forall (λ c, not_tag c = true) (escape_char c)) as [H1 H2].
  { unfold escape_char. repeat (destruct (decide _)); try (split; apply (bool_decide_unpack _); vm_compute; exact I).
    split; repeat constructor; by apply bool_decide_eq_true. }
  split; by apply Forall_app.
Qed.

Lemma unescape_escape s fuel : CR ∉ s → (length s < fuel)%nat → unescape fuel (escape s) = Some s.
Proof.
  revert fuel. induction s as [|c s IH]; intros [|fuel] Hs Hf; simpl length in Hf; try lia; [done|]. apply not_elem_of_cons in Hs as [Hc Hs].
  specialize (IH fuel Hs ltac:(lia)). rewrite escape_cons. unfold escape_char.
  destruct (decide (c = "&"%char)) as [->|Ha]; [by transitivity (cons "&"%char <$> unescape fuel (escape s)); [|rewrite IH]|].
  destruct (decide (c = QUOTE)) as [->|Hq]; [by transitivity (cons QUOTE <$> unescape fuel (escape s)); [|rewrite IH]|].
  destruct (decide (c = "<"%char)) as [->|Hl]; [by transitivity (cons "<"%char <$> unescape fuel (escape s)); [|rewrite IH]|].
  destruct (decide (c = ">"%char)) as [->|Hg]; [by transitivity (cons ">"%char <$> unescape fuel (escape s)); [|rewrite IH]|].
  destruct (decide (c = CR)); [congruence|]. cbn [unescape app]. rewrite decide_False by done. by rewrite IH.
Qed.

Lemma escape_grows s : CR ∉ s → (length s <= length (escape s))%nat.
Proof.
  induction s as [|c s IH]; [simpl; lia|]. intros [Hc Hs]%not_elem_of_cons. specialize (IH Hs). rewrite escape_cons, length_app. simpl length.
  enough (1 <= length (escape_char c))%nat by lia. unfold escape_char. repeat (destruct (decide _)); simpl; try lia. congruence.
Qed.
Lemma unescape_text s : text_ok s = true → unescape (S (length (escape s))) (escape s) = Some s.
Proof. intros H%text_ok_no_cr. apply unescape_escape; [done|]. pose proof (escape_grows s H). lia. Qed.

(** The text of a name ends where the parser takes it to end. *)
Lemma name_span n r : name_ok n = true → (∀ c r', r = c :: r' → name_char c = false) → span name_char (n ++ r) = (n, r).
Proof.
  intros Hn Hr. apply span_app; [|done]. destruct n as [|c n]; [done|]. apply andb_true_iff in Hn as [Hc Hn]. constructor.
  - unfold name_char. by rewrite Hc.
  - apply Forall_forall. intros x Hx. rewrite forallb_forall in Hn. by apply Hn, list_elem_of_In.
Qed.

Lemma atts_text a r fuel : forallb (λ p, name_ok p.1 && value_ok p.2) a = true → (length a < fuel)%nat → expect (lit " ") r = None →
  parse_atts fuel (concat (map show_attr a) ++ r) = Some (a, r).
Proof.
  revert fuel. induction a as [|[n v] a IH]; intros [|fuel] Ha Hf Hr; simpl length in Hf; try lia; cbn [parse_atts map concat app]; [by rewrite Hr|].
  cbn [forallb fst snd] in Ha. apply andb_true_iff in Ha as [[Hn Hv]%andb_true_iff Ha]. unfold show_attr at 1. cbn [fst snd].
  rewrite <- !app_assoc, expect_app, name_span by (done || by intros c r' [= <- _]). rewrite expect_app. cbn [mbind option_bind].
  rewrite span_app; [|apply escape_safe|by intros c r' [= <- _]]. rewrite expect_app. cbn [mbind option_bind].
  apply andb_true_iff in Hv as [Hv _]. rewrite unescape_text by done.
  cbn [mbind option_bind]. rewrite IH by (done || lia). done.
Qed.

Lemma atts_length a : (length a <= length (concat (map show_attr a)))%nat.
Proof. induction a as [|[n v] a IH]; [done|]. cbn [map concat length]. unfold show_attr at 1. rewrite !length_app. change (length (lit " ")) with 1%nat. lia. Qed.

Lemma name_head n r : name_ok n = true → ∃ c s, n ++ r = c :: s ∧ c ≠ "/"%char.
Proof. destruct n as [|c n]; [done|]. intros H. exists c, (n ++ r). split; [done|]. by intros ->. Qed.

(** The start of a tag: its name and attributes. *)
Lemma tag_start n a r : name_ok n = true → atts_ok a = true → expect (lit " ") r = None → (∀ c r', r = c :: r' → name_char c = false) →
  expect (lit "</") (lit "<" ++ n ++ concat (map show_attr a) ++ r) = None ∧
  expect (lit "<") (lit "<" ++ n ++ concat (map show_attr a) ++ r) = Some (n ++ concat (map show_attr a) ++ r) ∧
  span name_char (n ++ concat (map show_attr a) ++ r) = (n, concat (map show_attr a) ++ r) ∧
  parse_atts (S (length (concat (map show_attr a) ++ r))) (concat (map show_attr a) ++ r) = Some (a, r).
Proof.
  intros Hn Ha Hr Hc. split_and!.
  - destruct (name_head n (concat (map show_attr a) ++ r) Hn) as (c & s & -> & Hs). unfold expect.
    change (is_prefix (lit "</") (lit "<" ++ c :: s)) with (bool_decide ("/"%char = c) && true). by rewrite bool_decide_false by congruence.
  - apply expect_app.
  - apply name_span; [done|]. intros c r'. destruct a as [|[m v] a]; [apply Hc|]. by intros [= <- _].
  - apply andb_true_iff in Ha as [Ha _]. apply atts_text; [done| |done]. rewrite length_app. pose proof (atts_length a). lia.
Qed.

(** The rest of a document inside an element begins with a tag, unless it begins with a text. *)
Lemma tag_next stack ts : inside stack true ts = true → ∀ c r, tokens_text ts = c :: r → not_tag c = false.
Proof.
  destruct stack as [|m stack], ts as [|[n a|n a|n|s] ts]; try done; intros _ c r;
    (assert (∀ t, tokens_text (t :: ts) = show t ++ tokens_text ts) as E by done); rewrite E; by intros [= <- _].
Qed.

(** A text is read whole. *)
Lemma text_read s r fuel : s ≠ [] → text_ok s = true → (∀ c r', r = c :: r' → not_tag c = false) →
  parse (S fuel) (escape s ++ r) = cons (Data s) <$> parse fuel r.
Proof.
  intros Hs Ht Hr. pose proof (escape_grows s (text_ok_no_cr s Ht)) as Hl. pose proof (proj2 (escape_safe s)) as Hsafe.
  destruct (escape s) as [|c e] eqn:E; [destruct s; [done|simpl in Hl; lia]|].
  assert (c ≠ "<"%char) as Hc by (apply Forall_cons in Hsafe as [H _]; by apply bool_decide_eq_true in H).
  cbn [parse app]. change (expect (lit "</") (c :: e ++ r)) with (if bool_decide ("<"%char = c) && is_prefix (lit "/") (e ++ r) then Some (drop 2 (c :: e ++ r)) else None).
  change (expect (lit "<") (c :: e ++ r)) with (if bool_decide ("<"%char = c) && true then Some (drop 1 (c :: e ++ r)) else None).
  rewrite bool_decide_false by congruence. cbn [andb].
  change (c :: e ++ r) with ((c :: e) ++ r). rewrite span_app by done. rewrite <- E, unescape_text by done. done.
Qed.

Lemma parse_rest ts : ∀ stack b fuel, Forall (λ n, name_ok n = true) stack → inside stack b ts = true → (length (tokens_text ts) < fuel)%nat →
  parse fuel (tokens_text ts) = Some (events ts).
Proof.
  induction ts as [|t ts IH]; intros stack b [|fuel] Hs Hi Hf; try lia; [done|].
  destruct stack as [|m stack]; [done|].
  assert (tokens_text (t :: ts) = show t ++ tokens_text ts) as E by done. rewrite E in Hf |- *. rewrite length_app in Hf.
  destruct t as [n a|n a|n|s]; cbn [inside] in Hi; cbn [show] in *.
  - apply andb_true_iff in Hi as [[Hn Ha]%andb_true_iff Hi].
    destruct (tag_start n a (lit ">" ++ tokens_text ts) Hn Ha) as (E1 & E2 & E3 & E4); [done|by intros c r' [= <- _]|].
    rewrite <- !app_assoc. cbn [parse]. rewrite E1, E2, E3, E4. cbn [mbind option_bind].
    change (expect (lit "/>") (lit ">" ++ tokens_text ts)) with (@None str). rewrite expect_app. cbn [mbind option_bind].
    rewrite (IH (n :: m :: stack) false) by (auto || rewrite !length_app in Hf; change (length (lit "<")) with 1%nat in Hf; lia). done.
  - apply andb_true_iff in Hi as [[Hn Ha]%andb_true_iff Hi].
    destruct (tag_start n a (lit "/>" ++ tokens_text ts) Hn Ha) as (E1 & E2 & E3 & E4); [done|by intros c r' [= <- _]|].
    rewrite <- !app_assoc. cbn [parse]. rewrite E1, E2, E3, E4. cbn [mbind option_bind]. rewrite expect_app.
    rewrite (IH (m :: stack) false) by (auto || rewrite !length_app in Hf; change (length (lit "<")) with 1%nat in Hf; lia). done.
  - apply andb_true_iff in Hi as [->%bool_decide_eq_true Hi]. apply Forall_cons in Hs as [Hm Hs].
    rewrite <- !app_assoc. cbn [parse]. rewrite expect_app, name_span by (done || by intros c r' [= <- _]). rewrite expect_app. cbn [mbind option_bind].
    rewrite (IH stack false) by (done || rewrite !length_app in Hf; change (length (lit "</")) with 2%nat in Hf; lia). done.
  - apply andb_true_iff in Hi as [[_ Ht]%andb_true_iff Hi]. destruct s as [|c s]; [by apply (IH (m :: stack) true)|].
    rewrite text_read by (done || by eapply tag_next). rewrite (IH (m :: stack) true); [done..|].
    pose proof (escape_grows (c :: s) (text_ok_no_cr _ Ht)). simpl length in *. lia.
Qed.

#[export] Instance expat_laws : ParserLaws expat.
Proof.
  intros ts Hw. exists (events ts). split.
  - unfold expat, document. rewrite expect_app. cbn [mbind option_bind].
    destruct ts as [|[n a|n a|n|s] ts]; try done. cbn [well_formed] in Hw. apply andb_true_iff in Hw as [[Hn Ha]%andb_true_iff Hw].
    assert (tokens_text (STag n a :: ts) = show (STag n a) ++ tokens_text ts) as E by done. rewrite E. cbn [show].
    destruct (tag_start n a (lit ">" ++ tokens_text ts) Hn Ha) as (E1 & E2 & E3 & E4); [done|by intros c r' [= <- _]|].
    rewrite <- !app_assoc. cbn [parse]. rewrite E1, E2, E3, E4. cbn [mbind option_bind].
    change (expect (lit "/>") (lit ">" ++ tokens_text ts)) with (@None str). rewrite expect_app. cbn [mbind option_bind].
    rewrite (parse_rest ts [n] false) by (auto || rewrite !length_app; change (length (lit "<")) with 1%nat; lia). done.
  - apply cuts_self.
Qed.

End Small.
End XmlDoc.
