(* ===== verification/AttendanceSpec.v ===== *)
(** * Two lines for each row of the sheet (properties of Attendance.v) *)
From coqutil Require Import Datatypes.RecordSetters.
From S2P Require Import Prelude CppString Decimal XlsxRead XlsxReadSpec XlsxWrite XmlDoc Attendance.
Import OCamlLikeNotations XlsxRead XlsxReadSpec Attendance.

#[local] Open Scope Z_scope.

Module AttendanceSpec.

(** ** Collecting a row *)

(** A row of which the columns are given. *)
Definition entry (f : Z → str) : report_data :=
  ReportData (f 1) (f 2) (f 3) (f 4) (f 5) (f 6) (f 7) (f 8) (f 9) (f 10) (f 11) (f 12) (f 13) (f 14).

Lemma entry_ext f g : (∀ i, f i = g i) → entry f = entry g.
Proof. intros H. unfold entry. by rewrite !H. Qed.

Definition put (f : Z → str) (col : Z) (v : str) : Z → str := λ i, if i =? col then v else f i.

Lemma cell_collect f l row col v :
  callback (Reader (Some (entry f)) l) (Cell row col v) = Reader (Some (entry (put f col (default [] v)))) l.
Proof.
  unfold callback, cell_callback. cbn [m_row_data]. unfold put, entry. set (temp := default [] v).
  repeat match goal with |- context [if col =? ?n then _ else _] =>
    destruct (Z.eqb_spec col n) as [->|]; [cbn; cbv [constant]; done|] end.
  rewrite !(proj2 (Z.eqb_neq _ col)) by lia. done.
Qed.

(** Columns between two are emptied. *)
Lemma blanks_collect f l row k n :
  foldl callback (Reader (Some (entry f)) l) (blanks row k n) =
  Reader (Some (entry (λ i, if (k <? i) && (i <=? k + Z.of_nat n) then [] else f i))) l.
Proof.
  unfold blanks. induction n as [|n IH].
  - cbn [seq map foldl]. do 2 f_equal. apply entry_ext. intros i. destruct (Z.ltb_spec k i), (Z.leb_spec i (k + Z.of_nat 0)); simpl; done || lia.
  - rewrite seq_S, map_app, foldl_app, IH. cbn [map foldl]. rewrite cell_collect. do 2 f_equal. apply entry_ext. intros i. unfold put. simpl default.
    destruct (Z.eqb_spec i (k + Z.of_nat (0 + n) + 1)), (Z.ltb_spec k i), (Z.leb_spec i (k + Z.of_nat n)), (Z.leb_spec i (k + Z.of_nat (S n))); simpl; done || lia.
Qed.

(** What a row has in a column: the value of its cell there. *)
Definition text_at (ss : option (list (option str))) (cs : list cell) (col : Z) : str :=
  default [] (c ← snd <$> list_find (λ c, c_col c = col) cs; value_of ss c).

Lemma text_at_cons ss c cs col : text_at ss (c :: cs) col = if col =? c_col c then default [] (value_of ss c) else text_at ss cs col.
Proof.
  unfold text_at. cbn [list_find]. destruct (Z.eqb_spec col (c_col c)) as [->|Hn]; [by rewrite decide_True|].
  rewrite decide_False by congruence. by destruct (list_find _ cs) as [[]|].
Qed.

Lemma text_at_right ss cs k col : increasing k cs → col <= k → text_at ss cs col = [].
Proof.
  revert k. induction cs as [|c cs IH]; intros k; [done|]. intros (Hc & _ & Hinc) Hcol. rewrite text_at_cons.
  rewrite (proj2 (Z.eqb_neq col (c_col c))) by lia. apply (IH (c_col c)); [done|lia].
Qed.

Lemma cells_collect ss row l cs : ∀ f k, increasing k cs →
  foldl callback (Reader (Some (entry f)) l) (cell_calls ss row k cs) =
  Reader (Some (entry (λ i, if (k <? i) && (i <=? last_col k cs) then text_at ss cs i else f i))) l ∧ k <= last_col k cs.
Proof.
  induction cs as [|c cs IH]; intros f k Hinc.
  - split; [|done]. cbn. do 2 f_equal. apply entry_ext. intros i. destruct (Z.ltb_spec k i), (Z.leb_spec i k); simpl; done || lia.
  - destruct Hinc as (Hc & _ & Hinc). cbn [cell_calls]. rewrite !foldl_app, blanks_collect. cbn [foldl]. rewrite cell_collect.
    edestruct IH as [-> Hlast]; [done|]. change (last_col k (c :: cs)) with (last_col (c_col c) cs). split; [|lia].
    do 2 f_equal. apply entry_ext. intros i. unfold put. rewrite text_at_cons.
    destruct (Z.ltb_spec (c_col c) i), (Z.ltb_spec k i), (Z.leb_spec i (last_col (c_col c) cs)), (Z.eqb_spec i (c_col c)),
      (Z.leb_spec i (k + Z.of_nat (Z.to_nat (c_col c - 1 - k)))); simpl; try done; try lia.
    by rewrite (text_at_right ss cs (c_col c)) by (done || lia).
Qed.

Lemma row_collect ss l width r : increasing 0 (r_cells r) →
  foldl callback (Reader (Some new_data) l) (row_calls ss width r) = Reader (Some new_data) (l ++ [entry (text_at ss (r_cells r))]).
Proof.
  intros Hinc. unfold row_calls. change new_data with (entry (λ _, [])) at 1. rewrite !foldl_app.
  destruct (cells_collect ss (r_nr r) l (r_cells r) (λ _, []) 0 Hinc) as [-> Hl]. rewrite blanks_collect. cbn [foldl callback]. unfold row_callback. cbn.
  do 3 f_equal. apply entry_ext. intros i.
  assert (∀ cs k, increasing k cs → last_col k cs < i → text_at ss cs i = []) as Hright.
  { clear. induction cs as [|c cs IH]; intros k; [done|]. intros (Hc & _ & Hinc) Hi. change (last_col k (c :: cs)) with (last_col (c_col c) cs) in Hi.
    rewrite text_at_cons. specialize (IH _ Hinc Hi). destruct (cells_collect ss 0 [] cs (λ _, []) (c_col c) Hinc) as [_ Hl].
    by rewrite (proj2 (Z.eqb_neq i (c_col c))) by lia. }
  destruct (Z.ltb_spec 0 i), (Z.leb_spec i (last_col 0 (r_cells r))), (Z.ltb_spec (last_col 0 (r_cells r)) i),
    (Z.leb_spec i (last_col 0 (r_cells r) + Z.of_nat (Z.to_nat (width - last_col 0 (r_cells r))))); simpl; try lia; try done;
    symmetry; first [by apply (text_at_right ss (r_cells r) 0)|by apply (Hright (r_cells r) 0)].
Qed.

Lemma sheet_collect ss rs : ∀ L l width, good_rows L rs →
  foldl callback (Reader (Some new_data) l) (sheet_calls true ss width L rs) = Reader (Some new_data) (l ++ map (λ r, entry (text_at ss (r_cells r))) rs).
Proof.
  induction rs as [|r rs IH]; intros L l width Hg; [by rewrite app_nil_r|]. destruct Hg as [(_ & _ & Hr & _) Hg]. cbn [sheet_calls map app].
  by rewrite foldl_app, row_collect, (IH (r_nr r)), <- app_assoc by done.
Qed.

(** ** Dates *)
Lemma scan_int_dec n r : 0 <= n < 2 ^ 31 → (∀ c r', r = c :: r' → is_digit c = false) → scan_int (dec n ++ r) = Some (n, r).
Proof.
  intros Hn Hr. unfold scan_int. pose proof (dec_nonempty n ltac:(lia)) as Hne. pose proof (dec_digits n ltac:(lia)) as Hd.
  pose proof (read_int_dec n r ltac:(lia) Hr) as Hread. unfold dec_int in Hread. rewrite (proj2 (Z.ltb_ge n 0)) in Hread by lia.
  assert (skip_ws (dec n ++ r) = dec n ++ r) as ->.
  { destruct (dec n) as [|c ds]; [done|]. apply Forall_cons in Hd as [Hc _]. apply (skip_ws_app []); [constructor|].
    unfold is_digit, dval in Hc. unfold is_ws. cbv zeta. apply orb_false_iff. split; [apply bool_decide_eq_false; lia|].
    apply andb_false_iff. right. apply Nat.leb_gt. lia. }
  rewrite Hread. cbn [mbind option_bind]. by rewrite (proj2 (Z.leb_le _ _)), (proj2 (Z.ltb_lt _ _)) by lia.
Qed.

Lemma date_no_nul y m d : 0 <= y < 2 ^ 31 → 0 <= m < 2 ^ 31 → 0 <= d < 2 ^ 31 → NUL ∉ dec y ++ lit "-" ++ dec m ++ lit "-" ++ dec d.
Proof.
  intros Hy Hm Hd. assert (∀ n, 0 <= n < 2 ^ 31 → NUL ∉ dec n) as H.
  { intros n Hn Hin. pose proof (dec_digits n ltac:(lia)) as Hf. rewrite Forall_forall in Hf. by apply Hf in Hin. }
  rewrite !not_elem_of_app. split_and!; try (by apply H); by intros [[=]|[]%elem_of_nil]%elem_of_cons.
Qed.

(** A date year-month-day is eight o'clock of that day in the zone; midnight at Greenwich, when the
    zone is that of eight hours east. *)
Lemma date_read gmtoff y m d : 0 <= y < 2 ^ 31 → 0 <= m < 2 ^ 31 → 0 <= d < 2 ^ 31 →
  StringToDatetime gmtoff (dec y ++ lit "-" ++ dec m ++ lit "-" ++ dec d) = Some (days_from_civil y m d * 86400 + 28800 - gmtoff).
Proof.
  intros Hy Hm Hd. unfold StringToDatetime. rewrite c_str_no_nul by (by apply date_no_nul). unfold scan_date.
  rewrite scan_int_dec; [|done|by intros c r' [= <- _]]. cbn [mbind option_bind app lit list_ascii_of_string scan_dash]. rewrite decide_True by done. cbn [mbind option_bind].
  rewrite scan_int_dec; [|done|by intros c r' [= <- _]]. cbn [mbind option_bind app lit list_ascii_of_string scan_dash]. rewrite decide_True by done. cbn [mbind option_bind].
  rewrite <- (app_nil_r (dec d)), scan_int_dec by done. cbn [mbind option_bind]. f_equal. unfold mktime. lia.
Qed.

(** All but the last byte; nothing of nothing. *)
Lemma temp_date_take x : size (dates x) < 2 ^ 64 → temp_date x = Some (take (length (dates x) - 1) (dates x)).
Proof.
  intros Hx. unfold temp_date, substr. rewrite (proj2 (Z.ltb_ge (size (dates x)) 0)) by (unfold size; lia). f_equal. cbn [Z.to_nat drop].
  destruct (dates x) as [|c s]; [by rewrite !take_nil|]. unfold size in *. cbn [length] in *. rewrite u64_small by lia. f_equal. lia.
Qed.

(** ** From the workbook to the lines *)

(** An element of that name, and the value of one of its attributes. *)
Definition element (name : string) (e : event) : Prop := match e with Start n _ => same_name n (lit name) = true | _ => False end.
Definition attribute (name : string) (e : event) : option str := match e with Start _ atts => get_expat_attr_by_name atts (lit name) | _ => None end.
Definition typed (name : string) (type : str) (e : event) : Prop := ∃ t, attribute name e = Some t ∧ same_name t type = true.

#[local] Instance element_dec name e : Decision (element name e).
Proof. destruct e; cbn [element]; apply _. Defined.
#[local] Instance typed_dec name type e : Decision (typed name type e).
Proof.
  refine (cast_if (decide (match attribute name e with Some t => same_name t type | None => false end = true))); unfold typed.
  - by destruct (attribute name e) as [t|]; [exists t|].
  - intros (t & E & H). by rewrite E in *.
Defined.

(** What is in the parts of a workbook that the tool reads: the name of the part that lists the
    sheets; the name of the first of them and the number of its relationship; the part of that sheet, from
    the directory of the first; and that of the shared strings, if there are any. *)
Record book := Book {
  b_main : str; b_sheet : str; b_relid : str; b_target : str; b_around : surroundings; b_rows : list xrow;
  b_strings : option (str * attrs * list item);
}.
Definition base (b : book) : str := take (dir_length (b_main b) (length (b_main b))) (b_main b).

(** A relationship: that of the first sheet has its part, and that of the shared strings theirs; every
    relationship to a sheet has a number; there may be others. *)
Definition relation (b : book) (e : event) : Prop :=
  element "Relationship" e →
  (typed "Type" worksheet_type e → ∃ id, attribute "Id" e = Some id ∧ (same_name id (b_relid b) = true → attribute "Target" e = Some (b_target b))) ∧
  (typed "Type" strings_type e → ∃ t atts items, b_strings b = Some (t, atts, items) ∧ attribute "Target" e = Some t).

(** The parts say so, among other things: [types], [sheets], [rels] are what the parser reports of the
    documents, with their roots and all other elements. *)
Record stored_as (part : str → option (list event)) (b : book) : Prop := {
  (* the first element that has the type of a workbook, and the only one *)
  content_types : ∃ before after e p,
    part (lit "[Content_Types].xml") = Some (before ++ e :: after) ∧ Forall (λ e, ¬ typed "ContentType" main_type e) (before ++ after) ∧
    element "Override" e ∧ typed "ContentType" main_type e ∧ attribute "PartName" e = Some p ∧ (p = "/"%char :: b_main b);
  (* the first sheet *)
  first_sheet : ∃ before after e,
    part (b_main b) = Some (before ++ e :: after) ∧ Forall (λ e, ¬ element "sheet" e) before ∧
    element "sheet" e ∧ attribute "name" e = Some (b_sheet b) ∧ attribute "r:id" e = Some (b_relid b) ∧ b_relid b ≠ [];
  relationships : ∃ rels, part (get_relationship_filename (b_main b)) = Some rels ∧ Forall (relation b) rels ∧
    (∃ e id, e ∈ rels ∧ element "Relationship" e ∧ typed "Type" worksheet_type e ∧ attribute "Id" e = Some id ∧ same_name id (b_relid b) = true) ∧
    (is_Some (b_strings b) → ∃ e, e ∈ rels ∧ element "Relationship" e ∧ typed "Type" strings_type e);
  sheet_part : b_target b ≠ [] ∧ part (base b ++ b_target b) = Some (sheet_events (b_around b) (b_rows b)) ∧
    good_surroundings (b_around b) ∧ good_rows 0 (b_rows b);
  strings_part : match b_strings b with
    | Some (t, atts, items) => t ≠ [] ∧ part (base b ++ t) = Some (strings_events atts items) ∧ Forall good_item items
    | None => True
    end;
}.
(** The table of shared strings. *)
Definition table (b : book) : option (list (option str)) := (λ '(_, _, items), map item_text items) <$> b_strings b.

Lemma typed_match name type e : typed name type e ∨ ¬ typed name type e ∧ match attribute name e with Some t => same_name t type | None => false end = false.
Proof.
  unfold typed. destruct (attribute name e) as [t|]; [|right; split; [naive_solver|done]].
  destruct (same_name t type) eqn:E; [left; eauto|right; split; [|done]]. intros (t' & [= <-] & H). congruence.
Qed.

Lemma no_files names e : ¬ typed "ContentType" main_type e → files_of_element names main_type e = [].
Proof.
  intros H. destruct (typed_match "ContentType" main_type e) as [|[_ E]]; [done|]. destruct e as [n atts|n|b]; [|done..].
  unfold attribute in E. unfold files_of_element. rewrite E. by destruct (same_name n (lit "Override")), (same_name n (lit "Default")).
Qed.

Lemma one_main part names b : stored_as part b → list_files_by_contenttype part names main_type = [b_main b].
Proof.
  intros [(before & after & e & p & E & [Hb Ha]%Forall_app & He & (t & Ht & Hm) & Hp & ->) _ _ _ _]. unfold list_files_by_contenttype. rewrite E.
  assert (∀ l, Forall (λ e, ¬ typed "ContentType" main_type e) l → concat (map (files_of_element names main_type) l) = []) as Hnone.
  { induction 1 as [|e' l H _ IH]; [done|]. cbn [map concat]. by rewrite no_files, IH. }
  rewrite map_app, concat_app, Hnone by done. cbn [map concat app]. rewrite Hnone, app_nil_r by done.
  destruct e as [n atts|n|buf]; [|done..]. cbn [element attribute] in *. unfold files_of_element. by rewrite He, Ht, Hm, Hp, decide_True.
Qed.

(** The first sheet of the list is that of the relationship. *)
Lemma first_found part names b : stored_as part b →
  list_sheets part names = Some (b_sheet b) ∧ find_relid (Some (b_sheet b)) (default [] (part (b_main b))) = Some (Some (b_relid b)).
Proof.
  intros Hs. pose proof (one_main part names b Hs) as Hm. destruct Hs as [_ (before & after & e & E & Hb & He & Hn & Hr & Hne) _ _ _].
  unfold list_sheets, xlsxioread_list_sheets. rewrite Hm. cbn [map concat]. rewrite app_nil_r, E. cbn [from_option Datatypes.id]. destruct e as [n atts|n|buf]; [|done..].
  cbn [element attribute] in *. clear E. induction Hb as [|e' before He' Hb IH].
  - cbn [app map concat find_relid]. split; [unfold sheet_name; by rewrite He, Hn|]. rewrite He, Hn, Hr. cbn [mbind option_bind].
    assert (same_name (b_sheet b) (b_sheet b) = true) as -> by (by apply bool_decide_eq_true). by destruct (b_relid b).
  - destruct e' as [n' atts'|n'|buf']; cbn [element] in He'; cbn [app map concat find_relid].
    + apply not_true_is_false in He'. unfold sheet_name at 1. rewrite He'. exact IH.
    + exact IH.
    + exact IH.
Qed.

Lemma join_some basepath f : f ≠ [] → join_basepath_filename basepath f = Some (basepath ++ f).
Proof. intros H. unfold join_basepath_filename. by rewrite decide_False. Qed.

(** The two types of relationships are different. *)
Lemma types_differ t : same_name t worksheet_type = true → same_name t strings_type = true → False.
Proof. intros H1%bool_decide_eq_true H2%bool_decide_eq_true. rewrite H1 in H2. vm_compute in H2. discriminate. Qed.

#[local] Opaque worksheet_type strings_type lit.
(** What the relationships have given so far: the part of the sheet, if it has been found, and that of
    the strings. *)
Definition found (b : book) (sheet strings : bool) : rels :=
  Rels (Some (b_relid b)) (if sheet then Some (base b ++ b_target b) else None)
    (if strings then (λ '(t, _, _), base b ++ t) <$> b_strings b else None).

Lemma files_found b rels : b_target b ≠ [] → (∀ t atts items, b_strings b = Some (t, atts, items) → t ≠ []) → Forall (relation b) rels →
  ∀ sheet strings, ∃ sheet' strings', find_files (base b) (b_relid b) rels (found b sheet strings) = Some (found b sheet' strings') ∧
    (sheet = true ∨ (∃ e id, e ∈ rels ∧ element "Relationship" e ∧ typed "Type" worksheet_type e ∧ attribute "Id" e = Some id ∧ same_name id (b_relid b) = true) → sheet' = true) ∧
    (strings = true ∨ (∃ e, e ∈ rels ∧ element "Relationship" e ∧ typed "Type" strings_type e) → strings' = true).
Proof.
  intros Ht Hst. induction 1 as [|e rels He H IH]; intros sheet strings.
  { exists sheet, strings. split; [done|]. split; intros [->|Hex]; try done; [destruct Hex as (e & id & []%elem_of_nil & _)|destruct Hex as (e & []%elem_of_nil & _)]. }
  assert (∃ sheet1 strings1, find_files (base b) (b_relid b) (e :: rels) (found b sheet strings) = find_files (base b) (b_relid b) rels (found b sheet1 strings1) ∧
    (sheet = true ∨ (∃ id, element "Relationship" e ∧ typed "Type" worksheet_type e ∧ attribute "Id" e = Some id ∧ same_name id (b_relid b) = true) → sheet1 = true) ∧
    (strings = true ∨ (element "Relationship" e ∧ typed "Type" strings_type e) → strings1 = true)) as (sheet1 & strings1 & E & H1 & H2).
  { destruct e as [n atts|n|buf]; [|exists sheet, strings; split; [done|]; split; [intros [?|(? & [] & _)]|intros [?|[[] _]]]; done..].
    unfold relation, typed in He. unfold typed. cbn [element attribute find_files] in *. destruct (same_name n (lit "Relationship")); [|exists sheet, strings; split; [done|]; split; [intros [?|(? & ? & (? & ? & ?) & _)]|intros [?|(? & ? & ? & ?)]]; congruence].
    specialize (He eq_refl). destruct (get_expat_attr_by_name atts (lit "Type")) as [t|]; [|exists sheet, strings; split; [done|]; split; [intros [?|(? & ? & (? & ? & ?) & _)]|intros [?|(? & ? & ? & ?)]]; congruence].
    destruct (same_name t worksheet_type) eqn:Ew.
    - destruct He as [(id & Hid & Htgt) _]; [by eauto|]. rewrite Hid. exists (sheet || same_name id (b_relid b)), strings. split.
      + destruct (same_name id (b_relid b)); rewrite ?orb_true_r, ?orb_false_r; [rewrite Htgt, join_some by done|by destruct (get_expat_attr_by_name atts (lit "Target")) as [f|]; [destruct (join_basepath_filename _ f)|]].
        unfold found. cbn. by cbv [constant].
      + split; [intros [->|(id' & _ & _ & [= <-] & ->)]; [done|by rewrite orb_true_r]|]. intros [?|(_ & t' & [= <-] & Es)]; [done|]. destruct (types_differ t Ew Es).
    - destruct (same_name t strings_type) eqn:Es; [|exists sheet, strings; split; [done|]; split; [intros [?|(? & ? & (? & ? & ?) & _)]|intros [?|(? & ? & ? & ?)]]; congruence].
      destruct He as [_ (tg & sa & items & Eb & Htgt)]; [by eauto|]. exists sheet, true. rewrite Htgt, join_some by (eapply Hst; exact Eb).
      split; [|split; [intros [?|(? & ? & (? & ? & ?) & _)]; congruence|done]].
      unfold found. rewrite Eb. cbn. by cbv [constant]. }
  destruct (IH sheet1 strings1) as (sheet' & strings' & E' & H1' & H2'). exists sheet', strings'. rewrite E, E'. split; [done|].
  split.
  - intros [->|(e' & id & [->|Hin]%elem_of_cons & Hex)]; apply H1'; [left; apply H1; by left|left; apply H1; right; exists id; exact Hex|right; exists e', id; done].
  - intros [->|(e' & [->|Hin]%elem_of_cons & Hex)]; apply H2'; [left; apply H2; by left|left; apply H2; right; exact Hex|right; exists e'; done].
Qed.

#[local] Transparent worksheet_type strings_type lit.
Lemma process_workbook part names b : stored_as part b →
  list_sheets part names = Some (b_sheet b) ∧
  Sheet.xlsxioread_process true false false (λ _, false) part names (Some (b_sheet b)) = Some (sheet_calls true (table b) 0 0 (b_rows b)).
Proof.
  intros Hs. destruct (first_found part names b Hs) as [Hlist Hrelid]. split; [done|]. pose proof (one_main part names b Hs) as Hm.
  destruct Hs as [_ _ (rels & Er & Hrels & Hsheet & Hstr) (Ht & Esheet & Hx & Hrs) Hstrings].
  unfold Sheet.xlsxioread_process, Sheet.process_parts. rewrite Hm. cbn [foldl mbind option_bind]. unfold main_sheet_get_sheetfile_callback.
  cbn [sheetrelid]. rewrite Hrelid, Er. cbn [mbind option_bind from_option Datatypes.id].
  destruct (files_found b rels Ht) with (sheet := false) (strings := false) as (sheet' & strings' & E & H1 & H2); [|done|].
  { intros t atts items Eb. rewrite Eb in Hstrings. by destruct Hstrings. }
  fold (base b). change {Rels None None None with sheetrelid := Some (b_relid b)} with (found b false false). rewrite E, H1 by (by right).
  assert ((events ← (f ← sharedstringsfile (found b true strings'); part f); Some (Strings.read events)) = table b) as Etable.
  { unfold found, table. cbn [sharedstringsfile]. destruct (b_strings b) as [[[t atts] items]|]; [|by destruct strings'].
    rewrite H2 by (right; by apply Hstr). destruct Hstrings as (_ & Est & Hi). cbn [fmap option_fmap option_map mbind option_bind]. rewrite Est. cbn [mbind option_bind].
    by rewrite strings_read. }
  cbn [mbind option_bind]. rewrite Etable. unfold found. cbn [sheetfile mbind option_bind]. rewrite Esheet. by rewrite sheet_read.
Qed.

(** C40: from the workbook to the list: two lines, for coming and for leaving, for each row of the
    first sheet but the first, in order; group, number, name and times are the values of the columns
    1, 3, 4, 6 and 8 of the row, shared strings looked up, and the day is that of column 5 less its
    last byte.  The workbook is any whose parts a parser reports as [stored_as] says: whatever else is in the lists of types,
    sheets and relationships and around the rows, with any attributes of the elements, and with formulas and other
    elements in front of the values, with rows without cells.  Left out are hidden
    rows ([hidden_row_has_lines] shows what becomes of one), cells without a coordinate or with their text not in an element [v],
    phonetic runs, and shared strings without a text. *)
Theorem attendance_has_two_lines_each gmtoff part names b : stored_as part b →
  Forall (λ r, size (text_at (table b) (r_cells r) 5) < 2 ^ 64) (b_rows b) →
  let text := text_at (table b) in
  start gmtoff part names = Some (titles,
    concat (map (λ r : xrow,
      let cell := text (r_cells r) in
      let day := DateTime (StringToDatetime gmtoff (take (length (cell 5) - 1) (cell 5))) in
      [[Text (c_str (cell 1)); Text (c_str (cell 3)); Text (c_str (cell 4)); day; Text (c_str (cell 6)); Text (lit "0")];
       [Text (c_str (cell 1)); Text (c_str (cell 3)); Text (c_str (cell 4)); day; Text (c_str (cell 8)); Text (lit "1")]]) (drop 1 (b_rows b))) ++ [[]]).
Proof.
  intros Hs Hsize text. destruct (process_workbook part names b Hs) as [H1 H2]. destruct Hs as [_ _ _ (_ & _ & _ & Hrs) _].
  unfold start. rewrite H1, H2. cbn [mbind option_bind]. unfold write_to_excel, process_data, initial. rewrite sheet_collect by done.
  cbn [m_data app]. do 4 f_equal. rewrite skipn_map, map_map. apply map_ext_in. intros r Hin. unfold two_lines, write_two_line.
  rewrite temp_date_take; [done|]. rewrite Forall_forall in Hsize. apply Hsize, list_elem_of_In.
  rewrite <- (firstn_skipn 1 (b_rows b)). apply in_or_app. by right.
Qed.

(** ** A workbook

    Its documents, read with the parser of [XmlDoc]. *)
Module Company.
Definition doc (s : string) : str := XlsxWrite.xml_declaration ++ XlsxWrite.xml s.

Definition types_xml : str := doc ("<Types xmlns='http://schemas.openxmlformats.org/package/2006/content-types'>" ++
  "<Default Extension='xml' ContentType='application/xml'/>" ++
  "<Override PartName='/xl/workbook.xml' ContentType='application/vnd.openxmlformats-officedocument.spreadsheetml.sheet.main+xml'/>" ++
  "<Override PartName='/xl/worksheets/sheet1.xml' ContentType='application/vnd.openxmlformats-officedocument.spreadsheetml.worksheet+xml'/></Types>")%string.
Definition workbook_xml : str := doc ("<workbook xmlns:r='http://schemas.openxmlformats.org/officeDocument/2006/relationships'><workbookPr/><sheets>" ++
  "<sheet name='May' sheetId='1' r:id='rId3'/><sheet name='June' sheetId='2' r:id='rId4'/></sheets></workbook>")%string.
Definition rels_xml : str := doc ("<Relationships xmlns='http://schemas.openxmlformats.org/package/2006/relationships'>" ++
  "<Relationship Id='rId4' Type='http://schemas.openxmlformats.org/officeDocument/2006/relationships/worksheet' Target='worksheets/sheet2.xml'/>" ++
  "<Relationship Id='rId1' Type='http://schemas.openxmlformats.org/officeDocument/2006/relationships/sharedStrings' Target='sharedStrings.xml'/>" ++
  "<Relationship Id='rId2' Type='http://schemas.openxmlformats.org/officeDocument/2006/relationships/styles' Target='styles.xml'/>" ++
  "<Relationship Id='rId3' Type='http://schemas.openxmlformats.org/officeDocument/2006/relationships/worksheet' Target='worksheets/sheet1.xml'/></Relationships>")%string.
Definition strings_xml : str := doc ("<sst count='2'><si><t>group</t></si><si><r><rPr><b/></rPr><t xml:space='preserve'>Ann</t></r><r><t>a</t></r></si></sst>")%string.
(** A row of titles, an empty row, and one of a day's work, with a formula. *)
Definition sheet_xml : str := doc ("<worksheet><dimension ref='A1:H3'/><sheetData>" ++
  "<row r='1' spans='1:8'><c r='A1' t='s'><v>0</v></c><c r='H1' t='str'><v>off</v></c></row><row r='2' ht='9'/>" ++
  "<row r='3'><c r='A3' s='1'><v>g</v></c><c r='C3'><v>7</v></c><c r='D3' t='s'><v>1</v></c><c r='E3' t='str'><v>2016-03-11*</v></c>" ++
  "<c r='F3' t='str'><f>A1</f><v>08:30</v></c><c r='H3' t='str'><v>18:00</v></c></row></sheetData><pageMargins left='1'/></worksheet>")%string.

Definition archive (sheet : str) : list (str * str) :=
  [(lit "[Content_Types].xml", types_xml); (lit "xl/workbook.xml", workbook_xml); (lit "xl/_rels/workbook.xml.rels", rels_xml);
   (lit "xl/sharedStrings.xml", strings_xml); (lit "xl/worksheets/sheet1.xml", sheet)].
Definition part (sheet : str) (f : str) : option (list event) :=
  (snd <$> (snd <$> list_find (λ p, p.1 = f) (archive sheet))) ≫= XmlDoc.Small.expat.

Definition at_ (n v : string) : str * str := (lit n, lit v).
Definition bold : list event := map (λ n, Start (lit n) []) ["r"; "rPr"; "b"]%string ++ map (λ n, End_ (lit n)) ["b"; "rPr"]%string.
Definition items : list item :=
  [plain_item (lit "group");
   MkItem [MkRun bold [at_ "xml:space" "preserve"] [lit "Ann"]; MkRun [End_ (lit "r"); Start (lit "r") []] [] [lit "a"]] [End_ (lit "r")]].
Definition sheet_rows : list xrow :=
  [MkRow 1 [at_ "r" "1"; at_ "spans" "1:8"] [plain_cell 1 (Some (lit "s")) (Some [lit "0"]); plain_cell 8 (Some (lit "str")) (Some [lit "off"])];
   MkRow 2 [at_ "r" "2"; at_ "ht" "9"] [];
   MkRow 3 [at_ "r" "3"]
     [MkCell 1 [at_ "s" "1"] [] (Some [lit "g"]); plain_cell 3 None (Some [lit "7"]); plain_cell 4 (Some (lit "s")) (Some [lit "1"]);
      plain_cell 5 (Some (lit "str")) (Some [lit "2016-03-11*"]);
      MkCell 6 [at_ "t" "str"] [Start (lit "f") []; Data (lit "A1"); End_ (lit "f")] (Some [lit "08:30"]); plain_cell 8 (Some (lit "str")) (Some [lit "18:00"])]].
Definition may : book := Book (lit "xl/workbook.xml") (lit "May") (lit "rId3") (lit "worksheets/sheet1.xml")
  (Surroundings [] [Start (lit "dimension") [at_ "ref" "A1:H3"]; End_ (lit "dimension")] [] [Start (lit "pageMargins") [at_ "left" "1"]; End_ (lit "pageMargins")])
  sheet_rows (Some (lit "sharedStrings.xml", [at_ "count" "2"], items)).

(** Which element a document has at a place, and those around it. *)
Ltac at_place k l := let es := eval vm_compute in (default [] l) in
  match eval vm_compute in (nth k es (End_ [])) with ?e => exists (take k es), (drop (S k) es), e end.
Ltac decided := apply (bool_decide_unpack _); vm_compute; exact I.

Lemma may_stored : stored_as (part sheet_xml) may.
Proof.
  split.
  - at_place 3%nat (part sheet_xml (lit "[Content_Types].xml")). eexists. split; [vm_compute; reflexivity|].
    split; [decided|]. split; [done|].
    split; [eexists; split; [reflexivity|vm_compute; reflexivity]|]. split; vm_compute; reflexivity.
  - at_place 4%nat (part sheet_xml (lit "xl/workbook.xml")). split; [vm_compute; reflexivity|].
    split; [decided|]. split_and!; try (vm_compute; reflexivity). done.
  - eexists. split; [vm_compute; reflexivity|]. split; [|split].
    + repeat (apply Forall_cons; split); [..|constructor]; try done; intros Hrel; vm_compute in Hrel; try discriminate; clear Hrel; split; intros (t & [= <-] & H);
        vm_compute in H; try discriminate; clear H.
      * eexists. split; [reflexivity|]. intros H. vm_compute in H. discriminate.
      * eexists _, _, _. split; reflexivity.
      * eexists. split; [reflexivity|]. done.
    + eexists _, _. split; [do 7 apply list_elem_of_further; apply list_elem_of_here|]. split; [reflexivity|]. split; [eexists; split; reflexivity|]. split; reflexivity.
    + intros _. eexists. split; [do 3 apply list_elem_of_further; apply list_elem_of_here|]. split; [reflexivity|]. eexists; split; reflexivity.
  - split; [done|]. split; [vm_compute; reflexivity|]. split; [split; repeat constructor|]. cbn. unfold good_row. cbn. split_and!; try lia; try done.
    all: repeat constructor.
  - split; [done|]. split; [vm_compute; reflexivity|]. repeat (apply Forall_cons; split); [..|constructor]; split_and!; try done; repeat constructor.
Qed.

Lemma attendance_has_two_lines_each_witness : start 28800 (part sheet_xml) [] = Some (titles,
  [[Text []; Text []; Text []; DateTime None; Text []; Text (lit "0")]; [Text []; Text []; Text []; DateTime None; Text []; Text (lit "1")];
   [Text (lit "g"); Text (lit "7"); Text (lit "Anna"); DateTime (Some (16871 * 86400)); Text (lit "08:30"); Text (lit "0")];
   [Text (lit "g"); Text (lit "7"); Text (lit "Anna"); DateTime (Some (16871 * 86400)); Text (lit "18:00"); Text (lit "1")]; []]).
Proof.
  etrans; [apply (attendance_has_two_lines_each 28800 (part sheet_xml) [] may)|vm_compute; reflexivity].
  - exact may_stored.
  - repeat constructor; vm_compute; reflexivity.
Defined.

(** A row that is hidden in the sheet has two lines as well, with nothing in them and a date that is
    not initialised. *)
Definition hidden_xml : str := doc ("<worksheet><sheetData><row r='1'><c r='A1'><v>group</v></c></row>" ++
  "<row r='2' hidden='1'><c r='A2'><v>g</v></c><c r='E2'><v>2016-03-11*</v></c></row></sheetData></worksheet>")%string.
Example hidden_row_has_lines : start 28800 (part hidden_xml) [] =
  Some (titles, [[Text []; Text []; Text []; DateTime None; Text []; Text (lit "0")]; [Text []; Text []; Text []; DateTime None; Text []; Text (lit "1")]; []]).
Proof. vm_compute. reflexivity. Qed.
End Company.
End AttendanceSpec.
