(* ===== verification/XlsxWriteSpec.v ===== *)
(** * What is written is read back (properties of XlsxWrite.v)

    The sheet that is written is the text of an XML document; what the reader of XlsxRead.v reports
    of that document is the rows of cells the application wrote. *)
From Stdlib Require Import Floats.SpecFloat.
From coqutil Require Import Datatypes.RecordSetters.
From S2P Require Import Prelude CppString Decimal XlsxRead XlsxReadSpec XlsxWrite XmlDoc.
Import OCamlLikeNotations XlsxRead XlsxReadSpec XlsxWrite XmlDoc.

#[local] Open Scope Z_scope.

Module XlsxWriteSpec.
#[local] Arguments xml : simpl never.
#[local] Arguments lit : simpl never.

(** ** A sheet is read in the same way however its texts are cut *)
Abbreviation step := (Sheet.on_event false true false false (λ _, false)).

Lemma step_data_app d a b : step (step d (Data a)) (Data b) = step d (Data (a ++ b)).
Proof.
  destruct d as [ss rn cn co cd ty sk skc hs he hd st cs]. unfold Sheet.on_event, Sheet.dispatch. destruct st; [done|]. destruct hd; [|done].
  unfold Sheet.value_data. destruct ty; cbn; [done|..]; cbv [constant]; cbn; by rewrite <- app_assoc.
Qed.

Lemma step_more ps d r : foldl step (step d (Data r)) (map Data ps) = step d (Data (r ++ concat ps)).
Proof.
  revert r. induction ps as [|p ps IH]; intros r; [simpl; by rewrite app_nil_r|]. cbn [map foldl concat]. by rewrite step_data_app, IH, app_assoc.
Qed.
Lemma step_pieces ps d : ps ≠ [] → foldl step d (map Data ps) = step d (Data (concat ps)).
Proof. destruct ps as [|p ps]; [done|]. intros _. apply step_more. Qed.

Lemma read_cuts es es' d : cuts es es' → foldl step d es' = foldl step d es.
Proof.
  intros H. revert d. induction H as [|n a es es' H IH|n es es' H IH|ps s es es' Hps <- H IH]; intros d; [done|apply IH|apply IH|].
  rewrite foldl_app, step_pieces by done. apply IH.
Qed.

(** ** Special characters *)
Lemma escape_app a b : escape (a ++ b) = escape a ++ escape b.
Proof. unfold escape. by rewrite map_app, concat_app. Qed.

Lemma replace_at a c rest new : size a + 2 < 2 ^ 63 → str_replace (a ++ c :: rest) (size a) 1 new = a ++ new ++ rest.
Proof.
  intros Ha. pose proof (size_nonneg rest). pose proof (size_nonneg a). unfold str_replace. rewrite size_app, size_cons.
  rewrite (proj2 (Z.ltb_ge _ (size a))) by lia. rewrite u64_small by lia. rewrite (proj2 (Z.ltb_ge _ (size a + 1))) by lia.
  replace (Z.to_nat (size a)) with (length a) by (unfold size; lia). rewrite take_app_length. do 2 f_equal.
  replace (Z.to_nat (size a + 1)) with (length (a ++ [c])) by (rewrite length_app; unfold size; simpl; lia).
  change (drop (length (a ++ [c])) (a ++ [c] ++ rest) = rest). by rewrite app_assoc, drop_app_length.
Qed.

Lemma fix_loop_spec rest a fuel : (length rest < fuel)%nat → size a + 6 * size rest < 2 ^ 31 →
  fix_loop fuel (a ++ rest) (size a) = Some (a ++ escape rest).
Proof.
  revert a fuel. induction rest as [|c rest IH]; intros a [|fuel] Hf Hs; simpl length in Hf; try lia.
  - cbn [fix_loop]. rewrite app_nil_r. replace (a !! Z.to_nat (size a)) with (@None ascii).
    { unfold escape. simpl. by rewrite app_nil_r. }
    symmetry. apply lookup_ge_None_2. unfold size. lia.
  - rewrite size_cons in Hs. pose proof (size_nonneg rest). pose proof (size_nonneg a). cbn [fix_loop].
    replace ((a ++ c :: rest) !! Z.to_nat (size a)) with (Some c).
    2:{ symmetry. replace (Z.to_nat (size a)) with (length a) by (unfold size; lia). by rewrite list_lookup_middle. }
    assert (∀ new k, size new = k → 0 <= k <= 6 → (advance (size a) k ≫= λ pos, fix_loop fuel (a ++ new ++ rest) pos) = Some (a ++ new ++ escape rest)) as Hgo.
    { intros new k Hk Hk6. unfold advance. rewrite (proj2 (Z.ltb_lt _ _)) by lia. cbn [mbind option_bind].
      rewrite app_assoc, <- Hk, <- size_app, IH, <- app_assoc; [done|lia|rewrite size_app; lia]. }
    change (escape (c :: rest)) with (escape_char c ++ escape rest). unfold escape_char.
    repeat (destruct (decide _) as [?|_]); rewrite ?replace_at by lia.
    + by apply (Hgo (lit "&amp;")).
    + by apply (Hgo (lit "&quot;")).
    + by apply (Hgo (lit "&lt;")).
    + by apply (Hgo (lit "&gt;")).
    + by rewrite IH by lia.
    + by apply (Hgo [c]).
Qed.

Lemma fix_spec s : 6 * size s < 2 ^ 31 → fix_xml_special_chars s = Some (escape s).
Proof. intros Hs. apply (fix_loop_spec s [] (S (length s))); [lia|rewrite size_nil; lia]. Qed.

Lemma escape_size s : size (escape s) <= 6 * size s.
Proof.
  induction s as [|c s IH]; [done|]. change (escape (c :: s)) with (escape_char c ++ escape s). rewrite size_app, size_cons.
  enough (size (escape_char c) <= 6) by lia. unfold escape_char. repeat (destruct (decide _)); unfold size; simpl; lia.
Qed.

(** The text that is denoted: carriage returns are lost. *)
Definition no_cr (s : str) : str := filter (λ c, c ≠ CR) s.
Lemma escape_no_cr s : escape (no_cr s) = escape s.
Proof.
  induction s as [|c s IH]; [done|]. unfold no_cr in *. rewrite filter_cons. destruct (decide (c ≠ CR)) as [Hc|Hc].
  - change (escape_char c ++ escape (filter (λ c, c ≠ CR) s) = escape_char c ++ escape s). by rewrite IH.
  - rewrite IH. assert (c = CR) as -> by (by apply dec_stable). done.
Qed.

(** ** Numbers *)
Definition plain (c : ascii) : Prop := 32 <= code c < 127 ∧ escape_char c = [c].
#[local] Instance plain_dec c : Decision (plain c).
Proof. unfold plain. apply _. Defined.
Ltac plain_char := apply (bool_decide_unpack _); vm_compute; exact I.

Lemma plain_text s : Forall plain s → text_ok s = true.
Proof.
  induction 1 as [|c s [Hc _] H IH]; [done|]. unfold code in Hc. cbn [text_ok].
  destruct (Nat.ltb_spec (nat_of_ascii c) 128); [|lia]. rewrite IH, (proj2 (Nat.leb_le 32 _)) by lia. done.
Qed.
Lemma plain_value s : Forall plain s → value_ok s = true.
Proof.
  intros H. unfold value_ok. rewrite plain_text by done. apply forallb_forall. intros c Hc%list_elem_of_In.
  rewrite Forall_forall in H. apply H in Hc as [Hc _]. apply negb_true_iff, orb_false_iff.
  split; apply bool_decide_false; intros ->; destruct Hc as [Hc _]; vm_compute in Hc; by apply Hc.
Qed.

Lemma digit_plain n : plain (digit (n mod 10)).
Proof.
  pose proof (Z.mod_pos_bound n 10 ltac:(lia)) as H. rewrite <- (Z2Nat.id (n mod 10)) by lia.
  assert (Z.to_nat (n mod 10) < 10)%nat as Hk by lia. revert Hk. generalize (Z.to_nat (n mod 10)) as k. intros k Hk.
  do 10 (destruct k as [|k]; [plain_char|]). lia.
Qed.
Lemma dec_plain n : Forall plain (dec n) ∧ size (dec n) <= 20.
Proof.
  unfold dec. change 20 with (Z.of_nat 20). generalize 20%nat as f. intros f. revert n. induction f as [|f IH]; intros n; [done|]. cbn [dec_aux].
  destruct (IH (n / 10)) as [H1 H2]. rewrite size_app, size_cons, size_nil. split.
  - apply Forall_app. split; [by destruct (n <? 10)|]. constructor; [apply digit_plain|constructor].
  - destruct (n <? 10); [rewrite size_nil|]; lia.
Qed.
Lemma dec_int_plain n : Forall plain (dec_int n) ∧ size (dec_int n) <= 21.
Proof.
  unfold dec_int. destruct (n <? 0).
  - destruct (dec_plain (- n)). rewrite size_cons. split; [|lia]. constructor; [plain_char|done].
  - destruct (dec_plain n). split; [done|lia].
Qed.

Lemma digits_plain k n : Forall plain (digits k n) ∧ length (digits k n) = k.
Proof.
  revert n. induction k as [|k IH]; intros n; [done|]. cbn [digits]. destruct (IH (n / 10)) as [H1 H2]. rewrite length_app, H2. simpl. split; [|lia].
  apply Forall_app. split; [done|]. constructor; [apply digit_plain|constructor].
Qed.

(** Taking zeros off gives a part of the text. *)
Lemma drop_zeros_part s : Forall plain s → Forall plain (drop_zeros s) ∧ size (drop_zeros s) <= size s.
Proof.
  induction 1 as [|c s Hc Hs [IH1 IH2]]; [done|]. cbn [drop_zeros]. rewrite size_cons.
  destruct (decide _); [split; [done|lia]|]. split; [by constructor|rewrite size_cons; lia].
Qed.
Lemma strip_part s : Forall plain s → Forall plain (strip_zeros s) ∧ size (strip_zeros s) <= size s.
Proof.
  intros H. assert (∀ t : str, size (rev t) = size t) as Hr by (intros t; unfold size; by rewrite length_rev).
  unfold strip_zeros. rewrite Hr, <- (Hr s). destruct (drop_zeros_part (rev s)) as [H1 H2]; [by apply Forall_rev|]. split; [by apply Forall_rev|done].
Qed.
Lemma fraction_part s : Forall plain s → Forall plain (fraction s) ∧ size (fraction s) <= 1 + size s.
Proof.
  intros H. destruct (strip_part s H) as [H1 H2]. unfold fraction. destruct (strip_zeros s); [rewrite size_nil; pose proof (size_nonneg s); split; [done|lia]|].
  rewrite size_cons in *. split; [|rewrite size_cons; lia]. constructor; [plain_char|done].
Qed.

Lemma part_of_take k s : Forall plain s → Forall plain (take k s) ∧ size (take k s) <= size s.
Proof. intros H. split; [by apply Forall_take|]. unfold size. rewrite length_take. lia. Qed.
Lemma part_of_drop k s : Forall plain s → Forall plain (drop k s) ∧ size (drop k s) <= size s.
Proof. intros H. split; [by apply Forall_drop|]. unfold size. rewrite length_drop. lia. Qed.
Lemma parts a b n m : Forall plain a ∧ size a <= n → Forall plain b ∧ size b <= m → Forall plain (a ++ b) ∧ size (a ++ b) <= n + m.
Proof. intros [? ?] [? ?]. rewrite size_app. split; [by apply Forall_app|lia]. Qed.
Lemma part_const s : bool_decide (Forall plain s) = true → Forall plain s ∧ size s <= size s.
Proof. intros H%bool_decide_eq_true. done. Qed.
Lemma part_le s n m : Forall plain s ∧ size s <= n → n <= m → Forall plain s ∧ size s <= m.
Proof. intros [? ?] ?. split; [done|lia]. Qed.

Lemma format_G_plain prec a b : Forall plain (format_G prec a b) ∧ size (format_G prec a b) <= 2 * Z.of_nat prec + 30.
Proof.
  unfold format_G. cbv zeta. destruct (if _ =? _ then _ else _) as [n x]. destruct (digits_plain prec n) as [Hd Hl].
  assert (size (digits prec n) = Z.of_nat prec) as Hs by (unfold size; by rewrite Hl). destruct (_ && _) eqn:Hx; [destruct (Z.leb_spec 0 x)|].
  - eapply part_le; [eapply parts; [by apply part_of_take|apply fraction_part; by apply Forall_drop]|].
    destruct (part_of_drop (Z.to_nat (x + 1)) _ Hd). lia.
  - apply andb_true_iff in Hx as [Hx _]. apply Z.leb_le in Hx.
    eapply part_le; [eapply parts; [by apply part_const|eapply parts; [|by apply strip_part]]|].
    + split; [|reflexivity]. apply Forall_replicate. plain_char.
    + unfold size at 1 2. rewrite length_replicate. simpl. lia.
  - eapply part_le; [eapply parts; [by apply part_of_take|eapply parts; [apply fraction_part; by apply Forall_drop|
      eapply parts; [by apply part_const|eapply parts; [|eapply parts; [|apply dec_plain]]]]]|].
    + instantiate (1 := 1). by destruct (x <? 0); apply part_const.
    + instantiate (1 := 1). destruct (_ <? 10); [by apply part_const|done].
    + destruct (part_of_drop 1 _ Hd). unfold size at 3. simpl. lia.
Qed.

Lemma printf_G_plain prec d : Forall plain (printf_G prec d) ∧ size (printf_G prec d) <= 2 * Z.of_nat prec + 31.
Proof.
  assert (∀ (s : bool) t n, Forall plain t ∧ size t <= n → Forall plain ((if s then lit "-" else []) ++ t) ∧ size ((if s then lit "-" else []) ++ t) <= 1 + n) as Hsign.
  { intros s t n Ht. apply parts; [|done]. by destruct s; [apply part_const|]. }
  destruct d as [s|s| |s m e]; cbn [printf_G].
  - eapply part_le; [by apply Hsign, part_const|simpl; unfold size; simpl; lia].
  - eapply part_le; [by apply Hsign, part_const|simpl; unfold size; simpl; lia].
  - eapply part_le; [by apply part_const|unfold size; simpl; lia].
  - destruct (0 <=? e); (eapply part_le; [apply Hsign, format_G_plain|lia]).
Qed.

(** ** The documents of a workbook *)
Definition at_ (k v : string) : str * str := (lit k, lit v).

Definition content_types : list token :=
  [STag (lit "Types") [at_ "xmlns" "http://schemas.openxmlformats.org/package/2006/content-types"];
   Empty (lit "Default") [at_ "Extension" "rels"; at_ "ContentType" "application/vnd.openxmlformats-package.relationships+xml"];
   Empty (lit "Default") [at_ "Extension" "xml"; at_ "ContentType" "application/xml"];
   Empty (lit "Override") [at_ "PartName" "/workbook.xml"; (lit "ContentType", main_type)];
   Empty (lit "Override") [at_ "PartName" "/core.xml"; at_ "ContentType" "application/vnd.openxmlformats-package.core-properties+xml"];
   Empty (lit "Override") [at_ "PartName" "/app.xml"; at_ "ContentType" "application/vnd.openxmlformats-officedocument.extended-properties+xml"];
   Empty (lit "Override") [at_ "PartName" "/styles.xml"; at_ "ContentType" "application/vnd.openxmlformats-officedocument.spreadsheetml.styles+xml"];
   Empty (lit "Override") [at_ "PartName" "/sheet1.xml"; at_ "ContentType" "application/vnd.openxmlformats-officedocument.spreadsheetml.worksheet+xml"];
   ETag (lit "Types")].

Definition workbook_rels : list token :=
  [STag (lit "Relationships") [at_ "xmlns" "http://schemas.openxmlformats.org/package/2006/relationships"];
   Empty (lit "Relationship") [at_ "Id" "rId2"; at_ "Type" "http://schemas.openxmlformats.org/officeDocument/2006/relationships/styles"; at_ "Target" "styles.xml"];
   Empty (lit "Relationship") [at_ "Id" "rId3"; (lit "Type", worksheet_type); at_ "Target" "sheet1.xml"];
   ETag (lit "Relationships")].

Definition spaces : attrs :=
  [at_ "xmlns" "http://schemas.openxmlformats.org/spreadsheetml/2006/main"; at_ "xmlns:r" "http://schemas.openxmlformats.org/officeDocument/2006/relationships"].
Definition workbook_doc (name : str) : list token :=
  [STag (lit "workbook") spaces; STag (lit "bookViews") []; Empty (lit "workbookView") []; ETag (lit "bookViews"); STag (lit "sheets") [];
   Empty (lit "sheet") [(lit "name", name); at_ "sheetId" "1"; at_ "r:id" "rId3"]; ETag (lit "sheets"); ETag (lit "workbook")].

Lemma content_types_doc : content_types_xml = document content_types ∧ well_formed content_types = true.
Proof. split; vm_compute; reflexivity. Qed.
Lemma workbook_rels_doc : workbook_rels_xml = document workbook_rels ∧ well_formed workbook_rels = true.
Proof. split; vm_compute; reflexivity. Qed.
Lemma workbook_doc_text name : workbook_xml (escape name) = document (workbook_doc name).
Proof. unfold workbook_xml, document, tokens_text, workbook_doc. f_equal. cbn [map concat show]. unfold show_attr. cbn [fst snd map concat].
  rewrite <- !app_assoc. cbn [app]. rewrite !app_nil_r. reflexivity. Qed.
Lemma workbook_doc_formed name : value_ok name = true → well_formed (workbook_doc name) = true.
Proof.
  intros H. change (well_formed (workbook_doc name)) with
    (atts_ok [(lit "name", name); at_ "sheetId" "1"; at_ "r:id" "rId3"] && inside [lit "sheets"; lit "workbook"] false [ETag (lit "sheets"); ETag (lit "workbook")]).
  unfold atts_ok. cbn [forallb fst snd]. rewrite H. vm_compute. reflexivity.
Qed.

(** *** The sheet *)

(** What the texts of cells are. *)
Definition cell_text (o : op) : option (option str) :=
  match o with
  | AddColumn v _ | AddString v => Some (no_cr ∘ c_str <$> v)
  | AddInt z => Some (Some (dec_int z))
  | AddFloat d => Some (Some (printf_G 32 d))
  | AddDatetime t => Some (Some (printf_G 16 (excel_time t)))
  | _ => None
  end.

Definition row_tag (h : Z) (a : attrs) : token :=
  STag (lit "row") ((if h =? 0 then [] else [(lit "ht", printf_G 6 (CALCULATE_COLUMN_HEIGHT h)); at_ "customHeight" "1"]) ++ a).
Definition string_tokens (style : string) (v : option str) : list token :=
  match v with
  | Some t => [STag (lit "c") [at_ "t" "inlineStr"; at_ "s" style]; STag (lit "is") []; STag (lit "t") []; Chars t;
               ETag (lit "t"); ETag (lit "is"); ETag (lit "c")]
  | None => [Empty (lit "c") [at_ "s" style]]
  end.
Definition number_tokens (style : string) (t : str) : list token :=
  [STag (lit "c") [at_ "s" style]; STag (lit "v") []; Chars t; ETag (lit "v"); ETag (lit "c")].
Definition cell_tokens (o : op) : list token :=
  match o with
  | AddColumn v _ => string_tokens "1" (no_cr ∘ c_str <$> v)
  | AddString v => string_tokens "3" (no_cr ∘ c_str <$> v)
  | AddInt z => number_tokens "4" (dec_int z)
  | AddFloat d => number_tokens "2" (printf_G 32 d)
  | AddDatetime t => number_tokens "5" (printf_G 16 (excel_time t))
  | _ => []
  end.
Definition row_atts (o : op) : attrs := match o with AddColumn _ _ => [at_ "s" "1"] | _ => [] end.

(** What a call adds to the rows, when a row is open or not, at a height; and what is open then. *)
Definition op_tokens (open : bool) (h : Z) (o : op) : list token :=
  match cell_text o with
  | Some _ => (if open then [] else [row_tag h (row_atts o)]) ++ cell_tokens o
  | None => match o with NextRow => (if open then [] else [row_tag h []]) ++ [ETag (lit "row")] | _ => [] end
  end.
Definition op_open (open : bool) (o : op) : bool :=
  match cell_text o with Some _ => true | None => match o with NextRow => false | _ => open end end.
Definition op_height (h : Z) (o : op) : Z := match o with SetRowHeight h => h | _ => h end.
Fixpoint body (open : bool) (h : Z) (os : list op) : list token :=
  match os with
  | [] => if open then [ETag (lit "row")] else []
  | o :: os => op_tokens open h o ++ body (op_open open o) (op_height h o) os
  end.
Definition sheet_doc (before : list token) (b : list token) : list token :=
  STag (lit "worksheet") spaces :: before ++ STag (lit "sheetData") [] :: b ++ [ETag (lit "sheetData"); ETag (lit "worksheet")].

(** What comes before the rows: whether the top row stays, and the columns. *)
Definition col_atts (col : Z) (c : Z * Z) : attrs :=
  [(lit "min", dec col); (lit "max", dec col)] ++
  if col_width c =? 0 then [] else [(lit "width", printf_G 6 (CALCULATE_COLUMN_WIDTH (col_width c))); at_ "customWidth" "1"].
Fixpoint cols_tokens (col : Z) (cs : list (Z * Z)) : list token :=
  match cs with [] => [] | c :: cs => Empty (lit "col") (col_atts (col + 1) c) :: cols_tokens (col + 1) cs end.
Definition before (freeze : bool) (cs : list (Z * Z)) : list token :=
  (if freeze then
     [STag (lit "sheetViews") []; STag (lit "sheetView") [at_ "tabSelected" "1"; at_ "workbookViewId" "0"];
      Empty (lit "pane") [at_ "ySplit" "1"; at_ "topLeftCell" "A2"; at_ "activePane" "bottomLeft"; at_ "state" "frozen"];
      Empty (lit "selection") [at_ "pane" "bottomLeft"]; ETag (lit "sheetView"); ETag (lit "sheetViews")]
   else []) ++
  match cs with [] => [] | _ => STag (lit "cols") [] :: cols_tokens 0 cs ++ [ETag (lit "cols")] end.

Lemma escape_plain s : Forall plain s → escape s = s.
Proof. induction 1 as [|c s [_ Hc] H IH]; [done|]. change (escape (c :: s)) with (escape_char c ++ escape s). by rewrite Hc, IH. Qed.
Lemma escape_dec n : escape (dec n) = dec n.
Proof. apply escape_plain, dec_plain. Qed.
Lemma escape_dec_int n : escape (dec_int n) = dec_int n.
Proof. apply escape_plain, dec_int_plain. Qed.
Lemma escape_G prec d : escape (printf_G prec d) = printf_G prec d.
Proof. apply escape_plain, printf_G_plain. Qed.

Lemma cols_text cs col : cols_xml col cs = tokens_text (cols_tokens col cs).
Proof.
  revert col. induction cs as [|c cs IH]; intros col; [done|]. cbn [cols_xml cols_tokens]. rewrite IH.
  change (tokens_text (Empty (lit "col") (col_atts (col + 1) c) :: cols_tokens (col + 1) cs)) with
    (show (Empty (lit "col") (col_atts (col + 1) c)) ++ tokens_text (cols_tokens (col + 1) cs)).
  f_equal. unfold col_xml, col_atts. cbn [show]. destruct (_ =? 0).
  - cbn [app map concat]. unfold show_attr. cbn [fst snd]. rewrite escape_dec, <- !app_assoc. reflexivity.
  - cbn [app map concat]. unfold show_attr. cbn [fst snd at_]. rewrite escape_dec, escape_G, <- !app_assoc. reflexivity.
Qed.

Lemma before_text freeze cs : tokens_text (before freeze cs) =
  (if freeze then worksheet_xml_freeze_top_row else []) ++ match cs with [] => [] | _ => xml "<cols>" ++ cols_xml 0 cs ++ xml "</cols>" end.
Proof.
  unfold before. rewrite text_app. f_equal; [by destruct freeze|]. destruct cs as [|c cs]; [done|]. rewrite cols_text.
  change (xml "<cols>" ++ tokens_text (cols_tokens 0 (c :: cs) ++ [ETag (lit "cols")]) = xml "<cols>" ++ tokens_text (cols_tokens 0 (c :: cs)) ++ xml "</cols>").
  by rewrite text_app.
Qed.

Lemma cols_formed m stack cs col ts : inside (m :: stack) false (cols_tokens col cs ++ ts) = inside (m :: stack) false ts.
Proof.
  revert col. induction cs as [|c cs IH]; intros col; [done|]. cbn [cols_tokens app inside]. rewrite IH.
  assert (atts_ok (col_atts (col + 1) c) = true) as ->; [|done].
  pose proof (plain_value _ (proj1 (dec_plain (col + 1)))) as Hd. unfold col_atts, atts_ok. destruct (_ =? 0); cbn [app forallb fst snd at_].
  - rewrite Hd. reflexivity.
  - rewrite Hd, (plain_value _ (proj1 (printf_G_plain _ _))). reflexivity.
Qed.
Lemma before_formed m stack freeze cs ts : inside (m :: stack) false (before freeze cs ++ ts) = inside (m :: stack) false ts.
Proof.
  unfold before. rewrite <- app_assoc. destruct freeze; cbn [app].
  all: assert (∀ us, inside (m :: stack) false (match cs with [] => [] | _ => STag (lit "cols") [] :: cols_tokens 0 cs ++ [ETag (lit "cols")] end ++ us) =
    inside (m :: stack) false us) as Hc by
    (intros us; destruct cs as [|c cs]; [done|]; rewrite <- app_comm_cons, <- app_assoc; cbn [inside]; rewrite cols_formed; reflexivity).
  - etrans; [|apply Hc]. reflexivity.
  - apply Hc.
Qed.
Lemma cols_other cs col : Forall other (events (cols_tokens col cs)).
Proof. revert col. induction cs as [|c cs IH]; intros col; [constructor|]. cbn [cols_tokens]. constructor; [done|]. constructor; [done|]. apply IH. Qed.
Lemma before_other freeze cs : Forall other (events (before freeze cs)).
Proof.
  unfold before. rewrite events_app. apply Forall_app. split; [destruct freeze; repeat constructor|].
  destruct cs as [|c cs]; [constructor|].
  change (Forall other (Start (lit "cols") [] :: events (cols_tokens 0 (c :: cs) ++ [ETag (lit "cols")]))). constructor; [done|]. rewrite events_app. apply Forall_app. split; [apply cols_other|by repeat constructor].
Qed.

(** ** The writer makes the text of the document *)

(** The buffer or the pipe holds the text [x] of rows. *)
Definition holds (s : writer) (x : str) : Prop :=
  if sheetopen s
  then rowstobuffer s = 0 ∧ ∃ freeze cs, pipe_write s = worksheet_xml_begin ++ tokens_text (before freeze cs) ++ worksheet_xml_start_data ++ x
  else 0 < rowstobuffer s ∧ pipe_write s = worksheet_xml_begin ∧ buf s = x.
Abbreviation written s b := (holds s (tokens_text b)).

(** What a call does not change. *)
Definition rows_same (s s' : writer) : Prop :=
  rowopen s' = rowopen s ∧ rowheight s' = rowheight s ∧ sheetname s' = sheetname s ∧ sheetopen s' = sheetopen s.

Lemma put_holds s x t : size t < 2 ^ 31 → holds s x → holds (put t s) (x ++ t) ∧ rows_same s (put t s).
Proof.
  intros Hs H. unfold put, fprintf, append_data. rewrite (proj2 (Z.ltb_lt _ _)) by done. unfold holds in *.
  destruct s as [sn ci pc bf rb rh ft so ro pw]. cbn [sheetopen] in *. destruct so; cbn; cbv [constant]; cbn [rowstobuffer pipe_write buf] in *.
  - split; [|done]. destruct H as (-> & fr & cs & ->). split; [done|]. exists fr, cs. by rewrite <- !app_assoc.
  - split; [|done]. by destruct H as (? & -> & ->).
Qed.

Lemma flush_text s x : pipe_write s = worksheet_xml_begin → buf s = x →
  (∃ freeze cs, pipe_write (flush_buffer s) = worksheet_xml_begin ++ tokens_text (before freeze cs) ++ worksheet_xml_start_data ++ x) ∧
  sheetopen (flush_buffer s) = true ∧ rowstobuffer (flush_buffer s) = rowstobuffer s ∧ rowopen (flush_buffer s) = rowopen s ∧
  rowheight (flush_buffer s) = rowheight s ∧ sheetname (flush_buffer s) = sheetname s.
Proof.
  intros Hp Hb. split.
  - exists (0 <? freezetop s), (columninfo s). rewrite before_text, <- Hb, <- Hp.
    destruct s as [sn ci pc bf rb rh ft so ro pw]. unfold flush_buffer, fprintf. cbn [freezetop columninfo pipe_write buf].
    destruct (0 <? ft), ci as [|c ci]; cbn; cbv [constant]; cbn; by rewrite <- ?app_assoc.
  - destruct s as [sn ci pc bf rb rh ft so ro pw]. unfold flush_buffer, fprintf. cbn [freezetop]. by destruct (0 <? ft), ci as [|c ci].
Qed.

Lemma flush_holds s x : pipe_write s = worksheet_xml_begin → buf s = x → rowstobuffer s = 0 →
  holds (flush_buffer s) x ∧ rowopen (flush_buffer s) = rowopen s ∧ rowheight (flush_buffer s) = rowheight s ∧ sheetname (flush_buffer s) = sheetname s.
Proof.
  intros Hp Hb Hr. destruct (flush_text s x Hp Hb) as (Ht & Ho & Hr' & H). split; [|done]. unfold holds. rewrite Ho. split; [congruence|done].
Qed.

(** The row is open now; nothing else is changed. *)
Definition opens_row (s s' : writer) : Prop :=
  rowopen s' = true ∧ rowheight s' = rowheight s ∧ sheetname s' = sheetname s ∧ sheetopen s' = sheetopen s.

Lemma set_rowopen_holds s x (v : bool) : holds s x → holds {s with rowopen := v} x.
Proof. by destruct s. Qed.

Lemma row_tag_text h a : show (row_tag h a) =
  if h =? 0 then xml "<row" ++ concat (map show_attr a) ++ xml ">"
  else xml "<row ht='" ++ printf_G 6 (CALCULATE_COLUMN_HEIGHT h) ++ xml "' customHeight='1'" ++ concat (map show_attr a) ++ xml ">".
Proof.
  unfold row_tag. destruct (h =? 0); [done|]. cbn [show app map concat]. unfold show_attr at 1 2. cbn [fst snd at_].
  rewrite escape_G, <- !app_assoc. reflexivity.
Qed.

Lemma row_start_holds s x a rowattr : rowattr = concat (map show_attr a) → size rowattr < 100 → holds s x →
  holds (write_row_start rowattr s) (x ++ show (row_tag (rowheight s) a)) ∧ opens_row s (write_row_start rowattr s).
Proof.
  intros -> Hs H. rewrite row_tag_text. unfold write_row_start. cbv zeta. set (t := if rowheight s =? 0 then _ else _).
  destruct (put_holds s x t) as [Hw (H1 & H2 & H3 & H4)].
  - destruct (printf_G_plain 6 (CALCULATE_COLUMN_HEIGHT (rowheight s))) as [_ Hg].
    assert (size (xml "<row") + size (xml "<row ht='") + size (xml "' customHeight='1'") + size (xml ">") = 32) as Hc by (vm_compute; reflexivity).
    pose proof (size_nonneg (xml "<row")). pose proof (size_nonneg (xml "<row ht='")). pose proof (size_nonneg (xml "' customHeight='1'")).
    pose proof (size_nonneg (xml ">")). unfold t. destruct (_ =? 0); rewrite !size_app; lia.
  - done.
  - split; [by apply set_rowopen_holds|]. unfold opens_row. by destruct (put t s).
Qed.

Lemma collect_holds s x data n : sheetopen s = false → holds s x → holds (collect data n s) x ∧ rows_same s (collect data n s).
Proof. intros Ho H. unfold collect. destruct s as [sn ci pc bf rb rh ft so ro pw]. cbn in Ho. subst so. done. Qed.

Lemma put_opens s s1 x t : size t < 2 ^ 31 → holds s1 x → opens_row s s1 → holds (put t s1) (x ++ t) ∧ opens_row s (put t s1).
Proof.
  intros Ht Hx (? & ? & ? & ?). destruct (put_holds s1 x t Ht Hx) as [? (? & ? & ? & ?)]. split; [done|]. unfold opens_row. split_and!; congruence.
Qed.

(** A cell with its tags. *)
Lemma cell_holds s x a rowattr prefix suffix text :
  rowattr = concat (map show_attr a) → size rowattr < 100 → size prefix < 2 ^ 31 → size (default [] suffix) < 2 ^ 31 →
  6 * size (default [] text) < 2 ^ 31 → holds s x →
  ∃ s', write_cell_data rowattr prefix suffix text s = Some s' ∧ opens_row s s' ∧
    holds s' (x ++ (if rowopen s then [] else show (row_tag (rowheight s) a)) ++ prefix ++ escape (default [] text) ++ default [] suffix).
Proof.
  intros Ha Hsa Hp Hx Ht H. unfold write_cell_data. cbv zeta. set (s1 := if rowopen s then s else write_row_start rowattr s).
  assert (holds s1 (x ++ if rowopen s then [] else show (row_tag (rowheight s) a)) ∧ opens_row s s1) as [H1 R1].
  { unfold s1. destruct (rowopen s) eqn:Ho; [rewrite app_nil_r; by unfold opens_row|]. by apply row_start_holds. }
  rewrite app_assoc. set (x1 := x ++ _) in *. clearbody s1 x1.
  assert (∃ data, (match text with Some t => if size t <? 2 ^ 31 then Some <$> fix_xml_special_chars t else Some None | None => Some None end) = Some data ∧
    default [] data = escape (default [] text) ∧ size (default [] data) < 2 ^ 31) as (data & -> & <- & Hd).
  { pose proof (size_nonneg (default [] text)). destruct text as [t|]; [|by exists None]. change (default [] (Some t)) with t in *. exists (Some (escape t)).
    rewrite (proj2 (Z.ltb_lt _ _)) by lia. pose proof (escape_size t). rewrite fix_spec by lia. split_and!; [done|done|simpl; lia]. }
  cbn [mbind option_bind]. destruct (put_opens s s1 x1 prefix Hp H1 R1) as [H2 R2]. set (s2 := put prefix s1) in *.
  set (s3 := match data with Some d => put d s2 | None => s2 end).
  assert (holds s3 ((x1 ++ prefix) ++ default [] data) ∧ opens_row s s3) as [H3 R3].
  { unfold s3. destruct data as [d|]; [by apply put_opens|]. simpl. by rewrite app_nil_r. }
  set (s4 := match suffix with Some x => put x s3 | None => s3 end).
  assert (holds s4 (((x1 ++ prefix) ++ default [] data) ++ default [] suffix) ∧ opens_row s s4) as [H4 R4].
  { unfold s4. destruct suffix as [d|]; [by apply put_opens|]. simpl. by rewrite app_nil_r. }
  rewrite <- !app_assoc in H4. eexists. split; [reflexivity|]. destruct (sheetopen s1) eqn:Ho; [done|].
  assert (sheetopen s4 = false) as Ho4 by (destruct R1 as (_ & _ & _ & E1), R4 as (_ & _ & _ & E4); congruence).
  edestruct (collect_holds s4) as [Hc (? & ? & ? & ?)]; [done|exact H4|]. split; [|exact Hc].
  destruct R4 as (? & ? & ? & ?). unfold opens_row. split_and!; congruence.
Qed.

Lemma chars_text pre t post : tokens_text (pre ++ Chars t :: post) = tokens_text pre ++ escape t ++ tokens_text post.
Proof. by rewrite text_app. Qed.

Lemma string_text style v : style = "1"%string ∨ style = "3"%string →
  tokens_text (string_tokens style (no_cr <$> v)) =
  match v with Some _ => cell_of style | None => empty_of style end ++ escape (default [] v) ++
  default [] match v with Some _ => Some (xml "</t></is></c>") | None => None end.
Proof.
  intros Hs. destruct v as [t|].
  - change (tokens_text ([STag (lit "c") [at_ "t" "inlineStr"; at_ "s" style]; STag (lit "is") []; STag (lit "t") []] ++
      Chars (no_cr t) :: [ETag (lit "t"); ETag (lit "is"); ETag (lit "c")]) = cell_of style ++ escape t ++ xml "</t></is></c>").
    rewrite chars_text, escape_no_cr. by destruct Hs as [-> | ->].
  - by destruct Hs as [-> | ->].
Qed.
Lemma number_text style t : style = "2"%string ∨ style = "4"%string ∨ style = "5"%string → Forall plain t →
  tokens_text (number_tokens style t) = number_of style ++ escape t ++ xml "</v></c>".
Proof.
  intros Hs _. change (number_tokens style t) with ([STag (lit "c") [at_ "s" style]; STag (lit "v") []] ++ Chars t :: [ETag (lit "v"); ETag (lit "c")]).
  rewrite chars_text. by destruct Hs as [-> |[-> | ->]].
Qed.

(** Calls whose texts can be measured by an [int] when their special characters are replaced. *)
Definition fits (o : op) : Prop :=
  match o with
  | AddColumn (Some v) _ | AddString (Some v) => 6 * size (c_str v) < 2 ^ 31
  | SetDetectionRows n => 0 <= n
  | _ => True
  end.

Definition after_op (s s' : writer) (x : str) (o : op) : Prop :=
  holds s' (x ++ tokens_text (op_tokens (rowopen s) (rowheight s) o)) ∧ rowopen s' = op_open (rowopen s) o ∧
  rowheight s' = op_height (rowheight s) o ∧ sheetname s' = sheetname s.

Lemma after_cell s s' x o ts : op_tokens (rowopen s) (rowheight s) o = (if rowopen s then [] else [row_tag (rowheight s) (row_atts o)]) ++ ts →
  op_open (rowopen s) o = true → op_height (rowheight s) o = rowheight s → opens_row s s' →
  holds s' (x ++ (if rowopen s then [] else show (row_tag (rowheight s) (row_atts o))) ++ tokens_text ts) → after_op s s' x o.
Proof.
  intros Ht Ho Hh (R1 & R2 & R3 & _) H. unfold after_op. rewrite Ht, Ho, Hh. split_and!; try congruence. rewrite text_app.
  assert (tokens_text (if rowopen s then [] else [row_tag (rowheight s) (row_atts o)]) = if rowopen s then [] else show (row_tag (rowheight s) (row_atts o))) as ->; [|done].
  destruct (rowopen s); [done|]. unfold tokens_text. cbn [map concat]. by rewrite app_nil_r.
Qed.

Lemma string_cell_after s x o style rowattr v : style = "1"%string ∨ style = "3"%string → rowattr = concat (map show_attr (row_atts o)) →
  size rowattr < 100 → 6 * size (default [] (c_str <$> v)) < 2 ^ 31 →
  cell_text o = Some (no_cr ∘ c_str <$> v) → cell_tokens o = string_tokens style (no_cr ∘ c_str <$> v) → op_height (rowheight s) o = rowheight s → holds s x →
  ∃ s', string_cell style rowattr v s = Some s' ∧ after_op s s' x o.
Proof.
  intros Hs Ha Hr Hv Ht Hk Hh H. pose proof (string_text style (c_str <$> v) Hs) as Hx.
  assert (no_cr <$> (c_str <$> v) = no_cr ∘ c_str <$> v) as E by (by destruct v). rewrite E in Hx.
  assert (size (cell_of style) < 100 ∧ size (empty_of style) < 100) as [Hs1 Hs2] by (by destruct Hs as [-> | ->]; split; vm_compute).
  edestruct (cell_holds s x (row_atts o) rowattr (match v with Some _ => cell_of style | None => empty_of style end)
    (match v with Some _ => Some (xml "</t></is></c>") | None => None end) (c_str <$> v)) as (s' & He & Hop & Hh').
  1-6: try done; destruct v; try done; simpl; try lia; by vm_compute.
  exists s'. split; [rewrite <- He; by destruct v|]. eapply after_cell; [|by unfold op_open; rewrite Ht|done|done|].
  { unfold op_tokens. rewrite Ht, Hk. reflexivity. }
  rewrite Hx. destruct v; exact Hh'.
Qed.

Lemma number_cell_after s x o style t : style = "2"%string ∨ style = "4"%string ∨ style = "5"%string → Forall plain t → size t <= 95 →
  row_atts o = [] → cell_text o = Some (Some t) → cell_tokens o = number_tokens style t → op_height (rowheight s) o = rowheight s → holds s x →
  ∃ s', write_cell_data [] (number_of style) (Some (xml "</v></c>")) (Some t) s = Some s' ∧ after_op s s' x o.
Proof.
  intros Hs Hp Hl Ha Ht Hk Hh H. assert (size (number_of style) < 100) as Hs1 by (by destruct Hs as [-> |[-> | ->]]; vm_compute).
  edestruct (cell_holds s x [] [] (number_of style) (Some (xml "</v></c>")) (Some t)) as (s' & He & Hop & Hh').
  1-6: try done; simpl; try lia; by vm_compute.
  exists s'. split; [done|]. eapply after_cell; [|by unfold op_open; rewrite Ht|done|done|].
  { unfold op_tokens. rewrite Ht, Hk, Ha. reflexivity. }
  rewrite number_text, Ha by done. exact Hh'.
Qed.

Lemma count_row_holds s x : holds s x →
  let s1 := if negb (sheetopen s) && (0 <? rowstobuffer s) then
              let s := {s with rowstobuffer := rowstobuffer s - 1} in if rowstobuffer s =? 0 then flush_buffer s else s
            else s in
  holds s1 x ∧ rowopen s1 = rowopen s ∧ rowheight s1 = rowheight s ∧ sheetname s1 = sheetname s.
Proof.
  intros H. cbv zeta. pose proof H as Hx. unfold holds in Hx. destruct (sheetopen s) eqn:Ho; cbn [negb andb]; [done|].
  destruct Hx as (Hr & Hp & Hb). rewrite (proj2 (Z.ltb_lt _ _)) by done. set (s2 := {s with rowstobuffer := _}).
  assert (pipe_write s2 = worksheet_xml_begin ∧ buf s2 = x ∧ sheetopen s2 = false ∧ rowstobuffer s2 = rowstobuffer s - 1 ∧
    rowopen s2 = rowopen s ∧ rowheight s2 = rowheight s ∧ sheetname s2 = sheetname s) as (H1 & H2 & H3 & H4 & H5 & H6 & H7) by (by destruct s).
  clearbody s2. rewrite <- H5, <- H6, <- H7. destruct (Z.eqb_spec (rowstobuffer s2) 0) as [E|E]; [by apply flush_holds|].
  split; [|done]. unfold holds. rewrite H3. split_and!; [lia|done|done].
Qed.

Lemma holds_counts s x : holds s x → (rowstobuffer s =? 0) = sheetopen s.
Proof. unfold holds. destruct (sheetopen s); intros [H _]; [by apply Z.eqb_eq|apply Z.eqb_neq; lia]. Qed.

Lemma next_row_after s x : holds s x → after_op s (xlsxiowrite_next_row s) x NextRow.
Proof.
  intros H. unfold xlsxiowrite_next_row. pose proof (count_row_holds s x H) as Hc. cbv zeta in *.
  set (s1 := if negb (sheetopen s) && _ then _ else s) in *. clearbody s1. destruct Hc as (H1 & R1 & R2 & R3).
  set (s2 := if rowopen s1 then s1 else write_row_start [] s1).
  assert (holds s2 (x ++ tokens_text (if rowopen s1 then [] else [row_tag (rowheight s1) []])) ∧ rowheight s2 = rowheight s1 ∧ sheetname s2 = sheetname s1) as (H2 & E1 & E2).
  { unfold s2. destruct (rowopen s1); [by rewrite app_nil_r|]. destruct (row_start_holds s1 x [] []) as [Hh (_ & ? & ? & _)]; [done|done|done|].
    split; [|done]. unfold tokens_text. cbn [map concat]. by rewrite app_nil_r. }
  rewrite (holds_counts s2 _ H2).
  destruct (put_holds s2 _ (xml "</row>") ltac:(by vm_compute) H2) as [H3 (_ & E3 & E4 & _)]. unfold put in H3, E3, E4.
  set (s3 := if sheetopen s2 then _ else _) in *. clearbody s3.
  unfold after_op. rewrite <- R1, <- R2. split; [|destruct s3; cbn in *; cbv [constant]; split_and!; congruence].
  unfold op_tokens, cell_text. rewrite text_app, app_assoc. destruct s3. exact H3.
Qed.

Lemma exec_after s x o : holds s x → fits o → ∃ s', exec o s = Some s' ∧ after_op s s' x o.
Proof.
  intros H Hf. destruct o as [v w|v|z|d|t| |h|n]; cbn [exec].
  - unfold xlsxiowrite_add_column. destruct (string_cell_after s x (AddColumn v w) "1" (xml " s='1'") v) as (s1 & -> & Ha); try done; [by left|destruct v; [done|by vm_compute]|].
    cbn [mbind option_bind]. eexists. split; [reflexivity|]. unfold after_op, holds in *. by destruct s1; cbn; destruct (_ =? 0).
  - destruct (string_cell_after s x (AddString v) "3" [] v) as (s1 & E & Ha); try done; [by right|destruct v; [done|by vm_compute]|]. by exists s1.
  - destruct (dec_int_plain z). destruct (number_cell_after s x (AddInt z) "4" (dec_int z)) as (s1 & E & Ha); try done; [auto|lia|]. by exists s1.
  - destruct (printf_G_plain 32 d). destruct (number_cell_after s x (AddFloat d) "2" (printf_G 32 d)) as (s1 & E & Ha); try done; [auto|]. by exists s1.
  - destruct (printf_G_plain 16 (excel_time t)).
    destruct (number_cell_after s x (AddDatetime t) "5" (printf_G 16 (excel_time t))) as (s1 & E & Ha); try done; [auto|simpl in *; lia|]. by exists s1.
  - eexists. split; [reflexivity|]. by apply next_row_after.
  - eexists. split; [reflexivity|]. unfold after_op. cbn [op_tokens cell_text]. rewrite app_nil_r. by destruct s.
  - eexists. split; [reflexivity|]. unfold after_op, op_tokens. cbn [cell_text op_open op_height]. rewrite app_nil_r. unfold xlsxiowrite_set_detection_rows.
    rewrite (holds_counts s x H), orb_diag. pose proof H as Hx. unfold holds in Hx. destruct (sheetopen s) eqn:Ho; [done|]. destruct Hx as (Hr & Hp & Hb). cbv zeta.
    destruct (Z.eqb_spec n 0) as [->|Hn].
    + destruct (flush_holds {s with rowstobuffer := 0} x) as [? (? & ? & ?)]; by destruct s.
    + unfold holds. cbn [fits] in Hf. destruct s. cbn in *. subst. cbv [constant]. cbn. split_and!; try done. lia.
Qed.

Lemma close_text s x : holds s x → ∃ freeze cs, xlsxiowrite_close s =
  worksheet_xml_begin ++ tokens_text (before freeze cs) ++ worksheet_xml_start_data ++ x ++ (if rowopen s then xml "</row>" else []) ++ worksheet_xml_end.
Proof.
  intros H. unfold xlsxiowrite_close. cbv zeta. set (s1 := if sheetopen s then s else flush_buffer s).
  assert ((∃ freeze cs, pipe_write s1 = worksheet_xml_begin ++ tokens_text (before freeze cs) ++ worksheet_xml_start_data ++ x) ∧ rowopen s1 = rowopen s) as [(fr & cs & Hp) <-].
  { unfold holds in H. unfold s1. destruct (sheetopen s); [split; [apply H|done]|]. destruct H as (_ & Hp & Hb). destruct (flush_text s x Hp Hb) as (? & _ & _ & ? & _). done. }
  exists fr, cs. destruct s1 as [sn ci pc bf rb rh ft so ro pw]. cbn [pipe_write rowopen] in *. subst pw.
  destruct ro; cbn; cbv [constant]; by rewrite <- !app_assoc.
Qed.

Lemma exec_all_text os : Forall fits os → ∀ s x, holds s x →
  ∃ s' freeze cs, exec_all os s = Some s' ∧ sheetname s' = sheetname s ∧ xlsxiowrite_close s' =
    worksheet_xml_begin ++ tokens_text (before freeze cs) ++ worksheet_xml_start_data ++ x ++ tokens_text (body (rowopen s) (rowheight s) os) ++ worksheet_xml_end.
Proof.
  induction 1 as [|o os Ho H IH]; intros s x Hx.
  - destruct (close_text s x Hx) as (fr & cs & E). exists s, fr, cs. split_and!; [done|done|]. rewrite E. cbn [body]. by destruct (rowopen s).
  - destruct (exec_after s x o Hx Ho) as (s1 & E1 & H1 & R1 & R2 & R3). destruct (IH s1 _ H1) as (s2 & fr & cs & E2 & R4 & E3).
    exists s2, fr, cs. cbn [exec_all]. rewrite E1. cbn [mbind option_bind]. split_and!; [done|congruence|]. rewrite E3, R1, R2. cbn [body].
    by rewrite text_app, <- !app_assoc.
Qed.

(** The name that the sheet is given: at most 31 bytes. *)
Definition title (name : option str) : str := match name with Some n => no_cr (take 31 (c_str n)) | None => lit "Sheet1" end.

(** A file of an archive. *)
Fixpoint stored (archive : list (str * str)) (f : str) : option str :=
  match archive with [] => None | (n, x) :: archive => if decide (n = f) then Some x else stored archive f end.

(** The archive that is written, by the documents of its parts. *)
Lemma save_documents name os : Forall fits os → ∃ freeze cs archive, save name os = Some archive ∧
  stored archive (lit "[Content_Types].xml") = Some (document content_types) ∧
  stored archive (lit "_rels/workbook.xml.rels") = Some (document workbook_rels) ∧
  stored archive (lit "workbook.xml") = Some (document (workbook_doc (title name))) ∧
  stored archive (lit "sheet1.xml") = Some (document (sheet_doc (before freeze cs) (body false 0 os))).
Proof.
  intros Hf. destruct (exec_all_text os Hf (xlsxiowrite_open name) []) as (s & fr & cs & E & Hn & Hc); [done|].
  unfold save. rewrite E. cbn [mbind option_bind]. rewrite Hn. cbn [xlsxiowrite_open sheetname].
  assert (∃ n, (match name with Some n => Some <$> fix_xml_special_chars (take 31 (c_str n)) | None => Some None end) = Some n ∧
    default (lit "Sheet1") n = escape (title name)) as (n & Hs & Ht).
  { destruct name as [n|]; [|by exists None]. exists (Some (escape (take 31 (c_str n)))).
    rewrite fix_spec by (unfold size; rewrite length_take; lia). split; [done|]. unfold title. by rewrite escape_no_cr. }
  unfold thread_proc. rewrite Hs. cbn [mbind option_bind]. rewrite Ht, Hc. exists fr, cs. eexists. split; [reflexivity|].
  destruct content_types_doc as [-> _], workbook_rels_doc as [-> _]. rewrite workbook_doc_text.
  split_and!; [reflexivity..|].
  transitivity (Some (worksheet_xml_begin ++ tokens_text (before fr cs) ++ worksheet_xml_start_data ++ [] ++ tokens_text (body false 0 os) ++ worksheet_xml_end)); [reflexivity|].
  f_equal. unfold document, sheet_doc. rewrite app_nil_l.
  change (tokens_text (STag (lit "worksheet") spaces :: before fr cs ++ STag (lit "sheetData") [] :: body false 0 os ++ [ETag (lit "sheetData"); ETag (lit "worksheet")]))
    with (show (STag (lit "worksheet") spaces) ++ tokens_text (before fr cs ++ STag (lit "sheetData") [] :: body false 0 os ++ [ETag (lit "sheetData"); ETag (lit "worksheet")])).
  rewrite text_app.
  change (tokens_text (STag (lit "sheetData") [] :: body false 0 os ++ [ETag (lit "sheetData"); ETag (lit "worksheet")]))
    with (worksheet_xml_start_data ++ tokens_text (body false 0 os ++ [ETag (lit "sheetData"); ETag (lit "worksheet")])).
  rewrite text_app. change (tokens_text [ETag (lit "sheetData"); ETag (lit "worksheet")]) with worksheet_xml_end.
  assert (worksheet_xml_begin = xml_declaration ++ show (STag (lit "worksheet") spaces)) as -> by (vm_compute; reflexivity). by rewrite <- app_assoc.
Qed.

(** ** The document is well-formed *)

(** Texts that an XML document can have. *)
Definition xml_texts (o : op) : bool :=
  match o with AddColumn (Some v) _ | AddString (Some v) => text_ok (no_cr (c_str v)) | _ => true end.

Lemma string_formed style v m stack ts : style = "1"%string ∨ style = "3"%string → match v with Some t => text_ok t = true | None => True end →
  inside (m :: stack) false (string_tokens style v ++ ts) = inside (m :: stack) false ts.
Proof. intros Hs Hv. destruct v as [t|]; cbn [string_tokens app inside]; [rewrite Hv|]; by destruct Hs as [-> | ->]. Qed.
Lemma number_formed style t m stack ts : style = "2"%string ∨ style = "4"%string ∨ style = "5"%string → Forall plain t →
  inside (m :: stack) false (number_tokens style t ++ ts) = inside (m :: stack) false ts.
Proof. intros Hs Ht. cbn [number_tokens app inside]. rewrite plain_text by done. by destruct Hs as [-> |[-> | ->]]. Qed.

Lemma cell_formed o m stack ts : xml_texts o = true → inside (m :: stack) false (cell_tokens o ++ ts) = inside (m :: stack) false ts.
Proof.
  intros Ho. destruct o as [v w|v|z|d|t| |h|n]; cbn [cell_tokens]; try done.
  - apply string_formed; [by left|by destruct v].
  - apply string_formed; [by right|by destruct v].
  - apply number_formed; [auto|apply dec_int_plain].
  - apply number_formed; [auto|apply printf_G_plain].
  - apply number_formed; [auto|apply printf_G_plain].
Qed.
Lemma row_formed h a m stack ts : a = [] ∨ a = [at_ "s" "1"] → inside (m :: stack) false (row_tag h a :: ts) = inside (lit "row" :: m :: stack) false ts.
Proof.
  intros Ha. unfold row_tag. cbn [inside]. assert (atts_ok ((if h =? 0 then [] else [(lit "ht", printf_G 6 (CALCULATE_COLUMN_HEIGHT h)); at_ "customHeight" "1"]) ++ a) = true) as ->; [|done].
  unfold atts_ok. destruct (h =? 0); [by destruct Ha as [-> | ->]|]. cbn [app forallb fst snd at_]. rewrite (plain_value _ (proj1 (printf_G_plain _ _))).
  by destruct Ha as [-> | ->].
Qed.

Lemma body_formed os : forallb xml_texts os = true → ∀ (open : bool) h m stack ts,
  inside (if open then lit "row" :: m :: stack else m :: stack) false (body open h os ++ ts) = inside (m :: stack) false ts.
Proof.
  induction os as [|o os IH]; intros Ho open h m stack ts; [by destruct open|]. cbn [forallb] in Ho. apply andb_true_iff in Ho as [Ho Hos]. specialize (IH Hos).
  cbn [body]. rewrite <- app_assoc. rewrite <- (IH (op_open open o) (op_height h o)). unfold op_tokens, op_open.
  destruct (cell_text o) as [t|] eqn:Ht.
  - rewrite <- app_assoc. destruct open; cbn [app]; [by apply cell_formed|]. rewrite row_formed by (by destruct o; auto). by apply cell_formed.
  - destruct o; try done. destruct open; cbn [app]; [done|]. by rewrite row_formed by auto.
Qed.

Lemma sheet_formed freeze cs os : forallb xml_texts os = true → well_formed (sheet_doc (before freeze cs) (body false 0 os)) = true.
Proof.
  intros H. unfold sheet_doc. change (inside [lit "worksheet"] false (before freeze cs ++ STag (lit "sheetData") [] :: body false 0 os ++ [ETag (lit "sheetData"); ETag (lit "worksheet")]) = true).
  rewrite before_formed. cbn [inside]. rewrite (body_formed os H false 0 (lit "sheetData")). done.
Qed.

(** ** It is read back *)

(** An empty text is read as none. *)
Definition seen (t : option str) : option str := match t with Some [] => None | _ => t end.
Fixpoint rows_of (cur : option (list (option str))) (os : list op) : list (list (option str)) :=
  match os with
  | [] => match cur with Some r => [r] | None => [] end
  | o :: os =>
      match cell_text o with
      | Some t => rows_of (Some (default [] cur ++ [seen t])) os
      | None => match o with NextRow => default [] cur :: rows_of None os | _ => rows_of cur os end
      end
  end.

(** What is reported of row [i]: its cells, empty ones up to the width, and its end. *)
Definition cells_calls (i : Z) (r : list (option str)) : list call := imap (λ j v, Cell i (Z.of_nat j + 1) v) r.
Fixpoint grid_calls (i width : Z) (rows : list (list (option str))) : list call :=
  match rows with
  | [] => []
  | r :: rows =>
      let k := Z.of_nat (length r) in
      let w := if (i =? 1) && (width =? 0) then k else width in
      cells_calls i r ++ blanks i k (Z.to_nat (w - k)) ++ [Row i (Z.max w k)] ++ grid_calls (i + 1) w rows
  end.

Section Read.
Import Sheet.

Lemma c_str_c_str v : c_str (no_cr (c_str v)) = no_cr (c_str v).
Proof.
  apply c_str_no_nul. unfold no_cr. intros [_ H]%list_elem_of_filter. revert H.
  induction v as [|c v IH]; cbn [c_str]; [by intros ?%elem_of_nil|]. destruct (decide (c = NUL)) as [->|Hc]; [by intros ?%elem_of_nil|].
  intros [?|?]%elem_of_cons; [done|auto].
Qed.
Lemma c_str_plain t : Forall plain t → c_str t = t.
Proof. intros H. apply c_str_no_nul. intros Hn. rewrite Forall_forall in H. apply H in Hn as [[Hn _] _]. vm_compute in Hn. by apply Hn. Qed.

(** A cell without coordinates is the next one of the row. *)
Lemma bare_cell_start ss row k width cd sk skc cs atts : get_expat_attr_by_name atts (lit "r") = None →
  match get_expat_attr_by_name atts (lit "t") with Some t => same_name t (lit "s") | None => false end = false →
  step (inrow ss row k width cd sk skc cs) (Start (lit "c") atts) =
  SheetData ss row k width None value_string sk skc (Some FindValue) (Some CellEnd) false false cs.
Proof.
  intros Hr Ht. unfold Sheet.on_event, Sheet.dispatch, inrow. cbn [stopped h_start]. unfold find_cell_start. names. rewrite Hr.
  change (get_col_nr None) with 0. change (get_row_nr None) with 0. cbn [negb andb Z.eqb]. rewrite andb_false_r. cbv zeta. cbn [stopped].
  destruct (get_expat_attr_by_name atts (lit "t")) as [t|]; [rewrite Ht|]; unfold set_handlers; cbn; by cbv [constant].
Qed.

(** The text is reported as a whole, or not at all when it is empty. *)
Lemma cell_tokens_read ss row k width cd sk skc cs o t : cell_text o = Some t →
  foldl step (inrow ss row k width cd sk skc cs) (events (cell_tokens o)) =
  inrow ss row (k + 1) width (seen t) sk skc (Cell row (k + 1) (seen t) :: cs).
Proof.
  assert (∀ style v, style = "1"%string ∨ style = "3"%string → match v with Some t => c_str t = t | None => True end →
    foldl step (inrow ss row k width cd sk skc cs) (events (string_tokens style v)) =
    inrow ss row (k + 1) width (seen v) sk skc (Cell row (k + 1) (seen v) :: cs)) as Hstring.
  { intros style v Hs Hv. destruct v as [[|c v]|]; unfold events; cbn [string_tokens map concat XmlDoc.report app foldl].
    all: rewrite bare_cell_start by (by destruct Hs as [-> | ->]).
    - etrans; [exact (cell_close ss row k width None inline_string sk skc false cs)|]. done.
    - etrans; [exact (cell_close ss row k width (Some (c :: v)) inline_string sk skc false cs)|].
      assert (cell_value (SheetData ss row k width (Some (c :: v)) inline_string sk skc (Some FindValue) (Some CellEnd) false false cs) = Some (c :: v)) as ->; [|done].
      unfold cell_value. cbn [celldata cell_string_type]. by rewrite Hv.
    - etrans; [exact (cell_close ss row k width None value_string sk skc false cs)|]. done. }
  assert (∀ style v, style = "2"%string ∨ style = "4"%string ∨ style = "5"%string → Forall plain v →
    foldl step (inrow ss row k width cd sk skc cs) (events (number_tokens style v)) =
    inrow ss row (k + 1) width (seen (Some v)) sk skc (Cell row (k + 1) (seen (Some v)) :: cs)) as Hnumber.
  { intros style v Hs Hv%c_str_plain. destruct v as [|c v]; unfold events; cbn [number_tokens map concat XmlDoc.report app foldl].
    all: rewrite bare_cell_start by (by destruct Hs as [-> |[-> | ->]]).
    - etrans; [exact (cell_close ss row k width None value_string sk skc false cs)|]. done.
    - etrans; [exact (cell_close ss row k width (Some (c :: v)) value_string sk skc false cs)|].
      assert (cell_value (SheetData ss row k width (Some (c :: v)) value_string sk skc (Some FindValue) (Some CellEnd) false false cs) = Some (c :: v)) as ->; [|done].
      unfold cell_value. cbn [celldata cell_string_type]. by rewrite Hv. }
  destruct o as [v w|v|z|d|x| |h|n]; try done; intros [= <-]; cbn [cell_tokens].
  - apply Hstring; [by left|]. destruct v; [apply c_str_c_str|done].
  - apply Hstring; [by right|]. destruct v; [apply c_str_c_str|done].
  - apply Hnumber; [auto|apply dec_int_plain].
  - apply Hnumber; [auto|apply printf_G_plain].
  - apply Hnumber; [auto|apply printf_G_plain].
Qed.

(** The reader behind the calls for [row] rows, and inside the row [cur]. *)
Definition reading (cur : option (list (option str))) ss row k width cd sk skc cs : data :=
  match cur with
  | None => between ss row k width cd sk skc cs
  | Some r => inrow ss (row + 1) (Z.of_nat (length r)) width cd sk skc (rev (cells_calls (row + 1) r) ++ cs)
  end.

Lemma opened_read cur ss row k width cd sk skc cs h a : 0 <= row < 2 ^ 63 → a = [] ∨ a = [at_ "s" "1"] →
  foldl step (reading cur ss row k width cd sk skc cs) (events (if cur is Some _ then [] else [row_tag h a])) =
  reading (Some (default [] cur)) ss row k width cd sk skc cs.
Proof.
  intros Hr Ha. destruct cur as [r|]; [done|]. cbn [reading default]. unfold row_tag, events. cbn [map concat XmlDoc.report app foldl].
  rewrite row_start.
  - rewrite u64_small by lia. done.
  - destruct (h =? 0); destruct Ha as [-> | ->]; cbn [app get_expat_attr_by_name at_]; by names.
Qed.

Lemma cells_snoc i r v : cells_calls i (r ++ [v]) = cells_calls i r ++ [Cell i (Z.of_nat (length r) + 1) v].
Proof. unfold cells_calls. rewrite imap_app. cbn. do 4 f_equal. lia. Qed.

(** A cell of a row that is open. *)
Lemma next_cell_read r ss row k width cd sk skc cs o t : cell_text o = Some t →
  foldl step (reading (Some r) ss row k width cd sk skc cs) (events (cell_tokens o)) =
  reading (Some (r ++ [seen t])) ss row k width (seen t) sk skc cs.
Proof.
  intros Ht. cbn [reading]. rewrite (cell_tokens_read _ _ _ _ _ _ _ _ o t Ht). f_equal; [rewrite length_app; simpl; lia|].
  by rewrite cells_snoc, rev_app_distr.
Qed.

Lemma closed_read r ss row k width cd sk skc cs : let w := if (row + 1 =? 1) && (width =? 0) then Z.of_nat (length r) else width in
  ∃ k', foldl step (reading (Some r) ss row k width cd sk skc cs) (events [ETag (lit "row")]) =
    between ss (row + 1) k' w None sk skc (rev (cells_calls (row + 1) r ++ blanks (row + 1) (Z.of_nat (length r)) (Z.to_nat (w - Z.of_nat (length r))) ++
      [Row (row + 1) (Z.max w (Z.of_nat (length r)))]) ++ cs).
Proof.
  intros w. cbn [reading]. unfold events. cbn [map concat XmlDoc.report app foldl].
  destruct (row_end (R:=true) ss (row + 1) (Z.of_nat (length r)) width cd sk skc (rev (cells_calls (row + 1) r) ++ cs)) as [k' ->]. exists k'.
  fold w. f_equal. rewrite !rev_app_distr, <- !app_assoc. done.
Qed.

Lemma body_read ss sk skc os : ∀ h cur row k width cd cs, 0 <= row → row + Z.of_nat (length os) < 2 ^ 62 →
  ∃ row' k' width' cd', foldl step (reading cur ss row k width cd sk skc cs) (events (body (if cur is Some _ then true else false) h os)) =
    between ss row' k' width' cd' sk skc (rev (grid_calls (row + 1) width (rows_of cur os)) ++ cs).
Proof.
  induction os as [|o os IH]; intros h cur row k width cd cs Hr Hl.
  - destruct cur as [r|]; cbn [body rows_of grid_calls]; [|by exists row, k, width, cd].
    destruct (closed_read r ss row k width cd sk skc cs) as [k' E]. cbv zeta in E. rewrite app_nil_r. eexists _, _, _, _. exact E.
  - cbn [length] in Hl. cbn [body rows_of]. rewrite events_app, foldl_app. unfold op_tokens, op_open.
    destruct (cell_text o) as [t|] eqn:Ht.
    + rewrite events_app, foldl_app.
      assert ((if match cur with Some _ => true | None => false end then [] else [row_tag h (row_atts o)]) = match cur with Some _ => [] | None => [row_tag h (row_atts o)] end) as -> by (by destruct cur).
      rewrite opened_read by (lia || (destruct o; auto)). rewrite (next_cell_read _ _ _ _ _ _ _ _ _ o t Ht).
      apply (IH (op_height h o) (Some (default [] cur ++ [seen t]))); lia.
    + destruct o; try done; try (apply (IH _ cur); lia). cbn [op_height]. rewrite events_app, foldl_app.
      assert ((if match cur with Some _ => true | None => false end then [] else [row_tag h []]) = match cur with Some _ => [] | None => [row_tag h []] end) as -> by (by destruct cur).
      rewrite opened_read by (lia || auto). destruct (closed_read (default [] cur) ss row k width cd sk skc cs) as [k' ->]. cbn [grid_calls]. cbv zeta.
      set (w := if (row + 1 =? 1) && (width =? 0) then _ else width). set (c1 := _ ++ _ ++ [Row _ _]).
      destruct (IH h None (row + 1) k' w None (rev c1 ++ cs)) as (row' & k2 & width' & cd' & E); [lia|lia|].
      exists row', k2, width', cd'. cbn [reading] in E. rewrite E. f_equal. rewrite app_assoc, <- rev_app_distr. f_equal. f_equal. unfold c1. by rewrite <- !app_assoc.
Qed.

Lemma sheet_doc_read ss freeze cs os es : Z.of_nat (length os) < 2 ^ 62 → cuts (events (sheet_doc (before freeze cs) (body false 0 os))) es →
  read true false false (λ _, false) ss es = grid_calls 1 0 (rows_of None os).
Proof.
  intros Hl Hc. unfold read. rewrite (read_cuts _ _ _ Hc). unfold sheet_doc.
  change (events (STag (lit "worksheet") spaces :: before freeze cs ++ STag (lit "sheetData") [] :: body false 0 os ++ [ETag (lit "sheetData"); ETag (lit "worksheet")]))
    with (Start (lit "worksheet") spaces :: events (before freeze cs ++ [STag (lit "sheetData") []] ++ body false 0 os ++ [ETag (lit "sheetData"); ETag (lit "worksheet")])).
  cbn [foldl]. change (step (initial ss) (Start (lit "worksheet") spaces)) with {initial ss with h_start := Some FindSheetdata}.
  rewrite events_app, foldl_app, (others_read (events (before freeze cs))) by (done || apply before_other || by left).
  rewrite !events_app, foldl_app. change (foldl step {initial ss with h_start := Some FindSheetdata} (events [STag (lit "sheetData") []])) with (between ss 0 0 0 None [] 0 []).
  rewrite foldl_app. destruct (body_read ss [] 0 os 0 None 0 0 0 None []) as (row & k & width & cd & E); [lia|lia|]. cbn [reading] in E. rewrite E.
  rewrite app_nil_r. etrans; [|apply rev_involutive]. done.
Qed.
End Read.

(** *** What an application prints for the calls *)

(** Texts with a separator between them. *)
Definition joined (sep : ascii) (ts : list str) : str := match ts with [] => [] | t :: ts => t ++ concat (map (cons sep) ts) end.
Lemma joined_snoc sep ts t : joined sep (ts ++ [t]) = joined sep ts ++ (if (0 <? length ts)%nat then [sep] else []) ++ t.
Proof. destruct ts as [|u ts]; cbn; [by rewrite app_nil_r|]. rewrite map_app, concat_app, <- !app_assoc. cbn. by rewrite app_nil_r. Qed.

(** Short rows are filled up. *)
Definition padded (w : nat) (r : list (option str)) : list (option str) := r ++ replicate (w - length r) None.
Lemma blanks_cells i r n : cells_calls i r ++ blanks i (Z.of_nat (length r)) n = cells_calls i (r ++ replicate n None).
Proof.
  revert r. induction n as [|n IH]; intros r; [by rewrite !app_nil_r|]. cbn [replicate]. rewrite (cons_middle None r), app_assoc, <- IH, cells_snoc, <- app_assoc.
  f_equal. unfold blanks. cbn [seq map app]. f_equal; [f_equal; lia|]. rewrite <- seq_shift, map_map, length_app. apply map_ext. intros j. f_equal. simpl. lia.
Qed.

Section Printing.
(** A cell is printed behind a separator unless it is the first, a row by its end. *)
Variables (p : call → str) (sep : ascii) (f : option str → str) (e : str).
Hypothesis Hcell : ∀ i col v, p (Cell i col v) = (if 1 <? col then [sep] else []) ++ f v.
Hypothesis Hrow : ∀ i maxcol, p (Row i maxcol) = e.

Lemma printed_cells i r : concat (map p (cells_calls i r)) = joined sep (map f r).
Proof.
  induction r as [|v r IH] using rev_ind; [done|]. rewrite cells_snoc, !map_app, concat_app, IH. cbn [map]. rewrite joined_snoc. f_equal.
  cbn [concat]. rewrite Hcell, app_nil_r, length_map. f_equal. destruct r; [done|]. cbn [length]. by rewrite (proj2 (Z.ltb_lt _ _)) by lia.
Qed.

Definition printed_row (w : nat) (r : list (option str)) : str := joined sep (map f (padded w r)) ++ e.
Lemma printed_grid_from w rows : ∀ i, i ≠ 1 ∨ w ≠ 0%nat → 0 < i → concat (map p (grid_calls i (Z.of_nat w) rows)) = concat (map (printed_row w) rows).
Proof.
  induction rows as [|r rows IH]; intros i Hi Hp; [done|]. cbn [map grid_calls concat].
  assert ((i =? 1) && (Z.of_nat w =? 0) = false) as -> by (apply andb_false_iff; destruct Hi; [left|right]; apply Z.eqb_neq; lia).
  replace (Z.to_nat (Z.of_nat w - Z.of_nat (length r))) with (w - length r)%nat by lia.
  rewrite app_assoc, blanks_cells, !map_app, !concat_app, printed_cells. cbn [map concat]. rewrite Hrow, IH by lia. unfold printed_row, padded.
  by rewrite app_nil_r, <- app_assoc.
Qed.
(** The first row gives the width. *)
Lemma printed_grid rows : concat (map p (grid_calls 1 0 rows)) = concat (map (printed_row (default 0%nat (length <$> head rows))) rows).
Proof.
  destruct rows as [|r rows]; [done|]. cbn [head fmap option_fmap option_map default from_option id]. destruct (decide (length r = 0%nat)) as [Hr|Hr].
  - destruct r; [|done]. change (grid_calls 1 0 ([] :: rows)) with (Row 1 0 :: grid_calls 2 0 rows). cbn [map concat length].
    rewrite Hrow. f_equal. apply (printed_grid_from 0 rows 2); lia.
  - rewrite <- (printed_grid_from (length r) (r :: rows) 1) by lia. cbn [grid_calls]. change ((1 =? 1) && (0 =? 0)) with true.
    by rewrite (proj2 (Z.eqb_neq (Z.of_nat (length r)) 0)), andb_false_r by lia.
Qed.
End Printing.

(** ** From the calls of one application to those of another *)

(** A document without texts is read in one way. *)
Lemma parses_to expat ts : ParserLaws expat → well_formed ts = true → Forall (λ e, match e with Data _ => False | _ => True end) (events ts) →
  expat (document ts) = Some (events ts).
Proof. intros L Hw Hd. destruct (parser_reads ts Hw) as (es & E & Hc). by rewrite E, (cuts_no_data _ _ Hd Hc). Qed.

Lemma workbook_relid name : find_relid (Some name) (events (workbook_doc name)) = Some (Some (lit "rId3")).
Proof.
  assert (same_name name name = true) as Hs by (by apply bool_decide_eq_true).
  unfold workbook_doc, events. cbn [map concat report app find_relid]. names.
  change (get_expat_attr_by_name [(lit "name", name); at_ "sheetId" "1"; at_ "r:id" "rId3"] (lit "name")) with (Some name).
  change (get_expat_attr_by_name [(lit "name", name); at_ "sheetId" "1"; at_ "r:id" "rId3"] (lit "r:id")) with (Some (lit "rId3")).
  cbn [mbind option_bind]. rewrite Hs. reflexivity.
Qed.

(** The parts of the workbook lead to its one sheet. *)
Lemma workbook_parts part names t : part (lit "[Content_Types].xml") = Some (events content_types) →
  part (lit "_rels/workbook.xml.rels") = Some (events workbook_rels) → part (lit "workbook.xml") = Some (events (workbook_doc t)) →
  list_files_by_contenttype part names main_type = [lit "workbook.xml"] ∧ xlsxioread_list_sheets part names = [t] ∧
  Sheet.process_parts part names (Some t) = Some (None, Some (lit "sheet1.xml")).
Proof.
  intros E1 E2 E3.
  assert (list_files_by_contenttype part names main_type = [lit "workbook.xml"]) as Hfiles.
  { unfold list_files_by_contenttype. rewrite E1. vm_compute. reflexivity. }
  split; [done|]. split.
  - unfold xlsxioread_list_sheets. rewrite Hfiles. cbn [map concat]. rewrite E3. reflexivity.
  - unfold Sheet.process_parts. rewrite Hfiles. cbn [foldl mbind option_bind]. unfold main_sheet_get_sheetfile_callback.
    cbn [sheetrelid]. rewrite E3. change (default [] (Some (events (workbook_doc t)))) with (events (workbook_doc t)).
    rewrite workbook_relid. cbn [mbind option_bind].
    change (get_relationship_filename (lit "workbook.xml")) with (lit "_rels/workbook.xml.rels"). rewrite E2.
    match goal with |- context [find_files ?a ?b ?c ?d] =>
      assert (find_files a b c d = Some (Rels (Some (lit "rId3")) (Some (lit "sheet1.xml")) None)) as -> by (vm_compute; reflexivity)
    end. reflexivity.
Qed.

(** What is written is read back.  Whatever cells, columns, rows, row heights and numbers of
    buffered rows an application asks for, in any order, the writer makes an archive; and when its
    texts are XML texts, the reader finds in it the one sheet by its name and reports row by row, up to
    the width of the first, the cells that were written: texts without their carriage returns, integers
    and doubles in decimal, and nothing for an empty text or a cell without one. *)
Theorem written_is_read expat name os names : ParserLaws expat → Forall fits os → forallb xml_texts os = true →
  value_ok (title name) = true → Z.of_nat (length os) < 2 ^ 62 →
  ∃ archive, save name os = Some archive ∧
    let part f := stored archive f ≫= expat in
    xlsxioread_list_sheets part names = [title name] ∧
    Sheet.xlsxioread_process true false false (λ _, false) part names (Some (title name)) = Some (grid_calls 1 0 (rows_of None os)).
Proof.
  intros L Hf Hx Hn Hl. destruct (save_documents name os Hf) as (fr & cs & archive & Hs & H1 & H2 & H3 & H4). exists archive. split; [done|]. intros part.
  destruct (workbook_parts part names (title name)) as (_ & Hsheets & Hparts).
  - unfold part. rewrite H1. apply (parses_to expat); [done|apply content_types_doc|repeat constructor].
  - unfold part. rewrite H2. apply (parses_to expat); [done|apply workbook_rels_doc|repeat constructor].
  - unfold part. rewrite H3. apply (parses_to expat); [done|by apply workbook_doc_formed|repeat constructor].
  - split; [exact Hsheets|]. destruct (parser_reads _ (sheet_formed fr cs os Hx)) as (es & E4 & Hc).
    unfold Sheet.xlsxioread_process. rewrite Hparts. cbn [mbind option_bind]. unfold part at 1. rewrite H4. cbn [mbind option_bind]. rewrite E4.
    by rewrite (sheet_doc_read None fr cs os es Hl Hc).
Qed.

(** A workbook of two rows, read with the parser of [XmlDoc]. *)
Module Workbook.
Definition ops : list op :=
  [SetDetectionRows 1; AddColumn (Some (lit "name")) 0; AddColumn (Some (lit "a < b & c")) (-12); AddColumn (Some []) 3; NextRow;
   SetRowHeight 2; AddString (Some (lit "x" ++ crlf ++ xml "'y'")); AddInt (-7); AddFloat (S754_finite true 3 (-2)); NextRow; NextRow; AddDatetime 0; AddString None].
Definition rows : list (list (option str)) :=
  [[Some (lit "name"); Some (lit "a < b & c"); None]; [Some (lit "x" ++ [LF] ++ xml "'y'"); Some (lit "-7"); Some (lit "-0.75")]; [];
   [Some (lit "25569.00000577546"); None]].
End Workbook.

Lemma written_is_read_witness : ∃ archive, save (Some (lit "R&D")) Workbook.ops = Some archive ∧
  let part f := stored archive f ≫= Small.expat in
  xlsxioread_list_sheets part [] = [lit "R&D"] ∧
  Sheet.xlsxioread_process true false false (λ _, false) part [] (Some (lit "R&D")) = Some (grid_calls 1 0 Workbook.rows).
Proof.
  replace Workbook.rows with (rows_of None Workbook.ops) by (vm_compute; reflexivity).
  apply (written_is_read Small.expat (Some (lit "R&D")) Workbook.ops []).
  - exact Small.expat_laws.
  - repeat constructor; vm_compute; done.
  - vm_compute. reflexivity.
  - vm_compute. reflexivity.
  - vm_compute. reflexivity.
Defined.
End XlsxWriteSpec.
