(* ===== verification/Csv.v ===== *)
(** * The tools between CSV files and workbooks (tools/xlsxio/src)

    xlsxio_csv2xlsx reads a CSV file through a buffer and writes a workbook of one sheet;
    xlsxio_xlsx2csv writes a CSV file for each sheet of a workbook.  Both take switches and files in
    one list of arguments, where a switch counts for the files behind it.  Which files can be opened,
    and what is in them, is given by functions. *)
From coqutil Require Import Datatypes.RecordSetters.
From S2P Require Import Prelude CppString Decimal XlsxRead XlsxWrite.
Import OCamlLikeNotations XlsxRead XlsxWrite.

#[local] Open Scope Z_scope.

Module Csv.

(** ** Arguments *)

(** What a letter behind a [-] or a [/] means, where the options are an [O]. *)
Inductive switch (O : Type) := Help | Flag (o : O) | Takes (f : str → O) | NoSwitch.
Arguments Help {O}.
Arguments Flag {O} o.
Arguments Takes {O} f.
Arguments NoSwitch {O}.

(** [s[i]] of a C string [s] with at least [i] bytes, where the last byte is zero. *)
Definition char_at (s : str) (i : nat) : ascii := default NUL (s !! i).

(** The loop over [argv], which both programs have: the files, each with its options.  A parameter
    comes behind its letter or as the next argument. *)
Fixpoint arguments {O} (meaning : O → ascii → switch O) (argv : list str) (o : O) : list (O * str) :=
  match argv with
  | [] => []
  | a :: rest =>
      let file := (o, a) :: arguments meaning rest o in
      if bool_decide (char_at a 0 = "/"%char) || bool_decide (char_at a 0 = "-"%char) then
        match meaning o (lower (char_at a 1)) with
        | Help => []
        | Flag o => arguments meaning rest o
        | Takes f =>
            if decide (char_at a 2 ≠ NUL) then arguments meaning rest (f (drop 2 a))
            else match rest with
                 | p :: rest => arguments meaning rest (f p)
                 | [] => []
                 end
        | NoSwitch => file
        end
      else file
  end.

Definition BOM : str := [ascii_of_nat 239; ascii_of_nat 187; ascii_of_nat 191].

(** ** From a CSV file to a workbook *)
Module ToXlsx.
Definition BUFFER_SIZE : nat := 256.
Definition DEFAULT_DETECTION_ROWS : Z := 20.
Definition quote : ascii := QUOTE.

Record options := Options { separator : ascii; toprowheaders : bool; xlsxdetectionrows : Z }.

(** [strtol(param, NULL, 10)] *)
Definition strtol (s : str) : Z :=
  match read_int (skip_ws (c_str s)) with Some (n, _) => Z.max (- 2 ^ 63) (Z.min (2 ^ 63 - 1) n) | None => 0 end.

(*@ tools/xlsxio/src/xlsxio_csv2xlsx.c 83-112 main *)
Definition meaning (o : options) (letter : ascii) : switch options :=
  if decide (letter = "h"%char ∨ letter = "?"%char) then Help
  else if decide (letter = "s"%char) then Takes (λ param, {o with separator := char_at param 0})
  else if decide (letter = "d"%char) then Takes (λ param, {o with xlsxdetectionrows := u64 (strtol param)})
  else if decide (letter = "t"%char) then Flag {o with toprowheaders := true}
  else NoSwitch.

(** [value] is a null pointer where it is [None]; the text of the buffer from [bufstart] on is not in
    it yet.  [issued] are the calls of the writer so far. *)
(*@ tools/xlsxio/src/xlsxio_csv2xlsx.c 166-175 main *)
Record state := State {
  value : option str; bufstart : nat; bufpos : nat;
  unquoted : bool; lastchar : ascii; toprow : bool;
  issued : list op;
}.
Definition initial : state := State None 0 0 true NUL true [].

(** When there is memory. *)
(*@ tools/xlsxio/src/xlsxio_csv2xlsx.c 36-45 append_buffer_data *)
Definition append_buffer_data (data : option str) (bufferdata : str) : option str := Some (default [] data ++ bufferdata).

(** So many bytes of a buffer from a position on. *)
Definition bytes (buf : str) (from len : nat) : str := take len (drop from buf).

(** A text without the CR at its end. *)
Definition skip_cr (s : str) : str := if decide (last s = Some CR) then take (length s - 1) s else s.

Section Scan.
Variable o : options.

(** The end of a cell, and of a line. *)
(*@ tools/xlsxio/src/xlsxio_csv2xlsx.c 182-204 main *)
Definition end_of_cell (buf : str) (c : ascii) (s : state) : state :=
  let s := {s with value := append_buffer_data (value s) (bytes buf (bufstart s) (bufpos s - bufstart s)); bufstart := S (bufpos s)} in
  let s := if decide (c = LF) then {s with value := skip_cr <$> value s} else s in
  let call := if toprow s && toprowheaders o then AddColumn (value s) 0 else AddString (value s) in
  let s := {s with issued := issued s ++ [call]; value := None} in
  if decide (c = LF) then {s with issued := issued s ++ [NextRow]; toprow := false} else s.

(** [c] is [buf[bufpos]]. *)
(*@ tools/xlsxio/src/xlsxio_csv2xlsx.c 180-219 main *)
Definition process_char (buf : str) (s : state) (c : ascii) : state :=
  let len := (bufpos s - bufstart s)%nat in
  let s :=
    if unquoted s then
      if decide (c = separator o ∨ c = LF) then end_of_cell buf c s
      else if decide (c = quote) then
        {s with value := append_buffer_data (value s) (bytes buf (bufstart s) (len + (if decide (lastchar s = quote) then 1 else 0))%nat);
                bufstart := S (bufpos s); unquoted := false}
      else s
    else if decide (c = quote) then
      {s with value := append_buffer_data (value s) (bytes buf (bufstart s) len); bufstart := S (bufpos s); unquoted := true}
    else s in
  {s with lastchar := c; bufpos := S (bufpos s)}.

(** A buffer, and what of it is left for the next one. *)
(*@ tools/xlsxio/src/xlsxio_csv2xlsx.c 178-223 main *)
Definition process_buffer (buf : str) (s : state) : state :=
  let s := foldl (process_char buf) s buf in
  {s with value := append_buffer_data (value s) (bytes buf (bufstart s) (bufpos s - bufstart s)); bufstart := 0%nat; bufpos := 0%nat}.

(** [fread] gives a full buffer, or what is left of the file. *)
(*@ tools/xlsxio/src/xlsxio_csv2xlsx.c 176-224 main *)
Fixpoint process_file (fuel : nat) (src : str) (s : state) : option state :=
  match fuel with
  | O => None
  | S fuel =>
      match take BUFFER_SIZE src with
      | [] => Some s
      | buf => process_file fuel (drop BUFFER_SIZE src) (process_buffer buf s)
      end
  end.

(** Three bytes are read in any case; [fseek] fails without notice where the source is a pipe. *)
(*@ tools/xlsxio/src/xlsxio_csv2xlsx.c 161-165 main *)
Definition skip_bom (seekable : bool) (src : str) : str :=
  if decide (take 3 src = BOM) then drop 3 src else if seekable then src else drop 3 src.

(** The calls of the writer for one source, from its opening to its closing. *)
(*@ tools/xlsxio/src/xlsxio_csv2xlsx.c 157-226 main *)
Definition calls_of (seekable : bool) (src : str) : option (list op) :=
  let src := skip_bom seekable src in
  s ← process_file (S (length src)) src initial;
  Some (SetDetectionRows (xlsxdetectionrows o) :: SetRowHeight 1 :: issued s).
End Scan.

(** ** The names *)

(** Up to the last of a character, and what is behind it. *)
Definition before_last (c : ascii) (s : str) : str :=
  match index_of c (rev s) with Some i => take (length s - 1 - i) s | None => s end.
Definition after_last (c : ascii) (s : str) : str :=
  match index_of c (rev s) with Some i => drop (length s - i) s | None => s end.
(*@ tools/xlsxio/src/xlsxio_csv2xlsx.c 128-147 main *)
Definition sheetname_of (file : str) : str := after_last "/" (before_last "." file).
(*@ tools/xlsxio/src/xlsxio_csv2xlsx.c 148-154 main *)
Definition filename_of (file : str) : str := file ++ lit ".xlsx".

(** ** The program *)
Section Program.
(** The files that can be opened, and what comes from standard input, perhaps from a pipe. *)
Variable fopen : str → option str.
Variables (stdin : str) (seekable : bool).

(** A file that is written, or nothing where the source cannot be opened; [None] where the behaviour
    is undefined. *)
(*@ tools/xlsxio/src/xlsxio_csv2xlsx.c 114-230 main *)
Definition convert (o : options) (file : str) : option (list (str * list (str * str))) :=
  if decide (file = lit "-") then
    ops ← calls_of o seekable stdin;
    archive ← save (Some (lit "Sheet1")) ops;
    Some [(lit "data.xlsx", archive)]
  else
    match fopen file with
    | None => Some []
    | Some src =>
        ops ← calls_of o true src;
        archive ← save (Some (sheetname_of file)) ops;
        Some [(filename_of file, archive)]
    end.

(** The program name is not among the arguments. *)
(*@ tools/xlsxio/src/xlsxio_csv2xlsx.c 64-233 main *)
Definition main (argv : list str) : option (list (str * list (str * str))) :=
  @concat _ <$> mapM (λ '(o, file), convert o file) (arguments meaning argv (Options "," false DEFAULT_DETECTION_ROWS)).
End Program.
End ToXlsx.

(** ** From a workbook to CSV files *)
Module FromXlsx.

(*@ tools/xlsxio/src/xlsxio_xlsx2csv.c 30-38 xlsx_data *)
Record xlsx_data := XlsxData { nobom : bool; newline : str; separator : ascii; quote : ascii }.

(*@ tools/xlsxio/src/xlsxio_xlsx2csv.c 141-163 main *)
Definition meaning (d : xlsx_data) (letter : ascii) : switch xlsx_data :=
  if decide (letter = "h"%char ∨ letter = "?"%char) then Help
  else if decide (letter = "s"%char) then Takes (λ param, {d with separator := char_at param 0})
  else if decide (letter = "b"%char) then Flag {d with nobom := true}
  else if decide (letter = "n"%char) then Flag {d with newline := [LF] }
  else NoSwitch.

(*@ tools/xlsxio/src/xlsxio_xlsx2csv.c 40-45 sheet_row_callback *)
Definition sheet_row_callback (d : xlsx_data) : str := newline d.

(** [strchr] finds the zero byte at the end, too. *)
Definition strchr (s : str) (c : ascii) : bool := bool_decide (c = NUL) || bool_decide (c ∈ s).
Definition needs_quotes (d : xlsx_data) (value : str) : bool :=
  negb (bool_decide (quote d = NUL)) && (strchr value (quote d) || strchr value (separator d) || strchr value LF || strchr value CR).
Definition quoted (d : xlsx_data) (value : str) : str :=
  quote d :: concat (map (λ c, if decide (c = quote d) then [c; c] else [c]) value) ++ [quote d].
Definition value_text (d : xlsx_data) (value : str) : str := if needs_quotes d value then quoted d value else value.
(*@ tools/xlsxio/src/xlsxio_xlsx2csv.c 47-72 sheet_cell_callback *)
Definition sheet_cell_callback (d : xlsx_data) (col : Z) (value : option str) : str :=
  (if 1 <? col then [separator d] else []) ++ match value with Some v => value_text d v | None => [] end.

(** What a call prints. *)
Definition printed (d : xlsx_data) (c : call) : str :=
  match c with Cell _ col value => sheet_cell_callback d col value | Row _ _ => sheet_row_callback d end.

Section Program.
(** The workbooks that can be opened, as in XlsxRead.v, and the files that can be created. *)
Variable open : str → option ((str → option (list event)) * list str).
Variable creatable : str → bool.

(** The files that are written; [None] where the behaviour is undefined. *)
(*@ tools/xlsxio/src/xlsxio_xlsx2csv.c 74-104 xlsx_list_sheets_callback *)
Definition xlsx_list_sheets_callback (d : xlsx_data) (filename : str) (part : str → option (list event)) (names : list str) (name : str) :
    option (list (str * str)) :=
  let filename := filename ++ lit "." ++ name ++ lit ".csv" in
  if creatable filename then
    calls ← Sheet.xlsxioread_process true false false (λ _, false) part names (Some name);
    Some [(filename, (if nobom d then [] else BOM) ++ concat (map (printed d) calls))]
  else Some [].

(*@ tools/xlsxio/src/xlsxio_xlsx2csv.c 164-174 main *)
Definition convert (d : xlsx_data) (filename : str) : option (list (str * str)) :=
  match open filename with
  | Some (part, names) => @concat _ <$> mapM (xlsx_list_sheets_callback d filename part names) (xlsxioread_list_sheets part names)
  | None => Some []
  end.

(*@ tools/xlsxio/src/xlsxio_xlsx2csv.c 123-177 main *)
Definition main (argv : list str) : option (list (str * str)) :=
  @concat _ <$> mapM (λ '(d, filename), convert d filename) (arguments meaning argv (XlsxData false crlf "," QUOTE)).
End Program.
End FromXlsx.
End Csv.
