(* ===== verification/CsvSpec.v ===== *)
(** * A CSV file survives a workbook (properties of Csv.v)

    The scanner of xlsxio_csv2xlsx gives for a file, whatever its buffers, the calls of an automaton
    that reads one character at a time; what xlsxio_xlsx2csv prints is scanned to the cells it was
    printed from. *)
From coqutil Require Import Datatypes.RecordSetters.
From S2P Require Import Prelude CppString Decimal XlsxRead XlsxReadSpec XlsxWrite XmlDoc XlsxWriteSpec Csv.
Import OCamlLikeNotations XlsxRead XlsxReadSpec XlsxWrite XmlDoc XlsxWriteSpec Csv.

#[local] Open Scope Z_scope.

Module CsvSpec.
Import ToXlsx.
#[local] Arguments bytes : simpl never.
#[local] Arguments Nat.sub : simpl never.

(** ** The automaton *)
Record scanner := Scanner { text : str; outside : bool; before : ascii; top : bool; out : list op }.
Definition start : scanner := Scanner [] true NUL true [].

Section Automaton.
Variable o : options.

Definition cell_of_top (t : bool) (v : str) : op := if t && toprowheaders o then AddColumn (Some v) 0 else AddString (Some v).

Definition scan_char (a : scanner) (c : ascii) : scanner :=
  if outside a then
    if decide (c = LF) then Scanner [] true c false (out a ++ [cell_of_top (top a) (skip_cr (text a)); NextRow])
    else if decide (c = separator o) then Scanner [] true c (top a) (out a ++ [cell_of_top (top a) (text a)])
    else if decide (c = quote) then Scanner (text a ++ (if decide (before a = quote) then [c] else [])) false c (top a) (out a)
    else Scanner (text a ++ [c]) true c (top a) (out a)
  else if decide (c = quote) then Scanner (text a) true c (top a) (out a)
  else Scanner (text a ++ [c]) false c (top a) (out a).

(** ** The buffers do not matter *)

(** What of the buffer is not in the value yet. *)
Definition pending (buf : str) (s : state) : str := bytes buf (bufstart s) (bufpos s - bufstart s).
Definition matches (buf : str) (s : state) (a : scanner) : Prop :=
  (bufstart s <= bufpos s)%nat ∧ text a = default [] (value s) ++ pending buf s ∧
  outside a = unquoted s ∧ before a = lastchar s ∧ top a = toprow s ∧ out a = issued s.

Lemma bytes_snoc buf from len c : buf !! (from + len)%nat = Some c → bytes buf from (S len) = bytes buf from len ++ [c].
Proof. intros H. unfold bytes. rewrite <- lookup_drop in H. by rewrite (take_S_r _ _ _ H). Qed.
Lemma pending_snoc buf s c : (bufstart s <= bufpos s)%nat → buf !! bufpos s = Some c →
  bytes buf (bufstart s) (S (bufpos s) - bufstart s) = pending buf s ++ [c].
Proof.
  intros Hle Hc. unfold pending. rewrite <- bytes_snoc with (c := c).
  - f_equal. lia.
  - rewrite <- Hc. f_equal. lia.
Qed.
Lemma bytes_none buf from : bytes buf from (from - from) = [].
Proof. unfold bytes. by rewrite Nat.sub_diag. Qed.

Lemma char_matches buf s a c : matches buf s a → buf !! bufpos s = Some c →
  matches buf (process_char o buf s c) (scan_char a c) ∧ bufpos (process_char o buf s c) = S (bufpos s).
Proof.
  intros (Hle & Ht & Hq & Hb & Hp & Ho) Hc. pose proof (pending_snoc buf s c Hle Hc) as Hsnoc.
  destruct s as [v bs bp uq lc tr ws], a as [t ou be tp u]. cbn in *. subst ou be tp u t.
  unfold process_char, scan_char, end_of_cell, append_buffer_data, cell_of_top, pending in *. cbn [unquoted outside].
  assert (Hend : ∀ v' uq' c' tr' ws', matches buf (State (Some v') (S bp) (S bp) uq' c' tr' ws') (Scanner v' uq' c' tr' ws')).
  { intros. unfold matches, pending. cbn [bufstart bufpos value text outside unquoted before lastchar top toprow out issued default]. rewrite bytes_none, app_nil_r. by split_and!. }
  assert (Hfresh : ∀ uq' c' tr' ws', matches buf (State None (S bp) (S bp) uq' c' tr' ws') (Scanner [] uq' c' tr' ws')).
  { intros. unfold matches, pending. cbn [bufstart bufpos value text outside unquoted before lastchar top toprow out issued default]. rewrite bytes_none. by split_and!. }
  assert (Hgo : ∀ uq' c' tr' ws', matches buf (State v bs (S bp) uq' c' tr' ws') (Scanner ((default [] v ++ bytes buf bs (bp - bs)) ++ [c]) uq' c' tr' ws')).
  { intros. unfold matches, pending. cbn [bufstart bufpos value text]. rewrite Hsnoc, app_assoc. split_and!; [lia|done..]. }
  cbn in Hsnoc. destruct uq.
  - destruct (decide (c = LF)) as [-> |Hl].
    + rewrite decide_True by auto. cbv [constant]. cbn. rewrite <- app_assoc. split; [|done]. apply Hfresh.
    + destruct (decide (c = separator o)) as [-> |Hs].
      * rewrite decide_True by auto. cbv [constant]. cbn. split; [|done]. apply Hfresh.
      * rewrite decide_False by tauto. destruct (decide (c = quote)) as [-> |Hq]; [|cbv [constant]; cbn; split; [apply Hgo|done]].
        cbv [constant]. cbn. split; [|done].
        assert (bytes buf bs (bp - bs + (if decide (lc = quote) then 1 else 0)) = bytes buf bs (bp - bs) ++ (if decide (lc = quote) then [quote] else [])) as ->.
        { destruct (decide (lc = quote)); [|by rewrite Nat.add_0_r, app_nil_r]. rewrite <- Hsnoc. f_equal. lia. }
        rewrite app_assoc. apply Hend.
  - destruct (decide (c = quote)) as [-> |Hq']; cbv [constant]; cbn; (split; [|done]); [apply Hend|apply Hgo].
Qed.

Lemma chars_match buf rest : ∀ pre s a, buf = pre ++ rest → bufpos s = length pre → matches buf s a →
  matches buf (foldl (process_char o buf) s rest) (foldl scan_char a rest).
Proof.
  induction rest as [|c rest IH]; intros pre s a Hb Hp Hm; [done|]. cbn [foldl].
  assert (buf !! bufpos s = Some c) as Hc by (by rewrite Hb, Hp, list_lookup_middle).
  destruct (char_matches buf s a c Hm Hc) as [Hm' Hp']. apply (IH (pre ++ [c])); [by rewrite <- app_assoc| |done].
  rewrite Hp', Hp, length_app. cbn. lia.
Qed.

(** Between two buffers nothing is pending. *)
Definition between (s : state) (a : scanner) : Prop := bufstart s = 0%nat ∧ bufpos s = 0%nat ∧ ∀ buf, matches buf s a.

Lemma buffer_matches buf s a : between s a → between (process_buffer o buf s) (foldl scan_char a buf).
Proof.
  intros (H1 & H2 & Hm). destruct (chars_match buf buf [] s a) as (Hle & Ht & Hq & Hb & Hp & Ho); [done..|].
  unfold between, matches, process_buffer, append_buffer_data, pending in *. cbv [constant]. cbn. rewrite Ht.
  split_and!; [done..|]. intros buf'. rewrite bytes_none, app_nil_r. split_and!; [lia|done..].
Qed.

Lemma file_matches fuel src s a : (length src < fuel)%nat → between s a →
  ∃ s', process_file o fuel src s = Some s' ∧ issued s' = out (foldl scan_char a src).
Proof.
  revert src s a. induction fuel as [|fuel IH]; intros src s a Hl Hb; [lia|]. cbn [process_file].
  destruct (take BUFFER_SIZE src) as [|c buf] eqn:Ht.
  - destruct src; [|done]. exists s. split; [done|]. destruct Hb as (_ & _ & Hb). by destruct (Hb []) as (_ & _ & _ & _ & _ & Ho).
  - destruct (IH (drop BUFFER_SIZE src) (process_buffer o (c :: buf) s) (foldl scan_char a (c :: buf))) as (s' & E & Ho); [|by apply buffer_matches|].
    + rewrite length_drop. destruct src as [|x src]; [done|]. unfold BUFFER_SIZE. simpl length in *. lia.
    + exists s'. split; [done|]. by rewrite Ho, <- foldl_app, <- Ht, take_drop.
Qed.

(** The calls for a file are those of the automaton. *)
Lemma calls_scan seekable src : calls_of o seekable src =
  Some (SetDetectionRows (xlsxdetectionrows o) :: SetRowHeight 1 :: out (foldl scan_char start (skip_bom seekable src))).
Proof.
  unfold calls_of. set (src' := skip_bom seekable src). destruct (file_matches (S (length src')) src' initial start) as (s & E & Ho).
  - lia.
  - unfold between, matches. cbn. split_and!; [done..|]. intros buf. by split_and!.
  - rewrite E. cbn [mbind option_bind]. by rewrite Ho.
Qed.

Lemma out_grows src a : (length (out (foldl scan_char a src)) <= length (out a) + 2 * length src)%nat.
Proof.
  revert a. induction src as [|c src IH]; intros a; cbn [foldl]; [lia|]. pose proof (IH (scan_char a c)) as H. simpl length.
  assert (length (out (scan_char a c)) <= length (out a) + 2)%nat; [|lia].
  unfold scan_char. destruct (outside a); repeat case_decide; cbn [out]; rewrite ?length_app; simpl; lia.
Qed.
End Automaton.

(** ** What is printed is scanned *)
Section Print.
Variable o : options.
Variable d : FromXlsx.xlsx_data.

(** The two programs are given the same separator, and no special one. *)
Definition agree : Prop :=
  FromXlsx.separator d = separator o ∧ FromXlsx.quote d = quote ∧ (FromXlsx.newline d = [LF] ∨ FromXlsx.newline d = crlf) ∧
  separator o ∉ [quote; CR; LF; NUL].
Hypothesis H : agree.

Abbreviation scan := (foldl (scan_char o)).

Definition row_text (r : list str) : str := joined (separator o) (map (FromXlsx.value_text d) r) ++ FromXlsx.newline d.
Definition table_text (rows : list (list str)) : str := concat (map row_text rows).

Lemma special : separator o ≠ quote ∧ separator o ≠ CR ∧ separator o ≠ LF ∧ separator o ≠ NUL.
Proof. destruct H as (_ & _ & _ & Hs). rewrite !not_elem_of_cons in Hs. tauto. Qed.

Lemma scan_plain v t b tp ou : Forall (λ c, c ≠ LF ∧ c ≠ separator o ∧ c ≠ quote) v →
  ∃ b', scan (Scanner t true b tp ou) v = Scanner (t ++ v) true b' tp ou.
Proof.
  intros Hv. revert t b. induction Hv as [|c v (H1 & H2 & H3) Hv IH]; intros t b; [exists b; by rewrite app_nil_r|].
  destruct (IH (t ++ [c]) c) as [b' E]. exists b'. rewrite (cons_middle c t v), app_assoc, <- E. cbn [foldl]. f_equal.
  unfold scan_char. cbn. by rewrite !decide_False by done.
Qed.

Lemma scan_inside v t b tp ou : ∃ b',
  scan (Scanner t false b tp ou) (concat (map (λ c, if decide (c = quote) then [c; c] else [c]) v)) = Scanner (t ++ v) false b' tp ou.
Proof.
  destruct special as (Hsq & _). revert t b. induction v as [|c v IH]; intros t b; [exists b; by rewrite app_nil_r|].
  destruct (IH (t ++ [c]) c) as [b' E]. exists b'. rewrite (cons_middle c t v), app_assoc, <- E. cbn [map concat]. rewrite foldl_app. f_equal.
  destruct (decide (c = quote)) as [-> |Hc]; cbn [foldl]; unfold scan_char; cbn [outside].
  - rewrite (decide_True (P := quote = quote)) by done. cbn [outside before].
    rewrite (decide_False (P := quote = LF)) by done. rewrite (decide_False (P := quote = separator o)) by congruence.
    by rewrite !(decide_True (P := quote = quote)) by done.
  - by rewrite decide_False by done.
Qed.

Lemma scan_value v tp ou b : b ≠ quote → ∃ b', scan (Scanner [] true b tp ou) (FromXlsx.value_text d v) = Scanner v true b' tp ou.
Proof.
  destruct special as (Hsq & _). destruct H as (Es & Eq & _). intros Hb. unfold FromXlsx.value_text, FromXlsx.needs_quotes, FromXlsx.quoted. rewrite Es, Eq.
  destruct (negb (bool_decide (quote = NUL)) && _) eqn:Hn.
  - destruct (scan_inside v [] quote tp ou) as [b' E]. exists quote. cbn [foldl]. rewrite foldl_app.
    assert (scan_char o (Scanner [] true b tp ou) quote = Scanner [] false quote tp ou) as ->.
    { unfold scan_char. cbn [outside]. rewrite (decide_False (P := quote = LF)) by done. rewrite (decide_False (P := quote = separator o)) by congruence.
      rewrite (decide_True (P := quote = quote)) by done. cbn. by rewrite decide_False by done. }
    rewrite E. reflexivity.
  - apply (scan_plain v [] b). cbn [negb andb] in Hn. change (bool_decide (quote = NUL)) with false in Hn. cbn [negb andb] in Hn.
    rewrite !orb_false_iff in Hn. destruct Hn as [[[N1 N2] N3] _]. unfold FromXlsx.strchr in *. rewrite orb_false_iff, !bool_decide_eq_false in N1, N2, N3.
    apply Forall_forall. intros c Hc. split_and!; intros ->; tauto.
Qed.

Lemma scan_separator v b tp ou : scan_char o (Scanner v true b tp ou) (separator o) = Scanner [] true (separator o) tp (ou ++ [cell_of_top o tp v]).
Proof.
  destruct special as (_ & _ & Hs & _). unfold scan_char. cbn [outside]. rewrite decide_False by done.
  by rewrite (decide_True (P := separator o = separator o)) by done.
Qed.

Lemma skip_cr_none v : CR ∉ v → skip_cr v = v.
Proof. intros Hv. unfold skip_cr. rewrite decide_False; [done|]. intros E. apply Hv. apply last_Some in E as [l ->]. set_solver. Qed.
Lemma skip_cr_one v : skip_cr (v ++ [CR]) = v.
Proof. unfold skip_cr. rewrite last_snoc, decide_True by done. rewrite length_app. cbn. rewrite take_app_length'; [done|lia]. Qed.

Lemma scan_newline v b tp ou : CR ∉ v →
  scan (Scanner v true b tp ou) (FromXlsx.newline d) = Scanner [] true LF false (ou ++ [cell_of_top o tp v; NextRow]).
Proof.
  destruct special as (_ & Hs & _). intros Hv. destruct H as (_ & _ & [-> | ->] & _).
  - cbn [foldl]. unfold scan_char. cbn. by rewrite skip_cr_none.
  - unfold crlf. cbn [foldl]. assert (scan_char o (Scanner v true b tp ou) CR = Scanner (v ++ [CR]) true CR tp ou) as ->.
    { unfold scan_char. cbn [outside]. rewrite (decide_False (P := CR = LF)) by done. rewrite (decide_False (P := CR = separator o)) by congruence. done. }
    unfold scan_char. cbn. by rewrite skip_cr_one.
Qed.

(** ** The calls for a table *)
Definition row_ops (t : bool) (r : list str) : list op := map (cell_of_top o t) r ++ [NextRow].
Definition table_ops (rows : list (list str)) : list op :=
  match rows with [] => [] | r :: rows => row_ops true r ++ concat (map (row_ops false) rows) end.

Lemma scan_cells r v b tp ou : ∃ b' v', last (v :: r) = Some v' ∧
  scan (Scanner v true b tp ou) (concat (map (λ v, separator o :: FromXlsx.value_text d v) r)) =
    Scanner v' true b' tp (ou ++ map (cell_of_top o tp) (take (length r) (v :: r))).
Proof.
  revert v b ou. induction r as [|w r IH]; intros v b ou; [exists b, v; split; [done|]; cbn; by rewrite app_nil_r|].
  destruct special as (Hsq & _). destruct (scan_value w tp (ou ++ [cell_of_top o tp v]) (separator o) Hsq) as [b1 E1].
  destruct (IH w b1 (ou ++ [cell_of_top o tp v])) as (b2 & v' & Hl & E2). exists b2, v'. split; [by rewrite last_cons_cons|].
  cbn [map concat]. rewrite foldl_app. cbn [foldl]. rewrite scan_separator, E1, E2. cbn [length take map]. by rewrite <- app_assoc.
Qed.

Lemma scan_row r b tp ou : b ≠ quote → r ≠ [] → Forall (λ v, CR ∉ v) r →
  scan (Scanner [] true b tp ou) (row_text r) = Scanner [] true LF false (ou ++ row_ops tp r).
Proof.
  intros Hb Hr Hc. destruct r as [|v r]; [done|]. unfold row_text. cbn [map joined]. rewrite map_map, !foldl_app.
  destruct (scan_value v tp ou b Hb) as [b1 ->]. destruct (scan_cells r v b1 tp ou) as (b2 & v' & Hl & ->).
  apply last_Some in Hl as [l Hl]. rewrite Hl in Hc. rewrite scan_newline; [|by apply Forall_app in Hc as [_ [Hc _]%Forall_cons]].
  unfold row_ops. rewrite Hl, map_app, <- !app_assoc. assert (length l = length r) as <- by (apply (f_equal length) in Hl; rewrite length_app in Hl; simpl in Hl; lia).
  by rewrite take_app_length.
Qed.

Lemma scan_rows rows b ou : b ≠ quote → Forall (λ r, r ≠ [] ∧ Forall (λ v, CR ∉ v) r) rows →
  out (scan (Scanner [] true b false ou) (table_text rows)) = ou ++ concat (map (row_ops false) rows).
Proof.
  intros Hb Hr. revert b Hb ou. induction Hr as [|r rows [Hn Hc] Hr IH]; intros b Hb ou; [by rewrite app_nil_r|].
  unfold table_text in *. cbn [map concat]. rewrite foldl_app, scan_row by done. rewrite IH by done. by rewrite <- app_assoc.
Qed.
Lemma scan_table rows : Forall (λ r, r ≠ [] ∧ Forall (λ v, CR ∉ v) r) rows → out (scan start (table_text rows)) = table_ops rows.
Proof.
  intros Hr. destruct Hr as [|r rows [Hn Hc] Hr]; [done|]. unfold table_text. cbn [map concat]. rewrite foldl_app. unfold start. rewrite scan_row by done.
  apply scan_rows; done.
Qed.

(** ** The cells of a table come back *)

(** What an XML document can hold, and an [int] can measure. *)
Definition cell_ok (v : str) : Prop := text_ok v = true ∧ 6 * size v < 2 ^ 31.
Definition table_ok (rows : list (list str)) : Prop := Forall (λ r, r ≠ [] ∧ Forall cell_ok r) rows.
Definition back (v : str) : option str := seen (Some v).

Lemma no_cr_id v : CR ∉ v → no_cr v = v.
Proof.
  unfold no_cr. induction v as [|c v IH]; [done|]. intros [Hc Hv]%not_elem_of_cons. rewrite filter_cons_True by congruence. by rewrite IH.
Qed.
Lemma text_ok_plain v : text_ok v = true → CR ∉ v ∧ no_cr (c_str v) = v.
Proof.
  intros Hv. split; [by apply text_ok_no_cr|].
  rewrite (c_str_no_nul v) by (by apply text_ok_no_nul). by apply no_cr_id, text_ok_no_cr.
Qed.
Lemma cell_of_top_text t v : cell_ok v → cell_text (cell_of_top o t v) = Some (Some v) ∧ fits (cell_of_top o t v) ∧ xml_texts (cell_of_top o t v) = true.
Proof.
  intros [Hv Hs]. destruct (text_ok_plain v Hv) as [_ E]. assert (c_str v = v) as Ec by (by apply c_str_no_nul, text_ok_no_nul).
  unfold cell_of_top. destruct (t && toprowheaders o); cbn; rewrite E, ?Ec; done.
Qed.

Lemma rows_of_row t r os cur : Forall cell_ok r → rows_of cur (row_ops t r ++ os) = (default [] cur ++ map back r) :: rows_of None os.
Proof.
  intros Hr. revert cur. induction Hr as [|v r Hv Hr IH]; intros cur; [cbn; by rewrite app_nil_r|]. unfold row_ops in *.
  cbn [map app rows_of]. destruct (cell_of_top_text t v Hv) as (-> & _). rewrite IH. cbn. by rewrite <- app_assoc.
Qed.
Lemma table_ops_rows rows : table_ok rows → rows_of None (table_ops rows) = map (map back) rows.
Proof.
  intros Hr. destruct Hr as [|r rows [_ Hc] Hr]; [done|]. cbn [table_ops map]. rewrite rows_of_row by done. cbn [default app]. f_equal.
  induction Hr as [|r' rows [_ Hc'] Hr IH]; [done|]. cbn [map concat]. rewrite rows_of_row by done. cbn [default app]. by rewrite IH.
Qed.

Lemma row_ops_ok t r : Forall cell_ok r → Forall (λ c, fits c ∧ xml_texts c = true) (row_ops t r).
Proof.
  intros Hr. apply Forall_app. split; [|by repeat constructor]. apply Forall_map. eapply Forall_impl; [exact Hr|]. intros v Hv. apply (cell_of_top_text t v Hv).
Qed.
Lemma table_ops_ok rows : table_ok rows → Forall (λ c, fits c ∧ xml_texts c = true) (table_ops rows).
Proof.
  intros Hr. destruct Hr as [|r rows [_ Hc] Hr]; [done|]. cbn [table_ops]. apply Forall_app. split; [by apply row_ops_ok|].
  apply Forall_concat, Forall_map. eapply Forall_impl; [exact Hr|]. intros r' [_ Hc']. by apply row_ops_ok.
Qed.

(** ** And are printed *)
Lemma value_text_nil : FromXlsx.value_text d [] = [].
Proof.
  destruct special as (_ & _ & _ & Hs). destruct H as (Es & Eq & _). unfold FromXlsx.value_text, FromXlsx.needs_quotes, FromXlsx.strchr.
  rewrite Es, Eq, (bool_decide_eq_false_2 (separator o = NUL)) by done. done.
Qed.
(** Short rows are filled up. *)
Definition filled (rows : list (list str)) : list (list str) :=
  map (λ r, r ++ replicate (default 0%nat (length <$> head rows) - length r) []) rows.

Lemma printed_table rows : concat (map (FromXlsx.printed d) (grid_calls 1 0 (map (map back) rows))) = table_text (filled rows).
Proof.
  set (f := λ v, match v with Some v => FromXlsx.value_text d v | None => [] end).
  assert (∀ v, f (back v) = FromXlsx.value_text d v) as Hf by (intros [|c v]; [by rewrite value_text_nil|done]).
  rewrite (printed_grid _ (separator o) f (FromXlsx.newline d)); [|intros i col v; by rewrite <- (proj1 H)|done].
  unfold table_text, filled. rewrite !map_map. f_equal. apply map_ext. intros r. unfold printed_row, row_text, padded. do 2 f_equal.
  assert (length <$> head (map (map back) rows) = length <$> head rows) as -> by (destruct rows; cbn; by rewrite ?length_map).
  rewrite length_map, !map_app, map_map. f_equal; [by apply map_ext|].
  generalize (default 0%nat (length <$> head rows) - length r)%nat. intros n. induction n; [done|]. cbn. rewrite value_text_nil. by f_equal.
Qed.

(** ** There and back *)

(** The file that is written: its signature is taken for one when the tool is told to write none. *)
Definition csv_file (rows : list (list str)) : str := (if FromXlsx.nobom d then [] else BOM) ++ table_text rows.
Definition unsigned (rows : list (list str)) : Prop := FromXlsx.nobom d = true → take 3 (table_text rows) ≠ BOM.

Lemma skip_bom_file rows : unsigned rows → skip_bom true (csv_file rows) = table_text rows.
Proof.
  unfold skip_bom, csv_file, unsigned. destruct (FromXlsx.nobom d); intros Hu.
  - by rewrite decide_False by auto.
  - by rewrite decide_True by done.
Qed.

Lemma calls_of_file rows : table_ok rows → unsigned rows →
  calls_of o true (csv_file rows) = Some (SetDetectionRows (xlsxdetectionrows o) :: SetRowHeight 1 :: table_ops rows).
Proof.
  intros Hr Hu. rewrite calls_scan, skip_bom_file by done. f_equal. f_equal. f_equal. apply scan_table. eapply Forall_impl; [exact Hr|].
  intros r [Hn Hc]. split; [done|]. eapply Forall_impl; [exact Hc|]. intros v [Hv _]. by apply text_ok_no_cr.
Qed.

Lemma table_ops_length rows : table_ok rows → (length (table_ops rows) <= 2 * length (table_text rows))%nat.
Proof.
  intros Hr. rewrite <- scan_table; [apply (out_grows o _ start)|]. eapply Forall_impl; [exact Hr|].
  intros r [Hn Hc]. split; [done|]. eapply Forall_impl; [exact Hc|]. intros v [Hv _]. by apply text_ok_no_cr.
Qed.
End Print.

(** C32: a CSV file survives a workbook.  A file that has the text of a table, with any of the line ends,
    with or without a signature, its cells quoted where they must be, is made into a workbook by
    xlsxio_csv2xlsx, with or without a header row and however many rows are measured; and from the
    workbook xlsxio_xlsx2csv writes a file with the same bytes, where rows that are shorter than the
    first one are filled up.  The cells are texts of XML in less than 2^31 / 6 bytes. *)
Theorem csv_roundtrip expat names (fopen : str → option str) stdin seekable creatable o d file rows :
  ParserLaws expat → agree o d → table_ok rows → unsigned o d rows → 0 <= xlsxdetectionrows o → size (table_text o d rows) < 2 ^ 60 →
  file ≠ lit "-" → fopen file = Some (csv_file o d rows) → value_ok (title (Some (sheetname_of file))) = true →
  let csv := filename_of file ++ lit "." ++ title (Some (sheetname_of file)) ++ lit ".csv" in
  creatable csv = true →
  ∃ archive, ToXlsx.convert fopen stdin seekable o file = Some [(filename_of file, archive)] ∧
    ∀ open, open (filename_of file) = Some (λ f, stored archive f ≫= expat, names) →
      FromXlsx.convert open creatable d (filename_of file) = Some [(csv, csv_file o d (filled rows))].
Proof.
  intros L Ha Hr Hu Hn Hs Hf Ho Ht csv Hc. pose proof (table_ops_ok o rows Hr) as Hops. pose proof (table_ops_length o d Ha rows Hr) as Hl.
  assert (Forall fits (SetDetectionRows (xlsxdetectionrows o) :: SetRowHeight 1 :: table_ops o rows)) as Hfits.
  { repeat constructor; [done|]. eapply Forall_impl; [exact Hops|]. by intros c []. }
  destruct (written_is_read expat (Some (sheetname_of file)) (SetDetectionRows (xlsxdetectionrows o) :: SetRowHeight 1 :: table_ops o rows) names L Hfits)
    as (archive & Hsave & Hlist & Hread); [|done| |].
  - cbn [forallb xml_texts andb]. apply forallb_forall. intros c Hin%list_elem_of_In. rewrite Forall_forall in Hops. by apply Hops.
  - unfold size in Hs. simpl length. lia.
  - exists archive. unfold ToXlsx.convert. rewrite decide_False, Ho, (calls_of_file o d Ha) by done. cbn [mbind option_bind]. rewrite Hsave.
    split; [done|]. intros open Hopen. unfold FromXlsx.convert. rewrite Hopen, Hlist. cbn [mapM]. unfold FromXlsx.xlsx_list_sheets_callback.
    fold csv. rewrite Hc, Hread. cbn [mbind option_bind mret option_ret fmap option_fmap option_map concat app]. do 3 f_equal. unfold csv_file. f_equal.
    change (rows_of None (SetDetectionRows (xlsxdetectionrows o) :: SetRowHeight 1 :: table_ops o rows)) with (rows_of None (table_ops o rows)).
    by rewrite table_ops_rows, (printed_table o d Ha).
Qed.

(** ** Tables *)
Module Tables.
Definition o : options := Options ";" true DEFAULT_DETECTION_ROWS.
Definition d : FromXlsx.xlsx_data := FromXlsx.XlsxData false crlf ";" QUOTE.
Definition rows : list (list str) :=
  [[lit "name"; lit "a;b"; []]; [xml "'x'"; lit "1 < 2" ++ [LF] ++ lit "& more"]; [[]]].
Definition name : str := lit "data/t.csv".
Definition fopen (f : str) : option str := if decide (f = name) then Some (csv_file o d rows) else None.
(** The workbooks that a run has written. *)
Definition open (written : list (str * list (str * str))) (f : str) : option ((str → option (list event)) * list str) :=
  '(_, archive) ← List.find (λ p, bool_decide (p.1 = f)) written;
  Some (λ p, stored archive p ≫= Small.expat, []).
Definition plain : options := Options "," false DEFAULT_DETECTION_ROWS.
End Tables.
Import Tables.

Lemma csv_roundtrip_witness :
  filled rows = [[lit "name"; lit "a;b"; []]; [xml "'x'"; lit "1 < 2" ++ [LF] ++ lit "& more"; []]; [[]; []; []]] ∧
  let csv := filename_of name ++ lit "." ++ title (Some (sheetname_of name)) ++ lit ".csv" in
  ∃ archive, ToXlsx.convert fopen [] false o name = Some [(filename_of name, archive)] ∧
    ∀ open, open (filename_of name) = Some (λ f, stored archive f ≫= Small.expat, []) →
      FromXlsx.convert open (λ _, true) d (filename_of name) = Some [(csv, csv_file o d (filled rows))].
Proof.
  split; [vm_compute; reflexivity|]. intros csv. apply (csv_roundtrip Small.expat [] fopen [] false (λ _, true) o d name rows).
  - exact Small.expat_laws.
  - split_and!; [done|done|by right|]. apply (bool_decide_unpack _). vm_compute. exact I.
  - repeat constructor; done.
  - done.
  - done.
  - vm_compute. reflexivity.
  - done.
  - vm_compute. reflexivity.
  - vm_compute. reflexivity.
  - done.
Defined.

(** The programs with their arguments, one after the other. *)
Example both_programs :
  (written ← ToXlsx.main fopen [] false [lit "-s;"; lit "-T"; lit "missing.csv"; name];
   FromXlsx.main (open written) (λ _, true) [lit "-s"; lit ";"; lit "data/t.csv.xlsx"]) =
  Some [(lit "data/t.csv.xlsx.t.csv", csv_file o d (filled rows))].
Proof. vm_compute. reflexivity. Qed.

(** A cell is only written at its end: the last one is lost where the file does not end with a line end. *)
Example last_cell_lost : calls_of plain true (lit "a,b") = Some [SetDetectionRows 20; SetRowHeight 1; AddString (Some (lit "a"))].
Proof. vm_compute. reflexivity. Qed.

(** From a pipe the first three bytes are lost where they are no signature. *)
Example piped : calls_of plain false (lit "name" ++ [LF]) = Some [SetDetectionRows 20; SetRowHeight 1; AddString (Some (lit "e")); NextRow].
Proof. vm_compute. reflexivity. Qed.

(** A CR at the end of a quoted cell is taken for one of the line end. *)
Example quoted_cr : calls_of plain true ([QUOTE] ++ lit "x" ++ [CR; QUOTE; LF]) = Some [SetDetectionRows 20; SetRowHeight 1; AddString (Some (lit "x")); NextRow].
Proof. vm_compute. reflexivity. Qed.

(** The name of the sheet is cut at a dot in the name of a directory; and an absolute path that begins
    with one of the letters of the switches is taken for a switch. *)
Example names_of_files : sheetname_of (lit "v1.0/data") = lit "v1" ∧
  arguments ToXlsx.meaning [lit "/tmp/a.csv"; lit "b.csv"; lit "/home/c.csv"; lit "d.csv"] plain = [(Options "," true 20, lit "b.csv")].
Proof. vm_compute. done. Qed.
End CsvSpec.
