(* ===== verification/ExcelToMysql.v ===== *)
(** * The tool that prints a workbook (tools/excel_to_mysql)

    [XLSXIOReader] of excel_to_mysql.hpp lists the sheets of a workbook and prints the cells of the
    first one, separated by tabs; the file is the one the program names. *)
From S2P Require Import Prelude CppString Decimal XlsxRead XlsxReadSpec XlsxWrite XmlDoc XlsxWriteSpec.
Import XlsxRead XlsxReadSpec XlsxWrite XmlDoc XlsxWriteSpec.

#[local] Open Scope Z_scope.

Module ExcelToMysql.
Definition TAB : ascii := ascii_of_nat 9.

(** [firstsheet] and what is printed, for one name. *)
(*@ tools/excel_to_mysql/excel_to_mysql.hpp 159-166 xlsx_list_sheets_callback *)
Definition xlsx_list_sheets_callback (s : option str * str) (name : str) : option str * str :=
  (match s.1 with Some f => Some f | None => Some name end, s.2 ++ lit " - " ++ name ++ [LF]).
(*@ tools/excel_to_mysql/excel_to_mysql.hpp 149-152 list_sheets *)
Definition list_sheets (part : str → option (list event)) (names : list str) : option str * str :=
  foldl xlsx_list_sheets_callback (None, []) (xlsxioread_list_sheets part names).

(*@ tools/excel_to_mysql/excel_to_mysql.hpp 169-173 sheet_row_callback *)
Definition sheet_row_callback : str := [LF].
(*@ tools/excel_to_mysql/excel_to_mysql.hpp 176-183 sheet_cell_callback *)
Definition sheet_cell_callback (col : Z) (value : option str) : str := (if 1 <? col then [TAB] else []) ++ default [] value.
Definition printed (c : call) : str := match c with Cell _ col value => sheet_cell_callback col value | Row _ _ => sheet_row_callback end.
(*@ tools/excel_to_mysql/excel_to_mysql.hpp 154-157 process_data *)
Definition process_data (part : str → option (list event)) (names : list str) (firstsheet : option str) : option str :=
  calls ← Sheet.xlsxioread_process true false false (λ _, false) part names firstsheet; Some (concat (map printed calls)).

(** The standard output; [None] where the behaviour is undefined: the reader goes on with a null
    pointer where the workbook cannot be opened. *)
(*@ tools/excel_to_mysql/excel_to_mysql.cpp 3-17 start_report *)
Definition start_report (open : str → option ((str → option (list event)) * list str)) : option str :=
  '(part, names) ← open (lit "mexic_price.xlsx");
  let '(firstsheet, listed) := list_sheets part names in
  text ← process_data part names firstsheet;
  Some (listed ++ text).

(** ** What it prints of a workbook that was written *)

(** A line of the table: its cells with tabs between, and as many as in the first row. *)
Definition line (w : nat) (r : list (option str)) : str := joined TAB (map (default []) (padded w r)) ++ [LF].
Definition lines (rows : list (list (option str))) : str := concat (map (line (default 0%nat (length <$> head rows))) rows).

Lemma lines_printed rows : concat (map printed (grid_calls 1 0 rows)) = lines rows.
Proof. by apply (printed_grid printed TAB (default []) [LF]). Qed.

(** Of any workbook that an application has written the program prints the name of the sheet and the
    rows. *)
Theorem start_report_prints expat os name names : ParserLaws expat → Forall fits os → forallb xml_texts os = true →
  value_ok (title name) = true → Z.of_nat (length os) < 2 ^ 62 →
  ∃ archive, save name os = Some archive ∧
    ∀ open, open (lit "mexic_price.xlsx") = Some (λ f, stored archive f ≫= expat, names) →
      start_report open = Some (lit " - " ++ title name ++ [LF] ++ lines (rows_of None os)).
Proof.
  intros L Hf Hx Hn Hl. destruct (written_is_read expat name os names L Hf Hx Hn Hl) as (archive & Hs & Hlist & Hread). exists archive. split; [done|].
  intros open Ho. unfold start_report. rewrite Ho. cbn [mbind option_bind]. unfold list_sheets. rewrite Hlist. cbn [foldl].
  unfold xlsx_list_sheets_callback, process_data. cbn [fst snd]. rewrite Hread. cbn [mbind option_bind]. rewrite lines_printed. by rewrite app_nil_l, <- !app_assoc.
Qed.

(** Without the workbook the null pointer is followed. *)
Example no_workbook : start_report (λ _, None) = None.
Proof. reflexivity. Qed.
Example prints_workbook :
  (archive ← save (Some (lit "R&D")) Workbook.ops; start_report (λ _, Some (λ f, stored archive f ≫= Small.expat, []))) =
  Some (lit " - R&D" ++ [LF] ++ lines Workbook.rows).
Proof. vm_compute. reflexivity. Qed.
End ExcelToMysql.
