(* ===== verification/XlsxPull.v ===== *)
(** * Pulling a worksheet (tools/xlsxio/lib/xlsxio_read.c, the interface without callbacks)

    The application asks for the next row and the next cell; the parser is suspended whenever there is
    one, and resumed for the next.  Rows and cells that the sheet leaves out are made up between. *)
From Stdlib Require Import Floats.SpecFloat.
From coqutil Require Import Datatypes.RecordSetters.
From S2P Require Import Prelude CppString Decimal XlsxRead XlsxWrite.
Import OCamlLikeNotations XlsxRead.

#[local] Open Scope Z_scope.

Module XlsxPull.
Import Sheet.

(** ** A parser that is suspended

    The document that is left is a list of groups: a parser that is asked to stop by a handler still
    reports the end of an empty element, so that the two are one group.  [deliver] is what handlers
    make of a group, and whether one of them suspends the parser.  Resuming says whether the parser is
    suspended again; it is not at the end, nor where the file cannot be read. *)
(*@ tools/xlsxio/lib/xlsxio_read.c 87-104 expat_process_zip_file_resume *)
Fixpoint expat_process_zip_file_resume {D} (deliver : D → list event → D * bool) (zipfile : list (list event)) (d : D) : bool * list (list event) * D :=
  match zipfile with
  | [] => (false, [], d)
  | g :: rest => let '(d, suspended) := deliver d g in
                 if suspended then (true, rest, d) else expat_process_zip_file_resume deliver rest d
  end.

(** ** The names of the sheets *)

(** [zipfile] is [None] where the part cannot be opened. *)
(*@ tools/xlsxio/lib/xlsxio_read.c 1075-1081 xlsxio_read_sheetlist_struct *)
Record sheetlist := SheetList { names_left : option (list (list event)); nextsheetname : option str }.

(*@ tools/xlsxio/lib/xlsxio_read.c 1083-1090 xlsxioread_list_sheets_resumable_callback *)
Definition list_deliver (next : option str) (g : list event) : option str * bool :=
  foldl (λ '(next, suspended) e, match sheet_name e with n :: _ => (Some n, true) | [] => (next, suspended) end) (next, false) g.

(** The last part with the content type. *)
(*@ tools/xlsxio/lib/xlsxio_read.c 1092-1120 xlsxioread_sheetlist_open *)
Definition xlsxioread_sheetlist_open (part : str → option (list (list event))) (names : list str) : option sheetlist :=
  mainsheetfile ← last (list_files_by_contenttype (λ f, @concat _ <$> part f) names main_type);
  Some (SheetList (part mainsheetfile) None).

(*@ tools/xlsxio/lib/xlsxio_read.c 1135-1146 xlsxioread_sheetlist_next *)
Definition xlsxioread_sheetlist_next (s : sheetlist) : option str * sheetlist :=
  match names_left s with
  | None => (None, s)
  | Some zipfile =>
      let '(suspended, rest, next) := expat_process_zip_file_resume list_deliver zipfile None in
      (if suspended : bool then next else None, SheetList (Some rest) next)
  end.

(** ** The rows and cells of a sheet *)
(*@ tools/xlsxio/lib/xlsxio_read.c 1011-1019 xlsxio_read_sheet_struct *)
Record sheet := MkSheet {
  processcallbackdata : data; zipfile : list (list event);
  lastrownr : Z; paddingrow : Z; lastcolnr : Z; paddingcol : Z;
}.

Section Pull.
Variables SKIP_EMPTY_ROWS SKIP_EMPTY_CELLS SKIP_EXTRA_CELLS : bool.

Abbreviation handle := (dispatch true SKIP_EMPTY_ROWS SKIP_EMPTY_CELLS SKIP_EXTRA_CELLS (λ _, false)).
Definition deliver (d : data) (g : list event) : data * bool :=
  let d := foldl handle {d with stopped := false} g in (d, stopped d).
Definition resume (s : sheet) : bool * sheet :=
  let '(suspended, rest, d) := expat_process_zip_file_resume deliver (zipfile s) (processcallbackdata s) in
  (suspended, {s with processcallbackdata := d; zipfile := rest}).

(** [None] where [stricmp] is given a null pointer; nothing is read where the part cannot be opened. *)
(*@ tools/xlsxio/lib/xlsxio_read.c 1150-1163 xlsxioread_sheet_open *)
Definition xlsxioread_sheet_open (part : str → option (list (list event))) (names : list str) (sheetname : option str) : option sheet :=
  '(strings, sheetfile) ← process_parts (λ f, @concat _ <$> part f) names sheetname;
  Some (MkSheet (initial strings) (default [] (f ← sheetfile; part f)) 0 0 0 0).

(** The loop to the beginning of a row; each turn takes something of the document. *)
Fixpoint row_loop (fuel : nat) (s : sheet) : bool * sheet :=
  match fuel with
  | O => (false, s)
  | S fuel =>
      let '(suspended, s) := resume s in
      if suspended && negb (colnr (processcallbackdata s) =? 0) then row_loop fuel s else (suspended, s)
  end.
(*@ tools/xlsxio/lib/xlsxio_read.c 1177-1197 xlsxioread_sheet_next_row *)
Definition xlsxioread_sheet_next_row (s : sheet) : Z * sheet :=
  let s := {s with lastcolnr := 0} in
  if negb (paddingrow s =? 0) then
    if paddingrow s <? rownr (processcallbackdata s) then (3, s) else (2, {s with paddingrow := 0})
  else
    let '(suspended, s) := row_loop (S (length (zipfile s))) {s with paddingcol := 0} in
    (if suspended : bool then 1 else 0, s).

Definition set_celldata (v : option str) (s : sheet) : sheet :=
  {s with processcallbackdata := {processcallbackdata s with celldata := v}}.

(** It calls itself behind setting [paddingcol], and then once. *)
Fixpoint next_cell (fuel : nat) (s : sheet) : option str * sheet :=
  match fuel with
  | O => (None, s)
  | S fuel =>
      if negb (paddingcol s =? 0) then
        if cols (processcallbackdata s) <? paddingcol s then
          let s := {s with paddingcol := 0} in
          let s :=
            if negb (paddingrow s =? 0) then
              let s := {s with lastrownr := u64 (lastrownr s + 1); paddingrow := u64 (paddingrow s + 1)} in
              if u64 (paddingrow s + 1) <? rownr (processcallbackdata s) then {s with paddingcol := 1} else s
            else s in
          (None, s)
        else (Some [], {s with paddingcol := u64 (paddingcol s + 1)})
      else
        let s := match celldata (processcallbackdata s) with
                 | Some _ => s
                 | None => let '(suspended, s) := resume s in if suspended : bool then s else set_celldata None s
                 end in
        if negb SKIP_EMPTY_ROWS && (u64 (lastrownr s + 1) <? rownr (processcallbackdata s)) then
          next_cell fuel {s with paddingrow := u64 (lastrownr s + 1); paddingcol := 1}
        else if negb SKIP_EMPTY_CELLS && (u64 (lastcolnr s + 1) <? colnr (processcallbackdata s)) then
          (Some [], {s with lastcolnr := u64 (lastcolnr s + 1)})
        else
          let result := celldata (processcallbackdata s) in
          let s := set_celldata None s in
          match result with
          | None =>
              let s := {s with lastrownr := rownr (processcallbackdata s)} in
              if negb SKIP_EMPTY_CELLS && (colnr (processcallbackdata s) <? cols (processcallbackdata s)) then
                next_cell fuel {s with paddingcol := u64 (lastcolnr s + 1)}
              else (None, {s with lastcolnr := colnr (processcallbackdata s)})
          | Some v => (Some v, {s with lastcolnr := colnr (processcallbackdata s)})
          end
  end.
(*@ tools/xlsxio/lib/xlsxio_read.c 1199-1254 xlsxioread_sheet_next_cell *)
Definition xlsxioread_sheet_next_cell (s : sheet) : option str * sheet := next_cell 2 s.

(** ** Values

    What the calls return with a place for the value: the value where there is a cell. *)

(** [sscanf] with [%li]: hexadecimal and octal numbers by their prefixes; what is no number is 0. *)
Definition base_digit (base : Z) (c : ascii) : option Z :=
  let d := if is_digit c then Some (dval c)
           else if upper_letter c then Some (code c - 55) else if lower_letter c then Some (code c - 87) else None in
  d ← d; if d <? base then Some d else None.
Fixpoint span_base (base : Z) (s : str) : list Z * str :=
  match s with
  | c :: r => match base_digit base c with Some d => let '(ds, t) := span_base base r in (d :: ds, t) | None => ([], s) end
  | [] => ([], [])
  end.
Definition base_value (base : Z) (ds : list Z) : Z := foldl (λ a d, base * a + d) 0 ds.
Definition sign (s : str) : bool * str :=
  match s with
  | c :: r => if decide (c = "-"%char) then (true, r) else if decide (c = "+"%char) then (false, r) else (false, s)
  | [] => (false, [])
  end.
Definition scan_i (s : str) : Z :=
  let '(negative, s) := sign (skip_ws s) in
  let n := match s with
           | c :: r =>
               if decide (c = "0"%char) then
                 match r with
                 | x :: r' => if decide (x = "x"%char ∨ x = "X"%char) then base_value 16 (span_base 16 r').1 else base_value 8 (span_base 8 r).1
                 | [] => 0
                 end
               else base_value 10 (span_base 10 s).1
           | [] => 0
           end in
  Z.max (- 2 ^ 63) (Z.min (2 ^ 63 - 1) (if negative : bool then - n else n)).

(** [strtod]: decimal and hexadecimal numbers, rounded to nearest, infinity and NaN; 0 otherwise. *)
Definition point_digits (base : Z) (s : str) : list Z * Z * str :=
  let '(i, r) := span_base base s in
  let '(f, r) := match r with c :: r' => if decide (c = "."%char) then span_base base r' else ([], r) | [] => ([], []) end in
  (i ++ f, Z.of_nat (length f), r).
Definition exponent (mark : ascii) (s : str) : Z :=
  match s with c :: r => if decide (lower c = mark) then match read_int r with Some (x, _) => x | None => 0 end else 0 | [] => 0 end.
(** [m * 10^e] *)
Definition decimal_float (negative : bool) (m e : Z) : spec_float :=
  match m with
  | Zpos p =>
      if 0 <=? e then binary_round 53 1024 negative (Z.to_pos (Zpos p * 10 ^ e)) 0
      else XlsxWrite.ddiv (S754_finite negative p 0) (S754_finite false (Z.to_pos (10 ^ (- e))) 0)
  | _ => S754_zero negative
  end.
Definition hex_float (negative : bool) (m e : Z) : spec_float :=
  match m with Zpos p => binary_round 53 1024 negative p e | _ => S754_zero negative end.
Definition strtod (s : str) : spec_float :=
  let '(negative, s) := sign (skip_ws s) in
  let begins p := same_name (take (length p) s) p in
  if begins (lit "inf") then S754_infinity negative
  else if begins (lit "nan") then S754_nan
  else
    let '(ds, f, r) := point_digits 16 (drop 2 s) in
    if begins (lit "0x") && bool_decide (ds ≠ []) then hex_float negative (base_value 16 ds) (exponent "p" r - 4 * f)
    else
      let '(ds, f, r) := point_digits 10 s in
      match ds with [] => S754_zero false | _ => decimal_float negative (base_value 10 ds) (exponent "e" r - f) end.

(** To an integer, towards zero; [None] where that is undefined. *)
Definition to_int64 (d : spec_float) : option Z :=
  match d with
  | S754_zero _ => Some 0
  | S754_finite s m e =>
      let n := if 0 <=? e then Zpos m * 2 ^ e else Z.quot (Zpos m) (2 ^ (- e)) in
      let z := if s then - n else n in
      if (- 2 ^ 63 <=? z) && (z <? 2 ^ 63) then Some z else None
  | _ => None
  end.

(*@ tools/xlsxio/lib/xlsxio_read.c 1256-1265 xlsxioread_sheet_next_cell_string *)
Definition xlsxioread_sheet_next_cell_string (s : sheet) : option str * sheet := xlsxioread_sheet_next_cell s.
(*@ tools/xlsxio/lib/xlsxio_read.c 1267-1280 xlsxioread_sheet_next_cell_int *)
Definition xlsxioread_sheet_next_cell_int (s : sheet) : option Z * sheet :=
  let '(result, s) := xlsxioread_sheet_next_cell s in (scan_i <$> result, s).
(*@ tools/xlsxio/lib/xlsxio_read.c 1282-1290 xlsxioread_sheet_next_cell_float *)
Definition xlsxioread_sheet_next_cell_float (s : sheet) : option spec_float * sheet :=
  let '(result, s) := xlsxioread_sheet_next_cell s in (strtod <$> result, s).
(** From days since 1900 to seconds since 1970. *)
Definition unix_time (value : spec_float) : option Z :=
  to_int64 match value with
           | S754_zero _ => value
           | _ => XlsxWrite.dmul (SFsub 53 1024 value (XlsxWrite.of_Z 25569)) (XlsxWrite.of_Z 86400)
           end.
(*@ tools/xlsxio/lib/xlsxio_read.c 1292-1305 xlsxioread_sheet_next_cell_datetime *)
Definition xlsxioread_sheet_next_cell_datetime (s : sheet) : option (option Z) * sheet :=
  let '(result, s) := xlsxioread_sheet_next_cell s in ((λ v, unix_time (strtod v)) <$> result, s).

(** ** The loops of an application *)

(** The cells of a row; [None] where the fuel is not enough. *)
Fixpoint read_row (fuel : nat) (s : sheet) : option (list str * sheet) :=
  match fuel with
  | O => None
  | S fuel =>
      match xlsxioread_sheet_next_cell s with
      | (None, s) => Some ([], s)
      | (Some v, s) => '(vs, s) ← read_row fuel s; Some (v :: vs, s)
      end
  end.
(*@ tools/xlsxio/src/xlsxio_read_main.c 59-65 main *)
Fixpoint read_sheet (fuel : nat) (s : sheet) : option (list (list str)) :=
  match fuel with
  | O => None
  | S fuel =>
      let '(found, s) := xlsxioread_sheet_next_row s in
      if found =? 0 then Some []
      else '(row, s) ← read_row fuel s; cons row <$> read_sheet fuel s
  end.
End Pull.
End XlsxPull.
