(* ===== verification/XlsxPullSpec.v ===== *)
(** * What is pulled is what is pushed (properties of XlsxPull.v)

    The application that asks for rows and cells gets those that the callbacks report: by blocks of
    events that each make one cell, for the parser suspended behind each. *)
From Stdlib Require Import Floats.SpecFloat.
From coqutil Require Import Datatypes.RecordSetters.
From S2P Require Import Prelude CppString Decimal XlsxRead XlsxReadSpec XlsxWrite XmlDoc XlsxWriteSpec XlsxPull.
Import OCamlLikeNotations XmlDoc XlsxRead XlsxReadSpec XlsxPull Sheet.

#[local] Open Scope Z_scope.

Module XlsxPullSpec.

(** Updates of records, written out. *)
Ltac norm := cbn -[u64 Z.add Z.ltb Z.eqb Z.max Z.sub dispatch deliver expat_process_zip_file_resume]; cbv [constant].
Ltac branch := match goal with |- context [if ?b then _ else _] => destruct b end.
Ltac name_case := match goal with |- context [same_name ?x ?y] => destruct (same_name x y) end.

(** ** The parser, event by event *)
Section Pull.
Context (R : bool).
Abbreviation handle := (dispatch true R false false (λ _, false)).

Fixpoint run (es : list event) (d : data) : bool * list event * data :=
  match es with
  | [] => (false, [], d)
  | e :: es => let d := handle d e in if stopped d then (true, es, d) else run es d
  end.

(** Groups of a document: single events, and empty elements; none of these is a row. *)
Inductive grouped : list event → list (list event) → Prop :=
| grouped_nil : grouped [] []
| grouped_event e es gs : grouped es gs → grouped (e :: es) ([e] :: gs)
| grouped_empty n a es gs : same_name n (lit "row") = false → grouped es gs → grouped (Start n a :: End_ n :: es) ([Start n a; End_ n] :: gs).

Lemma start_running n a d : same_name n (lit "row") = false → stopped d = false → stopped (handle d (Start n a)) = false.
Proof.
  intros Hn Hd. unfold dispatch. destruct (h_start d) as [[]|]; [..|exact Hd].
  - unfold find_worksheet_start. name_case; exact Hd.
  - unfold find_sheetdata_start. name_case; exact Hd.
  - unfold find_row_start. rewrite Hn. exact Hd.
  - unfold find_cell_start. name_case; [|exact Hd]. rewrite andb_false_r. cbn [andb orb]. cbv zeta. rewrite andb_false_r.
    match goal with |- context [if ?b then {d with rownr := ?r} else d] => set (d1 := if b then {d with rownr := r} else d) end.
    assert (stopped d1 = false) as H1 by (unfold d1; branch; exact Hd). rewrite H1.
    match goal with |- context [if ?b then {d1 with colnr := ?r} else d1] => set (d2 := if b then {d1 with colnr := r} else d1) end.
    assert (stopped d2 = false) as H2 by (unfold d2; branch; exact H1). rewrite H2. exact H2.
  - unfold find_value_start. branch; [exact Hd|]; repeat name_case; exact Hd.
  - unfold skip_start. name_case; exact Hd.
Qed.

Lemma cleared d : stopped {d with stopped := false} = false.
Proof. by destruct d. Qed.
Lemma clear_running d : stopped d = false → {d with stopped := false} = d.
Proof. destruct d. simpl. by intros ->. Qed.

Lemma resume_grouped es gs : grouped es gs → ∀ d b es' d', run es {d with stopped := false} = (b, es', d') →
  ∃ gs' d'', grouped es' gs' ∧ expat_process_zip_file_resume (deliver R false false) gs d = (b, gs', d'') ∧ (b = true → d'' = d').
Proof.
  induction 1 as [|e es gs H IH|n a es gs Hn H IH]; intros d b es' d'; cbn [run expat_process_zip_file_resume].
  - intros [= <- <- <-]. exists [], d. split_and!; [constructor|done|done].
  - unfold deliver at 1. cbn [foldl]. destruct (stopped (handle _ e)) eqn:E; [intros [= <- <- <-]; by eexists _, _|]. intros Hr. apply IH. by rewrite clear_running.
  - unfold deliver at 1. cbn [foldl]. set (d1 := handle _ (Start n a)) in *. assert (stopped d1 = false) as E1 by (by apply start_running). rewrite E1.
    destruct (stopped (handle d1 (End_ n))) eqn:E; [intros [= <- <- <-]; by eexists _, _|]. intros Hr. apply IH. by rewrite clear_running.
Qed.

(** Texts come in pieces. *)
Lemma handle_pieces ps d : ps ≠ [] → foldl handle d (map Data ps) = handle d (Data (concat ps)).
Proof.
  destruct ps as [|p ps]; [done|]. intros _. revert p d. induction ps as [|q ps IH]; intros p d; cbn [map foldl concat] in *; [by rewrite app_nil_r|].
  assert (handle (handle d (Data p)) (Data q) = handle d (Data (p ++ q))) as ->.
  { destruct d as [ss rn cn co cd ty sk skc hs he hd st cs]. destruct hd; [|done]. destruct ty; [done|..]; unfold dispatch, value_data; norm; cbn; by rewrite <- app_assoc. }
  rewrite (IH (p ++ q) d). by rewrite app_assoc.
Qed.
Lemma data_running s d : stopped d = false → stopped (handle d (Data s)) = false.
Proof. destruct d as [ss rn cn co cd ty sk skc hs he hd st cs]. by destruct hd, ty. Qed.
Lemma run_data ps es d : stopped d = false → run (map Data ps ++ es) d = run es (foldl handle d (map Data ps)).
Proof.
  revert d. induction ps as [|p ps IH]; intros d Hd; [done|]. cbn [map app run foldl]. rewrite data_running by done. by apply IH, data_running.
Qed.

Lemma run_cuts es es' : cuts es es' → ∀ d b r d', stopped d = false → run es d = (b, r, d') → ∃ r', cuts r r' ∧ run es' d = (b, r', d').
Proof.
  induction 1 as [|n a es es' H IH|n es es' H IH|ps s es es' Hps <- H IH]; intros d b r d' Hd; cbn [run].
  - intros [= <- <- <-]. exists []. by split; [constructor|].
  - destruct (stopped (handle d _)) eqn:E; [intros [= <- <- <-]; by exists es'|by apply IH].
  - destruct (stopped (handle d _)) eqn:E; [intros [= <- <- <-]; by exists es'|by apply IH].
  - rewrite data_running by done. rewrite run_data, handle_pieces by done. by apply IH, data_running.
Qed.

(** What the parser delivers of a document. *)
Definition delivered (es : list event) (gs : list (list event)) : Prop := ∃ es', cuts es es' ∧ grouped es' gs.
Lemma resume_run es gs : delivered es gs → ∀ d b r d', run es {d with stopped := false} = (b, r, d') →
  ∃ gs' d'', delivered r gs' ∧ expat_process_zip_file_resume (deliver R false false) gs d = (b, gs', d'') ∧ (b = true → d'' = d').
Proof.
  intros (es' & Hc & Hg) d b r d' Hr. destruct (run_cuts _ _ Hc {d with stopped := false} _ _ _ (cleared d) Hr) as (r' & Hc' & Hr').
  destruct (resume_grouped _ _ Hg d _ _ _ Hr') as (gs' & d'' & Hg' & ? & ?). exists gs', d''. split_and!; [by exists r'|done|done].
Qed.

(** ** Calls *)

(** What is behind the calls, written out. *)
Abbreviation small x := (0 <= x < 2 ^ 63).
Abbreviation next := (xlsxioread_sheet_next_cell R false false).

Lemma next_blank d gs L pr lc pc : 0 < pc <= cols d → cols d < 2 ^ 63 → next (MkSheet d gs L pr lc pc) = (Some [], MkSheet d gs L pr lc (pc + 1)).
Proof.
  intros H1 H2. unfold xlsxioread_sheet_next_cell. cbn [next_cell paddingcol processcallbackdata].
  rewrite (proj2 (Z.eqb_neq pc 0)), (proj2 (Z.ltb_ge (cols d) pc)) by lia. norm. by rewrite u64_small by lia.
Qed.

(** The state behind the last blank. *)
Definition padded d gs L pr lc : sheet :=
  if pr =? 0 then MkSheet d gs L 0 lc 0 else MkSheet d gs (L + 1) (pr + 1) lc (if pr + 2 <? rownr d then 1 else 0).
Lemma next_padded d gs L pr lc pc : 0 < pc → cols d < pc → small L → small pr → next (MkSheet d gs L pr lc pc) = (None, padded d gs L pr lc).
Proof.
  intros H1 H2 H3 H4. unfold xlsxioread_sheet_next_cell, padded. cbn [next_cell paddingcol processcallbackdata].
  rewrite (proj2 (Z.eqb_neq pc 0)), (proj2 (Z.ltb_lt (cols d) pc)) by lia. norm.
  destruct (Z.eqb_spec pr 0) as [->|Hpr]; [done|]. norm.
  rewrite !(u64_small (L + 1)), !(u64_small (pr + 1)) by lia. rewrite u64_small by lia. replace (pr + 1 + 1) with (pr + 2) by lia.
  by destruct (_ <? _).
Qed.

(** Rows that are missing in front of the current one. *)
Definition gap (d : data) (L : Z) : bool := negb R && (L + 1 <? rownr d).

Lemma next_pending_blank d gs L pr lc v : celldata d = Some v → gap d L = false → lc + 1 < colnr d → small L → small lc →
  next (MkSheet d gs L pr lc 0) = (Some [], MkSheet d gs L pr (lc + 1) 0).
Proof.
  intros Hv Hg Hc HL Hl. unfold xlsxioread_sheet_next_cell, gap in *. cbn [next_cell paddingcol processcallbackdata lastrownr lastcolnr].
  change (negb (0 =? 0)) with false. cbv iota. rewrite Hv. norm. rewrite (u64_small (L + 1)), (u64_small (lc + 1)) by lia. rewrite Hg.
  rewrite (proj2 (Z.ltb_lt (lc + 1) (colnr d))) by lia. done.
Qed.

Lemma next_pending d gs L pr lc v : celldata d = Some v → gap d L = false → colnr d <= lc + 1 → small L → small lc →
  next (MkSheet d gs L pr lc 0) = (Some v, MkSheet {d with celldata := None} gs L pr (colnr d) 0).
Proof.
  intros Hv Hg Hc HL Hl. unfold xlsxioread_sheet_next_cell, gap in *. cbn [next_cell paddingcol processcallbackdata lastrownr lastcolnr].
  change (negb (0 =? 0)) with false. cbv iota. rewrite Hv. norm. rewrite (u64_small (L + 1)), (u64_small (lc + 1)) by lia. rewrite Hg.
  rewrite (proj2 (Z.ltb_ge (lc + 1) (colnr d))) by lia. cbv iota. rewrite Hv. by destruct d.
Qed.

(** The first blank of a missing row, or its end. *)
Lemma next_gap d gs L pr lc v : celldata d = Some v → gap d L = true → small L →
  next (MkSheet d gs L pr lc 0) = next (MkSheet d gs L (L + 1) lc 1).
Proof.
  intros Hv Hg HL. unfold xlsxioread_sheet_next_cell, gap in *. cbn [next_cell paddingcol processcallbackdata lastrownr lastcolnr].
  change (negb (0 =? 0)) with false. cbv iota. rewrite Hv. norm. rewrite (u64_small (L + 1)) by lia. by rewrite Hg.
Qed.

(** The parser is resumed when there is no cell. *)
Lemma next_resume d gs L lc d' gs' v : celldata d = None → expat_process_zip_file_resume (deliver R false false) gs d = (true, gs', d') →
  celldata d' = Some v → next (MkSheet d gs L 0 lc 0) = next (MkSheet d' gs' L 0 lc 0).
Proof.
  intros Hn Hr Hv. unfold xlsxioread_sheet_next_cell. cbn [next_cell paddingcol processcallbackdata].
  change (negb (0 =? 0)) with false. cbv iota. rewrite Hn, Hv. unfold resume. cbn [zipfile processcallbackdata]. by rewrite Hr.
Qed.

(** The end of a row. *)
Lemma next_row_end d gs L d' gs' : celldata d = None → expat_process_zip_file_resume (deliver R false false) gs d = (true, gs', d') →
  celldata d' = None → gap d' L = false → small L → small (colnr d') →
  next (MkSheet d gs L 0 (colnr d') 0) =
  if colnr d' <? cols d' then next (MkSheet d' gs' (rownr d') 0 (colnr d') (colnr d' + 1))
  else (None, MkSheet d' gs' (rownr d') 0 (colnr d') 0).
Proof.
  intros Hn Hr Hv Hg HL Hc. unfold xlsxioread_sheet_next_cell, gap in *. cbn [next_cell paddingcol processcallbackdata].
  change (negb (0 =? 0)) with false. cbv iota. rewrite Hn. unfold resume. cbn [zipfile processcallbackdata]. rewrite Hr.
  destruct d' as [ss rn cn co cd ty sk skc hs he hd st cs]. simpl in Hv, Hg, Hc |- *. subst cd. norm.
  rewrite (u64_small (L + 1)), (u64_small (cn + 1)) by lia. rewrite Hg. rewrite (proj2 (Z.ltb_ge (cn + 1) cn)) by lia. cbv iota.
  destruct (cn <? co); [|done]. cbn [next_cell paddingcol processcallbackdata]. rewrite (proj2 (Z.eqb_neq (cn + 1) 0)) by lia. done.
Qed.

Abbreviation next_row := (xlsxioread_sheet_next_row R false false).
Lemma next_row_found d gs L lc pc d' gs' : expat_process_zip_file_resume (deliver R false false) gs d = (true, gs', d') → colnr d' = 0 →
  next_row (MkSheet d gs L 0 lc pc) = (1, MkSheet d' gs' L 0 0 0).
Proof. intros Hr Hc. unfold xlsxioread_sheet_next_row. norm. unfold resume. norm. rewrite Hr. norm. by rewrite Hc. Qed.
Lemma next_row_none d gs L lc pc d' gs' : expat_process_zip_file_resume (deliver R false false) gs d = (false, gs', d') →
  ∃ s, next_row (MkSheet d gs L 0 lc pc) = (0, s).
Proof. intros Hr. unfold xlsxioread_sheet_next_row. norm. unfold resume. norm. rewrite Hr. by eexists. Qed.
Lemma next_row_padding d gs L pr lc pc : 0 < pr →
  next_row (MkSheet d gs L pr lc pc) = if pr <? rownr d then (3, MkSheet d gs L pr 0 pc) else (2, MkSheet d gs L 0 0 pc).
Proof. intros Hr. unfold xlsxioread_sheet_next_row. norm. by rewrite (proj2 (Z.eqb_neq pr 0)) by lia. Qed.

(** ** Rows and sheets *)

(** The loops of an application as relations. *)
Inductive row_reads : sheet → list str → sheet → Prop :=
| row_ends s s' : next s = (None, s') → row_reads s [] s'
| row_goes s v s' vs s'' : next s = (Some v, s') → row_reads s' vs s'' → row_reads s (v :: vs) s''.
Inductive sheet_reads : sheet → list (list str) → Prop :=
| sheet_ends s s' : next_row s = (0, s') → sheet_reads s []
| sheet_goes s n s' vs s'' rows : next_row s = (n, s') → n ≠ 0 → row_reads s' vs s'' → sheet_reads s'' rows → sheet_reads s (vs :: rows).

Lemma row_reads_loop s vs s' fuel : row_reads s vs s' → (length vs < fuel)%nat → read_row R false false fuel s = Some (vs, s').
Proof.
  intros H. revert fuel. induction H as [s s' E|s v s' vs s'' E H IH]; intros [|fuel] Hf; simpl length in Hf; try lia; cbn [read_row]; rewrite E; [done|].
  by rewrite IH by lia.
Qed.
Lemma sheet_reads_loop s rows fuel : sheet_reads s rows → Forall (λ r, (length rows + length r < fuel)%nat) rows → (length rows < fuel)%nat →
  read_sheet R false false fuel s = Some rows.
Proof.
  intros H. revert fuel. induction H as [s s' E|s n s' vs s'' rows E Hn H1 H2 IH]; intros [|fuel] Hf Hl; simpl length in *; try lia; cbn [read_sheet]; rewrite E; [done|].
  rewrite (proj2 (Z.eqb_neq n 0)) by done. apply Forall_cons in Hf as [Hv Hf]. rewrite (row_reads_loop _ _ _ _ H1) by lia. cbn [mbind option_bind].
  rewrite IH; [done| |lia]. eapply Forall_impl; [exact Hf|]. simpl. intros r ?. lia.
Qed.
Lemma sheet_reads_enough s rows : sheet_reads s rows → ∃ n, ∀ fuel, (n <= fuel)%nat → read_sheet R false false fuel s = Some rows.
Proof.
  intros H. exists (S (length rows + sum_list_with length rows)). intros fuel Hf. apply sheet_reads_loop; [done| |lia].
  apply Forall_forall. intros r Hr. pose proof (sum_list_with_in _ length _ Hr). lia.
Qed.

Lemma row_reads_next s s' vs t : next s = next s' → row_reads s' vs t → row_reads s vs t.
Proof. intros E H. destruct H; [by eapply row_ends; rewrite E|by eapply row_goes; [rewrite E|]]. Qed.

Lemma blanks_read d gs L pr lc pc : 0 < pc → cols d < 2 ^ 62 → small L → small pr →
  row_reads (MkSheet d gs L pr lc pc) (replicate (Z.to_nat (cols d + 1 - pc)) []) (padded d gs L pr lc).
Proof.
  intros Hpc Hc HL Hpr. remember (Z.to_nat (cols d + 1 - pc)) as n eqn:Hn. revert pc Hpc Hn.
  induction n as [|n IH]; intros pc Hpc Hn; cbn [replicate].
  - apply row_ends. apply next_padded; lia.
  - eapply row_goes; [apply next_blank; lia|]. apply IH; lia.
Qed.

(** The blanks in front of a cell, and the cell. *)
Lemma pending_reads d gs L lc v vs s : celldata d = Some v → gap d L = false → 0 <= lc < colnr d → colnr d < 2 ^ 62 → small L →
  row_reads (MkSheet {d with celldata := None} gs L 0 (colnr d) 0) vs s →
  row_reads (MkSheet d gs L 0 lc 0) (replicate (Z.to_nat (colnr d - 1 - lc)) [] ++ v :: vs) s.
Proof.
  intros Hv Hg Hl Hc HL H. remember (Z.to_nat (colnr d - 1 - lc)) as n eqn:Hn. revert lc Hl Hn.
  induction n as [|n IH]; intros lc Hl Hn; cbn [replicate app].
  - eapply row_goes; [apply next_pending; (done || lia)|done].
  - eapply row_goes; [eapply next_pending_blank; (done || lia)|]. apply IH; lia.
Qed.

(** ** Lines

    The events of one cell make a block, the blocks of one row a line. *)
Context (ss : option (list (option str))).
Definition in_row row k width cd st : data := SheetData ss row k width cd none [] 0 (Some FindCell) (Some RowEnd) false st [].
Definition between row k width st : data := SheetData ss row k width None none [] 0 (Some FindRow) (Some SheetdataEnd) false st [].

Record block := Block { b_col : Z; b_value : option str; b_events : list event }.
Record line := Line { l_row : Z; l_atts : attrs; l_blocks : list block }.
Definition line_events (l : line) : list event :=
  Start (lit "row") (l_atts l) :: concat (map b_events (l_blocks l)) ++ [End_ (lit "row")].

(** In column [j] of row [row0] the events suspend the parser once, at their end, in the block's
    column of [row]. *)
Definition good_block (row0 row j : Z) (b : block) : Prop :=
  j < b_col b < 2 ^ 62 ∧ ∀ width es, run (b_events b ++ es) (in_row row0 j width None false) =
    (true, es, in_row row (b_col b) width (Some (default [] (b_value b))) true).
Fixpoint good_blocks (row0 row j : Z) (bs : list block) : Prop :=
  match bs with [] => row0 = row | b :: bs => good_block row0 row j b ∧ good_blocks row row (b_col b) bs end.
Definition good_line (L : Z) (l : line) : Prop :=
  shown (l_atts l) ∧ 0 <= l_row l < 2 ^ 62 ∧ good_blocks (u64 (L + 1)) (l_row l) 0 (l_blocks l).
Fixpoint good_lines (L : Z) (ls : list line) : Prop :=
  match ls with [] => True | l :: ls => good_line L l ∧ good_lines (l_row l) ls end.

(** What the application gets. *)
Fixpoint cells_text (j : Z) (bs : list block) : list str :=
  match bs with [] => [] | b :: bs => replicate (Z.to_nat (b_col b - 1 - j)) [] ++ default [] (b_value b) :: cells_text (b_col b) bs end.
Definition last_block (j : Z) (bs : list block) : Z := foldl (λ _ b, b_col b) j bs.
Definition row_text (width j : Z) (bs : list block) : list str := cells_text j bs ++ replicate (Z.to_nat (width - last_block j bs)) [].
Definition line_width (width : Z) (l : line) : Z := if (l_row l =? 1) && (width =? 0) then last_block 0 (l_blocks l) else width.
Definition gap_text (width L row : Z) : list (list str) := if R then [] else replicate (Z.to_nat (row - 1 - L)) (replicate (Z.to_nat width) []).
Fixpoint sheet_text (width L : Z) (ls : list line) : list (list str) :=
  match ls with
  | [] => []
  | l :: ls => gap_text width L (l_row l) ++ row_text (line_width width l) 0 (l_blocks l) :: sheet_text (line_width width l) (l_row l) ls
  end.

Lemma run_row_start atts es L k width : shown atts →
  run (Start (lit "row") atts :: es) (between L k width false) = (true, es, in_row (u64 (L + 1)) 0 width None true).
Proof.
  unfold shown. intros H. cbn [run]. unfold dispatch, between. cbn [h_start]. unfold find_row_start. names.
  destruct (get_expat_attr_by_name atts (lit "hidden")) as [h|]; [rewrite H, Z.eqb_refl|]; by norm.
Qed.
Lemma run_row_end es row k width : let w := if (row =? 1) && (width =? 0) then k else width in
  run (End_ (lit "row") :: es) (in_row row k width None false) = (true, es, between row k w true).
Proof.
  cbv zeta. cbn [run]. unfold dispatch, in_row. cbn [h_end]. unfold find_row_end. names. cbn [rownr cols negb andb].
  destruct ((row =? 1) && (width =? 0)); by norm.
Qed.

Lemma last_block_bound bs : ∀ row0 row j, 0 <= j < 2 ^ 62 → good_blocks row0 row j bs → 0 <= last_block j bs < 2 ^ 62.
Proof. induction bs as [|b bs IH]; intros row0 row j Hj H; [done|]. destruct H as [[Hb _] H]. cbn [last_block foldl]. apply (IH row row (b_col b)); [lia|done]. Qed.

Lemma good_row row0 row j bs : bs = [] → good_blocks row0 row j bs → row0 = row.
Proof. by intros ->. Qed.

(** The cells of a row that does not leave rows out, and its end. *)
Lemma blocks_read es bs : ∀ row0 row j width gs L st, good_blocks row0 row j bs → delivered (concat (map b_events bs) ++ End_ (lit "row") :: es) gs →
  R = true ∨ row <= L + 1 → 0 <= j < 2 ^ 62 → 0 <= width < 2 ^ 62 → small L → small row →
  let k := last_block j bs in let w := if (row =? 1) && (width =? 0) then k else width in
  ∃ gs', delivered es gs' ∧ row_reads (MkSheet (in_row row0 j width None st) gs L 0 j 0) (row_text w j bs) (MkSheet (between row k w true) gs' row 0 k 0).
Proof.
  induction bs as [|b bs IH]; intros row0 row j width gs L st Hb Hg HR Hj Hw HL Hrow k w.
  - cbn [map concat app] in Hg. simpl in Hb. subst row0.
    destruct (resume_run _ _ Hg (in_row row j width None st) true es (between row j w true)) as (gs' & d'' & Hg' & Hr & Hd).
    { exact (run_row_end es row j width). }
    specialize (Hd eq_refl) as ->. exists gs'. split; [done|].
    assert (gap (between row j w true) L = false) as Hgap.
    { unfold gap. destruct HR as [-> |Hle]; [done|]. apply andb_false_iff. right. apply Z.ltb_ge. cbn [rownr between]. lia. }
    pose proof (next_row_end (in_row row j width None st) gs L (between row j w true) gs' eq_refl Hr eq_refl Hgap HL) as E. cbn [colnr between rownr cols] in E. specialize (E ltac:(lia)).
    assert (k = j) as Hk by done. rewrite Hk in *. clear Hk. unfold row_text. cbn [cells_text app last_block foldl].
    assert (0 <= w < 2 ^ 62) as Hw' by (unfold w; by destruct (_ && _)).
    destruct (Z.ltb_spec j w) as [Hlt|Hge].
    + eapply row_reads_next; [exact E|]. pose proof (blanks_read (between row j w true) gs' row 0 j (j + 1)) as Hp. cbn [cols between] in Hp.
      replace (Z.to_nat (w - j)) with (Z.to_nat (w + 1 - (j + 1))) by lia. apply Hp; lia.
    + replace (Z.to_nat (w - j)) with 0%nat by lia. by apply row_ends.
  - destruct Hb as [[Hc Hb] Hbs]. cbn [map concat] in Hg. rewrite <- app_assoc in Hg.
    destruct (resume_run _ _ Hg (in_row row0 j width None st) _ _ _ (Hb width _)) as (gs' & d'' & Hg' & Hr & Hd). specialize (Hd eq_refl) as ->.
    destruct (IH row row (b_col b) width gs' L true Hbs Hg' HR ltac:(lia) Hw HL Hrow) as (gs2 & Hg2 & H). exists gs2. split; [done|].
    set (d' := in_row row (b_col b) width _ true) in *.
    eapply row_reads_next; [by apply (next_resume (in_row row0 j width None st) gs L j d' gs' (default [] (b_value b)))|].
    unfold row_text. cbn [cells_text last_block foldl]. rewrite <- app_assoc. cbn [app].
    apply (pending_reads d' gs' L j (default [] (b_value b))); [done| |cbn; lia|cbn; lia|done|exact H].
    unfold gap. destruct HR as [-> |Hle]; [done|]. apply andb_false_iff. right. apply Z.ltb_ge. cbn [rownr in_row d']. lia.
Qed.

(** Blank rows up to the row of the cell that is pending, and that row. *)
Lemma gaps_read d gs v vs t rows : R = false → celldata d = Some v → 0 <= cols d < 2 ^ 62 → rownr d < 2 ^ 62 →
  row_reads (MkSheet d gs (rownr d - 1) 0 0 0) vs t → sheet_reads t rows → let blank := replicate (Z.to_nat (cols d)) [] in
  ∀ (n : nat) L pr lc pc, rownr d = L + 2 + Z.of_nat n → 0 <= L → small pr → pc = 0 ∨ pc = 1 ∧ pr = L + 1 →
  ∃ s, row_reads (MkSheet d gs L pr lc pc) blank s ∧ sheet_reads s (replicate n blank ++ vs :: rows).
Proof.
  intros HR Hv Hc Hrow H1 H2 blank n. induction n as [|n IH]; intros L pr lc pc Hn HL Hpr Hpc.
  all: assert (row_reads (MkSheet d gs L pr lc pc) blank (padded d gs L (L + 1) lc)) as Hblank.
  1, 3: assert (row_reads (MkSheet d gs L (L + 1) lc 1) blank (padded d gs L (L + 1) lc)) as Hb;
    [unfold blank; replace (cols d) with (cols d + 1 - 1) by lia; apply blanks_read; lia|];
    destruct Hpc as [-> |[-> ->]]; [|done]; eapply row_reads_next; [|exact Hb]; eapply next_gap; [exact Hv| |lia];
    unfold gap; rewrite HR; cbn [negb andb]; apply Z.ltb_lt; lia.
  all: exists (padded d gs L (L + 1) lc); split; [done|]; unfold padded; rewrite (proj2 (Z.eqb_neq (L + 1) 0)) by lia; replace (L + 1 + 1) with (L + 2) by lia;
    replace (L + 1 + 2) with (L + 3) by lia.
  - rewrite (proj2 (Z.ltb_ge (L + 3) (rownr d))) by lia. cbn [replicate app].
    eapply sheet_goes; [rewrite next_row_padding, (proj2 (Z.ltb_ge (L + 2) (rownr d))) by lia; reflexivity|done| |exact H2].
    by replace (L + 1) with (rownr d - 1) by lia.
  - destruct (IH (L + 1) (L + 2) 0 (if L + 3 <? rownr d then 1 else 0)) as (s & Hs1 & Hs2); [lia|lia|lia|destruct (_ <? _); [right; lia|by left]|].
    cbn [replicate app]. eapply sheet_goes; [rewrite next_row_padding, (proj2 (Z.ltb_lt (L + 2) (rownr d))) by lia; reflexivity|done|exact Hs1|exact Hs2].
Qed.

(** One line, and what is read behind it. *)
Lemma line_read L width gs l es st rows : good_line L l → delivered (concat (map b_events (l_blocks l)) ++ End_ (lit "row") :: es) gs →
  0 <= L < 2 ^ 62 → 0 <= width < 2 ^ 62 →
  (∀ gs' k, delivered es gs' → sheet_reads (MkSheet (between (l_row l) k (line_width width l) true) gs' (l_row l) 0 k 0) rows) →
  ∃ s vs rest, gap_text width L (l_row l) ++ row_text (line_width width l) 0 (l_blocks l) :: rows = vs :: rest ∧
    row_reads (MkSheet (in_row (u64 (L + 1)) 0 width None st) gs L 0 0 0) vs s ∧ sheet_reads s rest.
Proof.
  intros (_ & Hrow & Hb) Hg HL Hw Hrest. destruct l as [row atts bs]. cbn [l_row l_blocks l_atts] in *. unfold line_width in *. cbn [l_row l_blocks] in *.
  destruct (decide (R = true ∨ row <= L + 1)) as [HR|HR].
  - destruct (blocks_read es bs (u64 (L + 1)) row 0 width gs L st Hb Hg HR ltac:(lia) Hw ltac:(lia) ltac:(lia)) as (gs' & Hg' & H). eexists _, _, _. split_and!; [|exact H|by apply Hrest].
    assert (gap_text width L row = []) as ->; [|done]. unfold gap_text. destruct HR as [-> |Hle]; [done|]. destruct R; [done|]. by replace (Z.to_nat (row - 1 - L)) with 0%nat by lia.
  - assert (R = false ∧ L + 1 < row) as [HR' Hgap] by (destruct R; [tauto|split; [done|lia]]). clear HR.
    destruct (blocks_read es bs (u64 (L + 1)) row 0 width gs (row - 1) st Hb Hg ltac:(right; lia) ltac:(lia) Hw ltac:(lia) ltac:(lia)) as (gs' & Hg' & H).
    destruct bs as [|b bs]; [simpl in Hb; rewrite u64_small in Hb by lia; lia|]. destruct Hb as [[Hc Hb] Hbs]. cbn [map concat] in Hg. rewrite <- app_assoc in Hg.
    destruct (resume_run _ _ Hg (in_row (u64 (L + 1)) 0 width None st) _ _ _ (Hb width _)) as (gs2 & d'' & Hg2 & Hr & Hd). specialize (Hd eq_refl) as ->.
    set (d' := in_row row (b_col b) width (Some (default [] (b_value b))) true) in *.
    assert (∀ L', next (MkSheet (in_row (u64 (L + 1)) 0 width None st) gs L' 0 0 0) = next (MkSheet d' gs2 L' 0 0 0)) as Hnext.
    { intros L'. by apply (next_resume _ gs L' 0 d' gs2 (default [] (b_value b))). }
    apply (row_reads_next _ _ _ _ (eq_sym (Hnext (row - 1)))) in H.
    assert (∃ n, rownr d' = L + 2 + Z.of_nat n) as [n Hn] by (exists (Z.to_nat (row - 2 - L)); cbn [rownr d' in_row]; lia).
    edestruct (gaps_read d' gs2 (default [] (b_value b)) _ _ rows HR' eq_refl Hw (proj2 Hrow) H (Hrest gs' _ Hg') n L 0 0 0 Hn) as (s & Hs1 & Hs2); [lia|lia|by left|].
    eexists s, _, _. split_and!; [|eapply row_reads_next; [apply Hnext|exact Hs1]|exact Hs2].
    unfold gap_text. rewrite HR'. cbn [rownr d' in_row] in Hn. by replace (Z.to_nat (row - 1 - L)) with (S n) by lia.
Qed.

Lemma lines_read tail ls : (∀ L k width, ∃ r d', run tail (between L k width false) = (false, r, d')) → ∀ L k width d gs lc pc es, good_lines L ls → delivered es gs →
  run es {d with stopped := false} = run (concat (map line_events ls) ++ tail) (between L k width false) →
  0 <= L < 2 ^ 62 → 0 <= width < 2 ^ 62 → sheet_reads (MkSheet d gs L 0 lc pc) (sheet_text width L ls).
Proof.
  intros Htail. induction ls as [|l ls IH]; intros L k width d gs lc pc es Hl Hg Hrun HL Hw.
  - cbn [map concat app sheet_text] in *. destruct (Htail L k width) as (r & d' & E). rewrite E in Hrun.
    destruct (resume_run _ _ Hg _ _ _ _ Hrun) as (gs' & d'' & _ & Hr & _).
    destruct (next_row_none _ _ L lc pc _ _ Hr) as [s Hs]. by eapply sheet_ends.
  - destruct Hl as [Hl Hls]. cbn [map concat sheet_text] in *. unfold line_events in Hrun at 1. cbn [app] in Hrun. rewrite <- !app_assoc in Hrun. cbn [app] in Hrun.
    rewrite run_row_start in Hrun by apply Hl. destruct (resume_run _ _ Hg _ _ _ _ Hrun) as (gs' & d'' & Hg' & Hr & Hd). specialize (Hd eq_refl) as ->.
    destruct (line_read L width gs' l _ true (sheet_text (line_width width l) (l_row l) ls) Hl Hg' HL Hw) as (s & vs & rest & -> & Hs & Hrest).
    { intros gs2 k2 Hg2. eapply IH; [exact Hls|exact Hg2|reflexivity|destruct Hl as (_ & H & _); lia|].
      unfold line_width. destruct (_ && _); [|done]. destruct Hl as (_ & _ & Hb). eapply last_block_bound; [|exact Hb]. lia. }
    eapply sheet_goes; [by eapply next_row_found|done|exact Hs|exact Hrest].
Qed.

(** ** The events of a cell *)

(** Inside a cell. *)
Definition in_cell row k width cd ty hd : data :=
  SheetData ss row k width cd ty [] 0 (if hd : bool then None else Some FindValue) (Some (if hd then ValueEnd else CellEnd)) hd false [].

Lemma cell_opened row0 row j width c es : 0 <= j < c_col c → c_col c < 2 ^ 61 → 0 < row < 10 ^ 19 → j = 0 ∨ row0 = row →
  run (Start (lit "c") ((lit "r", coordinate (c_col c) row) :: c_atts c) :: es) (in_row row0 j width None false) =
  run es (in_cell row (c_col c - 1) width None (type_of c) false).
Proof.
  intros Hk Hc Hr Hrow. destruct (coordinate_read_back (c_col c) row) as [Hcol Hrn]; [lia|lia|].
  cbn [run]. unfold dispatch, in_row. cbn [h_start]. unfold find_cell_start. names. cbn [get_expat_attr_by_name]. names.
  rewrite Hcol, Hrn, andb_false_r, (proj2 (Z.eqb_neq row 0)), (proj2 (Z.eqb_neq (c_col c) 0)) by lia. rewrite andb_false_r. cbn [andb negb colnr orb]. cbv zeta.
  set (d := if (j =? 0) && true then _ else _).
  assert (d = in_row row j width None false) as ->.
  { unfold d. destruct (Z.eqb_spec j 0); [done|]. destruct Hrow as [|<-]; done. }
  cbn [stopped in_row]. fold (c_type c). unfold type_of. by norm.
Qed.
Lemma asides_run l row k width cd ty es : Forall aside l → run (l ++ es) (in_cell row k width cd ty false) = run es (in_cell row k width cd ty false).
Proof.
  induction 1 as [|e l He H IH]; [done|]. cbn [app run]. assert (handle (in_cell row k width cd ty false) e = in_cell row k width cd ty false) as ->; [|exact IH].
  destruct e as [n a|n|buf]; [| |done]; destruct He as (H1 & H2 & H3 & H4); unfold dispatch, in_cell; cbn [h_start h_end].
  - unfold find_value_start. by rewrite H1, H2, H3, H4.
  - unfold find_cell_end, find_row_end, find_sheetdata_end, find_worksheet_end. by rewrite H1, H2, H3, H4.
Qed.
Lemma bare_cell_opened row j width atts es : get_expat_attr_by_name atts (lit "r") = None →
  match get_expat_attr_by_name atts (lit "t") with Some t => same_name t (lit "s") | None => false end = false →
  run (Start (lit "c") atts :: es) (in_row row j width None false) = run es (in_cell row j width None value_string false).
Proof.
  intros Hr Ht. cbn [run]. unfold dispatch, in_row. cbn [h_start]. unfold find_cell_start. names. rewrite Hr.
  change (get_col_nr None) with 0. change (get_row_nr None) with 0. cbn [negb andb Z.eqb]. rewrite andb_false_r. cbv zeta. cbn [stopped].
  destruct (get_expat_attr_by_name atts (lit "t")) as [t|]; [rewrite Ht|]; by norm.
Qed.

(** Values begin and end with the elements [v] and [t], of inline texts [is] too. *)
Lemma value_opened name row k width cd ty es : name = lit "v" ∨ name = lit "t" →
  run (Start name [] :: es) (in_cell row k width cd ty false) = run es (in_cell row k width cd ty true).
Proof. by intros [-> | ->]. Qed.
Lemma value_closed name row k width cd ty es : name = lit "v" ∨ name = lit "t" →
  run (End_ name :: es) (in_cell row k width cd ty true) = run es (in_cell row k width cd ty false).
Proof. by intros [-> | ->]. Qed.
Lemma inline_opened row k width cd ty es :
  run (Start (lit "is") [] :: es) (in_cell row k width cd ty false) = run es (in_cell row k width cd inline_string false).
Proof. done. Qed.
Lemma inline_closed row k width cd ty es : run (End_ (lit "is") :: es) (in_cell row k width cd ty false) = run es (in_cell row k width cd ty false).
Proof. done. Qed.
Lemma pieces_run ps row k width cd ty es : ty ≠ none →
  run (map Data ps ++ es) (in_cell row k width cd ty true) =
  run es (in_cell row k width match ps with [] => cd | _ => Some (default [] cd ++ concat ps) end ty true).
Proof.
  intros Hty. revert cd. induction ps as [|p ps IH]; intros cd; [done|]. cbn [map app].
  assert (run (Data p :: map Data ps ++ es) (in_cell row k width cd ty true) = run (map Data ps ++ es) (in_cell row k width (Some (default [] cd ++ p)) ty true)) as -> by (by destruct ty).
  rewrite IH. destruct ps as [|q ps]; cbn [concat]; [by rewrite app_nil_r|by rewrite (app_assoc (default [] cd) p)].
Qed.
Lemma cell_closed row k width cd ty es :
  run (End_ (lit "c") :: es) (in_cell row k width cd ty false) =
  (true, es, in_row row (k + 1) width (Some (default [] (cell_value (in_cell row k width cd ty false)))) true).
Proof.
  cbn [run]. set (v := cell_value _). unfold dispatch, in_cell. cbn [h_end]. unfold find_cell_end. names. fold (in_cell row k width cd ty false). fold v.
  rewrite andb_false_r. by norm.
Qed.

(** A cell with coordinates. *)
Lemma cell_good row0 row j c : 0 <= j < c_col c → c_col c < 2 ^ 61 → Forall aside (c_before c) → 0 < row < 10 ^ 19 → j = 0 ∨ row0 = row →
  good_block row0 row j (Block (c_col c) (value_of ss c) (cell_events row c)).
Proof.
  intros Hj Hc Ha Hr Hrow. split; [cbn; lia|]. intros width es. cbn [b_events b_col b_value]. unfold cell_events. cbn [app]. rewrite cell_opened by done.
  rewrite <- app_assoc, asides_run by done.
  assert (type_of c ≠ none) as Hty by (unfold type_of; destruct (c_type c) as [t|]; [destruct (same_name t _)|]; done).
  set (cd := match c_value c with None | Some [] => None | Some ps => Some (concat ps) end).
  assert (run ((match c_value c with Some ps => Start (lit "v") [] :: map Data ps ++ [End_ (lit "v")] | None => [] end ++ [End_ (lit "c")]) ++ es)
    (in_cell row (c_col c - 1) width None (type_of c) false) = run (End_ (lit "c") :: es) (in_cell row (c_col c - 1) width cd (type_of c) false)) as ->.
  { unfold cd. destruct (c_value c) as [ps|]; [|done]. cbn [app]. rewrite value_opened, <- !app_assoc, pieces_run by (done || by left). cbn [app]. rewrite value_closed by (by left). by destruct ps. }
  rewrite cell_closed. replace (c_col c - 1 + 1) with (c_col c) by lia. do 3 f_equal.
  unfold cell_value, value_of, cd, type_of; cbn; destruct (c_value c) as [[|p ps]|]; cbn; try done; by destruct (c_type c) as [t|]; [destruct (same_name t _)|].
Qed.

(** ** Sheets *)

Definition cell_block (row : Z) (c : cell) : block := Block (c_col c) (value_of ss c) (cell_events row c).
Definition cell_line (r : xrow) : line := Line (r_nr r) (r_atts r) (map (cell_block (r_nr r)) (r_cells r)).
Lemma cell_line_events r : line_events (cell_line r) = row_events r.
Proof. unfold line_events, row_events, cell_line. cbn [l_atts l_blocks]. by rewrite map_map. Qed.

Lemma cells_good row cs : 0 < row < 10 ^ 19 → ∀ row0 j, 0 <= j → increasing j cs → cs ≠ [] → j = 0 ∨ row0 = row → good_blocks row0 row j (map (cell_block row) cs).
Proof.
  intros Hr. induction cs as [|c cs IH]; intros row0 j Hj Hi Hne Hrow; [done|]. destruct Hi as (Hc & Ha & Hi). split; [apply cell_good; (done || lia)|].
  destruct cs as [|c' cs]; [done|]. apply IH; [cbn; lia|done|done|by right].
Qed.
Lemma cell_lines_good rs : ∀ L, 0 <= L → good_rows L rs → good_lines L (map cell_line rs).
Proof.
  induction rs as [|r rs IH]; intros L HL; [done|]. intros [(H1 & H2 & H3 & H4) H]. split; [|apply IH; [cbn; lia|done]].
  unfold good_line, cell_line. cbn [l_row l_atts l_blocks]. split_and!; [done|lia|lia|]. destruct (decide (r_cells r = [])) as [He|He].
  - rewrite He. cbn [map good_blocks]. rewrite (H4 He). by rewrite u64_small by lia.
  - apply cells_good; (done || lia || by left).
Qed.

(** Behind and in front of the rows. *)
Lemma others_run l es d : Forall other l → h_start d = Some FindSheetdata → h_end d = None ∨ h_end d = Some WorksheetEnd → h_data d = false → stopped d = false →
  run (l ++ es) d = run es d.
Proof.
  intros H Hs He Hd Hst. induction H as [|e l Ho H IH]; [done|]. cbn [app run]. assert (handle d e = d) as ->; [|by rewrite Hst].
  destruct e as [n a|n|b]; unfold dispatch.
  - rewrite Hs. unfold find_sheetdata_start. by rewrite Ho.
  - destruct He as [-> | ->]; [done|]. unfold find_worksheet_end. by rewrite Ho.
  - by rewrite Hd.
Qed.
Definition sheet_tail (x : surroundings) : list event := End_ (lit "sheetData") :: sd_after x ++ [End_ (lit "worksheet")].
Lemma tail_runs x L k width : good_surroundings x → ∃ r d', run (sheet_tail x) (between L k width false) = (false, r, d').
Proof.
  intros [_ Ha]. unfold sheet_tail. cbn [run].
  change (handle (between L k width false) (End_ (lit "sheetData"))) with (set_handlers (between L k width false) (Some FindSheetdata) (Some WorksheetEnd)).
  change (stopped (set_handlers (between L k width false) (Some FindSheetdata) (Some WorksheetEnd))) with false. cbv iota.
  rewrite others_run by (done || by right). eexists _, _. reflexivity.
Qed.

Lemma head_runs x es : good_surroundings x →
  run (Start (lit "worksheet") (ws_atts x) :: sd_before x ++ Start (lit "sheetData") (sd_atts x) :: es) (initial ss) = run es (between 0 0 0 false).
Proof.
  intros [H _]. cbn [run]. change (handle (initial ss) (Start (lit "worksheet") (ws_atts x))) with {initial ss with h_start := Some FindSheetdata}.
  change (stopped {initial ss with h_start := Some FindSheetdata}) with false. cbv iota.
  rewrite others_run by (done || by left). reflexivity.
Qed.

(** The lines of a document are read. *)
Lemma document_read x ls gs : good_surroundings x → good_lines 0 ls →
  delivered (Start (lit "worksheet") (ws_atts x) :: sd_before x ++ Start (lit "sheetData") (sd_atts x) :: concat (map line_events ls) ++ sheet_tail x) gs →
  ∃ n, ∀ fuel, (n <= fuel)%nat → read_sheet R false false fuel (MkSheet (initial ss) gs 0 0 0 0) = Some (sheet_text 0 0 ls).
Proof.
  intros Hx Hl Hg. apply sheet_reads_enough. eapply (lines_read (sheet_tail x) ls); [intros; by apply tail_runs|done|exact Hg| |lia|lia].
  rewrite clear_running by done. by apply head_runs.
Qed.
End Pull.

(** What is reported to callbacks, row by row. *)
Fixpoint grid (row : list str) (cs : list call) : list (list str) :=
  match cs with
  | [] => []
  | Cell _ _ v :: cs => grid (row ++ [default [] v]) cs
  | Row _ _ :: cs => row :: grid [] cs
  end.

Lemma grid_cells cs r rest : Forall (λ c, match c with Cell _ _ _ => True | _ => False end) cs →
  grid r (cs ++ rest) = grid (r ++ map (λ c, match c with Cell _ _ v => default [] v | _ => [] end) cs) rest.
Proof.
  intros H. revert r. induction H as [|c cs Hc H IH]; intros r; cbn [app map]; [by rewrite app_nil_r|]. destruct c as [row col v|]; [|done].
  cbn [grid]. by rewrite IH, <- app_assoc.
Qed.
Lemma grid_blanks row k n r rest : grid r (blanks row k n ++ rest) = grid (r ++ replicate n []) rest.
Proof.
  rewrite grid_cells by (apply Forall_map, Forall_forall; done). f_equal. f_equal. unfold blanks. rewrite map_map. cbn [default from_option].
  generalize 0%nat. induction n as [|n IH]; intros a; [done|]. cbn. by rewrite IH.
Qed.
Lemma grid_row_cells ss row cs : ∀ k r rest, grid r (cell_calls ss row k cs ++ rest) = grid (r ++ cells_text k (map (cell_block ss row) cs)) rest.
Proof.
  induction cs as [|c cs IH]; intros k r rest; cbn [cell_calls map cells_text]; [by rewrite app_nil_r|].
  rewrite <- !app_assoc, grid_blanks. cbn [app grid]. rewrite IH. cbn [b_col b_value cell_block]. by rewrite <- !app_assoc.
Qed.
Lemma last_block_cells ss row cs : ∀ k, last_block k (map (cell_block ss row) cs) = last_col k cs.
Proof. induction cs as [|c cs IH]; intros k; [done|]. apply IH. Qed.

Lemma grid_gap width row n rest : grid [] (gap_calls width row n ++ rest) = replicate n (replicate (Z.to_nat width) []) ++ grid [] rest.
Proof.
  revert row. induction n as [|n IH]; intros row; [done|]. rewrite gap_calls_S, <- app_assoc, grid_blanks. cbn [app grid replicate]. by rewrite IH.
Qed.

Lemma grid_sheet skip ss rs : ∀ width L, grid [] (sheet_calls skip ss width L rs) = sheet_text skip width L (map (cell_line ss) rs).
Proof.
  induction rs as [|r rs IH]; intros width L; [done|]. cbn [sheet_calls map sheet_text].
  assert (line_width width (cell_line ss r) = width_after width r) as ->.
  { unfold line_width, width_after. cbn [l_row l_blocks cell_line]. by rewrite last_block_cells. }
  assert (∀ rest, grid [] ((if skip then [] else gap_calls width (L + 1) (Z.to_nat (r_nr r - (L + 1)))) ++ rest) = gap_text skip width L (r_nr r) ++ grid [] rest) as ->.
  { intros rest. unfold gap_text. destruct skip; [done|]. rewrite grid_gap. do 2 f_equal. lia. }
  cbn [l_row cell_line]. f_equal. unfold row_calls. rewrite <- !app_assoc, grid_row_cells, grid_blanks. cbn [app grid]. rewrite IH.
  unfold row_text. cbn [l_row l_blocks cell_line]. by rewrite last_block_cells.
Qed.

(** C33: the application that pulls a sheet gets what the callbacks are called with, with either setting of the flag that
    skips rows that are left out: for each row its cells, each in its column, the empty ones in between and up to the width
    as empty texts, and without the flag blank rows for those the sheet leaves out.  The loops end,
    wherever the parser is suspended and however it cuts the texts.  The sheet is a worksheet element with any attributes
    and other elements; its rows are in order, none is hidden ([hidden_row_differs]), with any attributes, and with cells or
    without, but none is an empty element that the parser reports in one go ([delivered] excludes it: [empty_row_loses_next]);
    its cells are in order with coordinates and any other attributes, with a text, a number or a shared string as value, behind a formula or not. *)
Theorem pull_is_push skip x rs ss gs : good_surroundings x → good_rows 0 rs → delivered (sheet_events x rs) gs →
  ∃ n, ∀ fuel, (n <= fuel)%nat →
    read_sheet skip false false fuel (MkSheet (initial ss) gs 0 0 0 0) = Some (grid [] (read skip false false (λ _, false) ss (sheet_events x rs))).
Proof.
  intros Hx Hr Hg. rewrite sheet_read, grid_sheet by done. apply (document_read skip ss x); [done|by apply cell_lines_good|].
  rewrite map_map, (map_ext _ _ (cell_line_events ss)). exact Hg.
Qed.

Lemma delivered_singles es : delivered es (map (λ e, [e]) es).
Proof. exists es. split; [apply cuts_self|]. by induction es as [|e es IH]; cbn; constructor. Qed.

(** ** Integers *)

(** A number that begins with no zero is read in decimal. *)
Lemma span_base_digits s : Forall (λ c, is_digit c = true) s → span_base 10 s = (map dval s, []).
Proof.
  induction 1 as [|c s Hc H IH]; [done|]. cbn [span_base map]. unfold base_digit. rewrite Hc. cbn [mbind option_bind].
  unfold is_digit in Hc. apply andb_true_iff in Hc as [_ Hc%Z.leb_le]. rewrite (proj2 (Z.ltb_lt (dval c) 10)) by lia. by rewrite IH.
Qed.
Lemma base_value_digits s : base_value 10 (map dval s) = value s.
Proof. unfold base_value, value. generalize 0 as a. induction s as [|c s IH]; intros a; [done|]. apply IH. Qed.
Lemma dec_no_zero n c r : 0 < n < 10 ^ 20 → dec n = c :: r → c ≠ "0"%char.
Proof.
  intros Hn E ->. destruct (dec_aux_spec 20 n ltac:(lia)) as (_ & Hv & _ & Hl). fold (dec n) in *. rewrite E in *.
  assert (value ("0"%char :: r) = value r) as E2 by done. rewrite E2 in Hv. clear E2.
  assert (∀ s, Forall (λ c, is_digit c = true) s → 0 <= value s < 10 ^ Z.of_nat (length s)) as Hbound.
  { clear. intros s Hs. induction s as [|c s IH] using rev_ind; [done|]. apply Forall_app in Hs as [Hs [Hc _]%Forall_cons].
    unfold value in *. rewrite foldl_app. cbn [foldl]. specialize (IH Hs). unfold is_digit in Hc. apply andb_true_iff in Hc as [H1%Z.leb_le H2%Z.leb_le].
    rewrite length_app, Nat2Z.inj_add, Z.pow_add_r by lia. change (10 ^ Z.of_nat (length [c])) with 10. lia. }
  pose proof (dec_digits n ltac:(lia)) as Hd. rewrite E in Hd. apply Forall_cons in Hd as [_ Hd]. pose proof (Hbound r Hd) as Hb. rewrite Hv in Hb.
  destruct r as [|c r]; [simpl in Hb; lia|]. specialize (Hl (length (c :: r)) ltac:(simpl; lia) ltac:(lia)). simpl in Hl. lia.
Qed.
Lemma scan_dec n : 0 <= n < 10 ^ 19 → match dec n with
  | c :: r => if decide (c = "0"%char) then
      match r with x :: r' => if decide (x = "x"%char ∨ x = "X"%char) then base_value 16 (span_base 16 r').1 else base_value 8 (span_base 8 r).1 | [] => 0 end
      else base_value 10 (span_base 10 (dec n)).1
  | [] => 0
  end = n.
Proof.
  intros Hn. destruct (decide (n = 0)) as [->|Hz]; [by vm_compute|].
  destruct (dec n) as [|c r] eqn:E; [by destruct (dec_nonempty n ltac:(lia))|]. rewrite decide_False by (eapply dec_no_zero; [|exact E]; lia).
  rewrite <- E, span_base_digits by (apply dec_digits; lia). cbn [fst]. rewrite base_value_digits. apply dec_value. lia.
Qed.

(** An integer that was written is read as itself. *)
Lemma scan_dec_int z : - 2 ^ 63 <= z < 2 ^ 63 → scan_i (dec_int z) = z.
Proof.
  intros Hz. unfold dec_int. destruct (Z.ltb_spec z 0) as [Hneg|Hpos].
  - unfold scan_i. change (sign (skip_ws ("-"%char :: dec (- z)))) with (true, dec (- z)). cbv iota beta zeta. rewrite scan_dec by lia. lia.
  - pose proof (dec_digits z ltac:(lia)) as Hd. assert (sign (skip_ws (dec z)) = (false, dec z)) as E.
    { destruct (dec z) as [|c d] eqn:E; [done|]. apply Forall_cons in Hd as [Hc _]. destruct (digit_not_sign _ Hc).
      destruct (dec_int_head z [] ltac:(lia)) as (c' & d' & Ed & Hw). rewrite app_nil_r in Ed. unfold dec_int in Ed. rewrite (proj2 (Z.ltb_ge z 0)) in Ed by lia.
      rewrite E in Ed. injection Ed as <- <-. cbn [skip_ws]. rewrite Hw. cbn [sign]. by rewrite !decide_False. }
    unfold scan_i. rewrite E. cbv iota beta zeta. rewrite scan_dec by lia. lia.
Qed.

(** ** A sheet *)
Module Sheet1.
Definition sheet_of (es : list (list event)) : sheet := MkSheet (initial None) es 0 0 0 0.
Definition texts (rows : list (list string)) : list (list str) := map (map lit) rows.

(** Rows 1, 2 and 5; row 2 is empty, B5 is left out. *)
Definition rows : list xrow :=
  [MkRow 1 [(lit "r", lit "1"); (lit "spans", lit "1:3")]
     [plain_cell 1 None (Some [lit "na"; lit "me"]); plain_cell 2 None (Some [lit "x"]); plain_cell 3 None (Some [lit "y"])];
   MkRow 2 [(lit "ht", lit "20")] [];
   MkRow 5 [] [MkCell 1 [(lit "s", lit "3")] [] (Some [lit "n"]); MkCell 3 [] [Start (lit "f") []; Data (lit "A1"); End_ (lit "f")] (Some [lit "010"])]].
Definition around : surroundings := Surroundings [(lit "xmlns", lit "main")] [Start (lit "cols") []; End_ (lit "cols")] [] [Start (lit "pageMargins") []; End_ (lit "pageMargins")].

Lemma pull_is_push_witness : let s := sheet_of (map (λ e, [e]) (sheet_events around rows)) in
  (∃ n, ∀ fuel, (n <= fuel)%nat → read_sheet true false false fuel s = Some (texts [["name"; "x"; "y"]; [""; ""; ""]; ["n"; ""; "010"]]%string)) ∧
  (∃ n, ∀ fuel, (n <= fuel)%nat → read_sheet false false false fuel s =
     Some (texts [["name"; "x"; "y"]; [""; ""; ""]; [""; ""; ""]; [""; ""; ""]; ["n"; ""; "010"]]%string)).
Proof.
  assert (∀ skip, ∃ n, ∀ fuel, (n <= fuel)%nat → read_sheet skip false false fuel (sheet_of (map (λ e, [e]) (sheet_events around rows))) =
    Some (grid [] (read skip false false (λ _, false) None (sheet_events around rows)))) as H.
  { intros skip. apply (pull_is_push skip around rows None).
    - split; repeat constructor.
    - cbn. split_and!; repeat constructor; done.
    - apply delivered_singles. }
  split; [destruct (H true) as [n Hn]|destruct (H false) as [n Hn]]; exists n; intros fuel Hf; (etrans; [exact (Hn fuel Hf)|vm_compute; reflexivity]).
Defined.

(** A hidden row: the callbacks are told its end, and who pulls gets no row for it. *)
Definition with_hidden_row : list event :=
  Start (lit "worksheet") [] :: Start (lit "sheetData") [] :: row_events (MkRow 1 [] [plain_cell 1 None (Some [lit "x"])]) ++
  row_events (MkRow 2 [(lit "hidden", lit "1")] [plain_cell 1 None (Some [lit "n"])]) ++ [End_ (lit "sheetData"); End_ (lit "worksheet")].
Example hidden_row_differs : read_sheet true false false 20 (sheet_of (map (λ e, [e]) with_hidden_row)) = Some [[lit "x"]] ∧
  grid [] (read true false false (λ _, false) None with_hidden_row) = [[lit "x"]; []].
Proof. split; vm_compute; reflexivity. Qed.

(** A row that is an empty element: its end comes with its start, and the row behind it is skipped. *)
Definition after_empty_row : list (list event) :=
  [[Start (lit "worksheet") []]; [Start (lit "sheetData") []]; [Start (lit "row") []; End_ (lit "row")]; [Start (lit "row") []];
   [Start (lit "c") []]; [Start (lit "v") []]; [Data (lit "lost")]; [End_ (lit "v")]; [End_ (lit "c")]; [End_ (lit "row")];
   [End_ (lit "sheetData")]; [End_ (lit "worksheet")]].
Example empty_row_loses_next : read_sheet true false false 10 (sheet_of after_empty_row) = Some [[]] ∧
  grid [] (read true false false (λ _, false) None (concat after_empty_row)) = [[]; [lit "lost"]].
Proof. split; vm_compute; reflexivity. Qed.

(** Integers are octal and hexadecimal by their prefixes. *)
Example octal : map scan_i [lit "010"; lit "0x1F"; lit "42"; lit "none"] = [8; 31; 42; 0].
Proof. vm_compute. reflexivity. Qed.

(** Times are written and read to the second from 1970 on, and one second off before. *)
Definition time_again (t : Z) : option Z := unix_time (strtod (XlsxWrite.printf_G 16 (XlsxWrite.excel_time t))).
Example times : map time_again [0; 1; 86399; 1234567890; 1700000000; -1; -86401] =
  [Some 0; Some 1; Some 86399; Some 1234567890; Some 1700000000; Some 0; Some (-86400)].
Proof. vm_compute. reflexivity. Qed.
End Sheet1.
End XlsxPullSpec.
