(* ===== verification/XlsxPullRound.v ===== *)
(** * What is written is pulled (properties of XlsxWrite.v and XlsxPull.v)

    The workbook that the writer makes, read through the interface without callbacks: its one sheet is
    listed, and its rows and cells are those that were written. *)
From Stdlib Require Import Floats.SpecFloat.
From coqutil Require Import Datatypes.RecordSetters.
From S2P Require Import Prelude CppString Decimal XlsxRead XlsxReadSpec XlsxWrite XmlDoc XlsxWriteSpec XlsxPull XlsxPullSpec.
Import OCamlLikeNotations XmlDoc XlsxWrite XlsxWriteSpec XlsxRead XlsxReadSpec XlsxPull XlsxPullSpec Sheet.

#[local] Open Scope Z_scope.

Module XlsxPullRound.
#[local] Arguments xml : simpl never.
#[local] Arguments lit : simpl never.

(** ** A parser that is suspended *)

(** The groups of a document: the end of an empty element may come with its start. *)
Inductive groups_of : list token → list (list event) → Prop :=
| groups_nil : groups_of [] []
| groups_start n a ts gs : groups_of ts gs → groups_of (STag n a :: ts) ([Start n a] :: gs)
| groups_end n ts gs : groups_of ts gs → groups_of (ETag n :: ts) ([End_ n] :: gs)
| groups_empty n a ts gs : groups_of ts gs → groups_of (Empty n a :: ts) ([Start n a; End_ n] :: gs)
| groups_empty_apart n a ts gs : groups_of ts gs → groups_of (Empty n a :: ts) ([Start n a] :: [End_ n] :: gs)
| groups_chars s ps ts gs : concat ps = s → (s = [] ↔ ps = []) → groups_of ts gs → groups_of (Chars s :: ts) (map (λ p, [Data p]) ps ++ gs).

Class SuspendableLaws (expat : str → option (list (list event))) : Prop :=
  suspends ts : well_formed ts = true → ∃ gs, expat (document ts) = Some gs ∧ groups_of ts gs.

Lemma concat_singles {A B} (f : A → B) l gs : concat (map (λ p, [f p]) l ++ gs) = map f l ++ concat gs.
Proof. induction l as [|a l IH]; [done|]. exact (f_equal (cons (f a)) IH). Qed.

Lemma groups_cuts ts gs : groups_of ts gs → cuts (events ts) (concat gs).
Proof.
  induction 1 as [|n a ts gs H IH|n ts gs H IH|n a ts gs H IH|n a ts gs H IH|s ps ts gs Hs Hn H IH].
  - constructor.
  - by constructor.
  - by constructor.
  - by do 2 constructor.
  - by do 2 constructor.
  - rewrite concat_singles. destruct s as [|c s].
    + destruct ps as [|p ps]; [done|]. discriminate (proj1 Hn eq_refl).
    + apply (cuts_data ps (c :: s)); [intros ->; discriminate (proj2 Hn eq_refl)|done|done].
Qed.
#[export] Instance suspendable_parser expat : SuspendableLaws expat → ParserLaws (λ t, @concat _ <$> expat t).
Proof. intros H ts Hw. destruct (H ts Hw) as (gs & -> & Hg). exists (concat gs). by split; [|apply groups_cuts]. Qed.

(** A parser that reports one event at a time. *)
Lemma singles_of ts : ∀ es, cuts (events ts) es → groups_of ts (map (λ e, [e]) es).
Proof.
  induction ts as [|[n a|n a|n|s] ts IH]; intros es Hc.
  - inversion Hc. constructor.
  - inversion Hc; subst. constructor. by apply IH.
  - inversion Hc as [|? ? ? ? Hc'| |]; subst. inversion Hc'; subst. cbn [map]. apply groups_empty_apart. by apply IH.
  - inversion Hc; subst. constructor. by apply IH.
  - destruct s as [|c s].
    + by apply (groups_chars [] []); [..|apply IH].
    + inversion Hc as [| | |ps s' ? ? Hps Hs Hc']; subst. rewrite map_app, map_map.
      apply (groups_chars (c :: s) ps); [done| |by apply IH]. split; [done|]. intros ->. by destruct Hps.
Qed.
#[export] Instance single_events expat : ParserLaws expat → SuspendableLaws (λ t, map (λ e, [e]) <$> expat t).
Proof. intros H ts Hw. destruct (H ts Hw) as (es & -> & Hc). eexists. split; [reflexivity|]. by apply singles_of. Qed.

(** No row is an empty element. *)
Definition no_empty_row (t : token) : Prop := match t with Empty n _ => same_name n (lit "row") = false | _ => True end.
Lemma groups_delivered ts gs : groups_of ts gs → Forall no_empty_row ts → delivered (events ts) gs.
Proof.
  intros H Hf. exists (concat gs). split; [by apply groups_cuts|].
  induction H as [|n a ts gs H IH|n ts gs H IH|n a ts gs H IH|n a ts gs H IH|s ps ts gs Hs Hn H IH]; [constructor|..]; apply Forall_cons in Hf as [Hrow Hf]; specialize (IH Hf); cbn [concat app].
  - by constructor.
  - by constructor.
  - by constructor.
  - by do 2 constructor.
  - rewrite concat_singles. clear Hs Hn. induction ps as [|p ps IHp]; [done|]. cbn [map app]. by constructor.
Qed.

(** ** The cells of the writer *)
Section Lines.
Context (R : bool) (ss : option (list (option str))).
Abbreviation run := (run R).

Definition op_block (j : Z) (o : op) (t : option str) : block := Block (j + 1) (seen t) (events (cell_tokens o)).

Lemma chars_run s row k width ty es : ty ≠ none →
  run (match s with [] => [] | _ :: _ => [Data s] end ++ es) (in_cell ss row k width None ty true) = run es (in_cell ss row k width (match s with [] => None | _ => Some s end) ty true).
Proof.
  intros Hty. destruct s as [|c s]; [done|]. pose proof (pieces_run R ss [c :: s] row k width None ty es Hty) as E.
  cbn [map app concat] in E. rewrite app_nil_r in E. exact E.
Qed.

(** A value is what is seen of it. *)
Lemma value_seen ss' row k width ty s : ty = value_string ∨ ty = inline_string → c_str s = s →
  default [] (cell_value (in_cell ss' row k width (match s with [] => None | _ => Some s end) ty false)) = s.
Proof. intros Hty Hs. destruct s as [|c s]; [done|]. unfold cell_value, in_cell. cbn [celldata cell_string_type]. by destruct Hty as [-> | ->]; rewrite Hs. Qed.
Lemma default_seen t : default [] (seen t) = default [] t.
Proof. by destruct t as [[|]|]. Qed.

Lemma string_run style v row j width es : style = "1"%string ∨ style = "3"%string → match v with Some t => c_str t = t | None => True end →
  run (events (string_tokens style v) ++ es) (in_row ss row j width None false) = (true, es, in_row ss row (j + 1) width (Some (default [] v)) true).
Proof.
  intros Hs Hv. unfold events. destruct v as [t|]; cbn [string_tokens map concat XmlDoc.report app]; rewrite bare_cell_opened by (by destruct Hs as [-> | ->]).
  - rewrite inline_opened, value_opened by (by right). rewrite <- app_assoc, chars_run by done. cbn [app].
    rewrite value_closed by (by right). rewrite inline_closed, cell_closed, value_seen by (by auto). done.
  - by rewrite cell_closed.
Qed.
Lemma number_run style t row j width es : style = "2"%string ∨ style = "4"%string ∨ style = "5"%string → c_str t = t →
  run (events (number_tokens style t) ++ es) (in_row ss row j width None false) = (true, es, in_row ss row (j + 1) width (Some t) true).
Proof.
  intros Hs Ht. unfold events. cbn [number_tokens map concat XmlDoc.report app]. rewrite bare_cell_opened by (by destruct Hs as [-> |[-> | ->]]).
  rewrite value_opened by (by left). rewrite <- app_assoc, chars_run by done. cbn [app]. rewrite value_closed by (by left).
  rewrite cell_closed, value_seen by (by auto). done.
Qed.

Lemma cell_run o t row j width es : cell_text o = Some t →
  run (events (cell_tokens o) ++ es) (in_row ss row j width None false) = (true, es, in_row ss row (j + 1) width (Some (default [] t)) true).
Proof.
  destruct o as [v w|v|z|d|x| |h|n]; try done; intros [= <-]; cbn [cell_tokens].
  - apply string_run; [by left|]. destruct v; [apply c_str_c_str|done].
  - apply string_run; [by right|]. destruct v; [apply c_str_c_str|done].
  - apply number_run; [auto|apply c_str_plain, dec_int_plain].
  - apply number_run; [auto|apply c_str_plain, printf_G_plain].
  - apply number_run; [auto|apply c_str_plain, printf_G_plain].
Qed.
Lemma op_block_good o t row j : cell_text o = Some t → 0 <= j → j + 1 < 2 ^ 62 → good_block R ss row row j (op_block j o t).
Proof. intros Ht Hj Hb. split; [cbn; lia|]. intros width es. cbn [b_events b_col b_value op_block]. rewrite default_seen. by apply cell_run. Qed.

(** Rows and columns without gaps. *)
Fixpoint consecutive (j : Z) (bs : list block) : Prop :=
  match bs with [] => True | b :: bs => b_col b = j + 1 ∧ consecutive (j + 1) bs end.
Fixpoint numbered (L : Z) (ls : list line) : Prop :=
  match ls with [] => True | l :: ls => l_row l = L + 1 ∧ consecutive 0 (l_blocks l) ∧ numbered (L + 1) ls end.
Definition line_values (l : line) : list (option str) := map b_value (l_blocks l).

(** The rows of the document, from a call on; in a row that is open at column [j] or outside. *)
Lemma body_lines os : ∀ h L, 0 <= L → L + Z.of_nat (length os) < 2 ^ 61 →
  (∃ ls, events (body false h os) = concat (map line_events ls) ∧ good_lines R ss L ls ∧ numbered L ls ∧ rows_of None os = map line_values ls) ∧
  ∀ j r, 0 <= j → j + Z.of_nat (length os) < 2 ^ 61 → ∃ bs ls,
    events (body true h os) = concat (map b_events bs) ++ End_ (lit "row") :: concat (map line_events ls) ∧
    good_blocks R ss (L + 1) (L + 1) j bs ∧ consecutive j bs ∧ good_lines R ss (L + 1) ls ∧ numbered (L + 1) ls ∧
    rows_of (Some r) os = (r ++ map b_value bs) :: map line_values ls.
Proof.
  induction os as [|o os IH]; intros h L HL Hlen; cbn [length] in Hlen.
  { split; [by exists []|]. intros j r Hj _. exists [], []. cbn. by rewrite app_nil_r. }
  assert (u64 (L + 1) = L + 1) as Hu by (apply u64_small; lia).
  assert (∀ a bs ls, shown a → good_blocks R ss (L + 1) (L + 1) 0 bs → good_lines R ss (L + 1) ls →
    good_lines R ss L (Line (L + 1) a bs :: ls)) as Hline 
    by (intros a bs ls Ha Hb Hl; split; [split; [exact Ha|split; [cbn [l_row]; lia|cbn [l_row l_blocks]; by rewrite Hu]]|exact Hl]).
  cbn [body rows_of]. rewrite !events_app. unfold op_tokens, op_open.
  destruct (cell_text o) as [t|] eqn:Ht; rewrite ?events_app.
  - split.
    + destruct (IH (op_height h o) L HL ltac:(lia)) as [_ H2]. destruct (H2 1 [seen t] ltac:(lia) ltac:(lia)) as (bs & ls & E & H3 & H4 & H5 & H6 & H7).
      exists (Line (L + 1) ((if h =? 0 then [] else [(lit "ht", printf_G 6 (CALCULATE_COLUMN_HEIGHT h)); at_ "customHeight" "1"]) ++ row_atts o) (op_block 0 o t :: bs) :: ls).
      split_and!; [|apply Hline; [destruct (h =? 0), o; by cbn; names|by split; [apply op_block_good; (done || lia)|]|done]|done..|etrans; [exact H7|done]].
      rewrite E. unfold row_tag. cbn [map concat line_events l_atts l_blocks b_events op_block]. unfold events at 1. cbn [map concat XmlDoc.report app].
      unfold line_events. cbn [l_atts l_blocks map concat b_events op_block app]. by rewrite <- !app_assoc.
    + intros j r Hj Hjl. cbn [length] in Hjl. destruct (IH (op_height h o) L HL ltac:(lia)) as [_ H2].
      destruct (H2 (j + 1) (r ++ [seen t]) ltac:(lia) ltac:(lia)) as (bs & ls & E & H3 & H4 & H5 & H6 & H7).
      exists (op_block j o t :: bs), ls. split_and!; [|by split; [apply op_block_good; (done || lia)|]|done..|].
      * rewrite E. cbn [map concat b_events op_block]. by rewrite <- !app_assoc.
      * etrans; [exact H7|]. cbn [map b_value op_block]. by rewrite <- app_assoc.
  - destruct o as [| | | | | |x|x]; try done.
    2: { pose proof (IH x L HL ltac:(lia)) as [H1 H2]. split; [exact H1|]. intros j r Hj Hjl. cbn [length] in Hjl. apply (H2 j r); lia. }
    2: { pose proof (IH h L HL ltac:(lia)) as [H1 H2]. split; [exact H1|]. intros j r Hj Hjl. cbn [length] in Hjl. apply (H2 j r); lia. }
    cbn [op_height]. rewrite !events_app. destruct (IH h (L + 1) ltac:(lia) ltac:(lia)) as [(ls & E & H3 & H4 & H5) _]. split.
    + exists (Line (L + 1) ((if h =? 0 then [] else [(lit "ht", printf_G 6 (CALCULATE_COLUMN_HEIGHT h)); at_ "customHeight" "1"]) ++ []) [] :: ls).
      split_and!; [|apply Hline; [destruct (h =? 0); by cbn; names|done|done]|done..|by rewrite H5].
      rewrite E. done.
    + intros j r Hj Hjl. exists [], ls. split_and!; [|done..|].
      * by rewrite E.
      * change (default [] (Some r)) with r. by rewrite H5, app_nil_r.
Qed.
End Lines.

(** ** The sheet *)

(** Rows of texts, filled up to the width of the first; [L] rows come before. *)
Fixpoint text_grid (width L : Z) (rows : list (list (option str))) : list (list str) :=
  match rows with
  | [] => []
  | r :: rows =>
      let k := Z.of_nat (length r) in
      let w := if (L + 1 =? 1) && (width =? 0) then k else width in
      (map (default []) r ++ replicate (Z.to_nat (w - k)) []) :: text_grid w (L + 1) rows
  end.

Lemma consecutive_text j bs : consecutive j bs →
  cells_text j bs = map (default []) (map b_value bs) ∧ last_block j bs = j + Z.of_nat (length bs).
Proof.
  revert j. induction bs as [|b bs IH]; intros j H; [cbn; split; [done|lia]|]. destruct H as [Hb H]. destruct (IH _ H) as [E1 E2]. rewrite <- Hb in E1, E2.
  cbn [cells_text map last_block foldl length] in *. split; [|unfold last_block in E2; rewrite E2; lia].
  rewrite E1. by replace (Z.to_nat (b_col b - 1 - j)) with 0%nat by lia.
Qed.
Lemma numbered_text R ls : ∀ width L, numbered L ls → sheet_text R width L ls = text_grid width L (map line_values ls).
Proof.
  induction ls as [|l ls IH]; intros width L H; [done|]. destruct H as (Hr & Hc & H). cbn [map sheet_text text_grid].
  destruct (consecutive_text _ _ Hc) as [E1 E2]. unfold gap_text. rewrite Hr. replace (Z.to_nat (L + 1 - 1 - L)) with 0%nat by lia.
  unfold line_width, row_text, line_values. rewrite E1, E2, Hr, length_map, Z.add_0_l. by destruct R; cbn [replicate app]; rewrite IH.
Qed.

Lemma no_empty_rows fr cs os : Forall no_empty_row (sheet_doc (before fr cs) (body false 0 os)).
Proof.
  constructor; [done|]. apply Forall_app. split.
  { unfold before. apply Forall_app. split; [destruct fr; repeat constructor|]. destruct cs as [|c cs]; [done|]. constructor; [done|]. apply Forall_app. split; [|by repeat constructor].
    generalize (c :: cs) as l, 0 as k. clear. induction l as [|c l IH]; intros k; [done|]. constructor; [done|apply IH]. }
  constructor; [done|]. apply Forall_app. split; [|by repeat constructor].
  generalize 0 as h, false as open. induction os as [|o os IH]; intros h open; cbn [body]; [by destruct open; repeat constructor|].
  apply Forall_app. split; [|apply IH]. unfold op_tokens. destruct (cell_text o).
  - apply Forall_app. split; [destruct open; by repeat constructor|]. destruct o as [[v|] w|[v|]|z|d|x| |h'|n]; cbn; by repeat constructor.
  - destruct o; try done. apply Forall_app. split; [destruct open; by repeat constructor|by repeat constructor].
Qed.

Lemma sheet_doc_events fr cs os : events (sheet_doc (before fr cs) (body false 0 os)) =
  Start (lit "worksheet") spaces :: events (before fr cs) ++ Start (lit "sheetData") [] :: events (body false 0 os) ++ [End_ (lit "sheetData"); End_ (lit "worksheet")].
Proof.
  unfold sheet_doc.
  change (events (STag (lit "worksheet") spaces :: before fr cs ++ STag (lit "sheetData") [] :: body false 0 os ++ [ETag (lit "sheetData"); ETag (lit "worksheet")]))
    with (Start (lit "worksheet") spaces :: events (before fr cs ++ [STag (lit "sheetData") []] ++ body false 0 os ++ [ETag (lit "sheetData"); ETag (lit "worksheet")])).
  by rewrite !events_app.
Qed.

(** The names of the sheets, one after the other. *)
Lemma names_pulled t gs : groups_of (workbook_doc t) gs → ∃ l', xlsxioread_sheetlist_next (SheetList (Some gs) None) = (Some t, l') ∧ (xlsxioread_sheetlist_next l').1 = None.
Proof.
  intros H. unfold workbook_doc in H. repeat match goal with H : groups_of (_ :: _) _ |- _ => inversion H; subst; clear H | H : groups_of [] _ |- _ => inversion H; subst; clear H end.
  all: eexists; split; reflexivity.
Qed.

(** What is written is pulled.  Whatever an application has written, an application that reads
    through the interface without callbacks finds the sheet in the list of sheets, and no other; its
    loops end and get the rows that were written, with empty texts up to the width of the first, for a
    parser that is suspended after any event, or together with the end of an empty element. *)
Theorem written_is_pulled expat name os names : SuspendableLaws expat → Forall fits os → forallb xml_texts os = true →
  value_ok (title name) = true → Z.of_nat (length os) < 2 ^ 61 →
  ∃ archive, save name os = Some archive ∧
    let part f := stored archive f ≫= expat in
    (∃ l l', xlsxioread_sheetlist_open part names = Some l ∧ xlsxioread_sheetlist_next l = (Some (title name), l') ∧ (xlsxioread_sheetlist_next l').1 = None) ∧
    ∃ s, xlsxioread_sheet_open part names (Some (title name)) = Some s ∧
      ∀ skip, ∃ n, ∀ fuel, (n <= fuel)%nat → read_sheet skip false false fuel s = Some (text_grid 0 0 (rows_of None os)).
Proof.
  intros HL Hf Hx Hn Hl. destruct (save_documents name os Hf) as (fr & cs & archive & Hs & H1 & H2 & H3 & H4). exists archive. split; [done|]. intros part.
  pose proof (suspendable_parser expat HL) as HP.
  assert (∀ f ts, stored archive f = Some (document ts) → well_formed ts = true → Forall (λ e, match e with Data _ => False | _ => True end) (events ts) →
    (@concat _ <$> part f) = Some (events ts)) as Hpart.
  { intros f ts Hst Hw Hd. unfold part. rewrite Hst. by apply (parses_to (λ t, @concat _ <$> expat t)). }
  destruct (workbook_parts (λ f, @concat _ <$> part f) names (title name)) as (Hfiles & _ & Hparts).
  - apply (Hpart _ content_types); [done|apply content_types_doc|repeat constructor].
  - apply (Hpart _ workbook_rels); [done|apply workbook_rels_doc|repeat constructor].
  - apply (Hpart _ (workbook_doc _)); [done|by apply workbook_doc_formed|repeat constructor].
  - split.
    + unfold xlsxioread_sheetlist_open. rewrite Hfiles. cbn [last mbind option_bind].
      destruct (suspends (workbook_doc (title name))) as (gs & E & Hg); [by apply workbook_doc_formed|].
      destruct (names_pulled _ _ Hg) as (l' & E1 & E2). eexists _, l'. split; [reflexivity|]. split; [|done].
      unfold part. rewrite H3. cbn [mbind option_bind]. by rewrite E.
    + destruct (suspends _ (sheet_formed fr cs os Hx)) as (gs & E & Hg).
      unfold xlsxioread_sheet_open. rewrite Hparts. cbn [mbind option_bind]. unfold part at 1. rewrite H4. cbn [mbind option_bind]. rewrite E.
      eexists. split; [reflexivity|]. intros skip. destruct (body_lines skip None os 0 0) as [(ls & E1 & E2 & E3 & E4) _]; [lia|lia|].
      rewrite E4, <- (numbered_text skip) by done. change (default [] (Some gs)) with gs.
      apply (document_read skip None (Surroundings spaces (events (before fr cs)) [] [])); [split; [apply before_other|constructor]|done|].
      cbn [ws_atts sd_before sd_atts]. unfold sheet_tail. cbn [sd_after app]. rewrite <- E1, <- sheet_doc_events.
      apply groups_delivered; [done|apply no_empty_rows].
Qed.

Lemma written_is_pulled_witness : ∃ archive, save (Some (lit "R&D")) Workbook.ops = Some archive ∧
  let part f := stored archive f ≫= (λ t, map (λ e, [e]) <$> Small.expat t) in
  (∃ l l', xlsxioread_sheetlist_open part [] = Some l ∧ xlsxioread_sheetlist_next l = (Some (lit "R&D"), l') ∧ (xlsxioread_sheetlist_next l').1 = None) ∧
  ∃ s, xlsxioread_sheet_open part [] (Some (lit "R&D")) = Some s ∧
    ∀ skip, ∃ n, ∀ fuel, (n <= fuel)%nat → read_sheet skip false false fuel s = Some (text_grid 0 0 Workbook.rows).
Proof.
  replace Workbook.rows with (rows_of None Workbook.ops) by (vm_compute; reflexivity).
  apply (written_is_pulled (λ t, map (λ e, [e]) <$> Small.expat t) (Some (lit "R&D")) Workbook.ops []).
  - exact (single_events Small.expat Small.expat_laws).
  - repeat constructor; vm_compute; done.
  - vm_compute. reflexivity.
  - vm_compute. reflexivity.
  - vm_compute. reflexivity.
Defined.
End XlsxPullRound.
